(* ===== verification/_CoqProject ===== *)
-Q . S2P
Prelude.v
GoStrings.v
SqlLexer.v
LexGrammar.v
LexStable.v
SqlSplit.v
SqlCalls.v
QueryGate.v
AuthStore.v
RateLimiter.v
AuditText.v
AuditChain.v
AuditVerify.v
AuditSound.v
AuditRotate.v
Groups.v
Grants.v
Access.v
TokenScope.v
StoreInv.v
Reach.v
Ceiling.v
CeilingSound.v
RbacHandlers.v
Escalation.v
ScopeDelegation.v
UserReach.v
QueryHandler.v
Witnesses.v
WitnessesAccess.v
WitnessesAudit.v
Streaks.v
AlertDb.v
Thresholds.v
Cleaner.v
AlertLog.v
AlertWp.v
AlertSound.v
CleanerSound.v
OneAlert.v
AlerterRuns.v
Retention.v
Blackouts.v
WitnessesAlert.v
Threads.v
Accounts.v
Sessions.v
SessionLogic.v
SessionSteps.v
SessionMint.v
SessionSound.v
AccountOps.v
AccountSafety.v
SignIn.v
WitnessesAuth.v
EvictionList.v
Coalescer.v
CoalescerInv.v
CoalescedAudit.v
CoalescedSound.v
CoalescedRuns.v
WitnessesCoalesced.v
GoText.v
Redaction.v
DatastoreCatalog.v
DatastoreRequest.v
DatastoreQuery.v
SqlMeaning.v
DatastorePlan.v
DatastoreText.v
DatastoreVisible.v
DatastoreFilters.v
DatastoreSound.v
DatastoreTool.v
DatastoreSafe.v
WitnessesDatastore.v
ConnString.v
ConnGrammar.v
SettingRedaction.v
WitnessesRedaction.v
