(* ===== verification/Prelude.v ===== *)
(** * pgEdge AI DBA Workbench: a verification development

    The workbench lets people and language models look after a fleet of
    PostgreSQL servers.  A collector gathers metrics, an alerter watches them,
    and a server (server/src) offers a web client, a REST API and MCP tools
    over the stored metrics and over the monitored servers themselves.  The
    server is the part that can do damage: it holds the credentials of every
    monitored database, and it runs SQL that users and models write.  What
    keeps that safe is the subject of this development:

    - _who may do what_: users, nested groups, grants of connections, MCP
      items and admin permissions to groups, and API tokens whose scope
      restricts what their owner may do (server/src/internal/auth, an SQLite
      store and the RBAC checker over it);
    - _who may change that_: the handlers and transactions that grant, revoke,
      nest groups and rescope tokens, each bounded by the access of the token
      that asks (grant_scope.go, token_ceiling.go, api/rbac_*.go);
    - _what is remembered_: the audit log, a hash chain with anchors at both
      ends (audit.go, audit_tail.go, audit_head.go, audit_verify.go), and the
      counting of repeated refusals and failures in front of it
      (audit_denials.go, audit_failures.go, audit_coalesce.go);
    - _what a statement may do_: a lexer and a classifier that decide, from
      the text alone, whether a SQL statement only reads
      (server/src/internal/sqllex and server/src/internal/api/query_handlers.go);
    - _the endpoint that ties the two together_: POST
      /api/v1/connections/{id}/query, which runs read-only batches inside a
      read-only transaction and writes only when they are confirmed and the
      caller holds write access (query_handlers.go: executeQuery);
    - _what a model may read of the store_: the query_datastore tool, which
      turns a structured request into one SELECT over the collected metrics,
      the alerts and the configuration, limited to what its caller may see
      (tools/datastore_query_builder.go, datastore_catalog.go,
      query_datastore.go, metrics/redaction.go);
    - _what is shown of a credential_: connection strings and settings of the
      monitored servers, which are stored and displayed without their
      passwords (pkg/connstring, pkg/pgsettings);
    - _who one is_: accounts and passwords, sessions, API tokens and the
      middleware that authenticates each request (store.go,
      actor_store_users.go, federated_session.go, authenticate.go);
    - _how often one may try_: the sliding-window limiter in front of login
      (rate_limiter.go);
    - _what the alerter says_: the evaluation of the alert rules, the cleaner
      that ends alerts, the counters that keep both from flapping, blackouts
      and retention (alerter/src/internal/engine, database and cron).

    ** Files

    - [Prelude]: results of fallible functions with their [let!] notation,
      loops with a measure, tactics, the hint database [wb].
    - [GoStrings]: the parts of Go's strings, strconv and unicode/utf8
      packages that the code uses, on lists of bytes.
    - [SqlLexer]: sqllex/lexer.go.  Dollar tags, literal prefixes, quoted
      literals and identifiers with continuation lines, nested comments,
      [SkipNonCode] and the mask [MaskNonCode].
    - [LexGrammar]: a grammar of PostgreSQL's literals and comments given
      independently of the scanner ([region]), and the proofs that the scanner
      steps over exactly what the grammar derives.
    - [LexStable]: the lexer reads a piece cut out of a text between two
      semicolons as it reads it in place.
    - [SqlSplit]: sqllex/statements.go, with the splitter.
    - [SqlCalls]: sqllex/side_effects.go.  The lists of functions with side
      effects, the tokenizer for calls, the WITH-list tracker and the
      detector [CallsSideEffectingFunction]; a grammar of tokens ([scans]) and
      of calls ([calls_nothing]) to judge it by.
    - [QueryGate]: the read-only gate of query_handlers.go: keywords, locking
      clauses, EXPLAIN heads and option lists, placeholders, and
      [isReadOnlyStatement]; what a harmless statement is ([harmless]).
    - [AuthStore]: the tables of the SQLite store (store.go), group
      resolution (groups.go), the privilege reads (privileges.go) and the
      token scope reads (token_scope.go); the transaction discipline of a
      mutation (audit.go).
    - [Groups]: the membership mutations of groups.go, as transactions.
    - [Grants]: the grants and revocations of privileges.go with the guard on
      lifting a connection's restriction, and the deletion of a group.
    - [Access]: access.go, whole: the checks, the ceiling a token puts on
      them, the report of effective privileges and the visible connections.
    - [TokenScope]: the scope mutations of token_scope.go and
      token_superuser_owner.go with their guards (token_owner_guard.go,
      token_scope_snapshot.go, and the comparison of scopes in grant_scope.go).
    - [StoreInv]: what every mutation of [Groups], [Grants] and [TokenScope]
      keeps true of the tables.
    - [Reach]: what a caller reaches (a level on a connection, an item, a
      permission) when the store works, in terms of the tables.
    - [Ceiling]: token_ceiling.go and grant_scope.go: what the acting token
      may give, take away and delegate.  [CeilingSound]: each approval says
      that the token itself reaches what it gives.
    - [RbacHandlers]: the handlers of api/rbac_*.go that change access, from
      the permission check to the write.  [Escalation], [ScopeDelegation] and
      [UserReach]: what any run of them can and cannot do.
    - [RateLimiter]: rate_limiter.go.
    - [AuditText]: how the audit log renders times, numbers and fields, and
      that no rendering is ambiguous.  [AuditChain]: events, hashes, tail
      anchors and recordAudit.  [AuditVerify]: verification, the purge, the
      checks after a change of secret.  [AuditSound], [AuditRotate]: what they
      guarantee.  In [AuthStore] an event is appended or the transaction fails;
      [recordAudit_inv] of [AuditSound] is that contract for the chain.
    - [EvictionList]: audit_eviction_list.go, a doubly linked list, and the
      list its links represent.  [Coalescer]: the coalescer of audit_denials.go
      and audit_failures.go, once for both.  [CoalescerInv]: its invariant and
      what each operation does to the counts.  [CoalescedAudit]: the two
      instances and the operations of the store that use them.
      [CoalescedSound], [CoalescedRuns]: no count is lost.
    - [QueryHandler]: executeQuery and the functions that run statements.
    - [Threads]: goroutines that share a state, and rely-guarantee reasoning
      about every schedule of them.
    - [Accounts]: the rows of users and tokens and the operations on them.
    - [Sessions]: sign-in, sessions, refreshes, the authentication of requests,
      and the goroutines of the server.  [SessionLogic], [SessionSteps]: the
      invariant of its state and a rule for each kind of step.  [SessionMint],
      [SessionSound]: the programs keep it.  [AccountOps], [AccountSafety]:
      what the operations do to accounts, and invariants of the accounts.
      [SignIn]: the theorems.
    - [Streaks]: the alerter's counters of consecutive samples
      (engine/hysteresis.go) and what they count.
    - [AlertDb]: the alerter's tables and queries (alerter/src/internal/
      database), its engine state, and the monad of its passes.
    - [Thresholds]: engine/thresholds.go, the evaluation of the alert rules.
      [Cleaner]: engine/cleanup.go, the clearing of alerts and the batched
      deletion of old ones.
    - [AlertLog]: what a log of the engine has to show for every alert raised,
      updated, cleared or announced.  [AlertWp]: weakest preconditions for the
      engine's monad.  [AlertSound], [CleanerSound]: the evaluator and the
      cleaner keep such logs.  [OneAlert]: open alerts stay unique.
      [AlerterRuns]: both passes in any order.
    - [Retention]: the batched deletion.  [Blackouts]: engine/blackouts.go and
      cron/cron.go.
    - [GoText]: Go's string functions on [string], for code whose text is
      SQL.  [Redaction]: which probe columns are masked and the SQL that masks
      them (metrics/redaction.go, pkg/redact, pkg/pgsettings).
      [DatastoreCatalog]: the sources of query_datastore
      (tools/datastore_catalog.go).  [DatastoreRequest]: its arguments, their
      parsing and what a parsed request satisfies, and [DatastoreQuery]: the builder of its statement
      (tools/datastore_query_builder.go).  [DatastoreTool]: the handler
      (tools/query_datastore.go).
    - [SqlMeaning]: the SQL such statements use, as syntax, text and three-valued meaning.
      [DatastorePlan]: the syntax tree of a request's statement, and
      [DatastoreText]: the builder writes the text of that tree.
      [DatastoreVisible]: the rows a caller may see, and that the tree reads
      those.  [DatastoreFilters]: what the caller's filters mean.
      [DatastoreSound], [DatastoreSafe]: the theorems.
    - [ConnString]: pkg/connstring, which builds connection strings and removes
      passwords from them.  [ConnGrammar]: libpq's keyword=value format as a
      grammar, the parts of a connection URI, and what is shown of either.
      [SettingRedaction]: pkg/pgsettings, what is kept of a setting that may
      hold a credential, with a grammar of simple shell commands.
    - [Witnesses], [WitnessesAccess], [WitnessesAudit], [WitnessesAlert],
      [WitnessesAuth], [WitnessesCoalesced], [WitnessesDatastore],
      [WitnessesRedaction]: every theorem with hypotheses, at a concrete
      input.

    ** How code becomes definitions

    A Go string is a list of bytes; positions are naturals.  A [for] loop is a
    step function run by [run] (below) with fuel taken from a measure of its
    state: the bytes or tokens still to read, or, for a recursive SQL query,
    the rows not yet reached.  For each loop it is proved that the measure
    decreases, and [run_unfold] and [run_ind], the only facts used of [run],
    need that proof; so the fuel always suffices and no theorem speaks of an
    exhausted loop.  EXPLAIN nesting recurses on the depth the source itself
    bounds, [maxExplainDepth].

    The store is a record of tables; the constraints of the schema (UNIQUE,
    CHECK, foreign keys) are tests in the insertions.  A query may fail: a
    store carries [fault], which says for every query (the function that sends
    it, its number in that function and its arguments) whether it fails, and
    the theorems hold for every [fault] unless they say [fault_free].  A
    mutation maps the tables to the tables after the transaction and to the
    error it returns.

    A handler checks on one state of the store and writes on a later one, so
    its checks and its write take different stores; [Escalation.runs] lets
    any number of requests overlap that way.  The audit log is a file that
    somebody may have edited, so [AuditChain.auditDB] is not constrained and
    the states the server produces are a relation, [AuditSound.log_run].

    Sessions live in a map that goroutines read and change without a lock, so
    there the interleaving is explicit: each request is a [Threads.prog], a
    tree of atomic steps over the state of the server, with its mutexes and
    with sessions as pointers into a heap.  What a goroutine does to the
    tables under the store's lock is one step.  The theorems of [SignIn] hold
    for every list of requests and every schedule; they are about a log that
    the steps write and no definition reads.

    The alerter shares its PostgreSQL tables with the server, the collector
    and its own other goroutines.  Each of its queries is a step of the monad
    [AlertDb.M], before which these may change the tables in any way
    ([World.others]); a query may fail, and a write that fails may still have
    landed.  The engine's log records every query with the tables it found,
    every write and every notification; no definition reads it, and the
    theorems are about it.  Floating-point values are IEEE numbers
    ([spec_float]), rounded to 24 bits where a column is REAL.

    The builder of query_datastore writes SQL text, and what it guarantees is
    about the meaning of that text.  [SqlMeaning] gives the fragment it writes
    a syntax, stratified as PostgreSQL's grammar is, with a printing function
    and an evaluation; [plan] builds a tree from the form of a request, which
    holds no value, and [DatastoreText.build_text] proves that the builder's
    text is the print of that tree.  The specification of the rows
    ([DatastoreVisible.row_visible]) mentions no SQL.  A [map[string]any] is
    an association list; a time is a number of nanoseconds, a duration wraps
    around at 64 bits.

    Parameters, for what is not part of the program: [UnicodeCase], the case
    mapping of text outside ASCII; the sharing lookup and the connection
    lister, which query the datastore; [Server], the monitored PostgreSQL
    server, which answers each request as a function of everything sent to it
    before; [World], the alerter's surroundings, with the rows its metric SQL
    returns; [CronLibrary], the cron parser; [GoParsers], strconv's and time's
    parsers; [Postgres], the comparison of values of other types and the value
    of a masking expression; [catalog_answers] and [tool_env], what the
    datastore answers to the tool; [Accounts.Credentials] and
    [Sessions.Surroundings], for bcrypt, SHA-256, Unicode, the clock, random
    tokens and the identity provider, with the laws of [Sessions.Reliable]; [AuditChain.Primitives], HMAC-SHA256, SHA-256 and JSON, with the
    laws of [AuditSound.PrimitiveLaws]; and [CoalescedAudit.DetailsJSON], the
    JSON of a row's details, with the laws of [CoalescedSound.DetailsLaws].  Nothing is assumed of any of them
    beyond what a theorem states.

    ** What is proved

    - C1, C5: no statement reaches a server unless the caller may access the
      connection, and, unless the gate passes it, has confirmed it and holds
      write access; everything else runs inside a read-only transaction.
    - C6: whatever the gate passes is [harmless], under both readings of
      backslashes: an inductive description of statements that only read,
      written with the lexical grammar, the words of the code and the tokens
      of the call grammar and with none of the gate's tests; the placeholder
      tests see exactly the code ([QueryGate.placeholder_in_code]).
    - C35, C37: of an ASCII script the splitter returns single statements,
      stable under splitting again; the call detector finds calls however
      they are written ([SqlCalls.select_call_detected]) and, when it passes
      a text, every listed name among the tokens of the text stands where
      the grammar reads no call; it passes any text whose tokens name none
      ([SqlCalls.detector_complete]).
    - C40: the scanner ends exactly where the grammar of literals, comments
      and dollar quotes does, and stays where no region begins; every scan
      terminates inside the text ([SqlLexer.scan_terminates]).
    - C7, C8, C18, C22: the datastore tool.  Its statement reads only rows
      its caller may see, those of connections the caller can open, and all
      of them while connection ids fit 32 bits; no value reaches the text;
      filters mean what they say, NULL included; the statement is bounded
      ([DatastoreSound.query_within_limits]).
    - C23, C24, C34: no source offers a secret column unmasked, statement
      text leaves masked, and a refused call sends nothing.
    - C25, C26, C27, C36: credentials.  Everything of a connection string is
      shown but its passwords, however it is written, and of a command in a
      setting only names; redacting again changes nothing, connection
      strings apart ([SettingRedaction.setting_redacted_once]); a connection
      string that is built is read back.
    - C11, C12, C13, C14: access control.  A failing database never widens
      access; a token never gives more than its owner has; a connection is
      listed iff it can be opened; write access in full.
    - C2, C9: delegation.  No run of requests by tokens leaves anybody with
      more than they or an acting token had; a scope change gives nothing
      its author lacks, nor does a clear
      ([UserReach.clear_scope_within_ceiling]); only a holder of a
      connection opens it to everybody
      ([Escalation.only_holder_lifts_restriction]); an approval to act on a
      user is sound ([UserReach.user_within_scope_sound]).
    - C10: token scopes.  Nobody but the owner can widen a token; a change
      approved against a scope that has since changed is refused
      ([TokenScope.judged_scope_is_current]).
    - C29: the store.  Every mutation, under any failures, keeps the tables
      well formed and the group hierarchy acyclic.
    - C3, C21, C30: the audit log.  A file that verifies is a state the log
      has been in; a log the server wrote always verifies; a change of
      secret reads as such ([AuditRotate.rotation_is_key_mismatch]);
      evidence of a truncation is never overwritten.
    - C28: coalescing.  Every refusal and failure reported is in a row, in a
      window, in the server log or was reported as unwritten; windows are
      bounded, by age, and swept when they have closed
      ([CoalescedRuns.sweep_leaves_no_closed_window]).
    - C33, C38: the rate limiter holds its limit in every window, and a full
      allowance returns.
    - C4, C15: authentication.  In every interleaving of the server's
      goroutines a request is served only on a public path, or for a session
      or a token that was good, and whose account was enabled, since the
      request arrived.
    - C16, C17: refreshes of a federated session never present a spent
      token, a user has at most ten sessions ([SignIn.sessions_capped]),
      passwords cannot be guessed beyond the limit, and an enabled superuser
      remains ([SignIn.administrator_remains]).
    - C19, C20, C31: the alerter.  In any run of its passes, with queries
      failing and others writing in between, every alert raised or cleared,
      and every notification ([AlerterRuns.notification_backed]), has its
      grounds in what the engine was told before; a condition has one open
      alert.
    - C32, C39: the counters count what they claim, the retention sweep ends
      and removes exactly what is old, and a schedule is due exactly in the
      minutes it names ([Blackouts.cron_matches_minute]).

    [Access.visible_without_user],
    [TokenScope.admin_wildcard_stored_with_names],
    [WitnessesAlert.failed_lookup_raises_twice],
    [WitnessesAlert.other_blackout_skips_schedule],
    [WitnessesAuth.disabled_session_survives],
    [WitnessesAuth.wildcards_delete_every_token],
    [WitnessesDatastore.days_wrap_around],
    [WitnessesDatastore.large_id_reads_nothing],
    [Witnesses.trimmed_statement_splits],
    [WitnessesRedaction.unclosed_bracket_leaks],
    [WitnessesRedaction.quote_not_read_back] and
    [WitnessesRedaction.redacted_twice_differs] record places where the
    code does not do what its comments say.

    ** What is not modelled

    In the modelled files: error texts, logging and HTTP encoding; timeouts;
    the order of rows where a query sorts them for display; mutexes, but for
    sign-in (a mutation holds the store's lock throughout, so mutations are
    sequential); which denials the handlers report; the query
    validation endpoint of query_handlers.go.  Of the audit log: the
    operator's re-chain and re-anchor, listing, and the comparison of the schema's text with the
    expected one, which is the flag [schema_intact] of a file; a row whose
    time does not parse, which makes every read of it fail.  Of the alerter:
    the text of the SQL behind each metric; connection-error alerts, whose
    text the shared redaction package masks; the calendar arithmetic of the
    retention cutoff; anomaly detection, re-evaluation and provider health;
    the delivery of a queued notification.  Of sign-in: the exchange with the
    identity provider and what it changes of an account, cookies, client
    addresses, and opening and migrating the store.  Of the datastore tool:
    its input schema, the aggregation and ordering of the rows the caller's
    query sees (their text is modelled, not their meaning), and the masking of
    one statement's text.

    Of the rest, in the order in which it would be taken up: the re-anchoring
    of the audit log; creation of groups; the
    linking of federated identities and forwarded-address extraction; the
    alerter's anomaly detection; the redaction of text (pkg/sqlredact,
    pkg/redact) and host validation; the conversation
    compactor and the search index.  The collector's probes, the REST handlers
    that only move rows between the datastore and JSON, the LLM proxies and
    the web client are input and output around these parts. *)
From stdpp Require Import base list strings gmap.
From Stdlib Require Import Ascii.

(** ** Results of fallible operations

    A Go function that returns [(v, error)] is a function into [res]. *)

Inductive res (E A : Type) : Type :=
| Ok (a : A)
| Err (e : E).
Arguments Ok {E A} _.
Arguments Err {E A} _.

Declare Scope res_scope.
Delimit Scope res_scope with res.

Definition rbind {E A B} (m : res E A) (k : A -> res E B) : res E B :=
  match m with Ok a => k a | Err e => Err e end.

Notation "'let!' x ':=' m 'in' k" := (rbind m (fun x => k))
  (at level 10, x pattern, m at level 100, k at level 200,
   format "'[v' 'let!'  x  ':='  m  'in' '/' k ']'") : res_scope.

Definition is_ok {E A} (m : res E A) : bool :=
  match m with Ok _ => true | Err _ => false end.

Lemma rbind_Ok {E A B} (m : res E A) (k : A -> res E B) (b : B) :
  rbind m k = Ok b <-> exists a, m = Ok a /\ k a = Ok b.
Proof. destruct m; simpl; split; intros H; [eauto|destruct H as (? & [= ->] & ?); done|done|destruct H as (? & [=] & ?)]. Qed.

(** ** Loops

    A Go [for] loop is a step function: [inl] continues with the next loop
    state, [inr] leaves the loop with a result.  [run] executes it with the
    fuel a measure of the initial state gives; [run_unfold] and [run_ind] are
    the only facts the clients use, and both need the measure to decrease,
    so no client can rely on the value [run] takes when fuel runs out. *)

Section Loop.
Context {St R : Type}.

Fixpoint loop (fuel : nat) (step : St -> St + R) (st : St) : option R :=
  match fuel with
  | O => None
  | S n => match step st with
           | inl st' => loop n step st'
           | inr r => Some r
           end
  end.

Definition run (m : St -> nat) (step : St -> St + R) (d : R) (st : St) : R :=
  default d (loop (S (m st)) step st).

Definition decreases (m : St -> nat) (step : St -> St + R) : Prop :=
  forall st st', step st = inl st' -> m st' < m st.

Lemma loop_enough (m : St -> nat) (step : St -> St + R) :
  decreases m step ->
  forall n st, m st < n -> exists r, loop n step st = Some r.
Proof.
  intros Hdec n. induction n as [|n IH]; intros st Hn; [lia|].
  simpl. destruct (step st) as [st'|r] eqn:E; [|eauto].
  apply IH. apply Hdec in E. lia.
Qed.

Lemma loop_more n k (step : St -> St + R) st r :
  loop n step st = Some r -> n <= k -> loop k step st = Some r.
Proof.
  revert k st. induction n as [|n IH]; intros k st Hl Hk; [done|].
  destruct k as [|k]; [lia|]. simpl in *.
  destruct (step st); [|done]. apply IH; [done|lia].
Qed.

Lemma run_unfold (m : St -> nat) (step : St -> St + R) d st :
  decreases m step ->
  run m step d st =
    match step st with inl st' => run m step d st' | inr r => r end.
Proof.
  intros Hdec. unfold run.
  destruct (step st) as [st'|r] eqn:E; [|simpl; by rewrite E].
  destruct (loop_enough m step Hdec (S (m st')) st') as [r Hr]; [lia|].
  rewrite Hr. cbn [loop]. rewrite E. apply Hdec in E.
  by rewrite (loop_more _ (m st) _ _ _ Hr) by lia.
Qed.

Lemma run_ind (m : St -> nat) (step : St -> St + R) d
    (P : St -> R -> Prop) :
  decreases m step ->
  (forall st r, step st = inr r -> P st r) ->
  (forall st st' r, step st = inl st' -> P st' r -> P st r) ->
  forall st, P st (run m step d st).
Proof.
  intros Hdec Hret Hstep st. remember (m st) as n eqn:Hn.
  revert st Hn. induction (lt_wf n) as [n _ IH]; intros st ->.
  rewrite run_unfold by done.
  destruct (step st) as [st'|r] eqn:E; [|by apply Hret].
  eapply Hstep; [done|]. eapply IH; [by apply Hdec|done].
Qed.

(** The result of a loop whose measure decreases does not depend on the
    measure or on the value used when fuel is exhausted. *)
Lemma run_any (m m' : St -> nat) (step : St -> St + R) d d' st :
  decreases m step -> decreases m' step ->
  run m step d st = run m' step d' st.
Proof.
  intros H H'. apply (run_ind m step d (fun st r => r = run m' step d' st)).
  - done.
  - intros ?? E. by rewrite run_unfold, E.
  - intros ??? E ->. by rewrite (run_unfold m' step d' st0), E.
Qed.
End Loop.

Create HintDb wb discriminated.

(** ** Machine integers

    Go's int is 64 bits wide here; arithmetic wraps around. *)

Definition int64 (x : Z) : Z := ((x + 2 ^ 63) mod 2 ^ 64 - 2 ^ 63)%Z.
Definition uint64 (x : Z) : Z := (x mod 2 ^ 64)%Z.

Lemma int64_small (x : Z) : (- 2 ^ 63 <= x < 2 ^ 63 -> int64 x = x)%Z.
Proof. intros H. unfold int64. rewrite Z.mod_small; lia. Qed.

Lemma uint64_small (x : Z) : (0 <= x < 2 ^ 64 -> uint64 x = x)%Z.
Proof. apply Z.mod_small. Qed.

(** [split_ifs] walks through the conditionals of a translated Go body. *)
Ltac split_ifs :=
  repeat match goal with
  | |- context [if ?b then _ else _] => destruct b eqn:?
  | H : context [if ?b then _ else _] |- _ => destruct b eqn:?
  end.

(** [bool_hyps] turns boolean conjunctions and disjunctions into
    hypotheses. *)
Ltac bool_hyps :=
  repeat match goal with
  | H : (_ && _)%bool = true |- _ => apply andb_true_iff in H as [? ?]
  | H : (_ || _)%bool = false |- _ => apply orb_false_iff in H as [? ?]
  | H : (_ || _)%bool = true |- _ => apply orb_true_iff in H as [?|?]
  | H : (_ && _)%bool = false |- _ => apply andb_false_iff in H as [?|?]
  | H : negb _ = true |- _ => apply negb_true_iff in H
  | H : negb _ = false |- _ => apply negb_false_iff in H
  | H : (_ =? _) = true |- _ => apply Nat.eqb_eq in H
  | H : (_ =? _) = false |- _ => apply Nat.eqb_neq in H
  | H : (_ <? _) = true |- _ => apply Nat.ltb_lt in H
  | H : (_ <? _) = false |- _ => apply Nat.ltb_ge in H
  | H : (_ <=? _) = true |- _ => apply Nat.leb_le in H
  | H : (_ <=? _) = false |- _ => apply Nat.leb_gt in H
  end.

(** Two loops that step together give related results. *)
Lemma run_sim {St1 St2 R1 R2 : Type} (m1 : St1 -> nat) (m2 : St2 -> nat)
    (step1 : St1 -> St1 + R1) (step2 : St2 -> St2 + R2) d1 d2
    (Rs : St1 -> St2 -> Prop) (Rr : R1 -> R2 -> Prop) :
  decreases m1 step1 -> decreases m2 step2 ->
  (forall a b, Rs a b ->
     match step1 a, step2 b with
     | inl a', inl b' => Rs a' b'
     | inr x, inr y => Rr x y
     | _, _ => False
     end) ->
  forall a b, Rs a b -> Rr (run m1 step1 d1 a) (run m2 step2 d2 b).
Proof.
  intros H1 H2 Hsim a.
  apply (run_ind m1 step1 d1 (fun a x =>
    forall b, Rs a b -> Rr x (run m2 step2 d2 b))); [done|..].
  - intros st x E b Hb. specialize (Hsim st b Hb). rewrite E in Hsim.
    rewrite run_unfold by done. by destruct (step2 b).
  - intros st st' x E IH b Hb. specialize (Hsim st b Hb). rewrite E in Hsim.
    rewrite run_unfold by done. destruct (step2 b); [by apply IH|done].
Qed.
