(* ===== verification/GoStrings.v ===== *)
(** * Go strings

    A Go string is a sequence of bytes, here a [list ascii] (an [ascii] is
    eight bits).  This file models the operations of the language and of
    package [strings] that the SQL classifiers use: indexing, slicing,
    [HasPrefix], [Index], [TrimSpace], [ToUpper], [ToLower] and the UTF-8
    encoding of a code point.  Case mapping outside ASCII is a table of the
    Unicode standard; it is a parameter, the class [UnicodeCase]. *)
From stdpp Require Import base list strings.
From Stdlib Require Import Ascii.
From S2P Require Import Prelude.

Abbreviation bytes := (list ascii).

(** The bytes of a string literal of the source. *)
Definition lit (s : string) : bytes := String.list_ascii_of_string s.

Definition code (c : ascii) : N := N_of_ascii c.
Definition chr (n : N) : ascii := ascii_of_N n.

(** Characters that have no convenient literal. *)
Definition dquote : ascii := chr 34.
Definition squote : ascii := chr 39.
Definition backslash : ascii := chr 92.
Definition space : ascii := chr 32.

(** [byte_at s i c] is the guarded comparison [i < len(s) && s[i] == c]. *)
Definition byte_at (s : bytes) (i : nat) (c : ascii) : bool :=
  match s !! i with Some x => Ascii.eqb x c | None => false end.

(** [test_at s i p] is [i < len(s) && p(s[i])]. *)
Definition test_at (s : bytes) (i : nat) (p : ascii -> bool) : bool :=
  match s !! i with Some x => p x | None => false end.

(** [s[a:b]] and [s[a:]]. *)
Definition slice (a b : nat) (s : bytes) : bytes := take (b - a) (drop a s).

Definition in_range (lo hi : N) (c : ascii) : bool :=
  ((lo <=? code c) && (code c <=? hi))%N.

Definition is_ascii (c : ascii) : bool := (code c <? 128)%N.

Definition bytes_eqb (a b : bytes) : bool := bool_decide (a = b).

(** [strings.HasPrefix]. *)
Fixpoint HasPrefix (s p : bytes) {struct p} : bool :=
  match p, s with
  | [], _ => true
  | c :: p', d :: s' => Ascii.eqb c d && HasPrefix s' p'
  | _ :: _, [] => false
  end.

(** [strings.Index]: the first position of [sub] in [s]; [None] is -1. *)
Fixpoint Index (s sub : bytes) : option nat :=
  if HasPrefix s sub then Some 0
  else match s with
       | [] => None
       | _ :: s' => S <$> Index s' sub
       end.

(** [strings.TrimSuffix] for a one-byte suffix. *)
Definition TrimSuffixByte (s : bytes) (c : ascii) : bytes :=
  match last s with
  | Some x => if Ascii.eqb x c then take (length s - 1) s else s
  | None => s
  end.

(** [strings.ReplaceAll(s, cc, c)] for a doubled byte. *)
Fixpoint undouble (c : ascii) (s : bytes) : bytes :=
  match s with
  | [] => []
  | x :: s' =>
      match s' with
      | y :: s'' =>
          if Ascii.eqb x c && Ascii.eqb y c then c :: undouble c s''
          else x :: undouble c s'
      | [] => [x]
      end
  end.

(** ASCII case mapping. *)
Definition upper_byte (c : ascii) : ascii :=
  if in_range 97 122 c then chr (code c - 32) else c.
Definition lower_byte (c : ascii) : ascii :=
  if in_range 65 90 c then chr (code c + 32) else c.

(** Case mapping of text holding a byte of 0x80 or more: the tables of the
    Unicode standard, outside this repository. *)
Class UnicodeCase := {
  unicode_upper : bytes -> bytes;
  unicode_lower : bytes -> bytes;
}.

(** [strings.ToUpper] and [strings.ToLower], with the ASCII case they treat
    separately. *)
Definition ToUpper `{UnicodeCase} (s : bytes) : bytes :=
  if forallb is_ascii s then map upper_byte s else unicode_upper s.
Definition ToLower `{UnicodeCase} (s : bytes) : bytes :=
  if forallb is_ascii s then map lower_byte s else unicode_lower s.

(** [strings.EqualFold(s, w)] for an upper-case ASCII [w] without K or S,
    the two letters a non-ASCII rune folds to. *)
Definition EqualFoldASCII (s w : bytes) : bool :=
  bytes_eqb (map upper_byte s) w.

(** [strings.TrimSpace].  Apart from the six ASCII spaces, the white space
    runes of [unicode.IsSpace] are U+0085, U+00A0, U+1680, U+2000-U+200A,
    U+2028, U+2029, U+202F, U+205F and U+3000, matched on their UTF-8
    encodings from either end. *)
Definition ascii_space (c : ascii) : bool :=
  in_range 9 13 c || Ascii.eqb c space.

Definition space_rune2 (a b : ascii) : bool :=
  Ascii.eqb a (chr 194) && (Ascii.eqb b (chr 133) || Ascii.eqb b (chr 160)).

Definition space_rune3 (a b c : ascii) : bool :=
  (Ascii.eqb a (chr 225) && Ascii.eqb b (chr 154) && Ascii.eqb c (chr 128)) ||
  (Ascii.eqb a (chr 226) && Ascii.eqb b (chr 128) &&
     (in_range 128 138 c || in_range 168 169 c || Ascii.eqb c (chr 175))) ||
  (Ascii.eqb a (chr 226) && Ascii.eqb b (chr 129) && Ascii.eqb c (chr 159)) ||
  (Ascii.eqb a (chr 227) && Ascii.eqb b (chr 128) && Ascii.eqb c (chr 128)).

Fixpoint trim_left (s : bytes) : bytes :=
  match s with
  | [] => []
  | a :: s1 =>
      if ascii_space a then trim_left s1
      else match s1 with
           | [] => s
           | b :: s2 =>
               if space_rune2 a b then trim_left s2
               else match s2 with
                    | [] => s
                    | c :: s3 =>
                        if space_rune3 a b c then trim_left s3 else s
                    end
           end
  end.

(** [trim_left] on the reversed string, the bytes of a rune reversed. *)
Fixpoint trim_left_rev (s : bytes) : bytes :=
  match s with
  | [] => []
  | a :: s1 =>
      if ascii_space a then trim_left_rev s1
      else match s1 with
           | [] => s
           | b :: s2 =>
               if space_rune2 b a then trim_left_rev s2
               else match s2 with
                    | [] => s
                    | c :: s3 =>
                        if space_rune3 c b a then trim_left_rev s3 else s
                    end
           end
  end.

Definition trim_right (s : bytes) : bytes := rev (trim_left_rev (rev s)).

Definition TrimSpace (s : bytes) : bytes := trim_right (trim_left s).

(** [strconv.ParseUint(s, 16, 32)] on at most six digits, which cannot
    overflow 32 bits: [None] is a syntax error. *)
Definition hex_digit (c : ascii) : option N :=
  if in_range 48 57 c then Some (code c - 48)%N
  else if in_range 97 102 c then Some (code c - 87)%N
  else if in_range 65 70 c then Some (code c - 55)%N
  else None.

Fixpoint parse_hex_from (acc : N) (s : bytes) : option N :=
  match s with
  | [] => Some acc
  | c :: s' => match hex_digit c with
               | Some d => parse_hex_from (acc * 16 + d) s'
               | None => None
               end
  end.

Definition ParseHex (s : bytes) : option N :=
  match s with [] => None | _ => parse_hex_from 0 s end.

(** [strings.Builder.WriteRune]: the UTF-8 encoding of a valid code point
    (not a surrogate, at most 0x10FFFF). *)
Definition encode_rune (n : N) : bytes :=
  if (n <? 128)%N then [chr n]
  else if (n <? 2048)%N then
    [chr (192 + n / 64); chr (128 + n mod 64)]
  else if (n <? 65536)%N then
    [chr (224 + n / 4096); chr (128 + (n / 64) mod 64); chr (128 + n mod 64)]
  else
    [chr (240 + n / 262144); chr (128 + (n / 4096) mod 64);
     chr (128 + (n / 64) mod 64); chr (128 + n mod 64)].

(** ** Facts *)

Lemma byte_at_Some s i c : byte_at s i c = true <-> s !! i = Some c.
Proof.
  unfold byte_at. destruct (s !! i) as [x|]; [|done].
  rewrite Ascii.eqb_eq. naive_solver.
Qed.

Lemma byte_at_lt s i c : byte_at s i c = true -> i < length s.
Proof. rewrite byte_at_Some. apply lookup_lt_Some. Qed.

Lemma test_at_lt s i p : test_at s i p = true -> i < length s.
Proof.
  unfold test_at. destruct (s !! i) eqn:E; [|done]. intros _.
  by eapply lookup_lt_Some.
Qed.

Lemma test_at_Some s i p :
  test_at s i p = true <-> exists c, s !! i = Some c /\ p c = true.
Proof. unfold test_at. destruct (s !! i); naive_solver. Qed.

Lemma slice_length a b s : b <= length s -> length (slice a b s) = b - a.
Proof. unfold slice. rewrite length_take, length_drop. lia. Qed.

Lemma slice_lookup a b s k :
  k < b - a -> slice a b s !! k = s !! (a + k).
Proof. intros Hk. unfold slice. rewrite lookup_take_lt by done. apply lookup_drop. Qed.

Lemma HasPrefix_spec s p : HasPrefix s p = true <-> exists t, s = p ++ t.
Proof.
  revert s. induction p as [|c p IH]; intros s; simpl; [split; [by exists s|done]|].
  destruct s as [|d s]; [by split; [|intros [? [=]]]|].
  rewrite andb_true_iff, Ascii.eqb_eq, IH. split.
  - intros [-> [t ->]]. by exists t.
  - intros [t [= -> ->]]. eauto.
Qed.

(** [Index] finds the first occurrence. *)
Lemma Index_Some s sub n :
  Index s sub = Some n <->
  HasPrefix (drop n s) sub = true /\ n <= length s /\
  forall k, k < n -> HasPrefix (drop k s) sub = false.
Proof.
  revert n. induction s as [|c s IH]; intros n.
  - simpl. destruct (HasPrefix [] sub) eqn:E; rewrite ?drop_nil; split.
    + intros [= <-]. repeat split; [done|lia|lia].
    + intros (_ & ? & _). f_equal. simpl in *. lia.
    + done.
    + intros (? & _). congruence.
  - cbn [Index]. destruct (HasPrefix (c :: s) sub) eqn:E; split.
    + intros [= <-]. repeat split; [done|lia|lia].
    + intros (_ & _ & H). destruct n; [done|].
      specialize (H 0 ltac:(lia)). simpl in H. congruence.
    + intros H. apply fmap_Some in H as (m & Em & ->).
      apply IH in Em as (H1 & H2 & H3).
      repeat split; simpl; [done|lia|]. intros [|k] Hk; [done|]. apply H3. lia.
    + intros (H1 & H2 & H3). destruct n as [|n]; [simpl in *; congruence|].
      simpl in *. assert (Index s sub = Some n) as ->; [|done].
      apply IH. repeat split; [done|lia|]. intros k Hk. apply (H3 (S k)). lia.
Qed.

Lemma Index_None s sub :
  Index s sub = None <-> forall k, k <= length s -> HasPrefix (drop k s) sub = false.
Proof.
  split.
  - induction s as [|c s IH]; simpl; intros H k Hk.
    + destruct (HasPrefix [] sub) eqn:E; [done|]. by rewrite drop_nil.
    + destruct (HasPrefix (c :: s) sub) eqn:E; [done|].
      destruct k as [|k]; [done|]. apply IH; [|lia].
      by destruct (Index s sub).
  - intros H. destruct (Index s sub) as [n|] eqn:E; [|done].
    apply Index_Some in E as (H1 & H2 & _). rewrite H in H1 by done. done.
Qed.

Lemma HasPrefix_length s p : HasPrefix s p = true -> length p <= length s.
Proof. rewrite HasPrefix_spec. intros [t ->]. rewrite length_app. lia. Qed.

Lemma Index_bound s sub n :
  Index s sub = Some n -> n + length sub <= length s.
Proof.
  rewrite Index_Some. intros (H & Hn & _). apply HasPrefix_length in H.
  rewrite length_drop in H. lia.
Qed.


(** Searching a text cut off at [n]. *)
Lemma HasPrefix_take t p m :
  HasPrefix (take m t) p = HasPrefix t p && (length p <=? m).
Proof.
  revert t m. induction p as [|c p IH]; intros t m; simpl; [done|].
  destruct t as [|d t]; [by rewrite firstn_nil|].
  destruct m as [|m]; simpl; [by rewrite andb_false_r|].
  rewrite IH. by rewrite andb_assoc.
Qed.

Lemma Index_take t tag n :
  Index (take n t) tag =
    match Index t tag with
    | Some e => if decide (e + length tag <= n) then Some e else None
    | None => None
    end.
Proof.
  destruct (Index t tag) as [e|] eqn:E.
  - apply Index_Some in E as (H1 & H2 & H3). case_decide as Hd.
    + apply Index_Some. rewrite skipn_firstn_comm, HasPrefix_take, H1.
      split_and!; [simpl; apply Nat.leb_le; lia|rewrite length_take; lia|].
      intros k Hk. by rewrite skipn_firstn_comm, HasPrefix_take, H3.
    + apply Index_None. intros k Hk. rewrite skipn_firstn_comm, HasPrefix_take.
      destruct (decide (k < e)); [by rewrite H3|].
      apply andb_false_iff. right. apply Nat.leb_gt. rewrite length_take in Hk. lia.
  - apply Index_None. intros k Hk. rewrite skipn_firstn_comm, HasPrefix_take.
    rewrite length_take in Hk.
    by rewrite (proj1 (Index_None t tag) E) by lia.
Qed.

(** ** [TrimSpace] on ASCII text *)

Lemma ascii_no_rune2 a b : is_ascii a = true -> space_rune2 a b = false.
Proof.
  intros H. unfold space_rune2. destruct (Ascii.eqb_spec a (chr 194)); [|done].
  by subst.
Qed.

Lemma ascii_no_rune3 a b c : is_ascii a = true -> space_rune3 a b c = false.
Proof.
  intros H. unfold space_rune3.
  destruct (Ascii.eqb_spec a (chr 225)); [by subst|].
  destruct (Ascii.eqb_spec a (chr 226)); [by subst|].
  destruct (Ascii.eqb_spec a (chr 227)); [by subst|]. done.
Qed.

Definition all_ascii (s : bytes) : Prop := Forall (fun c => is_ascii c = true) s.
Definition all_space (s : bytes) : Prop := Forall (fun c => ascii_space c = true) s.

(** Text that does not start with white space. *)
Definition solid_head (s : bytes) : Prop :=
  forall c, head s = Some c -> ascii_space c = false.

Lemma trim_left_ascii s :
  all_ascii s ->
  exists w, all_space w /\ s = w ++ trim_left s /\ solid_head (trim_left s).
Proof.
  induction s as [|a s IH]; intros Hs; [by exists []; repeat constructor|].
  apply Forall_cons in Hs as [Ha Hs]. cbn [trim_left].
  destruct (ascii_space a) eqn:E.
  - destruct (IH Hs) as (w & Hw & Heq & Hsolid).
    exists (a :: w). split_and!; [by constructor| |done].
    simpl. by rewrite <- Heq.
  - exists []. assert (solid_head (a :: s)) by (intros ? [= <-]; done).
    destruct s as [|b s]; [by split_and!; [constructor| |]|].
    rewrite ascii_no_rune2 by done.
    destruct s as [|c s]; [by split_and!; [constructor| |]|].
    rewrite ascii_no_rune3 by done. by split_and!; [constructor| |].
Qed.

Lemma trim_left_rev_ascii s :
  all_ascii s ->
  exists w, all_space w /\ s = w ++ trim_left_rev s /\
    solid_head (trim_left_rev s).
Proof.
  induction s as [|a s IH]; intros Hs; [by exists []; repeat constructor|].
  apply Forall_cons in Hs as [Ha Hs]. cbn [trim_left_rev].
  destruct (ascii_space a) eqn:E.
  - destruct (IH Hs) as (w & Hw & Heq & Hsolid).
    exists (a :: w). split_and!; [by constructor| |done].
    simpl. by rewrite <- Heq.
  - exists []. assert (solid_head (a :: s)) by (intros ? [= <-]; done).
    destruct s as [|b s]; [by split_and!; [constructor| |]|].
    apply Forall_cons in Hs as [Hb Hs]. rewrite ascii_no_rune2 by done.
    destruct s as [|c s]; [by split_and!; [constructor| |]|].
    apply Forall_cons in Hs as [Hc Hs].
    rewrite ascii_no_rune3 by done. by split_and!; [constructor| |].
Qed.

Lemma trim_left_solid s : all_ascii s -> solid_head s -> trim_left s = s.
Proof.
  intros Ha Hs. destruct (trim_left_ascii s Ha) as ([|c w] & Hw & Heq & _).
  - by symmetry.
  - exfalso. rewrite Heq in Hs. specialize (Hs c eq_refl).
    apply Forall_cons in Hw as [Hw _]. congruence.
Qed.

Lemma trim_left_rev_solid s : all_ascii s -> solid_head s -> trim_left_rev s = s.
Proof.
  intros Ha Hs. destruct (trim_left_rev_ascii s Ha) as ([|c w] & Hw & Heq & _).
  - by symmetry.
  - exfalso. rewrite Heq in Hs. specialize (Hs c eq_refl).
    apply Forall_cons in Hw as [Hw _]. congruence.
Qed.

(** Trimming ASCII text removes white space at both ends, and only once. *)
Lemma TrimSpace_ascii s :
  all_ascii s ->
  (exists w1 w2, all_space w1 /\ all_space w2 /\ s = w1 ++ TrimSpace s ++ w2) /\
  TrimSpace (TrimSpace s) = TrimSpace s.
Proof.
  intros Hs. destruct (trim_left_ascii s Hs) as (w1 & Hw1 & H1 & Hh1).
  set (u := trim_left s) in *.
  assert (all_ascii u) as Hu by (rewrite H1 in Hs; by apply Forall_app in Hs as [_ ?]).
  assert (all_ascii (rev u)) as Hru.
  { by apply Forall_rev. }
  destruct (trim_left_rev_ascii (rev u) Hru) as (w2 & Hw2 & H2 & Hh2).
  assert (TrimSpace s = rev (trim_left_rev (rev u))) as Ht by done.
  set (v := trim_left_rev (rev u)) in *.
  assert (u = rev v ++ rev w2) as Hu2.
  { rewrite <- (rev_involutive u), H2. apply rev_app_distr. }
  split.
  - exists w1, (rev w2). rewrite Ht, <- Hu2. split_and!; [done| |done].
    by apply Forall_rev.
  - rewrite Ht. unfold TrimSpace, trim_right.
    assert (all_ascii (rev v)) as Hv by (rewrite Hu2 in Hu; by apply Forall_app in Hu as [? _]).
    rewrite (trim_left_solid (rev v)); [|done|].
    + rewrite rev_involutive, trim_left_rev_solid; [done| |done].
      rewrite <- (rev_involutive v). by apply Forall_rev.
    + intros c Hc. apply Hh1. rewrite Hu2. by destruct (rev v).
Qed.

(** Trimming never lengthens. *)
Lemma trim_left_length s : length (trim_left s) <= length s.
Proof.
  remember (length s) as n eqn:Hn. revert s Hn.
  induction (lt_wf n) as [n _ IH]; intros s ->.
  assert (forall t, length t < length s -> length (trim_left t) <= length s) as Ht.
  { intros t Hlt. specialize (IH (length t) Hlt t eq_refl). lia. }
  clear IH. destruct s as [|a s]; cbn [trim_left]; [done|].
  destruct (ascii_space a); [apply Ht; simpl; lia|].
  destruct s as [|b s]; [done|].
  destruct (space_rune2 a b); [apply Ht; simpl; lia|].
  destruct s as [|c s]; [done|].
  destruct (space_rune3 a b c); [apply Ht; simpl; lia|done].
Qed.

Lemma trim_left_rev_length s : length (trim_left_rev s) <= length s.
Proof.
  remember (length s) as n eqn:Hn. revert s Hn.
  induction (lt_wf n) as [n _ IH]; intros s ->.
  assert (forall t, length t < length s -> length (trim_left_rev t) <= length s) as Ht.
  { intros t Hlt. specialize (IH (length t) Hlt t eq_refl). lia. }
  clear IH. destruct s as [|a s]; cbn [trim_left_rev]; [done|].
  destruct (ascii_space a); [apply Ht; simpl; lia|].
  destruct s as [|b s]; [done|].
  destruct (space_rune2 b a); [apply Ht; simpl; lia|].
  destruct s as [|c s]; [done|].
  destruct (space_rune3 c b a); [apply Ht; simpl; lia|done].
Qed.

Lemma TrimSpace_length s : length (TrimSpace s) <= length s.
Proof.
  unfold TrimSpace, trim_right. rewrite length_rev.
  etransitivity; [apply trim_left_rev_length|].
  rewrite length_rev. apply trim_left_length.
Qed.
