(* ===== verification/SqlLexer.v ===== *)
(** * The shared SQL lexer (server/src/internal/sqllex/lexer.go)

    Where a quoted literal, quoted identifier, dollar-quoted string or
    comment ends, and the mask that blanks all of them.  An index is a [nat];
    a Go guard [i < len(s) && s[i] == c] is [byte_at s i c].  Each loop is a
    step function run under the measure [length s - i]. *)
From stdpp Require Import base list strings.
From Stdlib Require Import Ascii.
From S2P Require Import Prelude GoStrings.

Local Open Scope nat_scope.

(** How PostgreSQL reads a plain literal. *)
Inductive StringReading := StandardStrings | EscapeStrings.

#[export] Instance StringReading_eq_dec : EqDecision StringReading.
Proof. solve_decision. Defined.

Definition StringReadings : list StringReading :=
  [StandardStrings; EscapeStrings].

Inductive literalKind :=
  plainLiteral | escapeLiteral | unicodeLiteral | bitLiteral
| quotedIdentifier.

#[export] Instance literalKind_eq_dec : EqDecision literalKind.
Proof. solve_decision. Defined.

Definition is_digit (b : ascii) : bool := in_range 48 57 b.

Definition IsIdentChar (b : ascii) : bool :=
  in_range 65 90 b || in_range 97 122 b || is_digit b ||
  Ascii.eqb b "_" || (128 <=? code b)%N.

Definition IsSQLNewline (b : ascii) : bool :=
  Ascii.eqb b (chr 10) || Ascii.eqb b (chr 13).

Definition IsSQLSpace (b : ascii) : bool :=
  Ascii.eqb b space || Ascii.eqb b (chr 9) || Ascii.eqb b (chr 10) ||
  Ascii.eqb b (chr 13) || Ascii.eqb b (chr 12) || Ascii.eqb b (chr 11).

Definition ContinuesIdentifier (s : bytes) (i : nat) : bool :=
  match i with
  | O => false
  | S j => test_at s j (fun prev => IsIdentChar prev || Ascii.eqb prev "$")
  end.

(** [for i < len(s) && p(s[i]) { i++ }] *)
Definition scan_while (p : ascii -> bool) (s : bytes) (i : nat) : nat :=
  run (fun i => length s - i)
      (fun i => if test_at s i p then inl (i + 1) else inr i) i i.

(** The loop that looks for the closing dollar of a tag opened at [i]. *)
Definition dollar_tag_step (s : bytes) (i : nat) (j : nat) : nat + bytes :=
  match s !! j with
  | None => inr []
  | Some c =>
      if Ascii.eqb c "$" then inr (slice i (j + 1) s)
      else if negb (IsIdentChar c) then inr []
      else inl (j + 1)
  end.

Definition ScanDollarTag (s : bytes) (i : nat) : bytes :=
  if negb (byte_at s i "$") then []
  else if ContinuesIdentifier s i then []
  else if byte_at s (i + 1) "$" then lit "$$"
  else if negb (test_at s (i + 1)
                  (fun c => IsIdentChar c && negb (is_digit c))) then []
  else run (fun j => length s - j) (dollar_tag_step s i) [] (i + 2).

Definition literalPrefix (s : bytes) (i : nat) : nat * literalKind :=
  match s !! i, s !! (i + 1) with
  | Some c, Some d =>
      if Ascii.eqb c "E" || Ascii.eqb c "e" then
        if Ascii.eqb d squote then (1, escapeLiteral) else (0, plainLiteral)
      else if Ascii.eqb c "B" || Ascii.eqb c "b" ||
              Ascii.eqb c "X" || Ascii.eqb c "x" then
        if Ascii.eqb d squote then (1, bitLiteral) else (0, plainLiteral)
      else if Ascii.eqb c "N" || Ascii.eqb c "n" then
        if Ascii.eqb d squote then (1, plainLiteral) else (0, plainLiteral)
      else if Ascii.eqb c "U" || Ascii.eqb c "u" then
        if Ascii.eqb d "&" then
          if byte_at s (i + 2) squote then (2, unicodeLiteral)
          else if byte_at s (i + 2) dquote then (2, quotedIdentifier)
          else (0, plainLiteral)
        else (0, plainLiteral)
      else (0, plainLiteral)
  | _, _ => (0, plainLiteral)
  end.

Definition IsQuoteStart (s : bytes) (i : nat) : bool :=
  if byte_at s i squote || byte_at s i dquote then true
  else if ContinuesIdentifier s i then false
  else 0 <? fst (literalPrefix s i).

(** [quoteContinuation]: the state is the index and [sawNewline]; [None]
    is -1. *)
Definition quote_continuation_step (s : bytes) (st : nat * bool)
    : (nat * bool) + option nat :=
  let '(i, sawNewline) := st in
  match s !! i with
  | None => inr None
  | Some c =>
      if IsSQLNewline c then inl (i + 1, true)
      else if IsSQLSpace c then inl (i + 1, sawNewline)
      else if Ascii.eqb c "-" && byte_at s (i + 1) "-" then
        inl (scan_while (fun b => negb (IsSQLNewline b)) s i, sawNewline)
      else if Ascii.eqb c squote && sawNewline then inr (Some (i + 1))
      else inr None
  end.

Definition quoteContinuation (s : bytes) (i : nat) : option nat :=
  run (fun st => length s - fst st) (quote_continuation_step s) None
      (i, false).

(** The loop of [SkipQuoted], after the opening quote. *)
Definition skip_quoted_step (s : bytes) (escapes doubles continues : bool)
    (quote : ascii) (i : nat) : nat + nat :=
  match s !! i with
  | None => inr (length s)
  | Some c =>
      if escapes && Ascii.eqb c backslash then inl (i + 2)
      else if Ascii.eqb c quote then
        if doubles && byte_at s (i + 1) quote then inl (i + 2)
        else match (if continues then quoteContinuation s (i + 1) else None)
             with
             | Some j => inl j
             | None => inr (i + 1)
             end
      else inl (i + 1)
  end.

Definition skip_quoted_body (s : bytes) (kind : literalKind)
    (reading : StringReading) (i : nat) : nat :=
  let escapes := bool_decide (kind = escapeLiteral) ||
                 (bool_decide (kind = plainLiteral) &&
                  bool_decide (reading = EscapeStrings)) in
  let doubles := negb (bool_decide (kind = bitLiteral)) in
  let continues := negb (bool_decide (kind = quotedIdentifier)) in
  match s !! i with
  | None => length s
  | Some quote =>
      run (fun i => length s - i)
          (skip_quoted_step s escapes doubles continues quote)
          (length s) (i + 1)
  end.

Definition SkipQuoted (s : bytes) (i : nat) (reading : StringReading) : nat :=
  if byte_at s i squote then skip_quoted_body s plainLiteral reading i
  else if byte_at s i dquote then
    skip_quoted_body s quotedIdentifier reading i
  else
    let '(len, kind) := literalPrefix s i in
    if len =? 0 then i + 1 else skip_quoted_body s kind reading (i + len).

(** [skipBlockComment]: the state is the index and the nesting depth. *)
Definition block_comment_step (s : bytes) (st : nat * nat)
    : (nat * nat) + nat :=
  let '(i, depth) := st in
  if (i <? length s) && (0 <? depth) then
    if byte_at s i "/" && byte_at s (i + 1) "*" then inl (i + 2, depth + 1)
    else if byte_at s i "*" && byte_at s (i + 1) "/" then
      inl (i + 2, depth - 1)
    else inl (i + 1, depth)
  else inr i.

Definition skipBlockComment (s : bytes) (i : nat) : nat :=
  run (fun st => length s - fst st) (block_comment_step s) i (i + 2, 1).

Definition SkipNonCode (s : bytes) (i : nat) (reading : StringReading)
    : nat :=
  if IsQuoteStart s i then SkipQuoted s i reading
  else match ScanDollarTag s i with
  | (_ :: _) as tag =>
      match Index (drop (i + length tag) s) tag with
      | None => length s
      | Some e => i + length tag + e + length tag
      end
  | [] =>
      if byte_at s i "-" && byte_at s (i + 1) "-" then
        scan_while (fun b => negb (IsSQLNewline b)) s i
      else if byte_at s i "/" && byte_at s (i + 1) "*" then
        skipBlockComment s i
      else i
  end.

(** [MaskNonCode]: the state is the masked copy and the index. *)
Definition blank (i j : nat) (m : bytes) : bytes :=
  foldl (fun m k => <[k:=space]> m) m (seq i (j - i)).

Definition mask_step (s : bytes) (reading : StringReading)
    (st : bytes * nat) : (bytes * nat) + bytes :=
  let '(masked, i) := st in
  if i <? length masked then
    let j := SkipNonCode s i reading in
    if j =? i then inl (masked, i + 1) else inl (blank i j masked, j)
  else inr masked.

Definition MaskNonCode (s : bytes) (reading : StringReading) : bytes :=
  run (fun st => length (fst st) - snd st) (mask_step s reading) s (s, 0).

(** ** Termination: every loop's measure decreases *)

Lemma scan_while_dec p s :
  decreases (fun i => length s - i)
    (fun i => if test_at s i p then inl (i + 1) else inr i : nat + nat).
Proof.
  intros i i'. destruct (test_at s i p) eqn:E; intros [= <-].
  apply test_at_lt in E. lia.
Qed.

Lemma scan_while_eq p s i :
  scan_while p s i = if test_at s i p then scan_while p s (i + 1) else i.
Proof.
  unfold scan_while. rewrite run_unfold by apply scan_while_dec.
  destruct (test_at s i p) eqn:E; [|done].
  apply run_any; apply scan_while_dec.
Qed.

Lemma scan_while_ind p s (P : nat -> nat -> Prop) :
  (forall i, test_at s i p = false -> P i i) ->
  (forall i j, test_at s i p = true -> P (i + 1) j -> P i j) ->
  forall i, P i (scan_while p s i).
Proof.
  intros H0 H1 i. unfold scan_while.
  apply (run_ind _ _ _ P); [apply scan_while_dec|..]; intros st.
  - intros r. destruct (test_at s st p) eqn:E; [done|].
    intros [= <-]. by apply H0.
  - intros st' r. destruct (test_at s st p) eqn:E; [|done].
    intros [= <-]. by apply H1.
Qed.

(** [scan_while] stops at the first byte outside [p]. *)
Lemma scan_while_spec p s i :
  i <= scan_while p s i /\
  (i <= length s -> scan_while p s i <= length s) /\
  (forall k, i <= k < scan_while p s i -> test_at s k p = true) /\
  test_at s (scan_while p s i) p = false.
Proof.
  apply (scan_while_ind p s (fun i j => i <= j /\
    (i <= length s -> j <= length s) /\
    (forall k, i <= k < j -> test_at s k p = true) /\ test_at s j p = false)).
  - intros j Hj. repeat split; try lia. done.
  - intros j r Hj (H1 & H2 & H3 & H4). pose proof (test_at_lt _ _ _ Hj).
    repeat split; try lia; [|done]. intros k Hk.
    destruct (decide (k = j)) as [->|]; [done|]. apply H3. lia.
Qed.

Lemma scan_while_step p s i :
  test_at s i p = true -> i + 1 <= scan_while p s i.
Proof.
  intros H. rewrite scan_while_eq, H.
  by destruct (scan_while_spec p s (i + 1)) as [? _].
Qed.

Lemma dollar_tag_dec s i :
  decreases (fun j => length s - j) (dollar_tag_step s i).
Proof.
  intros j j'. unfold dollar_tag_step. destruct (s !! j) eqn:E; [|done].
  apply lookup_lt_Some in E. split_ifs; intros [= <-]; lia.
Qed.

Lemma dash_not_newline s i :
  byte_at s i "-" = true ->
  test_at s i (fun b => negb (IsSQLNewline b)) = true.
Proof. rewrite byte_at_Some. unfold test_at. by intros ->. Qed.

Lemma quote_continuation_dec s :
  decreases (fun st => length s - fst st) (quote_continuation_step s).
Proof.
  intros [i b] [i' b']. unfold quote_continuation_step.
  destruct (s !! i) as [c|] eqn:E; [|done].
  pose proof (lookup_lt_Some _ _ _ E).
  split_ifs; intros [= <- <-]; simpl; try lia. bool_hyps.
  assert (byte_at s i "-" = true) as Hd
    by (rewrite byte_at_Some, E; f_equal; by apply Ascii.eqb_eq).
  pose proof (scan_while_step _ _ _ (dash_not_newline _ _ Hd)). lia.
Qed.

(** A continuation lies beyond where it was looked for. *)
Lemma quoteContinuation_bound s i j :
  quoteContinuation s i = Some j -> i < j <= length s.
Proof.
  unfold quoteContinuation. set (d := None).
  cut (forall st, match run (fun st => length s - fst st)
                   (quote_continuation_step s) d st with
              | Some j => fst st < j <= length s | None => True end).
  { intros H E. specialize (H (i, false)). by rewrite E in H. }
  apply (run_ind _ _ d (fun st r =>
    match r with Some j => fst st < j <= length s | None => True end));
    [apply quote_continuation_dec|..].
  - intros [k b] r. unfold quote_continuation_step.
    destruct (s !! k) as [c|] eqn:E; [|by intros [= <-]].
    apply lookup_lt_Some in E. split_ifs; intros [= <-]; simpl; lia.
  - intros st st' r E. apply quote_continuation_dec in E.
    destruct r; [|done]. lia.
Qed.

Lemma skip_quoted_dec s e d c q :
  decreases (fun i => length s - i) (skip_quoted_step s e d c q).
Proof.
  intros i i'. unfold skip_quoted_step. destruct (s !! i) eqn:E; [|done].
  apply lookup_lt_Some in E.
  split_ifs; try (intros [= <-]; lia).
  all: destruct (quoteContinuation s (i + 1)) eqn:Q; [|done].
  all: apply quoteContinuation_bound in Q; intros [= <-]; lia.
Qed.

Lemma block_comment_dec s :
  decreases (fun st => length s - fst st) (block_comment_step s).
Proof.
  intros [i d] [i' d']. unfold block_comment_step.
  split_ifs; bool_hyps; intros [= <- <-]; simpl; lia.
Qed.

(** ** Bounds: every region lies inside the string *)

Lemma skip_quoted_run_bounds s e d c q i :
  i `min` length s <=
  run (fun i => length s - i) (skip_quoted_step s e d c q) (length s) i
  <= length s.
Proof.
  apply (run_ind _ _ _ (fun i r => i `min` length s <= r <= length s));
    [apply skip_quoted_dec|..].
  - intros st r. unfold skip_quoted_step.
    destruct (s !! st) eqn:E; [|intros [= <-]; lia].
    apply lookup_lt_Some in E. split_ifs; try done; try (intros [= <-]; lia).
    all: destruct (quoteContinuation s (st + 1)); [done|intros [= <-]; lia].
  - intros st st' r E H. apply skip_quoted_dec in E. lia.
Qed.

Lemma skip_quoted_body_bounds s k r i :
  i < length s -> i < skip_quoted_body s k r i <= length s.
Proof.
  intros Hi. unfold skip_quoted_body.
  destruct (s !! i) eqn:E; [|apply lookup_ge_None in E; lia].
  match goal with |- context [run _ (skip_quoted_step s ?e ?d ?c ?q)] =>
    pose proof (skip_quoted_run_bounds s e d c q (i + 1)) end. lia.
Qed.

Lemma literalPrefix_bound s i n k :
  literalPrefix s i = (n, k) -> n <> 0 -> n <= 2 /\ i + n < length s.
Proof.
  unfold literalPrefix.
  destruct (s !! i) eqn:E; [|intros [= <- <-]; lia].
  destruct (s !! (i + 1)) eqn:E'; [|intros [= <- <-]; lia].
  apply lookup_lt_Some in E'.
  repeat case_match; intros [= <- <-] ?; try lia;
    match goal with H : byte_at _ _ _ = true |- _ => apply byte_at_lt in H end;
    lia.
Qed.

Lemma SkipQuoted_bounds s i r :
  i < length s -> i < SkipQuoted s i r <= length s.
Proof.
  intros Hi. unfold SkipQuoted. split_ifs.
  1,2: by apply skip_quoted_body_bounds.
  destruct (literalPrefix s i) as [n k] eqn:E. split_ifs; [lia|]. bool_hyps.
  destruct (literalPrefix_bound s i n k E) as [? ?]; [done|].
  pose proof (skip_quoted_body_bounds s k r (i + n)). lia.
Qed.

Lemma dollar_tag_run s i j :
  let t := run (fun j => length s - j) (dollar_tag_step s i) [] j in
  t = [] \/ exists e, j <= e < length s /\ t = slice i (e + 1) s /\
    s !! e = Some "$"%char /\
    forall k, j <= k < e -> test_at s k IsIdentChar = true.
Proof.
  apply (run_ind _ _ _ (fun j t => t = [] \/ exists e, j <= e < length s /\
    t = slice i (e + 1) s /\ s !! e = Some "$"%char /\
    forall k, j <= k < e -> test_at s k IsIdentChar = true));
    [apply dollar_tag_dec|..].
  - intros st r. unfold dollar_tag_step.
    destruct (s !! st) as [c|] eqn:E; [|intros [= <-]; by left].
    split_ifs; intros [= <-]; [right|by left].
    apply lookup_lt_Some in E as Hlt. exists st.
    match goal with H : Ascii.eqb c _ = true |- _ =>
      apply Ascii.eqb_eq in H; subst end.
    repeat split; [lia|done|done|intros; lia].
  - intros st st' r Hs Hr. unfold dollar_tag_step in Hs.
    destruct (s !! st) as [c|] eqn:E; [|done].
    split_ifs; try done. injection Hs as <-.
    destruct Hr as [->|(e & ? & -> & ? & Hk)]; [by left|right].
    exists e. repeat split; [lia|lia|done|]. intros k ?.
    destruct (decide (k = st)) as [->|]; [|apply Hk; lia].
    unfold test_at. rewrite E. by bool_hyps.
Qed.

(** A tag is the text from the first dollar to the next one. *)
Lemma ScanDollarTag_spec s i :
  ScanDollarTag s i <> [] ->
  exists e, i < e < length s /\ ScanDollarTag s i = slice i (e + 1) s /\
    s !! i = Some "$"%char /\ s !! e = Some "$"%char /\
    ContinuesIdentifier s i = false /\
    (forall k, i < k < e -> test_at s k IsIdentChar = true) /\
    (e <> i + 1 -> test_at s (i + 1) is_digit = false).
Proof.
  unfold ScanDollarTag.
  destruct (byte_at s i "$") eqn:E1; [|done]. simpl.
  destruct (ContinuesIdentifier s i) eqn:E2; [done|].
  apply byte_at_Some in E1.
  destruct (byte_at s (i + 1) "$") eqn:E3.
  { apply byte_at_Some in E3. pose proof (lookup_lt_Some _ _ _ E3).
    intros _. exists (i + 1).
    repeat split; try done; try lia. apply list_eq. intros k.
    destruct (decide (k < 2)).
    - rewrite slice_lookup by lia.
      destruct k as [|[|k]]; [|rewrite E3|lia]; [|done].
      rewrite Nat.add_0_r. by rewrite E1.
    - rewrite !lookup_ge_None_2; [done|rewrite slice_length; lia|simpl; lia]. }
  destruct (test_at s (i + 1) _) eqn:E4; [|done]. simpl. intros Hne.
  destruct (dollar_tag_run s i (i + 2)) as [Hr|(e & ? & -> & ? & Hk)];
    [done|].
  exists e. apply test_at_Some in E4 as (c & Hc & Hc'). bool_hyps.
  repeat split; try done; try lia.
  - intros k ?. destruct (decide (k = i + 1)) as [->|]; [|apply Hk; lia].
    unfold test_at. by rewrite Hc.
  - intros _. unfold test_at. rewrite Hc. done.
Qed.

Lemma ScanDollarTag_bound s i :
  ScanDollarTag s i <> [] ->
  2 <= length (ScanDollarTag s i) /\ i + length (ScanDollarTag s i) <= length s.
Proof.
  intros H. apply ScanDollarTag_spec in H as (e & ? & -> & _).
  rewrite slice_length by lia. lia.
Qed.

Lemma skipBlockComment_run_bounds s d st :
  fst st `min` length s <=
  run (fun st => length s - fst st) (block_comment_step s) d st /\
  (fst st <= length s ->
   run (fun st => length s - fst st) (block_comment_step s) d st
   <= length s).
Proof.
  revert st.
  apply (run_ind _ _ _ (fun st r => fst st `min` length s <= r /\
           (fst st <= length s -> r <= length s)));
    [apply block_comment_dec|..].
  - intros [k e] r. unfold block_comment_step.
    split_ifs; try done. intros [= <-]. simpl. lia.
  - intros [k e] [k' e'] r. unfold block_comment_step.
    split_ifs; try done; intros [= <- <-]; simpl; bool_hyps; try lia.
    all: match goal with H : byte_at _ (_ + 1) _ = true |- _ =>
           apply byte_at_lt in H end; lia.
Qed.

Lemma skipBlockComment_bounds s i :
  i + 1 < length s -> i + 2 <= skipBlockComment s i <= length s.
Proof.
  intros Hi. unfold skipBlockComment.
  pose proof (skipBlockComment_run_bounds s i (i + 2, 1)) as H.
  simpl in H. lia.
Qed.

Lemma SkipNonCode_end s i r : length s <= i -> SkipNonCode s i r = i.
Proof.
  intros H. unfold SkipNonCode, IsQuoteStart, ScanDollarTag, literalPrefix,
    byte_at.
  rewrite (lookup_ge_None_2 s i H). simpl.
  by destruct (ContinuesIdentifier s i).
Qed.

Lemma SkipNonCode_range s i r :
  i < length s -> i <= SkipNonCode s i r <= length s.
Proof.
  intros Hi. unfold SkipNonCode.
  destruct (IsQuoteStart s i);
    [pose proof (SkipQuoted_bounds s i r Hi); lia|].
  pose proof (ScanDollarTag_bound s i) as Ht.
  destruct (ScanDollarTag s i) as [|c tag].
  - split_ifs; [| |lia].
    + destruct (scan_while_spec (fun b => negb (IsSQLNewline b)) s i)
        as (? & ? & _). lia.
    + apply andb_true_iff in Heqb0 as [_ ?].
      match goal with H : byte_at s (i + 1) _ = true |- _ =>
        apply byte_at_lt in H; pose proof (skipBlockComment_bounds s i H) end.
      lia.
  - destruct Ht as [? ?]; [done|].
    destruct (Index _ _) eqn:E; [|lia].
    apply Index_bound in E. rewrite length_drop in E. lia.
Qed.


(** ** Which bytes a scan reads as code

    Every scan of the classifiers advances the same way: past a region when
    one starts here, by one byte otherwise.  [scan_pos n] is where it stands
    after [n] advances. *)

Definition next_pos (s : bytes) (r : StringReading) (i : nat) : nat :=
  let j := SkipNonCode s i r in if j =? i then i + 1 else j.

Definition scan_pos (s : bytes) (r : StringReading) (n : nat) : nat :=
  Nat.iter n (next_pos s r) 0.

(** Byte [k] is read as code; byte [k] lies inside a region. *)
Definition code_pos (s : bytes) (r : StringReading) (k : nat) : Prop :=
  k < length s /\ (exists n, scan_pos s r n = k) /\ SkipNonCode s k r = k.

Definition region_pos (s : bytes) (r : StringReading) (k : nat) : Prop :=
  exists n, scan_pos s r n <= k < SkipNonCode s (scan_pos s r n) r.

Lemma next_pos_gt s r i : i < next_pos s r i.
Proof.
  unfold next_pos. destruct (Nat.eqb_spec (SkipNonCode s i r) i); [lia|].
  destruct (decide (i < length s)) as [H|H];
    [pose proof (SkipNonCode_range s i r H); lia|].
  rewrite SkipNonCode_end in n by lia. done.
Qed.

Lemma next_pos_le s r i : i < length s -> next_pos s r i <= length s.
Proof.
  intros H. unfold next_pos. pose proof (SkipNonCode_range s i r H).
  split_ifs; lia.
Qed.

Lemma scan_pos_S s r n : scan_pos s r (S n) = next_pos s r (scan_pos s r n).
Proof. done. Qed.

Lemma scan_pos_mono s r n m : n < m -> scan_pos s r n < scan_pos s r m.
Proof.
  induction 1 as [|m _ IH]; rewrite scan_pos_S; [apply next_pos_gt|].
  pose proof (next_pos_gt s r (scan_pos s r m)). lia.
Qed.

(** A byte is code or in a region, never both. *)
Lemma code_region_disjoint s r k : code_pos s r k -> region_pos s r k -> False.
Proof.
  intros (Hk & (n & <-) & Hn) (m & Hm).
  destruct (lt_eq_lt_dec n m) as [[Hnm| ->]|Hnm].
  - apply (scan_pos_mono s r) in Hnm. lia.
  - lia.
  - assert (scan_pos s r (S m) <= scan_pos s r n).
    { destruct (decide (S m = n)) as [->|]; [lia|].
      pose proof (scan_pos_mono s r (S m) n). lia. }
    rewrite scan_pos_S in H. unfold next_pos in H. split_ifs; bool_hyps; lia.
Qed.

Lemma blank_length i j m : length (blank i j m) = length m.
Proof.
  unfold blank. generalize (seq i (j - i)) as l. intros l. revert m.
  induction l as [|k l IH]; intros m; simpl; [done|].
  by rewrite IH, length_insert.
Qed.

Lemma blank_lookup i j m k :
  j <= length m ->
  blank i j m !! k = if decide (i <= k < j) then Some space else m !! k.
Proof.
  intros Hj. unfold blank. remember (j - i) as n eqn:Hn.
  revert i m Hn Hj. induction n as [|n IH]; intros i m Hn Hj; simpl.
  { case_decide; [lia|done]. }
  rewrite (IH (S i)) by (rewrite ?length_insert; lia).
  destruct (decide (k = i)) as [->|Hne].
  - rewrite list_lookup_insert_eq by lia. repeat case_decide; done || lia.
  - rewrite list_lookup_insert_ne by done. repeat case_decide; done || lia.
Qed.

Lemma mask_dec s r :
  decreases (fun st => length (fst st) - snd st) (mask_step s r).
Proof.
  intros [m i] [m' i']. unfold mask_step.
  destruct (Nat.ltb_spec i (length m)); [|done].
  destruct (Nat.eqb_spec (SkipNonCode s i r) i) as [E|E];
    intros [= <- <-]; simpl; rewrite ?blank_length; [lia|].
  pose proof (next_pos_gt s r i) as H'. unfold next_pos in H'.
  destruct (Nat.eqb_spec (SkipNonCode s i r) i); [done|lia].
Qed.

(** The loop invariant of the mask: bytes before the scan position are
    final, bytes from it on are still those of [s]. *)
Definition mask_inv (s : bytes) (r : StringReading) (st : bytes * nat) : Prop :=
  let '(m, i) := st in
  length m = length s /\ (exists n, scan_pos s r n = i) /\
  (forall k, i <= k -> m !! k = s !! k) /\
  (forall k, k < i -> k < length s ->
     (code_pos s r k /\ m !! k = s !! k) \/
     (region_pos s r k /\ m !! k = Some space)).

Lemma mask_inv_step s r st st' :
  mask_inv s r st -> mask_step s r st = inl st' -> mask_inv s r st'.
Proof.
  destruct st as [m i], st' as [m' i']. intros (Hlen & (n & Hn) & Hge & Hlt).
  unfold mask_step. destruct (Nat.ltb_spec i (length m)) as [Hi|]; [|done].
  pose proof (SkipNonCode_range s i r ltac:(lia)) as Hr.
  assert (scan_pos s r (S n) = next_pos s r i) as Hnext
    by (by rewrite scan_pos_S, Hn).
  unfold next_pos in Hnext.
  destruct (Nat.eqb_spec (SkipNonCode s i r) i) as [E|E]; intros [= <- <-].
  - split_and!; [done|by exists (S n)|intros; apply Hge; lia|].
    intros k Hk Hk'. destruct (decide (k = i)) as [->|]; [|apply Hlt; lia].
    left. split; [|by apply Hge]. split_and!; [lia|by exists n|done].
  - split_and!; [by rewrite blank_length|by exists (S n)| |].
    + intros k Hk. rewrite blank_lookup by lia.
      case_decide; [lia|]. apply Hge. lia.
    + intros k Hk Hk'. rewrite blank_lookup by lia. case_decide as Hd.
      * right. split; [exists n; rewrite Hn; lia|done].
      * apply Hlt; lia.
Qed.

Lemma MaskNonCode_inv s r :
  length (MaskNonCode s r) = length s /\
  forall k, k < length s ->
    (code_pos s r k /\ MaskNonCode s r !! k = s !! k) \/
    (region_pos s r k /\ MaskNonCode s r !! k = Some space).
Proof.
  unfold MaskNonCode. set (d := s) at 2.
  assert (mask_inv s r (s, 0)) as H0.
  { split_and!; [done|by exists 0|done|intros; lia]. }
  generalize (s, 0), H0. clear H0.
  apply (run_ind _ _ d (fun st m => mask_inv s r st -> length m = length s /\
    forall k, k < length s ->
      (code_pos s r k /\ m !! k = s !! k) \/
      (region_pos s r k /\ m !! k = Some space))); [apply mask_dec|..].
  - intros [m i] m' E (Hlen & _ & _ & Hlt). unfold mask_step in E.
    destruct (Nat.ltb_spec i (length m)); [by split_ifs|].
    injection E as <-. split; [done|]. intros k Hk. apply Hlt; lia.
  - intros st st' m E IH Hst. by apply IH, (mask_inv_step _ _ st).
Qed.

(** The mask keeps every byte of code in place and turns every byte of a
    literal, quoted identifier or comment into a space, so offsets measured
    on it are offsets into the statement. *)
Lemma MaskNonCode_spec s r k :
  length (MaskNonCode s r) = length s /\
  (code_pos s r k -> MaskNonCode s r !! k = s !! k) /\
  (region_pos s r k -> k < length s -> MaskNonCode s r !! k = Some space) /\
  (k < length s -> code_pos s r k \/ region_pos s r k).
Proof.
  destruct (MaskNonCode_inv s r) as [Hlen H]. split_and!; [done|..].
  - intros Hc. destruct (H k) as [[_ ?]|[? _]]; [by destruct Hc|done|].
    by destruct (code_region_disjoint s r k).
  - intros Hr Hk. destruct (H k Hk) as [[? _]|[_ ?]]; [|done].
    by destruct (code_region_disjoint s r k).
  - intros Hk. destruct (H k Hk) as [[? _]|[? _]]; auto.
Qed.

Lemma scan_pos_ge s r n : n <= scan_pos s r n.
Proof.
  induction n as [|n IH]; [simpl; lia|]. rewrite scan_pos_S.
  pose proof (next_pos_gt s r (scan_pos s r n)). lia.
Qed.

(** Every scan of a statement ends inside it.  From any position of the
    text a skip neither goes back nor leaves the text, so a loop that steps
    over code byte by byte and over regions whole has passed the end after at
    most as many steps as the text has bytes. *)
Theorem scan_terminates s r :
  (forall i, i < length s -> i <= SkipNonCode s i r <= length s) /\
  (forall i, length s <= i -> SkipNonCode s i r = i) /\
  length s <= scan_pos s r (length s).
Proof.
  split_and!; [intros i Hi; by apply SkipNonCode_range|
    intros i; apply SkipNonCode_end|
    apply scan_pos_ge].
Qed.
