(* ===== verification/LexGrammar.v ===== *)
(** * The lexical grammar the lexer follows

    The string and comment states of PostgreSQL's scan.l, as grammars, and
    proofs that [SkipNonCode] of lexer.go steps over exactly the text each
    one derives: quoted literals of every prefix with doubled quotes,
    backslash escapes and continuation lines, nested block comments, line
    comments and dollar quotes. *)
From stdpp Require Import base list strings.
From Stdlib Require Import Ascii.
From S2P Require Import Prelude GoStrings SqlLexer.

Local Open Scope nat_scope.

(** ** The bytes the grammar tells apart

    As scan.l names them; the lexer's own tests are shown to agree. *)
Definition newline_byte (c : ascii) : Prop := c = chr 10 \/ c = chr 13.

Definition space_byte (c : ascii) : Prop :=
  c = " "%char \/ c = chr 9 \/ c = chr 10 \/ c = chr 11 \/ c = chr 12 \/ c = chr 13.

Definition digit_byte (c : ascii) : Prop := (48 <= code c <= 57)%N.

(** A byte of a name: a letter, a digit, an underscore or a byte that is not
    ASCII. *)
Definition name_byte (c : ascii) : Prop :=
  (65 <= code c <= 90)%N \/ (97 <= code c <= 122)%N \/ digit_byte c \/
  c = "_"%char \/ (128 <= code c)%N.

(** The byte before [i] belongs to a name. *)
Definition after_name (s : bytes) (i : nat) : Prop :=
  exists j c, i = S j /\ s !! j = Some c /\ (name_byte c \/ c = "$"%char).

Lemma newline_spec c : IsSQLNewline c = true <-> newline_byte c.
Proof. unfold IsSQLNewline, newline_byte. by rewrite orb_true_iff, !Ascii.eqb_eq. Qed.

Lemma not_newline_spec c : IsSQLNewline c = false <-> ~ newline_byte c.
Proof. by rewrite <- newline_spec, not_true_iff_false. Qed.

Lemma space_spec c : IsSQLSpace c = true <-> space_byte c.
Proof.
  unfold IsSQLSpace, space_byte. rewrite !orb_true_iff, !Ascii.eqb_eq. unfold space.
  change (chr 32) with " "%char. tauto.
Qed.

Lemma digit_spec c : is_digit c = true <-> digit_byte c.
Proof. unfold is_digit, in_range, digit_byte. rewrite andb_true_iff, !N.leb_le. done. Qed.

Lemma name_spec c : IsIdentChar c = true <-> name_byte c.
Proof.
  unfold IsIdentChar, name_byte. rewrite !orb_true_iff, digit_spec, Ascii.eqb_eq.
  unfold in_range. rewrite !andb_true_iff, !N.leb_le. tauto.
Qed.

Lemma after_name_spec s i : ContinuesIdentifier s i = true <-> after_name s i.
Proof.
  unfold ContinuesIdentifier, after_name, test_at. destruct i as [|j].
  { split; [done|]. by intros (? & ? & ? & _). }
  split.
  - destruct (s !! j) as [c|] eqn:Hc; [|done]. intros Hb. exists j, c. split_and!; [done..|].
    apply orb_true_iff in Hb as [?%name_spec|?%Ascii.eqb_eq]; auto.
  - intros (j' & c & [= <-] & -> & [Hn%name_spec | ->]); [by rewrite Hn|by rewrite orb_true_r].
Qed.

Lemma not_after_name_spec s i : ContinuesIdentifier s i = false <-> ~ after_name s i.
Proof. by rewrite <- after_name_spec, not_true_iff_false. Qed.

(** ** Reading a position of the input as a suffix *)

Lemma drop_cons_lookup (s : bytes) i c t :
  drop i s = c :: t -> s !! i = Some c /\ drop (i + 1) s = t.
Proof.
  intros H. split.
  - rewrite <- (Nat.add_0_r i), <- lookup_drop, H. done.
  - rewrite <- drop_drop, H. done.
Qed.

Lemma drop_app_suffix (s : bytes) i a t :
  drop i s = a ++ t -> drop (i + length a) s = t.
Proof. intros H. by rewrite <- drop_drop, H, drop_app_length. Qed.

Lemma drop_nil_lookup (s : bytes) i : drop i s = [] -> s !! i = None.
Proof.
  intros H. rewrite <- (Nat.add_0_r i), <- lookup_drop, H. done.
Qed.

(** [look H] reads the first byte of a known suffix. *)
Ltac look H :=
  let Hl := fresh "Hl" in let Ht := fresh "Ht" in
  pose proof (drop_cons_lookup _ _ _ _ H) as [Hl Ht].

Lemma byte_at_suffix (s : bytes) i c t d :
  drop i s = c :: t -> byte_at s i d = Ascii.eqb c d.
Proof. intros H. look H. unfold byte_at. by rewrite Hl. Qed.

Lemma byte_at_end (s : bytes) i d : drop i s = [] -> byte_at s i d = false.
Proof. intros H. unfold byte_at. by rewrite drop_nil_lookup. Qed.

(** The first byte after position [i] of the remaining text is [d]. *)
Lemma byte_at_head (s : bytes) i t d :
  drop i s = t -> byte_at s i d = bool_decide (head t = Some d).
Proof.
  intros H. destruct t as [|c t].
  - rewrite byte_at_end by done. by rewrite bool_decide_eq_false_2.
  - rewrite (byte_at_suffix _ _ _ _ _ H). simpl.
    destruct (Ascii.eqb_spec c d) as [->|Hne].
    + by rewrite bool_decide_eq_true_2.
    + rewrite bool_decide_eq_false_2; [done|congruence].
Qed.

Lemma scan_while_app p (s : bytes) i t rest :
  drop i s = t ++ rest -> Forall (fun c => p c = true) t ->
  (forall c, head rest = Some c -> p c = false) ->
  scan_while p s i = i + length t.
Proof.
  intros H Ht Hrest. revert i H.
  induction Ht as [|c t Hc Ht IH]; intros i H; simpl in *.
  - rewrite scan_while_eq. destruct rest as [|c rest].
    + unfold test_at. rewrite drop_nil_lookup by done. lia.
    + look H. unfold test_at. rewrite Hl, (Hrest c eq_refl). lia.
  - look H. rewrite scan_while_eq. unfold test_at at 1. rewrite Hl, Hc.
    rewrite (IH (i + 1)) by done. lia.
Qed.

(** ** Continuation of a literal on a later line

    [gap b g]: [g] is white space and line comments between two parts of a
    literal, and [b] says whether it holds a newline.  A line comment must be
    followed by its newline. *)
Inductive gap : bool -> bytes -> Prop :=
| gap_nil : gap false []
| gap_space c b g :
    space_byte c -> ~ newline_byte c -> gap b g -> gap b (c :: g)
| gap_newline c b g :
    newline_byte c -> gap b g -> gap true (c :: g)
| gap_comment t n b g :
    Forall (fun c => ~ newline_byte c) t ->
    newline_byte n -> gap b (n :: g) ->
    gap b ("-"%char :: "-"%char :: t ++ n :: g).

Definition qc_run (s : bytes) : nat * bool -> option nat :=
  run (fun st => length s - fst st) (quote_continuation_step s) None.

Lemma qc_run_eq s st :
  qc_run s st = match quote_continuation_step s st with
                | inl st' => qc_run s st' | inr r => r end.
Proof. apply run_unfold, quote_continuation_dec. Qed.

(** The scan accepts every gap that holds a newline. *)
Lemma quoteContinuation_complete s b g :
  gap b g -> forall i saw rest, drop i s = g ++ squote :: rest ->
  saw || b = true -> qc_run s (i, saw) = Some (i + length g + 1).
Proof.
  induction 1 as [|c b g Hs Hn Hg IH|c b g Hn Hg IH|t n b g Hf Hn Hg IH];
    intros i saw rest H Hb; simpl in H; look H; rewrite qc_run_eq; simpl;
    rewrite Hl; try apply newline_spec in Hn; try apply space_spec in Hs.
  - simpl. rewrite orb_false_r in Hb. subst saw. simpl. f_equal. lia.
  - apply not_newline_spec in Hn. rewrite Hn, Hs, (IH (i + 1) saw rest) by done. f_equal. lia.
  - rewrite Hn, (IH (i + 1) true rest) by done. f_equal. lia.
  - assert (IsSQLNewline "-" = false) as -> by done.
    assert (IsSQLSpace "-" = false) as -> by done.
    rewrite (byte_at_suffix s (i + 1) _ _ _ Ht). simpl.
    rewrite (scan_while_app _ s i ("-"%char :: "-"%char :: t)
               (n :: g ++ squote :: rest)).
    + rewrite (IH _ saw rest); [|rewrite (drop_app_suffix s i
        ("-"%char :: "-"%char :: t) (n :: g ++ squote :: rest)); [done|]|done].
      * f_equal. simpl. rewrite length_app. simpl. lia.
      * rewrite H. simpl. by rewrite <- app_assoc.
    + rewrite H. simpl. by rewrite <- app_assoc.
    + repeat constructor. eapply Forall_impl; [exact Hf|].
      intros c Hc%not_newline_spec. by rewrite Hc.
    + simpl. intros ? [= <-]. by rewrite Hn.
Qed.

Lemma drop_split (s : bytes) i j :
  i <= j -> drop i s = slice i j s ++ drop j s.
Proof.
  intros H. unfold slice. replace j with (i + (j - i)) at 2 by lia.
  by rewrite <- drop_drop, take_drop.
Qed.

Lemma slice_Forall (p : ascii -> bool) s i j :
  (forall k, i <= k < j -> test_at s k p = true) ->
  Forall (fun c => p c = true) (slice i j s).
Proof.
  intros H. apply Forall_lookup. intros k c Hk. unfold slice in Hk.
  apply lookup_take_Some in Hk as [Hk Hlt]. rewrite lookup_drop in Hk.
  specialize (H (i + k) ltac:(lia)). unfold test_at in H. by rewrite Hk in H.
Qed.

(** The text a line comment skips, and what stops it. *)
Lemma line_comment_split s i :
  byte_at s i "-" = true -> byte_at s (i + 1) "-" = true ->
  let e := scan_while (fun b => negb (IsSQLNewline b)) s i in
  exists t, drop i s = "-"%char :: "-"%char :: t ++ drop e s /\
    e = i + 2 + length t /\
    Forall (fun c => negb (IsSQLNewline c) = true) t /\
    (forall c, head (drop e s) = Some c -> IsSQLNewline c = true).
Proof.
  intros H1 H2 e. pose proof (byte_at_lt _ _ _ H2) as Hlt.
  apply byte_at_Some in H1, H2.
  pose proof (scan_while_spec (fun b => negb (IsSQLNewline b)) s i)
    as (Hge & Hle & Hall & Hend). fold e in Hge, Hle, Hall, Hend.
  assert (i + 2 <= e) as He.
  { unfold e. rewrite scan_while_eq. unfold test_at at 1. rewrite H1. simpl.
    rewrite scan_while_eq. unfold test_at at 1. rewrite H2. simpl.
    replace (i + 1 + 1) with (i + 2) by lia.
    by destruct (scan_while_spec (fun b => negb (IsSQLNewline b)) s (i + 2)). }
  exists (slice (i + 2) e s). split_and!.
  - rewrite (drop_S s "-"%char i) by done. f_equal.
    rewrite (drop_S s "-"%char (S i)) by (rewrite <- H2; f_equal; lia). f_equal.
    rewrite <- drop_split by done. f_equal. lia.
  - rewrite slice_length by lia. lia.
  - apply slice_Forall. intros k Hk. apply Hall. lia.
  - intros c Hc. unfold test_at in Hend.
    destruct (drop e s) as [|c' t] eqn:E; [done|]. injection Hc as ->.
    look E. rewrite Hl in Hend. by apply negb_false_iff.
Qed.

(** Every continuation the scan finds is a gap that holds a newline. *)
Lemma quoteContinuation_sound s st j :
  qc_run s st = Some j ->
  exists b g rest, gap b g /\ drop (fst st) s = g ++ squote :: rest /\
    snd st || b = true /\ j = fst st + length g + 1.
Proof.
  revert j. unfold qc_run. revert st.
  apply (run_ind _ _ None (fun st r => forall j, r = Some j ->
    exists b g rest, gap b g /\ drop (fst st) s = g ++ squote :: rest /\
    snd st || b = true /\ j = fst st + length g + 1));
    [apply quote_continuation_dec|..].
  - intros [i saw] r E j ->. unfold quote_continuation_step in E.
    destruct (s !! i) as [c|] eqn:Hc; [|done].
    destruct (IsSQLNewline c), (IsSQLSpace c),
      (Ascii.eqb c "-" && byte_at s (i + 1) "-"); try done.
    destruct (Ascii.eqb c squote) eqn:Hq, saw; try done. injection E as <-.
    apply Ascii.eqb_eq in Hq as ->.
    exists false, [], (drop (i + 1) s).
    split_and!; simpl; [apply gap_nil| |done|lia].
    rewrite (drop_S _ _ _ Hc). do 2 f_equal. lia.
  - intros [i saw] [i' saw'] r E IH j Hj.
    destruct (IH j Hj) as (b & g & rest & Hg & Hd & Hb & ->). clear IH.
    unfold quote_continuation_step in E. simpl in *.
    destruct (s !! i) as [c|] eqn:Hc; [|done].
    destruct (IsSQLNewline c) eqn:Hn.
    { apply newline_spec in Hn. injection E as <- <-. exists true, (c :: g), rest.
      split_and!; [by econstructor| |by rewrite orb_true_r|simpl; lia].
      rewrite (drop_S _ _ _ Hc), <- Nat.add_1_r, Hd. done. }
    destruct (IsSQLSpace c) eqn:Hs.
    { apply space_spec in Hs. apply not_newline_spec in Hn.
      injection E as <- <-. exists b, (c :: g), rest.
      split_and!; [by constructor| |done|simpl; lia].
      rewrite (drop_S _ _ _ Hc), <- Nat.add_1_r, Hd. done. }
    destruct (Ascii.eqb c "-" && byte_at s (i + 1) "-") eqn:Hdash;
      [|by split_ifs].
    injection E as <- <-. apply andb_true_iff in Hdash as [Hd1 Hd2].
    destruct (line_comment_split s i) as (t & Ht & He & Hf & Hh); [|done|].
    { apply byte_at_Some. rewrite Hc. f_equal. by apply Ascii.eqb_eq. }
    rewrite Hd in Hh, Ht. destruct g as [|n g]; simpl in Hh.
    { specialize (Hh squote eq_refl). done. }
    exists b, ("-"%char :: "-"%char :: t ++ n :: g), rest.
    split_and!; [apply gap_comment; [|by apply newline_spec, Hh|done]| |done|].
    { eapply Forall_impl; [exact Hf|]. by intros c' Hc'%negb_true_iff%not_newline_spec. }
    + rewrite Ht. simpl. by rewrite <- app_assoc.
    + simpl. rewrite length_app. simpl. lia.
Qed.

(** Text after a closing quote that continues the literal. *)
Definition continues_with (post : bytes) : Prop :=
  exists g rest, gap true g /\ post = g ++ squote :: rest.

Lemma quoteContinuation_iff s i :
  quoteContinuation s i = None <-> ~ continues_with (drop i s).
Proof.
  change (quoteContinuation s i) with (qc_run s (i, false)). split.
  - intros H (g & rest & Hg & Hd).
    by rewrite (quoteContinuation_complete s true g Hg i false rest) in H.
  - intros H. destruct (qc_run s (i, false)) as [j|] eqn:E; [|done].
    apply quoteContinuation_sound in E as (b & g & rest & Hg & Hd & Hb & _).
    simpl in *. subst b. destruct H. by exists g, rest.
Qed.

(** ** Quoted literals

    [lit_body esc dbl cont q b]: [b] is the text between the quotes [q] of a
    literal in which a backslash escapes ([esc]), a doubled quote is a quote
    ([dbl]) and a gap with a newline continues the literal ([cont]). *)
Inductive lit_body (esc dbl cont : bool) (q : ascii) : bytes -> Prop :=
| body_nil : lit_body esc dbl cont q []
| body_char c b :
    c <> q -> (esc = true -> c <> backslash) ->
    lit_body esc dbl cont q b -> lit_body esc dbl cont q (c :: b)
| body_escape c b :
    esc = true -> lit_body esc dbl cont q b ->
    lit_body esc dbl cont q (backslash :: c :: b)
| body_double b :
    dbl = true -> lit_body esc dbl cont q b ->
    lit_body esc dbl cont q (q :: q :: b)
| body_continue g b :
    cont = true -> q = squote -> gap true g -> lit_body esc dbl cont q b ->
    lit_body esc dbl cont q (q :: g ++ q :: b).

(** The text after the closing quote does not extend the literal. *)
Definition lit_ends (dbl cont : bool) (q : ascii) (post : bytes) : Prop :=
  (dbl = true -> head post <> Some q) /\
  (cont = true -> ~ continues_with post).

Lemma gap_head_not_quote b g c :
  gap b (c :: g) -> c <> squote.
Proof.
  inversion 1 as [|? ? ? Hs|? ? ? Hn|]; subst; try done; intros ->.
  - by apply space_spec in Hs.
  - by apply newline_spec in Hn.
Qed.

Definition sq_run (s : bytes) esc dbl cont q : nat -> nat :=
  run (fun i => length s - i) (skip_quoted_step s esc dbl cont q) (length s).

Lemma sq_run_eq s esc dbl cont q i :
  sq_run s esc dbl cont q i =
    match skip_quoted_step s esc dbl cont q i with
    | inl i' => sq_run s esc dbl cont q i' | inr r => r end.
Proof. apply run_unfold, skip_quoted_dec. Qed.

Lemma skip_quoted_exact s esc dbl cont q b :
  lit_body esc dbl cont q b -> q <> backslash ->
  forall i post, drop i s = b ++ q :: post -> lit_ends dbl cont q post ->
  sq_run s esc dbl cont q i = i + length b + 1.
Proof.
  intros Hb Hq.
  induction Hb as [|c b Hc He Hb IH|c b He Hb IH|b Hd Hb IH|g b Hct Hsq Hg Hb IH];
    intros i post H Hend; simpl in H; look H; rewrite sq_run_eq;
    unfold skip_quoted_step; rewrite Hl.
  - assert (Ascii.eqb q backslash = false) as -> by by apply Ascii.eqb_neq.
    rewrite andb_false_r, Ascii.eqb_refl.
    rewrite (byte_at_head s (i + 1) post q Ht).
    destruct Hend as [Hd Hc].
    assert (dbl && bool_decide (head post = Some q) = false) as ->.
    { destruct dbl; [|done]. by rewrite bool_decide_eq_false_2 by auto. }
    destruct cont; [|simpl; lia].
    assert (quoteContinuation s (i + 1) = None) as ->; [|simpl; lia].
    rewrite quoteContinuation_iff, Ht. auto.
  - assert (esc && Ascii.eqb c backslash = false) as ->.
    { destruct esc; [|done]. by apply Ascii.eqb_neq, He. }
    assert (Ascii.eqb c q = false) as -> by by apply Ascii.eqb_neq.
    rewrite (IH (i + 1) post) by done. simpl. lia.
  - subst esc. rewrite Ascii.eqb_refl. simpl.
    look Ht. rewrite (IH (i + 2) post); [lia| |done].
    by replace (i + 2) with (i + 1 + 1) by lia.
  - assert (Ascii.eqb q backslash = false) as -> by by apply Ascii.eqb_neq.
    rewrite andb_false_r, Ascii.eqb_refl. look Ht. subst dbl.
    rewrite (byte_at_suffix s (i + 1) _ _ _ Ht), Ascii.eqb_refl. simpl.
    rewrite (IH (i + 2) post); [lia| |done].
    by replace (i + 2) with (i + 1 + 1) by lia.
  - subst q cont. simpl. rewrite andb_false_r. simpl.
    rewrite <- app_assoc in Ht. simpl in Ht.
    destruct g as [|c g]; [by inversion Hg|].
    assert (byte_at s (i + 1) squote = false) as ->.
    { rewrite (byte_at_suffix s (i + 1) _ _ _ Ht). apply Ascii.eqb_neq.
      by apply gap_head_not_quote in Hg. }
    rewrite andb_false_r. change (quoteContinuation s (i + 1))
      with (qc_run s (i + 1, false)).
    rewrite (quoteContinuation_complete s true (c :: g) Hg (i + 1) false
               (b ++ squote :: post)) by done.
    apply drop_app_suffix in Ht. apply drop_cons_lookup in Ht as [_ Ht].
    rewrite (IH _ post) by done. rewrite length_app. simpl. lia.
Qed.

(** Prefixes: the text before the opening quote and the kind it selects. *)
Inductive lit_prefix : bytes -> literalKind -> ascii -> Prop :=
| prefix_plain : lit_prefix [] plainLiteral squote
| prefix_ident : lit_prefix [] quotedIdentifier dquote
| prefix_e c : c = "E"%char \/ c = "e"%char ->
    lit_prefix [c] escapeLiteral squote
| prefix_bit c :
    c = "B"%char \/ c = "b"%char \/ c = "X"%char \/ c = "x"%char ->
    lit_prefix [c] bitLiteral squote
| prefix_n c : c = "N"%char \/ c = "n"%char ->
    lit_prefix [c] plainLiteral squote
| prefix_u c : c = "U"%char \/ c = "u"%char ->
    lit_prefix [c; "&"%char] unicodeLiteral squote
| prefix_uident c : c = "U"%char \/ c = "u"%char ->
    lit_prefix [c; "&"%char] quotedIdentifier dquote.

(** The escape, doubling and continuation rules of a kind. *)
Definition kind_escapes (k : literalKind) (r : StringReading) : bool :=
  bool_decide (k = escapeLiteral) ||
  (bool_decide (k = plainLiteral) && bool_decide (r = EscapeStrings)).
Definition kind_doubles (k : literalKind) : bool :=
  negb (bool_decide (k = bitLiteral)).
Definition kind_continues (k : literalKind) : bool :=
  negb (bool_decide (k = quotedIdentifier)).

Lemma skip_quoted_body_exact s k r q i b post :
  lit_body (kind_escapes k r) (kind_doubles k) (kind_continues k) q b ->
  q <> backslash -> drop i s = q :: b ++ q :: post ->
  lit_ends (kind_doubles k) (kind_continues k) q post ->
  skip_quoted_body s k r i = i + length b + 2.
Proof.
  intros Hb Hq H Hend. look H. unfold skip_quoted_body. rewrite Hl.
  transitivity
    (sq_run s (kind_escapes k r) (kind_doubles k) (kind_continues k) q (i + 1));
    [reflexivity|].
  rewrite (skip_quoted_exact s _ _ _ q b Hb Hq (i + 1) post Ht Hend). lia.
Qed.

Lemma literalPrefix_two (s : bytes) i c d t :
  drop i s = c :: d :: t ->
  s !! i = Some c /\ s !! (i + 1) = Some d /\ drop (i + 2) s = t.
Proof.
  intros H. look H. look Ht. split_and!; [done|done|].
  by replace (i + 2) with (i + 1 + 1) by lia.
Qed.

(** The opening of a literal is recognised and gives its kind. *)
Lemma SkipNonCode_prefix s i r p k q t :
  lit_prefix p k q -> drop i s = p ++ q :: t ->
  (p <> [] -> ContinuesIdentifier s i = false) ->
  SkipNonCode s i r = skip_quoted_body s k r (i + length p).
Proof.
  intros Hp H Hc. unfold SkipNonCode, IsQuoteStart, SkipQuoted.
  rewrite !(byte_at_head s i _ _ H).
  inversion Hp; subst; simpl in *; rewrite ?Nat.add_0_r; try done.
  all: rewrite Hc by done.
  all: apply literalPrefix_two in H as (H1 & H2 & Ht).
  all: unfold literalPrefix; rewrite H1, H2, ?(byte_at_head s (i + 2) _ _ Ht).
  all: repeat match goal with H : _ \/ _ |- _ => destruct H end; subst; done.
Qed.

Lemma lit_prefix_quote p k q : lit_prefix p k q -> q <> backslash.
Proof. by inversion 1. Qed.

(** A quoted literal or identifier of any prefix, with its doubled
    quotes, its backslash escapes (in an escape literal, or in a plain one
    when standard_conforming_strings is off) and its continuation lines, is
    stepped over exactly: the scan resumes at the first byte after its
    closing quote. *)
Lemma SkipNonCode_literal s i r p k q b post :
  lit_prefix p k q ->
  lit_body (kind_escapes k r) (kind_doubles k) (kind_continues k) q b ->
  lit_ends (kind_doubles k) (kind_continues k) q post ->
  drop i s = p ++ q :: b ++ q :: post ->
  (p <> [] -> ContinuesIdentifier s i = false) ->
  SkipNonCode s i r = i + length (p ++ q :: b ++ [q]).
Proof.
  intros Hp Hb Hend H Hc.
  rewrite (SkipNonCode_prefix s i r p k q (b ++ q :: post)) by done.
  rewrite (skip_quoted_body_exact s k r q (i + length p) b post); try done.
  - rewrite !length_app. simpl. rewrite length_app. simpl. lia.
  - by eapply lit_prefix_quote.
  - by apply drop_app_suffix.
Qed.

(** ** Comments

    [comment_body d b]: [b] closes [d] open block comments, comments nested
    in it included. *)
Inductive comment_body : nat -> bytes -> Prop :=
| comment_done : comment_body 0 []
| comment_open d b :
    comment_body (S (S d)) b ->
    comment_body (S d) ("/"%char :: "*"%char :: b)
| comment_close d b :
    comment_body d b -> comment_body (S d) ("*"%char :: "/"%char :: b)
| comment_char d c b :
    ~ (c = "/"%char /\ head b = Some "*"%char) ->
    ~ (c = "*"%char /\ head b = Some "/"%char) ->
    comment_body (S d) b -> comment_body (S d) (c :: b).

Definition bc_run (s : bytes) (d : nat) : nat * nat -> nat :=
  run (fun st => length s - fst st) (block_comment_step s) d.

Lemma bc_run_eq s d st :
  bc_run s d st = match block_comment_step s st with
                  | inl st' => bc_run s d st' | inr r => r end.
Proof. apply run_unfold, block_comment_dec. Qed.

Lemma comment_body_nonempty d b : comment_body (S d) b -> b <> [].
Proof. by inversion 1. Qed.

Lemma block_comment_exact s d0 d b :
  comment_body d b -> forall i post, drop i s = b ++ post ->
  bc_run s d0 (i, d) = i + length b.
Proof.
  induction 1 as [|d b Hb IH|d b Hb IH|d c b Hn1 Hn2 Hb IH]; intros i post H;
    rewrite bc_run_eq; unfold block_comment_step.
  - rewrite andb_false_r. simpl. lia.
  - apply literalPrefix_two in H as (H1 & H2 & Ht).
    pose proof (lookup_lt_Some _ _ _ H1).
    replace (i <? length s) with true by (symmetry; by apply Nat.ltb_lt).
    unfold byte_at. rewrite H1, H2. simpl.
    replace (d + 1) with (S d) by lia. rewrite (IH (i + 2) post) by done. lia.
  - apply literalPrefix_two in H as (H1 & H2 & Ht).
    pose proof (lookup_lt_Some _ _ _ H1).
    replace (i <? length s) with true by (symmetry; by apply Nat.ltb_lt).
    unfold byte_at. rewrite H1, H2. simpl.
    replace (d - 0) with d by lia. rewrite (IH (i + 2) post) by done. lia.
  - simpl in H. look H. pose proof (lookup_lt_Some _ _ _ Hl).
    replace (i <? length s) with true by (symmetry; by apply Nat.ltb_lt).
    assert (head (b ++ post) = head b) as Hh
      by (apply comment_body_nonempty in Hb; by destruct b).
    rewrite !(byte_at_suffix s i _ _ _ H), !(byte_at_head s (i + 1) _ _ Ht), Hh.
    assert (forall x y, ~ (c = x /\ head b = Some y) ->
      Ascii.eqb c x && bool_decide (head b = Some y) = false) as Hno.
    { intros x y Hxy. destruct (Ascii.eqb_spec c x); [|done].
      apply bool_decide_eq_false_2. naive_solver. }
    rewrite !Hno by done. simpl. rewrite (IH (i + 1) post) by done. lia.
Qed.

Lemma not_quote_start s i c t :
  drop i s = c :: t -> c = "-"%char \/ c = "/"%char \/ c = "$"%char ->
  IsQuoteStart s i = false.
Proof.
  intros H Hc. look H. unfold IsQuoteStart.
  rewrite !(byte_at_suffix s i _ _ _ H).
  unfold literalPrefix. rewrite Hl.
  destruct Hc as [->|[-> | ->]]; simpl;
    destruct (ContinuesIdentifier s i), (s !! (i + 1)); done.
Qed.

Lemma skip_comment_exact s i r b post :
  (comment_body 1 b -> drop i s = "/"%char :: "*"%char :: b ++ post ->
   SkipNonCode s i r = i + 2 + length b) /\
  (Forall (fun c => IsSQLNewline c = false) b ->
   (forall c, head post = Some c -> IsSQLNewline c = true) ->
   drop i s = "-"%char :: "-"%char :: b ++ post ->
   SkipNonCode s i r = i + 2 + length b).
Proof.
  split.
  - intros Hb H. unfold SkipNonCode.
    rewrite (not_quote_start s i _ _ H) by auto.
    unfold ScanDollarTag. rewrite !(byte_at_suffix s i _ _ _ H). simpl. look H.
    rewrite (byte_at_suffix s (i + 1) _ _ _ Ht). simpl. look Ht.
    change (skipBlockComment s i) with (bc_run s i (i + 2, 1)).
    apply (block_comment_exact s i 1 b Hb (i + 2) post).
    by replace (i + 2) with (i + 1 + 1) by lia.
  - intros Hb Hp H. unfold SkipNonCode.
    rewrite (not_quote_start s i _ _ H) by auto.
    unfold ScanDollarTag. rewrite !(byte_at_suffix s i _ _ _ H). simpl. look H.
    rewrite (byte_at_suffix s (i + 1) _ _ _ Ht). simpl.
    rewrite (scan_while_app _ s i ("-"%char :: "-"%char :: b) post);
      [simpl; lia|done| |].
    + repeat constructor. eapply Forall_impl; [done|]. simpl. by intros c ->.
    + intros c Hc. by rewrite (Hp c Hc).
Qed.

(** ** Dollar quotes *)

Lemma dollar_not_ident c : IsIdentChar c = true -> Ascii.eqb c "$" = false.
Proof. intros H. apply Ascii.eqb_neq. by intros ->. Qed.

Lemma two_dollars (s : bytes) i :
  s !! i = Some "$"%char -> s !! (i + 1) = Some "$"%char ->
  slice i (i + 1 + 1) s = lit "$$".
Proof.
  intros H1 H2. unfold slice. replace (i + 1 + 1 - i) with 2 by lia.
  rewrite (drop_S _ _ _ H1), (drop_S s "$"%char (S i)); [done|].
  rewrite <- H2. f_equal. lia.
Qed.

Lemma dollar_tag_run_intro s i e j :
  j <= e -> s !! e = Some "$"%char ->
  (forall k, j <= k < e -> test_at s k IsIdentChar = true) ->
  run (fun j => length s - j) (dollar_tag_step s i) [] j = slice i (e + 1) s.
Proof.
  intros Hj He. remember (e - j) as n eqn:Hn. revert j Hj Hn.
  induction n as [|n IH]; intros j Hj Hn Hall;
    rewrite run_unfold by apply dollar_tag_dec.
  - assert (j = e) as -> by lia.
    assert (dollar_tag_step s i e = inr (slice i (e + 1) s)) as ->; [|done].
    unfold dollar_tag_step. by rewrite He.
  - pose proof (Hall j ltac:(lia)) as Ht.
    apply test_at_Some in Ht as (c & Hc & Hic).
    assert (dollar_tag_step s i j = inl (j + 1)) as ->.
    { unfold dollar_tag_step. by rewrite Hc, Hic, dollar_not_ident. }
    apply IH; [lia|lia|]. intros k Hk. apply Hall. lia.
Qed.

(** The converse of [ScanDollarTag_spec]. *)
Lemma ScanDollarTag_intro s i e :
  i < e -> s !! i = Some "$"%char -> s !! e = Some "$"%char ->
  ContinuesIdentifier s i = false ->
  (forall k, i < k < e -> test_at s k IsIdentChar = true) ->
  (e <> i + 1 -> test_at s (i + 1) is_digit = false) ->
  ScanDollarTag s i = slice i (e + 1) s.
Proof.
  intros Hie Hi He Hc Hall Hd. unfold ScanDollarTag.
  rewrite (proj2 (byte_at_Some s i "$") Hi), Hc. simpl.
  destruct (decide (e = i + 1)) as [->|Hne].
  { rewrite (proj2 (byte_at_Some s (i + 1) "$") He).
    symmetry. by apply two_dollars. }
  pose proof (Hall (i + 1) ltac:(lia)) as H1.
  specialize (Hd Hne). apply test_at_Some in H1 as (c & Hl & Hic).
  unfold test_at in *. rewrite Hl in *. unfold byte_at.
  rewrite Hl, dollar_not_ident, Hic, Hd by done. simpl.
  apply dollar_tag_run_intro; [lia|done|]. intros k Hk. apply Hall. lia.
Qed.

(** ** Text that is opened and never closed

    [lit_unclosed] is the rest of a text that a literal opened before it reaches
    the end of; [comment_unclosed] the same for block comments. *)
Inductive lit_unclosed (esc dbl cont : bool) (q : ascii) : bytes -> Prop :=
| open_nil : lit_unclosed esc dbl cont q []
| open_char c t :
    c <> q -> (esc = true -> c <> backslash) ->
    lit_unclosed esc dbl cont q t -> lit_unclosed esc dbl cont q (c :: t)
| open_escape c t :
    esc = true -> lit_unclosed esc dbl cont q t ->
    lit_unclosed esc dbl cont q (backslash :: c :: t)
| open_escape_end : esc = true -> lit_unclosed esc dbl cont q [backslash]
| open_double t :
    dbl = true -> lit_unclosed esc dbl cont q t ->
    lit_unclosed esc dbl cont q (q :: q :: t)
| open_continue g t :
    cont = true -> q = squote -> gap true g -> lit_unclosed esc dbl cont q t ->
    lit_unclosed esc dbl cont q (q :: g ++ q :: t).

Inductive comment_unclosed : nat -> bytes -> Prop :=
| copen_nil d : comment_unclosed (S d) []
| copen_open d t :
    comment_unclosed (S (S d)) t -> comment_unclosed (S d) ("/"%char :: "*"%char :: t)
| copen_close d t :
    comment_unclosed (S d) t -> comment_unclosed (S (S d)) ("*"%char :: "/"%char :: t)
| copen_char d c t :
    ~ (c = "/"%char /\ head t = Some "*"%char) ->
    ~ (c = "*"%char /\ head t = Some "/"%char) ->
    comment_unclosed (S d) t -> comment_unclosed (S d) (c :: t).

Lemma drop_length_end (s : bytes) i t : drop i s = t -> i <= length s -> length s = i + length t.
Proof. intros <- Hi. rewrite length_drop. lia. Qed.

Lemma sq_run_end s esc dbl cont q i : length s <= i -> sq_run s esc dbl cont q i = length s.
Proof.
  intros Hi. rewrite sq_run_eq. unfold skip_quoted_step. by rewrite lookup_ge_None_2.
Qed.

(** A literal that is not closed runs to the end. *)
Lemma skip_quoted_open s esc dbl cont q t :
  lit_unclosed esc dbl cont q t -> q <> backslash ->
  forall i, drop i s = t -> sq_run s esc dbl cont q i = length s.
Proof.
  intros Ho Hq.
  induction Ho as [|c t Hc He Ho IH|c t He Ho IH|He|t Hd Ho IH|g t Hct Hsq Hg Ho IH];
    intros i H.
  - apply sq_run_end. destruct (decide (i < length s)) as [Hi|]; [|lia].
    apply lookup_lt_is_Some in Hi as [x Hx]. by rewrite (drop_nil_lookup _ _ H) in Hx.
  - look H. rewrite sq_run_eq. unfold skip_quoted_step. rewrite Hl.
    assert (esc && Ascii.eqb c backslash = false) as ->.
    { destruct esc; [|done]. by apply Ascii.eqb_neq, He. }
    rewrite (proj2 (Ascii.eqb_neq c q)) by done. by apply IH.
  - look H. look Ht. rewrite sq_run_eq. unfold skip_quoted_step. rewrite Hl. subst esc.
    rewrite Ascii.eqb_refl. simpl. apply IH. by replace (i + 2) with (i + 1 + 1) by lia.
  - look H. rewrite sq_run_eq. unfold skip_quoted_step. rewrite Hl. subst esc.
    rewrite Ascii.eqb_refl. simpl. apply sq_run_end. pose proof (lookup_lt_Some _ _ _ Hl).
    apply (f_equal length) in H. rewrite length_drop in H. simpl in H. lia.
  - look H. look Ht. rewrite sq_run_eq. unfold skip_quoted_step. rewrite Hl.
    rewrite (proj2 (Ascii.eqb_neq q backslash)) by done. rewrite andb_false_r, Ascii.eqb_refl.
    subst dbl. rewrite (byte_at_suffix s (i + 1) _ _ _ Ht), Ascii.eqb_refl. simpl.
    apply IH. by replace (i + 2) with (i + 1 + 1) by lia.
  - subst q. look H. rewrite sq_run_eq. unfold skip_quoted_step. rewrite Hl. simpl.
    rewrite andb_false_r. simpl. destruct g as [|c g]; [by inversion Hg|].
    assert (byte_at s (i + 1) squote = false) as ->.
    { simpl in Ht. rewrite (byte_at_suffix s (i + 1) _ _ _ Ht). apply Ascii.eqb_neq.
      by apply gap_head_not_quote in Hg. }
    rewrite andb_false_r. subst cont. change (quoteContinuation s (i + 1)) with (qc_run s (i + 1, false)).
    rewrite (quoteContinuation_complete s true (c :: g) Hg (i + 1) false t) by done.
    apply drop_app_suffix in Ht. apply drop_cons_lookup in Ht as [_ Ht]. by apply IH.
Qed.

(** A literal is closed or it is not. *)
Lemma literal_closed_or_open s esc dbl cont q i :
  (cont = true -> q = squote) ->
  (exists b post, lit_body esc dbl cont q b /\ lit_ends dbl cont q post /\
     drop i s = b ++ q :: post) \/ lit_unclosed esc dbl cont q (drop i s).
Proof.
  intros Hsq. remember (length s - i) as n eqn:Hn. revert i Hn.
  induction (lt_wf n) as [n _ IH]; intros i ->.
  destruct (drop i s) as [|c t] eqn:H; [right; constructor|]. look H.
  pose proof (lookup_lt_Some _ _ _ Hl) as Hi.
  assert (forall j, i < j -> (exists b post, lit_body esc dbl cont q b /\
    lit_ends dbl cont q post /\ drop j s = b ++ q :: post) \/ lit_unclosed esc dbl cont q (drop j s))
    as Hrest by (intros j Hj; eapply IH; [|done]; lia). clear IH.
  destruct (esc && Ascii.eqb c backslash) eqn:Eesc.
  { apply andb_true_iff in Eesc as [Hesc ->%Ascii.eqb_eq].
    destruct t as [|d t]; [right; by constructor|]. look Ht.
    destruct (Hrest (i + 1 + 1)) as [(b & post & Hb & He & Hd)|Ho]; [lia|left|right].
    - exists (backslash :: d :: b), post. split_and!; [by constructor|done|].
      by rewrite <- Ht0, Hd.
    - rewrite Ht0 in Ho. by constructor. }
  destruct (Ascii.eqb_spec c q) as [->|Hcq].
  2: { assert (esc = true -> c <> backslash) as Hnb.
    { intros -> ->. by rewrite Ascii.eqb_refl in Eesc. }
    destruct (Hrest (i + 1)) as [(b & post & Hb & He & Hd)|Ho]; [lia|left|right].
    - exists (c :: b), post. split_and!; [by constructor|done|]. by rewrite <- Ht, Hd.
    - rewrite Ht in Ho. by constructor. }
  destruct (dbl && byte_at s (i + 1) q) eqn:Edbl.
  { apply andb_true_iff in Edbl as [Hdbl Hq]. rewrite (byte_at_head _ _ _ _ Ht) in Hq.
    apply bool_decide_eq_true in Hq. destruct t as [|d t]; [done|]. injection Hq as ->. look Ht.
    destruct (Hrest (i + 1 + 1)) as [(b & post & Hb & He & Hd)|Ho]; [lia|left|right].
    - exists (q :: q :: b), post. split_and!; [by constructor|done|]. by rewrite <- Ht0, Hd.
    - rewrite Ht0 in Ho. by constructor. }
  assert (dbl = true -> head t <> Some q) as Hnd.
  { intros -> Hq. rewrite (byte_at_head _ _ _ _ Ht) in Edbl. simpl in Edbl.
    by apply bool_decide_eq_false in Edbl. }
  assert (cont = true -> ~ continues_with t -> (exists b post, lit_body esc dbl cont q b /\
    lit_ends dbl cont q post /\ q :: t = b ++ q :: post)) as Hend.
  { intros -> Hno. exists [], t. split_and!; [constructor|by split|done]. }
  destruct cont.
  2: { left. exists [], t. split_and!; [constructor|by split|done]. }
  destruct (quoteContinuation s (i + 1)) as [j|] eqn:Eq.
  - change (qc_run s (i + 1, false) = Some j) in Eq.
    apply quoteContinuation_sound in Eq as (b & g & rest & Hg & Hd & Hb & Hj).
    cbn [fst snd] in Hd, Hj. simpl in Hb. subst b. rewrite Ht in Hd. rewrite Hsq in * by done.
    assert (drop j s = rest) as Hdj.
    { rewrite Hd in Ht. apply drop_app_suffix in Ht. apply drop_cons_lookup in Ht as [_ <-].
      f_equal. lia. }
    destruct (Hrest j) as [(b & post & Hbody & He & Hdb)|Ho]; [lia|left|right].
    + exists (squote :: g ++ squote :: b), post. split_and!; [by constructor|done|].
      rewrite Hd, <- Hdj, Hdb. cbn. by rewrite <- app_assoc.
    + rewrite Hd. rewrite Hdj in Ho. by constructor.
  - left. apply Hend; [done|]. rewrite <- Ht. by apply quoteContinuation_iff.
Qed.

Lemma pair_no c t (x y : ascii) :
  ~ (c = x /\ head t = Some y) -> Ascii.eqb c x && bool_decide (head t = Some y) = false.
Proof.
  intros Hxy. destruct (Ascii.eqb_spec c x); [|done].
  apply bool_decide_eq_false_2. naive_solver.
Qed.

(** A block comment that is not closed runs to the end. *)
Lemma block_comment_open s d0 d t :
  comment_unclosed d t -> forall i, i <= length s -> drop i s = t -> bc_run s d0 (i, d) = length s.
Proof.
  induction 1 as [d|d t Ho IH|d t Ho IH|d c t Hn1 Hn2 Ho IH]; intros i Hi H;
    rewrite bc_run_eq; unfold block_comment_step.
  - pose proof (drop_length_end _ _ _ H Hi) as Hlen. simpl in Hlen.
    rewrite (proj2 (Nat.ltb_ge i (length s))) by lia. simpl. lia.
  - apply literalPrefix_two in H as (H1 & H2 & Ht).
    pose proof (lookup_lt_Some _ _ _ H1). pose proof (lookup_lt_Some _ _ _ H2).
    rewrite (proj2 (Nat.ltb_lt i (length s))) by done.
    unfold byte_at. rewrite H1, H2. simpl.
    replace (d + 1) with (S d) by lia. apply IH; [lia|done].
  - apply literalPrefix_two in H as (H1 & H2 & Ht).
    pose proof (lookup_lt_Some _ _ _ H1). pose proof (lookup_lt_Some _ _ _ H2).
    rewrite (proj2 (Nat.ltb_lt i (length s))) by done.
    unfold byte_at. rewrite H1, H2. simpl. apply IH; [lia|done].
  - look H. pose proof (lookup_lt_Some _ _ _ Hl).
    rewrite (proj2 (Nat.ltb_lt i (length s))) by done.
    rewrite !(byte_at_suffix s i _ _ _ H), !(byte_at_head s (i + 1) _ _ Ht).
    rewrite !pair_no by done. simpl. apply IH; [lia|done].
Qed.

Lemma comment_closed_or_open d (t : bytes) :
  (exists b post, comment_body (S d) b /\ t = b ++ post) \/ comment_unclosed (S d) t.
Proof.
  remember (length t) as n eqn:Hn. revert d t Hn.
  induction (lt_wf n) as [n _ IH]; intros d t ->.
  destruct t as [|c t]; [right; constructor|].
  destruct (decide (c = "/"%char /\ head t = Some "*"%char)) as [[-> Hh]|Hn1].
  { destruct t as [|e t]; [done|]. injection Hh as ->.
    destruct (IH (length t)) with (d := S d) (t := t) as [(b & post & Hb & ->)|Ho];
      [simpl; lia|done|left|right; by constructor].
    exists ("/"%char :: "*"%char :: b), post. split; [by constructor|done]. }
  destruct (decide (c = "*"%char /\ head t = Some "/"%char)) as [[-> Hh]|Hn2].
  { destruct t as [|e t]; [done|]. injection Hh as ->. destruct d as [|d].
    { left. exists ["*"%char; "/"%char], t. split; [repeat constructor|done]. }
    destruct (IH (length t)) with (d := d) (t := t) as [(b & post & Hb & ->)|Ho];
      [simpl; lia|done|left|right; by constructor].
    exists ("*"%char :: "/"%char :: b), post. split; [by constructor|done]. }
  destruct (IH (length t)) with (d := d) (t := t) as [(b & post & Hb & ->)|Ho];
    [simpl; lia|done|left|right; by constructor].
  pose proof (comment_body_nonempty _ _ Hb) as Hne.
  assert (head (b ++ post) = head b) as Hh by (by destruct b). rewrite Hh in Hn1, Hn2.
  exists (c :: b), post. split; [by constructor|done].
Qed.

(** ** The grammar of text that is not code

    [first_tag tag b post]: in [b ++ tag ++ post] the tag occurs first after
    [b].  [region s i r e]: at position [i] of [s], read as [r], a literal,
    quoted identifier, dollar-quoted string or comment begins, and [e] is
    where it ends, the end of the text when it is not closed. *)
Definition first_tag (tag b post : bytes) : Prop :=
  forall b' post', b ++ tag ++ post = b' ++ tag ++ post' -> length b <= length b'.

Definition dollar_tag (name : bytes) : bytes := "$"%char :: name ++ ["$"%char].

(** The name between the dollars: a name that does not start with a digit. *)
Definition tag_name (name : bytes) : Prop :=
  Forall name_byte name /\ forall c, head name = Some c -> ~ digit_byte c.

Inductive region (s : bytes) (i : nat) (r : StringReading) : nat -> Prop :=
| region_literal p k q b post :
    lit_prefix p k q -> (p <> [] -> ~ after_name s i) ->
    drop i s = p ++ q :: b ++ q :: post ->
    lit_body (kind_escapes k r) (kind_doubles k) (kind_continues k) q b ->
    lit_ends (kind_doubles k) (kind_continues k) q post ->
    region s i r (i + length (p ++ q :: b ++ [q]))
| region_literal_open p k q t :
    lit_prefix p k q -> (p <> [] -> ~ after_name s i) -> drop i s = p ++ q :: t ->
    lit_unclosed (kind_escapes k r) (kind_doubles k) (kind_continues k) q t ->
    region s i r (length s)
| region_block b post :
    drop i s = "/"%char :: "*"%char :: b ++ post -> comment_body 1 b ->
    region s i r (i + 2 + length b)
| region_block_open t :
    drop i s = "/"%char :: "*"%char :: t -> comment_unclosed 1 t -> region s i r (length s)
| region_line b post :
    drop i s = "-"%char :: "-"%char :: b ++ post ->
    Forall (fun c => ~ newline_byte c) b ->
    (forall c, head post = Some c -> newline_byte c) ->
    region s i r (i + 2 + length b)
| region_dollar name b post :
    tag_name name -> ~ after_name s i ->
    drop i s = dollar_tag name ++ b ++ dollar_tag name ++ post ->
    first_tag (dollar_tag name) b post ->
    region s i r (i + length (dollar_tag name ++ b ++ dollar_tag name))
| region_dollar_open name t :
    tag_name name -> ~ after_name s i -> drop i s = dollar_tag name ++ t ->
    (forall b post, t <> b ++ dollar_tag name ++ post) -> region s i r (length s).

Lemma first_tag_Index tag b post :
  first_tag tag b post -> Index (b ++ tag ++ post) tag = Some (length b).
Proof.
  intros Hf. apply Index_Some. split_and!.
  - apply HasPrefix_spec. exists post. by rewrite drop_app_length.
  - rewrite length_app. lia.
  - intros k Hk. apply not_true_iff_false. intros [post' Hp]%HasPrefix_spec.
    assert (length b <= length (take k (b ++ tag ++ post))) as Hle.
    { apply (Hf _ post'). by rewrite <- Hp, take_drop. }
    rewrite length_take in Hle. lia.
Qed.

Lemma Index_first_tag t tag n :
  Index t tag = Some n ->
  exists b post, t = b ++ tag ++ post /\ length b = n /\ first_tag tag b post.
Proof.
  intros ([post Hp]%HasPrefix_spec & Hn & Hfirst)%Index_Some.
  assert (t = take n t ++ tag ++ post) as Ht by (by rewrite <- Hp, take_drop).
  exists (take n t), post. split_and!; [done|rewrite length_take; lia|].
  intros b' post' Heq. rewrite <- Ht in Heq. rewrite length_take, Nat.min_l by done.
  apply Nat.nlt_ge. intros Hlt. specialize (Hfirst _ Hlt). apply not_true_iff_false in Hfirst.
  apply Hfirst, HasPrefix_spec. exists post'. by rewrite Heq, drop_app_length.
Qed.

Lemma tag_name_spec name :
  tag_name name -> Forall (fun c => IsIdentChar c = true) name /\
  (forall c, head name = Some c -> is_digit c = false).
Proof.
  intros [Hn Hd]. split; [eapply Forall_impl; [exact Hn|]; intros c; apply name_spec|].
  intros c Hc. apply not_true_iff_false. rewrite digit_spec. by apply Hd.
Qed.

(** The tag at a dollar sign that opens a string. *)
Lemma ScanDollarTag_tag s i name t :
  tag_name name -> ~ after_name s i -> drop i s = dollar_tag name ++ t ->
  ScanDollarTag s i = dollar_tag name.
Proof.
  intros [Hn Hd]%tag_name_spec Hc%not_after_name_spec H. set (tag := dollar_tag name) in *.
  assert (forall k, k < length tag -> s !! (i + k) = tag !! k) as Hk.
  { intros k Hlt. rewrite <- lookup_drop, H. by apply lookup_app_l. }
  assert (length tag = length name + 2) as Hlen
    by (unfold tag, dollar_tag; simpl; rewrite length_app; simpl; lia).
  assert (forall k, k < length name -> tag !! S k = name !! k) as Hname.
  { intros k Hlt. unfold tag, dollar_tag. simpl. by apply lookup_app_l. }
  rewrite (ScanDollarTag_intro s i (i + length name + 1)); try lia; try done.
  - unfold slice. rewrite H.
    replace (i + length name + 1 + 1 - i) with (length tag) by lia.
    apply take_app_length.
  - rewrite <- (Nat.add_0_r i), Hk by lia. done.
  - rewrite <- Nat.add_assoc, Hk, Nat.add_1_r by lia. unfold tag, dollar_tag. simpl.
    rewrite lookup_app_r, Nat.sub_diag by lia. done.
  - intros k Hlt. unfold test_at. replace k with (i + S (k - i - 1)) by lia.
    rewrite Hk, Hname by lia.
    destruct (name !! (k - i - 1)) as [c|] eqn:E.
    + by apply (Forall_lookup_1 _ _ _ _ Hn E).
    + apply lookup_ge_None in E. lia.
  - intros Hne. unfold test_at. rewrite Hk, Hname by lia.
    destruct name as [|c name]; [done|]. apply (Hd c eq_refl).
Qed.

Lemma SkipNonCode_tag s i r name t :
  tag_name name -> ~ after_name s i -> drop i s = dollar_tag name ++ t ->
  SkipNonCode s i r =
  match Index t (dollar_tag name) with
  | None => length s
  | Some e => i + length (dollar_tag name) + e + length (dollar_tag name)
  end.
Proof.
  intros Hn Hc H. pose proof (ScanDollarTag_tag s i name t Hn Hc H) as Htag.
  pose proof (drop_app_suffix _ _ _ _ H) as Ht. unfold SkipNonCode.
  simpl in H. rewrite (not_quote_start s i _ _ H), Htag by auto.
  change (match Index (drop (i + length (dollar_tag name)) s) (dollar_tag name) with
          | None => length s
          | Some e => i + length (dollar_tag name) + e + length (dollar_tag name)
          end = match Index t (dollar_tag name) with
                | None => length s
                | Some e => i + length (dollar_tag name) + e + length (dollar_tag name)
                end).
  by rewrite Ht.
Qed.

(** The lexer ends every region where the grammar does. *)
Lemma region_skipped s i r e : region s i r e -> SkipNonCode s i r = e.
Proof.
  intros Hr. destruct Hr as [p k q b post Hp Hc H Hb He|p k q t Hp Hc H Ho|b post H Hb|t H Ho|
    b post H Hb Hpost|name b post Hn Hc H Hf|name t Hn Hc H Hno].
  - apply (SkipNonCode_literal s i r p k q b post); try done.
    intros Hne. by apply not_after_name_spec, Hc.
  - rewrite (SkipNonCode_prefix s i r p k q t) by
      (done || (intros Hne; by apply not_after_name_spec, Hc)).
    apply drop_app_suffix in H. look H. unfold skip_quoted_body. rewrite Hl.
    apply (skip_quoted_open s _ _ _ q t Ho); [by eapply lit_prefix_quote|done].
  - apply (proj1 (skip_comment_exact s i r b post)); done.
  - unfold SkipNonCode. rewrite (not_quote_start s i _ _ H) by auto.
    unfold ScanDollarTag. rewrite !(byte_at_suffix s i _ _ _ H). simpl. look H. look Ht.
    rewrite (byte_at_suffix s (i + 1) _ _ _ Ht). simpl.
    pose proof (lookup_lt_Some _ _ _ Hl0).
    apply (block_comment_open s i 1 t Ho (i + 2)); [lia|].
    by replace (i + 2) with (i + 1 + 1) by lia.
  - apply (proj2 (skip_comment_exact s i r b post)); [|intros c Hc; by apply newline_spec, Hpost|done].
    eapply Forall_impl; [exact Hb|]. intros c. apply not_newline_spec.
  - rewrite (SkipNonCode_tag s i r name _ Hn Hc H), (first_tag_Index _ _ _ Hf), !length_app. lia.
  - rewrite (SkipNonCode_tag s i r name _ Hn Hc H).
    destruct (Index t (dollar_tag name)) as [n|] eqn:Hi; [|done].
    apply Index_first_tag in Hi as (b & post & Ht & _). by destruct (Hno b post).
Qed.

(** Where a quote starts, a literal does. *)
Lemma quote_start_prefix s i :
  IsQuoteStart s i = true ->
  exists p k q t, lit_prefix p k q /\ (p <> [] -> ~ after_name s i) /\ drop i s = p ++ q :: t.
Proof.
  unfold IsQuoteStart. intros H.
  assert (forall c, byte_at s i c = true -> drop i s = c :: drop (S i) s) as Hcons.
  { intros c Hc%byte_at_Some. by apply drop_S. }
  destruct (byte_at s i squote) eqn:Esq.
  { exists [], plainLiteral, squote, (drop (S i) s). split_and!; [constructor|done|by apply Hcons]. }
  destruct (byte_at s i dquote) eqn:Edq.
  { exists [], quotedIdentifier, dquote, (drop (S i) s). split_and!; [constructor|done|by apply Hcons]. }
  destruct (ContinuesIdentifier s i) eqn:Ec; [done|]. apply not_after_name_spec in Ec.
  cbn [orb] in H. unfold literalPrefix in H.
  destruct (s !! i) as [c|] eqn:E0; [|done]. destruct (s !! (i + 1)) as [d|] eqn:E1; [|done].
  assert (drop i s = c :: d :: drop (i + 2) s) as Hd.
  { rewrite (drop_S _ _ _ E0). f_equal. rewrite (drop_S s d (S i)) by (rewrite <- E1; f_equal; lia).
    do 2 f_equal. lia. }
  assert (forall x, byte_at s (i + 2) x = true -> drop i s = [c; d] ++ x :: drop (i + 3) s) as Hd2.
  { intros x Hx%byte_at_Some. rewrite Hd. cbn. do 2 f_equal. rewrite (drop_S _ _ _ Hx). do 2 f_equal. lia. }
  assert (forall k, lit_prefix [c] k squote -> d = squote -> exists p k q t,
    lit_prefix p k q /\ (p <> [] -> ~ after_name s i) /\ drop i s = p ++ q :: t) as Hone.
  { intros k Hp ->. exists [c], k, squote, (drop (i + 2) s). by split_and!. }
  destruct (Ascii.eqb c "E" || Ascii.eqb c "e") eqn:Ee.
  { destruct (Ascii.eqb_spec d squote); [|done]. apply (Hone escapeLiteral); [|done]. constructor.
    bool_hyps; (left + right); by apply Ascii.eqb_eq. }
  destruct (Ascii.eqb c "B" || Ascii.eqb c "b" || Ascii.eqb c "X" || Ascii.eqb c "x") eqn:Eb.
  { destruct (Ascii.eqb_spec d squote); [|done]. apply (Hone bitLiteral); [|done]. constructor.
    rewrite !orb_true_iff, !Ascii.eqb_eq in Eb. tauto. }
  destruct (Ascii.eqb c "N" || Ascii.eqb c "n") eqn:En.
  { destruct (Ascii.eqb_spec d squote); [|done]. apply (Hone plainLiteral); [|done]. constructor.
    rewrite !orb_true_iff, !Ascii.eqb_eq in En. tauto. }
  destruct (Ascii.eqb c "U" || Ascii.eqb c "u") eqn:Eu; [|done].
  assert (c = "U"%char \/ c = "u"%char) as Hu by (by rewrite orb_true_iff, !Ascii.eqb_eq in Eu).
  destruct (Ascii.eqb_spec d "&"); [subst d|done].
  destruct (byte_at s (i + 2) squote) eqn:E2.
  { exists [c; "&"%char], unicodeLiteral, squote, (drop (i + 3) s).
    split_and!; [by constructor|done|by apply Hd2]. }
  destruct (byte_at s (i + 2) dquote) eqn:E3; [|done].
  exists [c; "&"%char], quotedIdentifier, dquote, (drop (i + 3) s).
  split_and!; [by constructor|done|by apply Hd2].
Qed.

Lemma lit_prefix_continues p k q : lit_prefix p k q -> kind_continues k = true -> q = squote.
Proof. by inversion 1. Qed.

(** A region begins at [i], or the lexer stays there. *)
Lemma region_or_code s i r : (exists e, region s i r e) \/ SkipNonCode s i r = i.
Proof.
  destruct (IsQuoteStart s i) eqn:Eq.
  { left. apply quote_start_prefix in Eq as (p & k & q & t & Hp & Hc & H).
    pose proof (drop_app_suffix _ _ _ _ H) as Ht. look Ht.
    destruct (literal_closed_or_open s (kind_escapes k r) (kind_doubles k) (kind_continues k) q
      (i + length p + 1) (lit_prefix_continues _ _ _ Hp)) as [(b & post & Hb & He & Hd)|Ho].
    - eexists. eapply (region_literal s i r p k q b post); try done. by rewrite H, <- Ht0, Hd.
    - eexists. eapply region_literal_open; try done. by rewrite <- Ht0. }
  unfold SkipNonCode. rewrite Eq.
  destruct (ScanDollarTag s i) as [|x tag] eqn:Etag.
  - destruct (byte_at s i "-" && byte_at s (i + 1) "-") eqn:Edash.
    { left. apply andb_true_iff in Edash as [H1 H2].
      destruct (line_comment_split s i H1 H2) as (t & Ht & He & Hf & Hh).
      eexists. eapply (region_line s i r t); [exact Ht| |].
      - eapply Forall_impl; [exact Hf|]. by intros c Hc%negb_true_iff%not_newline_spec.
      - intros c Hc. by apply newline_spec, Hh. }
    destruct (byte_at s i "/" && byte_at s (i + 1) "*") eqn:Eblock; [|by right].
    left. apply andb_true_iff in Eblock as [H1%byte_at_Some H2%byte_at_Some].
    assert (drop i s = "/"%char :: "*"%char :: drop (i + 2) s) as Hd.
    { rewrite (drop_S _ _ _ H1). f_equal. rewrite (drop_S s "*"%char (S i)) by (rewrite <- H2; f_equal; lia).
      do 2 f_equal. lia. }
    destruct (comment_closed_or_open 0 (drop (i + 2) s)) as [(b & post & Hb & Heq)|Ho].
    + eexists. eapply (region_block s i r b post); [by rewrite Hd, Heq|done].
    + eexists. by eapply region_block_open.
  - left. destruct (ScanDollarTag_spec s i) as (e & He & Htag & H1 & H2 & Hc & Hall & Hdig);
      [by rewrite Etag|]. apply not_after_name_spec in Hc.
    set (name := slice (i + 1) e s).
    assert (ScanDollarTag s i = dollar_tag name /\ drop i s = dollar_tag name ++ drop (e + 1) s) as [Hname Hd].
    { assert (drop i s = dollar_tag name ++ drop (e + 1) s) as Hd.
      { rewrite (drop_S _ _ _ H1). unfold dollar_tag. cbn. f_equal. rewrite <- app_assoc. cbn.
        rewrite (drop_split s (S i) e) by lia. unfold name. rewrite Nat.add_1_r. f_equal.
        rewrite (drop_S _ _ _ H2). do 2 f_equal. lia. }
      split; [|done]. rewrite Htag. unfold slice. rewrite Hd, take_app_le.
      - rewrite firstn_all2; [done|]. unfold dollar_tag, name. simpl. rewrite length_app, slice_length by lia.
        simpl. lia.
      - unfold dollar_tag, name. simpl. rewrite length_app, slice_length by lia. simpl. lia. }
    assert (tag_name name) as Hn.
    { split.
      - eapply (Forall_impl (fun c => IsIdentChar c = true)); [|intros c; apply name_spec].
        apply slice_Forall. intros k Hk. apply Hall. lia.
      - intros c Hhead. rewrite <- digit_spec. intros Hd1.
        assert (e <> i + 1) as Hne.
        { intros ->. unfold name, slice in Hhead. rewrite Nat.sub_diag in Hhead. done. }
        specialize (Hdig Hne). unfold test_at in Hdig.
        assert (s !! (i + 1) = Some c) as Hl.
        { unfold name, slice in Hhead. rewrite <- (Nat.add_0_r (i + 1)), <- lookup_drop.
          destruct (drop (i + 1) s) as [|c' t]; [by rewrite take_nil in Hhead|].
          destruct (e - (i + 1)) as [|n] eqn:En; [lia|]. by injection Hhead as ->. }
        rewrite Hl in Hdig. congruence. }
    destruct (Index (drop (e + 1) s) (dollar_tag name)) as [n|] eqn:Hi.
    + apply Index_first_tag in Hi as (b & post & Ht & _ & Hf).
      eexists. eapply (region_dollar s i r name b post); try done. by rewrite Hd, Ht.
    + eexists. eapply region_dollar_open; try done. intros b post Ht.
      rewrite Index_None in Hi. specialize (Hi (length b)).
      rewrite Ht, length_app in Hi. specialize (Hi ltac:(lia)). apply not_true_iff_false in Hi.
      apply Hi, HasPrefix_spec. exists post. by rewrite drop_app_length.
Qed.

Lemma region_lt s i r e : region s i r e -> i < e.
Proof.
  intros Hr. assert (drop i s <> [] -> i < length s) as Hne.
  { intros Hd. apply Nat.nle_gt. intros Hle. by rewrite drop_ge in Hd. }
  destruct Hr as [p k q b post Hp Hc H|p k q t Hp Hc H| | t H| | |name t Hn Hc H];
    try (rewrite ?length_app; simpl; lia).
  all: apply Hne; rewrite H; by try destruct p.
Qed.

(** No region begins at [i]: the byte there is code. *)
Definition code_at (s : bytes) (r : StringReading) (i : nat) : Prop :=
  forall e, ~ region s i r e.

Lemma code_at_skip s r i : code_at s r i <-> SkipNonCode s i r = i.
Proof.
  split.
  - intros Hno. destruct (region_or_code s i r) as [[e Hr]|]; [by destruct (Hno e)|done].
  - intros Hi e Hr. pose proof (region_lt _ _ _ _ Hr).
    rewrite (region_skipped _ _ _ _ Hr) in Hi. lia.
Qed.

Lemma region_skip s r i e : region s i r e <-> SkipNonCode s i r = e /\ e <> i.
Proof.
  split.
  - intros Hr. pose proof (region_lt _ _ _ _ Hr). split; [by apply region_skipped|lia].
  - intros [He Hne]. destruct (region_or_code s i r) as [[e' Hr]|]; [|lia].
    pose proof (region_skipped _ _ _ _ Hr). by replace e with e' by lia.
Qed.

(** C40: SkipNonCode steps over exactly the text that is not code.  It ends at
    [e] iff the lexical grammar has a region from [i] to [e], or none begins
    at [i] and [e] is [i]: a quoted literal or identifier of any prefix that
    no name reaches, with its doubled quotes, backslash escapes (in an escape
    literal, or in a plain one when standard_conforming_strings is off) and
    continuation lines, a block comment up to the close that balances its
    opening, a line comment up to its end of line, and a dollar-quoted string
    up to the first occurrence of its own tag; each to the end of the text
    when it is not closed. *)
Theorem SkipNonCode_exact s i r e :
  SkipNonCode s i r = e <->
  region s i r e \/ (e = i /\ forall e', ~ region s i r e').
Proof.
  rewrite region_skip. change (forall e', ~ region s i r e') with (code_at s r i).
  rewrite code_at_skip. destruct (decide (e = i)) as [->|Hne]; intuition congruence.
Qed.
