(* ===== verification/LexStable.v ===== *)
(** * Lexing a part of a text

    A statement is cut out of a script at semicolons and then trimmed.  These
    lemmas say that lexing the cut text gives the regions the whole script
    had there: [SkipNonCode_take] for the end of the text and
    [SkipNonCode_drop] for its beginning. *)
From stdpp Require Import base list strings.
From Stdlib Require Import Ascii.
From S2P Require Import Prelude GoStrings SqlLexer LexGrammar.

Local Open Scope nat_scope.

(** ** Cutting off the end *)

Section Take.
Context (s : bytes) (b : nat) (Hb : b <= length s).
Let s' := take b s.

(** Everything from [b] on is white space. *)
Definition ws_tail : Prop :=
  forall k c, b <= k -> s !! k = Some c -> IsSQLSpace c = true.

(** [j'] is what becomes of the region end [j] when the text ends at
    [b]. *)
Definition cut (j j' : nat) : Prop :=
  (j <= b -> j' = j) /\ (b < j -> ws_tail -> j' = b).

Lemma take_len : length s' = b.
Proof. unfold s'. rewrite length_take. lia. Qed.

Lemma lookup_cut_lt i : i < b -> s' !! i = s !! i.
Proof. intros. unfold s'. by rewrite lookup_take_lt. Qed.

Lemma lookup_cut_ge i : b <= i -> s' !! i = None.
Proof. intros. apply lookup_ge_None. rewrite take_len. done. Qed.

Lemma byte_at_take i c :
  byte_at s' i c = if decide (i < b) then byte_at s i c else false.
Proof.
  unfold byte_at. case_decide; [by rewrite lookup_cut_lt|].
  rewrite lookup_cut_ge by lia. done.
Qed.

Lemma test_at_take i p :
  test_at s' i p = if decide (i < b) then test_at s i p else false.
Proof.
  unfold test_at. case_decide; [by rewrite lookup_cut_lt|].
  rewrite lookup_cut_ge by lia. done.
Qed.

Lemma ws_tail_byte i c :
  ws_tail -> b <= i -> byte_at s i c = true -> IsSQLSpace c = true.
Proof. intros H ? Hc%byte_at_Some. eauto. Qed.

Lemma cut_beyond j : b <= j -> cut j b.
Proof. unfold cut. lia. Qed.

Lemma scan_while_take p i :
  i <= b -> scan_while p s' i = scan_while p s i `min` b.
Proof.
  cut (i <= scan_while p s i /\
       (i <= b -> scan_while p s' i = scan_while p s i `min` b)); [tauto|].
  revert i. apply (scan_while_ind p s (fun i j =>
    i <= j /\ (i <= b -> scan_while p s' i = j `min` b)));
    intros i; [intros H|intros j H [? IH]];
    (split; [lia|]); intros Hi; rewrite scan_while_eq, test_at_take;
    case_decide; try lia; rewrite H; [lia|apply IH; lia].
Qed.

Lemma quoteContinuation_take i :
  i <= b ->
  match quoteContinuation s i with
  | None => quoteContinuation s' i = None
  | Some j => if decide (j <= b) then quoteContinuation s' i = Some j
              else s !! (j - 1) = Some squote
  end.
Proof.
  intros Hi. destruct (quoteContinuation s i) as [j|] eqn:E.
  - apply (quoteContinuation_sound s (i, false)) in E as
      (nl & g & rest & Hg & Hd & Hnl & ->). simpl in *. subst nl.
    case_decide.
    + apply (quoteContinuation_complete s' true g Hg i false
               (take (b - (i + length g + 1)) rest)); [|done].
      unfold s'. rewrite skipn_firstn_comm, Hd, take_app_ge by lia.
      f_equal. replace (b - i - length g)
        with (S (b - (i + length g + 1))) by lia. done.
    + apply drop_app_suffix in Hd. apply drop_cons_lookup in Hd as [Hl _].
      by replace (i + length g + 1 - 1) with (i + length g) by lia.
  - apply quoteContinuation_iff. apply quoteContinuation_iff in E.
    intros (g & rest & Hg & Hd). apply E.
    exists g, (rest ++ drop b s). split; [done|].
    rewrite (drop_split s i b), app_comm_cons, app_assoc, <- Hd by lia.
    f_equal. unfold s'. by rewrite skipn_firstn_comm.
Qed.

Lemma sq_run_beyond esc dbl cont q i :
  b <= i -> sq_run s' esc dbl cont q i = b.
Proof.
  intros H. rewrite sq_run_eq. unfold skip_quoted_step.
  rewrite lookup_cut_ge by done. apply take_len.
Qed.

Lemma sq_run_ge esc dbl cont q i :
  i `min` length s <= sq_run s esc dbl cont q i.
Proof. apply skip_quoted_run_bounds. Qed.

Lemma sq_run_take esc dbl cont q i :
  IsSQLSpace q = false -> (cont = true -> q = squote) ->
  cut (sq_run s esc dbl cont q i) (sq_run s' esc dbl cont q i).
Proof.
  intros Hq Hcq.
  cut (i `min` length s <= sq_run s esc dbl cont q i /\
       cut (sq_run s esc dbl cont q i) (sq_run s' esc dbl cont q i)); [tauto|].
  revert i. apply (run_ind _ _ _ (fun i j => i `min` length s <= j /\
    cut j (sq_run s' esc dbl cont q i)) (skip_quoted_dec _ _ _ _ _)).
  - intros i j E. assert (i `min` length s <= j) as Hge.
    { pose proof (sq_run_ge esc dbl cont q i) as H.
      rewrite sq_run_eq, E in H. done. }
    split; [done|]. destruct (decide (b <= i)) as [Hi|Hi].
    { rewrite sq_run_beyond by done. apply cut_beyond. lia. }
    rewrite sq_run_eq. unfold skip_quoted_step in *.
    rewrite lookup_cut_lt by lia. destruct (s !! i) as [c|] eqn:Hc;
      [|apply lookup_ge_None in Hc; lia].
    destruct (esc && Ascii.eqb c backslash); [done|].
    destruct (Ascii.eqb c q); [|done].
    rewrite byte_at_take. destruct dbl, (byte_at s (i + 1) q) eqn:Hd;
      try done; simpl in *; rewrite ?decide_bool_false.
    all: assert ((if decide (i + 1 < b) then false else false) = false) as Hff
           by (by case_decide).
    all: rewrite ?Hff; clear Hff.
    all: pose proof (quoteContinuation_take (i + 1) ltac:(lia)) as Hqc.
    all: destruct cont; [destruct (quoteContinuation s (i + 1));
           [done|rewrite Hqc]|].
    all: injection E as <-; unfold cut; lia.
  - intros i i' j E [Hge IH]. pose proof (skip_quoted_dec _ _ _ _ _ _ _ E) as Hdec.
    simpl in Hdec. split; [lia|]. destruct (decide (b <= i)) as [Hi|Hi].
    { rewrite sq_run_beyond by done. apply cut_beyond. lia. }
    rewrite sq_run_eq. unfold skip_quoted_step in *.
    rewrite lookup_cut_lt by lia. destruct (s !! i) as [c|] eqn:Hc; [|done].
    destruct (esc && Ascii.eqb c backslash); [by injection E as <-|].
    destruct (Ascii.eqb c q) eqn:Hcq'; [|by injection E as <-].
    rewrite byte_at_take. destruct (dbl && byte_at s (i + 1) q) eqn:Hd.
    + apply andb_true_iff in Hd as [-> Hd]. injection E as <-.
      case_decide; [by rewrite Hd|]. simpl.
      pose proof (byte_at_lt _ _ _ Hd).
      split; [lia|]. intros _ Hws.
      pose proof (ws_tail_byte (i + 1) q Hws ltac:(lia) Hd). congruence.
    + assert (dbl && (if decide (i + 1 < b) then byte_at s (i + 1) q
                      else false) = false) as ->.
      { destruct dbl; [|done]. by case_decide. }
      pose proof (quoteContinuation_take (i + 1) ltac:(lia)) as Hqc.
      destruct cont; [|done]. rewrite (Hcq eq_refl) in *.
      destruct (quoteContinuation s (i + 1)) as [k|] eqn:Hk; [|done].
      injection E as <-. case_decide; [by rewrite Hqc|].
      pose proof (quoteContinuation_bound _ _ _ Hk).
      split; [lia|]. intros _ Hws.
      specialize (Hws (k - 1) squote ltac:(lia) Hqc). done.
Qed.

Lemma bc_run_take d d' i depth :
  i <= b -> cut (bc_run s d (i, depth)) (bc_run s' d' (i, depth)).
Proof.
  cut (forall st, fst st <= b -> cut (bc_run s d st) (bc_run s' d' st));
    [intros H Hi; by apply (H (i, depth))|].
  intros st. cut (fst st `min` length s <= bc_run s d st /\ (fst st <= b ->
    cut (bc_run s d st) (bc_run s' d' st))); [tauto|].
  revert st. apply (run_ind _ _ _ (fun st j => fst st `min` length s <= j /\
    (fst st <= b -> cut j (bc_run s' d' st))) (block_comment_dec s)).
  - intros [k e] j E. unfold block_comment_step in E.
    destruct ((k <? length s) && (0 <? e)) eqn:G; [by split_ifs|].
    injection E as <-. simpl. split; [lia|]. intros Hk. rewrite bc_run_eq.
    unfold block_comment_step. rewrite take_len.
    assert ((k <? b) && (0 <? e) = false) as ->.
    { destruct (0 <? e); [|by rewrite andb_false_r].
      rewrite andb_true_r in *. apply Nat.ltb_ge in G. apply Nat.ltb_ge. lia. }
    unfold cut. lia.
  - intros [k e] [k' e'] j E [Hge IH].
    pose proof (block_comment_dec _ _ _ E) as Hdec. simpl in *.
    split; [lia|]. intros Hk. rewrite bc_run_eq.
    unfold block_comment_step in *. rewrite take_len, !byte_at_take.
    destruct (Nat.ltb_spec k b) as [Hkb|Hkb]; simpl;
      [|rewrite (Nat.le_antisymm _ _ Hk Hkb); apply cut_beyond; lia].
    replace (k <? length s) with true in E
      by (symmetry; apply Nat.ltb_lt; lia). simpl in E.
    destruct (0 <? e); [|done].
    rewrite !(decide_True (P:=k < b)) by done.
    destruct (byte_at s k "/" && byte_at s (k + 1) "*") eqn:B1.
    { apply andb_true_iff in B1 as [B1 B2]. injection E as <- <-.
      rewrite B1. simpl. case_decide; [rewrite B2; apply IH; lia|].
      assert (byte_at s k "*" = false) as ->.
      { apply byte_at_Some in B1. unfold byte_at. by rewrite B1. }
      simpl. pose proof (byte_at_lt _ _ _ B2). split; [lia|].
      intros _ Hws. by apply (ws_tail_byte (k + 1) "*" Hws ltac:(lia)) in B2. }
    assert (byte_at s k "/" && (if decide (k + 1 < b)
      then byte_at s (k + 1) "*" else false) = false) as ->.
    { case_decide; [done|]. by rewrite andb_false_r. }
    destruct (byte_at s k "*" && byte_at s (k + 1) "/") eqn:B2.
    { apply andb_true_iff in B2 as [B2 B3]. injection E as <- <-.
      rewrite B2. simpl. case_decide; [rewrite B3; apply IH; lia|].
      pose proof (byte_at_lt _ _ _ B3). split; [lia|].
      intros _ Hws. by apply (ws_tail_byte (k + 1) "/" Hws ltac:(lia)) in B3. }
    assert (byte_at s k "*" && (if decide (k + 1 < b)
      then byte_at s (k + 1) "/" else false) = false) as ->.
    { case_decide; [done|]. by rewrite andb_false_r. }
    injection E as <- <-. apply IH. lia.
Qed.

Lemma continues_take i : i <= b ->
  ContinuesIdentifier s' i = ContinuesIdentifier s i.
Proof.
  intros Hi. destruct i as [|i]; [done|]. simpl. rewrite test_at_take.
  by rewrite decide_True by lia.
Qed.

(** The opening of a literal survives the cut or lies across it. *)
Lemma literalPrefix_take i :
  i < b ->
  literalPrefix s' i = literalPrefix s i \/
  (b <= i + fst (literalPrefix s i) /\ fst (literalPrefix s i) <> 0 /\
   literalPrefix s' i = (0, plainLiteral)).
Proof.
  intros Hi. unfold literalPrefix. rewrite !byte_at_take, lookup_cut_lt by done.
  destruct (decide (i + 2 < b)).
  { left. rewrite lookup_cut_lt by lia. done. }
  destruct (decide (i + 1 < b)).
  - rewrite lookup_cut_lt by lia.
    destruct (s !! i) as [c|], (s !! (i + 1)) as [d|]; try (by left).
    repeat case_match; simpl in *; try (by left); right; simpl;
      split_and!; try done; lia.
  - rewrite (lookup_cut_ge (i + 1)) by lia.
    destruct (s !! i) as [c|], (s !! (i + 1)) as [d|]; try (by left).
    repeat case_match; simpl in *; try (by left); right; simpl;
      split_and!; try done; lia.
Qed.

Lemma ScanDollarTag_take i :
  i < b ->
  ScanDollarTag s' i = ScanDollarTag s i \/
  (ScanDollarTag s i <> [] /\ b < i + length (ScanDollarTag s i) /\
   ScanDollarTag s' i = []).
Proof.
  intros Hi. destruct (decide (ScanDollarTag s' i = [])) as [E'|E'].
  - destruct (decide (ScanDollarTag s i = [])) as [E|E]; [left; congruence|].
    right. split_and!; [done| |done].
    destruct (ScanDollarTag_spec s i E) as
      (e & He & -> & Hl & Hl' & Hc & Hall & Hd).
    rewrite slice_length by lia. destruct (decide (e < b)); [|lia].
    assert (ScanDollarTag s' i = slice i (e + 1) s') as Hs'.
    { apply ScanDollarTag_intro; rewrite ?lookup_cut_lt by lia; try done; try lia.
      - by rewrite continues_take by lia.
      - intros k Hk. rewrite test_at_take, decide_True by lia. by apply Hall.
      - intros Hne. rewrite test_at_take, decide_True by lia. by apply Hd. }
    rewrite E' in Hs'. apply (f_equal length) in Hs'.
    rewrite slice_length in Hs' by (rewrite take_len; lia). simpl in Hs'. lia.
  - left. destruct (ScanDollarTag_spec s' i E') as
      (e & He & Hs & Hl & Hl' & Hc & Hall & Hd). rewrite take_len in He.
    rewrite Hs. symmetry. rewrite lookup_cut_lt in Hl, Hl' by lia.
    rewrite (ScanDollarTag_intro s i e); try done; try lia.
    + unfold slice, s'. rewrite skipn_firstn_comm, take_take.
      f_equal. lia.
    + by rewrite <- continues_take by lia.
    + intros k Hk. specialize (Hall k Hk). rewrite test_at_take in Hall.
      by rewrite decide_True in Hall by lia.
    + intros Hne. specialize (Hd Hne). rewrite test_at_take in Hd.
      by rewrite decide_True in Hd by lia.
Qed.

Lemma skip_quoted_body_take k r i q :
  i < b -> s !! i = Some q -> IsSQLSpace q = false ->
  (kind_continues k = true -> q = squote) ->
  cut (skip_quoted_body s k r i) (skip_quoted_body s' k r i).
Proof.
  intros Hi Hq Hsp Hc. unfold skip_quoted_body.
  rewrite lookup_cut_lt, Hq by done. rewrite take_len.
  pose proof (sq_run_take (kind_escapes k r) (kind_doubles k)
    (kind_continues k) q (i + 1) Hsp Hc) as H.
  unfold sq_run in H. rewrite take_len in H. exact H.
Qed.

Lemma literalPrefix_quote i n k :
  literalPrefix s i = (n, k) -> n <> 0 ->
  exists q, s !! (i + n) = Some q /\ IsSQLSpace q = false /\
    (kind_continues k = true -> q = squote).
Proof.
  unfold literalPrefix.
  destruct (s !! i); [|by intros [= <- <-]].
  destruct (s !! (i + 1)) as [d|] eqn:Hd; [|by intros [= <- <-]].
  repeat case_match; intros [= <- <-] ?; try done;
    repeat match goal with
    | H : Ascii.eqb _ _ = true |- _ => apply Ascii.eqb_eq in H; subst
    | H : byte_at _ (i + 2) _ = true |- _ => apply byte_at_Some in H
    end; eexists; (split_and!; [eassumption|reflexivity|done]).
Qed.

Lemma SkipQuoted_take r i :
  i < b -> IsQuoteStart s i = true ->
  cut (SkipNonCode s i r) (SkipNonCode s' i r).
Proof.
  intros Hi. unfold SkipNonCode, IsQuoteStart, SkipQuoted.
  rewrite !byte_at_take, !(decide_True (P:=i < b)) by done.
  rewrite continues_take by lia.
  destruct (byte_at s i squote) eqn:Hs.
  { apply byte_at_Some in Hs. intros _. simpl.
    by apply (skip_quoted_body_take plainLiteral r i squote). }
  destruct (byte_at s i dquote) eqn:Hd.
  { apply byte_at_Some in Hd. intros _. simpl.
    by apply (skip_quoted_body_take quotedIdentifier r i dquote). }
  simpl. destruct (ContinuesIdentifier s i); [done|].
  destruct (literalPrefix s i) as [n k] eqn:E. simpl.
  destruct n as [|n]; [done|]. intros _. simpl.
  destruct (literalPrefix_quote i _ k E) as (q & Hq & Hsp & Hc); [done|].
  pose proof (literalPrefix_bound _ _ _ _ E ltac:(done)) as [_ Hn].
  pose proof (skip_quoted_body_bounds s k r _ Hn) as Hbd.
  pose proof (literalPrefix_take i Hi) as Hp. rewrite E in Hp. simpl in Hp.
  destruct Hp as [->|(Hp & _ & ->)]; simpl.
  - destruct (decide (i + S n < b));
      [by eapply skip_quoted_body_take|].
    split; [lia|]. intros _ Hws. apply (Hws (i + S n)) in Hq; [congruence|lia].
  - split; [lia|]. intros _ Hws. apply (Hws (i + S n)) in Hq; [congruence|lia].
Qed.

Lemma ScanDollarTag_last i :
  ScanDollarTag s i <> [] ->
  s !! (i + length (ScanDollarTag s i) - 1) = Some "$"%char.
Proof.
  intros E. destruct (ScanDollarTag_spec s i E) as
    (e & He & -> & _ & Hl & _). rewrite slice_length by lia.
  by replace (i + (e + 1 - i) - 1) with e by lia.
Qed.

Lemma IsQuoteStart_take i :
  i < b -> IsQuoteStart s i = false -> IsQuoteStart s' i = false.
Proof.
  intros Hi. unfold IsQuoteStart.
  rewrite !byte_at_take, !(decide_True (P:=i < b)) by done.
  rewrite continues_take by lia.
  destruct (byte_at s i squote || byte_at s i dquote); [done|].
  destruct (ContinuesIdentifier s i); [done|].
  intros H. destruct (literalPrefix_take i Hi) as [->|(_ & ? & _)]; [done|].
  apply Nat.ltb_ge in H. lia.
Qed.

(** The branches of [SkipNonCode] for comments. *)
Lemma comment_take i :
  i < b ->
  let go t := if byte_at t i "-" && byte_at t (i + 1) "-" then
                scan_while (fun c => negb (IsSQLNewline c)) t i
              else if byte_at t i "/" && byte_at t (i + 1) "*" then
                skipBlockComment t i
              else i in
  cut (go s) (go s').
Proof.
  intros Hi go. unfold go. clear go.
  rewrite !byte_at_take, !(decide_True (P:=i < b)) by done.
  destruct (byte_at s i "-") eqn:B1; simpl.
  { assert (byte_at s i "/" = false) as ->.
    { apply byte_at_Some in B1. unfold byte_at. by rewrite B1. }
    simpl. destruct (byte_at s (i + 1) "-") eqn:B2.
    - case_decide.
      + rewrite scan_while_take by lia. unfold cut. lia.
      + destruct (line_comment_split s i B1 B2) as (t & _ & He & _).
        split; [lia|]. intros _ Hws.
        by apply (ws_tail_byte (i + 1) "-" Hws ltac:(lia)) in B2.
    - case_decide; unfold cut; lia. }
  destruct (byte_at s i "/"); simpl; [|unfold cut; lia].
  destruct (byte_at s (i + 1) "*") eqn:B2.
  - case_decide.
    + apply (bc_run_take i i (i + 2) 1). lia.
    + pose proof (skipBlockComment_bounds s i (byte_at_lt _ _ _ B2)).
      split; [lia|]. intros _ Hws.
      by apply (ws_tail_byte (i + 1) "*" Hws ltac:(lia)) in B2.
  - case_decide; unfold cut; lia.
Qed.

(** A region that ends by [b] is the same region of the text cut off at
    [b]; one that runs over the cut, when only white space was cut off,
    ends with the text. *)
Lemma SkipNonCode_take r i :
  i < b -> cut (SkipNonCode s i r) (SkipNonCode s' i r).
Proof.
  intros Hi. destruct (IsQuoteStart s i) eqn:Eq;
    [by apply SkipQuoted_take|].
  unfold SkipNonCode. rewrite Eq, IsQuoteStart_take by done.
  pose proof (ScanDollarTag_bound s i) as Hbd.
  destruct (ScanDollarTag_take i Hi) as [Heq|(Hne & Hlen & ->)].
  - pose proof (ScanDollarTag_bound s' i) as Hbd'. rewrite Heq in *.
    destruct (ScanDollarTag s i) as [|c tag] eqn:Et; [by apply comment_take|].
    destruct Hbd as [_ Hbd]; [done|].
    destruct Hbd' as [_ Hbd']; [done|]. rewrite take_len in Hbd'.
    unfold s'. rewrite skipn_firstn_comm, Index_take.
    destruct (Index (drop _ s) _) as [e|];
      [|rewrite length_take; unfold cut; lia].
    case_decide; unfold cut; [lia|]. rewrite length_take. lia.
  - pose proof (ScanDollarTag_last i Hne) as Hlast.
    destruct (ScanDollarTag s i) as [|c tag] eqn:Et; [done|].
    assert (ws_tail -> False) as Hws.
    { intros Hws. apply Hws in Hlast; [done|lia]. }
    destruct Hbd as [_ Hbd]; [done|].
    destruct (Index _ _); (split; [lia|]); intros _ H; destruct (Hws H).
Qed.
End Take.

(** ** Cutting off the beginning *)

Section Drop.
Context (s : bytes) (a : nat) (Ha : a <= length s).
Context (Hcont : ContinuesIdentifier s a = false).
Let t := drop a s.

Lemma drop_at i : t !! i = s !! (a + i).
Proof. unfold t. apply lookup_drop. Qed.

Lemma drop_len : length t = length s - a.
Proof. unfold t. apply length_drop. Qed.

Lemma byte_at_drop i c : byte_at t i c = byte_at s (a + i) c.
Proof. unfold byte_at. by rewrite drop_at. Qed.

Lemma test_at_drop i p : test_at t i p = test_at s (a + i) p.
Proof. unfold test_at. by rewrite drop_at. Qed.

Lemma drop_suffix i : drop i t = drop (a + i) s.
Proof. unfold t. apply drop_drop. Qed.

Lemma continues_drop i :
  ContinuesIdentifier t i = ContinuesIdentifier s (a + i).
Proof.
  destruct i as [|i]; [by rewrite Nat.add_0_r, Hcont|].
  replace (a + S i) with (S (a + i)) by lia. simpl. apply test_at_drop.
Qed.

Lemma scan_while_drop p i : scan_while p s (a + i) = a + scan_while p t i.
Proof.
  revert i. apply (scan_while_ind p t (fun i j =>
    scan_while p s (a + i) = a + j)); intros i; rewrite test_at_drop.
  - intros H. by rewrite scan_while_eq, H.
  - intros j H IH. rewrite scan_while_eq, H, <- IH. f_equal. lia.
Qed.

Lemma quoteContinuation_drop i :
  quoteContinuation s (a + i) = (fun j => a + j) <$> quoteContinuation t i.
Proof.
  change (quoteContinuation s (a + i)) with (qc_run s (a + i, false)).
  destruct (quoteContinuation t i) as [j|] eqn:E.
  - apply (quoteContinuation_sound t (i, false)) in E as
      (b & g & rest & Hg & Hd & Hb & ->). simpl in *. subst b.
    rewrite drop_suffix in Hd.
    rewrite (quoteContinuation_complete s true g Hg (a + i) false rest)
      by done. simpl. f_equal. lia.
  - simpl. apply quoteContinuation_iff in E.
    apply (quoteContinuation_iff s (a + i)). by rewrite <- drop_suffix.
Qed.

Lemma sq_run_drop esc dbl cont q i :
  i <= length t ->
  sq_run s esc dbl cont q (a + i) = a + sq_run t esc dbl cont q i.
Proof.
  intros _. apply (run_sim _ _ _ _ _ _ (fun x y => x = a + y)
    (fun x y => x = a + y) (skip_quoted_dec s esc dbl cont q)
    (skip_quoted_dec t esc dbl cont q)); [|done].
  intros x y ->. unfold skip_quoted_step. rewrite drop_at.
  destruct (s !! (a + y)); [|rewrite drop_len; lia].
  rewrite byte_at_drop, Nat.add_assoc.
  split_ifs; try lia.
  - rewrite <- Nat.add_assoc, quoteContinuation_drop.
    destruct (quoteContinuation t (y + 1)); simpl; lia.
Qed.

Lemma literalPrefix_drop i : literalPrefix t i = literalPrefix s (a + i).
Proof.
  unfold literalPrefix. rewrite !byte_at_drop, !drop_at, !Nat.add_assoc. done.
Qed.

Lemma skip_quoted_body_drop k r i :
  i < length t ->
  skip_quoted_body s k r (a + i) = a + skip_quoted_body t k r i.
Proof.
  intros Hi. unfold skip_quoted_body. rewrite drop_at.
  destruct (s !! (a + i)) eqn:E;
    [|apply lookup_ge_None in E; rewrite drop_len in *; lia].
  rewrite <- Nat.add_assoc. apply sq_run_drop. lia.
Qed.

Lemma SkipQuoted_drop r i :
  i < length t -> SkipQuoted s (a + i) r = a + SkipQuoted t i r.
Proof.
  intros Hi. unfold SkipQuoted. rewrite !byte_at_drop, literalPrefix_drop.
  destruct (byte_at s (a + i) squote); [by apply skip_quoted_body_drop|].
  destruct (byte_at s (a + i) dquote); [by apply skip_quoted_body_drop|].
  destruct (literalPrefix s (a + i)) as [n k] eqn:E.
  destruct (Nat.eqb_spec n 0); [lia|].
  pose proof (literalPrefix_bound _ _ _ _ E ltac:(done)).
  rewrite <- Nat.add_assoc. apply skip_quoted_body_drop.
  rewrite drop_len. lia.
Qed.

Lemma IsQuoteStart_drop i : IsQuoteStart t i = IsQuoteStart s (a + i).
Proof.
  unfold IsQuoteStart.
  by rewrite !byte_at_drop, continues_drop, literalPrefix_drop.
Qed.

Lemma ScanDollarTag_drop i : ScanDollarTag t i = ScanDollarTag s (a + i).
Proof.
  unfold ScanDollarTag.
  rewrite !byte_at_drop, continues_drop, test_at_drop, !Nat.add_assoc.
  split_ifs; try done. symmetry.
  apply (run_sim _ _ _ _ _ _ (fun x y => x = a + y) eq
    (dollar_tag_dec s (a + i)) (dollar_tag_dec t i)); [|lia].
  intros x y ->. unfold dollar_tag_step. rewrite drop_at.
  destruct (s !! (a + y)); [|done]. split_ifs; try done; [|lia].
  unfold slice. rewrite drop_suffix. f_equal. lia.
Qed.

Lemma skipBlockComment_drop i :
  skipBlockComment s (a + i) = a + skipBlockComment t i.
Proof.
  apply (run_sim _ _ _ _ _ _
    (fun x y => fst x = a + fst y /\ snd x = snd y) (fun x y => x = a + y)
    (block_comment_dec s) (block_comment_dec t)); [|simpl; lia].
  intros [x d] [y e]. simpl. intros [-> ->]. unfold block_comment_step.
  rewrite !byte_at_drop, drop_len, !Nat.add_assoc.
  assert ((a + y <? length s) = (y <? length s - a)) as ->
    by (apply eq_true_iff_eq; rewrite !Nat.ltb_lt; lia).
  split_ifs; simpl; lia.
Qed.

(** From a position that starts afresh, the regions of the rest of the
    text are those the whole text has there. *)
Lemma SkipNonCode_drop r i :
  i < length t -> SkipNonCode s (a + i) r = a + SkipNonCode t i r.
Proof.
  intros Hi. unfold SkipNonCode.
  rewrite IsQuoteStart_drop, ScanDollarTag_drop, !byte_at_drop, !Nat.add_assoc.
  destruct (IsQuoteStart s (a + i)); [by apply SkipQuoted_drop|].
  destruct (ScanDollarTag s (a + i)) as [|c tag].
  - split_ifs; [apply scan_while_drop|apply skipBlockComment_drop|lia].
  - rewrite drop_suffix, Nat.add_assoc.
    destruct (Index _ _); [lia|]. rewrite drop_len. lia.
Qed.
End Drop.
