(* ===== verification/SqlSplit.v ===== *)
(** * Splitting a script into statements
      (server/src/internal/sqllex/statements.go)

    Statement boundaries are the semicolons a scan reads as code.  The main
    result is that a statement the splitter returns is one statement: split
    again, under the same reading, it comes back unchanged. *)
From stdpp Require Import base list strings.
From Stdlib Require Import Ascii.
From S2P Require Import Prelude GoStrings SqlLexer LexGrammar LexStable.

Local Open Scope nat_scope.

(** [PlainExplainPrefix]. *)
Definition PlainExplainPrefix : bytes := lit "EXPLAIN (COSTS TRUE) ".

Definition skip_space_step (s : bytes) (i : nat) : nat + nat :=
  match s !! i with
  | None => inr i
  | Some c =>
      if IsSQLSpace c then inl (i + 1)
      else if Ascii.eqb c "-" && byte_at s (i + 1) "-" then
        inl (scan_while (fun b => negb (IsSQLNewline b)) s i)
      else if Ascii.eqb c "/" && byte_at s (i + 1) "*" then
        inl (skipBlockComment s i)
      else inr i
  end.

Definition skipSpaceAndComments (s : bytes) (i : nat) : nat :=
  run (fun i => length s - i) (skip_space_step s) i i.

Definition FirstKeyword `{UnicodeCase} (sql : bytes) : bytes :=
  let start := skipSpaceAndComments sql 0 in
  let e := scan_while IsIdentChar sql start in
  ToUpper (slice start e sql).

Definition StripLeadingComments (s : bytes) : bytes :=
  drop (skipSpaceAndComments s 0) s.

Definition HasOnlyComments (s : bytes) : bool :=
  skipSpaceAndComments s 0 =? length s.

(** The closure [add] of [SplitStatements]. *)
Definition add_statement (statements : list bytes) (part : bytes)
    : list bytes :=
  let part := TrimSpace part in
  if negb (bytes_eqb part []) && negb (HasOnlyComments part)
  then statements ++ [part] else statements.

(** The state is the statements so far, [start] and [i]. *)
Definition split_step (sql : bytes) (reading : StringReading)
    (st : list bytes * nat * nat) : (list bytes * nat * nat) + list bytes :=
  let '(statements, start, i) := st in
  if i <? length sql then
    let j := SkipNonCode sql i reading in
    if negb (j =? i) then inl (statements, start, j)
    else if byte_at sql i ";" then
      inl (add_statement statements (slice start i sql), i + 1, i + 1)
    else inl (statements, start, i + 1)
  else inr (add_statement statements (drop start sql)).

Definition SplitStatements (sql : bytes) (reading : StringReading)
    : list bytes :=
  run (fun st => length sql - snd st) (split_step sql reading) []
      ([], 0, 0).

Lemma skip_space_dec (s : bytes) :
  decreases (fun i => length s - i) (skip_space_step s).
Proof.
  intros i i'. unfold skip_space_step.
  destruct (s !! i) as [c|] eqn:E; [|done]. pose proof (lookup_lt_Some _ _ _ E).
  split_ifs; intros [= <-]; [lia|..]; bool_hyps.
  { assert (test_at s i (fun b => negb (IsSQLNewline b)) = true) as Ht.
    { apply dash_not_newline, byte_at_Some. rewrite E. f_equal.
      by apply Ascii.eqb_eq. }
    pose proof (scan_while_step _ _ _ Ht). lia. }
  all: match goal with H : byte_at ?s (?i + 1) _ = true |- _ =>
      apply byte_at_lt in H; pose proof (skipBlockComment_bounds s i H) end; lia.
Qed.

Lemma split_dec sql r :
  decreases (fun st => length sql - snd st) (split_step sql r).
Proof.
  intros [[st start] i] [[st' start'] i']. unfold split_step.
  destruct (Nat.ltb_spec i (length sql)); [|done].
  pose proof (next_pos_gt sql r i) as Hn. unfold next_pos in Hn.
  destruct (SkipNonCode sql i r =? i); simpl.
  - destruct (byte_at sql i ";"); intros [= <- <- <-]; simpl; lia.
  - intros [= <- <- <-]. simpl. lia.
Qed.

(** The loop in terms of the shared scan position. *)
Lemma split_step_eq sql r st start i :
  i < length sql ->
  split_step sql r (st, start, i) =
    if (SkipNonCode sql i r =? i) && byte_at sql i ";"
    then inl (add_statement st (slice start i sql), i + 1, i + 1)
    else inl (st, start, next_pos sql r i).
Proof.
  intros Hi. unfold split_step, next_pos.
  replace (i <? length sql) with true by (symmetry; by apply Nat.ltb_lt).
  destruct (SkipNonCode sql i r =? i); [|done]. simpl.
  by destruct (byte_at sql i ";").
Qed.

(** ** White space is code *)

Lemma ascii_space_sql c : ascii_space c = IsSQLSpace c.
Proof. destruct c as [[] [] [] [] [] [] [] []]; reflexivity. Qed.

Lemma SkipNonCode_space s i r c :
  s !! i = Some c -> IsSQLSpace c = true -> SkipNonCode s i r = i.
Proof.
  intros Hc Hs. unfold SkipNonCode, IsQuoteStart, ScanDollarTag, literalPrefix,
    byte_at. rewrite Hc.
  assert (forall x, IsSQLSpace x = false -> Ascii.eqb c x = false) as Hne.
  { intros x Hx. apply Ascii.eqb_neq. intros ->. congruence. }
  rewrite !Hne by reflexivity. simpl.
  destruct (ContinuesIdentifier s i), (s !! (i + 1)); reflexivity.
Qed.

Lemma space_not_ident c :
  IsSQLSpace c = true -> (IsIdentChar c || Ascii.eqb c "$") = false.
Proof. destruct c as [[] [] [] [] [] [] [] []]; done. Qed.

Lemma scan_pos_next_le s r n m :
  scan_pos s r n < scan_pos s r m ->
  next_pos s r (scan_pos s r n) <= scan_pos s r m.
Proof.
  intros H. rewrite <- scan_pos_S. destruct (decide (S n = m)) as [->|]; [done|].
  destruct (decide (m <= n)).
  - destruct (decide (m = n)) as [->|]; [lia|].
    pose proof (scan_pos_mono s r m n). lia.
  - pose proof (scan_pos_mono s r (S n) m). lia.
Qed.

(** White space after a scan position is scanned byte by byte. *)
Lemma scan_pos_spaces s r a b :
  (exists n, scan_pos s r n = a) -> a <= b ->
  (forall k, a <= k < b -> test_at s k IsSQLSpace = true) ->
  exists n, scan_pos s r n = b.
Proof.
  intros Ha Hab. remember (b - a) as d eqn:Hd. revert a Ha Hab Hd.
  induction d as [|d IH]; intros a (n & Hn) Hab Hd Hws.
  { exists n. lia. }
  apply (IH (a + 1)); [|lia|lia|intros; apply Hws; lia].
  exists (S n). rewrite scan_pos_S, Hn. unfold next_pos.
  destruct (proj1 (test_at_Some _ _ _) (Hws a ltac:(lia))) as (c & Hc & Hsp).
  rewrite (SkipNonCode_space s a r c Hc Hsp).
  by rewrite Nat.eqb_refl.
Qed.

(** ** A stretch of the script between two code semicolons *)

Definition no_code_semi (s : bytes) (r : StringReading) (a b : nat) : Prop :=
  forall k, a <= k < b -> code_pos s r k -> byte_at s k ";" = false.

Record stretch (s : bytes) (r : StringReading) (a e : nat) : Prop := {
  stretch_le : a <= e <= length s;
  stretch_start : exists n, scan_pos s r n = a;
  stretch_end : e = length s \/ exists n, scan_pos s r n = e;
  stretch_fresh : ContinuesIdentifier s a = false;
  stretch_semi : no_code_semi s r a e;
}.

(** Regions of a stretch do not leave it. *)
Lemma stretch_region s r a e i :
  stretch s r a e -> (exists n, scan_pos s r n = i) -> a <= i < e ->
  SkipNonCode s i r <= e.
Proof.
  intros [Hle _ He _ _] (n & Hn) Hi.
  destruct He as [->|(m & Hm)];
    [pose proof (SkipNonCode_range s i r ltac:(lia)); lia|].
  pose proof (scan_pos_next_le s r n m) as Hnext. rewrite Hn, Hm in Hnext.
  specialize (Hnext ltac:(lia)). unfold next_pos in Hnext.
  split_ifs; bool_hyps; lia.
Qed.

(** Dropping the white space at the start of a stretch. *)
Lemma stretch_trim_left s r a a' e :
  stretch s r a e -> a <= a' <= e ->
  (forall k, a <= k < a' -> test_at s k IsSQLSpace = true) ->
  stretch s r a' e.
Proof.
  intros [Hle Hs He Hf Hsemi] Ha Hws. constructor; try done; try lia.
  - apply (scan_pos_spaces s r a); [done|lia|done].
  - destruct (decide (a' = a)) as [->|]; [done|].
    destruct a' as [|k]; [done|]. simpl.
    destruct (proj1 (test_at_Some _ _ _) (Hws k ltac:(lia))) as (c & Hc & Hsp).
    unfold test_at. rewrite Hc. by apply space_not_ident.
  - intros k Hk. apply Hsemi. lia.
Qed.

Section Stretch.
Context (s : bytes) (r : StringReading) (a b e : nat).
Context (Hst : stretch s r a e) (Hab : a <= b <= e).
Context (Hws : forall k, b <= k < e -> test_at s k IsSQLSpace = true).
Let p := slice a b s.

Lemma slice_take_drop : p = drop a (take b (take e s)).
Proof.
  unfold p, slice. rewrite take_take, skipn_firstn_comm.
  by replace (b `min` e - a) with (b - a) by lia.
Qed.

Lemma stretch_len : length p = b - a.
Proof. apply slice_length. destruct (stretch_le _ _ _ _ Hst). lia. Qed.

(** The regions of the cut text against those of the script. *)
Lemma stretch_skip k :
  k < length p -> (exists n, scan_pos s r n = a + k) ->
  let j := SkipNonCode s (a + k) r in
  (j <= b -> a + SkipNonCode p k r = j) /\
  (b < j -> SkipNonCode p k r = length p).
Proof.
  intros Hk Hn j. rewrite stretch_len in Hk.
  destruct (stretch_le _ _ _ _ Hst) as [Hae Hel].
  assert (j <= e) as Hj by (apply (stretch_region s r a e); [done..|lia]).
  assert (length (take e s) = e) as Hle by (rewrite length_take; lia).
  pose proof (SkipNonCode_take s e ltac:(lia) r (a + k) ltac:(lia)) as [H1 _].
  fold j in H1. specialize (H1 Hj).
  pose proof (SkipNonCode_take (take e s) b ltac:(lia) r (a + k) ltac:(lia))
    as [H2 H3]. rewrite H1 in H2, H3.
  assert (ws_tail (take e s) b) as Htail.
  { intros q c Hq Hc. apply lookup_take_Some in Hc as [Hc Hqe].
    specialize (Hws q ltac:(lia)). unfold test_at in Hws.
    by rewrite Hc in Hws. }
  pose proof (SkipNonCode_drop (take b (take e s)) a) as Hd.
  assert (length (take b (take e s)) = b) as Hlb by (rewrite length_take; lia).
  rewrite slice_take_drop, <- !Hd by (rewrite ?length_drop, ?Hlb; try lia;
    rewrite !continues_take by lia; apply Hst).
  rewrite length_drop, Hlb. split; [done|]. intros Hbj.
  specialize (H3 Hbj Htail).
  enough (a + SkipNonCode (drop a (take b (take e s))) k r = b) by lia.
  rewrite <- Hd; [done|lia| |rewrite length_drop; lia].
  rewrite !continues_take by lia. apply Hst.
Qed.

Lemma stretch_scan m :
  scan_pos p r m < length p -> exists n, scan_pos s r n = a + scan_pos p r m.
Proof.
  induction m as [|m IH]; intros Hm.
  { simpl. rewrite Nat.add_0_r. apply Hst. }
  rewrite scan_pos_S in *. set (k := scan_pos p r m) in *.
  pose proof (next_pos_gt p r k) as Hgt.
  destruct IH as (n & Hn); [lia|]. exists (S n).
  rewrite scan_pos_S, Hn.
  destruct (stretch_skip k ltac:(lia) ltac:(eauto)) as [H1 H2].
  unfold next_pos in *. destruct (decide (b < SkipNonCode s (a + k) r)).
  - rewrite H2 in Hm by done. split_ifs; bool_hyps; lia.
  - specialize (H1 ltac:(lia)). split_ifs; bool_hyps; lia.
Qed.

(** The cut text has no semicolon in its code. *)
Lemma stretch_no_semi : no_code_semi p r 0 (length p).
Proof.
  intros k Hk (Hlt & (m & Hm) & Hcode).
  destruct (stretch_scan m ltac:(lia)) as (n & Hn). rewrite Hm in Hn.
  destruct (stretch_skip k Hlt ltac:(eauto)) as [H1 H2].
  destruct (stretch_le _ _ _ _ Hst) as [Hae Hel].
  rewrite stretch_len in Hlt.
  destruct (decide (b < SkipNonCode s (a + k) r));
    [rewrite H2 in Hcode by done; lia|]. specialize (H1 ltac:(lia)).
  assert (byte_at p k ";" = byte_at s (a + k) ";") as ->.
  { unfold byte_at, p. by rewrite slice_lookup by lia. }
  apply Hst; [lia|]. split_and!; [lia|by exists n|lia].
Qed.
End Stretch.

(** Without a semicolon in its code a text is one statement. *)
Lemma SplitStatements_single p r :
  no_code_semi p r 0 (length p) -> SplitStatements p r = add_statement [] p.
Proof.
  intros Hsemi.
  cut (forall st, snd (fst st) = 0 -> fst (fst st) = [] ->
    (exists n, scan_pos p r n = snd st) ->
    run (fun st => length p - snd st) (split_step p r) [] st
      = add_statement [] p).
  { intros H. apply (H ([], 0, 0)); [done|done|by exists 0]. }
  apply (run_ind _ _ [] (fun st x => snd (fst st) = 0 -> fst (fst st) = [] ->
    (exists n, scan_pos p r n = snd st) -> x = add_statement [] p)
    (split_dec p r)).
  - intros [[st start] i] x E. simpl. intros -> -> _. unfold split_step in E.
    destruct (Nat.ltb_spec i (length p)); [by split_ifs|]. by injection E as <-.
  - intros [[st start] i] [[st' start'] i'] x E IH. simpl in *.
    intros -> -> (n & Hn). unfold split_step in E.
    destruct (Nat.ltb_spec i (length p)) as [Hi|]; [|done].
    assert (scan_pos p r (S n) = next_pos p r i) as Hnext
      by (by rewrite scan_pos_S, Hn). unfold next_pos in Hnext.
    destruct (Nat.eqb_spec (SkipNonCode p i r) i) as [Hc|Hc]; simpl in E.
    + rewrite Hsemi in E; [|lia|split_and!; [done|by exists n|done]].
      injection E as <- <- <-. apply IH; [done..|by exists (S n)].
    + injection E as <- <- <-. apply IH; [done..|by exists (S n)].
Qed.

(** ** The loop invariant of the splitter *)

Definition split_inv (s : bytes) (r : StringReading)
    (st : list bytes * nat * nat) : Prop :=
  let '(statements, start, i) := st in
  stretch s r start (length s `min` i) /\ start <= i /\
  (exists n, scan_pos s r n = i) /\
  Forall (fun p => exists a e, stretch s r a e /\ p = TrimSpace (slice a e s) /\
            p <> [] /\ HasOnlyComments p = false) statements.

Lemma stretch_extend s r a i j :
  stretch s r a (length s `min` i) -> a <= i -> i < length s ->
  (exists n, scan_pos s r n = i) -> j = next_pos s r i ->
  ((SkipNonCode s i r =? i) && byte_at s i ";" = false) ->
  stretch s r a (length s `min` j).
Proof.
  intros [Hle Hs _ Hf Hsemi] Hai Hi (n & Hn) -> Hns.
  pose proof (next_pos_gt s r i). pose proof (next_pos_le s r i Hi).
  constructor; try done; try lia.
  - right. exists (S n). rewrite scan_pos_S, Hn. lia.
  - intros k Hk Hc. destruct (decide (k < i)); [apply Hsemi; [lia|done]|].
    destruct (decide (k = i)) as [->|Hne].
    + destruct Hc as (_ & _ & Hc). rewrite Hc, Nat.eqb_refl in Hns. done.
    + exfalso. apply (code_region_disjoint s r k Hc). exists n. rewrite Hn.
      unfold next_pos in *. split_ifs; bool_hyps; lia.
Qed.

(** After a code semicolon a new stretch starts. *)
Lemma stretch_restart s r i :
  i < length s -> (exists n, scan_pos s r n = i) -> SkipNonCode s i r = i ->
  byte_at s i ";" = true -> stretch s r (i + 1) (length s `min` (i + 1)).
Proof.
  intros Hi (n & Hn) Hc Hb.
  assert (exists m, scan_pos s r m = i + 1) as Hm.
  { exists (S n). rewrite scan_pos_S, Hn. unfold next_pos.
    by rewrite Hc, Nat.eqb_refl. }
  constructor; try lia; try done.
  - right. by replace (length s `min` (i + 1)) with (i + 1) by lia.
  - rewrite Nat.add_1_r. simpl. apply byte_at_Some in Hb.
    unfold test_at. by rewrite Hb.
  - intros k Hk. lia.
Qed.

Lemma add_statement_inv s r sts a e :
  stretch s r a e ->
  Forall (fun p => exists a e, stretch s r a e /\ p = TrimSpace (slice a e s) /\
            p <> [] /\ HasOnlyComments p = false) sts ->
  Forall (fun p => exists a e, stretch s r a e /\ p = TrimSpace (slice a e s) /\
            p <> [] /\ HasOnlyComments p = false)
    (add_statement sts (slice a e s)).
Proof.
  intros Hst Hall. unfold add_statement, bytes_eqb.
  destruct (negb _ && negb _) eqn:E; [|done]. bool_hyps.
  apply Forall_app_2; [done|]. constructor; [|constructor].
  exists a, e. apply bool_decide_eq_false in H. done.
Qed.

(** Every statement returned is a trimmed stretch that holds code. *)
Lemma SplitStatements_stretches s r :
  Forall (fun p => exists a e, stretch s r a e /\ p = TrimSpace (slice a e s) /\
            p <> [] /\ HasOnlyComments p = false) (SplitStatements s r).
Proof.
  cut (forall st, split_inv s r st ->
    Forall (fun p => exists a e, stretch s r a e /\
      p = TrimSpace (slice a e s) /\ p <> [] /\ HasOnlyComments p = false)
      (run (fun st => length s - snd st) (split_step s r) [] st)).
  { intros H. apply (H ([], 0, 0)). split_and!; [|done|by exists 0|constructor].
    constructor; try lia; [by exists 0|right; exists 0; simpl; lia|done|].
    intros k Hk. lia. }
  apply (run_ind _ _ [] (fun st x => split_inv s r st -> Forall _ x)
           (split_dec s r)).
  - intros [[sts a] i] x E (Hst & Hai & _ & Hall). unfold split_step in E.
    destruct (Nat.ltb_spec i (length s)) as [|Hi]; [by split_ifs|].
    injection E as <-. replace (length s `min` i) with (length s) in Hst by lia.
    assert (drop a s = slice a (length s) s) as ->.
    { unfold slice. rewrite take_ge; [done|]. rewrite length_drop. lia. }
    by apply add_statement_inv.
  - intros [[sts a] i] st' x E IH (Hst & Hai & (n & Hn) & Hall). apply IH.
    destruct (Nat.ltb_spec i (length s)) as [Hi|Hi].
    + rewrite split_step_eq in E by done.
      destruct ((SkipNonCode s i r =? i) && byte_at s i ";") eqn:G;
        injection E as <-.
      * apply andb_true_iff in G as [G Hb]. apply Nat.eqb_eq in G.
        replace (length s `min` i) with i in Hst by lia.
        split_and!; [by apply stretch_restart; eauto|done| |
          by apply add_statement_inv].
        exists (S n). rewrite scan_pos_S, Hn. unfold next_pos.
        by rewrite G, Nat.eqb_refl.
      * pose proof (next_pos_gt s r i).
        split_and!; [eapply (stretch_extend s r a i); eauto|lia| |done].
        exists (S n). by rewrite scan_pos_S, Hn.
    + unfold split_step in E.
      by rewrite (proj2 (Nat.ltb_ge i (length s))) in E by lia.
Qed.

Lemma all_space_slice s a w rest k :
  all_space w -> drop a s = w ++ rest -> a <= k < a + length w ->
  test_at s k IsSQLSpace = true.
Proof.
  intros Hw H Hk. unfold test_at.
  replace k with (a + (k - a)) by lia.
  rewrite <- lookup_drop, H, lookup_app_l by lia.
  destruct (w !! (k - a)) as [c|] eqn:E;
    [|apply lookup_ge_None in E; lia].
  rewrite <- ascii_space_sql. by apply (Forall_lookup_1 _ _ _ _ Hw E).
Qed.

(** A trimmed stretch splits into itself. *)
Lemma stretch_stable s r a e :
  all_ascii s -> stretch s r a e ->
  let p := TrimSpace (slice a e s) in
  p <> [] -> HasOnlyComments p = false -> SplitStatements p r = [p].
Proof.
  intros Hs Hst p Hne Hoc.
  destruct (stretch_le _ _ _ _ Hst) as [Hae Hel].
  assert (all_ascii (slice a e s)) as Hsl by (by apply Forall_take, Forall_drop).
  destruct (TrimSpace_ascii _ Hsl) as [(w1 & w2 & Hw1 & Hw2 & Heq) Hidem].
  fold p in Heq, Hidem.
  pose proof (f_equal length Heq) as Hlen.
  rewrite slice_length, !length_app in Hlen by lia.
  set (a' := a + length w1). set (b := a' + length p).
  assert (drop a s = w1 ++ p ++ w2 ++ drop e s) as Hd.
  { rewrite (drop_split s a e), Heq, <- !app_assoc by lia. done. }
  assert (drop b s = w2 ++ drop e s) as Hdb.
  { unfold b, a'. apply drop_app_suffix in Hd. by apply drop_app_suffix in Hd. }
  assert (p = slice a' b s) as Hp.
  { unfold slice, b, a'. rewrite (drop_app_suffix s a _ _ Hd).
    replace (a + length w1 + length p - (a + length w1)) with (length p) by lia.
    by rewrite take_app_length. }
  assert (stretch s r a' e) as Hst'.
  { apply (stretch_trim_left s r a); [done|unfold a'; lia|].
    intros k Hk. by eapply (all_space_slice s a w1). }
  assert (no_code_semi p r 0 (length p)) as Hsemi.
  { rewrite Hp. apply (stretch_no_semi s r a' b e); [done|unfold a', b; lia|].
    intros k Hk. eapply (all_space_slice s b w2); [done..|unfold b, a' in *; lia]. }
  rewrite (SplitStatements_single p r Hsemi). unfold add_statement, bytes_eqb.
  rewrite Hidem, Hoc, bool_decide_eq_false_2 by done. done.
Qed.

Lemma SplitStatements_once sql r p :
  all_ascii sql -> p ∈ SplitStatements sql r ->
  p <> [] /\ HasOnlyComments p = false /\ TrimSpace p = p /\
  SplitStatements p r = [p].
Proof.
  intros Hs Hp. pose proof (SplitStatements_stretches sql r) as Hall.
  rewrite Forall_forall in Hall. destruct (Hall p Hp) as (a & e & Hst & -> & ? & ?).
  assert (all_ascii (slice a e sql)) as Hsl by (by apply Forall_take, Forall_drop).
  split_and!; [done|done|by apply TrimSpace_ascii|].
  by apply stretch_stable.
Qed.

(** C35: A statement cut out of an ASCII script is one statement: it is not
    empty, holds code, has no white space at its ends, and splitting it again
    under the same reading returns it alone.  A classifier that splits a
    statement it is given therefore judges the very text that was cut out.
    Outside ASCII this fails: trimming a no-break space, which the lexer takes
    for a byte of a name, can turn the letter after it into the prefix of a
    literal ([trimmed_statement_splits] of [Witnesses]). *)
Theorem SplitStatements_stable sql r p :
  all_ascii sql -> p ∈ SplitStatements sql r ->
  p <> [] /\ HasOnlyComments p = false /\ TrimSpace p = p /\
  SplitStatements p r = [p].
Proof. apply SplitStatements_once. Qed.
