(* ===== verification/SqlCalls.v ===== *)
(** * Calls to side-effecting functions
      (server/src/internal/sqllex/side_effects.go)

    The token stream the detector reads, the tracker that recognises the
    names a parenthesis may follow without calling anything, and the
    detector; then what a call is, said of tokens alone ([calls_nothing]), and
    what the tokens of a text are, said with the lexical grammar ([scans]).
    [ToLower] outside ASCII is the parameter [UnicodeCase]. *)
From stdpp Require Import base list strings sets.
From Stdlib Require Import Ascii.
From S2P Require Import Prelude GoStrings SqlLexer LexGrammar.

Local Open Scope nat_scope.

(** ** The lists *)

Record functionFamily := {
  family : string;
  core : bool;
  names : list string;
}.

Definition sideEffectingFunctionFamilies : list functionFamily := [
    {| family := "server signaling"; core := true; names := [
        "pg_cancel_backend"; "pg_terminate_backend"; "pg_reload_conf";
        "pg_rotate_logfile"; "pg_log_backend_memory_contexts"] |};
    {| family := "server signaling before PostgreSQL 17"; core := false; names := [
        "pg_rotate_logfile_old"] |};
    {| family := "configuration settings"; core := true; names := [
        "set_config"] |};
    {| family := "backup and WAL control"; core := true; names := [
        "pg_create_restore_point"; "pg_switch_wal"; "pg_backup_start";
        "pg_backup_stop"] |};
    {| family := "backup and WAL control before PostgreSQL 15"; core := false; names := [
        "pg_start_backup"; "pg_stop_backup"; "pg_switch_xlog"] |};
    {| family := "recovery control"; core := true; names := [
        "pg_promote"; "pg_wal_replay_pause"; "pg_wal_replay_resume"] |};
    {| family := "recovery control before PostgreSQL 10"; core := false; names := [
        "pg_xlog_replay_pause"; "pg_xlog_replay_resume"] |};
    {| family := "snapshot synchronization"; core := true; names := [
        "pg_log_standby_snapshot"; "pg_export_snapshot"] |};
    {| family := "replication slots"; core := true; names := [
        "pg_create_physical_replication_slot";
        "pg_create_logical_replication_slot"; "pg_drop_replication_slot";
        "pg_copy_physical_replication_slot";
        "pg_copy_logical_replication_slot"; "pg_replication_slot_advance";
        "pg_sync_replication_slots"; "pg_logical_emit_message"] |};
    {| family := "statistics manipulation"; core := true; names := [
        "pg_restore_relation_stats"; "pg_clear_relation_stats";
        "pg_restore_attribute_stats"; "pg_clear_attribute_stats";
        "pg_stat_force_next_flush"] |};
    {| family := "index maintenance"; core := true; names := [
        "brin_summarize_new_values"; "brin_summarize_range";
        "brin_desummarize_range"; "gin_clean_pending_list"] |};
    {| family := "collation management"; core := true; names := [
        "pg_import_system_collations"] |};
    {| family := "transaction ID assignment"; core := true; names := [
        "pg_current_xact_id"; "txid_current"] |};
    {| family := "notifications"; core := true; names := [
        "pg_notify"] |};
    {| family := "sequences"; core := true; names := [
        "nextval"; "setval"] |};
    {| family := "large objects"; core := true; names := [
        "lo_creat"; "lo_create"; "lo_from_bytea"; "lo_import"; "lo_export";
        "lo_open"; "lo_put"; "lo_truncate"; "lo_truncate64"; "lo_unlink";
        "lowrite"] |};
    {| family := "functions that run a query given as text"; core := true; names := [
        "query_to_xml"; "query_to_xmlschema"; "query_to_xml_and_xmlschema";
        "cursor_to_xml"; "cursor_to_xmlschema"; "ts_stat"; "ts_rewrite"] |};
    {| family := "contrib modules"; core := false; names := [
        "pg_stat_statements_reset"; "pg_buffercache_evict";
        "pg_buffercache_evict_relation"; "pg_buffercache_evict_all";
        "pg_prewarm"; "autoprewarm_start_worker"; "autoprewarm_dump_now";
        "heap_force_kill"; "heap_force_freeze";
        "pg_truncate_visibility_map"; "postgres_fdw_disconnect";
        "postgres_fdw_disconnect_all"; "pg_file_write"; "pg_file_sync";
        "pg_file_rename"; "pg_file_unlink"; "pg_logfile_rotate";
        "schedule"; "schedule_in_database"; "unschedule"; "alter_job";
        "create_node"; "drop_node"; "alter_node_add_interface";
        "alter_node_drop_interface"; "create_subscription";
        "drop_subscription"; "alter_subscription_disable";
        "alter_subscription_enable"; "alter_subscription_interface";
        "alter_subscription_synchronize";
        "alter_subscription_resynchronize_table";
        "alter_subscription_add_replication_set";
        "alter_subscription_remove_replication_set";
        "create_replication_set"; "alter_replication_set";
        "drop_replication_set"; "replication_set_add_table";
        "replication_set_add_all_tables"; "replication_set_remove_table";
        "replication_set_add_sequence";
        "replication_set_add_all_sequences";
        "replication_set_remove_sequence"; "synchronize_sequence";
        "replicate_ddl_command"] |};
    {| family := "Spock management"; core := false; names := [
        "cleanup_resolutions"; "convert_column_to_int8";
        "convert_sequence_to_snowflake"; "node_add_interface";
        "node_alter"; "node_create"; "node_drop"; "node_drop_interface";
        "node_info_apply"; "node_info_emit"; "node_refresh_info";
        "node_refresh_info_one"; "pause_apply_workers";
        "resume_apply_workers"; "repair_mode"; "replicate_ddl";
        "repset_add_all_seqs"; "repset_add_all_tables";
        "repset_add_partition"; "repset_add_seq"; "repset_add_table";
        "repset_alter"; "repset_create"; "repset_drop";
        "repset_remove_partition"; "repset_remove_seq";
        "repset_remove_table"; "reserved_object_add";
        "reserved_object_remove"; "reset_channel_stats";
        "reset_subscription_stats"; "slot_enable_failover";
        "sub_add_repset"; "sub_alter_interface"; "sub_alter_options";
        "sub_alter_skiplsn"; "sub_alter_sync"; "sub_create"; "sub_disable";
        "sub_drop"; "sub_enable"; "sub_remove_repset"; "sub_resync_table";
        "sync_event"; "sync_seq"; "terminate_active_transactions";
        "set_cluster_readonly"; "unset_cluster_readonly";
        "prune_conflict_tracking"] |}
  ]%string.

Definition sideEffectingFunctionPrefixes : list string :=
  ["pg_advisory_"; "pg_try_advisory_"; "pg_replication_origin_";
   "pg_logical_slot_"; "pg_stat_reset"; "dblink"; "pg_background_"]%string.

(** [text_in l t] is membership of [t] in a Go [map[string]bool] whose true
    keys are [l]. *)
Definition text_in (l : list string) (t : bytes) : bool :=
  existsb (fun n => bytes_eqb (lit n) t) l.

Definition sideEffectingSchemas : list string :=
  ["spock"; "pglogical"; "cron"]%string.

Definition sideEffectingFunctions : list string :=
  flat_map names sideEffectingFunctionFamilies.

Definition isSideEffectingFunctionName (name : bytes) : bool :=
  text_in sideEffectingFunctions name ||
  existsb (fun p => HasPrefix name (lit p)) sideEffectingFunctionPrefixes.

Definition notFieldSelectable : list string :=
  ["schedule"; "pg_replication_origin_status"]%string.

Definition isFieldSelectedFunctionName (name : bytes) : bool :=
  negb (text_in notFieldSelectable name) && isSideEffectingFunctionName name.

(** ** Tokens *)

Inductive callTokenKind :=
  nameToken | openParenToken | closeParenToken | dotToken | commaToken
| semicolonToken | otherToken.

#[export] Instance callTokenKind_eq_dec : EqDecision callTokenKind.
Proof. solve_decision. Defined.

Record callToken := {
  kind : callTokenKind;
  text : bytes;
  quoted : bool;
  numeric : bool;
}.

Definition punct (k : callTokenKind) : callToken :=
  {| kind := k; text := []; quoted := false; numeric := false |}.

Definition kind_is (k : callTokenKind) (tok : callToken) : bool :=
  bool_decide (kind tok = k).

Definition isKeyword (tok : callToken) (keyword : string) : bool :=
  kind_is nameToken tok && negb (quoted tok) &&
  bytes_eqb (text tok) (lit keyword).

(** [i < len(tokens) && p(tokens[i])] *)
Definition tok_at (tokens : list callToken) (i : nat)
    (p : callToken -> bool) : bool :=
  match tokens !! i with Some t => p t | None => false end.

Definition punctuationKind (ch : ascii) : callTokenKind :=
  if Ascii.eqb ch "(" then openParenToken
  else if Ascii.eqb ch ")" then closeParenToken
  else if Ascii.eqb ch "." then dotToken
  else if Ascii.eqb ch "," then commaToken
  else if Ascii.eqb ch ";" then semicolonToken
  else otherToken.

Definition isCommentStart (s : bytes) (i : nat) : bool :=
  (byte_at s i "-" && byte_at s (i + 1) "-") ||
  (byte_at s i "/" && byte_at s (i + 1) "*").

(** [decodeUnicodeEscapes]: the state is the builder and the index; [None]
    is [ok = false]. *)
Definition decode_step (s : bytes) (st : bytes * nat)
    : (bytes * nat) + option bytes :=
  let '(b, i) := st in
  match s !! i with
  | None => inr (Some b)
  | Some c =>
      if negb (Ascii.eqb c backslash) then inl (b ++ [c], i + 1)
      else if byte_at s (i + 1) backslash then inl (b ++ [backslash], i + 2)
      else
        let '(digits, i) :=
          if byte_at s (i + 1) "+" then (6, i + 2) else (4, i + 1) in
        if length s <? i + digits then inr None
        else match ParseHex (slice i (i + digits) s) with
             | None => inr None
             | Some n =>
                 if ((n =? 0) || (1114111 <? n) ||
                     ((55296 <=? n) && (n <=? 57343)))%N
                 then inr None
                 else inl (b ++ encode_rune n, i + digits)
             end
  end.

Definition decodeUnicodeEscapes (s : bytes) : option bytes :=
  run (fun st => length s - snd st) (decode_step s) None ([], 0).

(** What [quotedIdentifierAt] reports of the region [s[i:end]]. *)
Inductive quotedIdent :=
| notIdent
| undecodable
| identName (name : bytes).

Section Detect.
Context `{UnicodeCase}.

Definition quotedIdentifierAt (s : bytes) (i e : nat) : quotedIdent :=
  let body i := undouble dquote
                  (TrimSuffixByte (slice (i + 1) e s) dquote) in
  if byte_at s i dquote then identName (ToLower (body i))
  else if negb (ContinuesIdentifier s i) then
    let '(len, kind) := literalPrefix s i in
    if (len =? 0) || negb (bool_decide (kind = quotedIdentifier))
    then notIdent
    else match decodeUnicodeEscapes (body (i + len)) with
         | None => undecodable
         | Some b => identName (ToLower b)
         end
  else notIdent.

Definition word_char (c : ascii) : bool :=
  IsIdentChar c || Ascii.eqb c "$".

(** [tokenizeForCalls]: the state is the tokens and the index; [None] is
    [ok = false]. *)
Definition tokenize_step (sql : bytes) (reading : StringReading)
    (st : list callToken * nat)
    : (list callToken * nat) + option (list callToken) :=
  let '(tokens, i) := st in
  match sql !! i with
  | None => inr (Some tokens)
  | Some ch =>
      if IsSQLSpace ch then inl (tokens, i + 1)
      else
        let j := SkipNonCode sql i reading in
        if negb (j =? i) then
          match quotedIdentifierAt sql i j with
          | undecodable => inr None
          | identName name =>
              inl (tokens ++ [{| kind := nameToken; text := name;
                                 quoted := true; numeric := false |}], j)
          | notIdent =>
              if isCommentStart sql i then inl (tokens, j)
              else inl (tokens ++ [punct otherToken], j)
          end
        else if IsIdentChar ch then
          let e := scan_while word_char sql i in
          let word := ToLower (slice i e sql) in
          if bytes_eqb word (lit "uescape") then inr None
          else inl (tokens ++ [{| kind := nameToken; text := word;
                                  quoted := false;
                                  numeric := is_digit ch |}], e)
        else inl (tokens ++ [punct (punctuationKind ch)], i + 1)
  end.

Definition tokenizeForCalls (sql : bytes) (reading : StringReading)
    : option (list callToken) :=
  run (fun st => length sql - snd st) (tokenize_step sql reading) None
      ([], 0).
End Detect.

(** ** Names that are not calls *)

Inductive withListState := noWithList | expectCTEName | inCTE.

#[export] Instance withListState_eq_dec : EqDecision withListState.
Proof. solve_decision. Defined.

Definition withListOpeners : list string :=
  ["explain"; "analyze"; "analyse"; "verbose"]%string.

Definition withListClosers : list string :=
  ["select"; "values"; "table"; "insert"; "update"; "delete"; "merge"]%string.

Record withListTracker := {
  lists : list withListState;
  depth : nat;
}.

(** [w.lists[w.depth]]; [tracker_ok] shows the index is always in range. *)
Definition wl_state (w : withListTracker) : withListState :=
  default noWithList (lists w !! depth w).

Definition wl_set (w : withListTracker) (s : withListState)
    : withListTracker :=
  {| lists := <[depth w := s]> (lists w); depth := depth w |}.

Definition opensWithList (prev : callToken) : bool :=
  match kind prev with
  | openParenToken | semicolonToken => true
  | nameToken => negb (quoted prev) && text_in withListOpeners (text prev)
  | _ => false
  end.

Definition skip_columns_step (tokens : list callToken) (i : nat)
    : nat + option nat :=
  if tok_at tokens i (fun t => (kind_is nameToken t && negb (numeric t)) ||
                               kind_is commaToken t)
  then inl (i + 1)
  else if tok_at tokens i (kind_is closeParenToken) then inr (Some (i + 1))
  else inr None.

Definition skipColumnList (tokens : list callToken) (i : nat) : option nat :=
  run (fun i => length tokens - i) (skip_columns_step tokens) None i.

Definition isCTEDefinitionAt (tokens : list callToken) (k : nat) : bool :=
  match (if tok_at tokens (k + 1) (kind_is openParenToken)
         then skipColumnList tokens (k + 2) else Some (k + 1)) with
  | None => false
  | Some i =>
      if negb (tok_at tokens i (fun t => isKeyword t "as")) then false
      else
        let i := i + 1 in
        match (if tok_at tokens i (fun t => isKeyword t "not") then
                 if tok_at tokens (i + 1)
                      (fun t => isKeyword t "materialized")
                 then Some (i + 1) else None
               else Some i) with
        | None => false
        | Some i =>
            let i := if tok_at tokens i (fun t => isKeyword t "materialized")
                     then i + 1 else i in
            tok_at tokens i (kind_is openParenToken)
        end
  end.

(** [withListTracker.name]: the new tracker and whether the name is a common
    table expression's. *)
Definition wl_name (w : withListTracker) (tokens : list callToken) (k : nat)
    (tok prev : callToken) : withListTracker * bool :=
  let state := wl_state w in
  if bool_decide (state = expectCTEName) && isKeyword tok "recursive" &&
     isKeyword prev "with" then (w, false)
  else if bool_decide (state = expectCTEName) && isCTEDefinitionAt tokens k
  then (wl_set w inCTE, true)
  else if bool_decide (state = expectCTEName) then (wl_set w noWithList, false)
  else if bool_decide (state = inCTE) && negb (quoted tok) &&
          text_in withListClosers (text tok) then (wl_set w noWithList, false)
  else if isKeyword tok "with" && opensWithList prev
  then (wl_set w expectCTEName, false)
  else (w, false).

Definition wl_openParen (w : withListTracker) (prev : callToken)
    (prevNotCall : bool) : withListTracker :=
  let opensDefinition := isKeyword prev "as" || isKeyword prev "materialized" ||
                         (kind_is nameToken prev && prevNotCall) in
  let state := wl_state w in
  let w := if bool_decide (state = expectCTEName) ||
              (bool_decide (state = inCTE) && negb opensDefinition)
           then wl_set w noWithList else w in
  let d := depth w + 1 in
  let ls := if d =? length (lists w) then lists w ++ [noWithList]
            else lists w in
  wl_set {| lists := ls; depth := d |} noWithList.

Definition wl_closeParen (w : withListTracker) : withListTracker :=
  let w := wl_set w noWithList in
  {| lists := lists w; depth := depth w - 1 |}.

Definition wl_comma (w : withListTracker) : withListTracker :=
  if bool_decide (wl_state w = inCTE) then wl_set w expectCTEName
  else wl_set w noWithList.

Definition wl_semicolon (w : withListTracker) : withListTracker :=
  {| lists := map (fun _ => noWithList) (lists w); depth := 0 |}.

(** The token before token [k]; before the first one, a semicolon. *)
Definition prev_tok (tokens : list callToken) (k : nat) : callToken :=
  match k with
  | O => punct semicolonToken
  | S k' => default (punct semicolonToken) (tokens !! k')
  end.

(** One iteration of the loop of [namesThatAreNotCalls]: [notCalls] holds
    the entries decided so far. *)
Definition not_calls_step (tokens : list callToken)
    (st : withListTracker * list bool) (k : nat)
    : withListTracker * list bool :=
  let '(w, notCalls) := st in
  match tokens !! k with
  | None => st
  | Some tok =>
      let prev := prev_tok tokens k in
      match kind tok with
      | nameToken =>
          let '(w', cte) := wl_name w tokens k tok prev in
          (w', notCalls ++ [cte || isKeyword prev "as"])
      | openParenToken =>
          (wl_openParen w prev (default false (last notCalls)),
           notCalls ++ [false])
      | closeParenToken => (wl_closeParen w, notCalls ++ [false])
      | commaToken => (wl_comma w, notCalls ++ [false])
      | semicolonToken => (wl_semicolon w, notCalls ++ [false])
      | _ => (wl_set w noWithList, notCalls ++ [false])
      end
  end.

Definition initial_tracker : withListTracker :=
  {| lists := [noWithList]; depth := 0 |}.

Definition not_calls_upto (tokens : list callToken) (n : nat)
    : withListTracker * list bool :=
  foldl (not_calls_step tokens) (initial_tracker, []) (seq 0 n).

Definition namesThatAreNotCalls (tokens : list callToken) : list bool :=
  snd (not_calls_upto tokens (length tokens)).

(** ** The detector *)

(** The proper suffixes of a text, longest first: [text[i:]] for
    [i = 1, 2, ...]. *)
Definition proper_suffixes (t : bytes) : list bytes :=
  map (fun i => drop i t) (seq 1 (length t - 1)).

Definition callsWithParenthesis (tokens : list callToken) (k : nat)
    (tok : callToken) : bool :=
  ((2 <=? k) && tok_at tokens (k - 1) (kind_is dotToken) &&
   tok_at tokens (k - 2) (fun t => kind_is nameToken t &&
                                   text_in sideEffectingSchemas (text t))) ||
  isSideEffectingFunctionName (text tok) ||
  (numeric tok && existsb isSideEffectingFunctionName
                    (proper_suffixes (text tok))).

(** The loop body of [CallsSideEffectingFunction] for token [k]. *)
Definition calls_at (tokens : list callToken) (notCalls : list bool) (k : nat)
    : bool :=
  match tokens !! k with
  | None => false
  | Some tok =>
      if negb (kind_is nameToken tok) then false
      else if tok_at tokens (k + 1) (kind_is openParenToken) then
        negb (default false (notCalls !! k)) &&
        callsWithParenthesis tokens k tok
      else
        (1 <=? k) && tok_at tokens (k - 1) (kind_is dotToken) &&
        isFieldSelectedFunctionName (text tok)
  end.

Section Calls.
Context `{UnicodeCase}.

Definition CallsSideEffectingFunction (sql : bytes)
    (reading : StringReading) : bool :=
  match tokenizeForCalls sql reading with
  | None => true
  | Some tokens =>
      existsb (calls_at tokens (namesThatAreNotCalls tokens))
              (seq 0 (length tokens))
  end.

Definition CallsSideEffectingFunctionUnderAnyReading (sql : bytes) : bool :=
  existsb (CallsSideEffectingFunction sql) StringReadings.
End Calls.

(** ** The tracker never indexes out of range *)

Definition tracker_ok (w : withListTracker) : Prop :=
  depth w < length (lists w).

Lemma wl_set_ok w s : tracker_ok w -> tracker_ok (wl_set w s).
Proof. unfold tracker_ok. simpl. by rewrite length_insert. Qed.

Lemma wl_name_ok w tokens k tok prev :
  tracker_ok w -> tracker_ok (fst (wl_name w tokens k tok prev)).
Proof. intros Hw. unfold wl_name. split_ifs; simpl; auto using wl_set_ok. Qed.

Lemma wl_openParen_ok w prev b : tracker_ok w -> tracker_ok (wl_openParen w prev b).
Proof.
  intros Hw. unfold wl_openParen. apply wl_set_ok. unfold tracker_ok in *.
  split_ifs; bool_hyps; simpl in *; rewrite ?length_app, ?length_insert in *;
    simpl; lia.
Qed.

Lemma not_calls_step_ok tokens w nc k :
  tracker_ok w -> tracker_ok (fst (not_calls_step tokens (w, nc) k)).
Proof.
  intros Hw. unfold not_calls_step. destruct (tokens !! k) as [tok|]; [|done].
  pose proof (wl_name_ok w tokens k tok (prev_tok tokens k) Hw) as Hn.
  destruct (kind tok); simpl; auto using wl_set_ok, wl_openParen_ok.
  - by destruct (wl_name w tokens k tok (prev_tok tokens k)).
  - apply (wl_set_ok w noWithList) in Hw. unfold tracker_ok in *. simpl in *. lia.
  - unfold wl_comma. split_ifs; by apply wl_set_ok.
  - unfold tracker_ok in *. simpl. rewrite length_map. lia.
Qed.

Lemma not_calls_upto_S tokens n :
  not_calls_upto tokens (S n) =
    not_calls_step tokens (not_calls_upto tokens n) n.
Proof. unfold not_calls_upto. by rewrite seq_S, foldl_app. Qed.

(** ** What a call is

    Said of the tokens alone, without the tracker and the detector. *)

(** A function on the list, or one whose name starts with a listed prefix. *)
Definition listed (name : bytes) : Prop :=
  (exists n, n ∈ sideEffectingFunctions /\ name = lit n) \/
  (exists p rest, p ∈ sideEffectingFunctionPrefixes /\ name = lit p ++ rest).

Definition keyword (w : string) (t : callToken) : Prop :=
  kind t = nameToken /\ quoted t = false /\ text t = lit w.

(** The token before token [k]. *)
Definition before (tokens : list callToken) (k : nat) : option callToken :=
  match k with O => None | S j => tokens !! j end.

Definition after_kind (tokens : list callToken) (k : nat) (c : callTokenKind) : Prop :=
  exists t, tokens !! (k + 1) = Some t /\ kind t = c.

(** Token [k], which a parenthesis follows, names something with side
    effects: it is listed, it is qualified by a listed schema, or it is a
    number run together with a listed name. *)
Definition names_listed (tokens : list callToken) (k : nat) (tok : callToken) : Prop :=
  listed (text tok) \/
  (exists j schema dot, k = S (S j) /\ tokens !! j = Some schema /\ tokens !! S j = Some dot /\
     kind schema = nameToken /\ kind dot = dotToken /\
     exists n, n ∈ ["spock"; "pglogical"; "cron"]%string /\ text schema = lit n) \/
  (numeric tok = true /\ exists digits name, digits <> [] /\ name <> [] /\
     text tok = digits ++ name /\ listed name).

(** A listed function that may be reached by selecting a field. *)
Definition field_listed (name : bytes) : Prop :=
  listed name /\ name <> lit "schedule" /\ name <> lit "pg_replication_origin_status".

(** The columns of a common table expression, up to the closing
    parenthesis. *)
Inductive column_list : list callToken -> list callToken -> Prop :=
| columns_end t rest : kind t = closeParenToken -> column_list (t :: rest) rest
| columns_next t l rest :
    (kind t = nameToken /\ numeric t = false) \/ kind t = commaToken ->
    column_list l rest -> column_list (t :: l) rest.

Definition opens_paren (l : list callToken) : Prop :=
  exists t rest, l = t :: rest /\ kind t = openParenToken.

(** The tokens after the name of a common table expression: its columns if it
    names them, AS, MATERIALIZED or NOT MATERIALIZED if given, and the
    parenthesis of its query. *)
Inductive query_opens : list callToken -> Prop :=
| opens_plain l : opens_paren l -> query_opens l
| opens_materialized t l : keyword "materialized" t -> opens_paren l -> query_opens (t :: l)
| opens_not_materialized t t' l :
    keyword "not" t -> keyword "materialized" t' -> opens_paren l -> query_opens (t :: t' :: l).

Inductive cte_definition : list callToken -> Prop :=
| defined_plain t l : keyword "as" t -> query_opens l -> cte_definition (t :: l)
| defined_columns p cols t l :
    kind p = openParenToken -> column_list cols (t :: l) ->
    keyword "as" t -> query_opens l -> cte_definition (p :: cols).

(** Where a WITH starts a list: at the start of a statement, after an opening
    parenthesis, or after one of the words of EXPLAIN. *)
Definition list_start (p : option callToken) : Prop :=
  match p with
  | None => True
  | Some t => kind t = openParenToken \/ kind t = semicolonToken \/
      exists w, w ∈ ["explain"; "analyze"; "analyse"; "verbose"]%string /\ keyword w t
  end.

Definition opens_list (tokens : list callToken) (m : nat) : Prop :=
  exists tok, tokens !! m = Some tok /\ keyword "with" tok /\ list_start (before tokens m).

(** Where the name of a common table expression may stand: after WITH, after
    WITH RECURSIVE, or after a comma once a list has been opened. *)
Inductive name_expected (tokens : list callToken) : nat -> Prop :=
| expected_first j : opens_list tokens j -> name_expected tokens (S j)
| expected_recursive j t :
    opens_list tokens j -> tokens !! S j = Some t -> keyword "recursive" t ->
    name_expected tokens (S (S j))
| expected_next m j t :
    opens_list tokens m -> m < j -> tokens !! j = Some t -> kind t = commaToken ->
    name_expected tokens (S j).

(** A name that is no call though a parenthesis follows it: it follows AS, or
    it is the name of a common table expression. *)
Definition not_a_call (tokens : list callToken) (k : nat) : Prop :=
  (exists t, before tokens k = Some t /\ keyword "as" t) \/
  (name_expected tokens k /\ cte_definition (drop (k + 1) tokens)).

(** *** The detector's tests decide these *)

Lemma text_in_spec l t : text_in l t = true <-> exists n, n ∈ l /\ t = lit n.
Proof.
  unfold text_in. rewrite existsb_exists. split.
  - intros (n & Hn & Heq). exists n. split; [by apply list_elem_of_In|].
    unfold bytes_eqb in Heq. by apply bool_decide_eq_true in Heq.
  - intros (n & Hn & ->). exists n. split; [by apply list_elem_of_In|].
    unfold bytes_eqb. by apply bool_decide_eq_true.
Qed.

Lemma listed_spec name : isSideEffectingFunctionName name = true <-> listed name.
Proof.
  unfold isSideEffectingFunctionName, listed.
  rewrite orb_true_iff, text_in_spec, existsb_exists.
  assert ((exists p, In p sideEffectingFunctionPrefixes /\ HasPrefix name (lit p) = true) <->
          exists p rest, p ∈ sideEffectingFunctionPrefixes /\ name = lit p ++ rest) as ->; [|done].
  split.
  - intros (p & Hp & [rest ->]%HasPrefix_spec). exists p, rest. split; [by apply list_elem_of_In|done].
  - intros (p & rest & Hp & ->). exists p. split; [by apply list_elem_of_In|].
    apply HasPrefix_spec. by exists rest.
Qed.

Lemma kind_is_spec k t : kind_is k t = true <-> kind t = k.
Proof. unfold kind_is. by rewrite bool_decide_eq_true. Qed.

Lemma keyword_spec t w : isKeyword t w = true <-> keyword w t.
Proof.
  unfold isKeyword, keyword. rewrite !andb_true_iff, kind_is_spec, negb_true_iff.
  unfold bytes_eqb. rewrite bool_decide_eq_true. tauto.
Qed.

Lemma tok_at_spec tokens i p :
  tok_at tokens i p = true <-> exists t, tokens !! i = Some t /\ p t = true.
Proof. unfold tok_at. destruct (tokens !! i); naive_solver. Qed.

Lemma prev_tok_keyword tokens k w :
  isKeyword (prev_tok tokens k) w = true -> exists t, before tokens k = Some t /\ keyword w t.
Proof.
  intros Hw. destruct k as [|j]; [done|]. simpl in *.
  destruct (tokens !! j) as [t|]; [|done]. exists t. by rewrite <- keyword_spec.
Qed.

Lemma field_listed_spec name : isFieldSelectedFunctionName name = true <-> field_listed name.
Proof.
  unfold isFieldSelectedFunctionName, field_listed.
  rewrite andb_true_iff, listed_spec, negb_true_iff, <- not_true_iff_false, text_in_spec.
  unfold notFieldSelectable. split.
  - intros [Hno Hl]. split_and!; [done|..]; intros ->; apply Hno; eexists; (split; [|done]);
      set_solver.
  - intros (Hl & H1 & H2). split; [|done]. intros (n & Hn & ->). set_solver.
Qed.

Lemma names_listed_spec tokens k tok :
  callsWithParenthesis tokens k tok = true <-> names_listed tokens k tok.
Proof.
  unfold callsWithParenthesis, names_listed. rewrite !orb_true_iff, listed_spec.
  assert ((2 <=? k) && tok_at tokens (k - 1) (kind_is dotToken) &&
     tok_at tokens (k - 2) (fun t => kind_is nameToken t && text_in sideEffectingSchemas (text t))
       = true <->
    exists j schema dot, k = S (S j) /\ tokens !! j = Some schema /\ tokens !! S j = Some dot /\
     kind schema = nameToken /\ kind dot = dotToken /\
     exists n, n ∈ ["spock"; "pglogical"; "cron"]%string /\ text schema = lit n) as ->.
  { rewrite !andb_true_iff, !tok_at_spec, Nat.leb_le. split.
    - intros [[Hk (dot & Hdot & Hd)] (schema & Hs & Hp)].
      apply andb_true_iff in Hp as [Hn Ht]. apply kind_is_spec in Hd, Hn.
      apply text_in_spec in Ht. destruct k as [|[|j]]; [lia..|].
      replace (S (S j) - 1) with (S j) in Hdot by lia. replace (S (S j) - 2) with j in Hs by lia.
      by exists j, schema, dot.
    - intros (j & schema & dot & -> & Hs & Hdot & Hn & Hd & Ht).
      replace (S (S j) - 1) with (S j) by lia. replace (S (S j) - 2) with j by lia.
      split_and!; [lia|exists dot; by rewrite kind_is_spec|]. exists schema. split; [done|].
      apply andb_true_iff. by rewrite kind_is_spec, text_in_spec. }
  assert (numeric tok && existsb isSideEffectingFunctionName (proper_suffixes (text tok)) = true <->
    numeric tok = true /\ exists digits name, digits <> [] /\ name <> [] /\
      text tok = digits ++ name /\ listed name) as ->; [|tauto].
  rewrite andb_true_iff, existsb_exists. unfold proper_suffixes. split.
  - intros [Hn (x & (i & <- & Hi%in_seq)%in_map_iff & Hl%listed_spec)]. split; [done|].
    exists (take i (text tok)), (drop i (text tok)). split_and!; [| |by rewrite take_drop|done].
    + intros Hnil. apply (f_equal length) in Hnil. rewrite length_take in Hnil. simpl in Hnil. lia.
    + intros Hnil. apply (f_equal length) in Hnil. rewrite length_drop in Hnil. simpl in Hnil. lia.
  - intros [Hn (digits & name & Hd & Hne & Htext & Hl)]. split; [done|]. exists name.
    split; [|by apply listed_spec]. apply in_map_iff. exists (length digits).
    rewrite Htext. split; [by rewrite drop_app_length|]. apply in_seq. rewrite length_app.
    assert (length digits <> 0 /\ length name <> 0) as [? ?]
      by (split; intros ?%nil_length_inv; done). lia.
Qed.

Lemma skip_columns_dec tokens :
  decreases (fun i => length tokens - i) (skip_columns_step tokens).
Proof.
  intros i i'. unfold skip_columns_step. destruct (tok_at tokens i _) eqn:E.
  - intros [= <-]. apply tok_at_spec in E as (t & Ht & _). apply lookup_lt_Some in Ht. lia.
  - by destruct (tok_at tokens i (kind_is closeParenToken)).
Qed.

Lemma skipColumnList_spec tokens i e :
  skipColumnList tokens i = Some e -> column_list (drop i tokens) (drop e tokens).
Proof.
  unfold skipColumnList. revert e.
  apply (run_ind _ _ None (fun i x => forall e, x = Some e ->
    column_list (drop i tokens) (drop e tokens))); [exact (skip_columns_dec tokens)|..]; unfold skip_columns_step.
  - intros j x E e ->. destruct (tok_at tokens j _); [done|].
    destruct (tok_at tokens j (kind_is closeParenToken)) eqn:Ec; [|done]. injection E as <-.
    apply tok_at_spec in Ec as (t & Ht & Hk%kind_is_spec). rewrite (drop_S _ _ _ Ht), Nat.add_1_r.
    by constructor.
  - intros j j' x E IH e Hx. specialize (IH e Hx). destruct (tok_at tokens j _) eqn:Et.
    + injection E as <-. apply tok_at_spec in Et as (t & Ht & Hp).
      rewrite (drop_S _ _ _ Ht), <- Nat.add_1_r. constructor; [|done].
      apply orb_true_iff in Hp as [[Hn Hd]%andb_true_iff|Hc]; [left|right; by apply kind_is_spec].
      apply kind_is_spec in Hn. apply negb_true_iff in Hd. done.
    + by destruct (tok_at tokens j (kind_is closeParenToken)).
Qed.

Lemma drop_tok (tokens : list callToken) i t :
  tokens !! i = Some t -> drop i tokens = t :: drop (i + 1) tokens.
Proof. intros Ht. rewrite (drop_S _ _ _ Ht). by rewrite Nat.add_1_r. Qed.

Lemma cte_definition_spec tokens k :
  isCTEDefinitionAt tokens k = true -> cte_definition (drop (k + 1) tokens).
Proof.
  unfold isCTEDefinitionAt. intros H.
  assert (forall i, (if negb (tok_at tokens i (fun t => isKeyword t "as")) then false
      else match (if tok_at tokens (i + 1) (fun t => isKeyword t "not") then
                 if tok_at tokens (i + 1 + 1) (fun t => isKeyword t "materialized")
                 then Some (i + 1 + 1) else None else Some (i + 1)) with
        | None => false
        | Some i => tok_at tokens (if tok_at tokens i (fun t => isKeyword t "materialized")
                     then i + 1 else i) (kind_is openParenToken)
        end) = true ->
    exists t l, drop i tokens = t :: l /\ keyword "as" t /\ query_opens l) as Hbody.
  { intros i Hi. destruct (tok_at tokens i _) eqn:Eas; [|done]. simpl in Hi.
    apply tok_at_spec in Eas as (t & Ht & Has%keyword_spec). exists t, (drop (i + 1) tokens).
    split_and!; [by apply drop_tok|done|].
    assert (forall j, tok_at tokens j (kind_is openParenToken) = true -> opens_paren (drop j tokens))
      as Hopen.
    { intros j (p & Hp & Hk%kind_is_spec)%tok_at_spec. exists p, (drop (j + 1) tokens).
      split; [by apply drop_tok|done]. }
    assert (forall j, tok_at tokens j (fun t => isKeyword t "materialized") = true ->
      exists m, drop j tokens = m :: drop (j + 1) tokens /\ keyword "materialized" m) as Hmat.
    { intros j (m & Hm & Hk%keyword_spec)%tok_at_spec. exists m. split; [by apply drop_tok|done]. }
    destruct (tok_at tokens (i + 1) (fun t => isKeyword t "not")) eqn:Enot.
    - destruct (tok_at tokens (i + 1 + 1) (fun t => isKeyword t "materialized")) eqn:Em; [|done].
      rewrite Em in Hi. apply tok_at_spec in Enot as (n & Hn & Hnot%keyword_spec).
      rewrite (drop_tok _ _ _ Hn). destruct (Hmat _ Em) as (m & -> & Hk).
      apply opens_not_materialized; auto.
    - destruct (tok_at tokens (i + 1) (fun t => isKeyword t "materialized")) eqn:Em.
      + destruct (Hmat _ Em) as (m & -> & Hk). apply opens_materialized; auto.
      + apply opens_plain. auto. }
  destruct (tok_at tokens (k + 1) (kind_is openParenToken)) eqn:Ep.
  - destruct (skipColumnList tokens (k + 2)) as [i|] eqn:Ec; [|done].
    apply skipColumnList_spec in Ec. destruct (Hbody i H) as (t & l & Hd & Has & Hq).
    apply tok_at_spec in Ep as (p & Hp & Hk%kind_is_spec). rewrite (drop_tok _ _ _ Hp).
    rewrite Hd in Ec. replace (k + 1 + 1) with (k + 2) by lia. by eapply defined_columns.
  - destruct (Hbody (k + 1) H) as (t & l & Hd & Has & Hq). rewrite Hd. by constructor.
Qed.

Lemma list_start_spec tokens k :
  opensWithList (prev_tok tokens k) = true -> list_start (before tokens k).
Proof.
  destruct k as [|j]; [done|]. simpl. destruct (tokens !! j) as [t|]; [|done]. simpl.
  unfold opensWithList. destruct (kind t) eqn:Hk; try done; [|by left|by right; left].
  intros [Hq%negb_true_iff Ht%text_in_spec]%andb_true_iff. right. right.
  destruct Ht as (w & Hw & Htext). exists w. done.
Qed.

(** ** Which names the tracker skips *)

(** Some list is open only if a WITH opened it. *)
Definition lists_open (w : withListTracker) : Prop :=
  exists d s, lists w !! d = Some s /\ s <> noWithList.

(** A list that expects a name does so at the current depth only. *)
Definition expecting (w : withListTracker) (P : Prop) : Prop :=
  forall d, lists w !! d = Some expectCTEName -> d = depth w /\ P.

Lemma wl_set_open w s :
  lists_open (wl_set w s) -> lists_open w \/ s <> noWithList.
Proof.
  intros (d & s' & Hd & Hs'). simpl in Hd.
  destruct (decide (d = depth w)) as [->|Hne].
  - destruct (decide (depth w < length (lists w))).
    + rewrite list_lookup_insert_eq in Hd by done. right. congruence.
    + rewrite list_insert_ge in Hd by lia. left. by exists (depth w), s'.
  - rewrite list_lookup_insert_ne in Hd by done. left. by exists d, s'.
Qed.

Lemma wl_set_lookup w s d x :
  tracker_ok w -> lists (wl_set w s) !! d = Some x ->
  (d = depth w /\ x = s) \/ (d <> depth w /\ lists w !! d = Some x).
Proof.
  intros Hok Hd. simpl in Hd. destruct (decide (d = depth w)) as [->|Hne].
  - rewrite list_lookup_insert_eq in Hd by done. left. split; congruence.
  - rewrite list_lookup_insert_ne in Hd by done. by right.
Qed.

Lemma wl_set_expecting w s P Q :
  tracker_ok w -> expecting w P -> (s = expectCTEName -> Q) -> expecting (wl_set w s) Q.
Proof.
  intros Hok He HQ d Hd. destruct (wl_set_lookup w s d _ Hok Hd) as [[-> Heq]|[Hne Hd']]; [auto|].
  by destruct (He d Hd') as [-> _].
Qed.

Lemma wl_state_open w : wl_state w <> noWithList -> lists_open w.
Proof.
  unfold wl_state. destruct (lists w !! depth w) as [s|] eqn:E; [|done].
  intros Hs. by exists (depth w), s.
Qed.

Lemma wl_state_lookup w : tracker_ok w -> lists w !! depth w = Some (wl_state w).
Proof.
  intros Hok. unfold wl_state. by destruct (lookup_lt_is_Some_2 _ _ Hok) as [x ->].
Qed.

(** The lists a name leaves open were open, or it is a WITH that opens. *)
Lemma wl_name_open w tokens k tok prev :
  let '(w', cte) := wl_name w tokens k tok prev in
  (lists_open w' -> lists_open w \/
     (isKeyword tok "with" = true /\ opensWithList prev = true)) /\
  (cte = true -> wl_state w = expectCTEName /\ isCTEDefinitionAt tokens k = true).
Proof.
  unfold wl_name.
  assert (forall s, wl_state w = s -> s <> noWithList -> lists_open w) as Hop
    by (intros ? <-; apply wl_state_open).
  destruct (decide (wl_state w = expectCTEName)) as [E|E].
  - rewrite bool_decide_eq_true_2 by done. simpl.
    specialize (Hop _ E ltac:(done)).
    split_ifs; (split; [by left|]); done || (intros _; done).
  - rewrite bool_decide_eq_false_2 by done. simpl.
    destruct (bool_decide (wl_state w = inCTE) && _ && _) eqn:E1.
    { split; [|done]. intros Ho. apply wl_set_open in Ho. tauto. }
    destruct (isKeyword tok "with" && opensWithList prev) eqn:E2;
      (split; [|done]); [|by left].
    apply andb_true_iff in E2. by right.
Qed.

(** A name leaves a list expecting another only if it is the WITH that opens
    it, or the RECURSIVE after one. *)
Lemma wl_name_expecting w tokens k tok prev P :
  tracker_ok w -> expecting w P ->
  expecting (fst (wl_name w tokens k tok prev))
    ((isKeyword tok "with" = true /\ opensWithList prev = true) \/
     (P /\ isKeyword tok "recursive" = true /\ isKeyword prev "with" = true)).
Proof.
  intros Hok He. unfold wl_name.
  destruct (decide (wl_state w = expectCTEName)) as [E|E].
  - rewrite bool_decide_eq_true_2 by done. cbn [andb].
    destruct (isKeyword tok "recursive" && isKeyword prev "with") eqn:Er.
    { apply andb_true_iff in Er. intros d Hd. destruct (He d Hd). tauto. }
    destruct (isCTEDefinitionAt tokens k); by eapply wl_set_expecting.
  - rewrite bool_decide_eq_false_2 by done. cbn [andb].
    destruct (bool_decide (wl_state w = inCTE) && _ && _); [by eapply wl_set_expecting|].
    destruct (isKeyword tok "with" && opensWithList prev) eqn:E2.
    { apply andb_true_iff in E2. eapply wl_set_expecting; [done..|]. tauto. }
    intros d Hd. cbn [fst] in Hd. destruct (He d Hd) as [-> _].
    rewrite (wl_state_lookup w Hok) in Hd. congruence.
Qed.

Lemma wl_openParen_open w prev b :
  lists_open (wl_openParen w prev b) -> lists_open w.
Proof.
  unfold wl_openParen. intros Ho. apply wl_set_open in Ho as [Ho|]; [|done].
  destruct Ho as (d & s & Hd & Hs). simpl in Hd.
  set (w0 := if _ : bool then wl_set w noWithList else w) in *.
  assert (lists_open w0) as Hw0.
  { destruct (_ =? _); [|by exists d, s].
    apply lookup_app_Some in Hd as [Hd|[_ Hd]]; [by exists d, s|].
    apply list_lookup_singleton_Some in Hd as [_ Hd]. congruence. }
  subst w0. destruct (_ || _); [|done]. apply wl_set_open in Hw0. tauto.
Qed.

Lemma wl_openParen_expecting w prev b P :
  tracker_ok w -> expecting w P -> expecting (wl_openParen w prev b) False.
Proof.
  intros Hok He d Hd. unfold wl_openParen in Hd.
  set (w0 := if _ : bool then wl_set w noWithList else w) in Hd.
  assert (forall d, lists w0 !! d = Some expectCTEName -> False) as Hw0.
  { intros d' Hd'. unfold w0 in Hd'. destruct (_ || _) eqn:E.
    - destruct (wl_set_lookup w _ _ _ Hok Hd') as [[_ ?]|[Hne Hd2]]; [done|].
      by destruct (He _ Hd2) as [-> _].
    - destruct (He _ Hd') as [-> _]. rewrite (wl_state_lookup w Hok) in Hd'.
      injection Hd' as Hst. by rewrite Hst in E. }
  exfalso. simpl in Hd. destruct (decide (d = depth w0 + 1)) as [->|Hne].
  - apply list_lookup_insert_Some in Hd as [(_ & ? & _)|(Hne & _)]; [done|lia].
  - rewrite list_lookup_insert_ne in Hd by done. destruct (_ =? _).
    + apply lookup_app_Some in Hd as [Hd|[_ Hd]]; [by eapply Hw0|].
      by apply list_lookup_singleton_Some in Hd as [_ ?].
    + by eapply Hw0.
Qed.

Definition not_calls_inv (tokens : list callToken) (n : nat)
    (st : withListTracker * list bool) : Prop :=
  tracker_ok (fst st) /\ length (snd st) = n /\
  (lists_open (fst st) -> exists m, m < n /\ opens_list tokens m) /\
  expecting (fst st) (name_expected tokens n) /\
  (forall k, snd st !! k = Some true -> not_a_call tokens k).

Lemma not_calls_inv_app tokens n w nc w' b :
  not_calls_inv tokens n (w, nc) -> tracker_ok w' ->
  (lists_open w' -> exists m, m < S n /\ opens_list tokens m) ->
  expecting w' (name_expected tokens (S n)) ->
  (b = true -> not_a_call tokens n) ->
  not_calls_inv tokens (S n) (w', nc ++ [b]).
Proof.
  intros (_ & Hlen & _ & _ & Hall) Hok Hop He Hb. simpl in *.
  split_and!; simpl; [done|rewrite length_app; simpl; lia|done|done|].
  intros k Hk. apply lookup_app_Some in Hk as [Hk|[Hge Hk]]; [by apply Hall|].
  apply list_lookup_singleton_Some in Hk as [Hk ->].
  replace k with n by lia. by apply Hb.
Qed.

Lemma expecting_mono w (P Q : Prop) : (P -> Q) -> expecting w P -> expecting w Q.
Proof. intros HPQ He d Hd. destruct (He d Hd). auto. Qed.

(** The name a list expects after token [n], a name. *)
Lemma name_expected_S tokens n tok :
  tokens !! n = Some tok ->
  (isKeyword tok "with" = true /\ opensWithList (prev_tok tokens n) = true) \/
  (name_expected tokens n /\ isKeyword tok "recursive" = true /\
   isKeyword (prev_tok tokens n) "with" = true) ->
  name_expected tokens (S n).
Proof.
  intros Htok [[Hw%keyword_spec Hs%list_start_spec]|(He & Hr%keyword_spec & Hp)].
  - apply expected_first. by exists tok.
  - apply prev_tok_keyword in Hp as (t & Hb & Hwith).
    inversion He as [j Hj|j t' Hj Ht' Hrec|m j t' Hm Hlt Ht' Hc]; subst; simpl in Hb.
    + by eapply expected_recursive.
    + rewrite Ht' in Hb. injection Hb as ->. destruct Hrec as (_ & _ & E), Hwith as (_ & _ & E').
      by rewrite E in E'.
    + rewrite Ht' in Hb. injection Hb as ->. destruct Hwith as (E & _). congruence.
Qed.

Lemma not_calls_inv_step tokens n st :
  n < length tokens -> not_calls_inv tokens n st ->
  not_calls_inv tokens (S n) (not_calls_step tokens st n).
Proof.
  destruct st as [w nc]. intros Hn Hinv.
  pose proof Hinv as (Hok & Hlen & Hop & He & Hall). simpl in *.
  pose proof (not_calls_step_ok tokens w nc n Hok) as Hok'.
  assert (lists_open w -> exists m, m < S n /\ opens_list tokens m) as Hop'.
  { intros Ho. destruct (Hop Ho) as (m & ? & ?). exists m. split; [lia|done]. }
  unfold not_calls_step in *.
  destruct (lookup_lt_is_Some_2 tokens n Hn) as [tok Htok]. rewrite Htok in *.
  destruct (kind tok) eqn:Hk; simpl in *;
    try (apply (not_calls_inv_app tokens n w nc); [done|done| | |done];
         [intros Ho; apply Hop'; try (apply wl_set_open in Ho; tauto)|
          try (by eapply wl_set_expecting)]).
  - pose proof (wl_name_open w tokens n tok (prev_tok tokens n)) as Hname.
    pose proof (wl_name_expecting w tokens n tok (prev_tok tokens n) _ Hok He) as Hexp.
    destruct (wl_name w tokens n tok (prev_tok tokens n)) as [w' cte].
    destruct Hname as [Hw' Hcte]. simpl in *.
    apply (not_calls_inv_app tokens n w nc); [done|done| | |].
    + intros Ho. destruct (Hw' Ho) as [?|[Hw%keyword_spec Hs%list_start_spec]]; [auto|].
      exists n. split; [lia|]. by exists tok.
    + eapply expecting_mono; [|exact Hexp]. by apply name_expected_S.
    + intros [Hc|Has]%orb_true_iff; [right|left; by apply prev_tok_keyword].
      destruct (Hcte Hc) as [Hst Hdef]. pose proof (wl_state_lookup w Hok) as Hl.
      rewrite Hst in Hl. split; [by apply (He _ Hl)|by apply cte_definition_spec].
  - by eapply wl_openParen_open.
  - eapply expecting_mono; [|by eapply wl_openParen_expecting]. done.
  - intros d Hd. simpl in Hd. destruct (decide (d = depth w)) as [->|Hne].
    + rewrite list_lookup_insert_eq in Hd by done. done.
    + rewrite list_lookup_insert_ne in Hd by done. by destruct (He d Hd) as [-> _].
  - unfold wl_comma in Ho. case_bool_decide as Hc; apply wl_set_open in Ho;
      [|tauto]. apply wl_state_open. by rewrite Hc.
  - unfold wl_comma. case_bool_decide as Hc; [|by eapply wl_set_expecting].
    eapply wl_set_expecting; [done..|]. intros _.
    destruct Hop as (m & Hm & Hopens); [apply wl_state_open; by rewrite Hc|].
    by eapply expected_next.
  - destruct Ho as (d & s & Hd & Hs). simpl in Hd.
    apply list_elem_of_lookup_2, list_elem_of_In, in_map_iff in Hd
      as (? & <- & _). done.
  - intros d Hd. simpl in Hd.
    apply list_elem_of_lookup_2, list_elem_of_In, in_map_iff in Hd as (? & ? & _). done.
Qed.

Lemma namesThatAreNotCalls_inv tokens n :
  n <= length tokens -> not_calls_inv tokens n (not_calls_upto tokens n).
Proof.
  induction n as [|n IH]; intros Hn.
  - split_and!; [unfold tracker_ok; simpl; lia|done| | |done].
    + intros (d & s & Hd & Hs). destruct d; [by injection Hd as <-|done].
    + intros d Hd. by destruct d.
  - rewrite not_calls_upto_S. apply not_calls_inv_step; [lia|]. apply IH. lia.
Qed.

(** What the detector rules out of the tokens. *)
Definition calls_nothing (tokens : list callToken) : Prop :=
  forall k tok, tokens !! k = Some tok -> kind tok = nameToken ->
    (after_kind tokens k openParenToken -> names_listed tokens k tok -> not_a_call tokens k) /\
    (~ after_kind tokens k openParenToken -> forall t, before tokens k = Some t ->
     kind t = dotToken -> ~ field_listed (text tok)).

Lemma after_kind_spec tokens k c :
  tok_at tokens (k + 1) (kind_is c) = true <-> after_kind tokens k c.
Proof.
  rewrite tok_at_spec. unfold after_kind. split; intros (t & ? & Hk); exists t; split; try done;
    by apply kind_is_spec.
Qed.

Lemma detector_sound tokens :
  existsb (calls_at tokens (namesThatAreNotCalls tokens)) (seq 0 (length tokens)) = false ->
  calls_nothing tokens.
Proof.
  intros Hno k tok Hk Hkind.
  assert (calls_at tokens (namesThatAreNotCalls tokens) k = false) as Hc.
  { apply not_true_iff_false. intros Hc. apply not_true_iff_false in Hno.
    apply Hno, existsb_exists. exists k. split; [|done].
    apply in_seq. apply lookup_lt_Some in Hk. lia. }
  destruct (namesThatAreNotCalls_inv tokens (length tokens) ltac:(lia))
    as (_ & Hlen & _ & _ & Hnot).
  unfold calls_at, kind_is at 1 in Hc. rewrite Hk, bool_decide_eq_true_2 in Hc by done.
  simpl in Hc. rewrite <- after_kind_spec. destruct (tok_at tokens (k + 1) _); split.
  - intros _ Hcall%names_listed_spec. rewrite Hcall, andb_true_r in Hc. apply negb_false_iff in Hc.
    apply Hnot. unfold namesThatAreNotCalls in Hc.
    destruct (snd (not_calls_upto tokens (length tokens)) !! k) as [[]|];
      simpl in Hc; done.
  - done.
  - done.
  - intros _ t Hb Hdot Hf%field_listed_spec. destruct k as [|k]; [done|]. simpl in Hb, Hc.
    rewrite Nat.sub_0_r in Hc. unfold tok_at in Hc. rewrite Hb in Hc.
    unfold kind_is in Hc. by rewrite bool_decide_eq_true_2, Hf in Hc.
Qed.

(** A statement in whose tokens no listed name is called or selected, whatever
    stands around it, is passed. *)
Definition names_nothing (tokens : list callToken) : Prop :=
  forall k tok, tokens !! k = Some tok -> kind tok = nameToken ->
    (after_kind tokens k openParenToken -> ~ names_listed tokens k tok) /\
    (forall t, before tokens k = Some t -> kind t = dotToken -> ~ field_listed (text tok)).

Lemma detector_complete tokens :
  names_nothing tokens ->
  existsb (calls_at tokens (namesThatAreNotCalls tokens)) (seq 0 (length tokens)) = false.
Proof.
  intros Hno. apply not_true_iff_false. intros (k & _ & Hc)%existsb_exists.
  unfold calls_at in Hc. destruct (tokens !! k) as [tok|] eqn:Hk; [|done].
  destruct (kind_is nameToken tok) eqn:Hn; [|done]. simpl in Hc. apply kind_is_spec in Hn.
  destruct (Hno k tok Hk Hn) as [Hcall Hfield].
  destruct (tok_at tokens (k + 1) _) eqn:Ep.
  - apply andb_true_iff in Hc as [_ Hc%names_listed_spec]. apply after_kind_spec in Ep. by apply Hcall.
  - destruct k as [|k]; [done|]. simpl in Hc. rewrite Nat.sub_0_r in Hc.
    apply andb_true_iff in Hc as [Hd Hf%field_listed_spec].
    apply tok_at_spec in Hd as (t & Ht & Hdot%kind_is_spec). by eapply Hfield.
Qed.

(** A listed call that the grammar does read as a call is found. *)
Lemma listed_call_found tokens k tok :
  tokens !! k = Some tok -> kind tok = nameToken ->
  tok_at tokens (k + 1) (kind_is openParenToken) = true ->
  callsWithParenthesis tokens k tok = true -> ~ not_a_call tokens k ->
  existsb (calls_at tokens (namesThatAreNotCalls tokens))
          (seq 0 (length tokens)) = true.
Proof.
  intros Hk Hkind Hp%after_kind_spec Hc%names_listed_spec Hn. apply not_false_iff_true.
  intros Hno%detector_sound. destruct (Hno k tok Hk Hkind) as [Hcall _]. auto.
Qed.

(** ** Tokenizing *)

Section Tokenize.
Context `{UnicodeCase}.

Lemma decode_dec s :
  decreases (fun st => length s - snd st) (decode_step s).
Proof.
  intros [b i] [b' i']. unfold decode_step.
  destruct (s !! i) as [c|] eqn:E; [|done]. apply lookup_lt_Some in E.
  destruct (negb _); [intros [= <- <-]; simpl; lia|].
  destruct (byte_at s (i + 1) backslash); [intros [= <- <-]; simpl; lia|].
  destruct (byte_at s (i + 1) "+"); simpl; destruct (_ <? _); try done;
    destruct (ParseHex _); try done; destruct (_ || _); try done;
    intros [= <- <-]; simpl; lia.
Qed.

Lemma word_progress sql i ch :
  sql !! i = Some ch -> IsIdentChar ch = true ->
  i + 1 <= scan_while word_char sql i.
Proof.
  intros Hc Hi. apply scan_while_step. unfold test_at, word_char.
  by rewrite Hc, Hi.
Qed.

Lemma tokenize_dec sql r :
  decreases (fun st => length sql - snd st) (tokenize_step sql r).
Proof.
  intros [toks i] [toks' i']. unfold tokenize_step.
  destruct (sql !! i) as [ch|] eqn:E; [|done].
  pose proof (lookup_lt_Some _ _ _ E) as Hi.
  destruct (IsSQLSpace ch); [intros [= <- <-]; simpl; lia|].
  pose proof (SkipNonCode_range sql i r Hi).
  destruct (Nat.eqb_spec (SkipNonCode sql i r) i) as [Hj|Hj]; simpl.
  - destruct (IsIdentChar ch) eqn:Hch; [|intros [= <- <-]; simpl; lia].
    pose proof (word_progress sql i ch E Hch).
    destruct (bytes_eqb _ _); [done|]. intros [= <- <-]. simpl. lia.
  - destruct (quotedIdentifierAt sql i _); try done;
      split_ifs; intros [= <- <-]; simpl; lia.
Qed.

Definition tz (sql : bytes) (r : StringReading)
    (st : list callToken * nat) : option (list callToken) :=
  run (fun st => length sql - snd st) (tokenize_step sql r) None st.

Lemma tz_eq sql r st :
  tz sql r st = match tokenize_step sql r st with
                | inl st' => tz sql r st' | inr x => x end.
Proof. apply run_unfold, tokenize_dec. Qed.

(** Tokens are only ever appended. *)
Lemma tz_prefix sql r st tokens :
  tz sql r st = Some tokens -> exists more, tokens = fst st ++ more.
Proof.
  revert tokens. unfold tz. revert st.
  apply (run_ind _ _ None (fun st x => forall tokens, x = Some tokens ->
    exists more, tokens = fst st ++ more) (tokenize_dec sql r)).
  - intros [toks i] x E tokens ->. unfold tokenize_step in E.
    destruct (sql !! i); [|injection E as <-; exists []; by rewrite app_nil_r].
    repeat (case_match; try done).
  - intros [toks i] [toks' i'] x E IH tokens Hx.
    destruct (IH tokens Hx) as [more ->]. unfold tokenize_step in E. simpl in *.
    destruct (sql !! i); [|done].
    repeat (case_match; try done); injection E as <- <-;
      rewrite <- ?app_assoc; eauto.
Qed.

(** *** The tokens of a statement

    What the token stream should hold, said with the lexical grammar's
    regions and without the tokenizer. *)

(** The text between the quotes: a final quote is the closing one. *)
Definition inner (body t : bytes) : Prop :=
  body = t ++ [dquote] \/ (body = t /\ last t <> Some dquote).

(** A doubled quote stands for one; the quote that ends an identifier never
    closed may be alone. *)
Inductive undoubled : bytes -> bytes -> Prop :=
| undoubled_nil : undoubled [] []
| undoubled_lone : undoubled [dquote] [dquote]
| undoubled_pair b n : undoubled b n -> undoubled (dquote :: dquote :: b) (dquote :: n)
| undoubled_char c b n : c <> dquote -> undoubled b n -> undoubled (c :: b) (c :: n)
| undoubled_alone c b n :
    c <> dquote -> undoubled (c :: b) n -> undoubled (dquote :: c :: b) (dquote :: n).

(** A code point that is a character: neither zero nor a surrogate. *)
Definition character (n : N) : Prop :=
  (0 < n <= 1114111)%N /\ ~ (55296 <= n <= 57343)%N.

(** The escapes of a Unicode identifier: a doubled backslash, four hexadecimal
    digits, or six after a plus sign. *)
Inductive decoded : bytes -> bytes -> Prop :=
| decoded_nil : decoded [] []
| decoded_char c b n : c <> backslash -> decoded b n -> decoded (c :: b) (c :: n)
| decoded_backslash b n : decoded b n -> decoded (backslash :: backslash :: b) (backslash :: n)
| decoded_four h cp b n :
    length h = 4 -> ParseHex h = Some cp -> character cp -> decoded b n ->
    decoded (backslash :: h ++ b) (encode_rune cp ++ n)
| decoded_six h cp b n :
    length h = 6 -> ParseHex h = Some cp -> character cp -> decoded b n ->
    decoded (backslash :: "+"%char :: h ++ b) (encode_rune cp ++ n).

Definition plain_ident (sql : bytes) (i : nat) : Prop := sql !! i = Some dquote.

Definition unicode_ident (sql : bytes) (i : nat) : Prop :=
  ~ after_name sql i /\ (sql !! i = Some "U"%char \/ sql !! i = Some "u"%char) /\
  sql !! (i + 1) = Some "&"%char /\ sql !! (i + 2) = Some dquote.

(** The quoted identifier from [i] to [e] names [name]. *)
Inductive ident_names (sql : bytes) (i e : nat) : bytes -> Prop :=
| names_plain t name :
    plain_ident sql i -> inner (slice (i + 1) e sql) t -> undoubled t name ->
    ident_names sql i e name
| names_unicode t u name :
    unicode_ident sql i -> inner (slice (i + 3) e sql) t -> undoubled t u -> decoded u name ->
    ident_names sql i e name.

Definition comment_opens (sql : bytes) (i : nat) : Prop :=
  (sql !! i = Some "-"%char /\ sql !! (i + 1) = Some "-"%char) \/
  (sql !! i = Some "/"%char /\ sql !! (i + 1) = Some "*"%char).

Definition word_byte (c : ascii) : Prop := name_byte c \/ c = "$"%char.

Inductive mark : ascii -> callTokenKind -> Prop :=
| mark_open : mark "(" openParenToken
| mark_close : mark ")" closeParenToken
| mark_dot : mark "." dotToken
| mark_comma : mark "," commaToken
| mark_semicolon : mark ";" semicolonToken
| mark_other c :
    c <> "("%char -> c <> ")"%char -> c <> "."%char -> c <> ","%char -> c <> ";"%char ->
    mark c otherToken.

(** [scans r sql i tokens]: the text from [i] on reads as [tokens].  Space and
    comments are dropped, a literal is one anonymous token, a quoted
    identifier and a word are names in lower case, and any other byte is a
    mark. *)
Inductive scans (r : StringReading) (sql : bytes) : nat -> list callToken -> Prop :=
| scans_end i : length sql <= i -> scans r sql i []
| scans_space i c l :
    sql !! i = Some c -> space_byte c -> scans r sql (i + 1) l -> scans r sql i l
| scans_comment i e l :
    comment_opens sql i -> region sql i r e -> scans r sql e l -> scans r sql i l
| scans_literal i e l :
    ~ comment_opens sql i -> ~ plain_ident sql i -> ~ unicode_ident sql i ->
    region sql i r e -> scans r sql e l -> scans r sql i (punct otherToken :: l)
| scans_identifier i e name l :
    region sql i r e -> ident_names sql i e name -> scans r sql e l ->
    scans r sql i ({| kind := nameToken; text := ToLower name; quoted := true;
                      numeric := false |} :: l)
| scans_word i c w rest n l :
    code_at sql r i -> drop i sql = (c :: w) ++ rest -> name_byte c -> Forall word_byte w ->
    (forall d, head rest = Some d -> ~ word_byte d) ->
    ToLower (c :: w) <> lit "uescape" -> (n = true <-> digit_byte c) ->
    scans r sql (i + length (c :: w)) l ->
    scans r sql i ({| kind := nameToken; text := ToLower (c :: w); quoted := false;
                      numeric := n |} :: l)
| scans_mark i c k l :
    code_at sql r i -> sql !! i = Some c -> ~ space_byte c -> ~ name_byte c -> mark c k ->
    scans r sql (i + 1) l -> scans r sql i (punct k :: l).

Lemma inner_spec body : inner body (TrimSuffixByte body dquote).
Proof.
  unfold inner, TrimSuffixByte. destruct (last body) as [x|] eqn:El.
  - apply last_Some in El as [t ->]. destruct (Ascii.eqb_spec x dquote) as [->|Hne].
    + left. rewrite length_app. replace (length t + length [dquote] - 1) with (length t) by (simpl; lia).
      by rewrite take_app_length.
    + right. split; [done|]. rewrite last_snoc. congruence.
  - right. split; [done|]. by rewrite El.
Qed.

Lemma undoubled_spec t : undoubled t (undouble dquote t).
Proof.
  remember (length t) as n eqn:Hn. revert t Hn.
  induction (lt_wf n) as [n _ IH]. intros [|x [|y t]] ->.
  - constructor.
  - simpl. destruct (decide (x = dquote)) as [->|]; by repeat constructor.
  - pose proof (IH (length t) ltac:(simpl; lia) t eq_refl) as Ht.
    pose proof (IH (length (y :: t)) ltac:(simpl; lia) (y :: t) eq_refl) as Hy.
    change (undouble dquote (x :: y :: t)) with
      (if Ascii.eqb x dquote && Ascii.eqb y dquote then dquote :: undouble dquote t
       else x :: undouble dquote (y :: t)).
    destruct (Ascii.eqb_spec x dquote) as [->|Hx]; [|by apply undoubled_char].
    destruct (Ascii.eqb_spec y dquote) as [->|Hy']; cbn [andb];
      [by apply undoubled_pair|by apply undoubled_alone].
Qed.

Lemma decoded_spec s b : decodeUnicodeEscapes s = Some b -> decoded s b.
Proof.
  unfold decodeUnicodeEscapes.
  cut (forall st x, x = run (fun st => length s - snd st) (decode_step s) None st ->
    x = Some b -> exists n, b = fst st ++ n /\ decoded (drop (snd st) s) n).
  { intros Hcut Hrun. destruct (Hcut ([], 0) _ eq_refl Hrun) as (n & -> & Hn). done. }
  intros st x ->. revert st.
  apply (run_ind _ _ None (fun st x => x = Some b -> exists n, b = fst st ++ n /\
    decoded (drop (snd st) s) n) (decode_dec s)).
  - intros [b' i] x E ->. unfold decode_step in E. exists []. rewrite app_nil_r. cbn [fst snd].
    destruct (s !! i) as [c|] eqn:Hc.
    { repeat (case_match; try done). }
    injection E as ->. apply lookup_ge_None in Hc. rewrite drop_ge by done. by repeat constructor.
  - intros [b' i] [b2 i2] x E IH Hx. destruct (IH Hx) as (n & -> & Hn). clear IH Hx. cbn [fst snd] in *.
    unfold decode_step in E. destruct (s !! i) as [c|] eqn:Hc; [|done].
    rewrite (drop_S _ _ _ Hc).
    destruct (Ascii.eqb_spec c backslash) as [->|Hne]; simpl in E.
    2:{ injection E as <- <-. exists (c :: n). split; [by rewrite <- app_assoc|].
        rewrite Nat.add_1_r in Hn. by constructor. }
    destruct (byte_at s (i + 1) backslash) eqn:Eb.
    { injection E as <- <-. exists (backslash :: n). split; [by rewrite <- app_assoc|].
      apply byte_at_Some in Eb. rewrite Nat.add_1_r in Eb. rewrite (drop_S _ _ _ Eb).
      replace (i + 2) with (S (S i)) in Hn by lia. by constructor. }
    assert (forall j digits, (if length s <? j + digits then inr None
        else match ParseHex (slice j (j + digits) s) with
             | None => inr None
             | Some n => if ((n =? 0) || (1114111 <? n) || ((55296 <=? n) && (n <=? 57343)))%N
                 then inr None else inl (b' ++ encode_rune n, j + digits)
             end) = (inl (b2, i2) : _ + option bytes) ->
      exists h cp, length h = digits /\ ParseHex h = Some cp /\ character cp /\
        b2 = b' ++ encode_rune cp /\ drop j s = h ++ drop i2 s) as Hhex.
    { intros j digits Hj. destruct (Nat.ltb_spec (length s) (j + digits)); [done|].
      destruct (ParseHex _) as [cp|] eqn:Ep; [|done]. destruct (_ || _)%bool eqn:Ev; [done|].
      injection Hj as <- <-. exists (slice j (j + digits) s), cp.
      split_and!; [rewrite slice_length by lia; lia|done| |done|apply drop_split; lia].
      apply orb_false_iff in Ev as [[Ez%N.eqb_neq Eh%N.ltb_ge]%orb_false_iff Es].
      split; [lia|]. intros [H1 H2]. apply N.leb_le in H1, H2. by rewrite H1, H2 in Es. }
    destruct (byte_at s (i + 1) "+") eqn:Ep.
    + destruct (Hhex _ _ E) as (h & cp & Hlen & Hp & Hch & -> & Hd).
      exists (encode_rune cp ++ n). split; [by rewrite app_assoc|].
      apply byte_at_Some in Ep. rewrite Nat.add_1_r in Ep. rewrite (drop_S _ _ _ Ep).
      replace (S (S i)) with (i + 2) by lia. rewrite Hd. by econstructor.
    + destruct (Hhex _ _ E) as (h & cp & Hlen & Hp & Hch & -> & Hd).
      exists (encode_rune cp ++ n). split; [by rewrite app_assoc|].
      rewrite <- Nat.add_1_r, Hd. by econstructor.
Qed.

Lemma unicode_ident_spec sql i :
  sql !! i <> Some dquote -> ContinuesIdentifier sql i = false ->
  (literalPrefix sql i = (2, quotedIdentifier) /\ unicode_ident sql i) \/
  (((fst (literalPrefix sql i) =? 0) ||
    negb (bool_decide (snd (literalPrefix sql i) = quotedIdentifier)) = true) /\
   ~ unicode_ident sql i).
Proof.
  intros Hq Hc%not_after_name_spec. unfold literalPrefix, unicode_ident.
  destruct (sql !! i) as [c|]; [|by right; split; [|intros (_ & [|] & _)]].
  destruct (sql !! (i + 1)) as [d|]; [|by right; split; [|intros (_ & _ & ? & _)]].
  destruct (Ascii.eqb c "E" || Ascii.eqb c "e") eqn:Ee.
  { right. split; [by destruct (Ascii.eqb d squote)|].
    intros (_ & [[= ->]|[= ->]] & _); done. }
  destruct (Ascii.eqb c "B" || Ascii.eqb c "b" || Ascii.eqb c "X" || Ascii.eqb c "x") eqn:Eb.
  { right. split; [by destruct (Ascii.eqb d squote)|].
    intros (_ & [[= ->]|[= ->]] & _); done. }
  destruct (Ascii.eqb c "N" || Ascii.eqb c "n") eqn:En.
  { right. split; [by destruct (Ascii.eqb d squote)|].
    intros (_ & [[= ->]|[= ->]] & _); done. }
  destruct (Ascii.eqb c "U" || Ascii.eqb c "u") eqn:Eu.
  2:{ right. split; [done|]. intros (_ & [[= ->]|[= ->]] & _); done. }
  destruct (Ascii.eqb_spec d "&") as [->|Hd].
  2:{ right. split; [done|]. intros (_ & _ & [= ?] & _). done. }
  destruct (byte_at sql (i + 2) squote) eqn:Es.
  { right. split; [done|]. apply byte_at_Some in Es. intros (_ & _ & _ & E). by rewrite Es in E. }
  destruct (byte_at sql (i + 2) dquote) eqn:Ed.
  - left. split; [done|]. apply byte_at_Some in Ed. split_and!; try done.
    apply orb_true_iff in Eu as [->%Ascii.eqb_eq| ->%Ascii.eqb_eq]; auto.
  - right. split; [done|]. intros (_ & _ & _ & E%byte_at_Some). congruence.
Qed.

(** What the identifier reader makes of a region. *)
Lemma quotedIdentifierAt_spec sql i e :
  match quotedIdentifierAt sql i e with
  | identName name => exists n, name = ToLower n /\ ident_names sql i e n
  | notIdent => ~ plain_ident sql i /\ ~ unicode_ident sql i
  | undecodable => True
  end.
Proof.
  unfold quotedIdentifierAt, plain_ident. destruct (byte_at sql i dquote) eqn:Eq.
  - eexists. split; [done|]. apply byte_at_Some in Eq.
    eapply names_plain; [done|apply inner_spec|apply undoubled_spec].
  - assert (sql !! i <> Some dquote) as Hq by (rewrite <- byte_at_Some; congruence).
    destruct (ContinuesIdentifier sql i) eqn:Ec; simpl.
    { split; [done|]. intros [Ha _]. by apply Ha, after_name_spec. }
    destruct (unicode_ident_spec sql i Hq Ec) as [[Hl Hu]|[Hl Hu]].
    + rewrite Hl. simpl. replace (i + 2 + 1) with (i + 3) by lia.
      destruct (decodeUnicodeEscapes _) as [n|] eqn:Ed; [|done].
      eexists. split; [done|]. eapply names_unicode; [done|apply inner_spec|apply undoubled_spec|].
      by apply decoded_spec.
    + destruct (literalPrefix sql i) as [len kd]. cbn [fst snd] in Hl. by rewrite Hl.
Qed.

Lemma comment_opens_spec sql i : isCommentStart sql i = true <-> comment_opens sql i.
Proof.
  unfold isCommentStart, comment_opens. by rewrite orb_true_iff, !andb_true_iff, !byte_at_Some.
Qed.

Lemma mark_spec c : mark c (punctuationKind c).
Proof.
  unfold punctuationKind.
  repeat match goal with |- context [Ascii.eqb c ?x] =>
    destruct (Ascii.eqb_spec c x) as [->|]; [constructor|] end.
  by constructor.
Qed.

Lemma word_byte_spec c : word_char c = true <-> word_byte c.
Proof. unfold word_char, word_byte. by rewrite orb_true_iff, name_spec, Ascii.eqb_eq. Qed.

Lemma word_split sql i c :
  sql !! i = Some c -> IsIdentChar c = true ->
  let e := scan_while word_char sql i in
  exists w, slice i e sql = c :: w /\ e = i + length (c :: w) /\
    drop i sql = (c :: w) ++ drop e sql /\ Forall word_byte w /\
    (forall d, head (drop e sql) = Some d -> ~ word_byte d).
Proof.
  intros Hc Hi e. pose proof (word_progress sql i c Hc Hi) as Hp. fold e in Hp.
  pose proof (lookup_lt_Some _ _ _ Hc) as Hlt.
  destruct (scan_while_spec word_char sql i) as (_ & Hle & Hall & Hend). fold e in Hle, Hall, Hend.
  specialize (Hle ltac:(lia)).
  pose proof (drop_split sql i e ltac:(lia)) as Hd.
  pose proof (slice_length i e sql) as Hlen.
  pose proof (slice_Forall word_char sql i e Hall) as Hw.
  destruct (slice i e sql) as [|c' w]; [simpl in Hlen; lia|].
  rewrite (drop_S _ _ _ Hc) in Hd. injection Hd as <- Hd. exists w.
  split_and!; [done|rewrite Hlen; lia| | |].
  - rewrite (drop_S _ _ _ Hc). cbn. by f_equal.
  - apply Forall_cons in Hw as [_ Hw]. eapply Forall_impl; [exact Hw|]. intros d. apply word_byte_spec.
  - intros d Hhead Hb%word_byte_spec. unfold test_at in Hend.
    destruct (drop e sql) as [|x t] eqn:Ed; [done|]. injection Hhead as ->. look Ed.
    rewrite Hl in Hend. congruence.
Qed.

(** One step of the tokenizer is one rule of the grammar. *)
Lemma tokenize_step_scans sql r toks i :
  match tokenize_step sql r (toks, i) with
  | inl (toks', i') => exists new, toks' = toks ++ new /\
      forall l, scans r sql i' l -> scans r sql i (new ++ l)
  | inr (Some toks') => toks' = toks /\ scans r sql i []
  | inr None => True
  end.
Proof.
  unfold tokenize_step. destruct (sql !! i) as [ch|] eqn:Hc.
  2:{ split; [done|]. apply scans_end. by apply lookup_ge_None. }
  destruct (IsSQLSpace ch) eqn:Hs.
  { exists []. rewrite app_nil_r. split; [done|]. intros l Hl. apply space_spec in Hs.
    by eapply scans_space. }
  destruct (Nat.eqb_spec (SkipNonCode sql i r) i) as [Hj|Hj]; cbn [negb].
  - apply code_at_skip in Hj. destruct (IsIdentChar ch) eqn:Hi.
    + destruct (word_split sql i ch Hc Hi) as (w & Hw & He & Hd & Hf & Hhead).
      rewrite Hw. destruct (bytes_eqb (ToLower (ch :: w)) (lit "uescape")) eqn:Eu; [done|].
      eexists. split; [done|]. intros l Hl. rewrite He in Hl, Hd, Hhead.
      eapply scans_word; try done; [by apply name_spec| |by apply digit_spec].
      intros E. unfold bytes_eqb in Eu. by apply bool_decide_eq_false in Eu.
    + eexists. split; [done|]. intros l Hl.
      eapply scans_mark; try done; [| |apply mark_spec].
      * rewrite <- space_spec. congruence.
      * rewrite <- name_spec. congruence.
  - pose proof (proj2 (region_skip sql r i _) (conj eq_refl Hj)) as Hr.
    pose proof (quotedIdentifierAt_spec sql i (SkipNonCode sql i r)) as Hq.
    destruct (quotedIdentifierAt sql i _) as [| |name]; [|done|].
    + destruct Hq as [Hp Hu]. destruct (isCommentStart sql i) eqn:Ec.
      * exists []. rewrite app_nil_r. split; [done|]. intros l Hl.
        eapply scans_comment; [by apply comment_opens_spec|done|done].
      * eexists. split; [done|]. intros l Hl. eapply scans_literal; try done.
        rewrite <- comment_opens_spec. congruence.
    + destruct Hq as (n & -> & Hn). eexists. split; [done|]. intros l Hl. by eapply scans_identifier.
Qed.

(** The tokenizer reads what the grammar derives. *)
Lemma tz_scans sql r st tokens :
  tz sql r st = Some tokens ->
  exists more, tokens = fst st ++ more /\ scans r sql (snd st) more.
Proof.
  revert tokens. unfold tz. revert st.
  apply (run_ind _ _ None (fun st x => forall tokens, x = Some tokens ->
    exists more, tokens = fst st ++ more /\ scans r sql (snd st) more) (tokenize_dec sql r)).
  - intros [toks i] x E tokens ->. pose proof (tokenize_step_scans sql r toks i) as Hs.
    rewrite E in Hs. destruct Hs as [-> Hs]. exists []. by rewrite app_nil_r.
  - intros [toks i] [toks' i'] x E IH tokens Hx. pose proof (tokenize_step_scans sql r toks i) as Hs.
    rewrite E in Hs. destruct Hs as (new & -> & Hs). destruct (IH tokens Hx) as (more & -> & Hm).
    exists (new ++ more). cbn [fst snd]. split; [by rewrite <- app_assoc|]. by apply Hs.
Qed.

(** The detector on any text. *)
Lemma detector_text sql r :
  CallsSideEffectingFunction sql r = false ->
  exists tokens, scans r sql 0 tokens /\ calls_nothing tokens.
Proof.
  unfold CallsSideEffectingFunction. change (tokenizeForCalls sql r) with (tz sql r ([], 0)).
  destruct (tz sql r ([], 0)) as [tokens|] eqn:E; [|done]. intros Hno%detector_sound.
  apply tz_scans in E as (more & -> & Hs). by exists more.
Qed.

End Tokenize.

(** ** From text to calls *)

(** White space and block comments, which the token stream does not show. *)
Inductive blank_text : bytes -> Prop :=
| blank_nil : blank_text []
| blank_space c g : IsSQLSpace c = true -> blank_text g -> blank_text (c :: g)
| blank_comment b g :
    comment_body 1 b -> blank_text g ->
    blank_text ("/"%char :: "*"%char :: b ++ g).

(** An unquoted word of two or more letters, digits or underscores. *)
Definition plain_word (w : bytes) : Prop :=
  2 <= length w /\ Forall (fun c => IsIdentChar c = true) w.

Lemma SkipNonCode_plain s i r c t :
  drop i s = c :: t -> IsSQLSpace c = false ->
  c <> squote -> c <> dquote -> c <> "$"%char -> c <> "-"%char ->
  c <> "/"%char ->
  head t <> Some squote -> head t <> Some "&"%char ->
  SkipNonCode s i r = i.
Proof.
  intros H Hsp H1 H2 H3 H4 H5 Hq Ha. look H.
  assert (IsQuoteStart s i = false) as Hqs.
  { unfold IsQuoteStart. rewrite !(byte_at_suffix s i _ _ _ H).
    rewrite !(proj2 (Ascii.eqb_neq _ _)) by done. simpl.
    destruct (ContinuesIdentifier s i); [done|].
    unfold literalPrefix. rewrite Hl.
    destruct t as [|d t]; [by rewrite (drop_nil_lookup _ _ Ht)|].
    look Ht. rewrite Hl0. simpl in Hq, Ha.
    rewrite !(proj2 (Ascii.eqb_neq d _)) by congruence. by split_ifs. }
  unfold SkipNonCode, ScanDollarTag. rewrite Hqs, !(byte_at_suffix s i _ _ _ H).
  by rewrite !(proj2 (Ascii.eqb_neq c _)) by done.
Qed.

Lemma ident_char_facts c :
  IsIdentChar c = true ->
  IsSQLSpace c = false /\ c <> squote /\ c <> dquote /\ c <> "$"%char /\
  c <> "-"%char /\ c <> "/"%char /\ c <> "&"%char.
Proof. by destruct c as [[] [] [] [] [] [] [] []]. Qed.

Section Text.
Context `{UnicodeCase}.

Definition word_token (w : bytes) : callToken :=
  {| kind := nameToken; text := ToLower w; quoted := false;
     numeric := match w with c :: _ => is_digit c | [] => false end |}.

Lemma tz_word sql r toks i w rest :
  drop i sql = w ++ rest -> plain_word w ->
  (forall c, head rest = Some c -> word_char c = false) ->
  ToLower w <> lit "uescape" ->
  tz sql r (toks, i) = tz sql r (toks ++ [word_token w], i + length w).
Proof.
  intros Hd [Hlen Hw] Hrest Hu. rewrite tz_eq.
  assert (scan_while word_char sql i = i + length w) as Hscan.
  { apply (scan_while_app word_char sql i w rest); [done| |done].
    eapply Forall_impl; [done|]. intros c Hc. unfold word_char. by rewrite Hc. }
  assert (slice i (i + length w) sql = w) as Hslice.
  { unfold slice. rewrite Hd. replace (i + length w - i) with (length w) by lia.
    apply take_app_length. }
  destruct w as [|c [|d w]]; [simpl in Hlen; lia..|].
  apply Forall_cons in Hw as [Hc Hw]. apply Forall_cons in Hw as [Hd' Hw].
  destruct (ident_char_facts c Hc) as (? & ? & ? & ? & ? & ? & ?).
  destruct (ident_char_facts d Hd') as (? & ? & ? & ? & ? & ? & ?).
  simpl in Hd. look Hd. unfold tokenize_step. rewrite Hl, H0.
  rewrite (SkipNonCode_plain sql i r _ _ Hd) by (done || simpl; congruence).
  rewrite Nat.eqb_refl. simpl. rewrite Hc, Hscan, Hslice.
  unfold bytes_eqb. rewrite bool_decide_eq_false_2 by done. done.
Qed.

Lemma tz_blank sql r toks g rest :
  blank_text g -> forall i, drop i sql = g ++ rest ->
  tz sql r (toks, i) = tz sql r (toks, i + length g).
Proof.
  induction 1 as [|c g Hc Hg IH|b g Hb Hg IH]; intros i Hd.
  - by rewrite Nat.add_0_r.
  - simpl in Hd. look Hd. rewrite tz_eq. unfold tokenize_step. rewrite Hl, Hc.
    rewrite (IH (i + 1)) by done. do 2 f_equal. simpl. lia.
  - simpl in Hd. rewrite <- app_assoc in Hd. look Hd. rewrite tz_eq.
    unfold tokenize_step. rewrite Hl. simpl.
    destruct (skip_comment_exact sql i r b (g ++ rest)) as [Hs _].
    rewrite (Hs Hb Hd). clear Hs.
    rewrite (proj2 (Nat.eqb_neq (i + 2 + length b) i)) by lia. simpl.
    assert (quotedIdentifierAt sql i (i + 2 + length b) = notIdent) as ->.
    { unfold quotedIdentifierAt. rewrite (byte_at_suffix sql i _ _ _ Hd).
      simpl. destruct (ContinuesIdentifier sql i); [done|]. simpl.
      unfold literalPrefix. rewrite Hl. by destruct (sql !! (i + 1)). }
    unfold isCommentStart. rewrite !(byte_at_suffix sql i _ _ _ Hd).
    rewrite !(byte_at_suffix sql (i + 1) _ _ _ Ht). simpl.
    rewrite (IH (i + 2 + length b)).
    + rewrite length_app. do 2 f_equal. lia.
    + apply (drop_app_suffix sql i ("/"%char :: "*"%char :: b)) in Hd.
      rewrite <- Hd. f_equal. simpl. lia.
Qed.

Lemma tz_paren sql r toks i rest :
  drop i sql = "("%char :: rest ->
  tz sql r (toks, i) = tz sql r (toks ++ [punct openParenToken], i + 1).
Proof.
  intros Hd. look Hd. rewrite tz_eq. unfold tokenize_step. rewrite Hl. simpl.
  assert (SkipNonCode sql i r = i) as ->.
  { unfold SkipNonCode, IsQuoteStart, ScanDollarTag, literalPrefix.
    rewrite !(byte_at_suffix sql i _ _ _ Hd), Hl. simpl.
    by destruct (ContinuesIdentifier sql i), (sql !! (i + 1)). }
  by rewrite Nat.eqb_refl.
Qed.

Lemma blank_head g rest c :
  blank_text g -> head (g ++ "("%char :: rest) = Some c ->
  word_char c = false.
Proof.
  destruct 1 as [|c' g Hc Hg|b g Hb Hg]; simpl; intros [= <-]; try done.
  unfold word_char. revert Hc. by destruct c' as [[] [] [] [] [] [] [] []].
Qed.

Lemma blank_head_nonempty g rest c :
  blank_text g -> g <> [] -> head (g ++ rest) = Some c ->
  word_char c = false.
Proof.
  destruct 1 as [|c' g Hc Hg|b g Hb Hg]; simpl; intros Hne; [done|..];
    intros [= <-]; try done.
  unfold word_char. revert Hc. by destruct c' as [[] [] [] [] [] [] [] []].
Qed.

Lemma not_uescape w :
  isSideEffectingFunctionName (ToLower w) = true -> ToLower w <> lit "uescape".
Proof. intros Hw E. rewrite E in Hw. by vm_compute in Hw. Qed.

(** A SELECT whose first expression calls a listed function is always
    reported, however the name is capitalised, whatever white space and
    comments stand before it and before its parenthesis, whatever text
    follows, and under both readings of a literal. *)
Theorem select_call_detected r sp w g rest :
  blank_text sp -> sp <> [] -> blank_text g -> plain_word w ->
  isSideEffectingFunctionName (ToLower w) = true ->
  CallsSideEffectingFunction
    (lit "SELECT" ++ sp ++ w ++ g ++ "("%char :: rest) r = true.
Proof.
  intros Hsp Hne Hg Hw Hlist. set (sql := lit "SELECT" ++ _).
  unfold CallsSideEffectingFunction.
  change (tokenizeForCalls sql r) with (tz sql r ([], 0)).
  assert (plain_word (lit "SELECT")) as Hsel
    by (split; [simpl; lia|by repeat constructor]).
  rewrite (tz_word sql r [] 0 (lit "SELECT") (sp ++ w ++ g ++ "("%char :: rest))
    by (done || (intros c; by apply blank_head_nonempty) || done).
  assert (drop (0 + length (lit "SELECT")) sql
            = sp ++ w ++ g ++ "("%char :: rest) as H1 by done.
  rewrite (tz_blank sql r _ sp _ Hsp _ H1). apply drop_app_suffix in H1.
  rewrite (tz_word sql r _ _ w _ H1 Hw (fun c => blank_head g rest c Hg)
             (not_uescape w Hlist)). apply drop_app_suffix in H1.
  rewrite (tz_blank sql r _ g _ Hg _ H1). apply drop_app_suffix in H1.
  rewrite (tz_paren sql r _ _ rest H1).
  destruct (tz sql r _) as [tokens|] eqn:E; [|done].
  destruct (tz_prefix sql r _ _ E) as [more ->].
  apply (listed_call_found _ 1 (word_token w)); try done.
  - unfold callsWithParenthesis. simpl. by rewrite Hlist.
  - intros [(t & [= <-] & _ & _ & Has)|[Hexp _]]; [by vm_compute in Has|].
    inversion Hexp as [j (tok & Htok & (_ & _ & Hwith) & _)| |m j t _ Hlt]; [|lia].
    injection Htok as <-. by vm_compute in Hwith.
Qed.
End Text.
