(* ===== verification/QueryGate.v ===== *)
(** * The read-only gate of the query endpoint
      (server/src/internal/api/query_handlers.go)

    [isReadOnlyStatement] decides whether a statement may run without write
    access and without a confirmation.  [harmless] says what such a statement
    is, in terms of the lexical and the call grammar only, and the gate is
    proved to pass nothing else. *)
From stdpp Require Import base list strings.
From Stdlib Require Import Ascii.
From S2P Require Import Prelude GoStrings SqlLexer LexGrammar LexStable.
From S2P Require Import SqlSplit SqlCalls.

Local Open Scope nat_scope.

(** ** Words *)

(** [sqlWords]: the state is the words and the index. *)
Definition words_step (s : bytes) (st : list bytes * nat)
    : (list bytes * nat) + list bytes :=
  let '(words, i) := st in
  match s !! i with
  | None => inr words
  | Some c =>
      if negb (IsIdentChar c) then inl (words, i + 1)
      else let e := scan_while IsIdentChar s i in
           inl (words ++ [slice i e s], e)
  end.

Definition sqlWords (s : bytes) : list bytes :=
  run (fun st => length s - snd st) (words_step s) [] ([], 0).

(** [containsSQLKeyword]: the state is [idx]. *)
Definition start_ok (s : bytes) (pos : nat) : bool :=
  (pos =? 0) || negb (test_at s (pos - 1) IsIdentChar).
Definition end_ok (s : bytes) (e : nat) : bool :=
  (length s <=? e) || negb (test_at s e IsIdentChar).

Definition keyword_step (s kw : bytes) (idx : nat) : nat + bool :=
  match Index (drop idx s) kw with
  | None => inr false
  | Some p =>
      let pos := p + idx in
      let e := pos + length kw in
      if start_ok s pos && end_ok s e then inr true else inl e
  end.

Definition containsSQLKeyword (upperSQL keyword : bytes) : bool :=
  run (fun idx => S (length upperSQL) - idx) (keyword_step upperSQL keyword)
      false 0.

(** The inner loop of [containsLockingClause], from the word after FOR. *)
Fixpoint locking_tail (words : list bytes) : bool :=
  match words with
  | [] => false
  | w :: ws =>
      if bytes_eqb w (lit "NO") || bytes_eqb w (lit "KEY") then locking_tail ws
      else bytes_eqb w (lit "UPDATE") || bytes_eqb w (lit "SHARE")
  end.

Fixpoint locking_words (words : list bytes) : bool :=
  match words with
  | [] => false
  | w :: ws =>
      (bytes_eqb w (lit "FOR") && locking_tail ws) || locking_words ws
  end.

Definition containsLockingClause (upperSQL : bytes) : bool :=
  locking_words (sqlWords upperSQL).

Definition hasWritingSelectClause (upperSQL : bytes) : bool :=
  containsSQLKeyword upperSQL (lit "INTO") || containsLockingClause upperSQL.

Definition nextSQLWord (s : bytes) : bytes * bytes :=
  let i := scan_while IsIdentChar s 0 in (take i s, drop i s).

(** [strings.EqualFold] against EXPLAIN, the only keyword it is given. *)
Definition hasKeywordPrefix (sql keyword : bytes) : bool :=
  if (length sql <? length keyword) ||
     negb (EqualFoldASCII (take (length keyword) sql) keyword) then false
  else (length sql =? length keyword) ||
       negb (test_at sql (length keyword) IsIdentChar).

(** ** EXPLAIN option lists *)

Definition explainNonExecutingOptions : list string :=
  ["VERBOSE"; "COSTS"; "SETTINGS"; "GENERIC_PLAN"; "BUFFERS"; "WAL";
   "TIMING"; "SUMMARY"; "MEMORY"; "SERIALIZE"; "FORMAT"]%string.

(** [splitExplainOptions]: the state is the depth, an [int] of the source,
    and the index; [None] is [ok = false]. *)
Definition explain_options_step (s : bytes) (reading : StringReading)
    (st : Z * nat) : (Z * nat) + option (bytes * bytes) :=
  let '(depth, i) := st in
  if i <? length s then
    let j := SkipNonCode s i reading in
    if negb (j =? i) then inl (depth, j)
    else if byte_at s i "(" then inl ((depth + 1)%Z, i + 1)
    else if byte_at s i ")" then
      if (depth - 1 =? 0)%Z then inr (Some (slice 1 i s, drop (i + 1) s))
      else inl ((depth - 1)%Z, i + 1)
    else inl (depth, i + 1)
  else inr None.

Definition splitExplainOptions (s : bytes) (reading : StringReading)
    : option (bytes * bytes) :=
  run (fun st => length s - snd st) (explain_options_step s reading) None
      (0%Z, 0).

(** [splitExplainOptionEntries]: the state is the entries, the depth, the
    start of the current entry and the index. *)
Definition explain_entries_step (s : bytes) (reading : StringReading)
    (st : list bytes * Z * nat * nat)
    : (list bytes * Z * nat * nat) + list bytes :=
  let '(entries, depth, start, i) := st in
  if i <? length s then
    let j := SkipNonCode s i reading in
    if negb (j =? i) then inl (entries, depth, start, j)
    else if byte_at s i "(" then inl (entries, (depth + 1)%Z, start, i + 1)
    else if byte_at s i ")" then inl (entries, (depth - 1)%Z, start, i + 1)
    else if byte_at s i "," && (depth =? 0)%Z then
      inl (entries ++ [slice start i s], depth, i + 1, i + 1)
    else inl (entries, depth, start, i + 1)
  else inr (entries ++ [drop start s]).

Definition splitExplainOptionEntries (options : bytes)
    (reading : StringReading) : list bytes :=
  let entries :=
    run (fun st => length options - snd st)
        (explain_entries_step options reading) [] ([], 0%Z, 0, 0) in
  match entries with
  | [x] => if bytes_eqb (TrimSpace (StripLeadingComments x)) [] then []
           else entries
  | _ => entries
  end.

(** ** Placeholders *)

Definition digit_1_9 (c : ascii) : bool := in_range 49 57 c.

Definition dollar_param_step (s : bytes) (reading : StringReading) (i : nat)
    : nat + bool :=
  if i <? length s then
    let j := SkipNonCode s i reading in
    if negb (j =? i) then inl j
    else if byte_at s i "$" && test_at s (i + 1) digit_1_9 then inr true
    else inl (i + 1)
  else inr false.

Definition containsDollarParamAs (s : bytes) (reading : StringReading)
    : bool :=
  run (fun i => length s - i) (dollar_param_step s reading) false 0.

Definition containsDollarParam (s : bytes) : bool :=
  existsb (containsDollarParamAs s) StringReadings.

Definition bind_placeholder_step (s : bytes) (reading : StringReading)
    (i : nat) : nat + bool :=
  if i <? length s then
    let j := SkipNonCode s i reading in
    if negb (j =? i) then inl j
    else if byte_at s i "$" && test_at s (i + 1) digit_1_9 &&
            negb (ContinuesIdentifier s i) then inr true
    else inl (i + 1)
  else inr false.

Definition containsBindPlaceholder (s : bytes) : bool :=
  existsb (fun reading =>
    run (fun i => length s - i) (bind_placeholder_step s reading) false 0)
    StringReadings.

Section Gate.
Context `{UnicodeCase}.

(** The text after leading comments, trimmed. *)
Definition body_of (sql : bytes) : bytes :=
  TrimSpace (StripLeadingComments sql).

Definition explainOptionsExecute (options : bytes)
    (reading : StringReading) : bool :=
  match splitExplainOptionEntries options reading with
  | [] => true
  | entries =>
      existsb (fun entry =>
        negb (text_in explainNonExecutingOptions
                (ToUpper (fst (nextSQLWord (body_of entry)))))) entries
  end.

(** The loop over the legacy option words: the state is [executes] and
    [rest]. *)
Definition explain_words_step (st : bool * bytes)
    : (bool * bytes) + (bool * bytes) :=
  let '(executes, rest) := st in
  let '(word, remainder) := nextSQLWord rest in
  if text_in ["ANALYZE"; "ANALYSE"]%string (ToUpper word) then
    inl (true, body_of remainder)
  else if text_in ["VERBOSE"]%string (ToUpper word) then
    inl (executes, body_of remainder)
  else inr (executes, rest).

(** [parseExplainHead]; [None] is [ok = false]. *)
Definition parseExplainHead (body : bytes) (reading : StringReading)
    : option (bool * bytes) :=
  let rest := body_of (drop (length (lit "EXPLAIN")) body) in
  if HasPrefix rest (lit "(") then
    match splitExplainOptions rest reading with
    | None => None
    | Some (options, remainder) =>
        Some (explainOptionsExecute options reading, body_of remainder)
    end
  else Some (run (fun st => length (snd st)) explain_words_step
                 (false, rest) (false, rest)).

Definition explainExecutes (body : bytes) : bool :=
  existsb (fun reading =>
    match parseExplainHead body reading with
    | None => true
    | Some (executes, _) => executes
    end) StringReadings.

Definition maxExplainDepth : nat := 8.

Definition dmlKeywords : list string :=
  ["INSERT"; "UPDATE"; "DELETE"; "MERGE"]%string.

(** [isReadOnlyExplain]: [recurse] is the call of
    [isReadOnlyStatementAtDepth] one level deeper, [None] when
    [depth >= maxExplainDepth]. *)
Definition isReadOnlyExplain (recurse : option (bytes -> bool))
    (body : bytes) (reading : StringReading) : bool :=
  match parseExplainHead body reading with
  | None => false
  | Some (executes, rest) =>
      if negb executes then true
      else if bytes_eqb rest [] then false
      else match recurse with None => false | Some f => f rest end
  end.

(** [isReadOnlyStatementAtDepth]: [left] is [maxExplainDepth - depth], so
    the recursion is structural. *)
Fixpoint isReadOnlyStatementAtDepth (left : nat) (sql : bytes)
    (reading : StringReading) : bool :=
  let body := body_of sql in
  if hasKeywordPrefix body (lit "EXPLAIN") then
    isReadOnlyExplain
      match left with
      | O => None
      | S left' => Some (fun rest =>
          isReadOnlyStatementAtDepth left' rest reading)
      end body reading
  else
    let upper := ToUpper (MaskNonCode body reading) in
    if HasPrefix upper (lit "WITH") then
      if existsb (fun kw => containsSQLKeyword upper (lit kw)) dmlKeywords
      then false
      else negb (hasWritingSelectClause upper) &&
           negb (CallsSideEffectingFunction body reading)
    else if HasPrefix upper (lit "SELECT") || HasPrefix upper (lit "TABLE ")
    then negb (hasWritingSelectClause upper) &&
         negb (CallsSideEffectingFunction body reading)
    else HasPrefix upper (lit "SHOW").

Definition splitStatementsAs (sql : bytes) (reading : StringReading)
    : list bytes := SplitStatements sql reading.

Definition splitStatements (sql : bytes) : list bytes :=
  splitStatementsAs sql StandardStrings.

Definition pieces_of (sql : bytes) (reading : StringReading) : list bytes :=
  match splitStatementsAs sql reading with
  | [] => [sql]
  | pieces => pieces
  end.

Definition isReadOnlyStatement (sql : bytes) : bool :=
  forallb (fun reading =>
    forallb (fun piece =>
      isReadOnlyStatementAtDepth maxExplainDepth piece reading)
      (pieces_of sql reading)) StringReadings.

Definition needsSimpleProtocol (statements : list bytes) : bool :=
  existsb (fun stmt => hasKeywordPrefix (body_of stmt) (lit "EXPLAIN") &&
                       containsDollarParam stmt) statements.

Definition hasLimitClause (sql : bytes) : bool :=
  containsSQLKeyword (ToUpper sql) (lit "LIMIT").
End Gate.

(** ** Words and keywords

    A word is a maximal run of identifier bytes.  [containsSQLKeyword] finds
    occurrences with [strings.Index] and tests the bytes around them, and
    [sqlWords] cuts the text at the non-identifier bytes; both see the same
    words. *)

Record word_at (s : bytes) (a e : nat) : Prop := {
  word_at_lt : a < e <= length s;
  word_at_ident : forall k, a <= k < e -> test_at s k IsIdentChar = true;
  word_at_start : start_ok s a = true;
  word_at_end : end_ok s e = true;
}.

Lemma start_ok_after (s : bytes) j :
  0 < j -> test_at s (j - 1) IsIdentChar = false -> start_ok s j = true.
Proof. intros Hj H. unfold start_ok. by rewrite H, orb_true_r. Qed.

Lemma start_ok_false (s : bytes) j :
  0 < j -> test_at s (j - 1) IsIdentChar = true -> start_ok s j = false.
Proof.
  intros Hj H. unfold start_ok. rewrite H, orb_false_r. apply Nat.eqb_neq. lia.
Qed.

Lemma end_ok_test (s : bytes) e : end_ok s e = negb (test_at s e IsIdentChar).
Proof.
  unfold end_ok. destruct (test_at s e IsIdentChar) eqn:E; [|by rewrite orb_true_r].
  apply test_at_lt in E. rewrite orb_false_r. apply Nat.leb_gt. lia.
Qed.

Lemma words_dec (s : bytes) :
  decreases (fun st : list bytes * nat => length s - snd st) (words_step s).
Proof.
  intros [ws i] [ws' i']. unfold words_step.
  destruct (s !! i) as [c|] eqn:E; [|done]. pose proof (lookup_lt_Some _ _ _ E).
  destruct (IsIdentChar c) eqn:Hc; intros [= <- <-]; simpl; [|lia].
  assert (test_at s i IsIdentChar = true) as Ht by (unfold test_at; by rewrite E).
  pose proof (scan_while_step _ _ _ Ht). lia.
Qed.

(** Two words that share a byte are the same. *)
Lemma word_at_unique (s : bytes) a e a' e' :
  word_at s a e -> word_at s a' e' -> a <= a' < e -> a = a' /\ e = e'.
Proof.
  intros [H1 I1 S1 E1] [H2 I2 S2 E2] Ha.
  assert (a' = a) as ->.
  { destruct (decide (a' = a)); [done|].
    rewrite (start_ok_false s a') in S2 by (lia || apply I1; lia). done. }
  split; [done|]. rewrite end_ok_test in *.
  destruct (lt_eq_lt_dec e e') as [[?|?]|?]; [|done|].
  - by rewrite I2 in E1 by lia.
  - by rewrite I1 in E2 by lia.
Qed.

Lemma word_at_scan (s : bytes) i :
  start_ok s i = true -> test_at s i IsIdentChar = true ->
  word_at s i (scan_while IsIdentChar s i).
Proof.
  intros Hs Ht. pose proof (scan_while_step _ _ _ Ht).
  destruct (scan_while_spec IsIdentChar s i) as (_ & H2 & H3 & H4).
  apply test_at_lt in Ht. constructor; [lia|done|done|].
  by rewrite end_ok_test, H4.
Qed.

(** The words from [i] on, [i] being where a word may start. *)
Definition word_from (s : bytes) (i : nat) (w : bytes) : Prop :=
  exists a e, i <= a /\ word_at s a e /\ w = slice a e s.

Lemma word_from_skip (s : bytes) i w :
  test_at s i IsIdentChar = false ->
  word_from s i w <-> word_from s (i + 1) w.
Proof.
  intros Ht. split; intros (a & e & Ha & Hw & ->); exists a, e.
  - split_and!; [|done|done]. destruct (decide (a = i)) as [->|]; [|lia].
    destruct Hw as [? Hi _ _]. rewrite Hi in Ht by lia. done.
  - split_and!; [lia|done|done].
Qed.

Lemma word_from_take (s : bytes) i w :
  start_ok s i = true -> test_at s i IsIdentChar = true ->
  let e := scan_while IsIdentChar s i in
  word_from s i w <-> w = slice i e s \/ word_from s e w.
Proof.
  intros Hs Ht e. pose proof (word_at_scan s i Hs Ht) as Hw. fold e in Hw.
  split.
  - intros (a & f & Ha & Hf & ->). destruct (decide (a < e)).
    + destruct (word_at_unique s i e a f Hw Hf ltac:(lia)) as [-> ->]. by left.
    + right. exists a, f. split_and!; [lia|done|done].
  - intros [->|(a & f & Ha & Hf & ->)]; [by exists i, e|].
    destruct Hw as [? _ _ _]. exists a, f. split_and!; [lia|done|done].
Qed.

Lemma sqlWords_from (s : bytes) w : w ∈ sqlWords s <-> word_from s 0 w.
Proof.
  cut (forall st : list bytes * nat, (start_ok s (snd st) = true \/
         test_at s (snd st) IsIdentChar = false) ->
    (w ∈ run (fun st => length s - snd st) (words_step s) [] st <->
     w ∈ fst st \/ word_from s (snd st) w)).
  { intros H. unfold sqlWords. rewrite (H ([], 0)) by (by left). simpl.
    rewrite elem_of_nil. tauto. }
  apply (run_ind _ _ [] (fun st x => (start_ok s (snd st) = true \/
      test_at s (snd st) IsIdentChar = false) ->
    (w ∈ x <-> w ∈ fst st \/ word_from s (snd st) w)) (words_dec s)).
  - intros [ws i] x E _. unfold words_step in E. simpl.
    destruct (s !! i) eqn:Hi; [by split_ifs|]. injection E as <-.
    apply lookup_ge_None in Hi. split; [by left|intros [?|(a & e & ? & [? _ _ _] & _)]; [done|lia]].
  - intros [ws i] [ws' i'] x E IH. simpl in *. intros Hs. unfold words_step in E.
    destruct (s !! i) as [c|] eqn:Hi; [|done].
    destruct (IsIdentChar c) eqn:Hc; injection E as <- <-.
    + assert (test_at s i IsIdentChar = true) as Ht by (unfold test_at; by rewrite Hi).
      destruct Hs as [Hs|Hs]; [|congruence].
      rewrite IH by (right; apply scan_while_spec).
      rewrite (word_from_take s i) by done. rewrite elem_of_app, list_elem_of_singleton. tauto.
    + assert (test_at s i IsIdentChar = false) as Ht by (unfold test_at; by rewrite Hi).
      rewrite IH; [by rewrite (word_from_skip s i)|]. left.
      apply start_ok_after; [lia|]. by replace (i + 1 - 1) with i by lia.
Qed.

(** An occurrence of an identifier text between non-identifier bytes is a
    word, and the search visits every one of them. *)
Definition ident_word (kw : bytes) : Prop :=
  kw <> [] /\ Forall (fun c => IsIdentChar c = true) kw.

Lemma HasPrefix_drop_slice (s : bytes) k p :
  HasPrefix (drop k s) p = true <->
  k + length p <= length s `max` k /\ slice k (k + length p) s = p.
Proof.
  unfold slice. replace (k + length p - k) with (length p) by lia.
  rewrite HasPrefix_spec. split.
  - intros [t Ht]. pose proof (f_equal length Ht) as Hl.
    rewrite length_drop, length_app in Hl. rewrite Ht, take_app_length.
    split; [lia|done].
  - intros [Hl Hp]. exists (drop (length p) (drop k s)).
    rewrite <- Hp at 1. by rewrite take_drop.
Qed.

Lemma prefix_ident (s kw : bytes) pos k :
  ident_word kw -> HasPrefix (drop pos s) kw = true ->
  pos <= k < pos + length kw -> test_at s k IsIdentChar = true.
Proof.
  intros [_ Hid] Hp Hk. apply HasPrefix_spec in Hp as [t Ht].
  unfold test_at. replace k with (pos + (k - pos)) by lia.
  rewrite <- lookup_drop, Ht, lookup_app_l by lia.
  destruct (kw !! (k - pos)) as [c|] eqn:E;
    [by apply (Forall_lookup_1 _ _ _ _ Hid E)|apply lookup_ge_None in E; lia].
Qed.

Lemma keyword_dec (s kw : bytes) :
  kw <> [] -> decreases (fun idx => S (length s) - idx) (keyword_step s kw).
Proof.
  intros Hkw i i'. unfold keyword_step.
  destruct (Index (drop i s) kw) as [p|] eqn:E; [|done]. split_ifs; [done|].
  intros [= <-]. apply Index_bound in E. rewrite length_drop in E.
  assert (0 < length kw) by (destruct kw; simpl; [done|lia]). lia.
Qed.

(** A standalone occurrence is a word. *)
Lemma standalone_word (s kw : bytes) pos :
  ident_word kw ->
  (HasPrefix (drop pos s) kw && start_ok s pos &&
   end_ok s (pos + length kw) = true) <->
  word_at s pos (pos + length kw) /\ slice pos (pos + length kw) s = kw.
Proof.
  intros Hkw. rewrite !andb_true_iff, HasPrefix_drop_slice.
  assert (0 < length kw) by (destruct Hkw, kw; simpl; [done|lia]).
  split.
  - intros [[[Hl Hs] H1] H2]. split; [|done]. constructor; [lia| |done|done].
    intros k Hk. apply (prefix_ident s kw pos k Hkw); [|done].
    by apply HasPrefix_drop_slice.
  - intros [[H1 H2 H3 H4] Hs]. split_and!; [lia|done..].
Qed.

Lemma keyword_found (s kw : bytes) :
  ident_word kw ->
  forall idx, run (fun idx => S (length s) - idx) (keyword_step s kw) false idx
              = true <->
    exists pos, idx <= pos /\ HasPrefix (drop pos s) kw && start_ok s pos &&
                              end_ok s (pos + length kw) = true.
Proof.
  intros Hkw. assert (kw <> []) as Hne by apply Hkw.
  apply (run_ind _ _ false (fun idx x => x = true <-> exists pos, idx <= pos /\
    HasPrefix (drop pos s) kw && start_ok s pos && end_ok s (pos + length kw)
      = true) (keyword_dec s kw Hne)).
  - intros i x E. unfold keyword_step in E.
    destruct (Index (drop i s) kw) as [p|] eqn:HI.
    + split_ifs; [|done]. injection E as <-. split; [|done]. intros _.
      exists (p + i). split; [lia|]. apply Index_Some in HI as (HI & _).
      rewrite drop_drop, Nat.add_comm in HI. rewrite HI. by rewrite <- andb_assoc.
    + injection E as <-. split; [done|]. intros (pos & Hp & Hh). exfalso.
      rewrite Index_None in HI. apply (standalone_word s kw pos Hkw) in Hh as Hw.
      destruct Hw as [[? _ _ _] _].
      specialize (HI (pos - i)). rewrite drop_drop, length_drop in HI.
      replace (i + (pos - i)) with pos in HI by lia. by rewrite HI in Hh by lia.
  - intros i i' x E IH. rewrite IH. clear IH. unfold keyword_step in E.
    destruct (Index (drop i s) kw) as [p|] eqn:HI; [|done].
    destruct (start_ok s (p + i) && _) eqn:Hno; [done|]. injection E as <-.
    split; intros (pos & Hp & Hh); exists pos; (split; [|done]); [lia|].
    apply Index_Some in HI as (HI & _ & Hfst).
    rewrite drop_drop, Nat.add_comm in HI.
    destruct (decide (pos < p + i)) as [Hlt|].
    { specialize (Hfst (pos - i) ltac:(lia)). rewrite drop_drop in Hfst.
      replace (i + (pos - i)) with pos in Hfst by lia. by rewrite Hfst in Hh. }
    destruct (decide (pos = p + i)) as [->|].
    { by rewrite <- andb_assoc, Hno, andb_false_r in Hh. }
    destruct (decide (pos < p + i + length kw)); [|lia]. exfalso.
    rewrite (start_ok_false s pos) in Hh;
      [by rewrite andb_false_r in Hh|lia|].
    by apply (prefix_ident s kw (p + i) _ Hkw); [|lia].
Qed.

Lemma containsSQLKeyword_words (s kw : bytes) :
  ident_word kw -> containsSQLKeyword s kw = true <-> kw ∈ sqlWords s.
Proof.
  intros Hkw. rewrite sqlWords_from. unfold containsSQLKeyword.
  rewrite (keyword_found s kw Hkw). split.
  - intros (pos & _ & [Hw Hs]%standalone_word); [|done].
    exists pos, (pos + length kw). by split_and!; [lia|..].
  - intros (a & e & _ & Hw & ->). exists a. split; [lia|].
    apply standalone_word; [done|]. pose proof (word_at_lt _ _ _ Hw).
    rewrite slice_length by lia. replace (a + (e - a)) with e by lia. done.
Qed.

(** ** What the gate lets through *)

(** A row-locking clause among the words: FOR, any number of NO and KEY, then
    UPDATE or SHARE. *)
Definition locking_phrase (words : list bytes) : Prop :=
  exists pre mid u post,
    words = pre ++ lit "FOR" :: mid ++ u :: post /\
    Forall (fun w => w = lit "NO" \/ w = lit "KEY") mid /\
    (u = lit "UPDATE" \/ u = lit "SHARE").

Lemma bytes_eqb_eq (a b : bytes) : bytes_eqb a b = true <-> a = b.
Proof. unfold bytes_eqb. by rewrite bool_decide_eq_true. Qed.

Lemma locking_tail_iff words :
  locking_tail words = true <->
  exists mid u post, words = mid ++ u :: post /\
    Forall (fun w => w = lit "NO" \/ w = lit "KEY") mid /\
    (u = lit "UPDATE" \/ u = lit "SHARE").
Proof.
  induction words as [|w ws IH]; cbn [locking_tail].
  { split; [done|]. intros ([] & ? & ? & [=] & _). }
  destruct (_ || _) eqn:E.
  - rewrite IH. rewrite orb_true_iff, !bytes_eqb_eq in E. split.
    + intros (mid & u & post & -> & Hm & Hu). exists (w :: mid), u, post.
      split_and!; [done|by constructor|done].
    + intros ([|m mid] & u & post & [= -> ->] & Hm & Hu).
      * by destruct Hu as [-> | ->], E.
      * apply Forall_cons in Hm as [_ Hm]. by exists mid, u, post.
  - rewrite orb_true_iff, !bytes_eqb_eq.
    rewrite orb_false_iff, <- !not_true_iff_false, !bytes_eqb_eq in E. split.
    + intros Hw. by exists [], w, ws.
    + intros ([|m mid] & u & post & [= -> ->] & Hm & Hu); [done|].
      apply Forall_cons in Hm as [? _]. tauto.
Qed.

Lemma containsLockingClause_iff s :
  containsLockingClause s = true <-> locking_phrase (sqlWords s).
Proof.
  unfold containsLockingClause, locking_phrase. generalize (sqlWords s).
  intros words. induction words as [|w ws IH]; cbn [locking_words].
  { split; [done|]. intros ([] & ? & ? & ? & [=] & _). }
  rewrite orb_true_iff, andb_true_iff, bytes_eqb_eq, IH, locking_tail_iff. split.
  - intros [[-> (mid & u & post & -> & H)]|(pre & mid & u & post & -> & H)].
    + by exists [], mid, u, post.
    + by exists (w :: pre), mid, u, post.
  - intros ([|x pre] & mid & u & post & [= -> ->] & H); [left|right].
    + split; [done|]. by exists mid, u, post.
    + by exists pre, mid, u, post.
Qed.

Lemma ident_word_lit s :
  s <> ""%string -> forallb IsIdentChar (lit s) = true -> ident_word (lit s).
Proof.
  intros Hs H. split; [by destruct s|]. apply Forall_forall. intros c Hc.
  rewrite forallb_forall in H. by apply H, list_elem_of_In.
Qed.

(** ** What a harmless statement is

    Said with the regions of the lexical grammar, the words of the code and
    the tokens of the call grammar; none of the gate's own tests appears. *)

(** The positions a reading of the text comes to, every region being stepped
    over whole. *)
Inductive reach (s : bytes) (r : StringReading) : nat -> Prop :=
| reach_start : reach s r 0
| reach_region i e : reach s r i -> region s i r e -> reach s r e
| reach_code i : reach s r i -> code_at s r i -> i < length s -> reach s r (i + 1).

Definition in_code (s : bytes) (r : StringReading) (k : nat) : Prop :=
  reach s r k /\ code_at s r k /\ k < length s.

Definition code_byte (s : bytes) (r : StringReading) (k : nat) (c : ascii) : Prop :=
  in_code s r k /\ s !! k = Some c.

(** The text with every byte that is not code blanked out. *)
Definition masked (s : bytes) (r : StringReading) (t : bytes) : Prop :=
  length t = length s /\ forall k, k < length s ->
    (in_code s r k /\ t !! k = s !! k) \/ (~ in_code s r k /\ t !! k = Some " "%char).

(** The words of a text, in order: its maximal runs of name bytes. *)
Inductive cut_words : bytes -> list bytes -> Prop :=
| cut_nil : cut_words [] []
| cut_other c s l : ~ name_byte c -> cut_words s l -> cut_words (c :: s) l
| cut_word w s l :
    w <> [] -> Forall name_byte w -> (forall c, head s = Some c -> ~ name_byte c) ->
    cut_words s l -> cut_words (w ++ s) (w :: l).

Definition first_word (s w rest : bytes) : Prop :=
  s = w ++ rest /\ Forall name_byte w /\ (forall c, head rest = Some c -> ~ name_byte c).

(** [lead r s i e]: the white space and comments from [i] end at [e]. *)
Inductive lead (r : StringReading) (s : bytes) : nat -> nat -> Prop :=
| lead_stop i :
    (forall c, s !! i = Some c -> ~ space_byte c) -> ~ comment_opens s i -> lead r s i i
| lead_space i c e : s !! i = Some c -> space_byte c -> lead r s (i + 1) e -> lead r s i e
| lead_comment i j e : comment_opens s i -> region s i r j -> lead r s j e -> lead r s i e.

(** The statement a text holds, after its leading comments. *)
Definition body_at (r : StringReading) (s body : bytes) : Prop :=
  exists e, lead r s 0 e /\ body = TrimSpace (drop e s).

(** The statements of a script: the trimmed texts between the semicolons of
    its code that hold more than comments; the script itself when there is
    none. *)
Definition cut_at (s : bytes) (r : StringReading) (a e : nat) : Prop :=
  a <= e /\ (a = 0 \/ exists k, a = k + 1 /\ code_byte s r k ";") /\
  (e = length s \/ code_byte s r e ";") /\
  (forall k, a <= k < e -> ~ code_byte s r k ";").

Definition statement_of (r : StringReading) (sql p : bytes) : Prop :=
  exists a e, cut_at sql r a e /\ p = TrimSpace (slice a e sql) /\ p <> [] /\
    ~ lead r p 0 (length p).

Definition judged_text (r : StringReading) (sql p : bytes) : Prop :=
  statement_of r sql p \/ (p = sql /\ forall q, ~ statement_of r sql q).

Definition explains (body : bytes) : Prop :=
  exists w rest, body = w ++ rest /\ map upper_byte w = lit "EXPLAIN" /\
    (forall c, head rest = Some c -> ~ name_byte c).

(** [nested s r k d]: at [k] the code before has opened [d] more parentheses
    than it closed. *)
Inductive nested (s : bytes) (r : StringReading) : nat -> Z -> Prop :=
| nested_start : nested s r 0 0
| nested_region i e d : nested s r i d -> region s i r e -> nested s r e d
| nested_open i d :
    nested s r i d -> code_at s r i -> s !! i = Some "("%char -> nested s r (i + 1) (d + 1)
| nested_close i d :
    nested s r i d -> code_at s r i -> s !! i = Some ")"%char -> nested s r (i + 1) (d - 1)
| nested_other i c d :
    nested s r i d -> code_at s r i -> s !! i = Some c -> c <> "("%char -> c <> ")"%char ->
    nested s r (i + 1) d.

(** The parenthesis that closes the one the text opens with. *)
Definition closing (s : bytes) (r : StringReading) (k : nat) : Prop :=
  nested s r k 1 /\ code_at s r k /\ s !! k = Some ")"%char.

Definition list_closed (s : bytes) (r : StringReading) (k : nat) : Prop :=
  head s = Some "("%char /\ closing s r k /\ forall j, j < k -> ~ closing s r j.

(** The entries of an option list: the texts between the commas outside
    parentheses. *)
Definition outer_comma (s : bytes) (r : StringReading) (k : nat) : Prop :=
  nested s r k 0 /\ code_at s r k /\ s !! k = Some ","%char.

Definition option_entry (s : bytes) (r : StringReading) (a e : nat) : Prop :=
  a <= e /\ (a = 0 \/ exists k, a = k + 1 /\ outer_comma s r k) /\
  (e = length s \/ outer_comma s r e) /\
  (forall k, a <= k < e -> ~ outer_comma s r k).

Section Spec.
Context `{UnicodeCase}.

(** An option that does not make EXPLAIN execute. *)
Definition planning_option (r : StringReading) (entry : bytes) : Prop :=
  exists body w rest name, body_at r entry body /\ first_word body w rest /\
    ToUpper w = lit name /\
    name ∈ ["VERBOSE"; "COSTS"; "SETTINGS"; "GENERIC_PLAN"; "BUFFERS"; "WAL";
            "TIMING"; "SUMMARY"; "MEMORY"; "SERIALIZE"; "FORMAT"]%string.

(** [option_words r x s inner]: [s] is option words written without
    parentheses, before the statement [inner]; [x] says that ANALYZE is one
    of them. *)
Inductive option_words (r : StringReading) : bool -> bytes -> bytes -> Prop :=
| words_end s w rest :
    first_word s w rest -> ToUpper w ∉ [lit "ANALYZE"; lit "ANALYSE"; lit "VERBOSE"] ->
    option_words r false s s
| words_verbose x s w rest next inner :
    first_word s w rest -> ToUpper w = lit "VERBOSE" -> body_at r rest next ->
    option_words r x next inner -> option_words r x s inner
| words_analyze x s w rest next inner :
    first_word s w rest -> ToUpper w = lit "ANALYZE" \/ ToUpper w = lit "ANALYSE" ->
    body_at r rest next -> option_words r x next inner -> option_words r true s inner.

(** [explained r body x inner]: [body] is an EXPLAIN of [inner], which [x]
    says may execute it. *)
Inductive explained (r : StringReading) (body : bytes) : bool -> bytes -> Prop :=
| explained_list x after k inner :
    body_at r (drop 7 body) after -> list_closed after r k ->
    body_at r (drop (k + 1) after) inner ->
    (x = false -> forall a e, option_entry (slice 1 k after) r a e ->
       planning_option r (slice a e (slice 1 k after))) ->
    explained r body x inner
| explained_words x after inner :
    body_at r (drop 7 body) after -> head after <> Some "("%char ->
    option_words r x after inner -> explained r body x inner.

Definition begins (kw : string) (t : bytes) : Prop := exists rest, t = lit kw ++ rest.

(** A query whose code has no INTO and no row locking, and calls no listed
    function. *)
Definition reads_only (r : StringReading) (body : bytes) (words : list bytes) : Prop :=
  (lit "INTO" ∉ words) /\ ~ locking_phrase words /\
  exists tokens, scans r body 0 tokens /\ calls_nothing tokens.

(** [harmless r n sql]: under reading [r] the statement is a SHOW, a SELECT
    or TABLE that only reads, a WITH query that only reads and names no DML,
    an EXPLAIN that only plans, or an EXPLAIN of a harmless statement, with at
    most [n] EXPLAINs around it. *)
Inductive harmless (r : StringReading) : nat -> bytes -> Prop :=
| harmless_show n sql body m :
    body_at r sql body -> ~ explains body -> masked body r m ->
    begins "SHOW" (ToUpper m) -> harmless r n sql
| harmless_select n sql body m words :
    body_at r sql body -> ~ explains body -> masked body r m ->
    begins "SELECT" (ToUpper m) \/ begins "TABLE " (ToUpper m) ->
    cut_words (ToUpper m) words -> reads_only r body words ->
    harmless r n sql
| harmless_with n sql body m words :
    body_at r sql body -> ~ explains body -> masked body r m ->
    begins "WITH" (ToUpper m) -> cut_words (ToUpper m) words ->
    (forall w, w ∈ ["INSERT"; "UPDATE"; "DELETE"; "MERGE"]%string -> lit w ∉ words) ->
    reads_only r body words -> harmless r n sql
| harmless_plan n sql body inner :
    body_at r sql body -> explains body -> explained r body false inner ->
    harmless r n sql
| harmless_analyze n sql body x inner :
    body_at r sql body -> explains body -> explained r body x inner ->
    inner <> [] -> harmless r n inner -> harmless r (S n) sql.
End Spec.

(** ** The lexer's positions are the grammar's *)

Lemma region_in s i r e : region s i r e -> i < length s /\ e <= length s.
Proof.
  intros Hr. assert (i < length s) as Hi.
  { apply Nat.nle_gt. intros Hle. destruct Hr as [p|p| | | | |];
      match goal with H : drop i s = _ |- _ => rewrite drop_ge in H by done end; try done;
      by destruct p. }
  split; [done|]. rewrite <- (region_skipped _ _ _ _ Hr). by apply SkipNonCode_range.
Qed.

Lemma next_region s i r e : region s i r e -> next_pos s r i = e.
Proof.
  intros [He Hne]%region_skip. unfold next_pos. rewrite He.
  by rewrite (proj2 (Nat.eqb_neq e i)).
Qed.

Lemma next_code s i r : code_at s r i -> next_pos s r i = i + 1.
Proof. intros Hc%code_at_skip. unfold next_pos. by rewrite Hc, Nat.eqb_refl. Qed.

Lemma reach_scan s r k : reach s r k <-> k <= length s /\ exists n, scan_pos s r n = k.
Proof.
  split.
  - induction 1 as [|i e _ [_ (n & Hn)] Hr|i _ [_ (n & Hn)] Hc Hi].
    + split; [lia|by exists 0].
    + split; [apply (region_in _ _ _ _ Hr)|]. exists (S n).
      by rewrite scan_pos_S, Hn, (next_region _ _ _ _ Hr).
    + split; [lia|]. exists (S n). by rewrite scan_pos_S, Hn, next_code.
  - intros [Hle (n & <-)]. induction n as [|n IH]; [constructor|]. rewrite scan_pos_S in *.
    pose proof (next_pos_gt s r (scan_pos s r n)). specialize (IH ltac:(lia)).
    destruct (region_or_code s (scan_pos s r n) r) as [[e Hr]|Hc%code_at_skip].
    + rewrite (next_region _ _ _ _ Hr). by eapply reach_region.
    + rewrite next_code by done. apply reach_code; [done|done|lia].
Qed.

Lemma in_code_pos s r k : in_code s r k <-> code_pos s r k.
Proof.
  unfold in_code, code_pos. rewrite reach_scan, code_at_skip. split.
  - intros ([_ Hn] & Hc & Hk). done.
  - intros (Hk & Hn & Hc). split_and!; [lia|done..].
Qed.

Lemma masked_spec s r : masked s r (MaskNonCode s r).
Proof.
  destruct (MaskNonCode_inv s r) as [Hlen H]. split; [done|]. intros k Hk.
  rewrite in_code_pos. destruct (H k Hk) as [|[Hr E]]; [by left|]. right. split; [|done].
  intros Hc. by apply (code_region_disjoint s r k).
Qed.

Lemma ident_split (s : bytes) i :
  i <= length s -> let e := scan_while IsIdentChar s i in
  drop i s = slice i e s ++ drop e s /\ Forall name_byte (slice i e s) /\
  (forall c, head (drop e s) = Some c -> ~ name_byte c).
Proof.
  intros Hi e. destruct (scan_while_spec IsIdentChar s i) as (Hge & Hle & Hall & Hend).
  fold e in Hge, Hle, Hall, Hend. split_and!.
  - by apply drop_split.
  - eapply Forall_impl; [by apply (slice_Forall IsIdentChar)|]. intros c. apply name_spec.
  - intros c Hc Hn%name_spec. unfold test_at in Hend.
    destruct (drop e s) as [|x t] eqn:Ed; [done|]. injection Hc as ->. look Ed.
    rewrite Hl in Hend. congruence.
Qed.

Lemma first_word_spec s : first_word s (fst (nextSQLWord s)) (snd (nextSQLWord s)).
Proof.
  destruct (ident_split s 0 ltac:(lia)) as (H1 & H2 & H3). unfold slice in H1, H2.
  rewrite Nat.sub_0_r, !drop_0 in H1, H2. done.
Qed.

Lemma cut_words_spec s : cut_words s (sqlWords s).
Proof.
  unfold sqlWords.
  cut (forall st, exists l, run (fun st => length s - snd st) (words_step s) [] st = fst st ++ l /\
    cut_words (drop (snd st) s) l).
  { intros Hcut. destruct (Hcut ([], 0)) as (l & -> & Hl). done. }
  apply (run_ind _ _ [] (fun st x => exists l, x = fst st ++ l /\ cut_words (drop (snd st) s) l)
    (words_dec s)).
  - intros [ws i] x E. unfold words_step in E. destruct (s !! i) eqn:Hi; [by split_ifs|].
    injection E as <-. exists []. cbn [fst snd]. rewrite app_nil_r. split; [done|].
    apply lookup_ge_None in Hi. rewrite drop_ge by done. constructor.
  - intros [ws i] [ws' i'] x E (l & -> & Hl). cbn [fst snd] in *. unfold words_step in E.
    destruct (s !! i) as [c|] eqn:Hi; [|done]. destruct (IsIdentChar c) eqn:Hc; cbn [negb] in E;
      injection E as <- <-.
    + pose proof (lookup_lt_Some _ _ _ Hi) as Hlt.
      destruct (ident_split s i ltac:(lia)) as (Hd & Hf & Hh).
      exists (slice i (scan_while IsIdentChar s i) s :: l). split; [by rewrite <- app_assoc|].
      rewrite Hd. apply cut_word; [|done..]. intros Hnil. rewrite Hnil, (drop_S _ _ _ Hi) in Hd.
      change (c :: drop (S i) s = drop (scan_while IsIdentChar s i) s) in Hd.
      apply (Hh c); [by rewrite <- Hd|by apply name_spec].
    + exists l. split; [done|]. rewrite (drop_S _ _ _ Hi), <- Nat.add_1_r. constructor; [|done].
      rewrite <- name_spec. congruence.
Qed.

(** *** Leading comments *)

Lemma comment_skip s i r c d :
  s !! i = Some c -> s !! (i + 1) = Some d ->
  (c = "-"%char /\ d = "-"%char ->
   SkipNonCode s i r = scan_while (fun b => negb (IsSQLNewline b)) s i) /\
  (c = "/"%char /\ d = "*"%char -> SkipNonCode s i r = skipBlockComment s i).
Proof.
  intros Hc Hd. split; intros [-> ->]; unfold SkipNonCode, IsQuoteStart, ScanDollarTag,
    literalPrefix, byte_at; rewrite Hc, Hd; by destruct (ContinuesIdentifier s i).
Qed.

Lemma skip_space_step_spec r s i :
  match skip_space_step s i with
  | inl j => (exists c, s !! i = Some c /\ space_byte c /\ j = i + 1) \/
             (comment_opens s i /\ region s i r j)
  | inr j => j = i /\ (forall c, s !! i = Some c -> ~ space_byte c) /\ ~ comment_opens s i
  end.
Proof.
  unfold skip_space_step, comment_opens. destruct (s !! i) as [c|] eqn:Hc.
  2:{ split_and!; [done|done|]. intros [[? _]|[? _]]; done. }
  destruct (IsSQLSpace c) eqn:Hs; [left; exists c; by rewrite <- space_spec|].
  destruct (Ascii.eqb c "-" && byte_at s (i + 1) "-") eqn:Ed.
  { apply andb_true_iff in Ed as [->%Ascii.eqb_eq Ed%byte_at_Some]. right.
    split; [by left|]. apply region_skip. destruct (comment_skip s i r _ _ Hc Ed) as [-> _]; [|done].
    split; [done|]. apply byte_at_Some in Hc.
    pose proof (scan_while_step _ _ _ (dash_not_newline _ _ Hc)). lia. }
  destruct (Ascii.eqb c "/" && byte_at s (i + 1) "*") eqn:Eb.
  { apply andb_true_iff in Eb as [->%Ascii.eqb_eq Eb]. right. pose proof (byte_at_lt _ _ _ Eb) as Hlt.
    pose proof (skipBlockComment_bounds s i Hlt) as Hb. apply byte_at_Some in Eb.
    split; [by right|]. apply region_skip. destruct (comment_skip s i r _ _ Hc Eb) as [_ ->]; [|done].
    split; [done|lia]. }
  split_and!; [done|intros ? [= <-]; rewrite <- space_spec; congruence|].
  rewrite <- !byte_at_Some. intros [[[= ->] E]|[[= ->] E]].
  - by rewrite E in Ed.
  - by rewrite E in Eb.
Qed.

Lemma lead_skip r s i : lead r s i (skipSpaceAndComments s i).
Proof.
  unfold skipSpaceAndComments. generalize i at 2 as d. intros d. revert i.
  apply (run_ind _ _ d (fun i e => lead r s i e) (skip_space_dec s)).
  - intros i e E. pose proof (skip_space_step_spec r s i) as Hs. rewrite E in Hs.
    destruct Hs as (-> & H1 & H2). by constructor.
  - intros i j e E IH. pose proof (skip_space_step_spec r s i) as Hs. rewrite E in Hs.
    destruct Hs as [(c & Hc & Hsp & ->)|[Ho Hr]]; [by eapply lead_space|by eapply lead_comment].
Qed.

Lemma space_no_comment s i c : s !! i = Some c -> space_byte c -> ~ comment_opens s i.
Proof. intros Hc Hs%space_spec [[E _]|[E _]]; rewrite Hc in E; by injection E as ->. Qed.

(** White space and comments end at one place. *)
Lemma lead_unique r s i e e' : lead r s i e -> lead r s i e' -> e = e'.
Proof.
  intros H1. revert e'. induction H1 as [i Hs Hc|i c e Hc Hs _ IH|i j e Ho Hr _ IH];
    intros e' H2; inversion H2 as [? Hs' Hc'|? c' ? Hc' Hs'|? j' ? Ho' Hr']; subst.
  - done.
  - by destruct (Hs c').
  - done.
  - by destruct (Hs' c).
  - by apply IH.
  - by destruct (space_no_comment _ _ _ Hc Hs).
  - done.
  - by destruct (space_no_comment _ _ _ Hc' Hs').
  - apply IH. apply region_skipped in Hr, Hr'. by subst.
Qed.

Lemma body_of_spec r s : body_at r s (body_of s).
Proof. eexists. split; [apply lead_skip|done]. Qed.

Lemma only_comments_spec r p : HasOnlyComments p = true <-> lead r p 0 (length p).
Proof.
  unfold HasOnlyComments. rewrite Nat.eqb_eq. split.
  - intros <-. apply lead_skip.
  - intros Hl. eapply lead_unique; [apply lead_skip|done].
Qed.

(** ** EXPLAIN heads *)

Lemma body_of_length (s : bytes) : length (body_of s) <= length s.
Proof.
  unfold body_of, StripLeadingComments. etransitivity; [apply TrimSpace_length|].
  rewrite length_drop. lia.
Qed.

Lemma explain_options_dec (s : bytes) r :
  decreases (fun st : Z * nat => length s - snd st) (explain_options_step s r).
Proof.
  intros [d i] [d' i']. unfold explain_options_step.
  destruct (Nat.ltb_spec i (length s)); [|done].
  pose proof (next_pos_gt s r i) as Hn. unfold next_pos in Hn.
  destruct (SkipNonCode s i r =? i); simpl; split_ifs; intros [= <- <-]; simpl; lia.
Qed.

Lemma explain_entries_dec (s : bytes) r :
  decreases (fun st : list bytes * Z * nat * nat => length s - snd st)
    (explain_entries_step s r).
Proof.
  intros [[[es d] a] i] [[[es' d'] a'] i']. unfold explain_entries_step.
  destruct (Nat.ltb_spec i (length s)); [|done].
  pose proof (next_pos_gt s r i) as Hn. unfold next_pos in Hn.
  destruct (SkipNonCode s i r =? i); simpl; split_ifs; intros [= <- <- <- <-];
    simpl; lia.
Qed.

Lemma explain_words_dec `{UnicodeCase} :
  decreases (fun st : bool * bytes => length (snd st)) explain_words_step.
Proof.
  intros [x rest] [x' rest']. unfold explain_words_step, nextSQLWord. cbn [snd].
  set (i := scan_while IsIdentChar rest 0). intros E.
  assert (rest' = body_of (drop i rest) /\ take i rest <> []) as [-> Hne].
  { destruct (text_in ["ANALYZE"; "ANALYSE"]%string _) eqn:Ha;
      [|destruct (text_in ["VERBOSE"]%string _) eqn:Hv; [|done]];
      injection E as _ <-; (split; [done|]); intros Hn;
      [by rewrite Hn in Ha|by rewrite Hn in Hv]. }
  pose proof (body_of_length (drop i rest)) as Hl. rewrite length_drop in Hl.
  destruct rest as [|c t]; [by destruct i|]. destruct i as [|i]; [done|].
  simpl in *. lia.
Qed.

(** The nesting depth of the code before [i]: opening less closing
    parentheses. *)
Definition paren_delta (s : bytes) (r : StringReading) (k : nat) : Z :=
  if decide (SkipNonCode s k r = k) then
    if byte_at s k "(" then 1 else if byte_at s k ")" then -1 else 0
  else 0.

(** [nesting s r n] is the depth after the first [n] scan positions. *)
Fixpoint nesting (s : bytes) (r : StringReading) (n : nat) : Z :=
  match n with
  | O => 0
  | S m => nesting s r m + paren_delta s r (scan_pos s r m)
  end.

Lemma explain_options_step_eq (s : bytes) r n :
  let i := scan_pos s r n in
  i < length s ->
  explain_options_step s r (nesting s r n, i) =
    if decide (SkipNonCode s i r = i /\ byte_at s i ")" = true /\
               nesting s r (S n) = 0%Z)
    then inr (Some (slice 1 i s, drop (i + 1) s))
    else inl (nesting s r (S n), scan_pos s r (S n)).
Proof.
  intros i Hi. unfold explain_options_step. cbn [nesting].
  rewrite scan_pos_S. fold i.
  rewrite (proj2 (Nat.ltb_lt i (length s)) Hi). unfold next_pos, paren_delta.
  destruct (Nat.eqb_spec (SkipNonCode s i r) i) as [Hc|Hc]; simpl.
  - rewrite (decide_True (P := SkipNonCode s i r = i)) by done.
    destruct (byte_at s i "(") eqn:Ho.
    + apply byte_at_Some in Ho. unfold byte_at. rewrite Ho. simpl.
      rewrite decide_False by naive_solver. done.
    + destruct (byte_at s i ")") eqn:Hp.
      * replace (nesting s r n + -1)%Z with (nesting s r n - 1)%Z by lia.
        destruct (Z.eqb_spec (nesting s r n - 1) 0).
        -- by rewrite decide_True.
        -- by rewrite decide_False by naive_solver.
      * rewrite decide_False by naive_solver. by rewrite Z.add_0_r.
  - rewrite !decide_False by naive_solver. by rewrite Z.add_0_r.
Qed.

(** The closing parenthesis the parser takes: the first scan position where
    the nesting returns to zero. *)
Definition closes (s : bytes) (r : StringReading) (n : nat) : Prop :=
  let i := scan_pos s r n in
  i < length s /\ SkipNonCode s i r = i /\ byte_at s i ")" = true /\
  nesting s r (S n) = 0%Z.

Lemma explain_options_run (s : bytes) r n :
  scan_pos s r n <= length s ->
  match run (fun st => length s - snd st) (explain_options_step s r) None
            (nesting s r n, scan_pos s r n) with
  | Some (options, rest) => exists m, n <= m /\ closes s r m /\
      (forall k, n <= k < m -> ~ closes s r k) /\
      options = slice 1 (scan_pos s r m) s /\ rest = drop (scan_pos s r m + 1) s
  | None => forall k, n <= k -> ~ closes s r k
  end.
Proof.
  remember (length s - scan_pos s r n) as d eqn:Hd. revert n Hd.
  induction (lt_wf d) as [d _ IH]; intros n -> Hle.
  rewrite run_unfold by apply explain_options_dec.
  destruct (decide (scan_pos s r n < length s)) as [Hlt|Hge].
  - rewrite explain_options_step_eq by done.
    destruct (decide (_ /\ _ /\ _)) as [Hc|Hc].
    + exists n. split_and!; try done; intros; lia.
    + assert (~ closes s r n) as Hn by (unfold closes; tauto).
      pose proof (scan_pos_mono s r n (S n) ltac:(lia)) as Hm.
      pose proof (next_pos_le s r _ Hlt) as Hnl. rewrite <- scan_pos_S in Hnl.
      specialize (IH (length s - scan_pos s r (S n)) ltac:(lia) (S n) eq_refl Hnl).
      destruct (run _ _ _ _) as [[options rest]|].
      * destruct IH as (m & Hnm & Hcl & Hfst & -> & ->). exists m.
        split_and!; try done; [lia|]. intros k Hk.
        destruct (decide (k = n)) as [->|]; [done|]. apply Hfst. lia.
      * intros k Hk. destruct (decide (k = n)) as [->|]; [done|]. apply IH. lia.
  - unfold explain_options_step. rewrite (proj2 (Nat.ltb_ge _ _)) by lia.
    intros k Hk (Hlt & _). destruct (decide (k = n)) as [->|]; [lia|].
    pose proof (scan_pos_mono s r n k ltac:(lia)). lia.
Qed.

(** *** Parentheses and commas *)

Lemma nested_scan s r k d :
  nested s r k d <-> exists n, scan_pos s r n = k /\ k <= length s /\ nesting s r n = d.
Proof.
  assert (forall n, code_at s r (scan_pos s r n) ->
    nesting s r (S n) = (nesting s r n + (if byte_at s (scan_pos s r n) "(" then 1
      else if byte_at s (scan_pos s r n) ")" then -1 else 0))%Z) as Hdelta.
  { intros n Hc%code_at_skip. cbn [nesting]. unfold paren_delta. by rewrite decide_True. }
  split.
  - assert (forall i c, s !! i = Some c -> i + 1 <= length s) as Hlt
      by (intros i c Hc; apply lookup_lt_Some in Hc; lia).
    induction 1 as [|i e d _ (n & Hn & _ & <-) Hr|i d _ (n & <- & _ & <-) Hc Hi|
      i d _ (n & <- & _ & <-) Hc Hi|i c d _ (n & <- & _ & <-) Hc Hi H1 H2].
    + exists 0. split_and!; [done|lia|done].
    + exists (S n). split_and!; [by rewrite scan_pos_S, Hn, (next_region _ _ _ _ Hr)|
        apply (region_in _ _ _ _ Hr)|].
      cbn [nesting]. unfold paren_delta. rewrite Hn. apply region_skip in Hr as [-> Hne].
      rewrite decide_False by done. lia.
    + exists (S n). rewrite (Hdelta n Hc), scan_pos_S, next_code by done. unfold byte_at.
      rewrite Hi. by eauto.
    + exists (S n). rewrite (Hdelta n Hc), scan_pos_S, next_code by done. unfold byte_at.
      rewrite Hi. by eauto.
    + exists (S n). rewrite (Hdelta n Hc), scan_pos_S, next_code by done. unfold byte_at.
      rewrite Hi, !(proj2 (Ascii.eqb_neq c _)), Z.add_0_r by done. by eauto.
  - intros (n & <- & Hle & <-). induction n as [|n IH]; [constructor|].
    pose proof (scan_pos_mono s r n (S n) ltac:(lia)) as Hlt. specialize (IH ltac:(lia)).
    destruct (region_or_code s (scan_pos s r n) r) as [[e Hr]|Hc%code_at_skip].
    + rewrite scan_pos_S, (next_region _ _ _ _ Hr). cbn [nesting]. unfold paren_delta.
      pose proof Hr as [-> Hne]%region_skip. rewrite decide_False by done.
      rewrite Z.add_0_r. by eapply nested_region.
    + rewrite (Hdelta n Hc), scan_pos_S, next_code by done.
      destruct (lookup_lt_is_Some_2 s (scan_pos s r n) ltac:(lia)) as [c Hl].
      unfold byte_at. rewrite Hl. destruct (Ascii.eqb_spec c "(") as [->|H1]; [by apply nested_open|].
      destruct (Ascii.eqb_spec c ")") as [->|H2]; [by apply nested_close|].
      rewrite Z.add_0_r. by eapply nested_other.
Qed.

Lemma closing_scan s r k :
  closing s r k <-> exists n, scan_pos s r n = k /\ closes s r n.
Proof.
  unfold closing, closes. rewrite nested_scan, code_at_skip, <- byte_at_Some. split.
  - intros ((n & <- & _ & Hn) & Hc & Hb). exists n. split; [done|].
    split_and!; [by apply byte_at_lt in Hb|done|done|]. cbn [nesting]. unfold paren_delta.
    rewrite decide_True, Hn by done. apply byte_at_Some in Hb. unfold byte_at. by rewrite Hb.
  - intros (n & <- & Hlt & Hc & Hb & Hn). split_and!; [|done|done]. exists n.
    split_and!; [done|lia|]. cbn [nesting] in Hn. unfold paren_delta in Hn.
    rewrite decide_True in Hn by done. apply byte_at_Some in Hb. unfold byte_at in Hn.
    rewrite Hb in Hn. simpl in Hn. lia.
Qed.

(** The list the parser cuts out is closed by the parenthesis that balances
    the first. *)
Lemma splitExplainOptions_spec s r options rest :
  head s = Some "("%char -> splitExplainOptions s r = Some (options, rest) ->
  exists k, list_closed s r k /\ options = slice 1 k s /\ rest = drop (k + 1) s.
Proof.
  intros Hh Hs. pose proof (explain_options_run s r 0 ltac:(simpl; lia)) as Hrun.
  change (run _ _ _ _) with (splitExplainOptions s r) in Hrun. rewrite Hs in Hrun.
  destruct Hrun as (m & _ & Hc & Hfst & -> & ->). exists (scan_pos s r m).
  split_and!; [|done|done]. split_and!; [done|apply closing_scan; by exists m|].
  intros j Hj (n & <- & Hn)%closing_scan. apply (Hfst n); [|done].
  split; [lia|]. apply Nat.nle_gt. intros Hle.
  destruct (decide (m = n)) as [->|]; [lia|]. pose proof (scan_pos_mono s r m n). lia.
Qed.

Lemma outer_comma_scan s r n k :
  outer_comma s r k -> scan_pos s r n <= k < scan_pos s r (S n) ->
  scan_pos s r n = k /\ nesting s r n = 0%Z /\ SkipNonCode s k r = k /\ byte_at s k "," = true.
Proof.
  intros ((m & <- & _ & Hm)%nested_scan & Hc%code_at_skip & Hb%byte_at_Some) Hk.
  assert (m = n) as ->; [|done].
  destruct (lt_eq_lt_dec m n) as [[Hlt|]|Hlt]; [|done|].
  - pose proof (scan_pos_mono s r m n Hlt). lia.
  - destruct (decide (m = S n)) as [->|]; [lia|]. pose proof (scan_pos_mono s r (S n) m). lia.
Qed.

(** The entries the parser cuts out are all there are. *)
Definition entries_inv (s : bytes) (r : StringReading) (st : list bytes * Z * nat * nat) : Prop :=
  let '(entries, d, start, i) := st in
  (exists n, scan_pos s r n = i /\ nesting s r n = d) /\ i <= length s /\ start <= i /\
  (start = 0 \/ exists k, start = k + 1 /\ outer_comma s r k) /\
  (forall k, start <= k < i -> ~ outer_comma s r k) /\
  (forall a e, option_entry s r a e -> e < start -> slice a e s ∈ entries).

Lemma entries_inv_step s r st st' :
  entries_inv s r st -> explain_entries_step s r st = inl st' -> entries_inv s r st'.
Proof.
  destruct st as [[[es d] start] i]. intros ((n & Hn & Hd) & Hle & Hsi & Hst & Hno & Hall).
  unfold explain_entries_step. destruct (Nat.ltb_spec i (length s)) as [Hi|]; [|done].
  pose proof (next_pos_gt s r i) as Hgt. pose proof (next_pos_le s r i Hi) as Hnl.
  assert (scan_pos s r (S n) = next_pos s r i) as HS by (by rewrite scan_pos_S, Hn).
  assert (forall P : Prop, (outer_comma s r i -> P) -> forall k, start <= k < next_pos s r i ->
    outer_comma s r k -> P) as Hnext.
  { intros P HP k Hk Hoc. destruct (decide (k < i)) as [|Hge]; [by destruct (Hno k); [lia|]|].
    destruct (outer_comma_scan s r n k Hoc) as (<- & _); [rewrite Hn, HS; lia|].
    rewrite Hn in Hoc. auto. }
  assert (forall d', nesting s r (S n) = d' -> (outer_comma s r i -> False) ->
    entries_inv s r (es, d', start, next_pos s r i)) as Hkeep.
  { intros d' Hd' Hi'. split_and!; [by exists (S n)|lia|lia|done| |done].
    intros k Hk Hoc. by apply (Hnext False Hi' k Hk Hoc). }
  assert (outer_comma s r i -> d = 0%Z /\ SkipNonCode s i r = i /\ byte_at s i "," = true) as Hcomma.
  { intros Hoc. destruct (outer_comma_scan s r n i Hoc) as (_ & H0 & H1 & H2); [rewrite Hn, HS; lia|].
    by rewrite <- Hd, H0. }
  assert (nesting s r (S n) = (d + paren_delta s r i)%Z) as Hnest by (cbn [nesting]; by rewrite Hn, Hd).
  unfold paren_delta in Hnest.
  destruct (Nat.eqb_spec (SkipNonCode s i r) i) as [Hc|Hc]; cbn [negb].
  - rewrite decide_True in Hnest by done.
    assert (next_pos s r i = i + 1) as Hp by (by apply next_code, code_at_skip). rewrite Hp in *.
    destruct (byte_at s i "(") eqn:Eo.
    { intros [= <-]. apply Hkeep; [lia|]. intros (_ & _ & Hb)%Hcomma.
      apply byte_at_Some in Eo, Hb. by rewrite Eo in Hb. }
    destruct (byte_at s i ")") eqn:Ec.
    { intros [= <-]. apply Hkeep; [lia|]. intros (_ & _ & Hb)%Hcomma.
      apply byte_at_Some in Ec, Hb. by rewrite Ec in Hb. }
    rewrite Z.add_0_r in Hnest.
    destruct (byte_at s i "," && (d =? 0)%Z) eqn:Em; intros [= <-].
    + apply andb_true_iff in Em as [Eb%byte_at_Some E0%Z.eqb_eq].
      assert (outer_comma s r i) as Hoc.
      { split_and!; [|by apply code_at_skip|done]. apply nested_scan. exists n. by rewrite Hn, Hd. }
      split_and!; [by exists (S n)|lia|lia|right; by exists i|intros k ?; lia|].
      intros a e He Hlt. destruct (decide (e < start)) as [|Hge].
      { apply elem_of_app. left. by apply Hall. }
      apply elem_of_app. right. apply list_elem_of_singleton.
      destruct He as (Hae & Ha & He & Hmid).
      assert (e = i) as ->.
      { destruct He as [->|He]; [lia|]. destruct (decide (e = i)); [done|].
        destruct (Hno e); [lia|done]. }
      assert (a = start) as ->; [|done].
      destruct (lt_eq_lt_dec a start) as [[Hlt'|]|Hgt']; [|done|].
      * destruct Hst as [->|(k & -> & Hk)]; [lia|]. destruct (Hmid k); [lia|done].
      * destruct Ha as [->|(k & -> & Hk)]; [lia|]. destruct (Hno k); [lia|done].
    + apply Hkeep; [done|]. intros (E0 & _ & Hb)%Hcomma. by rewrite E0, Hb in Em.
  - rewrite decide_False in Hnest by done. rewrite Z.add_0_r in Hnest.
    assert (next_pos s r i = SkipNonCode s i r) as Hp.
    { unfold next_pos. by rewrite (proj2 (Nat.eqb_neq _ _)). }
    intros [= <-]. rewrite <- Hp. apply Hkeep; [done|]. by intros (_ & ? & _)%Hcomma.
Qed.

Lemma option_entries_spec s r a e :
  option_entry s r a e ->
  slice a e s ∈ run (fun st => length s - snd st) (explain_entries_step s r) [] ([], 0%Z, 0, 0).
Proof.
  intros He. assert (entries_inv s r ([], 0%Z, 0, 0)) as H0.
  { split_and!; [by exists 0|lia|lia|by left|intros; lia|intros; lia]. }
  revert H0. generalize (@nil bytes, 0%Z, 0, 0).
  apply (run_ind _ _ [] (fun st x => entries_inv s r st -> slice a e s ∈ x) (explain_entries_dec s r)).
  - intros [[[es d] start] i] x E (_ & Hle & Hsi & Hst & Hno & Hall). unfold explain_entries_step in E.
    destruct (Nat.ltb_spec i (length s)); [by split_ifs|]. injection E as <-.
    destruct (decide (e < start)) as [|Hge]; [apply elem_of_app; left; by apply Hall|].
    apply elem_of_app. right. apply list_elem_of_singleton. destruct He as (Hae & Ha & He & Hmid).
    assert (e = length s) as ->.
    { destruct He as [->|He]; [done|]. pose proof He as (_ & _ & Hb%lookup_lt_Some).
      destruct (Hno e); [lia|done]. }
    assert (a = start) as ->.
    { destruct (lt_eq_lt_dec a start) as [[Hlt'|]|Hgt']; [|done|].
      - destruct Hst as [->|(k & -> & Hk)]; [lia|]. destruct (Hmid k); [lia|done].
      - destruct Ha as [->|(k & -> & Hk)]; [lia|]. destruct (Hno k); [lia|done]. }
    unfold slice. rewrite firstn_all2; [done|]. rewrite length_drop. lia.
  - intros st st' x E IH Hst. by eapply IH, entries_inv_step.
Qed.

(** *** The statements of a script *)

Definition pieces_inv (s : bytes) (r : StringReading) (st : list bytes * nat * nat) : Prop :=
  let '(sts, start, i) := st in
  (exists n, scan_pos s r n = i) /\ i <= length s /\ start <= i /\
  (start = 0 \/ exists k, start = k + 1 /\ code_byte s r k ";") /\
  (forall k, start <= k < i -> ~ code_byte s r k ";") /\
  (forall p, p ∈ sts <-> exists a e, cut_at s r a e /\ e < start /\
     p = TrimSpace (slice a e s) /\ p <> [] /\ ~ lead r p 0 (length p)).

Lemma add_statement_spec r sts part p :
  p ∈ add_statement sts part <->
  p ∈ sts \/ (p = TrimSpace part /\ p <> [] /\ ~ lead r p 0 (length p)).
Proof.
  unfold add_statement, bytes_eqb. set (q := TrimSpace part).
  destruct (decide (q = [])) as [->|Hne].
  { rewrite bool_decide_eq_true_2 by done. cbn [negb andb]. naive_solver. }
  rewrite bool_decide_eq_false_2 by done. cbn [negb andb].
  pose proof (only_comments_spec r q) as Hoc. destruct (HasOnlyComments q); cbn [negb].
  - split; [by left|]. intros [?|(-> & _ & Hl)]; [done|]. by destruct Hl; apply Hoc.
  - rewrite elem_of_app, list_elem_of_singleton. split; [|tauto].
    intros [?| ->]; [by left|]. right. split_and!; [done..|]. by rewrite <- Hoc.
Qed.

(** The cut that ends at [i] is the one that starts at [start]. *)
Lemma cut_at_here s r start i a :
  (start = 0 \/ exists k, start = k + 1 /\ code_byte s r k ";") ->
  (forall k, start <= k < i -> ~ code_byte s r k ";") -> start <= i ->
  cut_at s r a i -> a = start.
Proof.
  intros Hst Hno Hle (Hae & Ha & _ & Hmid).
  destruct (lt_eq_lt_dec a start) as [[Hlt|]|Hgt]; [|done|].
  - destruct Hst as [->|(k & -> & Hk)]; [lia|]. destruct (Hmid k); [lia|done].
  - destruct Ha as [->|(k & -> & Hk)]; [lia|]. destruct (Hno k); [lia|done].
Qed.

Lemma pieces_inv_step s r st st' :
  pieces_inv s r st -> split_step s r st = inl st' -> pieces_inv s r st'.
Proof.
  destruct st as [[sts start] i]. intros ((n & Hn) & Hle & Hsi & Hst & Hno & Hall) E.
  destruct (Nat.ltb_spec i (length s)) as [Hi|Hi].
  2:{ unfold split_step in E. by rewrite (proj2 (Nat.ltb_ge _ _)) in E by lia. }
  rewrite split_step_eq in E by done.
  pose proof (next_pos_gt s r i) as Hgt. pose proof (next_pos_le s r i Hi) as Hnl.
  assert (exists m, scan_pos s r m = next_pos s r i) as HS
    by (exists (S n); by rewrite scan_pos_S, Hn).
  assert (code_byte s r i ";" <-> (SkipNonCode s i r =? i) && byte_at s i ";" = true) as Hsemi.
  { unfold code_byte. rewrite in_code_pos, andb_true_iff, Nat.eqb_eq, byte_at_Some.
    unfold code_pos. split; [tauto|]. intros [Hc Hb]. split_and!; try done. by exists n. }
  destruct ((SkipNonCode s i r =? i) && byte_at s i ";") eqn:G; injection E as <-.
  - assert (code_byte s r i ";") as Hcode by (by apply Hsemi).
    assert (next_pos s r i = i + 1) as Hp.
    { destruct Hcode as [[_ [Hc _]] _]. by apply next_code. }
    rewrite Hp in *. split_and!; [done|lia|lia|right; by exists i|intros; lia|].
    intros p. rewrite (add_statement_spec r), Hall. split.
    + intros [(a & e & Hcut & Hlt & Hp')|Hp'].
      * exists a, e. split_and!; [done|lia|apply Hp'..].
      * exists start, i. split_and!; [|lia|apply Hp'..]. split_and!; [done|done|by right|done].
    + intros (a & e & Hcut & Hlt & Hp'). destruct (decide (e < start)) as [|Hge].
      { left. by exists a, e. }
      assert (e = i) as ->.
      { destruct (decide (e = i)); [done|]. destruct Hcut as (_ & _ & [->|He] & _); [lia|].
        destruct (Hno e); [lia|done]. }
      right. by rewrite (cut_at_here s r start i a Hst Hno Hsi Hcut) in Hp'.
  - split_and!; [done|lia|lia|done| |done]. intros k Hk Hc.
    destruct (decide (k < i)) as [|Hge]; [by destruct (Hno k); [lia|]|].
    destruct (decide (k = i)) as [->|Hne]; [by apply Hsemi in Hc|].
    destruct Hc as [Hc%in_code_pos _]. apply (code_region_disjoint s r k Hc). exists n.
    rewrite Hn. unfold next_pos in *. split_ifs; bool_hyps; lia.
Qed.

Lemma SplitStatements_exact sql r p : p ∈ SplitStatements sql r <-> statement_of r sql p.
Proof.
  unfold SplitStatements, statement_of. assert (pieces_inv sql r ([], 0, 0)) as H0.
  { split_and!; [by exists 0|lia|lia|by left|intros; lia|]. intros q. split; [by intros ?%elem_of_nil|].
    intros (? & ? & _ & ? & _). lia. }
  revert H0. generalize (@nil bytes, 0, 0).
  apply (run_ind _ _ [] (fun st x => pieces_inv sql r st -> p ∈ x <-> exists a e,
    cut_at sql r a e /\ p = TrimSpace (slice a e sql) /\ p <> [] /\ ~ lead r p 0 (length p))
    (split_dec sql r)).
  - intros [[sts start] i] x E (_ & Hle & Hsi & Hst & Hno & Hall). unfold split_step in E.
    destruct (Nat.ltb_spec i (length sql)); [by split_ifs|]. injection E as <-.
    assert (i = length sql) as -> by lia.
    assert (drop start sql = slice start (length sql) sql) as ->.
    { unfold slice. rewrite firstn_all2; [done|]. rewrite length_drop. lia. }
    rewrite (add_statement_spec r), Hall. split.
    + intros [(a & e & Hcut & Hlt & Hp)|Hp]; [by exists a, e|].
      exists start, (length sql). split_and!; [|apply Hp..]. split_and!; [done|done|by left|done].
    + intros (a & e & Hcut & Hp). destruct (decide (e < start)) as [|Hge]; [left; by exists a, e|].
      assert (e = length sql) as ->.
      { pose proof Hcut as (_ & _ & [->|He] & _); [done|].
        assert (e < length sql) by apply He. destruct (Hno e); [lia|done]. }
      right. by rewrite (cut_at_here sql r start _ a Hst Hno Hsi Hcut) in Hp.
  - intros st st' x E IH Hst. by eapply IH, pieces_inv_step.
Qed.

Lemma judged_text_spec sql r p : judged_text r sql p -> p ∈ pieces_of sql r.
Proof.
  unfold judged_text, pieces_of, splitStatementsAs. intros [Hs|[-> Hno]].
  - apply SplitStatements_exact in Hs. destruct (SplitStatements sql r); [by apply elem_of_nil in Hs|done].
  - destruct (SplitStatements sql r) as [|q l] eqn:E; [by apply list_elem_of_singleton|].
    destruct (Hno q). apply SplitStatements_exact. rewrite E. by left.
Qed.

(** ** Searches over the code *)

(** The shape the placeholder scans share. *)
Definition search_step (s : bytes) (r : StringReading) (found : nat -> bool)
    (i : nat) : nat + bool :=
  if i <? length s then
    let j := SkipNonCode s i r in
    if negb (j =? i) then inl j
    else if found i then inr true else inl (i + 1)
  else inr false.

Lemma search_dec (s : bytes) r found :
  decreases (fun i => length s - i) (search_step s r found).
Proof.
  intros i i'. unfold search_step.
  destruct (Nat.ltb_spec i (length s)); [|done].
  pose proof (next_pos_gt s r i) as Hn. unfold next_pos in Hn.
  destruct (SkipNonCode s i r =? i); simpl; split_ifs; intros [= <-]; lia.
Qed.

Lemma search_code (s : bytes) r found :
  run (fun i => length s - i) (search_step s r found) false 0 = true <->
  exists k, code_pos s r k /\ found k = true.
Proof.
  cut (forall i, (exists n, scan_pos s r n = i) ->
    run (fun i => length s - i) (search_step s r found) false i = true <->
    exists k, i <= k /\ code_pos s r k /\ found k = true).
  { intros H. rewrite (H 0) by (by exists 0). split; intros (k & ?); exists k;
      [tauto|split; [lia|done]]. }
  apply (run_ind _ _ false (fun i x => (exists n, scan_pos s r n = i) ->
    x = true <-> exists k, i <= k /\ code_pos s r k /\ found k = true)
    (search_dec s r found)); unfold search_step.
  - intros i x E (n & Hn). destruct (Nat.ltb_spec i (length s)).
    + destruct (Nat.eqb_spec (SkipNonCode s i r) i); [|done]. simpl in E.
      destruct (found i) eqn:Hf; [|done]. injection E as <-. split; [|done].
      intros _. exists i. split; [lia|]. split; [|done].
      unfold code_pos. split_and!; [done|by exists n|done].
    + injection E as <-. split; [done|]. intros (k & ? & (? & _) & _). lia.
  - intros i i' x E IH (n & Hn). destruct (Nat.ltb_spec i (length s)); [|done].
    assert (i' = next_pos s r i /\ (code_pos s r i -> found i = false)) as [-> Hno].
    { unfold next_pos. destruct (Nat.eqb_spec (SkipNonCode s i r) i) as [|Hne];
        simpl in E.
      - destruct (found i); [done|]. by injection E as <-.
      - injection E as <-. split; [done|]. by intros (_ & _ & ?). }
    rewrite IH by (exists (S n); by rewrite scan_pos_S, Hn).
    pose proof (next_pos_gt s r i).
    split; intros (k & Hk & Hc & Hf); exists k; (split; [|done]); [lia|].
    destruct (decide (k < next_pos s r i)); [|lia]. exfalso.
    destruct (decide (k = i)) as [->|]; [by rewrite Hno in Hf|].
    apply (code_region_disjoint s r k Hc). exists n. rewrite Hn.
    unfold next_pos in *. split_ifs; bool_hyps; lia.
Qed.

(** The placeholder scans report exactly the placeholders in code: under
    one of the two readings some code position holds a dollar sign followed
    by a digit from 1 to 9, and, for a bind placeholder, no identifier
    reaches the dollar sign.  Text inside literals and comments is never
    reported. *)
Lemma placeholder_in_code s :
  (containsDollarParam s = true <->
   exists r k, code_pos s r k /\ byte_at s k "$" = true /\
     test_at s (k + 1) digit_1_9 = true) /\
  (containsBindPlaceholder s = true <->
   exists r k, code_pos s r k /\ byte_at s k "$" = true /\
     test_at s (k + 1) digit_1_9 = true /\ ContinuesIdentifier s k = false).
Proof.
  assert (forall r, r ∈ StringReadings) as Hall 
    by (intros []; unfold StringReadings; rewrite !elem_of_cons; tauto).
  unfold containsDollarParam, containsBindPlaceholder.
  split; rewrite existsb_exists; split.
  - intros (r & _ & Hr). exists r. apply search_code in Hr as (k & ? & Hf).
    exists k. bool_hyps. done.
  - intros (r & k & Hc & H1 & H2). exists r.
    split; [apply list_elem_of_In, Hall|]. apply search_code. exists k.
    by rewrite H1, H2.
  - intros (r & _ & Hr). exists r. apply search_code in Hr as (k & ? & Hf).
    exists k. bool_hyps. done.
  - intros (r & k & Hc & H1 & H2 & H3). exists r.
    split; [apply list_elem_of_In, Hall|]. apply search_code. exists k.
    by rewrite H1, H2, H3.
Qed.

(** ** The gate lets through what is harmless *)

Section GateClaims.
Context `{UnicodeCase}.

Lemma explains_spec body : hasKeywordPrefix body (lit "EXPLAIN") = true <-> explains body.
Proof.
  unfold hasKeywordPrefix, explains, EqualFoldASCII. set (kw := lit "EXPLAIN").
  change (length kw) with 7. split.
  - intros Hk. destruct (Nat.ltb_spec (length body) 7) as [|Hlen]; [done|].
    destruct (bytes_eqb (map upper_byte (take 7 body)) kw) eqn:Eq; [|done].
    apply bytes_eqb_eq in Eq. exists (take 7 body), (drop 7 body). split_and!; [by rewrite take_drop|done|].
    intros c Hc Hn%name_spec. cbn [negb orb] in Hk. destruct (drop 7 body) as [|x t] eqn:Ed; [done|].
    injection Hc as ->. look Ed. unfold test_at in Hk. rewrite Hl, Hn in Hk.
    rewrite orb_false_r in Hk. apply Nat.eqb_eq in Hk. apply lookup_lt_Some in Hl. lia.
  - intros (w & rest & -> & Hw & Hrest).
    assert (length w = 7) as Hlen by (by rewrite <- (length_map upper_byte), Hw).
    rewrite length_app, Hlen. rewrite (proj2 (Nat.ltb_ge _ _)) by lia.
    rewrite take_app_le, firstn_all2 by lia. rewrite Hw. unfold bytes_eqb.
    rewrite bool_decide_eq_true_2 by done. cbn [negb orb].
    destruct rest as [|c rest]; [by rewrite Nat.add_0_r|]. apply orb_true_iff. right.
    unfold test_at. rewrite lookup_app_r, Hlen by lia. simpl.
    apply negb_true_iff, not_true_iff_false. rewrite name_spec. by apply Hrest.
Qed.

Lemma option_words_spec r x s y inner :
  run (fun st => length (snd st)) explain_words_step (x, s) (x, s) = (y, inner) ->
  exists z, option_words r z s inner /\ y = x || z.
Proof.
  cut (forall d st, forall res, res = run (fun st => length (snd st)) explain_words_step d st ->
    exists z, option_words r z (snd st) (snd res) /\ fst res = fst st || z).
  { intros Hcut Hrun. destruct (Hcut (x, s) (x, s) _ eq_refl) as (z & Hz & Hy).
    rewrite Hrun in Hz, Hy. by exists z. }
  intros d st res ->. revert st.
  apply (run_ind _ _ d (fun st res => exists z, option_words r z (snd st) (snd res) /\
    fst res = fst st || z) explain_words_dec).
  - intros [x' rest] [y' inner'] E. unfold explain_words_step in E.
    pose proof (first_word_spec rest) as Hw. destruct (nextSQLWord rest) as [w tl]. cbn [fst snd] in *.
    destruct (text_in ["ANALYZE"; "ANALYSE"]%string _) eqn:Ea; [done|].
    destruct (text_in ["VERBOSE"]%string _) eqn:Ev; [done|]. injection E as <- <-.
    exists false. rewrite orb_false_r. split; [|done]. eapply words_end; [exact Hw|].
    rewrite !elem_of_cons. intros [Hu|[Hu|[Hu|Hu%elem_of_nil]]]; [..|done].
    + rewrite Hu in Ea. by vm_compute in Ea.
    + rewrite Hu in Ea. by vm_compute in Ea.
    + rewrite Hu in Ev. by vm_compute in Ev.
  - intros [x' rest] [x2 rest2] [y' inner'] E (z & Hz & Hy). unfold explain_words_step in E.
    pose proof (first_word_spec rest) as Hw. destruct (nextSQLWord rest) as [w tl]. cbn [fst snd] in *.
    destruct (text_in ["ANALYZE"; "ANALYSE"]%string _) eqn:Ea.
    + injection E as <- <-. exists true. rewrite orb_true_r. split; [|by rewrite Hy].
      eapply words_analyze; [exact Hw| |apply body_of_spec|exact Hz].
      apply text_in_spec in Ea as (n & Hn & ->).
      rewrite !elem_of_cons in Hn. destruct Hn as [->|[->|?%elem_of_nil]]; [by left|by right|done].
    + destruct (text_in ["VERBOSE"]%string _) eqn:Ev; [|done]. injection E as <- <-.
      exists z. split; [|done]. eapply words_verbose; [exact Hw| |apply body_of_spec|exact Hz].
      apply text_in_spec in Ev as (n & Hn & ->). by apply list_elem_of_singleton in Hn as ->.
Qed.

(** Options the gate takes not to execute are planning options. *)
Lemma planning_options_spec options r a e :
  explainOptionsExecute options r = false -> option_entry options r a e ->
  planning_option r (slice a e options).
Proof.
  unfold explainOptionsExecute, splitExplainOptionEntries. intros Hx He%option_entries_spec.
  set (entries := run _ _ _ _) in *.
  assert (existsb (fun entry => negb (text_in explainNonExecutingOptions
    (ToUpper (fst (nextSQLWord (body_of entry)))))) entries = false) as Hall.
  { destruct entries as [|x [|y l]]; try done. by destruct (bytes_eqb _ _). }
  destruct (text_in explainNonExecutingOptions
    (ToUpper (fst (nextSQLWord (body_of (slice a e options)))))) eqn:Ht.
  2:{ apply not_true_iff_false in Hall. destruct Hall. apply existsb_exists.
      exists (slice a e options). split; [by apply list_elem_of_In|]. by rewrite Ht. }
  apply text_in_spec in Ht as (name & Hn & Heq).
  exists (body_of (slice a e options)), (fst (nextSQLWord (body_of (slice a e options)))),
    (snd (nextSQLWord (body_of (slice a e options)))), name.
  split_and!; [apply body_of_spec|apply first_word_spec|done|done].
Qed.

Lemma parseExplainHead_spec r body x inner :
  parseExplainHead body r = Some (x, inner) -> explained r body x inner.
Proof.
  unfold parseExplainHead. change (length (lit "EXPLAIN")) with 7.
  set (after := body_of (drop 7 body)). pose proof (body_of_spec r (drop 7 body)) as Hafter.
  fold after in Hafter. destruct (HasPrefix after (lit "(")) eqn:Hp.
  - apply HasPrefix_spec in Hp as [t Ht]. assert (head after = Some "("%char) as Hh by (by rewrite Ht).
    destruct (splitExplainOptions after r) as [[options rest]|] eqn:Hs; [|done].
    apply splitExplainOptions_spec in Hs as (k & Hk & -> & ->); [|done]. intros [= <- <-].
    eapply explained_list; [done|done|apply body_of_spec|].
    intros Hx a e. by apply planning_options_spec.
  - intros Hr. injection Hr as Hr. apply (option_words_spec r) in Hr as (z & Hz & ->).
    eapply explained_words; [done| |done]. intros Hh. apply not_true_iff_false in Hp. apply Hp.
    destruct after as [|c t]; [done|]. by injection Hh as ->.
Qed.

Lemma reads_only_spec body r :
  negb (hasWritingSelectClause (ToUpper (MaskNonCode body r))) &&
  negb (CallsSideEffectingFunction body r) = true ->
  reads_only r body (sqlWords (ToUpper (MaskNonCode body r))).
Proof.
  unfold hasWritingSelectClause, reads_only.
  rewrite andb_true_iff, !negb_true_iff, orb_false_iff.
  rewrite <- !not_true_iff_false, containsSQLKeyword_words, containsLockingClause_iff
    by (by apply ident_word_lit).
  intros [[Hinto Hlock] Hcalls%not_true_iff_false%detector_text]. done.
Qed.

Lemma begins_spec kw t : HasPrefix t (lit kw) = true -> begins kw t.
Proof. apply HasPrefix_spec. Qed.

Lemma plain_harmless n sql r :
  hasKeywordPrefix (body_of sql) (lit "EXPLAIN") = false ->
  isReadOnlyStatementAtDepth n sql r = true -> harmless r n sql.
Proof.
  intros He Hro. pose proof (body_of_spec r sql) as Hb.
  assert (~ explains (body_of sql)) as Hne by (rewrite <- explains_spec; congruence).
  assert ((let u := ToUpper (MaskNonCode (body_of sql) r) in
    if HasPrefix u (lit "WITH") then
      if existsb (fun kw => containsSQLKeyword u (lit kw)) dmlKeywords then false
      else negb (hasWritingSelectClause u) && negb (CallsSideEffectingFunction (body_of sql) r)
    else if HasPrefix u (lit "SELECT") || HasPrefix u (lit "TABLE ")
    then negb (hasWritingSelectClause u) && negb (CallsSideEffectingFunction (body_of sql) r)
    else HasPrefix u (lit "SHOW")) = true) as Hgate.
  { destruct n; cbn [isReadOnlyStatementAtDepth] in Hro; by rewrite He in Hro. }
  clear Hro. cbv zeta in Hgate. pose proof (masked_spec (body_of sql) r) as Hm.
  pose proof (cut_words_spec (ToUpper (MaskNonCode (body_of sql) r))) as Hw.
  destruct (HasPrefix _ (lit "WITH")) eqn:Ew.
  { destruct (existsb _ dmlKeywords) eqn:Ed; [done|].
    eapply harmless_with; [exact Hb|done|exact Hm|by apply begins_spec|exact Hw| |by apply reads_only_spec].
    intros w Hkw Hin. apply not_true_iff_false in Ed. apply Ed, existsb_exists. exists w.
    split; [by apply list_elem_of_In|]. apply containsSQLKeyword_words; [|done].
    rewrite !elem_of_cons in Hkw. destruct Hkw as [->|[->|[->|[->|?%elem_of_nil]]]];
      try done; by apply ident_word_lit. }
  destruct (HasPrefix _ (lit "SELECT") || HasPrefix _ (lit "TABLE ")) eqn:Es.
  - eapply harmless_select; [exact Hb|done|exact Hm| |exact Hw|by apply reads_only_spec].
    apply orb_true_iff in Es as [?|?]; [left|right]; by apply begins_spec.
  - eapply harmless_show; [exact Hb|done|exact Hm|by apply begins_spec].
Qed.

Lemma isReadOnlyStatementAtDepth_harmless n sql r :
  isReadOnlyStatementAtDepth n sql r = true -> harmless r n sql.
Proof.
  revert sql. induction n as [|n IH]; intros sql;
    (destruct (hasKeywordPrefix (body_of sql) (lit "EXPLAIN")) eqn:He; [|by apply plain_harmless]);
    cbn [isReadOnlyStatementAtDepth]; rewrite He; unfold isReadOnlyExplain;
    apply explains_spec in He; pose proof (body_of_spec r sql) as Hb;
    destruct (parseExplainHead (body_of sql) r) as [[[] rest]|] eqn:Hp; try done; cbn [negb];
    apply parseExplainHead_spec in Hp; try (intros _; by eapply harmless_plan);
    destruct (bytes_eqb rest []) eqn:Hr; try done.
  intros Hrec%IH. eapply harmless_analyze; [exact Hb|exact He|exact Hp| |exact Hrec]. by intros ->.
Qed.

End GateClaims.
