(* ===== verification/AuthStore.v ===== *)
(** * The authorisation store: tables and reads
      (server/src/internal/auth: types.go, store.go, groups.go,
      privileges.go, token_scope.go, middleware.go)

    The SQLite database is a record of tables, each a list of rows; the SQL
    text of the source is a query over those lists.  Any query can fail, and
    [fault] says which ones do: it is given the Go function, the number of
    the query in it and the query's integer arguments, so a theorem that
    holds for every [fault] holds for every combination of failing
    queries. *)
From stdpp Require Import base list strings gmap sets relations.
From S2P Require Import Prelude.

Local Open Scope Z_scope.
Local Open Scope res_scope.

(** ** Data *)

Definition ConnectionIDAll : Z := 0.
Definition MCPPrivilegeIDWildcard : Z := 0.
Definition AdminPermissionWildcard : string := "*".
Definition mcpScopeWildcard : string := "*".
Definition AccessLevelNone : string := "".
Definition AccessLevelRead : string := "read".
Definition AccessLevelReadWrite : string := "read_write".

Record User := {
  user_id : Z; Username : string; IsSuperuserRow : bool;
}.

Record UserGroup := { group_id : Z; Name : string }.

Record StoredToken := { stored_token_id : Z; OwnerID : Z }.

(** Either the user or the group is set. *)
Record GroupMembership := {
  ParentGroupID : Z; MemberUserID : option Z; MemberGroupID : option Z;
}.

Record MCPPrivilege := {
  mcp_id : Z; Identifier : string; IsPublic : bool;
}.

Record GroupMCPPrivilege := { gmp_group : Z; gmp_privilege : Z }.

Record ConnectionPrivilege := {
  cp_group : Z; cp_connection : Z; cp_level : string;
}.

Record AdminPermissionGrant := { gap_group : Z; gap_permission : string }.

Record ScopedConnection := { ConnectionID : Z; AccessLevel : string }.

Record TokenConnectionScope := { tcs_token : Z; tcs_row : ScopedConnection }.
Record TokenMCPScope := { tms_token : Z; tms_privilege : Z }.
Record TokenAdminScope := { tas_token : Z; tas_permission : string }.

#[export] Instance ScopedConnection_eq_dec : EqDecision ScopedConnection.
Proof. solve_decision. Defined.
#[export] Instance GroupMembership_eq_dec : EqDecision GroupMembership.
Proof. solve_decision. Defined.
#[export] Instance ConnectionPrivilege_eq_dec : EqDecision ConnectionPrivilege.
Proof. solve_decision. Defined.

Record TokenScope := {
  TokenID : Z;
  Connections : list ScopedConnection;
  MCPPrivileges : list Z;
  AdminPermissions : list string;
}.

(** An audit event, reduced to what the operations modelled here put in it;
    the hash chain is not modelled. *)
Record AuditEvent := {
  ev_action : string; ev_target : Z; ev_member : option Z; ev_success : bool;
}.

Record tables := {
  users : list User;
  user_group_rows : list UserGroup;
  tokens : list StoredToken;
  group_memberships : list GroupMembership;
  mcp_privilege_identifiers : list MCPPrivilege;
  group_mcp_privileges : list GroupMCPPrivilege;
  connection_privileges : list ConnectionPrivilege;
  group_admin_permissions : list AdminPermissionGrant;
  token_connection_scope : list TokenConnectionScope;
  token_mcp_scope : list TokenMCPScope;
  token_admin_scope : list TokenAdminScope;
  audit_events : list AuditEvent;
}.

Inductive auth_error :=
| DBError
| ErrTokenNotFound
| ErrInvalidAccessLevel
| ErrInvalidConnectionScope
| ErrUnknownMCPPrivilege
| ErrUnknownAdminPermission
| ErrGroupCycle
| ErrNotAMember
| ErrSuperuserTargetForbidden
| ErrTokenNotOwned
| ErrTokenScopeChanged
| ErrRevokeLiftsRestriction
| ErrGroupNotFound
| ErrGrantNotFound
| ErrPrivilegeNotFound
| ErrTokenScopeUnreadable
| ErrFederatedAPITokensDisabled
| ErrLastSuperuser
| ErrUserNotFound
| ErrInvalidInput
| ErrHashing
| ErrRandom
| ErrInvalidCredentials
| ErrSessionEnded
| ErrInvalidToken
| ErrMissingCredentials
| ErrAuthStoreUnavailable.

#[export] Instance auth_error_eq_dec : EqDecision auth_error.
Proof. solve_decision. Defined.

Abbreviation result := (res auth_error).

Record AuthStore := {
  db : tables;
  fault : string -> nat -> list Z -> bool;
}.

(** One query: it fails, or gives its value. *)
Definition ask {A} (s : AuthStore) (fn : string) (n : nat) (args : list Z)
    (v : A) : result A :=
  if fault s fn n args then Err DBError else Ok v.

(** ** Groups of a user (groups.go) *)

(** A recursive CTE with UNION: rows reachable from the base rows along
    [edges], each once. *)
Definition cte_new (edges : list (Z * Z)) (seen : list Z) : list Z :=
  filter (fun x => x ∉ seen)
    (remove_dups (map snd (filter (fun e => fst e ∈ seen) edges))).

Definition cte_step (edges : list (Z * Z)) (seen : list Z)
    : list Z + list Z :=
  match cte_new edges seen with
  | [] => inr seen
  | new => inl (seen ++ new)
  end.

Definition recursive_cte (edges : list (Z * Z)) (base : list Z) : list Z :=
  run (fun seen => length (filter (fun e => snd e ∉ seen) edges))
      (cte_step edges) [] (remove_dups base).

(** The edges of the hierarchy: from a group to the groups it is a member
    of, and from a group to the groups that are its members. *)
Definition parent_edges (t : tables) : list (Z * Z) :=
  omap (fun m => match MemberGroupID m with
                 | Some g => Some (g, ParentGroupID m)
                 | None => None
                 end) (group_memberships t).

Definition child_edges (t : tables) : list (Z * Z) :=
  omap (fun m => match MemberGroupID m with
                 | Some g => Some (ParentGroupID m, g)
                 | None => None
                 end) (group_memberships t).

Definition direct_groups (t : tables) (userID : Z) : list Z :=
  omap (fun m => if decide (MemberUserID m = Some userID)
                 then Some (ParentGroupID m) else None)
       (group_memberships t).

Definition getUserGroupsInternal (s : AuthStore) (userID : Z)
    : result (list Z) :=
  ask s "getUserGroupsInternal" 0 [userID]
      (recursive_cte (parent_edges (db s)) (direct_groups (db s) userID)).

Definition GetUserGroups (s : AuthStore) (userID : Z) : result (list Z) :=
  getUserGroupsInternal s userID.

(** [validateNoCircularReference], with the check that the parent is not a
    descendant of the child. *)
Definition validateNoCircularReference (s : AuthStore)
    (parentGroupID childGroupID : Z) : result unit :=
  if parentGroupID =? childGroupID then Err ErrGroupCycle
  else
    let! count := ask s "validateNoCircularReference" 0
      [childGroupID; parentGroupID]
      (let edges := child_edges (db s) in
       let base := map snd (filter (fun e => fst e = childGroupID) edges) in
       length (filter (fun g => g = parentGroupID) (recursive_cte edges base)))
    in
    if (0 <? count)%nat then Err ErrGroupCycle else Ok tt.

Definition IsUserInGroup (s : AuthStore) (userID groupID : Z) : result bool :=
  let! groups := GetUserGroups s userID in
  Ok (existsb (Z.eqb groupID) groups).

(** ** Privileges of a user (privileges.go) *)

(** A loop over group IDs whose body may fail. *)
Fixpoint fold_groups {A} (body : A -> Z -> result A) (groupIDs : list Z)
    (acc : A) : result A :=
  match groupIDs with
  | [] => Ok acc
  | g :: gs => let! acc := body acc g in fold_groups body gs acc
  end.

(** The identifiers joined to a group's privilege rows. *)
Definition group_mcp_names (t : tables) (groupID : Z) : list string :=
  omap (fun p => if existsb (fun r => (gmp_group r =? groupID) &&
                                      (gmp_privilege r =? mcp_id p))
                            (group_mcp_privileges t)
                 then Some (Identifier p) else None)
       (mcp_privilege_identifiers t).

Definition group_mcp_wildcard (t : tables) (groupID : Z) : bool :=
  existsb (fun r => (gmp_group r =? groupID) &&
                    (gmp_privilege r =? MCPPrivilegeIDWildcard))
          (group_mcp_privileges t).

Definition GetUserMCPPrivileges (s : AuthStore) (userID : Z)
    : result (gset string) :=
  let! groupIDs := GetUserGroups s userID in
  fold_groups (fun privileges g =>
    let! names := ask s "GetUserMCPPrivileges" 0 [g]
                      (group_mcp_names (db s) g) in
    let privileges := privileges ∪ list_to_set names in
    let! wildcard := ask s "GetUserMCPPrivileges" 1 [g]
                         (group_mcp_wildcard (db s) g) in
    Ok (if wildcard then {["*"%string]} ∪ privileges else privileges))
    groupIDs ∅.

(** The rows of a group's connection grants, and the loop body that keeps
    the highest level. *)
Definition group_conn_rows (t : tables) (groupID : Z) : list (Z * string) :=
  omap (fun r => if cp_group r =? groupID
                 then Some (cp_connection r, cp_level r) else None)
       (connection_privileges t).

Definition keep_highest (privileges : gmap Z string) (row : Z * string)
    : gmap Z string :=
  let '(connID, accessLevel) := row in
  match privileges !! connID with
  | None => <[connID := accessLevel]> privileges
  | Some existing =>
      if String.eqb accessLevel AccessLevelReadWrite
      then <[connID := accessLevel]> privileges
      else if String.eqb existing AccessLevelRead &&
              String.eqb accessLevel AccessLevelReadWrite
      then <[connID := accessLevel]> privileges
      else privileges
  end.

Definition GetUserConnectionPrivileges (s : AuthStore) (userID : Z)
    : result (gmap Z string) :=
  let! groupIDs := GetUserGroups s userID in
  fold_groups (fun privileges g =>
    let! rows := ask s "GetUserConnectionPrivileges" 0 [g]
                     (group_conn_rows (db s) g) in
    Ok (foldl keep_highest privileges rows))
    groupIDs ∅.

Definition group_admin_names (t : tables) (groupID : Z) : list string :=
  omap (fun r => if gap_group r =? groupID then Some (gap_permission r)
                 else None) (group_admin_permissions t).

Definition GetUserAdminPermissions (s : AuthStore) (userID : Z)
    : result (gset string) :=
  let! groupIDs := GetUserGroups s userID in
  fold_groups (fun permissions g =>
    let! perms := ask s "GetUserAdminPermissions" 0 [g]
                      (group_admin_names (db s) g) in
    Ok (permissions ∪ list_to_set perms))
    groupIDs ∅.

Definition IsConnectionAssignedToAnyGroup (s : AuthStore) (connectionID : Z)
    : result bool :=
  ask s "IsConnectionAssignedToAnyGroup" 0 [connectionID]
      (existsb (fun r => cp_connection r =? connectionID)
               (connection_privileges (db s))).

Definition RestrictedConnectionIDs (s : AuthStore) : result (gset Z) :=
  ask s "RestrictedConnectionIDs" 0 []
      (list_to_set (map cp_connection
         (filter (fun r => cp_connection r <> ConnectionIDAll)
                 (connection_privileges (db s))))).

Definition find_identifier (t : tables) (identifier : string)
    : option MCPPrivilege :=
  find (fun p => String.eqb (Identifier p) identifier)
       (mcp_privilege_identifiers t).

(** [(isPublic, isRegistered)]. *)
Definition IsPrivilegePublic (s : AuthStore) (identifier : string)
    : result (bool * bool) :=
  ask s "IsPrivilegePublic" 0 []
      (match find_identifier (db s) identifier with
       | None => (false, false)
       | Some p => (IsPublic p, true)
       end).

Definition GetMCPPrivilegeByID (s : AuthStore) (id : Z)
    : result (option MCPPrivilege) :=
  ask s "GetMCPPrivilegeByID" 0 [id]
      (find (fun p => mcp_id p =? id) (mcp_privilege_identifiers (db s))).

(** ** Token scopes (token_scope.go) *)

Definition token_exists (t : tables) (tokenID : Z) : bool :=
  existsb (fun k => stored_token_id k =? tokenID) (tokens t).

(** [requireTokenLocked], called from [fn]. *)
Definition requireTokenLocked (s : AuthStore) (fn : string) (tokenID : Z)
    : result unit :=
  let! exists_ := ask s fn 0 [tokenID] (token_exists (db s) tokenID) in
  if exists_ then Ok tt else Err ErrTokenNotFound.

Definition scope_connections (t : tables) (tokenID : Z)
    : list ScopedConnection :=
  omap (fun r => if tcs_token r =? tokenID then Some (tcs_row r) else None)
       (token_connection_scope t).

Definition scope_mcp (t : tables) (tokenID : Z) : list Z :=
  omap (fun r => if tms_token r =? tokenID then Some (tms_privilege r)
                 else None) (token_mcp_scope t).

Definition scope_admin (t : tables) (tokenID : Z) : list string :=
  omap (fun r => if tas_token r =? tokenID then Some (tas_permission r)
                 else None) (token_admin_scope t).

Definition is_nil {A} (l : list A) : bool :=
  match l with [] => true | _ => false end.

Definition GetTokenScope (s : AuthStore) (tokenID : Z)
    : result (option TokenScope) :=
  let! _ := requireTokenLocked s "GetTokenScope" tokenID in
  let! conns := ask s "GetTokenScope" 1 [tokenID]
                    (scope_connections (db s) tokenID) in
  let! mcp := ask s "GetTokenScope" 2 [tokenID] (scope_mcp (db s) tokenID) in
  let! perms := ask s "GetTokenScope" 3 [tokenID]
                    (scope_admin (db s) tokenID) in
  Ok (if is_nil conns && is_nil mcp && is_nil perms then None
      else Some {| TokenID := tokenID; Connections := conns;
                   MCPPrivileges := mcp; AdminPermissions := perms |}).

(** The rows [WHERE token_id = ? AND connection_id = ?]; [QueryRow] takes
    the first. *)
Definition scope_level (t : tables) (tokenID connectionID : Z)
    : option string :=
  match filter (fun sc => ConnectionID sc = connectionID)
               (scope_connections t tokenID) with
  | [] => None
  | sc :: _ => Some (AccessLevel sc)
  end.

Definition IsConnectionInTokenScope (s : AuthStore) (tokenID connectionID : Z)
    : result (bool * string) :=
  let fn := "IsConnectionInTokenScope"%string in
  let! _ := requireTokenLocked s fn tokenID in
  let! count := ask s fn 1 [tokenID]
                    (length (scope_connections (db s) tokenID)) in
  if (count =? 0)%nat then Ok (true, AccessLevelNone)
  else
    let! specific := ask s fn 2 [tokenID; connectionID]
                         (scope_level (db s) tokenID connectionID) in
    match specific with
    | Some accessLevel => Ok (true, accessLevel)
    | None =>
        let! wildcard := ask s fn 3 [tokenID]
                             (scope_level (db s) tokenID ConnectionIDAll) in
        match wildcard with
        | None => Ok (false, AccessLevelNone)
        | Some accessLevel => Ok (true, accessLevel)
        end
    end.

(** The join of a token's MCP scope rows with the identifiers. *)
Definition scope_mcp_names (t : tables) (tokenID : Z) : list string :=
  omap (fun p => if existsb (Z.eqb (mcp_id p)) (scope_mcp t tokenID)
                 then Some (Identifier p) else None)
       (mcp_privilege_identifiers t).

Definition IsMCPItemInTokenScope (s : AuthStore) (tokenID : Z)
    (identifier : string) : result bool :=
  let fn := "IsMCPItemInTokenScope"%string in
  let! _ := requireTokenLocked s fn tokenID in
  let! scopeCount := ask s fn 1 [tokenID] (length (scope_mcp (db s) tokenID)) in
  if (scopeCount =? 0)%nat then Ok true
  else
    let! wildcard := ask s fn 2 [tokenID]
      (existsb (Z.eqb MCPPrivilegeIDWildcard) (scope_mcp (db s) tokenID)) in
    if wildcard then Ok true
    else ask s fn 3 [tokenID]
           (existsb (String.eqb identifier) (scope_mcp_names (db s) tokenID)).

Definition GetTokenAdminScope (s : AuthStore) (tokenID : Z)
    : result (list string) :=
  let fn := "GetTokenAdminScope"%string in
  let! _ := requireTokenLocked s fn tokenID in
  ask s fn 1 [tokenID] (scope_admin (db s) tokenID).

Definition IsAdminPermissionInTokenScope (s : AuthStore) (tokenID : Z)
    (permission : string) : result bool :=
  let fn := "IsAdminPermissionInTokenScope"%string in
  let! _ := requireTokenLocked s fn tokenID in
  let! count := ask s fn 1 [tokenID] (length (scope_admin (db s) tokenID)) in
  if (count =? 0)%nat then Ok true
  else
    let! wildcard := ask s fn 2 [tokenID]
      (existsb (String.eqb AdminPermissionWildcard)
               (scope_admin (db s) tokenID)) in
    if wildcard then Ok true
    else ask s fn 3 [tokenID]
           (existsb (String.eqb permission) (scope_admin (db s) tokenID)).

Definition HasTokenMCPScope (s : AuthStore) (tokenID : Z) : result bool :=
  let fn := "HasTokenMCPScope"%string in
  let! _ := requireTokenLocked s fn tokenID in
  let! count := ask s fn 1 [tokenID] (length (scope_mcp (db s) tokenID)) in
  Ok (0 <? count)%nat.

(** The query orders the names; their order is not modelled. *)
Definition GetTokenMCPScope (s : AuthStore) (tokenID : Z)
    : result (list string) :=
  let fn := "GetTokenMCPScope"%string in
  let! _ := requireTokenLocked s fn tokenID in
  let! wildcard := ask s fn 1 [tokenID]
    (existsb (Z.eqb MCPPrivilegeIDWildcard) (scope_mcp (db s) tokenID)) in
  if wildcard then Ok ["*"%string]
  else ask s fn 2 [tokenID] (scope_mcp_names (db s) tokenID).

Definition HasTokenScope (s : AuthStore) (tokenID : Z) : result bool :=
  let fn := "HasTokenScope"%string in
  let! _ := requireTokenLocked s fn tokenID in
  let! connCount := ask s fn 1 [tokenID]
                        (length (scope_connections (db s) tokenID)) in
  let! mcpCount := ask s fn 2 [tokenID] (length (scope_mcp (db s) tokenID)) in
  let! adminCount := ask s fn 3 [tokenID]
                         (length (scope_admin (db s) tokenID)) in
  Ok ((0 <? connCount)%nat || (0 <? mcpCount)%nat || (0 <? adminCount)%nat).

(** [InScope] of [TokenScope] (types.go). *)
Definition InScope (ts : TokenScope) (connectionID : Z) : bool :=
  if is_nil (Connections ts) then true
  else existsb (fun sc => (ConnectionID sc =? connectionID) ||
                          (ConnectionID sc =? ConnectionIDAll))
               (Connections ts).

(** ** The request context (middleware.go) *)

(** A key absent from the context reads as the zero value. *)
Record Context := {
  ctx_username : string;
  ctx_isAPIToken : bool;
  ctx_userID : Z;
  ctx_tokenID : Z;
  ctx_isSuperuser : bool;
}.

(** ** Recursive CTEs *)

Section Cte.
Context (edges : list (Z * Z)).

Definition edge (a b : Z) : Prop := (a, b) ∈ edges.

Lemma cte_new_spec seen x :
  x ∈ cte_new edges seen <-> (x ∉ seen) /\ exists a, a ∈ seen /\ edge a x.
Proof.
  unfold cte_new, edge. rewrite list_elem_of_filter, elem_of_remove_dups.
  rewrite (list_elem_of_fmap snd). split.
  - intros [Hx ([a b] & -> & Hf)]. apply list_elem_of_filter in Hf as [Ha He].
    simpl in *. eauto.
  - intros [Hx (a & Ha & He)]. split; [done|]. exists (a, x).
    split; [done|]. by apply list_elem_of_filter.
Qed.

Lemma cte_dec :
  decreases (fun seen => length (filter (fun e => snd e ∉ seen) edges))
            (cte_step edges).
Proof.
  intros seen seen'. unfold cte_step.
  destruct (cte_new edges seen) as [|x new] eqn:E; [done|]. intros [= <-].
  assert ((x ∉ seen) /\ exists a, a ∈ seen /\ edge a x) as (Hx & a & _ & He).
  { apply cte_new_spec. rewrite E. apply list_elem_of_here. }
  unfold edge in He. apply list_elem_of_split in He as (l1 & l2 & ->).
  rewrite !filter_app, !length_app, !filter_cons, decide_False, decide_True by
    (simpl; rewrite ?elem_of_app, ?elem_of_cons; tauto).
  assert (forall l : list (Z * Z),
    (length (filter (fun e => snd e ∉ seen ++ x :: new) l)
       <= length (filter (fun e => snd e ∉ seen) l))%nat) as Hle.
  { intros l. induction l as [|e l IH]; [done|]. rewrite !filter_cons.
    repeat case_decide; simpl; rewrite ?elem_of_app in *; try lia; tauto. }
  pose proof (Hle l1). pose proof (Hle l2). simpl. lia.
Qed.

(** The rows are exactly those reachable from the base rows. *)
Lemma recursive_cte_spec base x :
  x ∈ recursive_cte edges base <-> exists b, b ∈ base /\ rtc edge b x.
Proof.
  unfold recursive_cte.
  cut (forall seen, (x ∈ run (fun seen => length (filter (fun e => snd e ∉ seen) edges))
         (cte_step edges) [] seen <-> exists b, b ∈ seen /\ rtc edge b x)).
  { intros H. rewrite H. by setoid_rewrite elem_of_remove_dups. }
  apply (run_ind _ _ [] (fun seen r => x ∈ r <-> exists b, b ∈ seen /\ rtc edge b x)
           cte_dec); unfold cte_step.
  - intros seen r E. destruct (cte_new edges seen) as [|y new] eqn:En; [|done].
    injection E as <-. split; [by eauto using rtc_refl|].
    intros (b & Hb & Hr). revert Hb. induction Hr as [b|b c x Hbc _ IH]; [done|].
    intros Hb. apply IH. destruct (decide (c ∈ seen)) as [|Hc]; [done|].
    assert (c ∈ cte_new edges seen) as Hn by (apply cte_new_spec; eauto).
    rewrite En in Hn. by apply elem_of_nil in Hn.
  - intros seen seen' r E ->. destruct (cte_new edges seen) as [|y new] eqn:En;
      [done|]. injection E as <-. split.
    + intros (b & [Hb|Hb]%elem_of_app & Hr); [by eauto|].
      rewrite <- En in Hb. apply cte_new_spec in Hb as (_ & a & Ha & He).
      exists a. split; [done|]. by eapply rtc_l.
    + intros (b & Hb & Hr). exists b. rewrite elem_of_app. auto.
Qed.
End Cte.

(** ** What the reads return

    The value each read has when no query fails, as a function of the
    tables. *)

Definition user_groups (t : tables) (userID : Z) : list Z :=
  recursive_cte (parent_edges t) (direct_groups t userID).

Definition user_conns (t : tables) (userID : Z) : gmap Z string :=
  foldl (fun m g => foldl keep_highest m (group_conn_rows t g)) ∅
        (user_groups t userID).

Definition user_mcp (t : tables) (userID : Z) : gset string :=
  foldl (fun m g =>
    let m := m ∪ list_to_set (group_mcp_names t g) in
    if group_mcp_wildcard t g then {["*"%string]} ∪ m else m) ∅
    (user_groups t userID).

Definition user_admin (t : tables) (userID : Z) : gset string :=
  foldl (fun m g => m ∪ list_to_set (group_admin_names t g)) ∅
        (user_groups t userID).

(** The level a token's connection scope gives, [None] outside it; the empty
    level is the one of a token with no connection scope. *)
Definition conn_scope (t : tables) (tokenID connectionID : Z)
    : option string :=
  if is_nil (scope_connections t tokenID) then Some AccessLevelNone
  else match scope_level t tokenID connectionID with
       | Some l => Some l
       | None => scope_level t tokenID ConnectionIDAll
       end.

Definition mcp_in_scope (t : tables) (tokenID : Z) (identifier : string)
    : bool :=
  is_nil (scope_mcp t tokenID) ||
  existsb (Z.eqb MCPPrivilegeIDWildcard) (scope_mcp t tokenID) ||
  existsb (String.eqb identifier) (scope_mcp_names t tokenID).

Definition admin_in_scope (t : tables) (tokenID : Z) (permission : string)
    : bool :=
  is_nil (scope_admin t tokenID) ||
  existsb (String.eqb AdminPermissionWildcard) (scope_admin t tokenID) ||
  existsb (String.eqb permission) (scope_admin t tokenID).

Definition token_scope (t : tables) (tokenID : Z) : option TokenScope :=
  let conns := scope_connections t tokenID in
  let mcp := scope_mcp t tokenID in
  let perms := scope_admin t tokenID in
  if is_nil conns && is_nil mcp && is_nil perms then None
  else Some {| TokenID := tokenID; Connections := conns;
               MCPPrivileges := mcp; AdminPermissions := perms |}.

Definition restricted_by_group (t : tables) (connectionID : Z) : bool :=
  existsb (fun r => cp_connection r =? connectionID) (connection_privileges t).

Definition fault_free (s : AuthStore) : Prop :=
  forall fn n args, fault s fn n args = false.

(** [reads s m v]: [m] gives [v] or an error, and [v] when no query
    fails. *)
Definition reads {A} (s : AuthStore) (m : result A) (v : A) : Prop :=
  (m = Ok v \/ exists e, m = Err e) /\ (fault_free s -> m = Ok v).

Lemma reads_Ok {A} s (m : result A) v w : reads s m v -> m = Ok w -> w = v.
Proof. intros [[->|[e ->]] _]; congruence. Qed.

Lemma reads_ret {A} s (v : A) : reads s (Ok v) v.
Proof. split; auto. Qed.

Lemma reads_ask {A} s fn n args (v : A) : reads s (ask s fn n args v) v.
Proof.
  unfold ask. split; [destruct (fault s fn n args); eauto|].
  intros Hf. by rewrite Hf.
Qed.

Lemma reads_bind {A B} s (m : result A) (k : A -> result B) v w :
  reads s m v -> reads s (k v) w -> reads s (rbind m k) w.
Proof.
  intros [[->|[e ->]] Hm] Hk; simpl; [done|]. split; [eauto|].
  intros Hf. specialize (Hm Hf). congruence.
Qed.

Lemma reads_fold {A} s (body : A -> Z -> result A) (f : A -> Z -> A) gs acc :
  (forall acc g, reads s (body acc g) (f acc g)) ->
  reads s (fold_groups body gs acc) (foldl f acc gs).
Proof.
  intros Hb. revert acc. induction gs as [|g gs IH]; intros acc; simpl;
    [apply reads_ret|]. eapply reads_bind; [apply Hb|apply IH].
Qed.

(** [reads_on] walks through the queries of a read, in the order the code
    sends them, up to the next test. *)
#[export] Hint Resolve reads_ret reads_ask : wb.
Ltac reads_on :=
  repeat (eapply reads_bind; [solve [eauto with wb]|]; cbv beta);
  eauto with wb.

Lemma reads_groups s u : reads s (GetUserGroups s u) (user_groups (db s) u).
Proof. apply reads_ask. Qed.
#[export] Hint Resolve reads_groups : wb.

Lemma reads_conns s u :
  reads s (GetUserConnectionPrivileges s u) (user_conns (db s) u).
Proof.
  unfold GetUserConnectionPrivileges. reads_on.
  apply reads_fold. intros m g. reads_on.
Qed.

Lemma reads_mcp s u : reads s (GetUserMCPPrivileges s u) (user_mcp (db s) u).
Proof.
  unfold GetUserMCPPrivileges. reads_on. apply reads_fold. intros m g. reads_on.
Qed.

Lemma reads_admin s u :
  reads s (GetUserAdminPermissions s u) (user_admin (db s) u).
Proof.
  unfold GetUserAdminPermissions. reads_on.
  apply reads_fold. intros m g. reads_on.
Qed.

Lemma reads_token s fn tok :
  token_exists (db s) tok = true -> reads s (requireTokenLocked s fn tok) tt.
Proof.
  intros Ht. unfold requireTokenLocked. reads_on. rewrite Ht. reads_on.
Qed.
#[export] Hint Resolve reads_token : wb.

Lemma requireTokenLocked_missing s fn tok :
  token_exists (db s) tok = false -> exists e, requireTokenLocked s fn tok = Err e.
Proof.
  intros Ht. unfold requireTokenLocked, ask. rewrite Ht.
  destruct (fault s fn 0%nat [tok]); simpl; eauto.
Qed.

Lemma length_is_nil {A} (l : list A) : (length l =? 0)%nat = is_nil l.
Proof. by destruct l. Qed.

Lemma reads_conn_scope s tok c :
  token_exists (db s) tok = true ->
  reads s (IsConnectionInTokenScope s tok c)
    (match conn_scope (db s) tok c with
     | Some l => (true, l)
     | None => (false, AccessLevelNone)
     end).
Proof.
  intros Ht. unfold IsConnectionInTokenScope. reads_on.
  rewrite length_is_nil. unfold conn_scope.
  destruct (is_nil (scope_connections (db s) tok)); reads_on.
  destruct (scope_level (db s) tok c); reads_on.
  destruct (scope_level (db s) tok ConnectionIDAll); reads_on.
Qed.

Lemma reads_mcp_scope s tok id :
  token_exists (db s) tok = true ->
  reads s (IsMCPItemInTokenScope s tok id) (mcp_in_scope (db s) tok id).
Proof.
  intros Ht. unfold IsMCPItemInTokenScope. reads_on.
  rewrite length_is_nil. unfold mcp_in_scope.
  destruct (is_nil (scope_mcp (db s) tok)); reads_on.
  destruct (existsb _ (scope_mcp (db s) tok)); reads_on.
Qed.

Lemma reads_admin_scope s tok p :
  token_exists (db s) tok = true ->
  reads s (IsAdminPermissionInTokenScope s tok p) (admin_in_scope (db s) tok p).
Proof.
  intros Ht. unfold IsAdminPermissionInTokenScope. reads_on.
  rewrite length_is_nil. unfold admin_in_scope.
  destruct (is_nil (scope_admin (db s) tok)); reads_on.
  destruct (existsb (String.eqb AdminPermissionWildcard) _); reads_on.
Qed.

Lemma reads_scope s tok :
  token_exists (db s) tok = true ->
  reads s (GetTokenScope s tok) (token_scope (db s) tok).
Proof. intros Ht. unfold GetTokenScope. reads_on. Qed.

(** Every scope read of a token that does not exist fails. *)
Lemma scope_reads_missing s tok :
  token_exists (db s) tok = false ->
  (forall c, exists e, IsConnectionInTokenScope s tok c = Err e) /\
  (forall i, exists e, IsMCPItemInTokenScope s tok i = Err e) /\
  (forall p, exists e, IsAdminPermissionInTokenScope s tok p = Err e) /\
  (exists e, GetTokenAdminScope s tok = Err e) /\
  (exists e, GetTokenScope s tok = Err e).
Proof.
  intros Ht. unfold IsConnectionInTokenScope, IsMCPItemInTokenScope,
    IsAdminPermissionInTokenScope, GetTokenAdminScope, GetTokenScope.
  split_and!; intros;
    match goal with |- context [requireTokenLocked _ ?fn _] =>
      destruct (requireTokenLocked_missing s fn tok Ht) as [e ->] end; simpl; eauto.
Qed.

(** ** What a user holds *)

(** [member_of t u g]: a row makes the user a direct member of some group
    from which the parent rows lead to [g]. *)
Definition member_of (t : tables) (u g : Z) : Prop :=
  exists d, d ∈ direct_groups t u /\ rtc (edge (parent_edges t)) d g.

Lemma user_groups_spec t u g : g ∈ user_groups t u <-> member_of t u g.
Proof. apply recursive_cte_spec. Qed.

(** The connection grants a user's groups hold. *)
Definition conn_grant (t : tables) (u c : Z) (l : string) : Prop :=
  exists g, member_of t u g /\ (c, l) ∈ group_conn_rows t g.

Lemma keep_highest_other m row c :
  row.1 <> c -> keep_highest m row !! c = m !! c.
Proof.
  destruct row as [k l]. simpl. intros Hne.
  destruct (m !! k); [|by rewrite lookup_insert_ne].
  split_ifs; by rewrite ?lookup_insert_ne.
Qed.

Lemma keep_highest_same m c l :
  exists l', keep_highest m (c, l) !! c = Some l' /\
    (l' = l \/ m !! c = Some l') /\
    (l = AccessLevelReadWrite -> l' = AccessLevelReadWrite) /\
    (m !! c = Some AccessLevelReadWrite -> l' = AccessLevelReadWrite).
Proof.
  unfold keep_highest. destruct (m !! c) as [e|] eqn:E.
  - destruct (String.eqb_spec l AccessLevelReadWrite) as [->|Hl].
    + exists AccessLevelReadWrite. rewrite lookup_insert_eq. auto.
    + rewrite andb_false_r, E. exists e. split_and!; auto; congruence.
  - exists l. rewrite lookup_insert_eq. split_and!; auto; congruence.
Qed.

(** The level of a connection after the loop, over any list of rows. *)
Lemma fold_highest rows m c :
  match foldl keep_highest m rows !! c with
  | None => m !! c = None /\ forall l, (c, l) ∉ rows
  | Some l =>
      (m !! c = Some l \/ (c, l) ∈ rows) /\
      (m !! c = Some AccessLevelReadWrite \/ (c, AccessLevelReadWrite) ∈ rows ->
       l = AccessLevelReadWrite)
  end.
Proof.
  revert m. induction rows as [|[k v] rows IH]; intros m; cbn [foldl].
  - destruct (m !! c); (split; [auto|]); [|intros ? ?%elem_of_nil; done].
    intros [[= ->]|?%elem_of_nil]; done.
  - specialize (IH (keep_highest m (k, v))).
    destruct (decide (k = c)) as [->|Hne].
    + destruct (keep_highest_same m c v) as (l' & H1 & H2 & H3 & H4).
      destruct (foldl keep_highest (keep_highest m (c, v)) rows !! c) as [l|];
        rewrite H1 in IH; [|by destruct IH].
      setoid_rewrite elem_of_cons. destruct IH as [Ha Hb]. split.
      * destruct Ha as [[= ->]|]; [|auto]. destruct H2 as [->|]; auto.
      * intros [Hm|[[= Hv]|Hin]]; [..|auto]; apply Hb; left; f_equal; auto.
    + rewrite keep_highest_other in IH by done.
      destruct (foldl keep_highest (keep_highest m (k, v)) rows !! c);
        setoid_rewrite elem_of_cons; naive_solver.
Qed.

Lemma foldl_concat {A B} (f : A -> B -> A) (ls : list (list B)) a :
  foldl (fun a l => foldl f a l) a ls = foldl f a (concat ls).
Proof.
  revert a. induction ls as [|l ls IH]; intros a; simpl; [done|].
  by rewrite IH, foldl_app.
Qed.

Lemma foldl_map {A B C} (f : A -> C -> A) (g : B -> C) (l : list B) a :
  foldl f a (map g l) = foldl (fun a b => f a (g b)) a l.
Proof. revert a. induction l as [|b l IH]; intros a; simpl; auto. Qed.

Lemma user_conns_fold t u :
  user_conns t u = foldl keep_highest ∅
    (concat (map (group_conn_rows t) (user_groups t u))).
Proof. unfold user_conns. by rewrite <- foldl_concat, foldl_map. Qed.

Lemma conn_grant_rows t u c l :
  (c, l) ∈ concat (map (group_conn_rows t) (user_groups t u)) <->
  conn_grant t u c l.
Proof.
  unfold conn_grant. rewrite list_elem_of_In, in_concat. split.
  - intros (rows & Hr & Hin). apply in_map_iff in Hr as (g & <- & Hg).
    exists g. rewrite <- user_groups_spec, !list_elem_of_In. done.
  - intros (g & Hg & Hin). rewrite <- user_groups_spec in Hg.
    exists (group_conn_rows t g). split; [|by apply list_elem_of_In].
    apply in_map_iff. exists g. split; [done|]. by apply list_elem_of_In.
Qed.

(** The map a user's grants collapse to: present iff some grant names the
    connection, one of the granted levels, and read_write if any is. *)
Lemma user_conns_spec t u c :
  match user_conns t u !! c with
  | None => forall l, ~ conn_grant t u c l
  | Some l => conn_grant t u c l /\
      (conn_grant t u c AccessLevelReadWrite -> l = AccessLevelReadWrite)
  end.
Proof.
  rewrite user_conns_fold.
  pose proof (fold_highest
    (concat (map (group_conn_rows t) (user_groups t u))) ∅ c) as H.
  destruct (foldl _ _ _ !! c) as [l|]; rewrite lookup_empty in H.
  - destruct H as [[?|H1] H2]; [done|]. rewrite <- !conn_grant_rows. auto.
  - destruct H as [_ H]. intros l. by rewrite <- conn_grant_rows.
Qed.

Lemma foldl_collect (h : gset string -> Z -> gset string) (P : Z -> Prop)
    gs m (x : string) :
  (forall m g, x ∈ h m g <-> x ∈ m \/ P g) ->
  x ∈ foldl h m gs <-> x ∈ m \/ exists g, g ∈ gs /\ P g.
Proof.
  intros Hh. revert m. induction gs as [|g gs IH]; intros m; simpl.
  - split; [auto|]. intros [?|(g & ?%elem_of_nil & _)]; done.
  - rewrite IH, Hh. setoid_rewrite elem_of_cons. naive_solver.
Qed.

Lemma user_admin_spec t u p :
  p ∈ user_admin t u <->
  exists g, member_of t u g /\ p ∈ group_admin_names t g.
Proof.
  unfold user_admin.
  rewrite (foldl_collect _ (fun g => p ∈ group_admin_names t g)).
  - setoid_rewrite user_groups_spec. set_solver.
  - intros m g. by rewrite elem_of_union, elem_of_list_to_set.
Qed.

Lemma user_mcp_spec t u x :
  x ∈ user_mcp t u <->
  exists g, member_of t u g /\
    (x ∈ group_mcp_names t g \/ (x = "*"%string /\ group_mcp_wildcard t g = true)).
Proof.
  unfold user_mcp.
  rewrite (foldl_collect _ (fun g => x ∈ group_mcp_names t g \/
    (x = "*"%string /\ group_mcp_wildcard t g = true))).
  - setoid_rewrite user_groups_spec. set_solver.
  - intros m g. destruct (group_mcp_wildcard t g);
      rewrite ?elem_of_union, ?elem_of_list_to_set, ?elem_of_singleton;
      naive_solver.
Qed.

(** ** Group hierarchy *)

(** [childOf t c p]: a row makes group [c] a member of group [p]. *)
Definition childOf (t : tables) (c p : Z) : Prop :=
  exists m, m ∈ group_memberships t /\ MemberGroupID m = Some c /\
            ParentGroupID m = p.

Lemma parent_edges_spec t c p : edge (parent_edges t) c p <-> childOf t c p.
Proof.
  unfold edge, parent_edges, childOf. rewrite list_elem_of_omap. split.
  - intros (m & Hm & E). destruct (MemberGroupID m) as [g|] eqn:Hg; [|done].
    injection E as <- <-. eauto.
  - intros (m & Hm & Hg & <-). exists m. by rewrite Hg.
Qed.

Lemma child_edges_spec t p c : edge (child_edges t) p c <-> childOf t c p.
Proof.
  unfold edge, child_edges, childOf. rewrite list_elem_of_omap. split.
  - intros (m & Hm & E). destruct (MemberGroupID m) as [g|] eqn:Hg; [|done].
    injection E as <- <-. eauto.
  - intros (m & Hm & Hg & <-). exists m. by rewrite Hg.
Qed.

(** No group is its own ancestor. *)
Definition acyclic (t : tables) : Prop := forall g, ~ tc (childOf t) g g.

(** Downwards reachability is ancestry read backwards. *)
Lemma descendant_ancestor t p c :
  rtc (edge (child_edges t)) p c <-> rtc (childOf t) c p.
Proof.
  split; induction 1 as [x|x y z Hxy _ IH]; try apply rtc_refl.
  - eapply rtc_r; [done|]. by apply child_edges_spec.
  - eapply rtc_r; [done|]. by apply child_edges_spec.
Qed.

(** ** Transactions (audit.go: recordAudit, failAudit)

    A mutation runs in one transaction that also records its audit event; on
    an error the transaction is rolled back and the failure recorded. *)

Definition append_event (t : tables) (ev : AuditEvent) : tables :=
  {| users := users t; user_group_rows := user_group_rows t; tokens := tokens t;
     group_memberships := group_memberships t;
     mcp_privilege_identifiers := mcp_privilege_identifiers t;
     group_mcp_privileges := group_mcp_privileges t;
     connection_privileges := connection_privileges t;
     group_admin_permissions := group_admin_permissions t;
     token_connection_scope := token_connection_scope t;
     token_mcp_scope := token_mcp_scope t;
     token_admin_scope := token_admin_scope t;
     audit_events := audit_events t ++ [ev] |}.

(** [recordAudit] inside a transaction: the event is appended, or the call
    fails for any of the reasons the source has (the tail anchors, the hash,
    the insert).  The hash chain behind it is modelled in AuditChain. *)
Definition recordAudit (s : AuthStore) (fn : string) (t : tables)
    (ev : AuditEvent) : result tables :=
  ask s fn 100 [] (append_event t ev).

(** [failAudit]: the transaction is rolled back, and the failure recorded in
    a transaction of its own, whose error is only logged; a failure the
    source coalesces with an earlier one is a failure that is not written.
    A refusal the handler records as a denial is not recorded here. *)
Definition failAudit (s : AuthStore) (ev : AuditEvent) (cause : auth_error)
    : tables :=
  if bool_decide (cause ∈ [ErrSuperuserTargetForbidden; ErrTokenNotOwned;
                           ErrTokenScopeChanged; ErrFederatedAPITokensDisabled]) then db s
  else match ask s "recordFailure" 0 [] (append_event (db s) ev) with
       | Ok t => t
       | Err _ => db s
       end.

(** The tables, the audit log aside. *)
Definition same_data (t t' : tables) : Prop :=
  users t = users t' /\ user_group_rows t = user_group_rows t' /\
  tokens t = tokens t' /\ group_memberships t = group_memberships t' /\
  mcp_privilege_identifiers t = mcp_privilege_identifiers t' /\
  group_mcp_privileges t = group_mcp_privileges t' /\
  connection_privileges t = connection_privileges t' /\
  group_admin_permissions t = group_admin_permissions t' /\
  token_connection_scope t = token_connection_scope t' /\
  token_mcp_scope t = token_mcp_scope t' /\
  token_admin_scope t = token_admin_scope t'.

Lemma same_data_append t ev : same_data (append_event t ev) t.
Proof. done. Qed.

Lemma failAudit_data s ev e : same_data (failAudit s ev e) (db s).
Proof.
  unfold failAudit, ask. case_bool_decide; [done|]. by destruct (fault _ _ _ _).
Qed.
