(* ===== verification/RateLimiter.v ===== *)
(** * The rate limiter (server/src/internal/auth/rate_limiter.go)

    A sliding window of attempts per IP address.  Times are nanoseconds on
    the monotonic clock; each operation runs under the limiter's lock, so a
    run is a sequence of operations with the times at which they read the
    clock. *)
From stdpp Require Import base list strings gmap sorting.
From S2P Require Import Prelude AuthStore.

Local Open Scope Z_scope.

(** ** The limiter *)

Record RateLimiter := {
  attempts : gmap string (list Z);
  windowDuration : Z;
  maxAttempts : Z;
}.

Definition Minute : Z := 60000000000.

Definition NewRateLimiter (windowMinutes max : Z) : RateLimiter :=
  {| attempts := ∅; windowDuration := int64 (windowMinutes * Minute);
     maxAttempts := max |}.

Definition set_attempts (rl : RateLimiter) (m : gmap string (list Z))
    : RateLimiter :=
  {| attempts := m; windowDuration := windowDuration rl;
     maxAttempts := maxAttempts rl |}.

(** The attempts a loop over [stamps] finds after the cutoff. *)
Definition after (cutoff : Z) (stamps : list Z) : list Z :=
  filter (fun timestamp => cutoff < timestamp) stamps.

Definition count_after (cutoff : Z) (stamps : list Z) : Z :=
  Z.of_nat (length (after cutoff stamps)).

(** A missing entry of the map reads as the empty slice. *)
Definition stamps (rl : RateLimiter) (ip : string) : list Z :=
  default [] (attempts rl !! ip).

Definition IsAllowed (rl : RateLimiter) (ip : string) (now : Z) : bool :=
  match attempts rl !! ip with
  | None => true
  | Some attempts =>
      count_after (now - windowDuration rl) attempts <? maxAttempts rl
  end.

(** [now] is the clock at the cutoff, [now'] at the record. *)
Definition CheckAndRecord (rl : RateLimiter) (ip : string) (now now' : Z)
    : RateLimiter * bool :=
  if maxAttempts rl <=? count_after (now - windowDuration rl) (stamps rl ip)
  then (rl, false)
  else (set_attempts rl (<[ip := stamps rl ip ++ [now']]> (attempts rl)), true).

Definition RecordFailedAttempt (rl : RateLimiter) (ip : string) (now : Z)
    : RateLimiter :=
  match attempts rl !! ip with
  | None => set_attempts rl (<[ip := [now]]> (attempts rl))
  | Some l => set_attempts rl (<[ip := l ++ [now]]> (attempts rl))
  end.

Definition Refund (rl : RateLimiter) (ip : string) : RateLimiter :=
  match stamps rl ip with
  | [] => rl
  | [_] => set_attempts rl (delete ip (attempts rl))
  | l => set_attempts rl (<[ip := take (length l - 1) l]> (attempts rl))
  end.

Definition Reset (rl : RateLimiter) (ip : string) : RateLimiter :=
  set_attempts rl (delete ip (attempts rl)).

Definition cleanup (rl : RateLimiter) (now : Z) : RateLimiter :=
  set_attempts rl
    (omap (fun l => let valid := after (now - windowDuration rl) l in
                    if (0 <? length valid)%nat then Some valid else None)
          (attempts rl)).

Definition GetRemainingAttempts (rl : RateLimiter) (ip : string) (now : Z) : Z :=
  match attempts rl !! ip with
  | None => maxAttempts rl
  | Some attempts =>
      let remaining :=
        maxAttempts rl - count_after (now - windowDuration rl) attempts in
      if remaining <? 0 then 0 else remaining
  end.

(** ** Runs *)

(** What the single sign-on endpoints do to their limiters, with the
    background cleanup. *)
Inductive limiter_op :=
| Spend (ip : string) (now now' : Z)
| GiveBack (ip : string)
| Sweep (now : Z).

Definition limiter_step (rl : RateLimiter) (op : limiter_op) : RateLimiter :=
  match op with
  | Spend ip now now' => fst (CheckAndRecord rl ip now now')
  | GiveBack ip => Refund rl ip
  | Sweep now => cleanup rl now
  end.

Definition tick (clock : Z) (op : limiter_op) : Z :=
  match op with
  | Spend _ _ now' => now'
  | GiveBack _ => clock
  | Sweep now => now
  end.

(** The clock never goes back. *)
Definition on_time (clock : Z) (op : limiter_op) : Prop :=
  match op with
  | Spend _ now now' => clock <= now <= now'
  | GiveBack _ => True
  | Sweep now => clock <= now
  end.

Fixpoint timed (clock : Z) (ops : list limiter_op) : Prop :=
  match ops with
  | [] => True
  | op :: ops => on_time clock op /\ timed (tick clock op) ops
  end.

(** The times of the requests of [ip] let through and not given back. *)
Definition spent_step (ip : string) (rl : RateLimiter) (log : list Z)
    (op : limiter_op) : list Z :=
  match op with
  | Spend ip' now now' =>
      if String.eqb ip' ip && snd (CheckAndRecord rl ip' now now')
      then log ++ [now'] else log
  | GiveBack ip' =>
      if String.eqb ip' ip && negb (is_nil (stamps rl ip))
      then take (length log - 1) log else log
  | Sweep _ => log
  end.

Fixpoint spent (ip : string) (rl : RateLimiter) (log : list Z)
    (ops : list limiter_op) : list Z :=
  match ops with
  | [] => log
  | op :: ops => spent ip (limiter_step rl op) (spent_step ip rl log op) ops
  end.

(** The answers the requests get. *)
Fixpoint answers (rl : RateLimiter) (ops : list limiter_op) : list bool :=
  match ops with
  | [] => []
  | op :: ops =>
      match op with
      | Spend ip now now' => [snd (CheckAndRecord rl ip now now')]
      | _ => []
      end ++ answers (limiter_step rl op) ops
  end.

Definition is_sweep (op : limiter_op) : bool :=
  match op with Sweep _ => true | _ => false end.

(** ** Lists of times *)

Lemma after_app cutoff l1 l2 : after cutoff (l1 ++ l2) = after cutoff l1 ++ after cutoff l2.
Proof. apply filter_app. Qed.

Lemma after_none cutoff l : Forall (fun x => x <= cutoff) l -> after cutoff l = [].
Proof.
  unfold after. induction 1 as [|x l Hx _ IH]; [done|].
  rewrite filter_cons. case_decide; [lia|done].
Qed.

Lemma after_all cutoff l : Forall (fun x => cutoff < x) l -> after cutoff l = l.
Proof.
  unfold after. induction 1 as [|x l Hx _ IH]; [done|].
  rewrite filter_cons_True by done. by rewrite IH.
Qed.

Lemma take_removelast_app (l1 l2 : list Z) :
  l2 <> [] -> take (length (l1 ++ l2) - 1) (l1 ++ l2) = l1 ++ take (length l2 - 1) l2.
Proof.
  intros Hne. rewrite length_app. destruct l2 as [|x l2]; [done|].
  rewrite take_app_ge by (simpl; lia). do 2 f_equal. simpl. lia.
Qed.

(** ** The entry of an address after each operation *)

Lemma stamps_spend rl ip ip' now now' :
  stamps (fst (CheckAndRecord rl ip' now now')) ip =
  if String.eqb ip' ip && snd (CheckAndRecord rl ip' now now')
  then stamps rl ip ++ [now'] else stamps rl ip.
Proof.
  unfold CheckAndRecord. destruct (_ <=? _); simpl; [by rewrite andb_false_r|].
  rewrite andb_true_r. unfold stamps. simpl.
  destruct (String.eqb_spec ip' ip) as [->|Hne];
    [by rewrite lookup_insert_eq|by rewrite lookup_insert_ne].
Qed.

Lemma stamps_refund rl ip ip' :
  stamps (Refund rl ip') ip =
  if String.eqb ip' ip then take (length (stamps rl ip) - 1) (stamps rl ip)
  else stamps rl ip.
Proof.
  unfold Refund. destruct (String.eqb_spec ip' ip) as [->|Hne].
  - destruct (stamps rl ip) as [|x [|y l]] eqn:E; unfold stamps; simpl.
    + unfold stamps in E. by rewrite E.
    + by rewrite lookup_delete_eq.
    + by rewrite lookup_insert_eq.
  - unfold stamps. destruct (default [] (attempts rl !! ip')) as [|x [|y l]]; simpl;
      [done|by rewrite lookup_delete_ne|by rewrite lookup_insert_ne].
Qed.

Lemma stamps_sweep rl ip now :
  stamps (cleanup rl now) ip = after (now - windowDuration rl) (stamps rl ip).
Proof.
  unfold stamps, cleanup. simpl. rewrite lookup_omap.
  destruct (attempts rl !! ip) as [l|]; simpl; [|done].
  destruct (after _ l); done.
Qed.

Lemma step_config rl op :
  windowDuration (limiter_step rl op) = windowDuration rl /\
  maxAttempts (limiter_step rl op) = maxAttempts rl.
Proof.
  destruct op as [ip t t'|ip|t]; simpl; [|unfold Refund|done].
  - unfold CheckAndRecord. by destruct (_ <=? _).
  - by destruct (stamps rl ip) as [|x [|y l]].
Qed.

(** ** Forgetting expired attempts *)

(** [cur] is [log] without some attempts that have left the window of
    length [w]. *)
Record trails (clock w : Z) (log cur : list Z) : Prop := {
  tr_sorted : StronglySorted Z.le log;
  tr_clock : Forall (fun x => x <= clock) log;
  tr_old : exists old, log = old ++ cur /\ Forall (fun x => x <= clock - w) old;
}.

Lemma trails_later clock clock' w log cur :
  clock <= clock' -> trails clock w log cur -> trails clock' w log cur.
Proof.
  intros Hc [Hs Hb (old & E & Ho)]. split; [done|..].
  - eapply Forall_impl; [done|]. simpl. lia.
  - exists old. split; [done|]. eapply Forall_impl; [done|]. simpl. lia.
Qed.

Lemma trails_after clock now w log cur :
  trails clock w log cur -> clock <= now -> after (now - w) log = after (now - w) cur.
Proof.
  intros [_ _ (old & -> & Ho)] Hc. rewrite after_app, (after_none _ old); [done|].
  eapply Forall_impl; [done|]. simpl. lia.
Qed.

Lemma trails_record clock now w log cur :
  trails clock w log cur -> clock <= now -> trails now w (log ++ [now]) (cur ++ [now]).
Proof.
  intros Ht Hc. pose proof (trails_later _ now _ _ _ Hc Ht) as [Hs Hb (old & E & Ho)].
  split.
  - clear -Hs Hb. induction Hs as [|x l Hs IH Hx]; simpl; [repeat constructor|].
    apply Forall_cons in Hb as [Hxn Hb]. constructor; [auto|].
    apply Forall_app. split; [done|]. by repeat constructor.
  - apply Forall_app. split; [done|]. by repeat constructor.
  - exists old. by rewrite E, <- app_assoc.
Qed.

(** In a sorted list the attempts after a cutoff are a suffix. *)
Lemma after_suffix c l :
  StronglySorted Z.le l ->
  exists old, l = old ++ after c l /\ Forall (fun x => x <= c) old.
Proof.
  induction 1 as [|x l Hs (old & E & Ho) Hx]; [by exists []|].
  unfold after in *. rewrite filter_cons. case_decide as Hc.
  - exists []. split; [|done]. simpl. f_equal. symmetry. apply after_all.
    eapply Forall_impl; [done|]. simpl. lia.
  - exists (x :: old). simpl. rewrite <- E. split; [done|]. constructor; [lia|done].
Qed.

Lemma sorted_suffix (l1 l2 : list Z) :
  StronglySorted Z.le (l1 ++ l2) -> StronglySorted Z.le l2.
Proof. induction l1; simpl; [done|]. inversion 1; auto. Qed.

Lemma sorted_prefix (l1 l2 : list Z) :
  StronglySorted Z.le (l1 ++ l2) -> StronglySorted Z.le l1.
Proof.
  induction l1 as [|x l1 IH]; simpl; [constructor|]. inversion 1; subst.
  constructor; [auto|]. by apply Forall_app in H3 as [? _].
Qed.

Lemma trails_sweep clock now w log cur :
  trails clock w log cur -> clock <= now -> trails now w log (after (now - w) cur).
Proof.
  intros Ht Hc. pose proof (trails_later _ now _ _ _ Hc Ht) as [Hs Hb (old & E & Ho)].
  split; [done|done|]. destruct (after_suffix (now - w) cur) as (old' & E' & Ho').
  { rewrite E in Hs. by eapply sorted_suffix. }
  exists (old ++ old'). rewrite <- app_assoc, <- E'. split; [done|].
  by apply Forall_app.
Qed.

(** Giving back the latest attempt; if all have expired, an expired one. *)
Lemma trails_refund clock w log cur :
  trails clock w log cur ->
  trails clock w (take (length log - 1) log) (take (length cur - 1) cur).
Proof.
  intros [Hs Hb (old & -> & Ho)]. split.
  - rewrite <- (take_drop (length (old ++ cur) - 1) (old ++ cur)) in Hs.
    by apply sorted_prefix in Hs.
  - by apply Forall_take.
  - destruct (decide (cur = [])) as [->|Hne].
    + simpl. rewrite app_nil_r. eexists. split; [symmetry; apply app_nil_r|].
      by apply Forall_take.
    + rewrite take_removelast_app by done. eauto.
Qed.

(** ** The limit *)

(** The times in a window of length [w] that starts at [a]. *)
Definition in_window (a w : Z) (l : list Z) : list Z :=
  filter (fun x => a < x <= a + w) l.

Lemma in_window_take a w n l :
  (length (in_window a w (take n l)) <= length (in_window a w l))%nat.
Proof.
  rewrite <- (take_drop n l) at 2. unfold in_window. rewrite filter_app, length_app. lia.
Qed.

Lemma in_window_after a c w l :
  c <= a -> (length (in_window a w l) <= length (after c l))%nat.
Proof.
  intros Hc. unfold in_window, after. induction l as [|x l IH]; [done|].
  rewrite !filter_cons. repeat case_decide; simpl; lia.
Qed.

Definition limited (w m : Z) (log : list Z) : Prop :=
  forall a, Z.of_nat (length (in_window a w log)) <= Z.max 0 m.

(** One operation keeps the log trailing the limiter, and within the
    limit. *)
Lemma spent_step_inv ip rl log clock op :
  trails clock (windowDuration rl) log (stamps rl ip) ->
  limited (windowDuration rl) (maxAttempts rl) log -> on_time clock op ->
  trails (tick clock op) (windowDuration rl) (spent_step ip rl log op)
    (stamps (limiter_step rl op) ip) /\
  limited (windowDuration rl) (maxAttempts rl) (spent_step ip rl log op).
Proof.
  intros Ht Hlim Hc.
  destruct op as [ip' now now'|ip'|now]; cbn [limiter_step spent_step tick on_time] in *.
  - rewrite stamps_spend.
    destruct (String.eqb_spec ip' ip) as [->|]; cbn [andb];
      [|split; [eapply trails_later; [|done]; lia|done]].
    destruct (snd _) eqn:Hok; [|split; [eapply trails_later; [|done]; lia|done]].
    split; [eapply trails_record; [done|lia]|]. intros a.
    unfold CheckAndRecord in Hok. destruct (Z.leb_spec (maxAttempts rl)
      (count_after (now - windowDuration rl) (stamps rl ip))) as [|Hlt]; [done|].
    unfold in_window. rewrite filter_app, length_app, filter_cons, filter_nil.
    specialize (Hlim a). unfold in_window in Hlim. case_decide as Hw; cbn [length]; [|lia].
    assert (length (in_window a (windowDuration rl) log)
      <= length (after (now - windowDuration rl) log))%nat as Hle
      by (apply in_window_after; lia).
    rewrite (trails_after clock now _ log (stamps rl ip)) in Hle by (done || lia).
    unfold count_after in Hlt. unfold in_window in Hle. lia.
  - rewrite stamps_refund.
    destruct (String.eqb_spec ip' ip) as [->|]; cbn [andb]; [|done].
    destruct (stamps rl ip) as [|x l] eqn:E; cbn [is_nil negb]; [done|].
    rewrite <- E in *. split; [by apply trails_refund|].
    intros a. specialize (Hlim a). pose proof (in_window_take a (windowDuration rl)
      (length log - 1) log). lia.
  - rewrite stamps_sweep. split; [by eapply trails_sweep|done].
Qed.

Lemma spent_limited ip ops rl log clock :
  timed clock ops -> trails clock (windowDuration rl) log (stamps rl ip) ->
  limited (windowDuration rl) (maxAttempts rl) log ->
  limited (windowDuration rl) (maxAttempts rl) (spent ip rl log ops).
Proof.
  revert rl log clock. induction ops as [|op ops IH]; intros rl log clock Htm Ht Hlim; [done|].
  destruct Htm as [Hop Htm]. cbn [spent]. destruct (step_config rl op) as [E1 E2].
  destruct (spent_step_inv ip rl log clock op Ht Hlim Hop) as [Ht' Hlim'].
  rewrite <- E1, <- E2 in *. by eapply IH.
Qed.

(** C33: The limiter holds its limit.  Whatever sequence of requests,
    refunds and cleanups a limiter serves under a clock that never goes
    back, no window of its length, wherever it starts, contains more
    requests of one address that were let through and not given back than
    the maximum. *)
Theorem rate_limit_holds windowMinutes m ops ip clock a :
  timed clock ops ->
  let rl := NewRateLimiter windowMinutes m in
  Z.of_nat (length (in_window a (windowDuration rl) (spent ip rl [] ops))) <= Z.max 0 m.
Proof.
  intros Htm rl. apply (spent_limited ip ops rl [] clock Htm).
  - split; [constructor|done|]. by exists [].
  - intros a'. simpl. lia.
Qed.

(** ** Cleaning up *)

(** Two limiters, the first of which has forgotten expired attempts. *)
Record tidier (clock : Z) (rl rl' : RateLimiter) : Prop := {
  ti_window : windowDuration rl = windowDuration rl';
  ti_max : maxAttempts rl = maxAttempts rl';
  ti_trails ip : trails clock (windowDuration rl) (stamps rl' ip) (stamps rl ip);
}.

Lemma tidier_answer clock rl rl' ip now now' :
  tidier clock rl rl' -> clock <= now ->
  snd (CheckAndRecord rl ip now now') = snd (CheckAndRecord rl' ip now now').
Proof.
  intros [Hw Hm Ht] Hc. unfold CheckAndRecord, count_after. rewrite <- Hw, <- Hm.
  rewrite (trails_after clock now _ (stamps rl' ip) (stamps rl ip)) by done.
  by destruct (_ <=? _).
Qed.

Lemma tidier_step clock rl rl' op :
  tidier clock rl rl' -> on_time clock op ->
  tidier (tick clock op) (limiter_step rl op)
    (if is_sweep op then rl' else limiter_step rl' op).
Proof.
  intros Ht Hop. pose proof Ht as [Hw Hm Htr].
  destruct (step_config rl op) as [E1 E2], (step_config rl' op) as [E3 E4].
  split; [destruct (is_sweep op); congruence..|]. intros ip. rewrite E1.
  destruct op as [ip' now now'|ip'|now]; cbn [limiter_step is_sweep tick on_time] in *.
  - rewrite !stamps_spend, <- (tidier_answer clock rl rl') by (done || lia).
    destruct (_ && _); [eapply trails_record; [done|lia]|].
    eapply trails_later; [|done]. lia.
  - rewrite !stamps_refund. destruct (String.eqb ip' ip); [by apply trails_refund|done].
  - rewrite stamps_sweep. by eapply trails_sweep.
Qed.

(** Cleaning up is invisible.  Under a clock that never goes back, a
    limiter answers every request of a run as it would have without any of
    the cleanups, refunds included. *)
Lemma cleanup_transparent windowMinutes m clock ops :
  timed clock ops ->
  answers (NewRateLimiter windowMinutes m) ops =
  answers (NewRateLimiter windowMinutes m) (filter (fun op => is_sweep op = false) ops).
Proof.
  set (rl := NewRateLimiter windowMinutes m).
  assert (tidier clock rl rl) as Ht.
  { split; [done|done|]. intros ip. split; [constructor|done|]. by exists []. }
  revert Ht. generalize rl at 1 3 as rl1. generalize rl as rl2. revert clock.
  induction ops as [|op ops IH]; intros clock rl2 rl1 Ht; [done|]. intros [Hop Htm].
  pose proof (tidier_step clock rl1 rl2 op Ht Hop) as Ht'.
  specialize (IH _ _ _ Ht' Htm). rewrite filter_cons. cbn [answers].
  destruct op as [ip now now'|ip|now]; cbn [is_sweep decide] in *;
    rewrite ?decide_True, ?decide_False by done; cbn [answers app]; rewrite <- IH; [|done..].
  rewrite (tidier_answer clock rl1 rl2); [done|done|]. simpl in Hop. lia.
Qed.

(** ** Waiting *)

(** Every operation of the limiter: the ones above, and the two that record
    a failure unconditionally and forget an address. *)
Inductive any_op :=
| Limited (op : limiter_op)
| Failed (ip : string) (now : Z)
| Forgiven (ip : string).

Definition any_step (rl : RateLimiter) (op : any_op) : RateLimiter :=
  match op with
  | Limited op => limiter_step rl op
  | Failed ip now => RecordFailedAttempt rl ip now
  | Forgiven ip => Reset rl ip
  end.

Definition any_tick (clock : Z) (op : any_op) : Z :=
  match op with
  | Limited op => tick clock op
  | Failed _ now => now
  | Forgiven _ => clock
  end.

Definition any_on_time (clock : Z) (op : any_op) : Prop :=
  match op with
  | Limited op => on_time clock op
  | Failed _ now => clock <= now
  | Forgiven _ => True
  end.

Fixpoint any_timed (clock : Z) (ops : list any_op) : Prop :=
  match ops with
  | [] => True
  | op :: ops => any_on_time clock op /\ any_timed (any_tick clock op) ops
  end.

Fixpoint run_ops (rl : RateLimiter) (ops : list any_op) : RateLimiter :=
  match ops with [] => rl | op :: ops => run_ops (any_step rl op) ops end.
Fixpoint last_tick (clock : Z) (ops : list any_op) : Z :=
  match ops with [] => clock | op :: ops => last_tick (any_tick clock op) ops end.

Lemma stamps_failed rl ip ip' now :
  stamps (RecordFailedAttempt rl ip' now) ip =
  if String.eqb ip' ip then stamps rl ip ++ [now] else stamps rl ip.
Proof.
  unfold RecordFailedAttempt, stamps. destruct (String.eqb_spec ip' ip) as [->|Hne];
    destruct (attempts rl !! _) eqn:E; simpl;
    by rewrite ?lookup_insert_eq, ?lookup_insert_ne, ?E by done.
Qed.

Lemma stamps_reset rl ip ip' :
  stamps (Reset rl ip') ip = if String.eqb ip' ip then [] else stamps rl ip.
Proof.
  unfold Reset, stamps. simpl. destruct (String.eqb_spec ip' ip) as [->|Hne];
    by rewrite ?lookup_delete_eq, ?lookup_delete_ne by done.
Qed.

Lemma any_step_config rl op :
  windowDuration (any_step rl op) = windowDuration rl /\
  maxAttempts (any_step rl op) = maxAttempts rl.
Proof.
  destruct op as [op|ip now|ip]; simpl; [apply step_config| |done].
  unfold RecordFailedAttempt. by destruct (attempts rl !! ip).
Qed.

(** No entry is later than the clock. *)
Definition past (clock : Z) (rl : RateLimiter) : Prop :=
  forall ip, Forall (fun x => x <= clock) (stamps rl ip).

Lemma step_past clock rl op :
  on_time clock op -> past clock rl -> past (tick clock op) (limiter_step rl op).
Proof.
  intros Hop Hb ip. destruct op as [ip1 now now'|ip1|now];
    cbn [limiter_step tick on_time] in *.
  - assert (Forall (fun x => x <= now') (stamps rl ip)) as H.
    { eapply Forall_impl; [apply Hb|]. simpl. lia. }
    rewrite stamps_spend. destruct (_ && _); [|done].
    apply Forall_app. split; [done|]. repeat constructor. lia.
  - rewrite stamps_refund. destruct (String.eqb _ _); [by apply Forall_take|apply Hb].
  - rewrite stamps_sweep. rewrite Forall_forall. intros x [_ Hx]%list_elem_of_filter.
    specialize (Hb ip). rewrite Forall_forall in Hb. specialize (Hb x Hx). lia.
Qed.

Lemma any_step_past clock rl op :
  any_on_time clock op -> past clock rl -> past (any_tick clock op) (any_step rl op).
Proof.
  intros Hop Hb. destruct op as [op|ip1 now|ip1]; cbn [any_step any_tick any_on_time] in *;
    [by apply step_past|..]; intros ip.
  - assert (Forall (fun x => x <= now) (stamps rl ip)) as H.
    { eapply Forall_impl; [apply Hb|]. simpl. lia. }
    rewrite stamps_failed. destruct (String.eqb _ _); [|done].
    apply Forall_app. split; [done|]. repeat constructor. lia.
  - rewrite stamps_reset. destruct (String.eqb _ _); [constructor|apply Hb].
Qed.

Lemma run_ops_past ops rl clock :
  any_timed clock ops -> past clock rl ->
  past (last_tick clock ops) (run_ops rl ops) /\
  windowDuration (run_ops rl ops) = windowDuration rl /\
  maxAttempts (run_ops rl ops) = maxAttempts rl.
Proof.
  revert rl clock. induction ops as [|op ops IH]; intros rl clock; [by auto|].
  intros [Hop Htm] Hb. destruct (any_step_config rl op) as [<- <-].
  by apply (IH _ _ Htm), any_step_past.
Qed.

(** [k] requests of [ip] in a row, each at the times of [reqs]. *)
Definition requests (ip : string) (reqs : list (Z * Z)) : list limiter_op :=
  map (fun t => Spend ip (fst t) (snd t)) reqs.

(** Requests are let through as long as they and what still counts of the
    past stay below the maximum. *)
Lemma requests_pass rl ip clock reqs recent :
  timed clock (requests ip reqs) ->
  (forall now, clock <= now -> count_after (now - windowDuration rl) (stamps rl ip) <= recent) ->
  recent + Z.of_nat (length reqs) <= maxAttempts rl ->
  answers rl (requests ip reqs) = repeat true (length reqs).
Proof.
  revert rl clock recent. induction reqs as [|[now now'] reqs IH]; intros rl clock recent; [done|].
  intros [Hop Htm] Hrec Hm. cbn [requests map fst snd on_time tick length] in *.
  pose proof (Hrec now ltac:(lia)) as Hc.
  assert (snd (CheckAndRecord rl ip now now') = true) as Hok.
  { unfold CheckAndRecord. destruct (Z.leb_spec (maxAttempts rl)
      (count_after (now - windowDuration rl) (stamps rl ip))); [lia|done]. }
  cbn [answers repeat]. rewrite Hok. cbn [app]. f_equal.
  destruct (step_config rl (Spend ip now now')) as [Hw Hmax].
  apply (IH _ now' (recent + 1)); [done| |rewrite Hmax; lia].
  intros t Ht. cbn [limiter_step]. rewrite stamps_spend, String.eqb_refl, Hok.
  cbn [andb]. cbn [limiter_step] in Hw. rewrite Hw. unfold count_after in *.
  rewrite after_app, length_app. specialize (Hrec t ltac:(lia)).
  assert (length (after (t - windowDuration rl) [now']) <= 1)%nat.
  { unfold after. rewrite filter_cons, filter_nil. case_decide; simpl; lia. }
  lia.
Qed.

(** C38: Nobody stays locked out.  However a limiter has been used, requests,
    failures, refunds, resets and cleanups in any order under a clock that
    never goes back, once a whole window has passed since the last operation
    an address has its full allowance again: it may make attempts, and as
    many of its requests in a row as the maximum are all let through. *)
Theorem allowance_returns windowMinutes m clock ops ip now reqs :
  any_timed clock ops -> 0 < m ->
  let rl := run_ops (NewRateLimiter windowMinutes m) ops in
  last_tick clock ops + windowDuration rl <= now ->
  timed now (requests ip reqs) -> Z.of_nat (length reqs) <= m ->
  IsAllowed rl ip now = true /\
  answers rl (requests ip reqs) = repeat true (length reqs).
Proof.
  intros Htm Hm rl Hnow Hreqs Hk.
  destruct (run_ops_past ops (NewRateLimiter windowMinutes m) clock Htm) as (Hb & _ & Hmax).
  { intros ip'. constructor. }
  fold rl in Hb, Hmax. cbn in Hmax.
  assert (forall t, now <= t -> count_after (t - windowDuration rl) (stamps rl ip) = 0) as Hc.
  { intros t Ht. unfold count_after. rewrite after_none; [done|].
    eapply Forall_impl; [apply Hb|]. simpl. lia. }
  split.
  - specialize (Hc now ltac:(lia)). unfold IsAllowed, stamps in *. rewrite Hmax.
    destruct (attempts rl !! ip); [|done]. simpl in Hc. rewrite Hc. lia.
  - apply (requests_pass rl ip now reqs 0); [done| |rewrite Hmax; lia].
    intros t Ht. by rewrite Hc.
Qed.
