(* ===== verification/AuditText.v ===== *)
(** * The texts the audit log signs
      (server/src/internal/auth/audit.go: canonicalFields, auditTimeLayout)

    The audit log hashes texts, so what a hash says of an event is what its
    text says.  This file renders numbers, instants and lists of fields as the
    Go code does and shows that none of the renderings is ambiguous. *)
From Stdlib Require Import Ascii DecimalString DecimalN DecimalZ ZArith.
From stdpp Require Import base list strings.
From S2P Require Import Prelude.

Local Open Scope string_scope.
Local Open Scope Z_scope.
#[local] Arguments String.append !_ _ / : simpl nomatch.

(** ** Numbers *)

(** [strconv.Itoa] of a natural number. *)
Definition decimal (n : N) : string := NilZero.string_of_uint (N.to_uint n).

(** [strconv.FormatInt(z, 10)]. *)
Definition FormatInt (z : Z) : string :=
  if z <? 0 then String "-" (decimal (Z.abs_N z)) else decimal (Z.abs_N z).

Fixpoint zeros (k : nat) : string :=
  match k with O => "" | S k => String "0" (zeros k) end.

(** How the time package prints a number in a field of a given width. *)
Definition appendInt (x : Z) (width : nat) : string :=
  let digits := decimal (Z.abs_N x) in
  let padded := zeros (width - String.length digits) ++ digits in
  if x <? 0 then String "-" padded else padded.

(** ** Instants *)

(** Days since 1970-01-01 to year, month and day, in the proleptic Gregorian
    calendar: eras of 400 years that start on the first of March. *)
Definition civil_from_days (days : Z) : Z * Z * Z :=
  let z := days + 719468 in
  let era := z / 146097 in
  let doe := z mod 146097 in
  let yoe := (doe - doe / 1460 + doe / 36524 - doe / 146096) / 365 in
  let doy := doe - (365 * yoe + yoe / 4 - yoe / 100) in
  let mp := (5 * doy + 2) / 153 in
  let month := if mp <? 10 then mp + 3 else mp - 9 in
  let year := yoe + era * 400 + (if month <=? 2 then 1 else 0) in
  (year, month, doy - (153 * mp + 2) / 5 + 1).

Definition days_from_civil (year month day : Z) : Z :=
  let y := if month <=? 2 then year - 1 else year in
  let yoe := y mod 400 in
  let mp := if month <=? 2 then month + 9 else month - 3 in
  let doy := (153 * mp + 2) / 5 + day - 1 in
  y / 400 * 146097 + (yoe * 365 + yoe / 4 - yoe / 100 + doy) - 719468.

(** Date and time of day of an instant in nanoseconds since the Unix epoch,
    in UTC, followed by [rest]. *)
Definition date_time (t : Z) (rest : string) : string :=
  let secs := t / 1000000000 in
  let '(year, month, day) := civil_from_days (secs / 86400) in
  let sod := secs mod 86400 in
  appendInt year 4 ++ String "-" (appendInt month 2 ++ String "-" (
  appendInt day 2 ++ String "T" (appendInt (sod / 3600) 2 ++ String ":" (
  appendInt (sod mod 3600 / 60) 2 ++ String ":" (appendInt (sod mod 60) 2 ++
  rest)))))%string.

(** [t.UTC().Format(auditTimeLayout)]. *)
Definition FormatTime (t : Z) : string :=
  date_time t (String "." (appendInt (t mod 1000000000) 9 ++ "Z"))%string.

(** [t.UTC().Format(time.RFC3339)]. *)
Definition FormatRFC3339 (t : Z) : string := date_time t "Z".

(** ** Lists of fields *)

Definition render_field (field : string) : string :=
  decimal (N.of_nat (String.length field)) ++ String ":" field.

Fixpoint canonicalFields (fields : list string) : string :=
  match fields with
  | [] => ""
  | field :: fields => render_field field ++ canonicalFields fields
  end.

Example format_epoch : FormatTime 0 = "1970-01-01T00:00:00.000000000Z".
Proof. reflexivity. Qed.
Example format_leap :
  FormatTime 1709210096123456789 = "2024-02-29T12:34:56.123456789Z".
Proof. reflexivity. Qed.
Example format_zero_time :
  FormatTime (-62135596800000000000) = "0001-01-01T00:00:00.000000000Z".
Proof. reflexivity. Qed.
Example canonical_example : canonicalFields ["v3"; ""; "ab:c"] = "2:v30:4:ab:c".
Proof. reflexivity. Qed.

(** ** Strings *)

Lemma app_assoc_s (a b c : string) : a ++ (b ++ c) = (a ++ b) ++ c.
Proof.
  induction a as [|x a IH]; [done|]. cbn.
  by f_equal.
Qed.

Lemma app_inv_head_s (a b c : string) : a ++ b = a ++ c -> b = c.
Proof. induction a as [|x a IH]; simpl; [done|]. intros [= H]. auto. Qed.

Lemma app_same_length_s (a b x y : string) :
  String.length a = String.length b -> a ++ x = b ++ y -> a = b /\ x = y.
Proof.
  revert b. induction a as [|c a IH]; intros [|d b]; simpl; try done.
  intros [= Hl] [= -> H]. destruct (IH b Hl H) as [-> ->]. done.
Qed.

(** ** Digits *)

Definition digit (c : ascii) : bool :=
  (48 <=? nat_of_ascii c)%nat && (nat_of_ascii c <=? 57)%nat.

Fixpoint digits_only (s : string) : bool :=
  match s with "" => true | String c s => digit c && digits_only s end.

Lemma digits_app a b : digits_only (a ++ b) = digits_only a && digits_only b.
Proof. induction a as [|c a IH]; simpl; [done|]. rewrite IH. by destruct (digit c). Qed.

Lemma zeros_digits k : digits_only (zeros k) = true.
Proof. by induction k. Qed.

Lemma decimal_digits n : digits_only (decimal n) = true.
Proof.
  unfold decimal, NilZero.string_of_uint.
  assert (forall d, digits_only (NilEmpty.string_of_uint d) = true) as H
    by (intros d; by induction d).
  destruct (N.to_uint n); [done|apply H..].
Qed.

(** Digits that end in a separator are read back from the front. *)
Lemma digits_split c a b x y :
  digits_only a = true -> digits_only b = true -> digit c = false ->
  a ++ String c x = b ++ String c y -> a = b /\ x = y.
Proof.
  intros Ha Hb Hc. revert b Hb. induction a as [|p a IH]; intros [|q b]; simpl in *.
  - intros _ [= ->]. done.
  - intros Hb [= -> _]. by rewrite Hc in Hb.
  - intros _ [= -> _]. by rewrite Hc in Ha.
  - apply andb_true_iff in Ha as [Hp Ha]. intros [Hq Hb]%andb_true_iff [= -> H].
    destruct (IH Ha b Hb H) as [-> ->]. done.
Qed.

(** ** Reading numbers back *)

(** The number a string of digits stands for, leading zeros allowed. *)
Definition value (s : string) : option N :=
  match s with
  | "" => None
  | _ => N.of_uint <$> NilEmpty.uint_of_string s
  end.

Lemma uint_nonnil n : N.to_uint n <> Decimal.Nil.
Proof.
  destruct n as [|p]; [done|]. simpl. apply DecimalPos.Unsigned.to_uint_nonnil.
Qed.

Lemma decimal_shape n :
  decimal n = NilEmpty.string_of_uint (N.to_uint n) /\ decimal n <> "".
Proof.
  unfold decimal, NilZero.string_of_uint. pose proof (uint_nonnil n).
  by destruct (N.to_uint n).
Qed.

Lemma value_decimal n : value (decimal n) = Some n.
Proof.
  destruct (decimal_shape n) as [E Hne]. rewrite E in *. unfold value.
  destruct (NilEmpty.string_of_uint _) eqn:Es; [done|]. rewrite <- Es.
  rewrite NilEmpty.usu. simpl. by rewrite DecimalN.Unsigned.of_to.
Qed.

Lemma value_zeros k n : value (zeros k ++ decimal n) = Some n.
Proof.
  destruct (decimal_shape n) as [E Hne].
  assert (exists d, NilEmpty.uint_of_string (zeros k ++ decimal n) = Some d /\
            N.of_uint d = n) as (d & Hd & Hn).
  { induction k as [|k (d & Hd & Hn)]; cbn [zeros String.append].
    - rewrite E, NilEmpty.usu. eexists. split; [done|]. apply DecimalN.Unsigned.of_to.
    - exists (Decimal.D0 d). cbn. rewrite Hd. done. }
  unfold value. rewrite Hd. simpl. rewrite Hn.
  destruct k; simpl; [|done]. by destruct (decimal n).
Qed.

Lemma decimal_inj n m : decimal n = decimal m -> n = m.
Proof.
  intros H. apply (f_equal value) in H. rewrite !value_decimal in H. by injection H.
Qed.

(** Numbers that start with a minus sign are negative, and no other. *)
Lemma signed_split (x y : Z) (f : Z -> string) c a b :
  (forall z, digits_only (f z) = true /\ value (f z) = Some (Z.abs_N z)) ->
  digit c = false ->
  (if x <? 0 then String "-" (f x) else f x) ++ String c a =
  (if y <? 0 then String "-" (f y) else f y) ++ String c b ->
  x = y /\ a = b.
Proof.
  intros Hf Hc.
  assert (forall z r, exists d s', f z ++ r = String d s' /\ digit d = true) as Hhd.
  { intros z r. destruct (Hf z) as [Hd Hv]. destruct (f z) as [|d s']; [done|].
    simpl in Hd. apply andb_true_iff in Hd as [Hd _]. by exists d, (s' ++ r). }
  assert (forall r r', String "-" r <> f x ++ r' /\ String "-" r <> f y ++ r') as Hm.
  { intros r r'. split; [destruct (Hhd x r') as (d & s' & E & Hd)|
                         destruct (Hhd y r') as (d & s' & E & Hd)];
      rewrite E; intros [= <- _]; by vm_compute in Hd. }
  destruct (Hf x) as [Hx Vx], (Hf y) as [Hy Vy].
  destruct (Z.ltb_spec x 0), (Z.ltb_spec y 0); cbn [String.append].
  - intros [= E]. apply digits_split in E as [E ->]; [|done..].
    rewrite E in Vx. rewrite Vx in Vy. injection Vy as Vy. split; [lia|done].
  - intros E. by apply Hm in E.
  - intros E. symmetry in E. by apply Hm in E.
  - intros E. apply digits_split in E as [E ->]; [|done..].
    rewrite E in Vx. rewrite Vx in Vy. injection Vy as Vy. split; [lia|done].
Qed.

Lemma appendInt_split x y w c a b :
  digit c = false -> appendInt x w ++ String c a = appendInt y w ++ String c b ->
  x = y /\ a = b.
Proof.
  intros Hc. unfold appendInt.
  apply (signed_split x y (fun z => zeros (w - String.length (decimal (Z.abs_N z))) ++
    decimal (Z.abs_N z))); [|done].
  intros z. split; [|apply value_zeros].
  by rewrite digits_app, zeros_digits, decimal_digits.
Qed.

Lemma FormatInt_inj x y : FormatInt x = FormatInt y -> x = y.
Proof.
  intros H. apply (f_equal (fun s => s ++ String ":" "")) in H. unfold FormatInt in H.
  apply (signed_split x y (fun z => decimal (Z.abs_N z))) in H as [? _]; [done|..|done].
  intros z. split; [apply decimal_digits|apply value_decimal].
Qed.

Lemma FormatInt_nonempty z : FormatInt z <> "".
Proof.
  unfold FormatInt. destruct (decimal_shape (Z.abs_N z)) as [_ H]. by destruct (z <? 0).
Qed.

(** ** Instants are rendered without loss *)

Ltac div_lia := Z.to_euclidean_division_equations; lia.

Lemma era_bounds doe :
  0 <= doe <= 146096 ->
  let yoe := (doe - doe / 1460 + doe / 36524 - doe / 146096) / 365 in
  let doy := doe - (365 * yoe + yoe / 4 - yoe / 100) in
  0 <= yoe <= 399 /\ 0 <= doy <= 366 /\ 0 <= (5 * doy + 2) / 153 <= 11.
Proof.
  intros Hd yoe doy.
  assert (0 <= yoe <= 399) by (unfold yoe; div_lia).
  assert (0 <= doy <= 366) by (unfold doy, yoe; div_lia).
  split_and!; try done; clearbody doy; div_lia.
Qed.

Lemma days_of_civil days :
  let '(y, m, d) := civil_from_days days in days_from_civil y m d = days.
Proof.
  unfold civil_from_days, days_from_civil. cbv zeta.
  set (z := days + 719468). set (doe := z mod 146097).
  assert (0 <= doe <= 146096) as Hdoe by (unfold doe; div_lia).
  assert (z = z / 146097 * 146097 + doe) as Hz by (unfold doe; div_lia).
  destruct (era_bounds doe Hdoe) as (Hy & Hdoy & Hmp). revert Hy Hdoy Hmp. cbv zeta.
  set (yoe := (doe - doe / 1460 + doe / 36524 - doe / 146096) / 365).
  set (doy := doe - (365 * yoe + yoe / 4 - yoe / 100)).
  set (mp := (5 * doy + 2) / 153). intros Hy Hdoy Hmp.
  assert (doe = 365 * yoe + yoe / 4 - yoe / 100 + doy) as Hdef by (unfold doy; lia).
  clearbody mp doy yoe. generalize dependent (z / 146097). intros era Hz.
  destruct (Z.ltb_spec mp 10); [destruct (Z.leb_spec (mp + 3) 2); [lia|]|
    destruct (Z.leb_spec (mp - 9) 2); [|lia]];
  [replace (yoe + era * 400 + 0) with (yoe + era * 400) by lia;
   replace (mp + 3 - 3) with mp by lia|
   replace (yoe + era * 400 + 1 - 1) with (yoe + era * 400) by lia;
   replace (mp - 9 + 9) with mp by lia];
  rewrite Z.div_add, Z.mod_add, (Z.div_small yoe 400), (Z.mod_small yoe 400) by lia;
  unfold z in *; lia.
Qed.

Lemma FormatTime_inj t t' : FormatTime t = FormatTime t' -> t = t'.
Proof.
  unfold FormatTime, date_time.
  pose proof (days_of_civil (t / 1000000000 / 86400)) as Hd.
  pose proof (days_of_civil (t' / 1000000000 / 86400)) as Hd'.
  destruct (civil_from_days (t / 1000000000 / 86400)) as [[y m] d].
  destruct (civil_from_days (t' / 1000000000 / 86400)) as [[y' m'] d'].
  cbv zeta. intros E.
  repeat (apply appendInt_split in E as [? E]; [|done]).
  subst y' m' d'. rewrite Hd in Hd'.
  clear Hd E. div_lia.
Qed.

(** ** Lists of fields are rendered without ambiguity *)

Lemma render_field_split f g a b :
  render_field f ++ a = render_field g ++ b -> f = g /\ a = b.
Proof.
  unfold render_field. rewrite <- !app_assoc_s. cbn [String.append]. intros E.
  apply digits_split in E as [E1 E2]; [|apply decimal_digits..|done].
  apply decimal_inj in E1. apply app_same_length_s in E2; [done|lia].
Qed.

Lemma render_field_nonempty f a : render_field f ++ a <> "".
Proof.
  unfold render_field. destruct (decimal_shape (N.of_nat (String.length f))) as [_ H].
  by destruct (decimal _).
Qed.

Lemma canonicalFields_inj fs gs : canonicalFields fs = canonicalFields gs -> fs = gs.
Proof.
  revert gs. induction fs as [|f fs IH]; intros [|g gs]; cbn [canonicalFields].
  - done.
  - intros E. symmetry in E. by apply render_field_nonempty in E.
  - intros E. by apply render_field_nonempty in E.
  - intros [-> E]%render_field_split. by rewrite (IH gs E).
Qed.
