(* ===== verification/AuditChain.v ===== *)
(** * The audit log
      (server/src/internal/auth: audit.go, audit_tail.go, audit_head.go,
      audit_verify.go)

    The table of events with its hash chain, the two tail anchors beside it,
    and the operations on them: recording an event, purging old ones, and
    verifying the log.  Hashing and JSON are parameters ([Primitives]).  A
    store may be read in any state, as somebody with access to the file may
    leave it; each query may fail. *)
From stdpp Require Import base list strings.
From S2P Require Import Prelude AuditText.

Local Open Scope string_scope.
Local Open Scope Z_scope.
Local Open Scope res_scope.

(** ** Events *)

Record AuditEvent := {
  ID : Z;
  OccurredAt : Z;
  ActorType : string;
  ActorID : option Z;
  ActorName : string;
  ActorIP : string;
  Action : string;
  TargetType : string;
  TargetID : option Z;
  TargetName : string;
  Outcome : string;
  Error : string;
  Details : string;
  PrevHash : string;
  Hash : string;
  HashVersion : Z;
}.

(** What a purge or re-chain event records about the log it left behind. *)
Record auditAnchor := {
  OldestRetainedID : option Z;
  OldestRetainedHash : string;
  HistoryThroughID : option Z;
  HistoryEvents : Z;
  HistoryDigest : string;
}.

Definition no_anchor : auditAnchor :=
  {| OldestRetainedID := None; OldestRetainedHash := "";
     HistoryThroughID := None; HistoryEvents := 0; HistoryDigest := "" |}.

(** The details of a purge event. *)
Record purge_details := {
  older_than : string;
  removed : Z;
  retained : auditAnchor;
}.

(** HMAC-SHA256 and SHA-256, in hexadecimal, and the JSON of a purge event's
    details, written and read. *)
Class Primitives := {
  hmac : string -> string -> string;
  sha256 : string -> string;
  marshal : purge_details -> string;
  unmarshal : string -> option auditAnchor;
}.

Inductive audit_error :=
| QueryFailed
| ErrAuditChainBroken
| ErrAuditChainDowngraded
| ErrAuditUnkeyedRow
| ErrAuditKeyMismatch
| errUnknownAuditHashVersion
| errNoAuditKey
| errAuditRowUnverified
| errAuditAnchorUnverified
| errStopAuditWalk
| errBadDetails.

#[export] Instance audit_error_eq_dec : EqDecision audit_error.
Proof. solve_decision. Defined.

Abbreviation result := (res audit_error).

(** ** The file *)

(** A primary anchor as a current-key anchor's HMAC covers it. *)
Record auditTailBinding := { b_id : Z; b_hash : string; b_mac : string }.

(** A row of audit_tail; [bound] is its bound_ columns, set or not. *)
Record auditTailSlot := {
  event_id : Z;
  event_hash : string;
  mac : string;
  bound : option auditTailBinding;
}.

(** The events are in the order of their ids, which is the order in which
    they are read.  [sqlite_sequence] is the table in which SQLite keeps the
    highest id it has issued: absent, without a row for the log, or with one.
    [schema_intact] says that the index and the triggers are the ones the
    server creates. *)
Record auditDB := {
  audit_events : list AuditEvent;
  tail_primary : option auditTailSlot;
  tail_current : option auditTailSlot;
  sqlite_sequence : option (option Z);
  schema_intact : bool;
}.

Record AuthStore := {
  db : auditDB;
  auditKey : string;
  fails : string -> bool;
}.

Definition ask {A} (s : AuthStore) (query : string) (v : A) : result A :=
  if fails s query then Err QueryFailed else Ok v.

Definition newest_row (d : auditDB) : option AuditEvent := last (audit_events d).

Definition event_at (d : auditDB) (id : Z) : option AuditEvent :=
  find (fun ev => ID ev =? id) (audit_events d).

(** ** Hashing an event (audit.go) *)

Definition auditTailHashVersion : Z := 3.
Definition auditHashVersion : Z := auditTailHashVersion.
Definition auditHashV2Label : string := "v2".
Definition auditHashV3Label : string := "v3".

Definition auditIDString (id : option Z) : string :=
  match id with None => "" | Some id => FormatInt id end.

Definition auditCanonical (label : string) (ev : AuditEvent) : string :=
  canonicalFields
    [label; FormatInt (HashVersion ev); PrevHash ev; FormatTime (OccurredAt ev);
     ActorType ev; auditIDString (ActorID ev); ActorName ev; ActorIP ev;
     Action ev; TargetType ev; auditIDString (TargetID ev); TargetName ev;
     Outcome ev; Error ev; Details ev].

Section Audit.
Context {prims : Primitives}.

Definition auditHashKeyed (label : string) (ev : AuditEvent) (key : string)
    : result string :=
  if (String.length key =? 0)%nat then Err errNoAuditKey
  else Ok (hmac key (auditCanonical label ev)).

Definition auditHashV2 (ev : AuditEvent) (key : string) : result string :=
  auditHashKeyed auditHashV2Label ev key.

Definition auditHash (ev : AuditEvent) (key : string) : result string :=
  if HashVersion ev =? 1 then Err ErrAuditUnkeyedRow
  else if HashVersion ev =? 2 then auditHashV2 ev key
  else if HashVersion ev =? 3 then auditHashKeyed auditHashV3Label ev key
  else Err errUnknownAuditHashVersion.

Definition auditRowVerifies (s : AuthStore) (ev : AuditEvent) : bool :=
  match auditHash ev (auditKey s) with
  | Ok want => String.eqb want (Hash ev)
  | Err _ => false
  end.

(** ** Reading every row (audit.go) *)

Definition auditPageSize : nat := 500.

Definition auditEventPage (s : AuthStore) (after : option Z)
    : result (list AuditEvent) :=
  ask s "auditEventPage"
    (take auditPageSize
       match after with
       | None => audit_events (db s)
       | Some after => filter (fun ev => after < ID ev) (audit_events (db s))
       end).

Fixpoint each_of_page {St} (fn : St -> AuditEvent -> result St) (st : St)
    (page : list AuditEvent) : result St :=
  match page with
  | [] => Ok st
  | ev :: page => let! st := fn st ev in each_of_page fn st page
  end.

Definition pages_step {St} (s : AuthStore) (fn : St -> AuditEvent -> result St)
    (x : option Z * St) : option Z * St + result St :=
  match auditEventPage s (fst x) with
  | Err e => inr (Err e)
  | Ok page =>
      match last page with
      | None => inr (Ok (snd x))
      | Some newest =>
          match each_of_page fn (snd x) page with
          | Err e => inr (Err e)
          | Ok st => inl (Some (ID newest), st)
          end
      end
  end.

(** The rows still to be read. *)
Definition pages_left (s : AuthStore) {St} (x : option Z * St) : nat :=
  match fst x with
  | None => S (length (audit_events (db s)))
  | Some after => length (filter (fun ev => after < ID ev) (audit_events (db s)))
  end.

Definition forEachAuditEvent {St} (s : AuthStore)
    (fn : St -> AuditEvent -> result St) (st : St) : result St :=
  run (pages_left s) (pages_step s fn) (Err QueryFailed) (None, st).

(** ** The tail anchors (audit_tail.go) *)

Definition auditTailLabel : string := "pgedge-ai-workbench/audit-tail/v1".
Definition auditTailCurrentLabel : string :=
  "pgedge-ai-workbench/audit-tail-current/v1".

Record auditTailState := {
  st_newest : option AuditEvent;
  st_anchor : option auditTailSlot;
  st_current : option auditTailSlot;
}.

Definition names (slot : option auditTailSlot) (ev : option AuditEvent) : bool :=
  match slot, ev with
  | Some slot, Some ev => (event_id slot =? ID ev) && String.eqb (event_hash slot) (Hash ev)
  | _, _ => false
  end.

Definition namesNewest (st : auditTailState) : bool :=
  names (st_anchor st) (st_newest st).
Definition currentNamesNewest (st : auditTailState) : bool :=
  names (st_current st) (st_newest st).

Definition readAuditTailState (s : AuthStore) (d : auditDB)
    : result auditTailState :=
  ask s "auditSelectTailState"
    {| st_newest := newest_row d; st_anchor := tail_primary d;
       st_current := tail_current d |}.

Definition auditTailMAC (key : string) (id : Z) (hash : string) : result string :=
  if (String.length key =? 0)%nat then Err errNoAuditKey
  else Ok (hmac key (canonicalFields [auditTailLabel; FormatInt id; hash])).

Definition auditTailCurrentMAC (key : string) (id : Z) (hash : string)
    (primaryID : Z) (primaryHash primaryMAC : string) : result string :=
  if (String.length key =? 0)%nat then Err errNoAuditKey
  else Ok (hmac key (canonicalFields
    [auditTailCurrentLabel; FormatInt id; hash; FormatInt primaryID; primaryHash;
     primaryMAC])).

Definition mac_is (want : result string) (mac : string) : bool :=
  match want with Ok want => String.eqb want mac | Err _ => false end.

Definition auditTailMACVerifies (key : string) (id : Z) (hash mac : string) : bool :=
  mac_is (auditTailMAC key id hash) mac.

Definition currentTailVerifies (s : AuthStore) (st : auditTailState) : bool :=
  match st_current st, st_anchor st with
  | Some c, Some a =>
      mac_is (auditTailCurrentMAC (auditKey s) (event_id c) (event_hash c)
                (event_id a) (event_hash a) (mac a)) (mac c)
  | _, _ => false
  end.

Definition auditTailVerifies (s : AuthStore) (st : auditTailState) : bool :=
  match st_anchor st with
  | Some a =>
      negb (bool_decide (is_Some (bound a))) &&
      auditTailMACVerifies (auditKey s) (event_id a) (event_hash a) (mac a)
  | None => false
  end.

Definition set_tails (d : auditDB) (primary current : option auditTailSlot)
    : auditDB :=
  {| audit_events := audit_events d; tail_primary := primary;
     tail_current := current; sqlite_sequence := sqlite_sequence d;
     schema_intact := schema_intact d |}.

Definition writeAuditTail (s : AuthStore) (d : auditDB) (ev : AuditEvent)
    : result auditDB :=
  let! m := auditTailMAC (auditKey s) (ID ev) (Hash ev) in
  ask s "auditUpsertTail"
    (set_tails d (Some {| event_id := ID ev; event_hash := Hash ev; mac := m;
                          bound := None |}) (tail_current d)).

Definition writeAuditTailCurrent (s : AuthStore) (d : auditDB) (ev : AuditEvent)
    (primary : auditTailSlot) : result auditDB :=
  let! m := auditTailCurrentMAC (auditKey s) (ID ev) (Hash ev)
              (event_id primary) (event_hash primary) (mac primary) in
  ask s "auditUpsertTail"
    (set_tails d (tail_primary d)
       (Some {| event_id := ID ev; event_hash := Hash ev; mac := m;
                bound := None |})).

Definition newestAuditRowVerifies (s : AuthStore) (st : auditTailState)
    : result bool :=
  match st_newest st with
  | None => Ok false
  | Some newest =>
      let! row := ask s "auditSelectByID" (event_at (db s) (ID newest)) in
      Ok match row with None => false | Some ev => auditRowVerifies s ev end
  end.

Inductive auditTailMove :=
| auditTailStay
| auditTailAdvance
| auditTailAdvanceCurrent
| auditTailPromote.

Definition readAuditSequence (s : AuthStore) : result (option (option Z)) :=
  ask s "readAuditSequence" (sqlite_sequence (db s)).

Definition auditSequenceUnused (s : AuthStore) : result bool :=
  let! seq := readAuditSequence s in
  Ok match seq with
     | Some (Some seq) => seq =? 0
     | _ => true
     end.

Definition planAuditTailMoveAfterKeyChange (s : AuthStore)
    (before : auditTailState) : result auditTailMove :=
  let when_unverified move :=
    let! verifies := newestAuditRowVerifies s before in
    Ok (if verifies then auditTailStay else move) in
  if namesNewest before && negb (bool_decide (is_Some (st_current before)))
  then when_unverified auditTailAdvanceCurrent
  else if currentNamesNewest before then when_unverified auditTailPromote
  else Ok auditTailStay.

Definition planAuditTailMove (s : AuthStore) (before : auditTailState)
    : result auditTailMove :=
  match st_anchor before, st_newest before with
  | None, None =>
      let! unused := auditSequenceUnused s in
      Ok (if unused then auditTailAdvance else auditTailStay)
  | _, _ =>
      if namesNewest before && auditTailVerifies s before then Ok auditTailAdvance
      else if currentNamesNewest before && currentTailVerifies s before
      then Ok auditTailAdvanceCurrent
      else planAuditTailMoveAfterKeyChange s before
  end.

(** A slot that is not there reads as zero values. *)
Definition no_slot : auditTailSlot :=
  {| event_id := 0; event_hash := ""; mac := ""; bound := None |}.

Definition applyAuditTailMove (s : AuthStore) (d : auditDB)
    (move : auditTailMove) (before : auditTailState) (ev : AuditEvent)
    : result auditDB :=
  let anchor := default no_slot (st_anchor before) in
  let current := default no_slot (st_current before) in
  match move with
  | auditTailStay => Ok d
  | auditTailAdvance => writeAuditTail s d ev
  | auditTailAdvanceCurrent => writeAuditTailCurrent s d ev anchor
  | auditTailPromote =>
      let promoted :=
        {| event_id := event_id current; event_hash := event_hash current;
           mac := mac current;
           bound := Some {| b_id := event_id anchor; b_hash := event_hash anchor;
                            b_mac := mac anchor |} |} in
      let! d := ask s "auditUpsertTail" (set_tails d (Some promoted) (tail_current d)) in
      writeAuditTailCurrent s d ev current
  end.

(** ** Recording an event (audit.go) *)

(** The zero value of [time.Time]. *)
Definition zeroTime : Z := -62135596800000000000.
Definition maxInt64 : Z := 2 ^ 63 - 1.

Definition with_place (ev : AuditEvent) (id : Z) (occurred : Z)
    (actorType actorName outcome prev hash : string) (version : Z) : AuditEvent :=
  {| ID := id; OccurredAt := occurred; ActorType := actorType;
     ActorID := ActorID ev; ActorName := actorName; ActorIP := ActorIP ev;
     Action := Action ev; TargetType := TargetType ev; TargetID := TargetID ev;
     TargetName := TargetName ev; Outcome := outcome; Error := Error ev;
     Details := Details ev; PrevHash := prev; Hash := hash;
     HashVersion := version |}.

(** The event with its defaults filled in and its place in the chain. *)
Definition prepared (ev : AuditEvent) (now : Z) (prevHash : string) : AuditEvent :=
  let system := String.eqb (ActorType ev) "" in
  with_place ev (ID ev)
    (if OccurredAt ev =? zeroTime then now else OccurredAt ev)
    (if system then "system" else ActorType ev)
    (if system && String.eqb (ActorName ev) "" then "system" else ActorName ev)
    (if String.eqb (Outcome ev) "" then "success" else Outcome ev)
    prevHash (Hash ev) auditHashVersion.

Definition set_hash (ev : AuditEvent) (id : Z) (hash : string) : AuditEvent :=
  with_place ev id (OccurredAt ev) (ActorType ev) (ActorName ev) (Outcome ev)
    (PrevHash ev) hash (HashVersion ev).

(** The id AUTOINCREMENT gives: above every id in the table and every id
    issued before. *)
Definition next_id (d : auditDB) (seq : option Z) : Z :=
  foldr Z.max (default 0 seq) (map ID (audit_events d)) + 1.

(** INSERT: the CHECKs of the table, the unique index on prev_hash, and the
    id, which SQLite refuses to issue beyond the largest int64. *)
Definition insert_event (s : AuthStore) (d : auditDB) (ev : AuditEvent)
    : result (auditDB * AuditEvent) :=
  match sqlite_sequence d with
  | None => Err QueryFailed
  | Some seq =>
      let id := next_id d seq in
      if negb (existsb (String.eqb (ActorType ev)) ["user"; "token"; "cli"; "system"])
         || negb (existsb (String.eqb (Outcome ev)) ["success"; "failure"; "denied"])
         || existsb (fun row => String.eqb (PrevHash row) (PrevHash ev)) (audit_events d)
         || (maxInt64 <? id)
      then Err QueryFailed
      else
        let ev := set_hash ev id (Hash ev) in
        ask s "insert audit_events"
          ({| audit_events := (audit_events d ++ [ev])%list;
              tail_primary := tail_primary d; tail_current := tail_current d;
              sqlite_sequence := Some (Some id); schema_intact := schema_intact d |}, ev)
  end.

Definition recordAudit (s : AuthStore) (now : Z) (ev : AuditEvent)
    : result auditDB :=
  let! before := readAuditTailState s (db s) in
  let! move := planAuditTailMove s before in
  let ev := prepared ev now (from_option Hash "" (st_newest before)) in
  let! hash := auditHash ev (auditKey s) in
  let! (d, ev) := insert_event s (db s) (set_hash ev (ID ev) hash) in
  applyAuditTailMove s d move before ev.

Definition with_db (s : AuthStore) (d : auditDB) : AuthStore :=
  {| db := d; auditKey := auditKey s; fails := fails s |}.

Fixpoint record_all (s : AuthStore) (now : Z) (evs : list AuditEvent)
    : result auditDB :=
  match evs with
  | [] => Ok (db s)
  | ev :: evs =>
      let! d := recordAudit s now ev in
      record_all (with_db s d) now evs
  end.

(** All of the events or none. *)
Definition recordAuditInOwnTx (s : AuthStore) (now : Z) (evs : list AuditEvent)
    : auditDB * result unit :=
  match (let! _ := ask s "begin" tt in
         let! d := record_all s now evs in
         ask s "commit" d) with
  | Ok d => (d, Ok tt)
  | Err e => (db s, Err e)
  end.

(** ** The head of the log (audit_head.go) *)

Definition auditActionPurge : string := "audit.purge".
Definition auditActionRechain : string := "audit.rechain".

Definition recordsHead (a : auditAnchor) : bool :=
  negb (String.eqb (OldestRetainedHash a) "").

Definition hasHistory (a : auditAnchor) : bool :=
  bool_decide (is_Some (HistoryThroughID a)) && negb (String.eqb (HistoryDigest a) "").

Definition inHistory (a : auditAnchor) (id : Z) : bool :=
  hasHistory a && (id <=? default 0 (HistoryThroughID a)).

Definition isAuditAnchorAction (action : string) : bool :=
  String.eqb action auditActionPurge || String.eqb action auditActionRechain.

Definition parseAuditAnchor (ev : AuditEvent) : result auditAnchor :=
  if String.eqb (Details ev) "" then Ok no_anchor
  else match unmarshal (Details ev) with
       | Some a => Ok a
       | None => Err errBadDetails
       end.

Definition auditHistoryLabel : string := "pgedge-ai-workbench/audit-history/v1".

(** The text digested so far and the number of events in it. *)
Record auditHistoryDigest := { h_text : string; h_events : Z }.

Definition newAuditHistoryDigest : auditHistoryDigest :=
  {| h_text := ""; h_events := 0 |}.

Definition digest_add (h : auditHistoryDigest) (ev : AuditEvent)
    : auditHistoryDigest :=
  {| h_text := h_text h ++
       canonicalFields [auditCanonical auditHistoryLabel ev; Hash ev];
     h_events := h_events h + 1 |}.

Definition digest_sum (h : auditHistoryDigest) : string := sha256 (h_text h).

Definition digest_matches (h : auditHistoryDigest) (a : auditAnchor) : bool :=
  (h_events h =? HistoryEvents a) && String.eqb (digest_sum h) (HistoryDigest a).

Record auditHeadCheck := {
  oldest : option AuditEvent;
  purgeSeen : bool;
  head_anchor : auditAnchor;
}.

Definition no_head : auditHeadCheck :=
  {| oldest := None; purgeSeen := false; head_anchor := no_anchor |}.

Definition noteOldest (h : auditHeadCheck) (ev : AuditEvent) : auditHeadCheck :=
  match oldest h with
  | Some _ => h
  | None => {| oldest := Some ev; purgeSeen := purgeSeen h;
               head_anchor := head_anchor h |}
  end.

Definition observe (h : auditHeadCheck) (ev : AuditEvent) : result auditHeadCheck :=
  let h := noteOldest h ev in
  if negb (isAuditAnchorAction (Action ev)) then Ok h
  else
    let! anchor := parseAuditAnchor ev in
    Ok {| oldest := oldest h;
          purgeSeen := purgeSeen h || String.eqb (Action ev) auditActionPurge;
          head_anchor := if recordsHead anchor then anchor else head_anchor h |}.

Definition auditGenesisAllowed (ev : AuditEvent) : bool :=
  (ID ev =? 1) || String.eqb (Action ev) auditActionPurge.

(** The id of a bad oldest row, if it is bad. *)
Definition head_check (h : auditHeadCheck) : option Z :=
  match oldest h with
  | None => None
  | Some old =>
      if recordsHead (head_anchor h) then
        if String.eqb (Hash old) (OldestRetainedHash (head_anchor h)) then None
        else Some (ID old)
      else if String.eqb (PrevHash old) "" && negb (auditGenesisAllowed old)
      then Some (ID old)
      else if negb (String.eqb (PrevHash old) "") && negb (purgeSeen h)
      then Some (ID old)
      else None
  end.

Record auditAnchorEvent := {
  an_event : option AuditEvent;
  an_record : auditAnchor;
  an_purgeSeen : bool;
}.

Definition an_found (a : auditAnchorEvent) : bool :=
  bool_decide (is_Some (an_event a)).

(** The anchor events, newest first. *)
Definition anchors_newest_first (d : auditDB) : list AuditEvent :=
  filter (fun ev => isAuditAnchorAction (Action ev) = true) (reverse (audit_events d)).

Fixpoint find_anchor (s : AuthStore) (seen : bool) (rows : list AuditEvent)
    : result auditAnchorEvent :=
  match rows with
  | [] => Ok {| an_event := None; an_record := no_anchor; an_purgeSeen := seen |}
  | ev :: rows =>
      let seen := seen || String.eqb (Action ev) auditActionPurge in
      if negb (auditRowVerifies s ev) then Err errAuditAnchorUnverified
      else
        let! anchor := parseAuditAnchor ev in
        if recordsHead anchor
        then Ok {| an_event := Some ev; an_record := anchor; an_purgeSeen := seen |}
        else find_anchor s seen rows
  end.

Definition findAuditAnchor (s : AuthStore) : result auditAnchorEvent :=
  let! rows := ask s "auditSelectAnchorsNewestFirst" (anchors_newest_first (db s)) in
  find_anchor s false rows.
End Audit.
