(* ===== verification/AuditVerify.v ===== *)
(** * Verifying and purging the audit log
      (server/src/internal/auth: audit_verify.go, audit_head.go,
      audit_tail.go, and the purge of audit.go) *)
From stdpp Require Import base list strings.
From S2P Require Import Prelude AuditText AuditChain.

Local Open Scope string_scope.
Local Open Scope Z_scope.
Local Open Scope res_scope.

Section Verify.
Context {prims : Primitives}.

(** ** The tail (audit.go, audit_tail.go) *)

(** [newest] is 0 for an empty log. *)
Definition checkAuditTail (newest : Z) (seq : option Z) : result unit :=
  match seq with
  | None => if 0 <? newest then Err ErrAuditChainBroken else Ok tt
  | Some seq =>
      if newest <? seq then Err ErrAuditChainBroken
      else if seq <? newest then Err ErrAuditChainBroken
      else Ok tt
  end.

Definition verifyAuditSequence (s : AuthStore) : result unit :=
  let! present := ask s "auditSequenceTablePresent" (sqlite_sequence (db s)) in
  match present with
  | None => Err ErrAuditChainBroken
  | Some seq =>
      let! x := ask s "newest and sequence" (newest_row (db s), seq) in
      checkAuditTail (from_option ID 0 (fst x)) (snd x)
  end.

Definition auditTailAnchorPresent (st : auditTailState) : result unit :=
  match st_anchor st, st_newest st with
  | None, Some newest =>
      if auditTailHashVersion <=? HashVersion newest
      then Err ErrAuditChainBroken else Ok tt
  | Some _, None => Err ErrAuditChainBroken
  | _, _ => Ok tt
  end.

Definition verifyAuditTailAnchor (s : AuthStore) : result unit :=
  let! st := readAuditTailState s (db s) in
  let! _ := auditTailAnchorPresent st in
  if negb (bool_decide (is_Some (st_anchor st))) then Ok tt
  else if negb (namesNewest st) then Err ErrAuditChainBroken
  else if negb (auditTailVerifies s st) then Err ErrAuditChainBroken
  else Ok tt.

Definition verifyAuditTail (s : AuthStore) : result unit :=
  let! _ := verifyAuditSequence s in
  verifyAuditTailAnchor s.

(** *** After a change of secret *)

Definition auditTailBoundRow (s : AuthStore) (b : auditTailBinding) (id : Z)
    : result (option AuditEvent) :=
  if id <=? b_id b then Ok None
  else
    let! row := ask s "auditSelectByID" (event_at (db s) (b_id b)) in
    Ok match row with
       | Some ev => if String.eqb (Hash ev) (b_hash b) then Some ev else None
       | None => None
       end.

Definition checkAuditTailBinding (s : AuthStore) (id : Z)
    (b : option auditTailBinding) : result unit :=
  match b with
  | None => Ok tt
  | Some b =>
      let! row := auditTailBoundRow s b id in
      match row with Some _ => Ok tt | None => Err ErrAuditChainBroken end
  end.

Definition verifyAuditTailCurrent (s : AuthStore) (st : auditTailState)
    (lastFailing : AuditEvent) : result unit :=
  if from_option ID 0 (st_newest st) =? ID lastFailing then
    if bool_decide (is_Some (st_current st)) then Err ErrAuditChainBroken else Ok tt
  else if negb (bool_decide (is_Some (st_current st))) then Err ErrAuditChainBroken
  else if negb (currentNamesNewest st) then Err ErrAuditChainBroken
  else if negb (currentTailVerifies s st) then Err ErrAuditChainBroken
  else Ok tt.

Definition primaryBinding (st : auditTailState) : option auditTailBinding :=
  (fun a => {| b_id := event_id a; b_hash := event_hash a; b_mac := mac a |})
    <$> st_anchor st.

Definition checkRotatedAuditTail (s : AuthStore) (st : auditTailState)
    (lastFailing : AuditEvent) : result unit :=
  match st_anchor st with
  | None => Ok tt
  | Some a =>
      if namesNewest st && auditTailVerifies s st then Ok tt
      else if (event_id a =? ID lastFailing) &&
              String.eqb (event_hash a) (Hash lastFailing) &&
              negb (auditTailVerifies s st) then
        let! _ := verifyAuditTailCurrent s st lastFailing in
        checkAuditTailBinding s (event_id a) (bound a)
      else if (from_option ID 0 (st_newest st) =? ID lastFailing) &&
              currentNamesNewest st && negb (currentTailVerifies s st) &&
              negb (auditTailVerifies s st) then
        checkAuditTailBinding s (from_option event_id 0 (st_current st))
          (primaryBinding st)
      else Err ErrAuditChainBroken
  end.

Definition verifyAuditTailAfterKeyChange (s : AuthStore)
    (lastFailing : AuditEvent) : result unit :=
  let! _ := verifyAuditSequence s in
  let! st := readAuditTailState s (db s) in
  let! _ := auditTailAnchorPresent st in
  checkRotatedAuditTail s st lastFailing.

Record key_change_walk := {
  kc_run : Z;
  kc_last : option AuditEvent;
  kc_lastFailing : option AuditEvent;
  kc_verifying : bool;
}.

Definition key_change_step (s : AuthStore) (w : key_change_walk)
    (ev : AuditEvent) : result key_change_walk :=
  if ((0 <? kc_run w) || kc_verifying w) &&
     negb (String.eqb (PrevHash ev) (from_option Hash "" (kc_last w)))
  then Err errStopAuditWalk
  else if auditRowVerifies s ev then
    if kc_run w =? 0 then Err errStopAuditWalk
    else Ok {| kc_run := kc_run w; kc_last := Some ev;
               kc_lastFailing := kc_lastFailing w; kc_verifying := true |}
  else if kc_verifying w then Err errStopAuditWalk
  else Ok {| kc_run := kc_run w + 1; kc_last := Some ev;
             kc_lastFailing := Some ev; kc_verifying := false |}.

Definition looksLikeKeyChange (s : AuthStore) : result bool :=
  match forEachAuditEvent s (key_change_step s)
          {| kc_run := 0; kc_last := None; kc_lastFailing := None;
             kc_verifying := false |} with
  | Err errStopAuditWalk => Ok false
  | Err e => Err e
  | Ok w =>
      match kc_lastFailing w with
      | None => Ok false
      | Some lastFailing =>
          match verifyAuditTailAfterKeyChange s lastFailing with
          | Ok _ => Ok true
          | Err ErrAuditChainBroken => Ok false
          | Err e => Err e
          end
      end
  end.

(** ** Verification (audit_verify.go) *)

Record auditChainWalk := {
  w_history : auditHistoryDigest;
  w_head : auditHeadCheck;
  w_count : Z;
  w_firstBad : Z;
  w_prevHash : string;
  w_first : bool;
  w_highestVersion : Z;
  w_keyProven : bool;
}.

Definition walk_step (s : AuthStore) (anchor : auditAnchor) (w : auditChainWalk)
    (ev : AuditEvent) : auditChainWalk * option audit_error :=
  let bad e := ({| w_history := w_history w; w_head := w_head w; w_count := w_count w;
                   w_firstBad := ID ev; w_prevHash := w_prevHash w;
                   w_first := w_first w; w_highestVersion := w_highestVersion w;
                   w_keyProven := w_keyProven w |}, Some e) in
  if inHistory anchor (ID ev) then
    ({| w_history := digest_add (w_history w) ev; w_head := noteOldest (w_head w) ev;
        w_count := w_count w; w_firstBad := w_firstBad w;
        w_prevHash := w_prevHash w; w_first := w_first w;
        w_highestVersion := w_highestVersion w; w_keyProven := w_keyProven w |}, None)
  else if negb (w_first w) && negb (String.eqb (PrevHash ev) (w_prevHash w))
  then bad ErrAuditChainBroken
  else if HashVersion ev <? w_highestVersion w then bad ErrAuditChainDowngraded
  else match auditHash ev (auditKey s) with
       | Err _ => bad ErrAuditChainBroken
       | Ok want =>
           if negb (String.eqb want (Hash ev)) then bad errAuditRowUnverified
           else match observe (w_head w) ev with
                | Err e =>
                    ({| w_history := w_history w; w_head := noteOldest (w_head w) ev;
                        w_count := w_count w; w_firstBad := ID ev;
                        w_prevHash := w_prevHash w; w_first := w_first w;
                        w_highestVersion := w_highestVersion w;
                        w_keyProven := true |}, Some e)
                | Ok head =>
                    ({| w_history := w_history w; w_head := head;
                        w_count := w_count w; w_firstBad := w_firstBad w;
                        w_prevHash := w_prevHash w; w_first := w_first w;
                        w_highestVersion := HashVersion ev;
                        w_keyProven := true |}, None)
                end
       end.

(** The next row: counted, checked, and remembered as the previous one. *)
Definition count_row (w : auditChainWalk) : auditChainWalk :=
  {| w_history := w_history w; w_head := w_head w; w_count := w_count w + 1;
     w_firstBad := w_firstBad w; w_prevHash := w_prevHash w; w_first := w_first w;
     w_highestVersion := w_highestVersion w; w_keyProven := w_keyProven w |}.

Definition past_row (w : auditChainWalk) (ev : AuditEvent) : auditChainWalk :=
  {| w_history := w_history w; w_head := w_head w; w_count := w_count w;
     w_firstBad := w_firstBad w; w_prevHash := Hash ev; w_first := false;
     w_highestVersion := w_highestVersion w; w_keyProven := w_keyProven w |}.

Fixpoint walk_rows (s : AuthStore) (anchor : auditAnchor) (w : auditChainWalk)
    (rows : list AuditEvent) : auditChainWalk * option audit_error :=
  match rows with
  | [] => (w, None)
  | ev :: rows =>
      match walk_step s anchor (count_row w) ev with
      | (w, Some e) => (w, Some e)
      | (w, None) => walk_rows s anchor (past_row w ev) rows
      end
  end.

Definition new_walk : auditChainWalk :=
  {| w_history := newAuditHistoryDigest; w_head := no_head; w_count := 0;
     w_firstBad := 0; w_prevHash := ""; w_first := true; w_highestVersion := 0;
     w_keyProven := false |}.

Definition walk_run (s : AuthStore) (anchor : auditAnchor)
    : auditChainWalk * option audit_error :=
  match ask s "auditSelectInIDOrder" (audit_events (db s)) with
  | Err e => (new_walk, Some e)
  | Ok rows => walk_rows s anchor new_walk rows
  end.

Definition classifyUnverifiedRow (s : AuthStore) (w : auditChainWalk)
    (anchorFound : bool) : audit_error :=
  let keyChange := if negb (w_keyProven w) && negb anchorFound
                   then looksLikeKeyChange s else Ok false in
  match keyChange with
  | Err e => e
  | Ok true => ErrAuditKeyMismatch
  | Ok false => ErrAuditChainBroken
  end.

Record AuditVerifyReport := {
  Events : Z;
  FirstBad : Z;
  report_HistoryEvents : Z;
  HistoryAnchorID : Z;
}.

Definition verifyAuditSchema (s : AuthStore) : result unit :=
  let! ok := ask s "verifyAuditSchema" (schema_intact (db s)) in
  if ok then Ok tt else Err ErrAuditChainBroken.

Definition verifyAuditLog (s : AuthStore)
    : AuditVerifyReport * option audit_error :=
  let report events bad he hid :=
    {| Events := events; FirstBad := bad; report_HistoryEvents := he;
       HistoryAnchorID := hid |} in
  match verifyAuditSchema s with
  | Err _ => (report 0 0 0 0, Some ErrAuditChainBroken)
  | Ok _ =>
      let anchor :=
        match findAuditAnchor s with
        | Ok a => a
        | Err _ => {| an_event := None; an_record := no_anchor; an_purgeSeen := false |}
        end in
      let rec := an_record anchor in
      let anchorID := from_option ID 0 (an_event anchor) in
      let he := if hasHistory rec then HistoryEvents rec else 0 in
      let hid := if hasHistory rec then anchorID else 0 in
      match walk_run s rec with
      | (w, Some errAuditRowUnverified) =>
          (report (w_count w) (w_firstBad w) he hid,
           Some (classifyUnverifiedRow s w (an_found anchor)))
      | (w, Some e) => (report (w_count w) (w_firstBad w) he hid, Some e)
      | (w, None) =>
          if hasHistory rec && negb (digest_matches (w_history w) rec)
          then (report (w_count w) anchorID he hid, Some ErrAuditChainBroken)
          else match head_check (w_head w) with
               | Some bad => (report (w_count w) bad he hid, Some ErrAuditChainBroken)
               | None =>
                   match verifyAuditTail s with
                   | Err e => (report (w_count w) 0 he hid, Some e)
                   | Ok _ => (report (w_count w) 0 he hid, None)
                   end
               end
      end
  end.

(** ** The purge (audit_head.go, audit.go) *)

Record auditPurgeCut := { newHead : AuditEvent; cut_history : option auditAnchor }.

Definition auditPurgeUnverified (s : AuthStore) (anchorFound : bool) : audit_error :=
  let keyChange := if anchorFound then Ok false else looksLikeKeyChange s in
  match keyChange with
  | Err e => e
  | Ok true => ErrAuditKeyMismatch
  | Ok false => ErrAuditChainBroken
  end.

Definition checkAuditAnchorLinks (s : AuthStore) (ev : AuditEvent) : result unit :=
  let! before := ask s "event before anchor"
    (last (filter (fun row => ID row < ID ev) (audit_events (db s)))) in
  let! after := ask s "event after anchor"
    (head (filter (fun row => ID ev < ID row) (audit_events (db s)))) in
  if from_option (fun row => String.eqb (Hash row) (PrevHash ev)) true before &&
     from_option (fun row => String.eqb (PrevHash row) (Hash ev)) true after
  then Ok tt else Err ErrAuditChainBroken.

Record auditPrefixWalk := {
  p_all : auditHistoryDigest;
  p_kept : auditHistoryDigest;
  p_prev : option AuditEvent;
  p_newHead : option AuditEvent;
}.

Definition checkAuditRowVerifies (s : AuthStore) (ev : AuditEvent) : result unit :=
  match auditHash ev (auditKey s) with
  | Err _ => Err ErrAuditChainBroken
  | Ok want => if String.eqb want (Hash ev) then Ok tt else Err errAuditRowUnverified
  end.

Definition checkPlace (anchor : auditAnchor) (genesis : bool)
    (w : auditPrefixWalk) (ev : AuditEvent) : result unit :=
  let start := OldestRetainedHash anchor in
  match p_prev w with
  | Some prev =>
      if negb (inHistory anchor (ID ev)) && negb (String.eqb (PrevHash ev) (Hash prev))
      then Err ErrAuditChainBroken else Ok tt
  | None =>
      if negb (String.eqb start "") && negb (String.eqb (Hash ev) start)
      then Err ErrAuditChainBroken
      else if genesis && negb (String.eqb (PrevHash ev) "")
      then Err ErrAuditChainBroken
      else if String.eqb start "" && String.eqb (PrevHash ev) "" &&
              negb (auditGenesisAllowed ev)
      then Err ErrAuditChainBroken
      else Ok tt
  end.

Definition prefix_step (s : AuthStore) (anchor : auditAnchor) (genesis : bool)
    (cut : Z) (w : auditPrefixWalk) (ev : AuditEvent) : result auditPrefixWalk :=
  let! digests :=
    if inHistory anchor (ID ev) then
      Ok (digest_add (p_all w) ev,
          if cut <=? ID ev then digest_add (p_kept w) ev else p_kept w)
    else
      let! _ := checkAuditRowVerifies s ev in
      Ok (p_all w, p_kept w) in
  let! _ := checkPlace anchor genesis w ev in
  Ok {| p_all := fst digests; p_kept := snd digests; p_prev := Some ev;
        p_newHead := if ID ev =? cut then Some ev else p_newHead w |}.

Definition readThrough (anchor : auditAnchor) (cut : Z) : Z :=
  let through := default 0 (HistoryThroughID anchor) in
  if hasHistory anchor && (cut <? through) then through else cut.

Definition prefix_result (anchor : auditAnchor) (w : auditPrefixWalk)
    : result auditPurgeCut :=
  match p_newHead w with
  | None => Err QueryFailed
  | Some h =>
      if negb (hasHistory anchor) then Ok {| newHead := h; cut_history := None |}
      else if negb (digest_matches (p_all w) anchor) then Err ErrAuditChainBroken
      else Ok {| newHead := h;
                 cut_history :=
                   if 0 <? h_events (p_kept w)
                   then Some {| OldestRetainedID := None; OldestRetainedHash := "";
                                HistoryThroughID := HistoryThroughID anchor;
                                HistoryEvents := h_events (p_kept w);
                                HistoryDigest := digest_sum (p_kept w) |}
                   else None |}
  end.

Definition verifyAuditPurgePrefix (s : AuthStore) (cut : Z) : result auditPurgeCut :=
  match findAuditAnchor s with
  | Err errAuditAnchorUnverified => Err (auditPurgeUnverified s false)
  | Err e => Err e
  | Ok anchor =>
      let rec := an_record anchor in
      let! _ := match an_event anchor with
                | Some ev => checkAuditAnchorLinks s ev
                | None => Ok tt
                end in
      let! rows := ask s "auditSelectThroughID"
        (filter (fun ev => ID ev <= readThrough rec cut) (audit_events (db s))) in
      match each_of_page
              (prefix_step s rec (negb (an_found anchor) && negb (an_purgeSeen anchor)) cut)
              {| p_all := newAuditHistoryDigest; p_kept := newAuditHistoryDigest;
                 p_prev := None; p_newHead := None |} rows with
      | Err errAuditRowUnverified => Err (auditPurgeUnverified s (an_found anchor))
      | Err e => Err e
      | Ok w => prefix_result rec w
      end
  end.

Definition purge_anchor (kept : auditPurgeCut) : auditAnchor :=
  let h := default no_anchor (cut_history kept) in
  {| OldestRetainedID := Some (ID (newHead kept));
     OldestRetainedHash := Hash (newHead kept);
     HistoryThroughID := HistoryThroughID h;
     HistoryEvents := HistoryEvents h;
     HistoryDigest := HistoryDigest h |}.

Definition purge_event (details : purge_details) : AuditEvent :=
  {| ID := 0; OccurredAt := zeroTime; ActorType := "system"; ActorID := None;
     ActorName := "system"; ActorIP := ""; Action := auditActionPurge;
     TargetType := ""; TargetID := None; TargetName := ""; Outcome := "success";
     Error := ""; Details := marshal details; PrevHash := ""; Hash := "";
     HashVersion := 0 |}.

(** The rows [DELETE ... WHERE id < cut] leaves. *)
Definition delete_below (d : auditDB) (cut : Z) : auditDB :=
  {| audit_events := filter (fun ev => cut <= ID ev) (audit_events d);
     tail_primary := tail_primary d; tail_current := tail_current d;
     sqlite_sequence := sqlite_sequence d; schema_intact := schema_intact d |}.

(** The oldest row that is not before [olderThan], by the text of its time. *)
Definition retention_cut (d : auditDB) (olderThan : Z) : option Z :=
  ID <$> find (fun ev => String.leb (FormatTime olderThan) (FormatTime (OccurredAt ev)))
              (audit_events d).

(** Deleting the rows below [cut] and recording that it was done. *)
Definition purge_below (s : AuthStore) (now olderThan cut : Z)
    : result (auditDB * Z) :=
  let! kept := verifyAuditPurgePrefix s cut in
  let! d := ask s "delete audit_events" (delete_below (db s) cut) in
  let removed := Z.of_nat (length (audit_events (db s))) -
                 Z.of_nat (length (audit_events d)) in
  let! d :=
    if 0 <? removed
    then recordAudit (with_db s d) now
           (purge_event {| older_than := FormatRFC3339 olderThan;
                           removed := removed; retained := purge_anchor kept |})
    else Ok d in
  ask s "commit" (d, removed).

Definition purge_tx (s : AuthStore) (now olderThan : Z) : result (auditDB * Z) :=
  let! _ := ask s "begin" tt in
  let! cut := ask s "retention boundary" (retention_cut (db s) olderThan) in
  match cut with
  | None => Ok (db s, 0)
  | Some cut =>
      let! below := ask s "count below"
        (length (filter (fun ev => ID ev < cut) (audit_events (db s)))) in
      if (below =? 0)%nat then Ok (db s, 0) else purge_below s now olderThan cut
  end.

Definition PurgeAuditEvents (s : AuthStore) (now olderThan : Z)
    : auditDB * result Z :=
  match purge_tx s now olderThan with
  | Ok (d, removed) => (d, Ok removed)
  | Err e => (db s, Err e)
  end.

(** ** Anchoring a log that has none (audit_tail.go) *)

Definition auditTailSeedable (s : AuthStore) (st : auditTailState) : result bool :=
  match st_anchor st, st_newest st with
  | None, Some newest =>
      if (auditTailHashVersion <=? HashVersion newest) || (HashVersion newest <? 2)
      then Ok false
      else
        let! seq := readAuditSequence s in
        match seq with
        | None => Ok false
        | Some seq =>
            if is_ok (checkAuditTail (ID newest) seq)
            then newestAuditRowVerifies s st else Ok false
        end
  | _, _ => Ok false
  end.

Definition seedAuditTail (s : AuthStore) : auditDB * result unit :=
  match (let! _ := ask s "begin" tt in
         let! st := readAuditTailState s (db s) in
         let! seed := auditTailSeedable s st in
         match st_newest st with
         | Some newest =>
             if seed then
               let! d := writeAuditTail s (db s) newest in
               ask s "commit" d
             else Ok (db s)
         | None => Ok (db s)
         end) with
  | Ok d => (d, Ok tt)
  | Err e => (db s, Err e)
  end.
End Verify.
