(* ===== verification/AuditSound.v ===== *)
(** * What the audit log guarantees

    A log the server wrote always verifies, and a file that verifies is a
    state the log has been in: rows cannot be altered, added, reordered or
    removed without the key.  The limit is in the statement: somebody who
    puts back an old file entire, anchor included, is not found out. *)
From stdpp Require Import base list strings sets sorting.
From S2P Require Import Prelude AuditText AuditChain AuditVerify.

Local Open Scope Z_scope.
Local Open Scope res_scope.

(** ** Events are rendered without ambiguity *)

(** The event with the columns its hash does not cover blanked. *)
Definition content (ev : AuditEvent) : AuditEvent := set_hash ev 0 "".

Lemma auditIDString_inj a b : auditIDString a = auditIDString b -> a = b.
Proof.
  destruct a as [a|], b as [b|]; simpl; intros H; try done.
  - by rewrite (FormatInt_inj a b H).
  - by apply FormatInt_nonempty in H.
  - symmetry in H. by apply FormatInt_nonempty in H.
Qed.

Lemma auditCanonical_inj l l' e e' :
  auditCanonical l e = auditCanonical l' e' -> l = l' /\ content e = content e'.
Proof.
  intros H%canonicalFields_inj. injection H as
    -> ?%FormatInt_inj ? ?%FormatTime_inj ? ?%auditIDString_inj ? ? ? ?
    ?%auditIDString_inj ? ? ? ?.
  split; [done|]. destruct e, e'. unfold content, set_hash, with_place. simpl in *.
  by subst.
Qed.

Lemma content_fields e e' :
  content e = content e' ->
  HashVersion e = HashVersion e' /\ PrevHash e = PrevHash e' /\ Action e = Action e' /\
  Details e = Details e' /\ forall l, auditCanonical l e = auditCanonical l e'.
Proof.
  destruct e, e'. unfold content, set_hash, with_place. cbn.
  intros [= -> -> -> -> -> -> -> -> -> -> -> -> -> ->]. done.
Qed.

(** ** Reading by pages *)

Definition by_id (a b : AuditEvent) : Prop := ID a < ID b.

Lemma filter_all {A} (P : A -> Prop) `{!forall x, Decision (P x)} (l : list A) :
  (forall x, x ∈ l -> P x) -> filter P l = l.
Proof.
  induction l as [|x l IH]; intros Hp; [done|].
  rewrite filter_cons_True by (apply Hp; left).
  rewrite IH; [done|]. intros y Hy. apply Hp. by right.
Qed.

Lemma filter_none {A} (P : A -> Prop) `{!forall x, Decision (P x)} (l : list A) :
  (forall x, x ∈ l -> ~ P x) -> filter P l = [].
Proof.
  induction l as [|x l IH]; intros Hp; [done|].
  rewrite filter_cons_False by (apply Hp; left). apply IH. intros y Hy. apply Hp. by right.
Qed.

Lemma sorted_split a x b :
  StronglySorted by_id (a ++ b) -> last a = Some x ->
  filter (fun ev => ID x < ID ev) (a ++ b) = b.
Proof.
  intros Hs [a' ->]%last_Some. rewrite filter_app, filter_none, filter_all; [done|..].
  - intros y Hy. apply (StronglySorted_app_1_elem_of _ _ _ x y Hs); [set_solver|done].
  - intros y [Hy| ->%list_elem_of_singleton]%elem_of_app; [|lia].
    apply StronglySorted_app_1_l in Hs.
    pose proof (StronglySorted_app_1_elem_of _ _ _ y x Hs Hy ltac:(set_solver)) as H.
    unfold by_id in H. lia.
Qed.

(** What the code relies on: an HMAC is not the empty string, and the details
    of a purge event are read back as they were written. *)
Class PrimitiveLaws (prims : Primitives) : Prop := {
  hmac_nonempty key m : hmac key m <> ""%string;
  marshal_nonempty p : marshal p <> ""%string;
  unmarshal_marshal p : unmarshal (marshal p) = Some (retained p);
}.

Section Sound.
Context {prims : Primitives}.

Lemma each_of_page_app {St} (fn : St -> AuditEvent -> result St) st a b :
  each_of_page fn st (a ++ b) =
  (let! st := each_of_page fn st a in each_of_page fn st b).
Proof.
  revert st. induction a as [|ev a IH]; intros st; simpl; [done|].
  destruct (fn st ev); simpl; [apply IH|done].
Qed.

Definition unread (s : AuthStore) (after : option Z) : list AuditEvent :=
  match after with
  | None => audit_events (db s)
  | Some after => filter (fun ev => after < ID ev) (audit_events (db s))
  end.

Lemma auditEventPage_Ok s after page :
  auditEventPage s after = Ok page -> page = take auditPageSize (unread s after).
Proof. unfold auditEventPage, ask. destruct (fails s _); [done|]. by intros [= <-]. Qed.

Lemma unread_sub s after x : x ∈ unread s after -> x ∈ audit_events (db s).
Proof. destruct after; [|done]. intros H. by apply list_elem_of_filter in H as [_ H]. Qed.

Lemma pages_decrease {St} s (fn : St -> AuditEvent -> result St) :
  decreases (pages_left s) (pages_step s fn).
Proof.
  intros [after st] x. unfold pages_step. cbn [fst snd].
  destruct (auditEventPage s after) as [page|] eqn:Hp; [|done].
  apply auditEventPage_Ok in Hp. destruct (last page) as [newest|] eqn:Hl; [|done].
  destruct (each_of_page fn st page) as [st'|]; [|done]. intros [= <-].
  assert (newest ∈ unread s after) as Hn.
  { apply last_Some in Hl as [p' ->]. rewrite <- (take_drop auditPageSize (unread s after)).
    rewrite <- Hp. set_solver. }
  unfold pages_left. cbn [fst]. pose proof (unread_sub _ _ _ Hn) as Hin.
  destruct after as [after|].
  - apply list_elem_of_filter in Hn as [Hlt _].
    revert Hin. induction (audit_events (db s)) as [|y l IH]; [by intros ?%elem_of_nil|].
    assert (length (filter (fun ev => (ID newest < ID ev)%Z) l) <=
            length (filter (fun ev => (after < ID ev)%Z) l))%nat as Hle.
    { clear IH. induction l as [|z l IH]; [done|]. rewrite !filter_cons.
      repeat case_decide; simpl; lia. }
    intros [<-|Hy]%elem_of_cons; rewrite !filter_cons.
    + rewrite decide_False, decide_True by lia. simpl. lia.
    + specialize (IH Hy). repeat case_decide; simpl; lia.
  - pose proof (length_filter (fun ev => ID newest < ID ev) (audit_events (db s))). lia.
Qed.

Lemma unread_sorted s after :
  StronglySorted by_id (audit_events (db s)) -> StronglySorted by_id (unread s after).
Proof.
  intros Hs. destruct after as [after|]; [|done]. simpl.
  induction Hs as [|x l Hl IH Hx]; [constructor|]. rewrite filter_cons.
  case_decide; [|done]. constructor; [done|]. rewrite Forall_forall in *.
  intros y [_ Hy]%list_elem_of_filter. auto.
Qed.

Lemma next_page s after newest :
  StronglySorted by_id (audit_events (db s)) ->
  last (take auditPageSize (unread s after)) = Some newest ->
  unread s (Some (ID newest)) = drop auditPageSize (unread s after).
Proof.
  intros Hs%(unread_sorted s after) Hl.
  rewrite <- (take_drop auditPageSize (unread s after)) in Hs.
  pose proof (sorted_split _ _ _ Hs Hl) as E. rewrite take_drop in E. rewrite <- E.
  destruct after as [after|]; [|done]. simpl. rewrite list_filter_filter.
  apply list_filter_iff. intros ev. split; [|by intros []]. intros H. split; [done|].
  apply last_Some in Hl as [p Hl].
  assert (newest ∈ unread s (Some after)) as [Hn _]%list_elem_of_filter; [|lia].
  rewrite <- (take_drop auditPageSize (unread s (Some after))), Hl. set_solver.
Qed.

(** The paged walk is the walk over all rows. *)
Lemma forEachAuditEvent_rows {St} s (fn : St -> AuditEvent -> result St) st :
  (forall q, fails s q = false) -> StronglySorted by_id (audit_events (db s)) ->
  forEachAuditEvent s fn st = each_of_page fn st (audit_events (db s)).
Proof.
  intros Hf Hs.
  apply (run_ind (pages_left s) (pages_step s fn) (Err QueryFailed)
    (fun x r => r = each_of_page fn (snd x) (unread s (fst x)))).
  - apply pages_decrease.
  - intros [after x] r. unfold pages_step, auditEventPage, ask. rewrite Hf. cbn [fst snd].
    fold (unread s after). rewrite <- (take_drop auditPageSize (unread s after)) at 2.
    rewrite each_of_page_app. destruct (last (take _ _)) eqn:Hl.
    + destruct (each_of_page fn x _) eqn:E; [done|]. by intros [= <-].
    + apply last_None in Hl. intros [= <-]. rewrite Hl. simpl.
      by apply take_nil_inv in Hl as [?| ->].
  - intros [after x] [after' x'] r. unfold pages_step, auditEventPage, ask.
    rewrite Hf. cbn [fst snd]. fold (unread s after).
    destruct (last (take _ _)) as [newest|] eqn:Hl; [|done].
    destruct (each_of_page fn x _) as [st'|] eqn:E; [|done]. intros [= <- <-] ->.
    rewrite <- (take_drop auditPageSize (unread s after)), each_of_page_app, E.
    simpl. f_equal. by apply next_page.
Qed.
(** ** The log the server writes *)

Definition is_anchor (ev : AuditEvent) : Prop := isAuditAnchorAction (Action ev) = true.

Definition store (key : string) (d : auditDB) (f : string -> bool) : AuthStore :=
  {| db := d; auditKey := key; fails := f |}.

Definition empty_log : auditDB :=
  {| audit_events := []; tail_primary := None; tail_current := None;
     sqlite_sequence := Some None; schema_intact := true |}.

(** [log_run key past d]: the server has written the events [past] with
    [key], purging old ones now and then, and the file is [d].  Queries may
    have failed on the way; a transaction that failed changed nothing. *)
Inductive log_run (key : string) : list AuditEvent -> auditDB -> Prop :=
| log_start : log_run key [] empty_log
| log_record past d f now ev d' new :
    log_run key past d ->
    ~ is_anchor ev ->
    recordAudit (store key d f) now ev = Ok d' ->
    newest_row d' = Some new ->
    log_run key (past ++ [new]) d'
| log_purge past d f now olderThan cut d' n new :
    log_run key past d ->
    purge_below (store key d f) now olderThan cut = Ok (d', n) -> 0 < n ->
    newest_row d' = Some new ->
    log_run key (past ++ [new]) d'.

(** *** The chain *)

Definition row_ok (key prev : string) (ev : AuditEvent) : Prop :=
  PrevHash ev = prev /\ HashVersion ev = auditHashVersion /\
  Hash ev = hmac key (auditCanonical auditHashV3Label ev).

Definition last_hash (l : list AuditEvent) : string := from_option Hash ""%string (last l).

Fixpoint chain (key prev : string) (l : list AuditEvent) : Prop :=
  match l with
  | [] => True
  | ev :: l => row_ok key prev ev /\ chain key (Hash ev) l
  end.

Lemma chain_app key prev a b :
  chain key prev (a ++ b) <->
  chain key prev a /\ chain key (from_option Hash prev (last a)) b.
Proof.
  revert prev. induction a as [|x a IH]; intros prev; [simpl; tauto|].
  cbn [app chain]. rewrite IH. destruct a as [|y a]; [simpl; tauto|].
  change (last (x :: y :: a)) with (last (y :: a)).
  destruct (last (y :: a)) eqn:E; [|by apply last_None in E]. simpl. tauto.
Qed.

Lemma chain_snoc key l ev :
  chain key "" (l ++ [ev]) <-> chain key "" l /\ row_ok key (last_hash l) ev.
Proof. rewrite chain_app. unfold last_hash. simpl. tauto. Qed.

(** *** The invariant *)

Definition tail_of (key : string) (ev : AuditEvent) : auditTailSlot :=
  {| event_id := ID ev; event_hash := Hash ev;
     mac := hmac key (canonicalFields [auditTailLabel; FormatInt (ID ev); Hash ev]);
     bound := None |}.

(** What a purge event says. *)
Definition purge_record (ev : AuditEvent) (r : auditAnchor) : Prop :=
  Details ev <> ""%string /\ unmarshal (Details ev) = Some r /\
  recordsHead r = true /\ hasHistory r = false.

(** The newest end of the file. *)
Record tail_ok (key : string) (past : list AuditEvent) (d : auditDB) : Prop := {
  to_last : newest_row d = last past;
  to_primary : tail_primary d = tail_of key <$> last past;
  to_current : tail_current d = None;
  to_seq : sqlite_sequence d = Some (ID <$> last past);
  to_schema : schema_intact d = true;
}.

(** The rows are what is left of everything written; they start where the
    newest purge says. *)
Record log_ok (key : string) (past : list AuditEvent) (d : auditDB) : Prop := {
  lo_tail : tail_ok key past d;
  lo_rows : exists gone, past = gone ++ audit_events d;
  lo_chain : chain key "" past;
  lo_ids : StronglySorted by_id past;
  lo_first : forall ev, head past = Some ev -> ID ev = 1;
  lo_anchors : Forall (fun ev => is_anchor ev ->
    Action ev = auditActionPurge /\ exists r, purge_record ev r) past;
  lo_head : match last (filter is_anchor past) with
            | None => past = audit_events d
            | Some p => p ∈ audit_events d /\ exists r h, purge_record p r /\
                head (audit_events d) = Some h /\ OldestRetainedHash r = Hash h
            end;
}.
(** ** Recording keeps the invariant *)

Lemma ask_value {A} s q (v w : A) : ask s q v = Ok w -> w = v.
Proof. unfold ask. destruct (fails s q); [done|]. by intros [= <-]. Qed.

Lemma key_given {A} key (v w : A) :
  (if (String.length key =? 0)%nat then Err errNoAuditKey else Ok v) = Ok w ->
  key <> ""%string /\ w = v.
Proof. destruct key; simpl; [done|]. by intros [= <-]. Qed.

Lemma tail_verifies key d f ev :
  key <> ""%string ->
  auditTailVerifies (store key d f)
    {| st_newest := Some ev; st_anchor := Some (tail_of key ev); st_current := None |} = true.
Proof.
  intros Hk. unfold auditTailVerifies, auditTailMACVerifies, auditTailMAC. simpl.
  destruct key; [done|]. simpl. apply String.eqb_refl.
Qed.

Lemma tail_names key ev :
  namesNewest {| st_newest := Some ev; st_anchor := Some (tail_of key ev);
                 st_current := None |} = true.
Proof. unfold namesNewest. simpl. by rewrite Z.eqb_refl, String.eqb_refl. Qed.

Definition tail_state (key : string) (past : list AuditEvent) : auditTailState :=
  {| st_newest := last past; st_anchor := tail_of key <$> last past; st_current := None |}.

Lemma tail_ok_state key past d f st :
  tail_ok key past d -> readAuditTailState (store key d f) d = Ok st ->
  st = tail_state key past.
Proof. intros [H1 H2 H3 _ _] ->%ask_value. unfold tail_state. by rewrite H1, H2, H3. Qed.

Lemma tail_ok_plan key past d f m :
  tail_ok key past d -> key <> ""%string ->
  planAuditTailMove (store key d f) (tail_state key past) = Ok m -> m = auditTailAdvance.
Proof.
  intros [H1 H2 H3 H4 _] Hk. unfold planAuditTailMove, tail_state.
  destruct (last past) as [ev|] eqn:E; cbn [st_anchor st_newest fmap option_fmap option_map].
  - rewrite tail_names, tail_verifies by done. by intros [= <-].
  - intros (u & (seq & ->%ask_value & [= <-])%rbind_Ok & [= <-])%rbind_Ok.
    cbn [store db]. by rewrite H4.
Qed.

(** What recording does whatever state the anchors are in. *)
Lemma recordAudit_inv s now ev d' :
  recordAudit s now ev = Ok d' ->
  exists before move new seq,
    readAuditTailState s (db s) = Ok before /\ planAuditTailMove s before = Ok move /\
    sqlite_sequence (db s) = Some seq /\ ID new = next_id (db s) seq /\
    row_ok (auditKey s) (last_hash (audit_events (db s))) new /\
    auditKey s <> ""%string /\ Action new = Action ev /\ Details new = Details ev /\
    applyAuditTailMove s
      {| audit_events := audit_events (db s) ++ [new]; tail_primary := tail_primary (db s);
         tail_current := tail_current (db s); sqlite_sequence := Some (Some (ID new));
         schema_intact := schema_intact (db s) |} move before new = Ok d'.
Proof.
  unfold recordAudit.
  intros (st & Hst & (m & Hm & (h & Hh & ([d1 new] & Hi & Ha)%rbind_Ok)%rbind_Ok)%rbind_Ok)%rbind_Ok.
  pose proof Hst as E%ask_value. rewrite E in Hh, Hi. cbn [st_newest] in Hh, Hi.
  change (auditHash (prepared ev now _) (auditKey s)) with
    (auditHashKeyed auditHashV3Label
       (prepared ev now (last_hash (audit_events (db s)))) (auditKey s)) in Hh.
  apply key_given in Hh as [Hk ->].
  unfold insert_event in Hi. destruct (sqlite_sequence (db s)) as [seq|] eqn:Hs; [|done].
  destruct (_ || _) eqn:Hchk; [done|]. apply ask_value in Hi. injection Hi as Hd1 Hnew.
  cbn [set_hash with_place Hash] in Hnew. rewrite <- Hnew in Hd1.
  exists st, m, new, seq. split_and!; try done; [by subst new..|].
  rewrite Hd1 in Ha. by subst new.
Qed.

Lemma recordAudit_Ok key past d f now ev d' :
  tail_ok key past d -> recordAudit (store key d f) now ev = Ok d' ->
  exists new, d' = {| audit_events := audit_events d ++ [new];
                      tail_primary := Some (tail_of key new); tail_current := None;
                      sqlite_sequence := Some (Some (ID new)); schema_intact := true |} /\
    row_ok key (last_hash past) new /\ ID new = next_id d (ID <$> last past) /\
    Action new = Action ev /\ Details new = Details ev.
Proof.
  intros Hto H. pose proof Hto as [H1 H2 H3 H4 H5].
  apply recordAudit_inv in H as (st & m & new & seq & Hst & Hm & Hseq & Hid & Hrow & Hk &
    Ha & Hd & Happ).
  apply (tail_ok_state key past) in Hst as ->; [|done].
  apply (tail_ok_plan key past) in Hm as ->; [|done..]. cbn [store db] in *.
  rewrite H4 in Hseq. injection Hseq as <-.
  unfold last_hash, newest_row in *. rewrite H1 in Hrow.
  cbn [applyAuditTailMove] in Happ. unfold writeAuditTail in Happ.
  apply rbind_Ok in Happ as (mc & Hm & ->%ask_value). apply key_given in Hm as [_ ->].
  exists new. split; [|done]. unfold set_tails, tail_of. simpl. by rewrite H3, H5.
Qed.

Lemma next_id_above d seq :
  default 0 seq < next_id d seq /\
  forall ev, ev ∈ audit_events d -> ID ev < next_id d seq.
Proof.
  unfold next_id. induction (audit_events d) as [|x l [IH1 IH2]]; simpl.
  - split; [lia|]. by intros ev ?%elem_of_nil.
  - split; [lia|]. intros ev [->|Hev]%elem_of_cons; [lia|]. specialize (IH2 ev Hev). lia.
Qed.

Lemma sorted_last a x ev :
  StronglySorted by_id a -> last a = Some x -> ev ∈ a -> ID ev <= ID x.
Proof.
  intros Hs [a' ->]%last_Some [Hev| ->%list_elem_of_singleton]%elem_of_app; [|lia].
  pose proof (StronglySorted_app_1_elem_of _ _ _ ev x Hs Hev ltac:(set_solver)) as H.
  unfold by_id in H. lia.
Qed.

(** The parts of the invariant that a new event extends whatever happened to
    the oldest rows. *)
Lemma extend_past key past d f now ev d' new :
  tail_ok key past d -> chain key "" past -> StronglySorted by_id past ->
  (forall e, head past = Some e -> ID e = 1) ->
  (audit_events d = [] -> past = []) ->
  recordAudit (store key d f) now ev = Ok d' -> newest_row d' = Some new ->
  tail_ok key (past ++ [new]) d' /\ audit_events d' = audit_events d ++ [new] /\
  chain key "" (past ++ [new]) /\ StronglySorted by_id (past ++ [new]) /\
  (forall e, head (past ++ [new]) = Some e -> ID e = 1) /\
  Action new = Action ev /\ Details new = Details ev.
Proof.
  intros Hto Hc Hs Hfst Hne Hr Hnew.
  destruct (recordAudit_Ok _ _ _ _ _ _ _ Hto Hr) as (n & -> & Hok & Hid & Ha & Hd).
  unfold newest_row in Hnew. simpl in Hnew. rewrite last_snoc in Hnew. injection Hnew as ->.
  split_and!; try done.
  - split; unfold newest_row; simpl; rewrite ?last_snoc; done.
  - by apply chain_snoc.
  - apply StronglySorted_app. split_and!; [|done|by repeat constructor].
    intros x y Hx ->%list_elem_of_singleton. unfold by_id. rewrite Hid.
    destruct (next_id_above d (ID <$> last past)) as [Hgt _].
    destruct (last past) as [l|] eqn:El; [|by apply last_None in El as ->; apply elem_of_nil in Hx].
    pose proof (sorted_last past l x Hs El Hx). simpl in *. lia.
  - intros e. destruct past as [|x past]; [|intros [= <-]; by apply Hfst].
    simpl. intros [= <-]. rewrite Hid. unfold next_id.
    destruct Hto as [E _ _ _ _]. unfold newest_row in E. simpl in E.
    apply last_None in E. by rewrite E.
Qed.

Lemma record_log_ok key past d f now ev d' new :
  log_ok key past d -> ~ is_anchor ev ->
  recordAudit (store key d f) now ev = Ok d' -> newest_row d' = Some new ->
  log_ok key (past ++ [new]) d'.
Proof.
  intros [Hto (gone & Hg) Hc Hs Hf Han Hh] Hna Hr Hnew.
  assert (audit_events d = [] -> past = []) as Hne.
  { intros E. destruct Hto as [El _ _ _ _]. unfold newest_row in El. rewrite E in El.
    by apply last_None. }
  destruct (extend_past _ _ _ _ _ _ _ _ Hto Hc Hs Hf Hne Hr Hnew)
    as (Hto' & E & Hc' & Hs' & Hf' & Ha & Hd).
  assert (~ is_anchor new) as Hnn by (unfold is_anchor in *; by rewrite Ha).
  split; try done.
  - exists gone. by rewrite E, app_assoc, Hg at 1.
  - apply Forall_app. split; [done|]. by constructor.
  - rewrite filter_app, (filter_cons_False _ _ _ Hnn), filter_nil, app_nil_r, E.
    destruct (last (filter is_anchor past)) as [p|]; [|by rewrite Hh at 1].
    destruct Hh as (Hp & r & h & Hpr & Hhd & Hro). split; [set_solver|].
    exists r, h. split_and!; try done. by destruct (audit_events d).
Qed.
(** ** Purging keeps the invariant *)

Lemma parse_record ev r : purge_record ev r -> parseAuditAnchor ev = Ok r.
Proof.
  intros (Hd & Hu & _). unfold parseAuditAnchor.
  destruct (String.eqb_spec (Details ev) ""); [done|]. by rewrite Hu.
Qed.

(** The newest anchor of a file whose purge events are genuine. *)
Lemma find_anchor_Ok s seen rows a :
  Forall (fun ev => is_anchor ev /\ exists r, purge_record ev r) rows ->
  find_anchor s seen rows = Ok a ->
  match rows with
  | [] => an_event a = None /\ an_record a = no_anchor /\ an_purgeSeen a = seen
  | ev :: _ => an_event a = Some ev /\ auditRowVerifies s ev = true /\
               purge_record ev (an_record a)
  end.
Proof.
  destruct rows as [|ev rows]; simpl; [by intros _ [= <-]|].
  intros [[Hev (r & Hr)] _]%Forall_cons. destruct (auditRowVerifies s ev); [|done]. simpl.
  rewrite (parse_record ev r Hr). simpl.
  pose proof Hr as (_ & _ & -> & _). by intros [= <-].
Qed.

Lemma anchors_newest_first_ok d past gone :
  past = gone ++ audit_events d ->
  Forall (fun ev => is_anchor ev ->
    Action ev = auditActionPurge /\ exists r, purge_record ev r) past ->
  Forall (fun ev => is_anchor ev /\ exists r, purge_record ev r) (anchors_newest_first d).
Proof.
  intros -> [_ H]%Forall_app. rewrite Forall_forall in *. intros ev Hev.
  unfold anchors_newest_first in Hev. apply list_elem_of_filter in Hev as [Ha Hev].
  rewrite elem_of_reverse in Hev. split; [done|]. by apply (H ev Hev Ha).
Qed.

Lemma purge_anchor_known key past d f a :
  log_ok key past d -> findAuditAnchor (store key d f) = Ok a ->
  hasHistory (an_record a) = false.
Proof.
  intros [_ (gone & Hg) _ _ _ Han _] (rows & ->%ask_value & H)%rbind_Ok.
  apply find_anchor_Ok in H; [|by eapply anchors_newest_first_ok].
  cbn [store db] in H. destruct (anchors_newest_first d).
  - by destruct H as (_ & -> & _).
  - by destruct H as (_ & _ & _ & _ & _ & H).
Qed.

Lemma prefix_walk_head s anchor genesis cut w w' rows :
  each_of_page (prefix_step s anchor genesis cut) w rows = Ok w' ->
  p_newHead w' = p_newHead w \/
  exists ev, p_newHead w' = Some ev /\ ev ∈ rows /\ ID ev = cut.
Proof.
  revert w. induction rows as [|ev rows IH]; intros w; simpl; [intros [= <-]; by left|].
  intros (w1 & H1 & H2)%rbind_Ok. unfold prefix_step in H1.
  apply rbind_Ok in H1 as (dg & _ & H1). apply rbind_Ok in H1 as (_ & _ & [= <-]).
  destruct (IH _ H2) as [E|(x & E & Hx & Hc)]; [|right; exists x; set_solver].
  simpl in E. destruct (Z.eqb_spec (ID ev) cut); [|by left].
  right. exists ev. set_solver.
Qed.

Lemma verifyAuditPurgePrefix_Ok s cut kept :
  verifyAuditPurgePrefix s cut = Ok kept ->
  newHead kept ∈ audit_events (db s) /\ ID (newHead kept) = cut /\
  exists a, findAuditAnchor s = Ok a /\
            (hasHistory (an_record a) = false -> cut_history kept = None).
Proof.
  unfold verifyAuditPurgePrefix.
  destruct (findAuditAnchor s) as [a|[]] eqn:Ha; try done.
  intros (_ & _ & (rows & ->%ask_value & H)%rbind_Ok)%rbind_Ok.
  destruct (each_of_page _ _ _) as [w|[]] eqn:Hw; try done.
  apply prefix_walk_head in Hw. unfold prefix_result in H.
  destruct (p_newHead w) as [h|] eqn:Eh; [|done].
  destruct Hw as [|(x & [= ->] & Hx & Hc)]; [done|].
  apply list_elem_of_filter in Hx as [_ Hx].
  assert (newHead kept = x /\ (hasHistory (an_record a) = false -> cut_history kept = None))
    as [-> Hh].
  { destruct (hasHistory (an_record a)); simpl in H; [|by injection H as <-].
    destruct (digest_matches _ _); [|done]. by injection H as <-. }
  eauto.
Qed.

(** What is left of sorted rows from one of them on. *)
Lemma filter_from a x b :
  StronglySorted by_id (a ++ x :: b) ->
  filter (fun ev => ID x <= ID ev) (a ++ x :: b) = x :: b.
Proof.
  intros Hs. rewrite filter_app, filter_none, filter_all; [done|..].
  - intros y [->|Hy]%elem_of_cons; [lia|]. apply StronglySorted_app_1_r in Hs.
    apply StronglySorted_inv in Hs as [_ Hs]. rewrite Forall_forall in Hs.
    specialize (Hs y Hy). unfold by_id in Hs. lia.
  - intros y Hy. pose proof (StronglySorted_app_1_elem_of _ _ _ y x Hs Hy ltac:(set_solver)) as H.
    unfold by_id in H. lia.
Qed.

Context {laws : PrimitiveLaws prims}.

Lemma chain_nonempty key prev l ev : chain key prev l -> ev ∈ l -> Hash ev <> ""%string.
Proof.
  revert prev. induction l as [|x l IH]; intros prev; [by intros _ ?%elem_of_nil|].
  intros [(_ & _ & E) Hc] [->|Hev]%elem_of_cons; [|by eapply IH].
  rewrite E. apply hmac_nonempty.
Qed.

Lemma purge_log_ok key past d f now olderThan cut d' n new :
  log_ok key past d ->
  purge_below (store key d f) now olderThan cut = Ok (d', n) -> 0 < n ->
  newest_row d' = Some new -> log_ok key (past ++ [new]) d'.
Proof.
  intros Hok (kept & Hk & (d1 & ->%ask_value & (d2 & Hr & [= -> ->]%ask_value)%rbind_Ok)%rbind_Ok)%rbind_Ok Hn Hnew.
  pose proof Hok as [Hto (gone & Hg) Hc Hs Hf Han Hh].
  apply verifyAuditPurgePrefix_Ok in Hk as (Hin & <- & an & Han' & Hhist).
  specialize (Hhist (purge_anchor_known _ _ _ _ _ Hok Han')). clear Han'.
  cbn [store db] in Hin.
  destruct (0 <? _) eqn:Hb in Hr; [|cbn in *; lia]. clear Hb.
  apply list_elem_of_split in Hin as (a & b & Eab).
  assert (StronglySorted by_id (a ++ newHead kept :: b)) as Hsd.
  { rewrite <- Eab. rewrite Hg in Hs. by apply StronglySorted_app_1_r in Hs. }
  set (d1 := delete_below d (ID (newHead kept))) in *.
  assert (audit_events d1 = newHead kept :: b) as E1.
  { unfold d1. simpl. rewrite Eab. by apply filter_from. }
  assert (tail_ok key past d1) as Hto1.
  { destruct Hto as [T1 T2 T3 T4 T5]. split; try done. rewrite <- T1. unfold newest_row.
    rewrite E1, Eab. by rewrite last_app_cons. }
  assert (audit_events d1 = [] -> past = []) as Hne by (by rewrite E1).
  destruct (extend_past _ _ _ _ _ _ _ _ Hto1 Hc Hs Hf Hne Hr Hnew)
    as (Hto' & E & Hc' & Hs' & Hf' & Ha & Hd).
  assert (purge_record new (purge_anchor kept)) as Hpr.
  { split_and!.
    - rewrite Hd. apply marshal_nonempty.
    - rewrite Hd. cbn [purge_event Details]. by rewrite unmarshal_marshal.
    - unfold recordsHead. simpl. destruct (String.eqb_spec (Hash (newHead kept)) ""); [|done].
      exfalso. revert e. apply (chain_nonempty key "" past); [done|].
      rewrite Hg, Eab. set_solver.
    - unfold hasHistory, purge_anchor. by rewrite Hhist. }
  assert (is_anchor new) as Hnew' by (unfold is_anchor; by rewrite Ha).
  split; try done.
  - exists (gone ++ a). rewrite E, E1, Hg, Eab. by rewrite <- !app_assoc.
  - apply Forall_app. split; [done|]. constructor; [|done]. intros _. eauto.
  - rewrite filter_app, (filter_cons_True _ _ _ Hnew'), filter_nil, last_snoc, E, E1.
    split; [set_solver|]. by exists (purge_anchor kept), (newHead kept).
Qed.

Lemma log_run_ok key past d : log_run key past d -> log_ok key past d.
Proof.
  induction 1; [|by eapply record_log_ok|by eapply purge_log_ok].
  split; try done; [by exists []|constructor].
Qed.
(** ** The walk over the rows *)

Definition genuine (ev : AuditEvent) : Prop :=
  is_anchor ev -> Action ev = auditActionPurge /\ exists r, purge_record ev r.

(** What the head check has seen after rows with genuine purge events. *)
Lemma observe_rows rows :
  Forall genuine rows ->
  exists h, each_of_page observe no_head rows = Ok h /\ oldest h = head rows /\
    match last (filter is_anchor rows) with
    | None => purgeSeen h = false /\ head_anchor h = no_anchor
    | Some p => purgeSeen h = true /\ purge_record p (head_anchor h)
    end.
Proof.
  induction rows as [|ev rows IH] using rev_ind; [by exists no_head|].
  intros [Hr [Hev _]%Forall_cons]%Forall_app.
  destruct (IH Hr) as (h & Hh & Ho & Ha). rewrite each_of_page_app, Hh. simpl.
  rewrite filter_app. unfold observe.
  assert (oldest (noteOldest h ev) = head (rows ++ [ev])) as Ho'.
  { unfold noteOldest. destruct rows; simpl in *; by rewrite Ho. }
  assert (purgeSeen (noteOldest h ev) = purgeSeen h /\
          head_anchor (noteOldest h ev) = head_anchor h) as [Ep Eh]
    by (unfold noteOldest; by destruct (oldest h)).
  destruct (isAuditAnchorAction (Action ev)) eqn:Eev; cbn [negb].
  - destruct (Hev Eev) as (Hp & r & Hrec). rewrite (parse_record ev r Hrec). simpl.
    eexists. split; [done|]. simpl. split; [done|].
    rewrite filter_cons_True by done. rewrite filter_nil, last_snoc.
    pose proof Hrec as (_ & _ & -> & _). split; [|done]. by rewrite Hp, orb_true_r.
  - eexists. split; [done|]. split; [done|].
    rewrite filter_cons_False by (unfold is_anchor; by rewrite Eev).
    by rewrite filter_nil, app_nil_r, Ep, Eh.
Qed.

Lemma no_history a id : hasHistory a = false -> inHistory a id = false.
Proof. unfold inHistory. by intros ->. Qed.

Lemma chain_row_verifies key d f prev ev :
  key <> ""%string -> row_ok key prev ev ->
  auditHash ev key = Ok (Hash ev) /\ auditRowVerifies (store key d f) ev = true.
Proof.
  intros Hk (_ & Hv & Hh).
  assert (auditHash ev key = Ok (Hash ev)) as E.
  { unfold auditHash, auditHashKeyed. rewrite Hv. simpl. rewrite Hh. by destruct key. }
  split; [done|]. unfold auditRowVerifies. cbn [auditKey store]. rewrite E.
  apply String.eqb_refl.
Qed.

(** The walk passes the rows of a chain. *)
Lemma walk_chain key d f anchor rows prev h w :
  key <> ""%string -> hasHistory anchor = false -> chain key prev rows ->
  (w_first w = true \/ w_prevHash w = prev) -> w_highestVersion w <= auditHashVersion ->
  each_of_page observe (w_head w) rows = Ok h ->
  exists w', walk_rows (store key d f) anchor w rows = (w', None) /\ w_head w' = h /\
             w_count w' = w_count w + Z.of_nat (length rows).
Proof.
  intros Hk Ha. revert prev w. induction rows as [|ev rows IH]; intros prev w Hc Hp Hv Ho.
  { simpl in *. injection Ho as <-. exists w. split_and!; [done..|lia]. }
  destruct Hc as [Hrow Hc]. cbn [each_of_page] in Ho. apply rbind_Ok in Ho as (h1 & Ho1 & Ho).
  destruct (chain_row_verifies key d f prev ev Hk Hrow) as [Eh _].
  destruct Hrow as (Hprev & Hver & _).
  cbn [walk_rows]. unfold walk_step. rewrite (no_history _ _ Ha).
  replace (negb (w_first (count_row w)) && _) with false; cycle 1.
  { symmetry. apply andb_false_iff. destruct Hp as [Hp|Hp]; [left; cbn; by rewrite Hp|right].
    cbn; by rewrite Hprev, Hp, String.eqb_refl. }
  replace (HashVersion ev <? w_highestVersion (count_row w)) with false
    by (symmetry; apply Z.ltb_ge; simpl; lia).
  cbn [auditKey store]. rewrite Eh, String.eqb_refl. cbn [negb count_row w_head].
  rewrite Ho1. cbv beta iota.
  match goal with |- context [walk_rows _ _ ?w2 rows] =>
    destruct (IH (Hash ev) w2 Hc) as (w' & Hw & Hh & Hn) end;
    [by right|simpl; lia|done|].
  exists w'. split_and!; [done..|]. rewrite Hn. simpl. lia.
Qed.

Definition no_fault : string -> bool := fun _ => false.

Lemma genuine_rows key past d : log_ok key past d -> Forall genuine (audit_events d).
Proof.
  intros [_ (gone & ->) _ _ _ H _]. by apply Forall_app in H as [_ H].
Qed.

Lemma rows_chain key past d : log_ok key past d -> exists prev, chain key prev (audit_events d).
Proof. intros [_ (gone & ->) [_ Hc]%chain_app _ _ _ _]. eauto. Qed.

Lemma anchor_used key past d f :
  log_ok key past d ->
  hasHistory (an_record match findAuditAnchor (store key d f) with
    | Ok a => a
    | Err _ => {| an_event := None; an_record := no_anchor; an_purgeSeen := false |}
    end) = false.
Proof.
  intros Hok. destruct (findAuditAnchor _) eqn:E; [|done]. by eapply purge_anchor_known.
Qed.
(** ** A log the server wrote verifies *)

Lemma head_check_ok key past d h :
  log_ok key past d -> each_of_page observe no_head (audit_events d) = Ok h ->
  head_check h = None.
Proof.
  intros Hok Hh. destruct (observe_rows _ (genuine_rows _ _ _ Hok)) as (h' & Hh' & Ho & Ha).
  rewrite Hh in Hh'. injection Hh' as <-. pose proof Hok as [_ (gone & Hg) Hc _ Hf _ Hl].
  unfold head_check. rewrite Ho. destruct (head (audit_events d)) as [old|] eqn:Eo; [|done].
  destruct (last (filter is_anchor past)) as [p|] eqn:Ep.
  - destruct Hl as (Hp & r & x & Hr & [= <-] & Hro).
    assert (last (filter is_anchor (audit_events d)) = Some p) as Ed.
    { rewrite Hg, filter_app in Ep.
      destruct (last (filter is_anchor (audit_events d))) as [q|] eqn:Eq.
      - apply last_Some in Eq as [l Eq]. by rewrite Eq, app_assoc, last_snoc in Ep.
      - apply last_None in Eq. rewrite Eq, app_nil_r in Ep.
        assert (p ∈ filter is_anchor (audit_events d)) as H; [|rewrite Eq in H; set_solver].
        apply list_elem_of_filter. split; [|done].
        apply last_Some in Ep as [l Ep]. assert (p ∈ filter is_anchor gone) as H
          by (rewrite Ep; set_solver). by apply list_elem_of_filter in H as [H _]. }
    rewrite Ed in Ha. destruct Ha as [_ Hr']. pose proof Hr' as (_ & _ & -> & _).
    assert (head_anchor h = r) as -> by (unfold purge_record in *; naive_solver).
    by rewrite Hro, String.eqb_refl.
  - rewrite <- Hl in Ha, Eo. rewrite Ep in Ha. destruct Ha as [_ ->]. simpl.
    destruct past as [|x past]; [done|]. injection Eo as ->.
    destruct Hc as [(-> & _) _]. simpl. unfold auditGenesisAllowed. by rewrite (Hf old).
Qed.

Lemma verifyAuditTail_ok key past d :
  key <> ""%string -> tail_ok key past d -> verifyAuditTail (store key d no_fault) = Ok tt.
Proof.
  intros Hk [H1 H2 H3 H4 _]. unfold verifyAuditTail, verifyAuditSequence,
    verifyAuditTailAnchor, readAuditTailState, ask. cbn [store fails no_fault db rbind].
  rewrite H4, H1, H2, H3. cbn [rbind fst snd]. destruct (last past) as [ev|].
  - cbn [from_option fmap option_fmap option_map checkAuditTail].
    rewrite Z.ltb_irrefl. cbn [rbind auditTailAnchorPresent st_anchor st_newest].
    by rewrite tail_names, tail_verifies.
  - done.
Qed.

(** C21: The log the server writes verifies.  Events recorded and purges run
    in any order from an empty log, with queries failing now and then, leave
    a log in which [verifyAuditLog] examines every row and finds nothing
    wrong; it never reports tampering where there was none. *)
Theorem honest_log_verifies key past d :
  key <> ""%string -> log_run key past d ->
  verifyAuditLog (store key d no_fault) =
    ({| Events := Z.of_nat (length (audit_events d)); FirstBad := 0;
        report_HistoryEvents := 0; HistoryAnchorID := 0 |}, None).
Proof.
  intros Hk Hok%log_run_ok. pose proof Hok as [Hto _ _ _ _ _ _].
  unfold verifyAuditLog, verifyAuditSchema, ask. cbn [store fails no_fault db].
  rewrite (to_schema _ _ _ Hto). cbn [rbind].
  pose proof (anchor_used _ _ _ no_fault Hok) as Ha.
  set (anchor := match findAuditAnchor _ with Ok a => a | _ => _ end) in *.
  destruct (observe_rows _ (genuine_rows _ _ _ Hok)) as (h & Hh & _).
  destruct (rows_chain _ _ _ Hok) as [prev Hc].
  destruct (walk_chain key d no_fault (an_record anchor) (audit_events d) prev h new_walk)
    as (w & Hw & Hwh & Hn); [done..|by left|done|done|].
  unfold walk_run, ask. cbn [store fails no_fault db]. fold (store key d no_fault).
  rewrite Hw, Ha. cbn [andb].
  rewrite (head_check_ok _ _ _ _ Hok) by (by rewrite Hwh).
  rewrite (verifyAuditTail_ok _ _ _ Hk Hto). rewrite Hn. done.
Qed.
(** ** A file that verifies is a state of the log *)

Definition tail_message (ev : AuditEvent) : string :=
  canonicalFields [auditTailLabel; FormatInt (ID ev); Hash ev].

(** What the server has signed. *)
Definition signed (past : list AuditEvent) (m : string) : Prop :=
  exists ev, ev ∈ past /\
    (m = auditCanonical auditHashV3Label ev \/ m = tail_message ev).

(** The HMACs in a file. *)
Definition macs (d : auditDB) : list string :=
  map Hash (audit_events d) ++
  map mac (option_list (tail_primary d) ++ option_list (tail_current d)).

(** Nobody but the server makes HMACs with the key: those in the file that
    are HMACs of a text are HMACs of a text the server signed. *)
Definition unforged (key : string) (past : list AuditEvent) (d : auditDB) : Prop :=
  forall m, hmac key m ∈ macs d -> signed past m.

Definition collision_free (key : string) (past : list AuditEvent) : Prop :=
  forall m m', signed past m -> signed past m' -> hmac key m = hmac key m' -> m = m'.

(** The same event, whatever its id. *)
Definition same_event (a b : AuditEvent) : Prop := content a = content b /\ Hash a = Hash b.

Definition same_log (d d' : auditDB) : Prop :=
  Forall2 same_event (audit_events d) (audit_events d') /\
  tail_primary d = tail_primary d'.

(** *** Hashes name events *)

Lemma chain_at key a x b : chain key "" (a ++ x :: b) -> row_ok key (last_hash a) x.
Proof. intros [_ [H _]]%chain_app. exact H. Qed.

Lemma last_hash_nil key a b :
  chain key "" (a ++ b) -> last_hash a = ""%string -> a = [].
Proof.
  intros [Hc _]%chain_app E. unfold last_hash in E.
  destruct (last a) as [x|] eqn:El; [|by apply last_None in El].
  exfalso. apply (chain_nonempty key "" a x Hc); [|done].
  apply last_Some in El as [l ->]. set_solver.
Qed.

Lemma hash_position key past a x b a' x' b' :
  chain key "" past -> collision_free key past ->
  past = a ++ x :: b -> past = a' ++ x' :: b' -> Hash x = Hash x' -> a = a' /\ x = x'.
Proof.
  intros Hc Hcf. revert x b a' x' b'.
  induction a as [|z a IH] using rev_ind; intros x b a' x' b' E E' Hh;
    pose proof Hc as Hx; pose proof Hc as Hx'; rewrite E in Hx; rewrite E' in Hx';
    pose proof (chain_at _ _ _ _ Hx) as (Hp & Hv & Hm);
    pose proof (chain_at _ _ _ _ Hx') as (Hp' & Hv' & Hm');
    (assert (content x = content x') as (_ & Hprev & _)%content_fields;
     [apply (auditCanonical_inj auditHashV3Label auditHashV3Label), Hcf;
        [exists x; rewrite E; set_solver|exists x'; rewrite E'; set_solver|congruence]|]).
  - rewrite Hp, Hp' in Hprev. symmetry in Hprev. apply (last_hash_nil key a' (x' :: b')) in Hprev; [|done].
    subst a'. rewrite E in E'. by injection E'.
  - rewrite Hp, Hp' in Hprev. unfold last_hash in Hprev at 1. rewrite last_snoc in Hprev.
    destruct a' as [|z' a' _] using rev_ind.
    { simpl in Hprev. exfalso. apply (chain_nonempty key "" past z Hc); [rewrite E; set_solver|].
      done. }
    unfold last_hash in Hprev. rewrite last_snoc in Hprev. simpl in Hprev.
    rewrite <- app_assoc in E, E'.
    destruct (IH z (x :: b) a' z' (x' :: b') E E' Hprev) as [-> ->].
    split; [done|]. rewrite E in E'. apply app_inv_head in E'. by injection E'.
Qed.

(** *** Rows that verify *)

Lemma verified_row key past d f ev :
  chain key "" past -> unforged key past d ->
  ev ∈ audit_events d -> auditRowVerifies (store key d f) ev = true ->
  exists e, e ∈ past /\ same_event ev e.
Proof.
  intros Hc Hu Hev Hv. unfold auditRowVerifies in Hv. cbn [auditKey store] in Hv.
  assert (exists label, auditHash ev key = auditHashKeyed label ev key) as [label E].
  { unfold auditHash in *. destruct (_ =? 1); [done|]. destruct (_ =? 2); [by eexists|].
    destruct (_ =? 3); [by eexists|done]. }
  rewrite E in Hv. unfold auditHashKeyed in Hv. destruct (_ =? 0)%nat; [done|].
  apply String.eqb_eq in Hv.
  destruct (Hu (auditCanonical label ev)) as (e & He & [Em|Em]).
  - rewrite Hv. apply elem_of_app. left. by apply list_elem_of_fmap_2.
  - apply auditCanonical_inj in Em as [-> Ec]. exists e. split; [done|]. split; [done|].
    apply list_elem_of_split in He as (a & b & ->).
    destruct (chain_at _ _ _ _ Hc) as (_ & _ & ->). rewrite <- Hv. f_equal.
    by apply content_fields in Ec as (_ & _ & _ & _ & ->).
  - by apply canonicalFields_inj in Em.
Qed.
(** Rows each of which names the one before it. *)
Fixpoint linked (rows : list AuditEvent) : Prop :=
  match rows with
  | x :: (y :: _) as rest => PrevHash y = Hash x /\ linked rest
  | _ => True
  end.

(** What a walk that reports nothing has checked. *)
Lemma walk_rows_checked s anchor w rows w' :
  hasHistory anchor = false -> walk_rows s anchor w rows = (w', None) ->
  Forall (fun ev => auditRowVerifies s ev = true) rows /\ linked rows /\
  (w_first w = false -> forall x, head rows = Some x -> PrevHash x = w_prevHash w) /\
  each_of_page observe (w_head w) rows = Ok (w_head w').
Proof.
  intros Ha. revert w. induction rows as [|ev rows IH]; intros w; cbn [walk_rows].
  { intros [= <-]. split_and!; [constructor|done..]. }
  unfold walk_step. rewrite (no_history _ _ Ha).
  destruct (negb (w_first (count_row w)) && _) eqn:El; [done|].
  destruct (HashVersion ev <? _); [done|].
  destruct (auditHash ev (auditKey s)) as [want|] eqn:Eh; [|done].
  destruct (String.eqb want (Hash ev)) eqn:Ew; [|done]. cbn [negb].
  destruct (observe (w_head (count_row w)) ev) as [h|] eqn:Eo; [|done].
  intros (Hf & Hl & Hp & Ho)%IH. split_and!.
  - constructor; [|done]. unfold auditRowVerifies. by rewrite Eh.
  - destruct rows as [|y rows]; [done|]. split; [|done]. by apply Hp.
  - intros Hfst x [= <-]. simpl in El. rewrite Hfst in El. simpl in El.
    by apply negb_false_iff, String.eqb_eq in El.
  - cbn [each_of_page]. simpl in Eo. by rewrite Eo.
Qed.

(** Linked rows the server wrote are consecutive events of the log. *)
Lemma linked_segment key past rows :
  chain key "" past -> collision_free key past -> rows <> [] -> linked rows ->
  Forall (fun ev => exists e, e ∈ past /\ same_event ev e) rows ->
  exists pre mid post, past = pre ++ mid ++ post /\ Forall2 same_event rows mid.
Proof.
  intros Hc Hcf. induction rows as [|x rows IH]; [done|]. intros _ Hl [Hx Hr]%Forall_cons.
  destruct Hx as (x' & Hx' & Hsx). destruct rows as [|y rows].
  { apply list_elem_of_split in Hx' as (pre & post & ->).
    exists pre, [x'], post. split; [done|]. constructor; [done|constructor]. }
  destruct Hl as [Hlink Hl].
  destruct IH as (pre & mid & post & E & H2); [done..|].
  destruct mid as [|y' mid]; [by inversion H2|].
  pose proof H2 as [[Hcy _] _]%Forall2_cons.
  apply content_fields in Hcy as (_ & Hpy & _).
  assert (chain key "" (pre ++ y' :: mid ++ post)) as Hc' by (by rewrite E in Hc).
  destruct (chain_at _ _ _ _ Hc') as (Hpre & _). rewrite Hpy, Hpre in Hlink.
  destruct pre as [|z pre _] using rev_ind.
  { exfalso. apply (chain_nonempty key "" past x' Hc Hx'). by rewrite <- (proj2 Hsx), <- Hlink. }
  unfold last_hash in Hlink. rewrite last_snoc in Hlink. simpl in Hlink.
  apply list_elem_of_split in Hx' as (a & b & Ea).
  rewrite <- app_assoc in E. simpl in E.
  destruct (hash_position key past pre z (y' :: mid ++ post) a x' b Hc Hcf) as [-> ->];
    [done|done|by rewrite Hlink, (proj2 Hsx)|].
  exists a, (x' :: y' :: mid), post. split; [done|]. by constructor.
Qed.

(** *** The head and the tail of a file that verifies *)

Lemma same_event_anchor a b : same_event a b -> is_anchor a <-> is_anchor b.
Proof. intros [(_ & _ & E & _)%content_fields _]. unfold is_anchor. by rewrite E. Qed.

Lemma same_event_record a b r : same_event a b -> purge_record a r <-> purge_record b r.
Proof. intros [(_ & _ & _ & E & _)%content_fields _]. unfold purge_record. by rewrite E. Qed.

Lemma same_event_genuine a b : same_event a b -> genuine b -> genuine a.
Proof.
  intros Hs Hb Ha. pose proof Hs as [(_ & _ & E & _)%content_fields _].
  apply (same_event_anchor _ _ Hs) in Ha. destruct (Hb Ha) as (Hp & r & Hr).
  split; [by rewrite E|]. exists r. by apply (same_event_record _ _ r Hs).
Qed.

Lemma same_events_anchors l l' :
  Forall2 same_event l l' -> Forall2 same_event (filter is_anchor l) (filter is_anchor l').
Proof.
  induction 1 as [|x y l l' Hxy _ IH]; [constructor|]. rewrite !filter_cons.
  pose proof (same_event_anchor _ _ Hxy). repeat case_decide; [by constructor|tauto..|done].
Qed.

Lemma Forall2_last {A} (R : A -> A -> Prop) l l' :
  Forall2 R l l' -> option_Forall2 R (last l) (last l').
Proof.
  induction 1 as [|x y l l' Hxy H IH]; [constructor|].
  destruct H; [by constructor|]. exact IH.
Qed.

(** The rows are all that is left after the events up to the newest. *)
Lemma head_located key past pre mid post rows h d' :
  chain key "" past -> collision_free key past -> past = pre ++ mid ++ post ->
  mid <> [] -> Forall2 same_event rows mid -> Forall genuine past ->
  each_of_page observe no_head rows = Ok h -> head_check h = None ->
  log_ok key (pre ++ mid) d' -> audit_events d' = mid.
Proof.
  intros Hc Hcf E Hmid H2 Hg Hob Hck Hok'.
  assert (Forall genuine rows) as Hgr.
  { assert (Forall genuine mid) as Hgm by (rewrite E, !Forall_app in Hg; tauto).
    clear -H2 Hgm. induction H2; [constructor|]. apply Forall_cons in Hgm as [? ?].
    constructor; [by eapply same_event_genuine|auto]. }
  destruct (observe_rows rows Hgr) as (h' & Hob' & Ho & Ha).
  rewrite Hob in Hob'. injection Hob' as <-.
  destruct mid as [|m mid]; [done|]. destruct rows as [|x rows]; [by inversion H2|].
  pose proof H2 as [Hxm _]%Forall2_cons. pose proof Hxm as [(_ & Hpx & _)%content_fields Hhx].
  assert (chain key "" (pre ++ m :: mid ++ post)) as Hc' by (by rewrite E in Hc).
  destruct (chain_at _ _ _ _ Hc') as (Hpm & _).
  unfold head_check in Hck. rewrite Ho in Hck. simpl in Hck.
  assert (filter is_anchor (m :: mid) = [] -> pre = []) as Hnone.
  { intros En. apply (last_hash_nil key pre (m :: mid ++ post)); [done|].
    pose proof (same_events_anchors _ _ H2) as Hf. rewrite En in Hf.
    apply Forall2_nil_inv_r in Hf. rewrite Hf in Ha. simpl in Ha. destruct Ha as [Hps Hha].
    rewrite Hha, Hps in Hck. cbn [recordsHead no_anchor OldestRetainedHash] in Hck.
    rewrite <- Hpm, <- Hpx. destruct (String.eqb_spec (PrevHash x) ""); [done|].
    by rewrite andb_true_r in Hck. }
  pose proof Hok' as [_ (gone & Hgone) _ _ _ _ Hl].
  rewrite filter_app in Hl.
  destruct (last (filter is_anchor (m :: mid))) as [p|] eqn:Ep.
  - assert (last (filter is_anchor pre ++ filter is_anchor (m :: mid)) = Some p) as Epp.
    { apply last_Some in Ep as [l ->]. by rewrite app_assoc, last_snoc. }
    rewrite Epp in Hl. destruct Hl as (Hp & r & y & Hr & Hy & Hro).
    pose proof (Forall2_last _ _ _ (same_events_anchors _ _ H2)) as Hlast.
    rewrite Ep in Hlast. inversion Hlast as [q p' Hqp Eq Ep'|]. subst p'.
    rewrite <- Eq in Ha. destruct Ha as [_ Hrq]. apply (same_event_record _ _ _ Hqp) in Hrq.
    assert (head_anchor h = r) as Hhr by (unfold purge_record in *; naive_solver).
    pose proof Hr as (_ & _ & Hrh & _). rewrite Hhr, Hrh, Hro in Hck.
    destruct (String.eqb_spec (Hash x) (Hash y)) as [Hxy|]; [|done].
    destruct (audit_events d') as [|y' rest] eqn:Ed; [done|]. injection Hy as ->.
    destruct (hash_position key past pre m (mid ++ post) gone y (rest ++ post)) as [-> _];
      [done|done|done| |by rewrite <- Hhx|].
    { rewrite E, app_assoc, Hgone. by rewrite <- app_assoc. }
    by apply app_inv_head in Hgone.
  - apply last_None in Ep. by rewrite Ep, app_nil_r, (Hnone Ep) in Hl.
Qed.
Lemma find_anchor_source s seen rows a :
  find_anchor s seen rows = Ok a ->
  an_record a = no_anchor \/
  exists ev, ev ∈ rows /\ auditRowVerifies s ev = true /\
             parseAuditAnchor ev = Ok (an_record a).
Proof.
  revert seen. induction rows as [|ev rows IH]; intros seen; simpl.
  { intros [= <-]. by left. }
  destruct (auditRowVerifies s ev) eqn:Ev; [|done]. simpl.
  intros (r & Hr & H)%rbind_Ok. destruct (recordsHead r).
  - injection H as <-. right. exists ev. split_and!; [left|done..].
  - destruct (IH _ H) as [|(x & Hx & Hv)]; [by left|]. right. exists x. split; [by right|done].
Qed.

(** A file whose HMACs are the server's accepts no history. *)
Lemma unforged_no_history key past d f :
  chain key "" past -> Forall genuine past -> unforged key past d ->
  hasHistory (an_record match findAuditAnchor (store key d f) with
    | Ok a => a
    | Err _ => {| an_event := None; an_record := no_anchor; an_purgeSeen := false |}
    end) = false.
Proof.
  intros Hc Hg Hu. destruct (findAuditAnchor _) as [a|] eqn:E; [|done].
  apply rbind_Ok in E as (rows & ->%ask_value & [->|(ev & Hev & Hv & Hp)]%find_anchor_source);
    [done|]. cbn [store db] in Hev.
  unfold anchors_newest_first in Hev. apply list_elem_of_filter in Hev as [Ha Hev].
  rewrite elem_of_reverse in Hev.
  destruct (verified_row key past d f ev Hc Hu Hev Hv) as (e & He & Hs).
  rewrite Forall_forall in Hg. destruct (same_event_genuine _ _ Hs (Hg e He) Ha) as (_ & r & Hr).
  rewrite (parse_record ev r Hr) in Hp. injection Hp as <-. by destruct Hr as (_ & _ & _ & ?).
Qed.

Lemma log_run_prefix key past d a b :
  log_run key past d -> past = a ++ b -> exists d', log_run key a d'.
Proof.
  intros Hrun. revert a b. induction Hrun as [|past d f now ev d' new Hrun IH|
    past d f now o cut d' n new Hrun IH]; intros a b E.
  - symmetry in E. apply app_nil in E as [-> _]. eexists. constructor.
  - destruct b as [|x b _] using rev_ind.
    + rewrite app_nil_r in E. subst a. eexists. by eapply log_record.
    + rewrite app_assoc in E. apply app_inj_tail in E as [E _]. by apply (IH a b).
  - destruct b as [|x b _] using rev_ind.
    + rewrite app_nil_r in E. subst a. eexists. by eapply log_purge.
    + rewrite app_assoc in E. apply app_inj_tail in E as [E _]. by apply (IH a b).
Qed.

(** A tail that verifies was signed for the newest row. *)
Lemma tail_located key past d f m post pre :
  chain key "" past -> collision_free key past -> unforged key past d ->
  verifyAuditTailAnchor (store key d f) = Ok tt ->
  past = pre ++ m :: post -> (exists x, newest_row d = Some x /\ same_event x m) ->
  HashVersion m = auditHashVersion -> tail_primary d = Some (tail_of key m).
Proof.
  intros Hc Hcf Hu Hv E (x & Hx & Hcx & Hhx) Hver.
  apply content_fields in Hcx as (Hvx & _). unfold verifyAuditTailAnchor in Hv.
  apply rbind_Ok in Hv as (st & ->%ask_value & ([] & Hpr & Hv)%rbind_Ok). cbn [st_anchor] in Hv.
  unfold auditTailAnchorPresent in Hpr. cbn [st_anchor st_newest store db] in Hpr, Hv.
  rewrite Hx in Hpr, Hv.
  destruct (tail_primary d) as [a|] eqn:Ea; [|by rewrite Hvx, Hver in Hpr]. f_equal.
  rewrite bool_decide_eq_true_2 in Hv by done. cbn [negb] in Hv.
  destruct (namesNewest _) eqn:En; [|done]. destruct (auditTailVerifies _ _) eqn:Et; [|done].
  unfold namesNewest in En. cbn in En. apply andb_true_iff in En as [_ En%String.eqb_eq].
  unfold auditTailVerifies in Et. cbn [st_anchor] in Et.
  apply andb_true_iff in Et as [Hb%negb_true_iff Et].
  apply bool_decide_eq_false in Hb. apply eq_None_not_Some in Hb.
  unfold auditTailMACVerifies, mac_is, auditTailMAC in Et. cbn [auditKey store] in Et.
  destruct (_ =? 0)%nat; [done|]. apply String.eqb_eq in Et.
  destruct (Hu (canonicalFields [auditTailLabel; FormatInt (event_id a); event_hash a]))
    as (e & He & [Em|Em]).
  - rewrite Et. unfold macs. rewrite Ea. set_solver.
  - by apply canonicalFields_inj in Em.
  - apply canonicalFields_inj in Em. injection Em as Ei%FormatInt_inj Eh.
    apply list_elem_of_split in He as (pre' & post' & E').
    destruct (hash_position key past pre' e post' pre m post) as [_ ->];
      [done..|by rewrite <- Eh, En|].
    unfold tail_of. destruct a as [i hsh mc bd]. simpl in *. by rewrite <- Et, Hb, Ei, Eh.
Qed.
Lemma verifyAuditLog_tail s :
  snd (verifyAuditLog s) = None -> verifyAuditTailAnchor s = Ok tt.
Proof.
  unfold verifyAuditLog. destruct (verifyAuditSchema s); [|done].
  set (anchor := match findAuditAnchor s with Ok a => a | _ => _ end).
  destruct (walk_run s (an_record anchor)) as [w [e|]]; [by destruct e|].
  destruct (_ && _); [done|]. destruct (head_check (w_head w)); [done|].
  destruct (verifyAuditTail s) as [[]|] eqn:Ht; [|done]. intros _.
  by apply rbind_Ok in Ht as (_ & _ & Ht).
Qed.

Lemma verifyAuditLog_Ok s :
  hasHistory (an_record match findAuditAnchor s with
    | Ok a => a
    | Err _ => {| an_event := None; an_record := no_anchor; an_purgeSeen := false |}
    end) = false ->
  snd (verifyAuditLog s) = None ->
  Forall (fun ev => auditRowVerifies s ev = true) (audit_events (db s)) /\
  linked (audit_events (db s)) /\
  (exists h, each_of_page observe no_head (audit_events (db s)) = Ok h /\
             head_check h = None) /\
  verifyAuditTailAnchor s = Ok tt.
Proof.
  intros Ha Hv. pose proof (verifyAuditLog_tail s Hv) as Ht. revert Hv.
  unfold verifyAuditLog. destruct (verifyAuditSchema s); [|done].
  set (anchor := match findAuditAnchor s with Ok a => a | _ => _ end) in *.
  destruct (walk_run s (an_record anchor)) as [w [e|]] eqn:Hw; [by destruct e|].
  rewrite Ha. cbn [andb]. unfold walk_run in Hw.
  destruct (ask s _ _) as [rows|] eqn:Er; [|done]. apply ask_value in Er as ->.
  apply (walk_rows_checked _ _ _ _ _ Ha) in Hw as (Hv & Hl & _ & Ho).
  destruct (head_check (w_head w)) eqn:Hh; [done|]. intros _.
  split_and!; [done..| |done]. eauto.
Qed.

Lemma empty_file_genuine key past d0 d f :
  log_run key past d0 -> audit_events d = [] ->
  verifyAuditTailAnchor (store key d f) = Ok tt ->
  (exists before after d', past = before ++ after /\ log_run key before d' /\
                           same_log d d') /\
  (tail_primary d = tail_primary d0 -> same_log d d0).
Proof.
  intros Hrun En Ht. pose proof (log_run_ok _ _ _ Hrun) as Hok. pose proof (lo_tail _ _ _ Hok) as Hto.
  assert (tail_primary d = None) as Ep.
  { apply rbind_Ok in Ht as (st & ->%ask_value & ([] & Hp & _)%rbind_Ok).
    unfold auditTailAnchorPresent in Hp. cbn in Hp. unfold newest_row in Hp.
    rewrite En in Hp. by destruct (tail_primary d). }
  assert (forall d', log_ok key [] d' -> same_log d d') as Hs.
  { intros d' [T (gone & E) _ _ _ _ _]. symmetry in E. apply app_nil in E as [_ E].
    split; [by rewrite En, E|]. by rewrite Ep, (to_primary _ _ _ T). }
  split.
  - exists [], past, empty_log. split_and!; [done|constructor|]. apply Hs, log_run_ok.
    constructor.
  - rewrite Ep, (to_primary _ _ _ Hto). intros E. destruct (last past) eqn:El; [done|].
    apply last_None in El. subst past. auto.
Qed.

(** C3: A log that verifies is one the server wrote.  Take any file, however
    it came about, in which nobody has forged an HMAC.  If it verifies, it
    holds, event for event, what the log held after some number of the
    events the server wrote; and if its tail anchor is the current one, it
    holds exactly the current log.  Nothing was altered, added, reordered, or
    removed from the beginning, the middle or the end.  What can pass is an
    earlier log put back together with its own anchor. *)
Theorem verified_log_is_genuine key past d0 d f :
  log_run key past d0 -> collision_free key past -> unforged key past d ->
  snd (verifyAuditLog (store key d f)) = None ->
  (exists before after d', past = before ++ after /\ log_run key before d' /\
                           same_log d d') /\
  (tail_primary d = tail_primary d0 -> same_log d d0).
Proof.
  intros Hrun Hcf Hu Hv. pose proof (log_run_ok _ _ _ Hrun) as Hok.
  pose proof Hok as [Hto _ Hc _ _ Hg _].
  apply verifyAuditLog_Ok in Hv as (Hrows & Hl & (h & Hob & Hck) & Ht);
    [|by eapply unforged_no_history].
  cbn [store db] in *. destruct (decide (audit_events d = [])) as [En|Hne].
  { by eapply empty_file_genuine. }
  destruct (linked_segment key past (audit_events d)) as (pre & mid & post & E & H2);
    [done..| |].
  { rewrite Forall_forall in *. intros ev Hev. eapply verified_row; eauto. }
  assert (exists m mid', mid = mid' ++ [m]) as (m & mid' & Em).
  { destruct mid as [|m mid' _] using rev_ind; [|eauto]. by inversion H2. }
  assert (past = (pre ++ mid') ++ m :: post) as Epm
    by (rewrite E, Em; by rewrite <- !app_assoc).
  assert (tail_primary d = Some (tail_of key m)) as Htl.
  { apply (tail_located key past d f m post (pre ++ mid')); try done.
    - pose proof (Forall2_last _ _ _ H2) as Hlast. rewrite Em, last_snoc in Hlast.
      inversion Hlast as [x ? Hxm Ex|]. subst. unfold newest_row. by rewrite <- Ex; eauto.
    - rewrite Epm in Hc. by destruct (chain_at _ _ _ _ Hc) as (_ & ? & _). }
  assert (forall d', log_ok key (pre ++ mid) d' -> same_log d d') as Hs.
  { intros d' Hd'. split.
    - rewrite (head_located key past pre mid post (audit_events d) h d'); try done.
      rewrite Em. by destruct mid'.
    - rewrite Htl. destruct Hd' as [T _ _ _ _ _ _]. rewrite (to_primary _ _ _ T).
      by rewrite Em, app_assoc, last_snoc. }
  split.
  - destruct (log_run_prefix key past d0 (pre ++ mid) post Hrun) as [d' Hd'];
      [by rewrite <- app_assoc|].
    exists (pre ++ mid), post, d'. split_and!; [by rewrite <- app_assoc|done|].
    by apply Hs, log_run_ok.
  - rewrite Htl, (to_primary _ _ _ Hto). destruct (last past) as [l|] eqn:El; [|done].
    simpl. intros [= _ Hh _]. apply last_Some in El as [p El].
    destruct (hash_position key past p l [] (pre ++ mid') m post) as [-> ->]; try done.
    rewrite Epm in El. apply app_inv_head in El. injection El as ->.
    apply Hs. rewrite app_nil_r in E. by rewrite <- E.
Qed.
End Sound.
