(* ===== verification/AuditRotate.v ===== *)
(** * Changes of secret, and evidence that stays

    When the server secret changes the log is reported as written under
    another key, not as tampered with, for as long as the server goes on
    writing to it; and once rows are missing from the end of the log, the
    server's own writes do not hide it. *)
From stdpp Require Import base list strings sets sorting relations.
From S2P Require Import Prelude AuditText AuditChain AuditVerify AuditSound.

Local Open Scope Z_scope.
Local Open Scope res_scope.

Section Rotate.
Context {prims : Primitives} {laws : PrimitiveLaws prims}.

(** ** A change of secret *)

(** Nothing signed under [key] verifies under [key']. *)
Definition other_secret (key key' : string) (past : list AuditEvent) : Prop :=
  key' <> ""%string /\ forall m, signed past m -> hmac key' m <> hmac key m.

(** [rotated_run key' d news d']: with secret [key'], the server has written
    the events [news] to the log [d] it had written with another secret. *)
Inductive rotated_run (key' : string) (d : auditDB)
    : list AuditEvent -> auditDB -> Prop :=
| rotated_start : rotated_run key' d [] d
| rotated_record news d1 f now ev d2 new :
    rotated_run key' d news d1 -> ~ is_anchor ev ->
    recordAudit (store key' d1 f) now ev = Ok d2 -> newest_row d2 = Some new ->
    rotated_run key' d (news ++ [new]) d2.

Definition current_of (key' : string) (primary : auditTailSlot) (ev : AuditEvent)
    : auditTailSlot :=
  {| event_id := ID ev; event_hash := Hash ev;
     mac := hmac key' (canonicalFields
       [auditTailCurrentLabel; FormatInt (ID ev); Hash ev;
        FormatInt (event_id primary); event_hash primary; mac primary]);
     bound := None |}.

(** The log after the change: [old] was written under [key], the last of its
    events is [lst]; the newer events [news] are covered by the second
    anchor. *)
Record rotated_ok (key key' : string) (old : list AuditEvent) (lst : AuditEvent)
    (news : list AuditEvent) (d : auditDB) : Prop := {
  ro_rows : audit_events d = old ++ news;
  ro_last : last old = Some lst;
  ro_old : exists prev, chain key prev old;
  ro_news : chain key' (Hash lst) news;
  ro_ids : StronglySorted by_id (old ++ news);
  ro_plain : Forall (fun ev => ~ is_anchor ev) news;
  ro_primary : tail_primary d = Some (tail_of key lst);
  ro_current : tail_current d = current_of key' (tail_of key lst) <$> last news;
  ro_seq : sqlite_sequence d = Some (ID <$> last (old ++ news));
  ro_schema : schema_intact d = true;
}.

Lemma log_rotated_ok key key' past d :
  log_ok key past d -> past <> [] -> exists old lst, rotated_ok key key' old lst [] d /\
    forall ev, ev ∈ old -> ev ∈ past.
Proof.
  intros Hok Hne. pose proof Hok as [[T1 T2 T3 T4 T5] (gone & Hg) _ Hs _ _ _].
  destruct (last past) as [lst|] eqn:El; [|by apply last_None in El].
  unfold newest_row in T1. exists (audit_events d), lst. split; [|rewrite Hg; set_solver].
  split; rewrite ?app_nil_r, ?T1; try done.
  - by eapply rows_chain.
  - rewrite Hg in Hs. by apply StronglySorted_app_1_r in Hs.
Qed.
(** *** Writing under the new secret *)

Lemma old_tail_fails key key' past lst d f st :
  other_secret key key' past -> lst ∈ past -> st_anchor st = Some (tail_of key lst) ->
  auditTailVerifies (store key' d f) st = false.
Proof.
  intros [Hk Ho] Hin E. unfold auditTailVerifies. rewrite E. simpl.
  unfold auditTailMACVerifies, auditTailMAC. cbn [event_id event_hash mac tail_of auditKey store].
  destruct (_ =? 0)%nat; [done|]. simpl. apply String.eqb_neq. apply Ho. exists lst. auto.
Qed.

Lemma old_row_fails key key' past prev ev d f :
  other_secret key key' past -> ev ∈ past -> row_ok key prev ev ->
  auditHash ev key' = Ok (hmac key' (auditCanonical auditHashV3Label ev)) /\
  hmac key' (auditCanonical auditHashV3Label ev) <> Hash ev /\
  auditRowVerifies (store key' d f) ev = false.
Proof.
  intros [Hk Ho] Hin (_ & Hv & Hh).
  assert (auditHash ev key' = Ok (hmac key' (auditCanonical auditHashV3Label ev))) as E.
  { unfold auditHash, auditHashKeyed. rewrite Hv. simpl. by destruct key'. }
  assert (hmac key' (auditCanonical auditHashV3Label ev) <> Hash ev) as Hne.
  { rewrite Hh. apply Ho. exists ev. auto. }
  split_and!; [done..|]. unfold auditRowVerifies. cbn [auditKey store]. rewrite E.
  by apply String.eqb_neq.
Qed.

Lemma current_verifies key' primary ev d f :
  key' <> ""%string ->
  currentTailVerifies (store key' d f)
    {| st_newest := Some ev; st_anchor := Some primary;
       st_current := Some (current_of key' primary ev) |} = true.
Proof.
  intros Hk. unfold currentTailVerifies, auditTailCurrentMAC. simpl.
  destruct key'; [done|]. apply String.eqb_refl.
Qed.

Lemma current_names key' primary ev a :
  currentNamesNewest {| st_newest := Some ev; st_anchor := a;
    st_current := Some (current_of key' primary ev) |} = true.
Proof. unfold currentNamesNewest. simpl. by rewrite Z.eqb_refl, String.eqb_refl. Qed.

Lemma chain_elem key prev l x :
  chain key prev l -> x ∈ l -> exists p, row_ok key p x.
Proof.
  revert prev. induction l as [|y l IH]; intros prev; [by intros _ ?%elem_of_nil|].
  intros [Hy Hc] [->|Hx]%elem_of_cons; eauto.
Qed.

Lemma event_at_last d l x :
  StronglySorted by_id (audit_events d) -> audit_events d = l ++ [x] ->
  event_at d (ID x) = Some x.
Proof.
  unfold event_at. intros Hs E. rewrite E in *. clear E.
  induction l as [|y l IH]; simpl in *; [by rewrite Z.eqb_refl|].
  apply StronglySorted_inv in Hs as [Hs Hy]. rewrite Forall_forall in Hy.
  specialize (Hy x ltac:(set_solver)). unfold by_id in Hy.
  replace (ID y =? ID x) with false by (symmetry; apply Z.eqb_neq; lia). by apply IH.
Qed.

Lemma rotated_plan key key' past old lst news d f before move :
  other_secret key key' past -> (forall ev, ev ∈ old -> ev ∈ past) ->
  rotated_ok key key' old lst news d ->
  readAuditTailState (store key' d f) d = Ok before ->
  planAuditTailMove (store key' d f) before = Ok move ->
  move = auditTailAdvanceCurrent /\ st_anchor before = Some (tail_of key lst).
Proof.
  intros Ho Hsub [Hr Hl (prev & Hc) Hn Hs _ Hp Hcur _ _] ->%ask_value Hm.
  assert (lst ∈ old) as Hin by (apply last_Some in Hl as [l ->]; set_solver).
  split; [|by cbn].
  unfold planAuditTailMove in Hm. cbn [st_anchor st_newest] in Hm. rewrite Hp in Hm.
  rewrite (old_tail_fails key key' past lst) in Hm by (try done; auto).
  rewrite andb_false_r in Hm. unfold newest_row in Hm. rewrite Hr, Hcur in Hm.
  destruct news as [|n news _] using rev_ind.
  - rewrite app_nil_r, Hl in Hm. cbn [last fmap option_fmap option_map] in Hm.
    unfold planAuditTailMoveAfterKeyChange in Hm. rewrite tail_names in Hm. simpl in Hm.
    apply rbind_Ok in Hm as (v & Hv & [= <-]). unfold newestAuditRowVerifies in Hv.
    cbn [st_newest] in Hv. apply rbind_Ok in Hv as (row & ->%ask_value & [= <-]).
    apply last_Some in Hl as [l El]. rewrite app_nil_r in Hr, Hs. cbn [store db].
    rewrite (event_at_last d l lst) by (by rewrite Hr).
    destruct (chain_elem _ _ _ _ Hc Hin) as [p Hrow].
    destruct (old_row_fails key key' past p lst d f Ho (Hsub _ Hin) Hrow) as (_ & _ & ->).
    done.
  - rewrite !app_assoc, !last_snoc in Hm. cbn [fmap option_fmap option_map] in Hm.
    rewrite current_names, current_verifies in Hm by apply Ho. by injection Hm as <-.
Qed.

Lemma rotated_preserved key key' past old lst news d f now ev d' new :
  other_secret key key' past -> (forall ev, ev ∈ old -> ev ∈ past) ->
  rotated_ok key key' old lst news d -> ~ is_anchor ev ->
  recordAudit (store key' d f) now ev = Ok d' -> newest_row d' = Some new ->
  rotated_ok key key' old lst (news ++ [new]) d'.
Proof.
  intros Ho Hsub Hok Hna Hr Hnew. pose proof Hok as [Er El Hc Hn Hs Hpl Hp Hcur Hseq Hsch].
  apply recordAudit_inv in Hr as (st & m & n & seq & Hst & Hm & Hsq & Hid & Hrow & Hk & Ha &
    Hd & Happ).
  destruct (rotated_plan _ _ _ _ _ _ _ _ _ _ Ho Hsub Hok Hst Hm) as [-> Est].
  cbn [applyAuditTailMove] in Happ. rewrite Est in Happ. cbn [default from_option] in Happ.
  apply rbind_Ok in Happ as (mc & Hmc & ->%ask_value). apply key_given in Hmc as [_ ->].
  unfold newest_row in Hnew. cbn in Hnew. rewrite last_snoc in Hnew. injection Hnew as ->.
  cbn [store db] in *. rewrite Hseq in Hsq. injection Hsq as <-.
  split; cbn; try done; rewrite ?app_assoc, ?last_snoc; try done.
  - by rewrite Er.
  - apply chain_app. split; [done|]. simpl. split; [|done].
    unfold last_hash in Hrow. rewrite Er in Hrow. destruct news as [|y news _] using rev_ind.
    + rewrite app_nil_r, El in Hrow. exact Hrow.
    + rewrite app_assoc, last_snoc in Hrow. by rewrite last_snoc.
  - apply StronglySorted_app. split_and!; [|done|by repeat constructor].
    intros x y Hx ->%list_elem_of_singleton. unfold by_id. rewrite Hid.
    apply next_id_above. by rewrite Er.
  - apply Forall_app. split; [done|]. constructor; [|done]. unfold is_anchor in *. by rewrite Ha.
Qed.
(** *** How the rotated log is judged *)

Lemma key_change_old key key' past d f prev rows run lst lf :
  other_secret key key' past -> (forall ev, ev ∈ rows -> ev ∈ past) ->
  chain key prev rows -> 0 <= run -> (run = 0 \/ from_option Hash ""%string lst = prev) ->
  each_of_page (key_change_step (store key' d f))
    {| kc_run := run; kc_last := lst; kc_lastFailing := lf; kc_verifying := false |} rows =
  Ok {| kc_run := run + Z.of_nat (length rows);
        kc_last := match last rows with Some x => Some x | None => lst end;
        kc_lastFailing := match last rows with Some x => Some x | None => lf end;
        kc_verifying := false |}.
Proof.
  intros Ho. revert prev run lst lf. induction rows as [|ev rows IH];
    intros prev run lst lf Hsub Hc Hrun Hp.
  { simpl. by rewrite Z.add_0_r. }
  destruct Hc as [Hrow Hc].
  destruct (old_row_fails key key' past prev ev d f Ho) as (_ & _ & Hf); [set_solver|done|].
  destruct Hrow as (Hpr & _). cbn [each_of_page]. unfold key_change_step at 1.
  cbn [kc_run kc_verifying kc_last]. rewrite Hf, orb_false_r.
  replace ((0 <? run) && _) with false; cycle 1.
  { symmetry. apply andb_false_iff. destruct Hp as [->|Hp]; [by left|right].
    by rewrite Hpr, Hp, String.eqb_refl. }
  cbn [rbind kc_run]. rewrite (IH (Hash ev)); [|set_solver|done|lia|by right].
  f_equal. rewrite last_cons. replace (run + 1 + Z.of_nat (length rows)) with
    (run + Z.of_nat (length (ev :: rows))) by (simpl; lia).
  by destruct (last rows).
Qed.

Lemma key_change_new key' d f prev rows w :
  key' <> ""%string -> chain key' prev rows -> 0 < kc_run w ->
  from_option Hash ""%string (kc_last w) = prev ->
  exists w', each_of_page (key_change_step (store key' d f)) w rows = Ok w' /\
             kc_lastFailing w' = kc_lastFailing w.
Proof.
  intros Hk. revert prev w. induction rows as [|ev rows IH]; intros prev w Hc Hrun Hp.
  { by exists w. }
  destruct Hc as [Hrow Hc]. destruct (chain_row_verifies key' d f prev ev Hk Hrow) as [_ Hv].
  destruct Hrow as (Hpr & _). cbn [each_of_page]. unfold key_change_step at 1.
  rewrite Hv, Hpr, Hp, String.eqb_refl, andb_false_r.
  replace (kc_run w =? 0) with false by (symmetry; apply Z.eqb_neq; lia).
  cbn [rbind].
  match goal with |- context [each_of_page _ ?w1 rows] =>
    destruct (IH (Hash ev) w1 Hc Hrun eq_refl) as (w' & Hw & Hl) end.
  exists w'. done.
Qed.

Lemma rotated_tail key key' past old lst news d :
  other_secret key key' past -> (forall ev, ev ∈ old -> ev ∈ past) ->
  rotated_ok key key' old lst news d ->
  verifyAuditTailAfterKeyChange (store key' d no_fault) lst = Ok tt.
Proof.
  intros Ho Hsub [Hr Hl (prev & Hc) Hn Hs _ Hp Hcur Hseq _].
  assert (lst ∈ old) as Hin by (apply last_Some in Hl as [l ->]; set_solver).
  unfold verifyAuditTailAfterKeyChange, verifyAuditSequence, readAuditTailState, ask.
  cbn [store fails no_fault db rbind]. rewrite Hseq. cbn [rbind fst snd].
  unfold newest_row. rewrite Hr, Hp, Hcur.
  assert (exists n, last (old ++ news) = Some n) as [n En].
  { destruct (last (old ++ news)) eqn:E; [eauto|]. apply last_None in E.
    destruct old; [done|]. by simpl in E. }
  rewrite En. cbn [from_option fmap option_fmap option_map checkAuditTail].
  rewrite Z.ltb_irrefl. cbn [rbind auditTailAnchorPresent st_anchor st_newest].
  unfold checkRotatedAuditTail. cbn [st_anchor].
  rewrite (old_tail_fails key key' past lst) by (try done; auto).
  rewrite andb_false_r. cbn [tail_of event_id event_hash bound].
  rewrite Z.eqb_refl, String.eqb_refl. cbn [andb negb].
  unfold verifyAuditTailCurrent. cbn [st_newest st_current from_option].
  destruct news as [|x news _] using rev_ind.
  - rewrite app_nil_r, Hl in En. injection En as <-. by rewrite Z.eqb_refl.
  - rewrite app_assoc, last_snoc in En. injection En as <-. rewrite last_snoc.
    pose proof (StronglySorted_app_1_elem_of _ _ _ lst x Hs Hin ltac:(set_solver)) as Hlt.
    unfold by_id in Hlt. replace (ID x =? ID lst) with false by (symmetry; apply Z.eqb_neq; lia).
    cbn [fmap option_fmap option_map].
    rewrite bool_decide_eq_true_2 by done. cbn [negb].
    rewrite current_names, current_verifies by apply Ho. done.
Qed.

Lemma rotated_looks key key' past old lst news d :
  other_secret key key' past -> (forall ev, ev ∈ old -> ev ∈ past) ->
  rotated_ok key key' old lst news d ->
  looksLikeKeyChange (store key' d no_fault) = Ok true.
Proof.
  intros Ho Hsub Hok. pose proof Hok as [Hr Hl (prev & Hc) Hn Hs _ _ _ _ _].
  unfold looksLikeKeyChange. rewrite forEachAuditEvent_rows by (try done; cbn; by rewrite Hr).
  cbn [store db]. rewrite Hr, each_of_page_app.
  rewrite (key_change_old key key' past d no_fault prev) by (try done; by left).
  cbn [rbind]. rewrite Hl.
  destruct (key_change_new key' d no_fault (Hash lst) news
    {| kc_run := 0 + Z.of_nat (length old); kc_last := Some lst;
       kc_lastFailing := Some lst; kc_verifying := false |}) as (w & Hw & Hlf).
  - apply Ho.
  - done.
  - cbn. destruct old; [done|]. simpl. lia.
  - done.
  - fold (store key' d no_fault); rewrite Hw. cbn in Hlf. rewrite Hlf.
    by rewrite (rotated_tail key key' past old lst news).
Qed.

Lemma old_anchors_fail key key' past rows :
  other_secret key key' past -> forall d f seen,
  Forall (fun ev => ev ∈ past /\ exists prev, row_ok key prev ev) rows ->
  match find_anchor (store key' d f) seen rows with
  | Ok a => an_event a = None /\ an_record a = no_anchor
  | Err _ => True
  end.
Proof.
  intros Ho d f seen. destruct rows as [|ev rows]; [done|].
  intros [[Hin (prev & Hrow)] _]%Forall_cons. simpl.
  destruct (old_row_fails key key' past prev ev d f Ho Hin Hrow) as (_ & _ & ->). done.
Qed.

Lemma rotated_anchor key key' past old lst news d :
  other_secret key key' past -> (forall ev, ev ∈ old -> ev ∈ past) ->
  rotated_ok key key' old lst news d ->
  match findAuditAnchor (store key' d no_fault) with
  | Ok a => an_event a = None /\ an_record a = no_anchor
  | Err _ => True
  end.
Proof.
  intros Ho Hsub [Hr _ (prev & Hc) _ _ Hpl _ _ _ _].
  unfold findAuditAnchor, ask. cbn [store fails no_fault db rbind].
  apply (old_anchors_fail key key' past _ Ho d no_fault false).
  apply Forall_forall. intros ev [Hev Hin]%list_elem_of_filter.
  rewrite elem_of_reverse, Hr in Hin. apply elem_of_app in Hin as [Hin|Hin].
  - split; [auto|]. by eapply chain_elem.
  - rewrite Forall_forall in Hpl. by destruct (Hpl ev Hin).
Qed.

(** A change of secret is not taken for tampering.  After the secret
    changes the server goes on writing to the log; however many events it
    writes, verification under the new secret reports a key mismatch at the
    oldest event, not a broken chain. *)
Theorem rotation_is_key_mismatch key key' past d news d' :
  log_run key past d -> past <> [] -> other_secret key key' past ->
  rotated_run key' d news d' ->
  snd (verifyAuditLog (store key' d' no_fault)) = Some ErrAuditKeyMismatch /\
  FirstBad (fst (verifyAuditLog (store key' d' no_fault))) =
    from_option ID 0 (head (audit_events d)).
Proof.
  intros Hrun Hne Ho Hrot.
  destruct (log_rotated_ok key key' past d (log_run_ok _ _ _ Hrun) Hne)
    as (old & lst & Hok0 & Hsub).
  assert (audit_events d = old) as Ed by (rewrite (ro_rows _ _ _ _ _ _ Hok0); apply app_nil_r).
  assert (rotated_ok key key' old lst news d') as Hok.
  { induction Hrot; [done|]. by eapply rotated_preserved. }
  pose proof Hok as [Hr Hl (prev & Hc) _ _ Hpl _ _ _ Hsch].
  unfold verifyAuditLog, verifyAuditSchema, ask. cbn [store fails no_fault db].
  rewrite Hsch. cbn [rbind]. fold (store key' d' no_fault).
  set (anchor := match findAuditAnchor _ with Ok a => a | _ => _ end).
  assert (an_event anchor = None /\ an_record anchor = no_anchor) as [Ha1 Ha2].
  { unfold anchor. pose proof (rotated_anchor _ _ _ _ _ _ _ Ho Hsub Hok) as H.
    by destruct (findAuditAnchor _). }
  rewrite Ha2. unfold an_found. rewrite Ha1. clearbody anchor.
  unfold walk_run, ask. cbn [store fails no_fault db]. fold (store key' d' no_fault).
  rewrite Hr, <- Ed in *. destruct (audit_events d) as [|o rest]; [done|].
  destruct Hc as [Hrow _]. pose proof Hrow as (_ & Hver & _).
  destruct (old_row_fails key key' past prev o d' no_fault Ho) as (Eh & Hneq & _);
    [set_solver|done|].
  cbn [app walk_rows]. unfold walk_step. cbn [new_walk count_row w_first negb andb
    w_highestVersion inHistory hasHistory no_anchor]. rewrite Hver. cbn [auditKey store].
  rewrite Eh. apply String.eqb_neq in Hneq. rewrite Hneq. cbn [negb].
  unfold classifyUnverifiedRow. cbn [w_keyProven negb andb].
  rewrite (rotated_looks key key' past (o :: rest) lst news d') by done. done.
Qed.
(** ** Evidence stays *)

(** The server writes to a file, in whatever state it finds it. *)
Inductive server_run (key : string) (d : auditDB) : list AuditEvent -> auditDB -> Prop :=
| server_start : server_run key d [] d
| server_record news d1 f now ev d2 new :
    server_run key d news d1 -> recordAudit (store key d1 f) now ev = Ok d2 ->
    newest_row d2 = Some new -> server_run key d (news ++ [new]) d2
| server_purge news d1 f now olderThan cut d2 n new :
    server_run key d news d1 ->
    purge_below (store key d1 f) now olderThan cut = Ok (d2, n) -> 0 < n ->
    newest_row d2 = Some new -> server_run key d (news ++ [new]) d2.

(** Neither the anchor [a] nor the second one, [c], which a change of secret
    starts, names the newest event. *)
Record truncated (a : auditTailSlot) (c : option auditTailSlot) (d : auditDB) : Prop := {
  tr_ids : StronglySorted by_id (audit_events d);
  tr_primary : tail_primary d = Some a;
  tr_current : tail_current d = c;
  tr_names : names (Some a) (newest_row d) = false;
  tr_current_names : names c (newest_row d) = false;
}.

(** The event is neither of the two that the anchors name. *)
Definition not_the_missing (a : auditTailSlot) (c : option auditTailSlot) (ev : AuditEvent) : Prop :=
  Hash ev <> event_hash a /\ forall slot, c = Some slot -> Hash ev <> event_hash slot.

Lemma truncated_record a c key d f now ev d' new :
  truncated a c d -> recordAudit (store key d f) now ev = Ok d' ->
  newest_row d' = Some new -> not_the_missing a c new -> truncated a c d'.
Proof.
  intros [Hs Hp Hc Hn Hcn] Hr Hnew [Hh Hch].
  apply recordAudit_inv in Hr as (st & m & n & seq & ->%ask_value & Hm & Hsq & Hid & Hrow & _ & _ &
    _ & Happ).
  assert (m = auditTailStay) as ->.
  { unfold planAuditTailMove, planAuditTailMoveAfterKeyChange, namesNewest,
      currentNamesNewest in Hm. cbn [st_anchor st_newest st_current store db] in Hm.
    rewrite Hp, Hc, Hn, Hcn in Hm. cbn in Hm. by injection Hm as <-. }
  injection Happ as <-. unfold newest_row in Hnew. cbn [store db audit_events] in *.
  rewrite last_snoc in Hnew. injection Hnew as ->. split; cbn; try done.
  - apply StronglySorted_app. split_and!; [|done|by repeat constructor].
    intros x y Hx ->%list_elem_of_singleton. unfold by_id. rewrite Hid. by apply next_id_above.
  - unfold newest_row. cbn. rewrite last_snoc. apply andb_false_iff. right.
    by apply String.eqb_neq.
  - unfold newest_row. cbn. rewrite last_snoc. destruct c as [slot|]; [|done].
    apply andb_false_iff. right. by apply String.eqb_neq, not_eq_sym, Hch.
Qed.

Lemma truncated_purge a c key d f now o cut d' n new :
  truncated a c d -> purge_below (store key d f) now o cut = Ok (d', n) -> 0 < n ->
  newest_row d' = Some new -> not_the_missing a c new -> truncated a c d'.
Proof.
  intros [Hs Hp Hc Hn Hcn] (kept & (Hin & <- & _)%verifyAuditPurgePrefix_Ok & (d1 & ->%ask_value &
    (d2 & Hr & [= -> ->]%ask_value)%rbind_Ok)%rbind_Ok)%rbind_Ok Hpos.
  destruct (0 <? _) eqn:Hb in Hr; [|cbn in *; lia]. cbn [store db] in Hin.
  apply list_elem_of_split in Hin as (x & y & E).
  eapply truncated_record; [|exact Hr].
  assert (audit_events (delete_below d (ID (newHead kept))) = newHead kept :: y) as E1.
  { simpl. rewrite E in *. by apply filter_from. }
  split; cbn [store db]; try done; try (unfold newest_row in *; rewrite E1);
    rewrite E in *; [by apply StronglySorted_app_1_r in Hs|by rewrite last_app_cons in Hn|
    by rewrite last_app_cons in Hcn].
Qed.

(** C30: Evidence of a truncated log is not overwritten.  When neither the
    tail anchor of a file nor the second anchor, if a change of secret has
    started one, names the newest event, nothing the server writes afterwards
    under any one secret, purges included, moves either anchor, and the log
    goes on failing verification; the one exception is the server writing the
    very event an anchor names. *)
Theorem truncation_stays_visible key a c d news d' f :
  truncated a c d -> server_run key d news d' -> Forall (not_the_missing a c) news ->
  tail_primary d' = Some a /\ tail_current d' = c /\
  snd (verifyAuditLog (store key d' f)) <> None.
Proof.
  intros Htr Hrun Hnews. assert (truncated a c d') as [_ Hp Hc Hn Hcn].
  { induction Hrun as [|news d1 g now ev d2 new _ IH Hr Hnew|
      news d1 g now o cut d2 n new _ IH Hr Hpos Hnew]; [done|..];
      apply Forall_app in Hnews as [Hold [Hh _]%Forall_cons].
    - by eapply truncated_record; [apply IH|..].
    - by eapply truncated_purge; [apply IH|..]. }
  split; [done|]. split; [done|].
  intros (st & ->%ask_value & (_ & _ & Hv)%rbind_Ok)%verifyAuditLog_tail%rbind_Ok.
  cbn [store db st_anchor] in Hv. rewrite Hp in Hv. unfold namesNewest in Hv.
  cbn [st_anchor st_newest] in Hv. by rewrite Hn in Hv.
Qed.
End Rotate.
