(* ===== verification/Groups.v ===== *)
(** * Group membership (server/src/internal/auth/groups.go)

    The four membership mutations, each a transaction that is committed with
    its audit event or rolled back and recorded as a failure.  The hierarchy
    stays acyclic, and adding a group gives its members exactly the groups
    above the new parent. *)
From stdpp Require Import base list strings gmap sets relations.
From S2P Require Import Prelude AuthStore.

Local Open Scope Z_scope.
Local Open Scope res_scope.

(** ** Transactions *)

Definition set_memberships (t : tables) (ms : list GroupMembership) : tables :=
  {| users := users t; user_group_rows := user_group_rows t; tokens := tokens t;
     group_memberships := ms;
     mcp_privilege_identifiers := mcp_privilege_identifiers t;
     group_mcp_privileges := group_mcp_privileges t;
     connection_privileges := connection_privileges t;
     group_admin_permissions := group_admin_permissions t;
     token_connection_scope := token_connection_scope t;
     token_mcp_scope := token_mcp_scope t;
     token_admin_scope := token_admin_scope t;
     audit_events := audit_events t |}.

(** [membershipChange]: the tables afterwards and the error returned. *)
Definition membershipChange (s : AuthStore) (action : string)
    (groupID memberID : Z) (apply : tables -> result tables)
    : tables * result unit :=
  let fn := "membershipChange"%string in
  match ask s fn 0 [] tt with
  | Err e => (db s, Err e)
  | Ok _ =>
      let outcome :=
        let! _ := ask s fn 1 [groupID] tt in
        let! t := apply (db s) in
        let! _ := ask s fn 2 [memberID] tt in
        let! t := recordAudit s fn t
          {| ev_action := action; ev_target := groupID;
             ev_member := Some memberID; ev_success := true |} in
        ask s fn 3 [] t in
      match outcome with
      | Ok t => (t, Ok tt)
      | Err e =>
          (failAudit s {| ev_action := action; ev_target := groupID;
                          ev_member := None; ev_success := false |} e, Err e)
      end
  end.

(** ** The mutations *)

Definition user_exists (t : tables) (userID : Z) : bool :=
  existsb (fun u => user_id u =? userID) (users t).
Definition group_exists (t : tables) (groupID : Z) : bool :=
  existsb (fun g => group_id g =? groupID) (user_group_rows t).

(** The row a membership insert or delete names: its parent and its member
    column. *)
Definition same_row (m r : GroupMembership) : bool :=
  (ParentGroupID r =? ParentGroupID m) &&
  match MemberUserID m, MemberGroupID m with
  | Some u, _ => bool_decide (MemberUserID r = Some u)
  | None, Some g => bool_decide (MemberGroupID r = Some g)
  | None, None => false
  end.

(** INSERT INTO group_memberships, with the foreign keys, the UNIQUE
    constraints and the CHECK of the table (store.go). *)
Definition insert_membership (s : AuthStore) (fn : string) (t : tables)
    (m : GroupMembership) : result tables :=
  let valid :=
    group_exists t (ParentGroupID m) &&
    match MemberUserID m, MemberGroupID m with
    | Some u, None => user_exists t u
    | None, Some g => group_exists t g && negb (ParentGroupID m =? g)
    | _, _ => false
    end && negb (existsb (same_row m) (group_memberships t)) in
  if valid
  then ask s fn 0 [ParentGroupID m]
           (set_memberships t (group_memberships t ++ [m]))
  else Err DBError.

(** DELETE FROM group_memberships, refusing when no row matched. *)
Definition delete_membership (s : AuthStore) (fn : string) (t : tables)
    (m : GroupMembership) : result tables :=
  let! t' := ask s fn 0 [ParentGroupID m]
    (set_memberships t
       (filter (fun r => same_row m r = false) (group_memberships t))) in
  if existsb (same_row m) (group_memberships t) then Ok t'
  else Err ErrNotAMember.

Definition user_member (groupID userID : Z) : GroupMembership :=
  {| ParentGroupID := groupID; MemberUserID := Some userID;
     MemberGroupID := None |}.
Definition group_member (parentGroupID childGroupID : Z) : GroupMembership :=
  {| ParentGroupID := parentGroupID; MemberUserID := None;
     MemberGroupID := Some childGroupID |}.

Definition addUserToGroup (s : AuthStore) (groupID userID : Z)
    : tables * result unit :=
  membershipChange s "group.member.add" groupID userID (fun t =>
    insert_membership s "addUserToGroup" t (user_member groupID userID)).

Definition addGroupToGroup (s : AuthStore) (parentGroupID childGroupID : Z)
    : tables * result unit :=
  membershipChange s "group.member.add" parentGroupID childGroupID (fun t =>
    let! _ := validateNoCircularReference
                {| db := t; fault := fault s |} parentGroupID childGroupID in
    insert_membership s "addGroupToGroup" t
      (group_member parentGroupID childGroupID)).

Definition removeUserFromGroup (s : AuthStore) (groupID userID : Z)
    : tables * result unit :=
  membershipChange s "group.member.remove" groupID userID (fun t =>
    delete_membership s "removeUserFromGroup" t (user_member groupID userID)).

Definition removeGroupFromGroup (s : AuthStore) (parentGroupID childGroupID : Z)
    : tables * result unit :=
  membershipChange s "group.member.remove" parentGroupID childGroupID (fun t =>
    delete_membership s "removeGroupFromGroup" t
      (group_member parentGroupID childGroupID)).

(** ** Transactions commit or leave the tables alone *)

(** A membership change either commits what [apply] did together with its
    event, or returns an error and changes no data. *)
Lemma membershipChange_cases s action g m apply :
  (exists t, apply (db s) = Ok t /\
     membershipChange s action g m apply =
       (append_event t {| ev_action := action; ev_target := g;
                          ev_member := Some m; ev_success := true |}, Ok tt)) \/
  (exists t e, membershipChange s action g m apply = (t, Err e) /\
     same_data t (db s)).
Proof.
  unfold membershipChange, recordAudit, ask.
  destruct (fault s "membershipChange" 0%nat []); [right; by exists (db s), DBError|].
  destruct (fault s "membershipChange" 1%nat [g]); simpl;
    [right; eexists _, _; split; [done|apply failAudit_data]|].
  destruct (apply (db s)) as [t|e]; simpl;
    [|right; eexists _, _; split; [done|apply failAudit_data]].
  destruct (fault s "membershipChange" 2%nat [m]); simpl;
    [right; eexists _, _; split; [done|apply failAudit_data]|].
  destruct (fault s "membershipChange" 100%nat []); simpl;
    [right; eexists _, _; split; [done|apply failAudit_data]|].
  destruct (fault s "membershipChange" 3%nat []); simpl;
    [right; eexists _, _; split; [done|apply failAudit_data]|].
  left. by exists t.
Qed.

Lemma tc_mono (R R' : Z -> Z -> Prop) x y :
  (forall a b, R a b -> R' a b) -> tc R x y -> tc R' x y.
Proof.
  intros Hs. induction 1; [apply tc_once; auto|eapply tc_l; eauto].
Qed.

Lemma same_data_childOf t t' c p :
  same_data t t' -> childOf t c p <-> childOf t' c p.
Proof. intros (_ & _ & _ & H & _). unfold childOf. by rewrite H. Qed.

Lemma same_data_acyclic t t' : same_data t t' -> acyclic t' -> acyclic t.
Proof.
  intros Hd Ha g Hg. apply (Ha g). revert Hg. apply tc_mono.
  intros x y Hxy. by apply (same_data_childOf t t').
Qed.

(** ** One more edge *)

Section AddEdge.
Context (R R' : Z -> Z -> Prop) (c p : Z).
Hypothesis (HR : forall x y, R' x y <-> R x y \/ (x = c /\ y = p)).

Lemma rtc_add x y :
  rtc R' x y <-> rtc R x y \/ (rtc R x c /\ rtc R p y).
Proof.
  split.
  - induction 1 as [x|x z y Hxz _ IH]; [left; apply rtc_refl|].
    apply HR in Hxz as [Hxz|[-> ->]].
    + destruct IH as [?|[? ?]]; [left|right; split; [|done]]; by eapply rtc_l.
    + right. split; [apply rtc_refl|]. tauto.
  - assert (forall a b, rtc R a b -> rtc R' a b) as Hsub.
    { intros a b. apply rtc_subrel. intros ? ? ?. apply HR. auto. }
    intros [?|[H1 H2]]; [auto|]. etransitivity; [by apply Hsub|].
    eapply rtc_l; [apply HR; right; done|auto].
Qed.

Lemma tc_add x : tc R' x x -> tc R x x \/ rtc R p c.
Proof.
  assert (forall x y, tc R' x y -> tc R x y \/ (rtc R x c /\ rtc R p y)) as H.
  { induction 1 as [a b Hab|a b d Hab _ IH].
    - apply HR in Hab as [?|[-> ->]]; [left; by apply tc_once|].
      right. split; apply rtc_refl.
    - apply HR in Hab as [Hab|[-> ->]].
      + destruct IH as [?|[? ?]]; [left; by eapply tc_l|].
        right. split; [by eapply rtc_l|done].
      + right. split; [apply rtc_refl|].
        destruct IH as [?|[_ ?]]; [by apply tc_rtc|done]. }
  intros Hx. destruct (H x x Hx) as [?|[H1 H2]]; [auto|].
  right. by etransitivity.
Qed.
End AddEdge.

(** ** What each mutation does to the hierarchy *)

(** The check refuses exactly the edges that would close a cycle. *)
Lemma validate_Ok s p c :
  validateNoCircularReference s p c = Ok tt ->
  p <> c /\ ~ tc (childOf (db s)) p c.
Proof.
  unfold validateNoCircularReference, ask.
  destruct (Z.eqb_spec p c) as [|Hne]; [done|].
  destruct (fault _ _ _ _); [done|]. cbn [rbind].
  set (edges := child_edges (db s)). set (base := map snd _).
  destruct (filter (fun g => g = p) (recursive_cte edges base)) as [|g l] eqn:Hf;
    [|by intros [=]]. intros _.
  split; [done|]. intros Htc.
  assert (p ∈ recursive_cte edges base) as Hin.
  { apply recursive_cte_spec.
    assert (exists k, rtc (childOf (db s)) p k /\ childOf (db s) k c)
      as (k & Hpk & Hkc).
    { clear -Htc. induction Htc as [a b H|a b d Hab _ (k & H1 & H2)].
      - exists a. split; [apply rtc_refl|done].
      - exists k. split; [by eapply rtc_l|done]. }
    exists k. split; [|by apply descendant_ancestor].
    apply list_elem_of_fmap. exists (c, k). split; [done|].
    apply list_elem_of_filter. split; [done|]. by apply child_edges_spec. }
  assert (p ∈ filter (fun g => g = p) (recursive_cte edges base)) as Hp
    by (by apply list_elem_of_filter).
  rewrite Hf in Hp. by apply elem_of_nil in Hp.
Qed.

Lemma validate_fault_free s p c :
  fault_free s -> p <> c -> ~ tc (childOf (db s)) p c ->
  validateNoCircularReference s p c = Ok tt.
Proof.
  intros Hf Hne Hno. unfold validateNoCircularReference, ask.
  destruct (Z.eqb_spec p c) as [|_]; [done|]. rewrite Hf. cbn [rbind].
  set (edges := child_edges (db s)). set (base := map snd _).
  destruct (filter (fun g => g = p) (recursive_cte edges base)) as [|g l] eqn:He;
    [done|]. exfalso. apply Hno.
  assert (g ∈ filter (fun g => g = p) (recursive_cte edges base)) as Hg
    by (rewrite He; apply list_elem_of_here).
  apply list_elem_of_filter in Hg as [-> Hg].
  apply recursive_cte_spec in Hg as (k & Hk & Hr).
  apply list_elem_of_fmap in Hk as ([a b] & -> & Hk).
  apply list_elem_of_filter in Hk as [Ha Hk]. simpl in *. subst a.
  apply descendant_ancestor in Hr. eapply tc_rtc_l; [done|].
  apply tc_once. by apply child_edges_spec.
Qed.

Lemma insert_membership_Ok s fn t m t' :
  insert_membership s fn t m = Ok t' ->
  t' = set_memberships t (group_memberships t ++ [m]).
Proof.
  unfold insert_membership, ask. destruct (_ && _); [|done].
  by destruct (fault _ _ _ _); [|intros [= <-]].
Qed.

Lemma delete_membership_Ok s fn t m t' :
  delete_membership s fn t m = Ok t' ->
  t' = set_memberships t
         (filter (fun r => same_row m r = false) (group_memberships t)).
Proof.
  unfold delete_membership, ask. destruct (fault _ _ _ _); [done|]. simpl.
  by destruct (existsb _ _); [intros [= <-]|].
Qed.

Lemma childOf_group_added t p c x y :
  childOf (set_memberships t (group_memberships t ++ [group_member p c])) x y <->
  childOf t x y \/ (x = c /\ y = p).
Proof.
  unfold childOf. simpl. split.
  - intros (m & Hm & Hg & Hp). apply elem_of_app in Hm as [Hm|Hm]; [by eauto|].
    apply list_elem_of_singleton in Hm as ->. simpl in *. naive_solver.
  - intros [(m & Hm & H)|[-> ->]]; eexists; (split; [apply elem_of_app|]); eauto.
    + right. by apply list_elem_of_singleton.
    + done.
Qed.

Lemma childOf_user_added t g u x y :
  childOf (set_memberships t (group_memberships t ++ [user_member g u])) x y <->
  childOf t x y.
Proof.
  unfold childOf. simpl. split.
  - intros (m & Hm & Hg & Hp). apply elem_of_app in Hm as [Hm|Hm]; [by eauto|].
    apply list_elem_of_singleton in Hm as ->. done.
  - intros (m & Hm & H). exists m. rewrite elem_of_app. auto.
Qed.

Lemma childOf_filtered t P `{!forall r, Decision (P r)} x y :
  childOf (set_memberships t (filter P (group_memberships t))) x y ->
  childOf t x y.
Proof.
  intros (m & Hm & Hmm). apply list_elem_of_filter in Hm as [_ Hm]. by exists m.
Qed.

(** ** The store as a state machine *)

(** One membership mutation, under any pattern of failing queries. *)
Inductive group_step (t : tables) : tables -> Prop :=
| step_add_user f g u :
    group_step t (fst (addUserToGroup {| db := t; fault := f |} g u))
| step_add_group f p c :
    group_step t (fst (addGroupToGroup {| db := t; fault := f |} p c))
| step_remove_user f g u :
    group_step t (fst (removeUserFromGroup {| db := t; fault := f |} g u))
| step_remove_group f p c :
    group_step t (fst (removeGroupFromGroup {| db := t; fault := f |} p c)).

Lemma acyclic_sub t t' :
  (forall x y, childOf t' x y -> childOf t x y) -> acyclic t -> acyclic t'.
Proof. intros Hs Ha g Hg. apply (Ha g). revert Hg. by apply tc_mono. Qed.

Lemma membershipChange_acyclic s action g m apply :
  acyclic (db s) ->
  (forall t, apply (db s) = Ok t -> acyclic t) ->
  acyclic (fst (membershipChange s action g m apply)).
Proof.
  intros Ha Hap.
  destruct (membershipChange_cases s action g m apply)
    as [(t & Ht & ->)|(t & e & -> & Hd)]; simpl.
  - by apply (same_data_acyclic _ t); [|apply Hap].
  - by apply (same_data_acyclic _ (db s)).
Qed.

Lemma group_step_acyclic t t' : group_step t t' -> acyclic t -> acyclic t'.
Proof.
  intros [f g u|f p c|f g u|f p c] Ha; apply membershipChange_acyclic; try done;
    simpl; intros t1.
  - intros ->%insert_membership_Ok. revert Ha. apply acyclic_sub.
    intros x y. by rewrite childOf_user_added.
  - intros ([] & Hv & ->%insert_membership_Ok)%rbind_Ok.
    apply validate_Ok in Hv as [Hne Hno]. intros g Hg.
    apply (tc_add (childOf t) _ c p (childOf_group_added t p c)) in Hg
      as [Hg|Hg]; [by apply (Ha g)|].
    apply rtc_tc in Hg as [|]; done.
  - intros ->%delete_membership_Ok. revert Ha. apply acyclic_sub.
    intros x y. apply childOf_filtered.
  - intros ->%delete_membership_Ok. revert Ha. apply acyclic_sub.
    intros x y. apply childOf_filtered.
Qed.

(** No sequence of membership changes, whichever queries fail along the
    way, makes a group its own ancestor: every store reachable from an
    acyclic one, such as one with no memberships, is acyclic. *)
Theorem reachable_acyclic t t' :
  rtc group_step t t' -> acyclic t -> acyclic t'.
Proof.
  induction 1 as [|x y z Hxy _ IH]; [done|]. intros Ha.
  by apply IH, (group_step_acyclic x).
Qed.

Lemma member_of_ancestors t u g :
  member_of t u g <-> exists d, d ∈ direct_groups t u /\ rtc (childOf t) d g.
Proof.
  unfold member_of. split; intros (d & Hd & Hr); exists d; (split; [done|]);
    (eapply rtc_subrel; [|done]); intros x y Hxy; by apply parent_edges_spec.
Qed.

(** The memberships a new row brings. *)
Lemma member_group_added t p c u g :
  member_of (set_memberships t (group_memberships t ++ [group_member p c])) u g <->
  member_of t u g \/ (member_of t u c /\ rtc (childOf t) p g).
Proof.
  rewrite !member_of_ancestors.
  assert (direct_groups (set_memberships t
    (group_memberships t ++ [group_member p c])) u = direct_groups t u) as ->.
  { unfold direct_groups. simpl. rewrite omap_app. simpl. apply app_nil_r. }
  setoid_rewrite (rtc_add (childOf t) _ c p (childOf_group_added t p c)).
  split.
  - intros (d & Hd & [H|[H1 H2]]); [by eauto|]. right. eauto.
  - intros [(d & Hd & H)|((d & Hd & H1) & H2)]; eauto.
Qed.

Lemma member_user_added t p v u g :
  member_of (set_memberships t (group_memberships t ++ [user_member p v])) u g <->
  member_of t u g \/ (u = v /\ rtc (childOf t) p g).
Proof.
  rewrite !member_of_ancestors.
  assert (forall d, d ∈ direct_groups (set_memberships t
    (group_memberships t ++ [user_member p v])) u <->
    d ∈ direct_groups t u \/ (u = v /\ d = p)) as Hd.
  { intros d. unfold direct_groups. simpl. rewrite omap_app, elem_of_app. simpl.
    destruct (decide (Some v = Some u)) as [[= ->]|Hne];
      rewrite ?list_elem_of_singleton, ?elem_of_nil; naive_solver. }
  assert (forall x y, rtc (childOf (set_memberships t
    (group_memberships t ++ [user_member p v]))) x y <-> rtc (childOf t) x y) as Hr.
  { intros x y. split; apply rtc_subrel; intros a b; apply childOf_user_added. }
  setoid_rewrite Hd. setoid_rewrite Hr. naive_solver.
Qed.

(** Nesting a group in another gives its members, direct or inherited,
    exactly the parent and the groups above it, and nobody else anything; a
    change that reports an error leaves every membership as it was. *)
Lemma addGroupToGroup_members s p c u g :
  let '(t', outcome) := addGroupToGroup s p c in
  member_of t' u g <->
  member_of (db s) u g \/
  (outcome = Ok tt /\ member_of (db s) u c /\ rtc (childOf (db s)) p g).
Proof.
  unfold addGroupToGroup.
  destruct (membershipChange_cases s "group.member.add" p c (fun t =>
    let! _ := validateNoCircularReference {| db := t; fault := fault s |} p c in
    insert_membership s "addGroupToGroup" t (group_member p c)))
    as [(t & Ht & ->)|(t & e & -> & (_ & _ & _ & Hm & _))].
  - apply rbind_Ok in Ht as ([] & _ & ->%insert_membership_Ok).
    etrans; [apply (member_group_added (db s) p c)|]. naive_solver.
  - unfold member_of, direct_groups, parent_edges. rewrite Hm. split; [by auto|].
    intros [?|[[=] _]]. done.
Qed.

(** With a working database a group is nested exactly when both groups
    exist, the row is not there yet and the edge closes no cycle. *)
Lemma addGroupToGroup_accepts s p c :
  fault_free s ->
  snd (addGroupToGroup s p c) = Ok tt <->
  group_exists (db s) p = true /\ group_exists (db s) c = true /\
  existsb (same_row (group_member p c)) (group_memberships (db s)) = false /\
  p <> c /\ ~ tc (childOf (db s)) p c.
Proof.
  intros Hf. unfold addGroupToGroup, membershipChange, recordAudit, ask.
  rewrite !Hf. simpl.
  set (s' := {| db := db s; fault := fault s |}).
  assert (fault_free s') as Hf' by done.
  destruct (validateNoCircularReference s' p c) as [[]|e] eqn:Hv; simpl.
  - apply validate_Ok in Hv as [Hne Hno]. unfold insert_membership, ask.
    rewrite !Hf. simpl. destruct (Z.eqb_spec p c) as [|_]; [done|].
    destruct (group_exists (db s) p), (group_exists (db s) c),
      (existsb _ (group_memberships (db s))); simpl; intuition congruence.
  - split; [done|]. intros (_ & _ & _ & Hne & Hno).
    by rewrite (validate_fault_free s' p c) in Hv.
Qed.
