(* ===== verification/Grants.v ===== *)
(** * Grants to groups
      (server/src/internal/auth/privileges.go: the grant and revoke mutations
      and their lift guard; groups.go: deleteGroup)

    Each mutation is one transaction that is committed with its audit event
    or rolled back and recorded as a failure.  Removing a connection's last
    group grant opens a shared connection to every user, so the removals
    carry a guard that says on which connections that is allowed. *)
From stdpp Require Import base list strings gmap sets relations.
From S2P Require Import Prelude AuthStore Groups.

Local Open Scope Z_scope.
Local Open Scope res_scope.

(** ** The tables of grants *)

Definition set_grants (t : tables) (gs : list UserGroup) (ms : list GroupMembership)
    (mcp : list GroupMCPPrivilege) (conns : list ConnectionPrivilege)
    (admin : list AdminPermissionGrant) : tables :=
  {| users := users t; user_group_rows := gs; tokens := tokens t;
     group_memberships := ms;
     mcp_privilege_identifiers := mcp_privilege_identifiers t;
     group_mcp_privileges := mcp; connection_privileges := conns;
     group_admin_permissions := admin;
     token_connection_scope := token_connection_scope t;
     token_mcp_scope := token_mcp_scope t;
     token_admin_scope := token_admin_scope t;
     audit_events := audit_events t |}.

Definition set_mcp (t : tables) (rows : list GroupMCPPrivilege) : tables :=
  set_grants t (user_group_rows t) (group_memberships t) rows
    (connection_privileges t) (group_admin_permissions t).
Definition set_conns (t : tables) (rows : list ConnectionPrivilege) : tables :=
  set_grants t (user_group_rows t) (group_memberships t)
    (group_mcp_privileges t) rows (group_admin_permissions t).
Definition set_admin (t : tables) (rows : list AdminPermissionGrant) : tables :=
  set_grants t (user_group_rows t) (group_memberships t)
    (group_mcp_privileges t) (connection_privileges t) rows.

(** ** Transactions *)

(** The frame the six mutations share: the event names the group, whose name
    is read for the event only and whose absence is not an error. *)
Definition privilege_change (s : AuthStore) (action : string) (groupID : Z)
    (apply : tables -> result tables) : tables * result unit :=
  let ev ok := {| ev_action := action; ev_target := groupID;
                  ev_member := None; ev_success := ok |} in
  match ask s action 0 [] tt with
  | Err e => (db s, Err e)
  | Ok _ =>
      match (let! t := apply (db s) in
             let! t := recordAudit s action t (ev true) in
             ask s action 1 [] t) with
      | Ok t => (t, Ok tt)
      | Err e => (failAudit s (ev false) e, Err e)
      end
  end.

Definition auditActionPrivilegeMCPGrant : string := "privilege.mcp.grant".
Definition auditActionPrivilegeMCPRevoke : string := "privilege.mcp.revoke".
Definition auditActionPrivilegeConnectionGrant : string :=
  "privilege.connection.grant".
Definition auditActionPrivilegeConnectionRevoke : string :=
  "privilege.connection.revoke".
Definition auditActionPermissionAdminGrant : string := "permission.admin.grant".
Definition auditActionPermissionAdminRevoke : string := "permission.admin.revoke".

(** DELETE with a count of the rows it removed, an error when there was
    none. *)
Definition delete_rows {A} (s : AuthStore) (fn : string) (n : nat) (g : Z)
    (hit : A -> bool) (rows : list A) (put : list A -> tables)
    : result tables :=
  let! t := ask s fn n [g] (put (filter (fun r => hit r = false) rows)) in
  if existsb hit rows then Ok t else Err ErrGrantNotFound.

(** ** MCP privileges *)

Definition mcp_row (g p : Z) (r : GroupMCPPrivilege) : bool :=
  (gmp_group r =? g) && (gmp_privilege r =? p).

(** INSERT OR IGNORE: a row that is already there is left alone; a group that
    does not exist violates the foreign key, which IGNORE does not cover. *)
Definition insert_group_mcp (s : AuthStore) (fn : string) (t : tables)
    (g p : Z) : result tables :=
  if negb (group_exists t g) then Err DBError
  else ask s fn 2 [g]
    (if existsb (mcp_row g p) (group_mcp_privileges t) then t
     else set_mcp t (group_mcp_privileges t ++
                     [{| gmp_group := g; gmp_privilege := p |}])).

Definition grantMCPPrivilege (s : AuthStore) (groupID privilegeID : Z)
    : tables * result unit :=
  privilege_change s auditActionPrivilegeMCPGrant groupID (fun t =>
    insert_group_mcp s "grantMCPPrivilege" t groupID privilegeID).

Definition grantMCPPrivilegeByName (s : AuthStore) (groupID : Z)
    (identifier : string) : tables * result unit :=
  let fn := "grantMCPPrivilegeByName"%string in
  privilege_change s auditActionPrivilegeMCPGrant groupID (fun t =>
    let! privilegeID :=
      if String.eqb identifier "*" then Ok MCPPrivilegeIDWildcard
      else
        let! row := ask s fn 1 [] (find_identifier t identifier) in
        match row with
        | None => Err ErrPrivilegeNotFound
        | Some p => Ok (mcp_id p)
        end in
    let! t := insert_group_mcp s fn t groupID privilegeID in
    if String.eqb identifier "*" then
      ask s fn 3 [groupID]
        (set_mcp t (filter (fun r =>
           (gmp_group r =? groupID) &&
           negb (gmp_privilege r =? MCPPrivilegeIDWildcard) = false)
           (group_mcp_privileges t)))
    else Ok t).

Definition revokeMCPPrivilege (s : AuthStore) (groupID privilegeID : Z)
    : tables * result unit :=
  privilege_change s auditActionPrivilegeMCPRevoke groupID (fun t =>
    delete_rows s "revokeMCPPrivilege" 0 groupID (mcp_row groupID privilegeID)
      (group_mcp_privileges t) (set_mcp t)).

(** The id the event names is looked up on its own, and a failure to find it
    is not an error; the delete finds it again. *)
Definition revokeMCPPrivilegeByName (s : AuthStore) (groupID : Z)
    (identifier : string) : tables * result unit :=
  privilege_change s auditActionPrivilegeMCPRevoke groupID (fun t =>
    let hit r :=
      if String.eqb identifier "*" then mcp_row groupID MCPPrivilegeIDWildcard r
      else match find_identifier t identifier with
           | None => false
           | Some p => mcp_row groupID (mcp_id p) r
           end in
    delete_rows s "revokeMCPPrivilegeByName" 0 groupID hit
      (group_mcp_privileges t) (set_mcp t)).

(** ** Lift guards *)

Record LiftGuard := { lg_all : bool; lg_allowed : gset Z }.

Definition AllowAllLifts : option LiftGuard :=
  Some {| lg_all := true; lg_allowed := ∅ |}.
Definition AllowLifts (connectionIDs : list Z) : option LiftGuard :=
  Some {| lg_all := false; lg_allowed := list_to_set connectionIDs |}.

(** [None] is the nil guard of the system and the CLI. *)
Definition lift_allows (g : option LiftGuard) (connectionID : Z) : bool :=
  match g with
  | None => true
  | Some g => lg_all g || bool_decide (connectionID ∈ lg_allowed g)
  end.

Definition on_connection (c : Z) (r : ConnectionPrivilege) : bool :=
  cp_connection r =? c.

Definition liftsConnectionRestriction (s : AuthStore) (t : tables)
    (groupID connectionID : Z) : result bool :=
  if connectionID =? ConnectionIDAll then Ok false
  else
    let! counts := ask s "liftsConnectionRestriction" 0 [groupID; connectionID]
      (let rows := filter (fun r => on_connection connectionID r = true)
                          (connection_privileges t) in
       (length rows,
        length (filter (fun r => cp_group r <> groupID) rows))) in
    Ok ((0 <? fst counts)%nat && (snd counts =? 0)%nat).

Definition guardLiftTx (s : AuthStore) (t : tables) (guard : option LiftGuard)
    (groupID connectionID : Z) : result unit :=
  if lift_allows guard connectionID then Ok tt
  else
    let! lifts := liftsConnectionRestriction s t groupID connectionID in
    if lifts then Err ErrRevokeLiftsRestriction else Ok tt.

(** ** Connection privileges *)

Definition conn_row (g c : Z) (r : ConnectionPrivilege) : bool :=
  (cp_group r =? g) && (cp_connection r =? c).

(** INSERT OR REPLACE: the group's row for the connection is replaced. *)
Definition grantConnectionPrivilege (s : AuthStore) (groupID connectionID : Z)
    (accessLevel : string) : tables * result unit :=
  privilege_change s auditActionPrivilegeConnectionGrant groupID (fun t =>
    if negb (String.eqb accessLevel AccessLevelRead) &&
       negb (String.eqb accessLevel AccessLevelReadWrite)
    then Err ErrInvalidAccessLevel
    else if negb (group_exists t groupID) then Err DBError
    else ask s "grantConnectionPrivilege" 0 [groupID; connectionID]
      (set_conns t
         (filter (fun r => conn_row groupID connectionID r = false)
                 (connection_privileges t) ++
          [{| cp_group := groupID; cp_connection := connectionID;
              cp_level := accessLevel |}]))).

Definition revokeConnectionPrivilege (s : AuthStore)
    (groupID connectionID : Z) (guard : option LiftGuard)
    : tables * result unit :=
  privilege_change s auditActionPrivilegeConnectionRevoke groupID (fun t =>
    let! _ := guardLiftTx s t guard groupID connectionID in
    delete_rows s "revokeConnectionPrivilege" 0 groupID
      (conn_row groupID connectionID) (connection_privileges t) (set_conns t)).

(** ** Admin permissions *)

(** The CHECK of group_admin_permissions (store.go). *)
Definition storedAdminPermissions : list string :=
  ["manage_connections"; "manage_groups"; "manage_permissions"; "manage_users";
   "manage_token_scopes"; "manage_blackouts"; "manage_probes";
   "manage_alert_rules"; "manage_notification_channels";
   "store_system_memory"; "*"]%string.

Definition admin_row (g : Z) (p : string) (r : AdminPermissionGrant) : bool :=
  (gap_group r =? g) && String.eqb (gap_permission r) p.

(** INSERT OR IGNORE skips a row that violates UNIQUE or CHECK, so a name the
    table does not know inserts nothing and is no error. *)
Definition grantAdminPermission (s : AuthStore) (groupID : Z)
    (permission : string) : tables * result unit :=
  let fn := "grantAdminPermission"%string in
  let all := String.eqb permission AdminPermissionWildcard in
  privilege_change s auditActionPermissionAdminGrant groupID (fun t =>
    let! _ := if all then ask s fn 0 [groupID] tt else Ok tt in
    let! t :=
      if negb (existsb (String.eqb permission) storedAdminPermissions) ||
         existsb (admin_row groupID permission) (group_admin_permissions t)
      then ask s fn 1 [groupID] t
      else if negb (group_exists t groupID) then Err DBError
      else ask s fn 1 [groupID]
        (set_admin t (group_admin_permissions t ++
           [{| gap_group := groupID; gap_permission := permission |}])) in
    if all then
      ask s fn 2 [groupID]
        (set_admin t (filter (fun r =>
           (gap_group r =? groupID) &&
           negb (String.eqb (gap_permission r) AdminPermissionWildcard) = false)
           (group_admin_permissions t)))
    else Ok t).

Definition revokeAdminPermission (s : AuthStore) (groupID : Z)
    (permission : string) : tables * result unit :=
  privilege_change s auditActionPermissionAdminRevoke groupID (fun t =>
    delete_rows s "revokeAdminPermission" 0 groupID
      (admin_row groupID permission) (group_admin_permissions t) (set_admin t)).

(** ** Deleting a group *)

Definition groupGrantConnectionIDsTx (s : AuthStore) (t : tables) (id : Z)
    : result (list Z) :=
  ask s "groupGrantConnectionIDsTx" 0 [id] (map fst (group_conn_rows t id)).

Fixpoint guard_lifts (s : AuthStore) (t : tables) (guard : option LiftGuard)
    (id : Z) (ids : list Z) : result unit :=
  match ids with
  | [] => Ok tt
  | connID :: ids =>
      let! _ := guardLiftTx s t guard id connID in
      guard_lifts s t guard id ids
  end.

Definition guardGroupLiftsTx (s : AuthStore) (t : tables)
    (guard : option LiftGuard) (id : Z) : result unit :=
  match guard with
  | None => Ok tt
  | Some g =>
      if lg_all g then Ok tt
      else
        let! ids := groupGrantConnectionIDsTx s t id in
        guard_lifts s t guard id ids
  end.

(** The snapshot of the group and of the rows that go with it, read for the
    event. *)
Definition groupDeleteBeforeTx (s : AuthStore) (t : tables) (id : Z)
    : result unit :=
  let fn := "groupDeleteBeforeTx"%string in
  let! found := ask s fn 0 [id] (group_exists t id) in
  if negb found then Err ErrGroupNotFound
  else
    let! _ := ask s fn 1 [id] tt in
    let! _ := ask s fn 2 [id] tt in
    let! _ := ask s fn 3 [id] tt in
    ask s fn 4 [id] tt.

Definition names_group (id : Z) (m : GroupMembership) : bool :=
  (ParentGroupID m =? id) || bool_decide (MemberGroupID m = Some id).

Definition deleteGroupDependentsTx (s : AuthStore) (t : tables) (id : Z)
    : result tables :=
  let fn := "deleteGroupDependentsTx"%string in
  let! t := ask s fn 0 [id]
    (set_grants t (user_group_rows t)
       (filter (fun m => names_group id m = false) (group_memberships t))
       (group_mcp_privileges t) (connection_privileges t)
       (group_admin_permissions t)) in
  let! t := ask s fn 1 [id]
    (set_mcp t (filter (fun r => (gmp_group r =? id) = false)
                       (group_mcp_privileges t))) in
  let! t := ask s fn 2 [id]
    (set_conns t (filter (fun r => (cp_group r =? id) = false)
                         (connection_privileges t))) in
  ask s fn 3 [id]
    (set_admin t (filter (fun r => (gap_group r =? id) = false)
                         (group_admin_permissions t))).

Definition deleteGroupRowTx (s : AuthStore) (t : tables) (id : Z)
    : result tables :=
  let! t' := ask s "deleteGroupRowTx" 0 [id]
    (set_grants t (filter (fun g => (group_id g =? id) = false) (user_group_rows t))
       (group_memberships t) (group_mcp_privileges t)
       (connection_privileges t) (group_admin_permissions t)) in
  if group_exists t id then Ok t' else Err ErrGroupNotFound.

Definition deleteGroup (s : AuthStore) (id : Z) (guard : option LiftGuard)
    : tables * result unit :=
  privilege_change s "group.delete" id (fun t =>
    let! _ := groupDeleteBeforeTx s t id in
    let! _ := guardGroupLiftsTx s t guard id in
    let! t := deleteGroupDependentsTx s t id in
    deleteGroupRowTx s t id).

(** ** Commits and rollbacks *)

(** A transaction commits what [apply] did, or changes no data. *)
Definition commits (s : AuthStore) (apply : tables -> result tables)
    (out : tables * result unit) : Prop :=
  (exists t, apply (db s) = Ok t /\ same_data (fst out) t) \/
  same_data (fst out) (db s).

Lemma privilege_change_commits s action g apply :
  commits s apply (privilege_change s action g apply).
Proof.
  unfold commits, privilege_change, recordAudit, ask.
  destruct (fault s action 0%nat []); [by right|]. simpl.
  destruct (apply (db s)) as [t|e]; simpl; [|right; apply failAudit_data].
  destruct (fault s action 100%nat []); simpl; [right; apply failAudit_data|].
  destruct (fault s action 1%nat []); simpl; [right; apply failAudit_data|].
  left. by exists t.
Qed.

Lemma membershipChange_commits s action g m apply :
  commits s apply (membershipChange s action g m apply).
Proof.
  destruct (membershipChange_cases s action g m apply)
    as [(t & Ht & ->)|(t & e & -> & Hd)]; [left|by right]. by exists t.
Qed.

Lemma ask_Ok {A} s fn n args (v w : A) : ask s fn n args v = Ok w -> w = v.
Proof. unfold ask. destruct (fault _ _ _ _); congruence. Qed.

Lemma delete_rows_Ok {A} s fn n g (hit : A -> bool) rows put t :
  delete_rows s fn n g hit rows put = Ok t ->
  t = put (filter (fun r => hit r = false) rows).
Proof.
  unfold delete_rows. intros (t' & ->%ask_Ok & H)%rbind_Ok.
  by destruct (existsb hit rows); [injection H as <-|].
Qed.

Lemma insert_group_mcp_Ok s fn t g p t' :
  insert_group_mcp s fn t g p = Ok t' ->
  t' = t \/ t' = set_mcp t (group_mcp_privileges t ++
                              [{| gmp_group := g; gmp_privilege := p |}]).
Proof.
  unfold insert_group_mcp. destruct (group_exists t g); [|done]. simpl.
  intros ->%ask_Ok. destruct (existsb _ _); auto.
Qed.

Lemma deleteGroupDependentsTx_Ok s t id t' :
  deleteGroupDependentsTx s t id = Ok t' ->
  t' = set_grants t (user_group_rows t)
         (filter (fun m => names_group id m = false) (group_memberships t))
         (filter (fun r => (gmp_group r =? id) = false) (group_mcp_privileges t))
         (filter (fun r => (cp_group r =? id) = false) (connection_privileges t))
         (filter (fun r => (gap_group r =? id) = false) (group_admin_permissions t)).
Proof.
  unfold deleteGroupDependentsTx.
  intros (t1 & ->%ask_Ok & (t2 & ->%ask_Ok & (t3 & ->%ask_Ok & H)%rbind_Ok)%rbind_Ok)%rbind_Ok.
  by apply ask_Ok in H as ->.
Qed.

Lemma deleteGroupRowTx_Ok s t id t' :
  deleteGroupRowTx s t id = Ok t' ->
  t' = set_grants t
         (filter (fun g => (group_id g =? id) = false) (user_group_rows t))
         (group_memberships t) (group_mcp_privileges t)
         (connection_privileges t) (group_admin_permissions t).
Proof.
  unfold deleteGroupRowTx. intros (t1 & ->%ask_Ok & H)%rbind_Ok.
  by destruct (group_exists t id); [injection H as <-|].
Qed.

(** ** Lifting a restriction *)

Lemma restricted_elem t c :
  restricted_by_group t c = true <->
  exists r, r ∈ connection_privileges t /\ cp_connection r = c.
Proof.
  unfold restricted_by_group. rewrite existsb_exists.
  setoid_rewrite <- list_elem_of_In. setoid_rewrite Z.eqb_eq. done.
Qed.

(** A guarded removal of a group's grants on [c] leaves a grant of another
    group, or the guard allows the lift. *)
Lemma guardLiftTx_Ok s t guard g c :
  guardLiftTx s t guard g c = Ok tt -> c <> ConnectionIDAll ->
  restricted_by_group t c = true ->
  lift_allows guard c = true \/
  exists r, r ∈ connection_privileges t /\ cp_connection r = c /\ cp_group r <> g.
Proof.
  unfold guardLiftTx. destruct (lift_allows guard c); [by left|].
  intros (lifts & Hl & H)%rbind_Ok Hc (r & Hr & Hrc)%restricted_elem.
  destruct lifts; [done|]. right. unfold liftsConnectionRestriction in Hl.
  rewrite (proj2 (Z.eqb_neq c ConnectionIDAll) Hc) in Hl.
  apply rbind_Ok in Hl as (counts & ->%ask_Ok & [= E]). cbn [fst snd] in E.
  set (rows := filter (fun r => on_connection c r = true) (connection_privileges t)) in *.
  assert (r ∈ rows) as Hin.
  { apply list_elem_of_filter. split; [|done]. unfold on_connection. lia. }
  destruct (filter (fun r => cp_group r <> g) rows) as [|r' rest] eqn:Hf.
  - simpl in E. destruct rows; [by apply elem_of_nil in Hin|done].
  - assert (r' ∈ filter (fun r => cp_group r <> g) rows) as Hr'
      by (rewrite Hf; apply list_elem_of_here).
    apply list_elem_of_filter in Hr' as [Hg Hr'].
    apply list_elem_of_filter in Hr' as [Hon Hr']. exists r'.
    split_and!; [done| |done]. unfold on_connection in Hon. lia.
Qed.

Lemma guard_lifts_Ok s t guard g ids c :
  guard_lifts s t guard g ids = Ok tt -> c ∈ ids ->
  guardLiftTx s t guard g c = Ok tt.
Proof.
  induction ids as [|id ids IH]; simpl; [by intros _ ?%elem_of_nil|].
  intros ([] & H1 & H2)%rbind_Ok [->|Hin]%elem_of_cons; auto.
Qed.

Lemma guardGroupLiftsTx_Ok s t guard g c :
  guardGroupLiftsTx s t guard g = Ok tt ->
  c ∈ map fst (group_conn_rows t g) -> guardLiftTx s t guard g c = Ok tt.
Proof.
  unfold guardGroupLiftsTx. destruct guard as [gd|]; [|done].
  destruct (lg_all gd) eqn:Ha.
  - intros _ _. unfold guardLiftTx, lift_allows. by rewrite Ha.
  - intros (ids & ->%ask_Ok & H)%rbind_Ok Hin. by eapply guard_lifts_Ok.
Qed.

Lemma revoke_apply_lift s t g c guard t' c' :
  (let! _ := guardLiftTx s t guard g c in
   delete_rows s "revokeConnectionPrivilege" 0 g (conn_row g c)
     (connection_privileges t) (set_conns t)) = Ok t' ->
  c' <> ConnectionIDAll -> restricted_by_group t c' = true ->
  restricted_by_group t' c' = false -> lift_allows guard c' = true.
Proof.
  intros ([] & Hg & ->%delete_rows_Ok)%rbind_Ok Hc' Hr Hno.
  apply not_true_iff_false in Hno. rewrite restricted_elem in Hno. simpl in Hno.
  setoid_rewrite list_elem_of_filter in Hno.
  destruct (decide (c = c')) as [->|Hne].
  - destruct (guardLiftTx_Ok s t guard g c' Hg Hc' Hr) as [?|(r & Hin & Hrc & Hrg)]; [done|].
    exfalso. apply Hno. exists r. split_and!; try done. unfold conn_row. lia.
  - apply restricted_elem in Hr as (r & Hin & Hrc). exfalso. apply Hno. exists r.
    split_and!; try done. unfold conn_row. lia.
Qed.

Lemma delete_apply_lift s t id guard t' c' :
  (let! _ := groupDeleteBeforeTx s t id in
   let! _ := guardGroupLiftsTx s t guard id in
   let! t := deleteGroupDependentsTx s t id in
   deleteGroupRowTx s t id) = Ok t' ->
  c' <> ConnectionIDAll -> restricted_by_group t c' = true ->
  restricted_by_group t' c' = false -> lift_allows guard c' = true.
Proof.
  intros ([] & _ & ([] & Hg & (t1 & Hd & Hrow)%rbind_Ok)%rbind_Ok)%rbind_Ok Hc' Hr Hno.
  apply deleteGroupDependentsTx_Ok in Hd as ->.
  apply deleteGroupRowTx_Ok in Hrow as ->.
  apply not_true_iff_false in Hno. rewrite restricted_elem in Hno. simpl in Hno.
  setoid_rewrite list_elem_of_filter in Hno.
  assert (guardLiftTx s t guard id c' = Ok tt) as Hgl.
  { apply guardGroupLiftsTx_Ok; [done|]. apply restricted_elem in Hr as (r & Hin & Hrc).
    destruct (Z.eqb_spec (cp_group r) id) as [Hid|Hid].
    - apply list_elem_of_fmap. exists (c', cp_level r). split; [done|].
      unfold group_conn_rows. apply list_elem_of_omap. exists r. split; [done|].
      by rewrite Hid, Z.eqb_refl, Hrc.
    - exfalso. apply Hno. exists r. split_and!; try done. lia. }
  destruct (guardLiftTx_Ok s t guard id c' Hgl Hc' Hr) as [?|(r & Hin & Hrc & Hrg)]; [done|].
  exfalso. apply Hno. exists r. split_and!; try done. lia.
Qed.

Lemma commits_lift s apply out c :
  commits s apply out -> restricted_by_group (db s) c = true ->
  restricted_by_group (fst out) c = false ->
  exists t, apply (db s) = Ok t /\ restricted_by_group t c = false.
Proof.
  assert (forall t t', same_data t t' ->
    restricted_by_group t c = restricted_by_group t' c) as Hsame.
  { intros t t' (_ & _ & _ & _ & _ & _ & E & _). unfold restricted_by_group. by rewrite E. }
  intros [(t & Ht & Hd)|Hd] Hr Hno; rewrite (Hsame _ _ Hd) in Hno; [eauto|congruence].
Qed.

Lemma revokeConnection_lift s g c guard c' :
  c' <> ConnectionIDAll -> restricted_by_group (db s) c' = true ->
  restricted_by_group (fst (revokeConnectionPrivilege s g c guard)) c' = false ->
  lift_allows guard c' = true.
Proof.
  intros Hc Hr Hno.
  edestruct commits_lift as (t & Ht & Ht'); [apply privilege_change_commits|exact Hr|exact Hno|].
  by apply (revoke_apply_lift s (db s) g c guard t).
Qed.

Lemma deleteGroup_lift s g guard c' :
  c' <> ConnectionIDAll -> restricted_by_group (db s) c' = true ->
  restricted_by_group (fst (deleteGroup s g guard)) c' = false ->
  lift_allows guard c' = true.
Proof.
  intros Hc Hr Hno.
  edestruct commits_lift as (t & Ht & Ht'); [apply privilege_change_commits|exact Hr|exact Hno|].
  by apply (delete_apply_lift s (db s) g guard t).
Qed.
