(* ===== verification/Access.v ===== *)
(** * Access checks (server/src/internal/auth/access.go)

    [RBACChecker] decides what a caller may reach: connections, MCP items,
    admin permissions, and the connections it is shown. *)
From stdpp Require Import base list strings gmap sets.
From S2P Require Import Prelude AuthStore.

Local Open Scope Z_scope.
Local Open Scope res_scope.

(** ** The checker *)

(** [ConnectionSharingLookupFunc], answered by the datastore: the sharing
    flag and the owner, or an error, for a connection that does not exist
    among others. *)
Definition SharingLookup := Z -> result (bool * string).

(** [RBACChecker]; [None] for the checker is a nil pointer, [None] for the
    store a checker without one. *)
Record RBACChecker := {
  authStore : option AuthStore;
  connSharingLookupFn : option SharingLookup;
}.

Definition NewRBACChecker (store : option AuthStore) : RBACChecker :=
  {| authStore := store; connSharingLookupFn := None |}.

Definition SetConnectionSharingLookup (rc : option RBACChecker)
    (fn : SharingLookup) : option RBACChecker :=
  match rc with
  | None => None
  | Some rc => Some {| authStore := authStore rc;
                       connSharingLookupFn := Some fn |}
  end.

Definition NewRBACCheckerWithSharing (store : option AuthStore)
    (sharingLookup : option SharingLookup) : option RBACChecker :=
  let checker := Some (NewRBACChecker store) in
  match sharingLookup with
  | None => checker
  | Some fn => SetConnectionSharingLookup checker fn
  end.

(** The store of a checker that has one; [None] is the case every check
    denies. *)
Definition store_of (rc : option RBACChecker) : option AuthStore :=
  match rc with None => None | Some rc => authStore rc end.
Definition lookup_of (rc : option RBACChecker) : option SharingLookup :=
  match rc with None => None | Some rc => connSharingLookupFn rc end.

Definition tokenContextIncomplete (ctx : Context) : bool :=
  ctx_isAPIToken ctx && (ctx_tokenID ctx <=? 0).

(** ** Superuser *)

Definition tokenCarriesSuperuser (s : AuthStore) (ctx : Context) : bool :=
  if tokenContextIncomplete ctx then false
  else if ctx_tokenID ctx <=? 0 then true
  else match GetTokenAdminScope s (ctx_tokenID ctx) with
       | Err _ => false
       | Ok scope =>
           if is_nil scope then true
           else existsb (String.eqb AdminPermissionWildcard) scope
       end.

Definition IsSuperuser (rc : option RBACChecker) (ctx : Context) : bool :=
  if negb (ctx_isSuperuser ctx) then false
  else match store_of rc with
       | None => false
       | Some s => tokenCarriesSuperuser s ctx
       end.

(** ** Levels *)

Definition knownAccessLevel (level : string) : bool :=
  String.eqb level AccessLevelNone || String.eqb level AccessLevelRead ||
  String.eqb level AccessLevelReadWrite.

Definition applyTokenCeiling (tokenLevel userLevel : string) : string :=
  if String.eqb tokenLevel AccessLevelRead || String.eqb userLevel AccessLevelRead
  then AccessLevelRead
  else if negb (knownAccessLevel tokenLevel) || negb (knownAccessLevel userLevel)
  then AccessLevelRead
  else userLevel.

(** [None] is the second result [false]. *)
Definition resolveConnectionAccess (privs : gmap Z string) (connID : Z)
    : option string :=
  match privs !! connID, privs !! ConnectionIDAll with
  | None, None => None
  | None, Some wildcardLevel => Some wildcardLevel
  | Some specificLevel, None => Some specificLevel
  | Some specificLevel, Some wildcardLevel =>
      if String.eqb wildcardLevel AccessLevelReadWrite
      then Some AccessLevelReadWrite else Some specificLevel
  end.

Record connectionAccessFacts := {
  owned : bool; shared : bool; restricted : bool;
}.

Definition connectionAccessRule (facts : connectionAccessFacts)
    (privs : gmap Z string) (connectionID : Z) : option string :=
  if owned facts then Some AccessLevelReadWrite
  else if shared facts && negb (restricted facts) then
    Some AccessLevelReadWrite
  else resolveConnectionAccess privs connectionID.

(** ** Connections *)

(** A denial is [(false, AccessLevelNone)]. *)
Definition denied : bool * string := (false, AccessLevelNone).

Definition applyConnectionTokenScope (s : AuthStore) (ctx : Context)
    (connectionID : Z) (level : string) : bool * string :=
  let tokenID := ctx_tokenID ctx in
  if tokenID <=? 0 then (true, level)
  else match IsConnectionInTokenScope s tokenID connectionID with
       | Err _ => denied
       | Ok (inScope, scopeLevel) =>
           if negb inScope then denied
           else (true, applyTokenCeiling scopeLevel level)
       end.

Definition owns (ctx : Context) (ownerUsername : string) : bool :=
  negb (String.eqb (ctx_username ctx) "") &&
  String.eqb ownerUsername (ctx_username ctx).

(** The group privileges [CanAccessConnection] reads: none without a user. *)
Definition caller_conns (s : AuthStore) (ctx : Context)
    : result (gmap Z string) :=
  if ctx_userID ctx =? 0 then Ok ∅
  else GetUserConnectionPrivileges s (ctx_userID ctx).

Definition connection_facts (lookup : option SharingLookup) (ctx : Context)
    (connectionID : Z) (isRestricted : bool)
    : result connectionAccessFacts :=
  match lookup with
  | None => Ok {| owned := false; shared := true; restricted := isRestricted |}
  | Some fn =>
      let! info := fn connectionID in
      Ok {| owned := owns ctx (snd info); shared := fst info;
            restricted := isRestricted |}
  end.

Definition CanAccessConnection (rc : option RBACChecker) (ctx : Context)
    (connectionID : Z) : bool * string :=
  match store_of rc with
  | None => denied
  | Some s =>
      if tokenContextIncomplete ctx then denied
      else if ctx_isSuperuser ctx then
        match lookup_of rc with
        | Some fn =>
            match fn connectionID with
            | Err _ => denied
            | Ok _ => applyConnectionTokenScope s ctx connectionID
                        AccessLevelReadWrite
            end
        | None => applyConnectionTokenScope s ctx connectionID
                    AccessLevelReadWrite
        end
      else
        match IsConnectionAssignedToAnyGroup s connectionID with
        | Err _ => denied
        | Ok isRestricted =>
            match caller_conns s ctx with
            | Err _ => denied
            | Ok privileges =>
                match connection_facts (lookup_of rc) ctx connectionID
                        isRestricted with
                | Err _ => denied
                | Ok facts =>
                    match connectionAccessRule facts privileges connectionID with
                    | None => denied
                    | Some accessLevel =>
                        applyConnectionTokenScope s ctx connectionID accessLevel
                    end
                end
            end
        end
  end.

Definition HasWriteAccess (rc : option RBACChecker) (ctx : Context)
    (connectionID : Z) : bool :=
  let '(canAccess, accessLevel) := CanAccessConnection rc ctx connectionID in
  canAccess && String.eqb accessLevel AccessLevelReadWrite.

Definition ConnectionInTokenScope (rc : option RBACChecker) (ctx : Context)
    (connectionID : Z) : bool :=
  match store_of rc with
  | None => false
  | Some s =>
      if tokenContextIncomplete ctx then false
      else let '(inScope, level) := applyConnectionTokenScope s ctx connectionID
                                      AccessLevelReadWrite in
           inScope && String.eqb level AccessLevelReadWrite
  end.

Definition AllConnectionsInTokenScope (rc : option RBACChecker)
    (ctx : Context) : bool :=
  ConnectionInTokenScope rc ctx ConnectionIDAll.

(** ** MCP items and admin permissions *)

(** The scope test that ends each branch: the item is in the token's scope,
    or there is no token. *)
Definition mcp_scope_allows (s : AuthStore) (ctx : Context)
    (identifier : string) : bool :=
  if 0 <? ctx_tokenID ctx then
    match IsMCPItemInTokenScope s (ctx_tokenID ctx) identifier with
    | Err _ => false
    | Ok inScope => inScope
    end
  else true.

Definition CanAccessMCPItem (rc : option RBACChecker) (ctx : Context)
    (identifier : string) : bool :=
  match store_of rc with
  | None => false
  | Some s =>
      if tokenContextIncomplete ctx then false
      else if ctx_isSuperuser ctx then mcp_scope_allows s ctx identifier
      else
        match IsPrivilegePublic s identifier with
        | Err _ => false
        | Ok (isPublic, isRegistered) =>
            if negb isRegistered then false
            else if isPublic then mcp_scope_allows s ctx identifier
            else if ctx_userID ctx =? 0 then false
            else
              match GetUserMCPPrivileges s (ctx_userID ctx) with
              | Err _ => false
              | Ok privileges =>
                  if bool_decide (identifier ∉ privileges) &&
                     bool_decide ("*"%string ∉ privileges) then false
                  else mcp_scope_allows s ctx identifier
              end
        end
  end.

Definition admin_scope_allows (s : AuthStore) (ctx : Context)
    (permission : string) : bool :=
  if ctx_tokenID ctx <=? 0 then true
  else match IsAdminPermissionInTokenScope s (ctx_tokenID ctx) permission with
       | Err _ => false
       | Ok inScope => inScope
       end.

Definition HasAdminPermission (rc : option RBACChecker) (ctx : Context)
    (permission : string) : bool :=
  match store_of rc with
  | None => false
  | Some s =>
      if tokenContextIncomplete ctx then false
      else if ctx_isSuperuser ctx then admin_scope_allows s ctx permission
      else if ctx_userID ctx =? 0 then false
      else
        match GetUserAdminPermissions s (ctx_userID ctx) with
        | Err _ => false
        | Ok perms =>
            if bool_decide (permission ∉ perms) &&
               bool_decide (AdminPermissionWildcard ∉ perms) then false
            else admin_scope_allows s ctx permission
        end
  end.

(** ** Effective privileges *)

Record EffectivePrivileges := {
  ep_TokenScopeError : option auth_error;
  ep_IsSuperuser : bool;
  ep_MCP : gset string;
  ep_Connections : gmap Z string;
  ep_Admin : gset string;
  ep_TokenScope : option TokenScope;
}.

Definition no_privileges : EffectivePrivileges :=
  {| ep_TokenScopeError := None; ep_IsSuperuser := false; ep_MCP := ∅;
     ep_Connections := ∅; ep_Admin := ∅; ep_TokenScope := None |}.

Definition scopeHasConnectionWildcard (scope : TokenScope) : bool :=
  existsb (fun sc => ConnectionID sc =? ConnectionIDAll) (Connections scope).
Definition scopeHasMCPWildcard (scope : TokenScope) : bool :=
  existsb (Z.eqb MCPPrivilegeIDWildcard) (MCPPrivileges scope).
Definition scopeHasAdminWildcard (scope : TokenScope) : bool :=
  existsb (String.eqb AdminPermissionWildcard) (AdminPermissions scope).

(** The identifiers scoped privilege ids resolve to; an id that does not
    resolve, or whose lookup fails, is left out. *)
Definition resolve_mcp (s : AuthStore) (ids : list Z) : list string :=
  omap (fun id => match GetMCPPrivilegeByID s id with
                  | Ok (Some p) => Some (Identifier p)
                  | _ => None
                  end) ids.

Definition insert_scoped (m : gmap Z string) (sc : ScopedConnection)
    : gmap Z string :=
  <[ConnectionID sc := AccessLevel sc]> m.

Definition applyScopedConnections (scope : TokenScope) (m : gmap Z string)
    : gmap Z string :=
  let conns := Connections scope in
  if is_nil conns ||
     (scopeHasConnectionWildcard scope && (length conns =? 1)%nat) then m
  else foldl insert_scoped m conns.

Definition applyScopedMCPPrivileges (s : AuthStore) (scope : TokenScope)
    (m : gset string) : gset string :=
  if is_nil (MCPPrivileges scope) || scopeHasMCPWildcard scope then m
  else m ∪ list_to_set (resolve_mcp s (MCPPrivileges scope)).

Definition applyScopedAdminPermissions (scope : TokenScope) (m : gset string)
    : gset string :=
  if is_nil (AdminPermissions scope) || scopeHasAdminWildcard scope then m
  else m ∪ list_to_set (AdminPermissions scope).

Definition applySuperuserTokenScope (s : AuthStore) (ctx : Context)
    (result : EffectivePrivileges) : EffectivePrivileges :=
  if ctx_tokenID ctx <=? 0 then result
  else match GetTokenScope s (ctx_tokenID ctx) with
       | Err e =>
           {| ep_TokenScopeError := Some e; ep_IsSuperuser := false;
              ep_MCP := ep_MCP result;
              ep_Connections := ep_Connections result;
              ep_Admin := ep_Admin result;
              ep_TokenScope := ep_TokenScope result |}
       | Ok None => result
       | Ok (Some scope) =>
           {| ep_TokenScopeError := ep_TokenScopeError result;
              ep_IsSuperuser := ep_IsSuperuser result;
              ep_MCP := applyScopedMCPPrivileges s scope (ep_MCP result);
              ep_Connections :=
                applyScopedConnections scope (ep_Connections result);
              ep_Admin := applyScopedAdminPermissions scope (ep_Admin result);
              ep_TokenScope := Some scope |}
       end.

(** The entry of one scoped connection in a user's narrowed privileges. *)
Definition narrow_entry (privs : gmap Z string) (m : gmap Z string)
    (sc : ScopedConnection) : gmap Z string :=
  match resolveConnectionAccess privs (ConnectionID sc) with
  | None => m
  | Some userLevel =>
      <[ConnectionID sc := applyTokenCeiling (AccessLevel sc) userLevel]> m
  end.

(** [applyWildcardConnectionScope]; [owned] of the source is [privs]. *)
Definition applyWildcardConnectionScope (scope : TokenScope)
    (wildcardLevel : string) (privs : gmap Z string) : gmap Z string :=
  foldl (fun m sc => if ConnectionID sc =? ConnectionIDAll then m
                     else narrow_entry privs m sc)
        (applyTokenCeiling wildcardLevel <$> privs) (Connections scope).

(** The level of the first "all connections" entry. *)
Definition wildcard_level (conns : list ScopedConnection) : string :=
  match filter (fun sc => ConnectionID sc = ConnectionIDAll) conns with
  | [] => AccessLevelNone
  | sc :: _ => AccessLevel sc
  end.

Definition scope_connections_of (scope : TokenScope) (privs : gmap Z string)
    : gmap Z string :=
  if is_nil (Connections scope) then privs
  else if scopeHasConnectionWildcard scope then
    applyWildcardConnectionScope scope (wildcard_level (Connections scope)) privs
  else foldl (narrow_entry privs) ∅ (Connections scope).

Definition scope_mcp_of (s : AuthStore) (scope : TokenScope)
    (privs : gset string) : gset string :=
  if is_nil (MCPPrivileges scope) || scopeHasMCPWildcard scope then privs
  else list_to_set (filter (fun i => i ∈ privs \/ "*"%string ∈ privs)
                           (resolve_mcp s (MCPPrivileges scope))).

Definition scope_admin_of (scope : TokenScope) (perms : gset string)
    : gset string :=
  if is_nil (AdminPermissions scope) || scopeHasAdminWildcard scope then perms
  else list_to_set (filter (fun p => p ∈ perms \/ AdminPermissionWildcard ∈ perms)
                           (AdminPermissions scope)).

(** A read that failed leaves the empty map in place. *)
Definition or_empty {A} `{Empty A} (m : result A) : A :=
  match m with Ok v => v | Err _ => ∅ end.

Definition GetEffectivePrivileges (rc : option RBACChecker) (ctx : Context)
    : EffectivePrivileges :=
  match store_of rc with
  | None => no_privileges
  | Some s =>
      if tokenContextIncomplete ctx then no_privileges
      else if ctx_isSuperuser ctx then
        applySuperuserTokenScope s ctx
          {| ep_TokenScopeError := None; ep_IsSuperuser := IsSuperuser rc ctx;
             ep_MCP := ∅; ep_Connections := ∅; ep_Admin := ∅;
             ep_TokenScope := None |}
      else
        let userID := ctx_userID ctx in
        if userID =? 0 then no_privileges
        else
          let mcpPrivs := or_empty (GetUserMCPPrivileges s userID) in
          let connPrivs := or_empty (GetUserConnectionPrivileges s userID) in
          let adminPerms := or_empty (GetUserAdminPermissions s userID) in
          let unscoped error scope :=
            {| ep_TokenScopeError := error; ep_IsSuperuser := false;
               ep_MCP := mcpPrivs; ep_Connections := connPrivs;
               ep_Admin := adminPerms; ep_TokenScope := scope |} in
          if 0 <? ctx_tokenID ctx then
            match GetTokenScope s (ctx_tokenID ctx) with
            | Err e => unscoped (Some e) None
            | Ok None => unscoped None None
            | Ok (Some scope) =>
                {| ep_TokenScopeError := None; ep_IsSuperuser := false;
                   ep_MCP := scope_mcp_of s scope mcpPrivs;
                   ep_Connections := scope_connections_of scope connPrivs;
                   ep_Admin := scope_admin_of scope adminPerms;
                   ep_TokenScope := Some scope |}
            end
          else unscoped None None
  end.

(** ** Visible connections *)

Record ConnectionVisibilityInfo := {
  info_ID : Z; info_IsShared : bool; info_OwnerUsername : string;
}.

(** [ConnectionVisibilityLister]: nil, or a call that may fail. *)
Definition VisibilityLister := option (result (list ConnectionVisibilityInfo)).

Definition superuserVisibleConnectionIDs (s : AuthStore) (ctx : Context)
    : result (list Z * bool) :=
  if ctx_tokenID ctx <=? 0 then Ok ([], true)
  else
    let! scope := GetTokenScope s (ctx_tokenID ctx) in
    match scope with
    | None => Ok ([], true)
    | Some scope =>
        if is_nil (Connections scope) || scopeHasConnectionWildcard scope
        then Ok ([], true)
        else Ok (map ConnectionID (Connections scope), false)
    end.

(** The connections the lister adds to [seen]. *)
Definition add_listed (ctx : Context) (restrictedIDs : gset Z)
    (privs : gmap Z string) (seen : gset Z) (info : ConnectionVisibilityInfo)
    : gset Z :=
  let facts := {| owned := owns ctx (info_OwnerUsername info);
                  shared := info_IsShared info;
                  restricted := bool_decide (info_ID info ∈ restrictedIDs) |} in
  match connectionAccessRule facts privs (info_ID info) with
  | None => seen
  | Some _ => {[info_ID info]} ∪ seen
  end.

Definition VisibleConnectionIDs (rc : option RBACChecker) (ctx : Context)
    (lister : VisibilityLister) : result (list Z * bool) :=
  match store_of rc with
  | None => Ok ([], false)
  | Some s =>
      if tokenContextIncomplete ctx then Ok ([], false)
      else if ctx_isSuperuser ctx then superuserVisibleConnectionIDs s ctx
      else
        let privs := GetEffectivePrivileges rc ctx in
        match (if 0 <? ctx_tokenID ctx then ep_TokenScopeError privs else None)
        with
        | Some e => Err e
        | None =>
            if bool_decide (is_Some (ep_Connections privs !! ConnectionIDAll))
            then Ok ([], true)
            else
              let! seen :=
                match lister with
                | None => Ok (dom (ep_Connections privs))
                | Some listing =>
                    let! all := listing in
                    let! restrictedIDs := RestrictedConnectionIDs s in
                    Ok (foldl (add_listed ctx restrictedIDs (ep_Connections privs))
                              (dom (ep_Connections privs)) all)
                end in
              let visible :=
                match ep_TokenScope privs with
                | Some ts =>
                    if 0 <? ctx_tokenID ctx
                    then filter (fun c => InScope ts c = true) seen else seen
                | None => seen
                end in
              Ok (elements (visible : gset Z), false)
        end
  end.

(** ** What the checks decide

    Each check, as a function of the tables when no query fails. *)

(** [decides s bot d v]: [d] is [v], or, when a query failed, the refusal
    [bot]. *)
Definition decides {A} (s : AuthStore) (bot d v : A) : Prop :=
  (d = v \/ d = bot) /\ (fault_free s -> d = v).

Lemma decides_refl {A} s (bot v : A) : decides s bot v v.
Proof. split; auto. Qed.

Lemma decides_read {A B} s (bot : B) (m : result A) v (k : A -> B) w :
  reads s m v -> decides s bot (k v) w ->
  decides s bot (match m with Ok x => k x | Err _ => bot end) w.
Proof.
  intros [[->|[e ->]] Hm] Hk; [done|]. split; [by right|].
  intros Hf. specialize (Hm Hf). congruence.
Qed.

(** Reading a scope: an unknown token refuses whatever the reads give. *)
Lemma decides_missing {A B} s (bot : B) (m : result A) (k : A -> B) :
  (exists e, m = Err e) ->
  decides s bot (match m with Ok x => k x | Err _ => bot end) bot.
Proof. intros [e ->]. apply decides_refl. Qed.

(** The level a token leaves of [level], [None] for a refusal. *)
Definition token_cap (t : tables) (ctx : Context) (c : Z) (level : string)
    : option string :=
  if ctx_tokenID ctx <=? 0 then Some level
  else if token_exists t (ctx_tokenID ctx) then
    match conn_scope t (ctx_tokenID ctx) c with
    | Some l => Some (applyTokenCeiling l level)
    | None => None
    end
  else None.

(** The level the caller's own rights give, before any token scope. *)
Definition owner_level (t : tables) (lookup : option SharingLookup)
    (ctx : Context) (c : Z) : option string :=
  if ctx_isSuperuser ctx then
    match lookup with
    | Some fn => if is_ok (fn c) then Some AccessLevelReadWrite else None
    | None => Some AccessLevelReadWrite
    end
  else
    match connection_facts lookup ctx c (restricted_by_group t c) with
    | Err _ => None
    | Ok facts =>
        connectionAccessRule facts
          (if ctx_userID ctx =? 0 then ∅ else user_conns t (ctx_userID ctx)) c
    end.

Definition access_level (t : tables) (lookup : option SharingLookup)
    (ctx : Context) (c : Z) : option string :=
  if tokenContextIncomplete ctx then None
  else match owner_level t lookup ctx c with
       | None => None
       | Some l => token_cap t ctx c l
       end.

Definition as_answer (l : option string) : bool * string :=
  match l with Some l => (true, l) | None => denied end.

Lemma applyConnectionTokenScope_decides s ctx c level :
  decides s denied (applyConnectionTokenScope s ctx c level)
    (as_answer (token_cap (db s) ctx c level)).
Proof.
  unfold applyConnectionTokenScope, token_cap.
  destruct (ctx_tokenID ctx <=? 0); [apply decides_refl|].
  destruct (token_exists (db s) (ctx_tokenID ctx)) eqn:Ht.
  - assert (forall m : result (bool * string),
      match m with
      | Ok (inScope, scopeLevel) =>
          if negb inScope then denied else (true, applyTokenCeiling scopeLevel level)
      | Err _ => denied
      end = match m with
            | Ok x => (fun x : bool * string => if negb (fst x) then denied
                else (true, applyTokenCeiling (snd x) level)) x
            | Err _ => denied
            end) as Heq by (intros [[]|]; done).
    rewrite Heq. eapply decides_read; [by apply reads_conn_scope|].
    destruct (conn_scope (db s) (ctx_tokenID ctx) c); apply decides_refl.
  - destruct (scope_reads_missing s (ctx_tokenID ctx) Ht) as (Hc & _).
    destruct (Hc c) as [e ->]. apply decides_refl.
Qed.

Lemma reads_caller_conns s ctx :
  reads s (caller_conns s ctx)
    (if ctx_userID ctx =? 0 then ∅ else user_conns (db s) (ctx_userID ctx)).
Proof.
  unfold caller_conns. destruct (ctx_userID ctx =? 0);
    [apply reads_ret|apply reads_conns].
Qed.

Lemma CanAccessConnection_decides rc s ctx c :
  store_of rc = Some s ->
  decides s denied (CanAccessConnection rc ctx c)
    (as_answer (access_level (db s) (lookup_of rc) ctx c)).
Proof.
  intros Hs. unfold CanAccessConnection, access_level, owner_level. rewrite Hs.
  destruct (tokenContextIncomplete ctx); [apply decides_refl|].
  destruct (ctx_isSuperuser ctx).
  { destruct (lookup_of rc) as [fn|];
      [destruct (fn c); [|apply decides_refl]|];
      apply applyConnectionTokenScope_decides. }
  eapply (decides_read s denied); [apply reads_ask|].
  eapply (decides_read s denied); [apply reads_caller_conns|].
  change (existsb _ _) with (restricted_by_group (db s) c).
  destruct (connection_facts _ _ _ _); [|apply decides_refl].
  destruct (connectionAccessRule _ _ _); [|apply decides_refl].
  apply applyConnectionTokenScope_decides.
Qed.

(** The rights of a caller over an MCP item and an admin permission. *)
Definition mcp_allowed (t : tables) (ctx : Context) (identifier : string)
    : bool :=
  let scoped := if 0 <? ctx_tokenID ctx
                then token_exists t (ctx_tokenID ctx) &&
                     mcp_in_scope t (ctx_tokenID ctx) identifier
                else true in
  if tokenContextIncomplete ctx then false
  else if ctx_isSuperuser ctx then scoped
  else match find_identifier t identifier with
       | None => false
       | Some p =>
           (IsPublic p ||
            (negb (ctx_userID ctx =? 0) &&
             (bool_decide (identifier ∈ user_mcp t (ctx_userID ctx)) ||
              bool_decide ("*"%string ∈ user_mcp t (ctx_userID ctx))))) &&
           scoped
       end.

Definition admin_allowed (t : tables) (ctx : Context) (permission : string)
    : bool :=
  let scoped := if ctx_tokenID ctx <=? 0 then true
                else token_exists t (ctx_tokenID ctx) &&
                     admin_in_scope t (ctx_tokenID ctx) permission in
  if tokenContextIncomplete ctx then false
  else if ctx_isSuperuser ctx then scoped
  else negb (ctx_userID ctx =? 0) &&
       (bool_decide (permission ∈ user_admin t (ctx_userID ctx)) ||
        bool_decide (AdminPermissionWildcard ∈ user_admin t (ctx_userID ctx))) &&
       scoped.

Lemma mcp_scope_decides s ctx i :
  decides s false (mcp_scope_allows s ctx i)
    (if 0 <? ctx_tokenID ctx
     then token_exists (db s) (ctx_tokenID ctx) &&
          mcp_in_scope (db s) (ctx_tokenID ctx) i else true).
Proof.
  unfold mcp_scope_allows. destruct (0 <? ctx_tokenID ctx); [|apply decides_refl].
  destruct (token_exists (db s) (ctx_tokenID ctx)) eqn:Ht; simpl.
  - eapply (decides_read s false _ _ id); [by apply reads_mcp_scope|apply decides_refl].
  - destruct (scope_reads_missing s (ctx_tokenID ctx) Ht) as (_ & Hm & _).
    destruct (Hm i) as [e ->]. apply decides_refl.
Qed.

Lemma admin_scope_decides s ctx p :
  decides s false (admin_scope_allows s ctx p)
    (if ctx_tokenID ctx <=? 0 then true
     else token_exists (db s) (ctx_tokenID ctx) &&
          admin_in_scope (db s) (ctx_tokenID ctx) p).
Proof.
  unfold admin_scope_allows. destruct (ctx_tokenID ctx <=? 0); [apply decides_refl|].
  destruct (token_exists (db s) (ctx_tokenID ctx)) eqn:Ht; simpl.
  - eapply (decides_read s false _ _ id); [by apply reads_admin_scope|apply decides_refl].
  - destruct (scope_reads_missing s (ctx_tokenID ctx) Ht) as (_ & _ & Hm & _).
    destruct (Hm p) as [e ->]. apply decides_refl.
Qed.

Lemma not_in_either {A} `{Countable A} (x y : A) (X : gset A) :
  bool_decide (x ∉ X) && bool_decide (y ∉ X) =
  negb (bool_decide (x ∈ X) || bool_decide (y ∈ X)).
Proof. rewrite !bool_decide_not. by rewrite negb_orb. Qed.

Lemma CanAccessMCPItem_decides rc s ctx i :
  store_of rc = Some s ->
  decides s false (CanAccessMCPItem rc ctx i) (mcp_allowed (db s) ctx i).
Proof.
  intros Hs. unfold CanAccessMCPItem, mcp_allowed. rewrite Hs.
  destruct (tokenContextIncomplete ctx); [apply decides_refl|].
  destruct (ctx_isSuperuser ctx); [apply mcp_scope_decides|].
  pose proof (mcp_scope_decides s ctx i) as Hscope.
  unfold IsPrivilegePublic, ask. destruct (fault _ _ _ _) eqn:Hfl.
  { split; [by right|]. intros Hf. congruence. }
  destruct (find_identifier (db s) i) as [p|]; simpl; [|apply decides_refl].
  destruct (IsPublic p); simpl; [done|].
  destruct (ctx_userID ctx =? 0); simpl; [apply decides_refl|].
  eapply (decides_read s false); [apply reads_mcp|]. rewrite not_in_either.
  destruct (_ || _); simpl; [done|apply decides_refl].
Qed.

Lemma HasAdminPermission_decides rc s ctx p :
  store_of rc = Some s ->
  decides s false (HasAdminPermission rc ctx p) (admin_allowed (db s) ctx p).
Proof.
  intros Hs. unfold HasAdminPermission, admin_allowed. rewrite Hs.
  destruct (tokenContextIncomplete ctx); [apply decides_refl|].
  destruct (ctx_isSuperuser ctx); [apply admin_scope_decides|].
  destruct (ctx_userID ctx =? 0); [apply decides_refl|].
  eapply (decides_read s false); [apply reads_admin|]. rewrite not_in_either.
  pose proof (admin_scope_decides s ctx p).
  destruct (_ || _); [done|apply decides_refl].
Qed.

(** ** Failing closed *)

(** The same checker on the same tables, with no query failing. *)
Definition healthy_store (s : AuthStore) : AuthStore :=
  {| db := db s; fault := fun _ _ _ => false |}.

Definition healthy (rc : option RBACChecker) : option RBACChecker :=
  match rc with
  | None => None
  | Some rc => Some {| authStore := healthy_store <$> authStore rc;
                       connSharingLookupFn := connSharingLookupFn rc |}
  end.

Lemma healthy_fault_free s : fault_free (healthy_store s).
Proof. done. Qed.

Lemma store_of_healthy rc : store_of (healthy rc) = healthy_store <$> store_of rc.
Proof. by destruct rc. Qed.
Lemma lookup_of_healthy rc : lookup_of (healthy rc) = lookup_of rc.
Proof. by destruct rc. Qed.

Lemma CanAccessConnection_healthy rc s ctx c :
  store_of rc = Some s ->
  CanAccessConnection (healthy rc) ctx c =
    as_answer (access_level (db s) (lookup_of rc) ctx c).
Proof.
  intros Hs.
  pose proof (CanAccessConnection_decides (healthy rc) (healthy_store s) ctx c)
    as H. rewrite store_of_healthy, Hs in H.
  destruct (H eq_refl) as [_ Hd]. rewrite lookup_of_healthy in Hd. by apply Hd.
Qed.

Lemma CanAccessMCPItem_healthy rc s ctx i :
  store_of rc = Some s ->
  CanAccessMCPItem (healthy rc) ctx i = mcp_allowed (db s) ctx i.
Proof.
  intros Hs.
  pose proof (CanAccessMCPItem_decides (healthy rc) (healthy_store s) ctx i) as H.
  rewrite store_of_healthy, Hs in H. by apply (H eq_refl).
Qed.

Lemma HasAdminPermission_healthy rc s ctx p :
  store_of rc = Some s ->
  HasAdminPermission (healthy rc) ctx p = admin_allowed (db s) ctx p.
Proof.
  intros Hs.
  pose proof (HasAdminPermission_decides (healthy rc) (healthy_store s) ctx p)
    as H. rewrite store_of_healthy, Hs in H. by apply (H eq_refl).
Qed.

(** Superuser status, as a function of the tables. *)
Definition superuser_allowed (t : tables) (ctx : Context) : bool :=
  ctx_isSuperuser ctx && negb (tokenContextIncomplete ctx) &&
  ((ctx_tokenID ctx <=? 0) ||
   (token_exists t (ctx_tokenID ctx) &&
    (is_nil (scope_admin t (ctx_tokenID ctx)) ||
     existsb (String.eqb AdminPermissionWildcard)
             (scope_admin t (ctx_tokenID ctx))))).

Lemma IsSuperuser_decides rc s ctx :
  store_of rc = Some s ->
  decides s false (IsSuperuser rc ctx) (superuser_allowed (db s) ctx).
Proof.
  intros Hs. unfold IsSuperuser, superuser_allowed, tokenCarriesSuperuser.
  rewrite Hs. destruct (ctx_isSuperuser ctx); [|apply decides_refl].
  destruct (tokenContextIncomplete ctx); [apply decides_refl|].
  destruct (ctx_tokenID ctx <=? 0); [apply decides_refl|]. cbn [negb andb orb].
  destruct (token_exists (db s) (ctx_tokenID ctx)) eqn:Ht; cbn [andb].
  - eapply (decides_read s false).
    { eapply reads_bind; [by apply reads_token|apply reads_ask]. }
    destruct (is_nil _); apply decides_refl.
  - destruct (scope_reads_missing s (ctx_tokenID ctx) Ht) as (_ & _ & _ & [e ->] & _).
    apply decides_refl.
Qed.

Lemma IsSuperuser_healthy rc s ctx :
  store_of rc = Some s -> IsSuperuser (healthy rc) ctx = superuser_allowed (db s) ctx.
Proof.
  intros Hs. pose proof (IsSuperuser_decides (healthy rc) (healthy_store s) ctx) as H.
  rewrite store_of_healthy, Hs in H. by apply (H eq_refl).
Qed.

Lemma no_store_denies rc ctx :
  store_of rc = None ->
  (forall c, CanAccessConnection rc ctx c = denied) /\
  (forall i, CanAccessMCPItem rc ctx i = false) /\
  (forall p, HasAdminPermission rc ctx p = false) /\
  IsSuperuser rc ctx = false.
Proof.
  intros Hs. unfold CanAccessConnection, CanAccessMCPItem, HasAdminPermission,
    IsSuperuser. rewrite Hs. split_and!; try done. by destruct (ctx_isSuperuser ctx).
Qed.

(** C11: A failing database never widens access.  Whichever queries fail, a
    connection is either refused or answered as the healthy store would
    answer it, level included, and an MCP item, an admin permission or the
    blanket superuser gate is passed only if the healthy store passes it. *)
Theorem checks_fail_closed rc ctx :
  (forall c, CanAccessConnection rc ctx c = denied \/
             CanAccessConnection rc ctx c = CanAccessConnection (healthy rc) ctx c) /\
  (forall i, CanAccessMCPItem rc ctx i = true ->
             CanAccessMCPItem (healthy rc) ctx i = true) /\
  (forall p, HasAdminPermission rc ctx p = true ->
             HasAdminPermission (healthy rc) ctx p = true) /\
  (IsSuperuser rc ctx = true -> IsSuperuser (healthy rc) ctx = true).
Proof.
  destruct (store_of rc) as [s|] eqn:Hs.
  - split_and!; intros.
    + destruct (CanAccessConnection_decides rc s ctx c Hs) as [[->| ->] _]; [|auto].
      right. by rewrite (CanAccessConnection_healthy rc s).
    + destruct (CanAccessMCPItem_decides rc s ctx i Hs) as [[E|E] _]; [|congruence].
      rewrite (CanAccessMCPItem_healthy rc s); congruence.
    + destruct (HasAdminPermission_decides rc s ctx p Hs) as [[E|E] _]; [|congruence].
      rewrite (HasAdminPermission_healthy rc s); congruence.
    + destruct (IsSuperuser_decides rc s ctx Hs) as [[E|E] _]; [|congruence].
      rewrite (IsSuperuser_healthy rc s); congruence.
  - destruct (no_store_denies rc ctx Hs) as (H1 & H2 & H3 & H4).
    split_and!; intros; [left; apply H1|by rewrite H2 in *|by rewrite H3 in *|
      by rewrite H4 in *].
Qed.

(** ** Tokens restrict *)

(** The caller's owner, acting in a session instead of through a token. *)
Definition as_session (ctx : Context) : Context :=
  {| ctx_username := ctx_username ctx; ctx_isAPIToken := false;
     ctx_userID := ctx_userID ctx; ctx_tokenID := 0;
     ctx_isSuperuser := ctx_isSuperuser ctx |}.

Lemma ceiling_le tl ul :
  applyTokenCeiling tl ul = ul \/ applyTokenCeiling tl ul = AccessLevelRead.
Proof. unfold applyTokenCeiling. split_ifs; auto. Qed.

Lemma owner_level_session t lookup ctx c :
  owner_level t lookup (as_session ctx) c = owner_level t lookup ctx c.
Proof. reflexivity. Qed.

Lemma access_level_session t lookup ctx c :
  access_level t lookup (as_session ctx) c = owner_level t lookup ctx c.
Proof.
  unfold access_level, token_cap. simpl. rewrite owner_level_session.
  by destruct (owner_level t lookup ctx c).
Qed.

(** C12: A token restricts and never elevates.  Whatever a caller reaches
    through a token, whichever queries fail, its owner reaches in a session:
    the connection at the same level, or at any level when the token is held
    to read, and every MCP item, admin permission and superuser gate. *)
Theorem token_never_elevates rc ctx :
  (forall c l, CanAccessConnection rc ctx c = (true, l) ->
     exists l', CanAccessConnection (healthy rc) (as_session ctx) c = (true, l') /\
                (l = l' \/ l = AccessLevelRead)) /\
  (forall i, CanAccessMCPItem rc ctx i = true ->
             CanAccessMCPItem (healthy rc) (as_session ctx) i = true) /\
  (forall p, HasAdminPermission rc ctx p = true ->
             HasAdminPermission (healthy rc) (as_session ctx) p = true) /\
  (IsSuperuser rc ctx = true ->
   IsSuperuser (healthy rc) (as_session ctx) = true).
Proof.
  destruct (store_of rc) as [s|] eqn:Hs.
  - split_and!; intros.
    + destruct (CanAccessConnection_decides rc s ctx c Hs) as [[E|E] _];
        rewrite E in H; [|done]. clear E.
      rewrite (CanAccessConnection_healthy rc s), access_level_session by done.
      unfold access_level in H. destruct (tokenContextIncomplete ctx); [done|].
      destruct (owner_level (db s) (lookup_of rc) ctx c) as [l'|]; [|done].
      exists l'. split; [done|]. unfold token_cap in H.
      destruct (ctx_tokenID ctx <=? 0); [injection H as <-; auto|].
      destruct (token_exists _ _); [|done].
      destruct (conn_scope _ _ _) as [tl|]; [|done]. injection H as <-.
      apply ceiling_le.
    + destruct (CanAccessMCPItem_decides rc s ctx i Hs) as [[E|E] _]; [|congruence].
      rewrite (CanAccessMCPItem_healthy rc s) by done. rewrite E in H.
      unfold mcp_allowed in *. simpl. destruct (tokenContextIncomplete ctx); [done|].
      destruct (ctx_isSuperuser ctx); [done|].
      destruct (find_identifier (db s) i); [|done].
      apply andb_true_iff in H as [-> _]. done.
    + destruct (HasAdminPermission_decides rc s ctx p Hs) as [[E|E] _]; [|congruence].
      rewrite (HasAdminPermission_healthy rc s) by done. rewrite E in H.
      unfold admin_allowed in *. simpl. destruct (tokenContextIncomplete ctx); [done|].
      destruct (ctx_isSuperuser ctx); [done|].
      apply andb_true_iff in H as [-> _]. done.
    + destruct (IsSuperuser_decides rc s ctx Hs) as [[E|E] _]; [|congruence].
      rewrite (IsSuperuser_healthy rc s) by done. rewrite E in H.
      unfold superuser_allowed in *. simpl. by destruct (ctx_isSuperuser ctx).
  - destruct (no_store_denies rc ctx Hs) as (H1 & H2 & H3 & H4).
    split_and!; intros; [by rewrite H1 in *|by rewrite H2 in *|by rewrite H3 in *|
      by rewrite H4 in *].
Qed.

(** ** Write access *)

Lemma resolve_some m c :
  is_Some (resolveConnectionAccess m c) <->
  is_Some (m !! c) \/ is_Some (m !! ConnectionIDAll).
Proof.
  unfold resolveConnectionAccess.
  destruct (m !! c), (m !! ConnectionIDAll); split_ifs;
    split; intros; eauto; naive_solver.
Qed.

Lemma resolve_write t u c :
  resolveConnectionAccess (user_conns t u) c = Some AccessLevelReadWrite <->
  conn_grant t u c AccessLevelReadWrite \/
  conn_grant t u ConnectionIDAll AccessLevelReadWrite.
Proof.
  unfold resolveConnectionAccess.
  pose proof (user_conns_spec t u c) as Hc.
  pose proof (user_conns_spec t u ConnectionIDAll) as Hw.
  destruct (user_conns t u !! c) as [lc|], (user_conns t u !! ConnectionIDAll)
    as [lw|].
  - destruct (String.eqb_spec lw AccessLevelReadWrite); naive_solver.
  - naive_solver.
  - naive_solver.
  - split; [done|]. intros [H|H]; [by apply Hc in H|by apply Hw in H].
Qed.

Lemma ceiling_write tok ul :
  applyTokenCeiling tok ul = AccessLevelReadWrite <->
  ul = AccessLevelReadWrite /\
  (tok = AccessLevelNone \/ tok = AccessLevelReadWrite).
Proof.
  unfold applyTokenCeiling, knownAccessLevel, AccessLevelNone, AccessLevelRead,
    AccessLevelReadWrite.
  destruct (String.eqb_spec tok "read") as [E1|E1];
    [subst; split; [done|naive_solver]|].
  destruct (String.eqb_spec ul "read") as [E2|E2];
    [subst; split; [done|naive_solver]|].
  destruct (String.eqb_spec tok "") as [E3|E3],
    (String.eqb_spec tok "read_write") as [E4|E4],
    (String.eqb_spec ul "") as [E5|E5],
    (String.eqb_spec ul "read_write") as [E6|E6]; cbn; intuition congruence.
Qed.

(** Why a caller may write to a connection, its token aside. *)
Inductive write_right (t : tables) (fn : SharingLookup) (ctx : Context)
    (c : Z) : Prop :=
| write_superuser info :
    ctx_isSuperuser ctx = true -> fn c = Ok info -> write_right t fn ctx c
| write_owner isShared owner :
    fn c = Ok (isShared, owner) -> owner <> ""%string ->
    owner = ctx_username ctx -> write_right t fn ctx c
| write_shared owner :
    fn c = Ok (true, owner) -> (forall r, r ∈ connection_privileges t ->
                                cp_connection r <> c) ->
    write_right t fn ctx c
| write_group info :
    fn c = Ok info -> ctx_userID ctx <> 0 ->
    conn_grant t (ctx_userID ctx) c AccessLevelReadWrite \/
    conn_grant t (ctx_userID ctx) ConnectionIDAll AccessLevelReadWrite ->
    write_right t fn ctx c.

(** What a token needs for write access: to exist, and to have no connection
    scope, or an entry for the connection at read_write, or an "all
    connections" entry at read_write and none for the connection. *)
Definition token_writes (t : tables) (ctx : Context) (c : Z) : Prop :=
  ctx_tokenID ctx <= 0 \/
  (token_exists t (ctx_tokenID ctx) = true /\
   exists l, conn_scope t (ctx_tokenID ctx) c = Some l /\
             (l = AccessLevelNone \/ l = AccessLevelReadWrite)).

Lemma restricted_by_group_false t c :
  restricted_by_group t c = false <->
  forall r, r ∈ connection_privileges t -> cp_connection r <> c.
Proof.
  unfold restricted_by_group. rewrite <- not_true_iff_false, existsb_exists.
  split.
  - intros H r Hr E. apply H. exists r. rewrite <- list_elem_of_In, Z.eqb_eq. done.
  - intros H (r & Hr & E%Z.eqb_eq). apply (H r); [|done]. by apply list_elem_of_In.
Qed.

Lemma owns_spec ctx o : owns ctx o = true <-> o <> ""%string /\ o = ctx_username ctx.
Proof.
  unfold owns. rewrite andb_true_iff, negb_true_iff, <- not_true_iff_false,
    !String.eqb_eq. naive_solver.
Qed.

Lemma empty_write u c :
  resolveConnectionAccess ∅ c = Some u -> False.
Proof. unfold resolveConnectionAccess. by rewrite !lookup_empty. Qed.

Lemma owner_level_write t fn ctx c :
  owner_level t (Some fn) ctx c = Some AccessLevelReadWrite <->
  write_right t fn ctx c.
Proof.
  unfold owner_level, connection_facts.
  destruct (ctx_isSuperuser ctx) eqn:Hsu.
  { destruct (fn c) as [i|e] eqn:Hf; simpl; split; try done.
    - intros _. by eapply write_superuser.
    - by intros []; congruence. }
  destruct (fn c) as [[sh ow]|e] eqn:Hf; simpl;
    [|split; [done|by intros []; congruence]].
  unfold connectionAccessRule. simpl.
  destruct (owns ctx ow) eqn:Ho.
  { split; [|done]. intros _. apply owns_spec in Ho as [? ?].
    by eapply write_owner. }
  destruct (sh && negb (restricted_by_group t c)) eqn:Hs.
  { apply andb_true_iff in Hs as [-> Hr%negb_true_iff]. split; [|done].
    intros _. eapply write_shared; [done|]. by apply restricted_by_group_false. }
  transitivity (ctx_userID ctx <> 0 /\
    (conn_grant t (ctx_userID ctx) c AccessLevelReadWrite \/
     conn_grant t (ctx_userID ctx) ConnectionIDAll AccessLevelReadWrite)).
  - destruct (Z.eqb_spec (ctx_userID ctx) 0) as [Hu|Hu];
      [|rewrite resolve_write; tauto].
    split; [by intros ?%empty_write|by intros []].
  - split; [intros [? ?]; by eapply write_group|].
    intros [?|? o E ? ?|o E Hn|? ? ? ?]; [congruence|..|done];
      rewrite E in Hf; injection Hf as <- <-.
    + by rewrite (proj2 (owns_spec ctx o)) in Ho.
    + apply restricted_by_group_false in Hn. by rewrite Hn in Hs.
Qed.

(** C14: Write access to a connection, in full.  A caller may write exactly
    when the context is complete, the connection is live and the caller is a
    superuser, owns it, finds it shared and named by no group grant, or
    belongs, through any chain of groups, to a group granted read_write on it
    or on all connections; and its token, if there is one, exists and leaves
    read_write on that connection. *)
Theorem HasWriteAccess_iff s fn ctx c :
  let rc := NewRBACCheckerWithSharing (Some (healthy_store s)) (Some fn) in
  HasWriteAccess rc ctx c = true <->
  tokenContextIncomplete ctx = false /\ write_right (db s) fn ctx c /\
  token_writes (db s) ctx c.
Proof.
  intros rc. unfold HasWriteAccess.
  assert (CanAccessConnection rc ctx c =
    as_answer (access_level (db s) (Some fn) ctx c)) as ->.
  { by apply (CanAccessConnection_decides rc (healthy_store s) ctx c). }
  rewrite <- owner_level_write. unfold access_level, token_writes, token_cap.
  destruct (tokenContextIncomplete ctx); [simpl; naive_solver|].
  destruct (owner_level (db s) (Some fn) ctx c) as [l|]; [|simpl; naive_solver].
  destruct (Z.leb_spec (ctx_tokenID ctx) 0) as [Hle|Hgt]; simpl.
  { rewrite String.eqb_eq. naive_solver. }
  destruct (token_exists _ _); [|simpl; naive_solver lia].
  destruct (conn_scope _ _ _) as [tl|]; simpl; [|naive_solver lia].
  rewrite String.eqb_eq, ceiling_write. naive_solver lia.
Qed.

(** ** Listing and opening agree *)

Lemma scope_level_some t tok c :
  is_Some (scope_level t tok c) <->
  exists sc, sc ∈ scope_connections t tok /\ ConnectionID sc = c.
Proof.
  unfold scope_level.
  destruct (filter (fun sc => ConnectionID sc = c) (scope_connections t tok))
    as [|sc l] eqn:E.
  - split; [by intros [? ?]|]. intros (sc & Hin & Hc).
    assert (sc ∈ filter (fun sc => ConnectionID sc = c) (scope_connections t tok))
      as Hf by (by apply list_elem_of_filter).
    rewrite E in Hf. by apply elem_of_nil in Hf.
  - split; [|by eauto]. intros _. exists sc.
    assert (sc ∈ filter (fun sc => ConnectionID sc = c) (scope_connections t tok))
      as Hf by (rewrite E; apply list_elem_of_here).
    apply list_elem_of_filter in Hf. tauto.
Qed.

(** The in-memory scope test and the one on the database rows agree. *)
Lemma InScope_conn_scope t tok ts c :
  Connections ts = scope_connections t tok ->
  InScope ts c = true <-> is_Some (conn_scope t tok c).
Proof.
  intros Hts. unfold InScope, conn_scope. rewrite Hts.
  destruct (is_nil (scope_connections t tok)); [by eauto|].
  transitivity (is_Some (scope_level t tok c) \/
                is_Some (scope_level t tok ConnectionIDAll)).
  - rewrite !scope_level_some, existsb_exists.
    setoid_rewrite list_elem_of_In. setoid_rewrite orb_true_iff.
    setoid_rewrite Z.eqb_eq. naive_solver.
  - destruct (scope_level t tok c); [|naive_solver]. split; eauto.
Qed.

Lemma narrow_dom m0 conns m k :
  is_Some (foldl (narrow_entry m0) m conns !! k) <->
  is_Some (m !! k) \/
  (is_Some (resolveConnectionAccess m0 k) /\
   exists sc, sc ∈ conns /\ ConnectionID sc = k).
Proof.
  revert m. induction conns as [|sc conns IH]; intros m; cbn [foldl].
  - split; [auto|]. intros [?|(_ & sc & ?%elem_of_nil & _)]; done.
  - rewrite IH. setoid_rewrite elem_of_cons. unfold narrow_entry.
    destruct (resolveConnectionAccess m0 (ConnectionID sc)) as [l|] eqn:E.
    + destruct (decide (ConnectionID sc = k)) as [<-|Hne].
      * rewrite lookup_insert_eq, E. naive_solver.
      * rewrite lookup_insert_ne by done. naive_solver.
    + split; [naive_solver|]. intros [?|(H & sc' & [->|?] & <-)]; [auto|..].
      * rewrite E in H. by destruct H.
      * naive_solver.
Qed.

Lemma foldl_skip {A B} (f : A -> B -> A) (skip : B -> bool) l a :
  foldl (fun a b => if skip b then a else f a b) a l =
  foldl f a (filter (fun b => skip b = false) l).
Proof.
  revert a. induction l as [|b l IH]; intros a; [done|]. cbn [foldl].
  rewrite IH, filter_cons. destruct (skip b); by case_decide.
Qed.

Lemma has_wildcard_spec scope :
  scopeHasConnectionWildcard scope = true <->
  exists sc, sc ∈ Connections scope /\ ConnectionID sc = ConnectionIDAll.
Proof.
  unfold scopeHasConnectionWildcard. rewrite existsb_exists.
  setoid_rewrite list_elem_of_In. by setoid_rewrite Z.eqb_eq.
Qed.

(** Narrowing a user's map to a scope keeps exactly the in-scope
    connections the user could resolve. *)
Lemma scope_connections_of_resolve scope m c :
  c <> ConnectionIDAll -> InScope scope c = true ->
  is_Some (resolveConnectionAccess (scope_connections_of scope m) c) <->
  is_Some (resolveConnectionAccess m c).
Proof.
  intros Hc Hin. unfold scope_connections_of, InScope in *.
  destruct (is_nil (Connections scope)); [done|].
  rewrite existsb_exists in Hin. destruct Hin as (sc & Hsc & Hid).
  apply list_elem_of_In in Hsc. rewrite orb_true_iff, !Z.eqb_eq in Hid.
  destruct (scopeHasConnectionWildcard scope) eqn:Hw; rewrite !resolve_some.
  - unfold applyWildcardConnectionScope.
    rewrite foldl_skip, !narrow_dom, !lookup_fmap, !fmap_is_Some, !resolve_some.
    setoid_rewrite list_elem_of_filter. setoid_rewrite Z.eqb_neq. naive_solver.
  - rewrite !narrow_dom, !lookup_empty, !resolve_some.
    apply not_true_iff_false in Hw. rewrite has_wildcard_spec in Hw.
    assert (ConnectionID sc = c) by (destruct Hid; [done|]; destruct Hw; eauto).
    split; [naive_solver|]. intros Hm. left. right. split; [tauto|eauto].
Qed.

Lemma scope_connections_of_wildcard scope m :
  is_Some (scope_connections_of scope m !! ConnectionIDAll) ->
  is_Some (m !! ConnectionIDAll) /\ forall c, InScope scope c = true.
Proof.
  unfold scope_connections_of, InScope.
  destruct (is_nil (Connections scope)); [done|].
  destruct (scopeHasConnectionWildcard scope) eqn:Hw.
  - unfold applyWildcardConnectionScope.
    rewrite foldl_skip, narrow_dom, lookup_fmap, fmap_is_Some, resolve_some.
    intros H. split; [tauto|]. intros c. apply has_wildcard_spec in Hw as (sc & Hsc & E).
    apply existsb_exists. exists sc. rewrite <- list_elem_of_In, E. split; [done|].
    apply orb_true_r.
  - rewrite narrow_dom, lookup_empty. intros [[? [=]]|(_ & Hsc)].
    apply has_wildcard_spec in Hsc. congruence.
Qed.

Lemma add_listed_fold ctx R privs seen all c :
  c ∈ foldl (add_listed ctx R privs) seen all <->
  c ∈ seen \/ exists info, info ∈ all /\ info_ID info = c /\
    is_Some (connectionAccessRule
      {| owned := owns ctx (info_OwnerUsername info);
         shared := info_IsShared info;
         restricted := bool_decide (info_ID info ∈ R) |} privs (info_ID info)).
Proof.
  revert seen. induction all as [|info all IH]; intros seen; cbn [foldl].
  - split; [auto|]. intros [?|(i & ?%elem_of_nil & _)]; done.
  - rewrite IH. setoid_rewrite elem_of_cons. unfold add_listed.
    destruct (connectionAccessRule _ _ (info_ID info)) eqn:E.
    + rewrite elem_of_union, elem_of_singleton. split.
      * intros [[->|?]|?]; [|auto|naive_solver]. right. exists info. rewrite E. eauto.
      * intros [?|(i & [->|?] & <- & ?)]; [auto|auto|]. right. eauto.
    + split; [naive_solver|]. intros [?|(i & [->|?] & <- & Hi)]; [auto| |eauto].
      rewrite E in Hi. by destruct Hi.
Qed.

Lemma rule_some facts privs c :
  is_Some (connectionAccessRule facts privs c) <->
  owned facts = true \/ (shared facts = true /\ restricted facts = false) \/
  is_Some (resolveConnectionAccess privs c).
Proof.
  unfold connectionAccessRule.
  destruct (owned facts), (shared facts), (restricted facts); simpl;
    split; intros; eauto; naive_solver.
Qed.

Section Visible.
Context (s : AuthStore) (fn : SharingLookup).
Context (all : list ConnectionVisibilityInfo).

(** The sharing lookup and the lister read the same connections. *)
Hypothesis (Hviews : forall c sh ow,
  fn c = Ok (sh, ow) <->
  {| info_ID := c; info_IsShared := sh; info_OwnerUsername := ow |} ∈ all).

Let rc : option RBACChecker :=
  NewRBACCheckerWithSharing (Some (healthy_store s)) (Some fn).

Definition listed (out : result (list Z * bool)) (c : Z) : Prop :=
  exists ids everything, out = Ok (ids, everything) /\ (everything = true \/ c ∈ ids).

Lemma can_access_some ctx c :
  fst (CanAccessConnection rc ctx c) = true <->
  is_Some (access_level (db s) (Some fn) ctx c).
Proof.
  destruct (CanAccessConnection_decides rc (healthy_store s) ctx c eq_refl) as [_ H].
  rewrite H by done. simpl.
  destruct (access_level _ _ _ _); simpl; split; eauto; [done|by intros []].
Qed.

Lemma token_scope_read tok :
  GetTokenScope (healthy_store s) tok = Ok (token_scope (db s) tok) /\
  token_exists (db s) tok = true \/
  (exists e, GetTokenScope (healthy_store s) tok = Err e) /\
  token_exists (db s) tok = false.
Proof.
  destruct (token_exists (db s) tok) eqn:Ht.
  - left. split; [|done]. by apply (reads_scope (healthy_store s)).
  - right. split; [|done]. by apply (scope_reads_missing (healthy_store s)).
Qed.

Lemma token_scope_connections tok ts :
  token_scope (db s) tok = Some ts ->
  Connections ts = scope_connections (db s) tok.
Proof. unfold token_scope. split_ifs; by intros [= <-]. Qed.

Lemma token_scope_none tok :
  token_scope (db s) tok = None -> scope_connections (db s) tok = [].
Proof.
  unfold token_scope. destruct (scope_connections (db s) tok); [done|].
  by split_ifs.
Qed.

(** The connections the rule adds from the listing are those it admits. *)
Lemma listing_rule ctx privs c :
  c <> ConnectionIDAll ->
  (exists info, info ∈ all /\ info_ID info = c /\
    is_Some (connectionAccessRule
      {| owned := owns ctx (info_OwnerUsername info);
         shared := info_IsShared info;
         restricted := bool_decide (info_ID info ∈
           (list_to_set (map cp_connection
              (filter (fun r => cp_connection r <> ConnectionIDAll)
                      (connection_privileges (db s)))) : gset Z)) |}
      privs (info_ID info))) <->
  exists sh ow, fn c = Ok (sh, ow) /\
    is_Some (connectionAccessRule
      {| owned := owns ctx ow; shared := sh;
         restricted := restricted_by_group (db s) c |} privs c).
Proof.
  intros Hc.
  assert (bool_decide (c ∈ (list_to_set (map cp_connection
     (filter (fun r => cp_connection r <> ConnectionIDAll)
        (connection_privileges (db s)))) : gset Z)) =
     restricted_by_group (db s) c) as Hr.
  { apply eq_true_iff_eq. rewrite bool_decide_eq_true, elem_of_list_to_set.
    unfold restricted_by_group. rewrite existsb_exists, (list_elem_of_fmap cp_connection).
    setoid_rewrite list_elem_of_filter. setoid_rewrite Z.eqb_eq.
    setoid_rewrite <- list_elem_of_In. naive_solver. }
  split.
  - intros ([i sh ow] & Hin & Hi & Hrule). simpl in *. subst i.
    rewrite Hr in Hrule. exists sh, ow. split; [by apply Hviews|done].
  - intros (sh & ow & Hf & Hrule). apply Hviews in Hf. eexists. split; [done|].
    simpl. rewrite Hr. done.
Qed.

(** A connection is admitted to a listing exactly when the rule, applied to
    the caller's whole map, admits it and its token does. *)
Lemma opens_iff ctx c :
  ctx_isSuperuser ctx = false -> tokenContextIncomplete ctx = false ->
  is_Some (access_level (db s) (Some fn) ctx c) <->
  (exists sh ow, fn c = Ok (sh, ow) /\
    is_Some (connectionAccessRule
      {| owned := owns ctx ow; shared := sh;
         restricted := restricted_by_group (db s) c |}
      (if ctx_userID ctx =? 0 then ∅ else user_conns (db s) (ctx_userID ctx)) c)) /\
  (ctx_tokenID ctx <= 0 \/
   (token_exists (db s) (ctx_tokenID ctx) = true /\
    is_Some (conn_scope (db s) (ctx_tokenID ctx) c))).
Proof.
  intros Hsu Hinc. unfold access_level, owner_level, token_cap.
  rewrite Hsu, Hinc. unfold connection_facts.
  destruct (fn c) as [[sh ow]|e]; simpl;
    [|split; [by intros []|intros [(? & ? & [=] & _) _]]].
  assert (forall P, (exists sh0 ow0, @Ok auth_error _ (sh, ow) = Ok (sh0, ow0) /\
    P sh0 ow0) <-> P sh ow) as Hex by naive_solver.
  rewrite (Hex (fun sh ow => is_Some (connectionAccessRule
      {| owned := owns ctx ow; shared := sh;
         restricted := restricted_by_group (db s) c |}
      (if ctx_userID ctx =? 0 then ∅ else user_conns (db s) (ctx_userID ctx)) c))).
  destruct (connectionAccessRule _ _ _) as [l|]; [|split; [by intros []|by intros [[] _]]].
  destruct (Z.leb_spec (ctx_tokenID ctx) 0); [naive_solver|].
  destruct (token_exists _ _); [|split; [by intros []|naive_solver lia]].
  destruct (conn_scope _ _ _) as [sl|]; (split; intros Hx).
  - split; [by eauto|]. right. by eauto.
  - by eauto.
  - by destruct Hx.
  - destruct Hx as [_ [?|[_ []]]]; [lia|done].
Qed.

(** The map the report gives for the connections of a caller that is not a
    superuser. *)
Lemma or_empty_conns u :
  or_empty (GetUserConnectionPrivileges (healthy_store s) u) = user_conns (db s) u.
Proof. by rewrite (proj2 (reads_conns (healthy_store s) u)). Qed.

(** The listing of a caller that is not a superuser. *)
Definition listing_of (ctx : Context) (r : gmap Z string)
    (scope : option TokenScope) : result (list Z * bool) :=
  if bool_decide (is_Some (r !! ConnectionIDAll)) then Ok ([], true)
  else
    let! seen :=
      (let! restrictedIDs := RestrictedConnectionIDs (healthy_store s) in
       Ok (foldl (add_listed ctx restrictedIDs r) (dom r) all)) in
    Ok (elements (match scope with
                  | Some ts =>
                      if 0 <? ctx_tokenID ctx
                      then filter (fun c => InScope ts c = true) seen
                      else seen
                  | None => seen
                  end : gset Z), false).

(** The listing once the map [r] and the scope it was narrowed by are
    known. *)
Lemma visible_listing ctx c r scope :
  c <> ConnectionIDAll ->
  listed (listing_of ctx r scope) c <->
  is_Some (r !! ConnectionIDAll) \/
  ((is_Some (r !! c) \/
    exists sh ow, fn c = Ok (sh, ow) /\
      is_Some (connectionAccessRule
        {| owned := owns ctx ow; shared := sh;
           restricted := restricted_by_group (db s) c |} r c)) /\
   (forall ts, scope = Some ts -> 0 < ctx_tokenID ctx -> InScope ts c = true)).
Proof.
  intros Hc. rewrite <- listing_rule by done. unfold listing_of.
  destruct (bool_decide_reflect (is_Some (r !! ConnectionIDAll))) as [Hw|Hw].
  { split; [auto|]. intros _. eexists _, _. eauto. }
  change (RestrictedConnectionIDs (healthy_store s)) with
    (Ok (E := auth_error) (list_to_set (map cp_connection
      (filter (fun r => cp_connection r <> ConnectionIDAll)
         (connection_privileges (db s)))) : gset Z)).
  cbn [rbind].
  set (seen := foldl _ _ _).
  assert (c ∈ seen <-> is_Some (r !! c) \/ exists info, info ∈ all /\
    info_ID info = c /\ is_Some (connectionAccessRule
      {| owned := owns ctx (info_OwnerUsername info);
         shared := info_IsShared info;
         restricted := bool_decide (info_ID info ∈
           (list_to_set (map cp_connection
              (filter (fun r => cp_connection r <> ConnectionIDAll)
                      (connection_privileges (db s)))) : gset Z)) |}
      r (info_ID info))) as Hseen.
  { unfold seen. by rewrite add_listed_fold, elem_of_dom. }
  rewrite <- Hseen. unfold listed.
  transitivity (c ∈ (match scope with
                     | Some ts => if 0 <? ctx_tokenID ctx
                                  then filter (fun c => InScope ts c = true) seen
                                  else seen
                     | None => seen
                     end : gset Z)).
  { split.
    - intros (ids & b & [= <- <-] & [?|Hin]); [done|]. by apply elem_of_elements in Hin.
    - intros Hin. eexists _, _. split; [done|]. right. by apply elem_of_elements. }
  destruct scope as [ts|]; [|naive_solver].
  destruct (Z.ltb_spec 0 (ctx_tokenID ctx)); [|naive_solver lia].
  rewrite elem_of_filter. naive_solver.
Qed.

(** The rule reads the map only through what it resolves. *)
Lemma rule_same facts m1 m2 c :
  (is_Some (resolveConnectionAccess m1 c) <->
   is_Some (resolveConnectionAccess m2 c)) ->
  is_Some (connectionAccessRule facts m1 c) <->
  is_Some (connectionAccessRule facts m2 c).
Proof. intros H. by rewrite !rule_some, H. Qed.

(** Resolving through the connection itself or through the wildcard. *)
Lemma live_rule m facts c :
  (is_Some (m !! c) \/ is_Some (m !! ConnectionIDAll)) ->
  is_Some (connectionAccessRule facts m c).
Proof. intros H. apply rule_some. right. right. by apply resolve_some. Qed.

Lemma visible_unscoped ctx c m :
  c <> ConnectionIDAll -> is_ok (fn c) = true ->
  (is_Some (m !! ConnectionIDAll) \/
   (is_Some (m !! c) \/
    exists sh ow, fn c = Ok (sh, ow) /\
      is_Some (connectionAccessRule
        {| owned := owns ctx ow; shared := sh;
           restricted := restricted_by_group (db s) c |} m c))) <->
  exists sh ow, fn c = Ok (sh, ow) /\
    is_Some (connectionAccessRule
      {| owned := owns ctx ow; shared := sh;
         restricted := restricted_by_group (db s) c |} m c).
Proof.
  intros Hc Hok. destruct (fn c) as [[sh ow]|] eqn:Hf; [|done].
  split; [|auto]. intros [Hm|[Hm|?]]; [..|done]; exists sh, ow;
    (split; [done|]); apply live_rule; auto.
Qed.

Lemma VisibleConnectionIDs_session ctx :
  ctx_isSuperuser ctx = false -> tokenContextIncomplete ctx = false ->
  ctx_tokenID ctx <= 0 ->
  VisibleConnectionIDs rc ctx (Some (Ok all)) =
  listing_of ctx (if ctx_userID ctx =? 0 then ∅
                  else user_conns (db s) (ctx_userID ctx)) None.
Proof.
  intros Hsu Hinc Htok. unfold VisibleConnectionIDs, GetEffectivePrivileges.
  change (store_of rc) with (Some (healthy_store s)). cbn match.
  rewrite Hsu, Hinc, (proj2 (Z.ltb_ge 0 (ctx_tokenID ctx)) Htok).
  rewrite or_empty_conns. destruct (ctx_userID ctx =? 0); reflexivity.
Qed.

Lemma VisibleConnectionIDs_token ctx :
  ctx_isSuperuser ctx = false -> tokenContextIncomplete ctx = false ->
  0 < ctx_tokenID ctx -> ctx_userID ctx <> 0 ->
  VisibleConnectionIDs rc ctx (Some (Ok all)) =
  match GetTokenScope (healthy_store s) (ctx_tokenID ctx) with
  | Err e => Err e
  | Ok None => listing_of ctx (user_conns (db s) (ctx_userID ctx)) None
  | Ok (Some ts) =>
      listing_of ctx (scope_connections_of ts (user_conns (db s) (ctx_userID ctx)))
        (Some ts)
  end.
Proof.
  intros Hsu Hinc Htok Hu. unfold VisibleConnectionIDs, GetEffectivePrivileges.
  change (store_of rc) with (Some (healthy_store s)). cbn match.
  rewrite Hsu, Hinc, (proj2 (Z.ltb_lt 0 (ctx_tokenID ctx)) Htok).
  rewrite or_empty_conns, (proj2 (Z.eqb_neq (ctx_userID ctx) 0) Hu).
  unfold listing_of. rewrite (proj2 (Z.ltb_lt 0 (ctx_tokenID ctx)) Htok).
  destruct (GetTokenScope _ _) as [[ts|]|e]; reflexivity.
Qed.

Lemma superuser_visible ctx c :
  ctx_isSuperuser ctx = true -> tokenContextIncomplete ctx = false ->
  c <> ConnectionIDAll -> is_ok (fn c) = true ->
  listed (VisibleConnectionIDs rc ctx (Some (Ok all))) c <->
  is_Some (access_level (db s) (Some fn) ctx c).
Proof.
  intros Hsu Hinc Hc Hok.
  unfold VisibleConnectionIDs, access_level, owner_level, token_cap.
  change (store_of rc) with (Some (healthy_store s)). cbn match.
  rewrite Hsu, Hinc, Hok. unfold superuserVisibleConnectionIDs, listed.
  destruct (Z.leb_spec (ctx_tokenID ctx) 0) as [|Htok]; [naive_solver|].
  destruct (token_scope_read (ctx_tokenID ctx)) as [[-> ->]|[[e ->] ->]]; simpl;
    [|split; [naive_solver|by intros []]].
  transitivity (is_Some (conn_scope (db s) (ctx_tokenID ctx) c));
    [|destruct (conn_scope _ _ _); split; eauto; by intros []].
  destruct (token_scope (db s) (ctx_tokenID ctx)) as [ts|] eqn:Hts.
  - apply token_scope_connections in Hts.
    rewrite <- (InScope_conn_scope _ _ ts c Hts). unfold InScope.
    destruct (is_nil (Connections ts)); [simpl; naive_solver|].
    rewrite existsb_exists. setoid_rewrite orb_true_iff. setoid_rewrite Z.eqb_eq.
    setoid_rewrite <- list_elem_of_In.
    destruct (scopeHasConnectionWildcard ts) eqn:Hw; simpl.
    + apply has_wildcard_spec in Hw. naive_solver.
    + apply not_true_iff_false in Hw. rewrite has_wildcard_spec in Hw. split.
      * intros (ids & b & [= <- <-] & [?|Hin]); [done|].
        apply (list_elem_of_fmap ConnectionID) in Hin as (sc & -> & ?). eauto.
      * intros (sc & Hin & [<-|Hz]); [|naive_solver]. eexists _, _. split; [done|].
        right. apply (list_elem_of_fmap ConnectionID). eauto.
  - apply token_scope_none in Hts. unfold conn_scope. rewrite Hts. simpl.
    naive_solver.
Qed.

Lemma visible_opens ctx c :
  c <> ConnectionIDAll -> is_ok (fn c) = true ->
  (ctx_tokenID ctx <= 0 \/ ctx_userID ctx <> 0) ->
  listed (VisibleConnectionIDs rc ctx (Some (Ok all))) c <->
  fst (CanAccessConnection rc ctx c) = true.
Proof.
  intros Hc Hok Huser. rewrite can_access_some.
  destruct (tokenContextIncomplete ctx) eqn:Hinc.
  { unfold VisibleConnectionIDs, access_level.
    change (store_of rc) with (Some (healthy_store s)). cbn match. rewrite Hinc.
    split; [|by intros []]. intros (ids & b & [= <- <-] & [?|?%elem_of_nil]); done. }
  destruct (ctx_isSuperuser ctx) eqn:Hsu; [by apply superuser_visible|].
  rewrite opens_iff by done.
  destruct (decide (ctx_tokenID ctx <= 0)) as [Htok|Htok].
  { rewrite VisibleConnectionIDs_session by done.
    rewrite visible_listing, <- (visible_unscoped ctx c _ Hc Hok) by done.
    naive_solver. }
  destruct Huser as [|Hu]; [done|].
  rewrite VisibleConnectionIDs_token by (done || lia).
  rewrite (proj2 (Z.eqb_neq (ctx_userID ctx) 0) Hu).
  destruct (token_scope_read (ctx_tokenID ctx)) as [[-> Ht]|[[e ->] Ht]]; rewrite Ht;
    [|split; [intros (? & ? & [=] & _)|intros [_ [?|[[=] _]]]; lia]].
  destruct (token_scope (db s) (ctx_tokenID ctx)) as [ts|] eqn:Hts.
  - apply token_scope_connections in Hts.
    rewrite visible_listing, <- (InScope_conn_scope _ _ ts c Hts) by done.
    set (m := user_conns (db s) (ctx_userID ctx)).
    destruct (InScope ts c) eqn:Hin.
    + pose proof (scope_connections_of_resolve ts m c Hc Hin) as Hres.
      transitivity (exists (sh : bool) (ow : string), fn c = Ok (sh, ow) /\
        is_Some (connectionAccessRule
          {| owned := owns ctx ow; shared := sh;
             restricted := restricted_by_group (db s) c |}
          (scope_connections_of ts m) c)).
      * rewrite <- (visible_unscoped ctx c _ Hc Hok). naive_solver.
      * setoid_rewrite (fun facts => rule_same facts _ m c Hres). naive_solver.
    + split; [|intros [_ [?|[_ [=]]]]; lia].
      intros [[_ Hall]%scope_connections_of_wildcard|[_ Hscope]]; exfalso.
      * by rewrite Hall in Hin.
      * rewrite (Hscope ts) in Hin; [done|done|lia].
  - apply token_scope_none in Hts.
    rewrite visible_listing, <- (visible_unscoped ctx c _ Hc Hok) by done.
    unfold conn_scope. rewrite Hts. simpl. naive_solver.
Qed.
End Visible.

(** C13: A connection is listed exactly when it can be opened.  With a working
    store and a lister and sharing lookup that read the same connections, for
    every caller and every live connection, [VisibleConnectionIDs] shows the
    connection, by name or by showing all, iff [CanAccessConnection] grants
    it.  A token caller must carry its owner's user id, as authentication
    sets it. *)
Theorem visible_iff_openable s fn all ctx c :
  (forall c sh ow, fn c = Ok (sh, ow) <->
     {| info_ID := c; info_IsShared := sh; info_OwnerUsername := ow |} ∈ all) ->
  c <> ConnectionIDAll -> is_ok (fn c) = true ->
  (ctx_tokenID ctx <= 0 \/ ctx_userID ctx <> 0) ->
  let rc := NewRBACCheckerWithSharing (Some (healthy_store s)) (Some fn) in
  listed (VisibleConnectionIDs rc ctx (Some (Ok all))) c <->
  fst (CanAccessConnection rc ctx c) = true.
Proof. intros Hviews Hc Hok Hu. by apply (visible_opens s fn all Hviews). Qed.

(** ** The report and the checks *)

Lemma existsb_string (p : string) l : existsb (String.eqb p) l = true <-> p ∈ l.
Proof.
  rewrite existsb_exists. setoid_rewrite String.eqb_eq.
  rewrite list_elem_of_In. naive_solver.
Qed.

Lemma admin_wildcard_scope t tok :
  existsb (String.eqb AdminPermissionWildcard) (scope_admin t tok) = true <->
  AdminPermissionWildcard ∈ scope_admin t tok.
Proof. apply existsb_string. Qed.

Lemma is_nil_true {A} (l : list A) : is_nil l = true <-> l = [].
Proof. by destruct l. Qed.

Lemma admin_in_scope_spec t tok p :
  admin_in_scope t tok p = true <->
  scope_admin t tok = [] \/ AdminPermissionWildcard ∈ scope_admin t tok \/
  p ∈ scope_admin t tok.
Proof.
  unfold admin_in_scope.
  rewrite !orb_true_iff, !existsb_string, is_nil_true. tauto.
Qed.

(** The admin permissions a scope leaves of [perms]. *)
Lemma scope_admin_of_spec t tok ts perms p :
  AdminPermissions ts = scope_admin t tok ->
  (p ∈ scope_admin_of ts perms \/ AdminPermissionWildcard ∈ scope_admin_of ts perms)
  <-> (p ∈ perms \/ AdminPermissionWildcard ∈ perms) /\
      admin_in_scope t tok p = true.
Proof.
  intros Hts. rewrite admin_in_scope_spec.
  unfold scope_admin_of, scopeHasAdminWildcard. rewrite Hts.
  pose proof (admin_wildcard_scope t tok) as Hw.
  destruct (existsb (String.eqb AdminPermissionWildcard) (scope_admin t tok)).
  { rewrite orb_true_r. tauto. }
  destruct (scope_admin t tok) as [|q l]; simpl; [tauto|].
  rewrite !elem_of_list_to_set, !list_elem_of_filter.
  destruct Hw as [_ Hw]. split; [|naive_solver].
  intros [[? ?]|[_ Hin]]; [tauto|]. by apply Hw in Hin.
Qed.

Lemma superuser_admin_spec t tok ts p :
  AdminPermissions ts = scope_admin t tok ->
  (applyScopedAdminPermissions ts ∅ = ∅ \/ p ∈ applyScopedAdminPermissions ts ∅) <->
  admin_in_scope t tok p = true.
Proof.
  intros Hts. rewrite admin_in_scope_spec.
  unfold applyScopedAdminPermissions, scopeHasAdminWildcard. rewrite Hts.
  pose proof (admin_wildcard_scope t tok) as Hw.
  destruct (existsb (String.eqb AdminPermissionWildcard) (scope_admin t tok)).
  { rewrite orb_true_r. tauto. }
  destruct (scope_admin t tok) as [|q l]; simpl; [tauto|].
  assert (AdminPermissionWildcard ∉ q :: l) as Hno by (intros ?%Hw; done).
  rewrite elem_of_union, elem_of_union, elem_of_singleton, elem_of_list_to_set.
  rewrite elem_of_cons. split; [|set_solver]. intros [H|H]; [|set_solver].
  exfalso. assert (q ∈ (∅ : gset string)) by (rewrite <- H; set_solver). set_solver.
Qed.

Lemma token_scope_admin t tok ts :
  token_scope t tok = Some ts -> AdminPermissions ts = scope_admin t tok.
Proof. unfold token_scope. split_ifs; by intros [= <-]. Qed.

Lemma token_scope_none_admin t tok :
  token_scope t tok = None -> scope_admin t tok = [].
Proof.
  unfold token_scope. destruct (scope_connections t tok), (scope_mcp t tok),
    (scope_admin t tok); simpl; done.
Qed.

(** The reported admin permissions are the ones the check allows.  With a
    working store, whenever the report carries no scope error, a permission
    passes [HasAdminPermission] iff the report names it or the wildcard, or,
    for a superuser, names nothing, which is how it says "no limits". *)
Lemma report_matches_admin_check s lookup ctx p :
  let rc := Some {| authStore := Some (healthy_store s);
                    connSharingLookupFn := lookup |} in
  let report := GetEffectivePrivileges rc ctx in
  tokenContextIncomplete ctx = false -> ep_TokenScopeError report = None ->
  HasAdminPermission rc ctx p = true <->
  (if ctx_isSuperuser ctx
   then ep_Admin report = ∅ \/ p ∈ ep_Admin report
   else p ∈ ep_Admin report \/ AdminPermissionWildcard ∈ ep_Admin report).
Proof.
  intros rc report Hinc. unfold report, GetEffectivePrivileges. cbn [store_of rc authStore].
  assert (HasAdminPermission rc ctx p = admin_allowed (db s) ctx p) as ->.
  { by apply (HasAdminPermission_decides rc (healthy_store s)). }
  unfold admin_allowed, applySuperuserTokenScope. rewrite Hinc.
  pose proof (token_scope_read s (ctx_tokenID ctx)) as Hscope.
  destruct (ctx_isSuperuser ctx).
  - destruct (ctx_tokenID ctx <=? 0); simpl; [naive_solver|].
    destruct Hscope as [[-> ->]|[[e ->] _]]; [|done].
    destruct (token_scope (db s) (ctx_tokenID ctx)) as [ts|] eqn:Hts; simpl; intros _.
    + by rewrite (superuser_admin_spec (db s) (ctx_tokenID ctx) ts p
        (token_scope_admin _ _ _ Hts)).
    + apply token_scope_none_admin in Hts. rewrite admin_in_scope_spec, Hts. naive_solver.
  - destruct (Z.eqb_spec (ctx_userID ctx) 0) as [|Hu]; simpl;
      [set_solver|].
    rewrite (proj2 (reads_admin (healthy_store s) (ctx_userID ctx))) by done. simpl.
    rewrite Z.ltb_antisym.
    rewrite andb_true_iff, orb_true_iff, !bool_decide_eq_true.
    destruct (ctx_tokenID ctx <=? 0); simpl; [naive_solver|].
    destruct Hscope as [[-> ->]|[[e ->] _]]; [|done].
    destruct (token_scope (db s) (ctx_tokenID ctx)) as [ts|] eqn:Hts; simpl; intros _.
    + by rewrite (scope_admin_of_spec (db s) (ctx_tokenID ctx) ts _ p
        (token_scope_admin _ _ _ Hts)).
    + apply token_scope_none_admin in Hts. rewrite admin_in_scope_spec, Hts. naive_solver.
Qed.

Lemma decides_bot {A} s (bot d : A) : decides s bot d bot -> d = bot.
Proof. by intros [[?|?] _]. Qed.

(** No check passes for a token that has been deleted. *)
Lemma missing_token_denied rc s ctx :
  store_of rc = Some s -> 0 < ctx_tokenID ctx ->
  token_exists (db s) (ctx_tokenID ctx) = false ->
  (forall c, CanAccessConnection rc ctx c = denied) /\
  (forall i, CanAccessMCPItem rc ctx i = false) /\
  (forall p, HasAdminPermission rc ctx p = false) /\
  IsSuperuser rc ctx = false.
Proof.
  intros Hs Htok Ht. assert ((ctx_tokenID ctx <=? 0) = false) as Hle by lia.
  assert ((0 <? ctx_tokenID ctx) = true) as Hlt by lia.
  split_and!; [intros c|intros i|intros p|]; apply (decides_bot s).
  - pose proof (CanAccessConnection_decides rc s ctx c Hs) as Hd.
    unfold access_level, token_cap in Hd. rewrite Hle, Ht in Hd.
    destruct (tokenContextIncomplete ctx); [done|].
    by destruct (owner_level _ _ _ _).
  - pose proof (CanAccessMCPItem_decides rc s ctx i Hs) as Hd.
    unfold mcp_allowed in Hd. rewrite Hlt, Ht in Hd. cbn [andb] in Hd.
    destruct (tokenContextIncomplete ctx), (ctx_isSuperuser ctx); try exact Hd.
    destruct (find_identifier _ _); [by rewrite andb_false_r in Hd|exact Hd].
  - pose proof (HasAdminPermission_decides rc s ctx p Hs) as Hd.
    unfold admin_allowed in Hd. rewrite Hle, Ht in Hd. cbn [andb] in Hd.
    destruct (tokenContextIncomplete ctx), (ctx_isSuperuser ctx); try exact Hd.
    by rewrite andb_false_r in Hd.
  - pose proof (IsSuperuser_decides rc s ctx Hs) as Hd.
    unfold superuser_allowed in Hd. rewrite Hle, Ht in Hd. cbn [andb orb] in Hd.
    by rewrite andb_false_r in Hd.
Qed.

(** A deleted token of a known user is shown nothing. *)
Lemma missing_token_blind rc s ctx lister c :
  store_of rc = Some s -> 0 < ctx_tokenID ctx ->
  token_exists (db s) (ctx_tokenID ctx) = false -> ctx_userID ctx <> 0 ->
  tokenContextIncomplete ctx = false ->
  ~ listed (VisibleConnectionIDs rc ctx lister) c.
Proof.
  intros Hs Htok Ht Hu Hinc.
  destruct (scope_reads_missing s (ctx_tokenID ctx) Ht) as (_ & _ & _ & _ & [e He]).
  unfold VisibleConnectionIDs, GetEffectivePrivileges,
    superuserVisibleConnectionIDs. rewrite Hs, Hinc, He.
  rewrite (proj2 (Z.ltb_lt _ _) Htok), (proj2 (Z.leb_gt _ _) Htok).
  rewrite (proj2 (Z.eqb_neq (ctx_userID ctx) 0) Hu).
  destruct (ctx_isSuperuser ctx); by intros (ids & b & [=] & _).
Qed.

(** Every check denies when it has nothing to check with: a nil checker
    or one without a store, an API-token context that lost its token id, and
    a token that has been deleted reach no connection, no MCP item, no admin
    permission and no superuser gate, and are shown no connection. *)
Lemma checks_deny_without_basis rc ctx lister :
  store_of rc = None \/ tokenContextIncomplete ctx = true \/
  (exists s, store_of rc = Some s /\ 0 < ctx_tokenID ctx /\
             token_exists (db s) (ctx_tokenID ctx) = false /\
             ctx_userID ctx <> 0) ->
  (forall c, CanAccessConnection rc ctx c = denied) /\
  (forall i, CanAccessMCPItem rc ctx i = false) /\
  (forall p, HasAdminPermission rc ctx p = false) /\
  IsSuperuser rc ctx = false /\
  (forall c, ~ listed (VisibleConnectionIDs rc ctx lister) c).
Proof.
  assert (forall c, ~ listed (Ok ([], false)) c) as Hno.
  { intros c (ids & b & [= <- <-] & [?|?%elem_of_nil]); done. }
  destruct (store_of rc) as [s|] eqn:Hs.
  2:{ destruct (no_store_denies rc ctx Hs) as (H1 & H2 & H3 & H4). intros _.
      split_and!; try done. unfold VisibleConnectionIDs. by rewrite Hs. }
  destruct (tokenContextIncomplete ctx) eqn:Hinc; intros [?|[?|H]]; try done.
  1,2: unfold CanAccessConnection, CanAccessMCPItem, HasAdminPermission,
         IsSuperuser, VisibleConnectionIDs, tokenCarriesSuperuser;
       rewrite Hs, Hinc; split_and!; try done; by destruct (ctx_isSuperuser ctx).
  destruct H as (? & [= <-] & Htok & Ht & Hu).
  destruct (missing_token_denied rc s ctx Hs Htok Ht) as (H1 & H2 & H3 & H4).
  split_and!; try done. intros c. by apply (missing_token_blind rc s).
Qed.

(** ** A token without its owner

    [visible_iff_openable] asks a token caller to carry its owner's id.  For
    a context that holds the token id and no user id the report of effective
    privileges is built before the scope is read, so a shared connection that
    the token's scope leaves out is listed although it cannot be opened. *)
Definition scoped_token_store : AuthStore :=
  {| db := {| users := [{| user_id := 1; Username := "ada"; IsSuperuserRow := false |}];
              user_group_rows := []; tokens := [{| stored_token_id := 7; OwnerID := 1 |}];
              group_memberships := []; mcp_privilege_identifiers := [];
              group_mcp_privileges := []; connection_privileges := [];
              group_admin_permissions := [];
              token_connection_scope :=
                [{| tcs_token := 7;
                    tcs_row := {| ConnectionID := 5; AccessLevel := "read" |} |}];
              token_mcp_scope := []; token_admin_scope := []; audit_events := [] |};
     fault := fun _ _ _ => false |}.

Definition userless_token : Context :=
  {| ctx_username := ""; ctx_isAPIToken := true; ctx_userID := 0;
     ctx_tokenID := 7; ctx_isSuperuser := false |}.

Lemma visible_without_user :
  let rc := NewRBACCheckerWithSharing (Some (healthy_store scoped_token_store))
              (Some (fun _ => Ok (true, ""%string))) in
  VisibleConnectionIDs rc userless_token
    (Some (Ok [{| info_ID := 6; info_IsShared := true; info_OwnerUsername := "" |}]))
    = Ok ([6], false) /\
  fst (CanAccessConnection rc userless_token 6) = false.
Proof. vm_compute. done. Qed.
