(* ===== verification/TokenScope.v ===== *)
(** * Writing token scopes
      (server/src/internal/auth: token_scope.go, token_owner_guard.go,
      token_superuser_owner.go, token_scope_snapshot.go,
      actor_store_tokens.go, and the stored scope of grant_scope.go)

    Validation, the guarded transaction and the writes of the three scope
    kinds.  The main result is that a caller who does not own a token can
    only narrow it. *)
From stdpp Require Import base list strings gmap sets.
From S2P Require Import Prelude AuthStore Access.

Local Open Scope Z_scope.
Local Open Scope res_scope.

(** ** Validation *)

Fixpoint validate_entries (seen : gset Z) (connections : list ScopedConnection)
    : result (gset Z) :=
  match connections with
  | [] => Ok seen
  | conn :: rest =>
      if negb (String.eqb (AccessLevel conn) AccessLevelRead) &&
         negb (String.eqb (AccessLevel conn) AccessLevelReadWrite)
      then Err ErrInvalidAccessLevel
      else if ConnectionID conn <? 0 then Err ErrInvalidConnectionScope
      else if bool_decide (ConnectionID conn ∈ seen)
      then Err ErrInvalidConnectionScope
      else validate_entries ({[ConnectionID conn]} ∪ seen) rest
  end.

Definition ValidateScopedConnections (connections : list ScopedConnection)
    : result unit :=
  let! seen := validate_entries ∅ connections in
  if bool_decide (ConnectionIDAll ∈ seen) && (1 <? length connections)%nat
  then Err ErrInvalidConnectionScope else Ok tt.

Definition knownAdminPermissions : list string :=
  ["manage_connections"; "manage_groups"; "manage_permissions";
   "manage_users"; "manage_token_scopes"; "manage_blackouts";
   "manage_probes"; "manage_alert_rules"; "manage_notification_channels";
   "store_system_memory"; AdminPermissionWildcard]%string.

Definition ValidateAdminPermissions (permissions : list string)
    : result unit :=
  if forallb (fun p => existsb (String.eqb p) knownAdminPermissions) permissions
  then Ok tt else Err ErrUnknownAdminPermission.

(** ** Table updates *)

Definition set_scopes (t : tables) (conns : list TokenConnectionScope)
    (mcp : list TokenMCPScope) (admin : list TokenAdminScope) : tables :=
  {| users := users t; user_group_rows := user_group_rows t; tokens := tokens t;
     group_memberships := group_memberships t;
     mcp_privilege_identifiers := mcp_privilege_identifiers t;
     group_mcp_privileges := group_mcp_privileges t;
     connection_privileges := connection_privileges t;
     group_admin_permissions := group_admin_permissions t;
     token_connection_scope := conns; token_mcp_scope := mcp;
     token_admin_scope := admin; audit_events := audit_events t |}.

(** DELETE FROM ... WHERE token_id = ?, for each scope table. *)
Definition clear_conns (t : tables) (tok : Z) : tables :=
  set_scopes t (filter (fun r => tcs_token r <> tok) (token_connection_scope t))
    (token_mcp_scope t) (token_admin_scope t).
Definition clear_mcp (t : tables) (tok : Z) : tables :=
  set_scopes t (token_connection_scope t)
    (filter (fun r => tms_token r <> tok) (token_mcp_scope t))
    (token_admin_scope t).
Definition clear_admin (t : tables) (tok : Z) : tables :=
  set_scopes t (token_connection_scope t) (token_mcp_scope t)
    (filter (fun r => tas_token r <> tok) (token_admin_scope t)).

(** INSERT INTO token_connection_scope, with the foreign key, the CHECK on
    the level and the UNIQUE constraint (store.go). *)
Definition insert_conn (s : AuthStore) (fn : string) (tok : Z) (t : tables)
    (sc : ScopedConnection) : result tables :=
  if token_exists t tok &&
     (String.eqb (AccessLevel sc) AccessLevelRead ||
      String.eqb (AccessLevel sc) AccessLevelReadWrite) &&
     forallb (fun r => negb (ConnectionID r =? ConnectionID sc))
             (scope_connections t tok)
  then ask s fn 10 [tok; ConnectionID sc]
         (set_scopes t (token_connection_scope t ++
                          [{| tcs_token := tok; tcs_row := sc |}])
                     (token_mcp_scope t) (token_admin_scope t))
  else Err DBError.

Definition insert_mcp (s : AuthStore) (fn : string) (tok : Z) (t : tables)
    (privID : Z) : result tables :=
  if token_exists t tok && negb (existsb (Z.eqb privID) (scope_mcp t tok))
  then ask s fn 11 [tok; privID]
         (set_scopes t (token_connection_scope t)
                     (token_mcp_scope t ++
                        [{| tms_token := tok; tms_privilege := privID |}])
                     (token_admin_scope t))
  else Err DBError.

Definition insert_admin (s : AuthStore) (fn : string) (tok : Z) (t : tables)
    (perm : string) : result tables :=
  if token_exists t tok && negb (existsb (String.eqb perm) (scope_admin t tok))
  then ask s fn 12 [tok]
         (set_scopes t (token_connection_scope t) (token_mcp_scope t)
                     (token_admin_scope t ++
                        [{| tas_token := tok; tas_permission := perm |}]))
  else Err DBError.

(** A loop of statements inside the transaction. *)
Fixpoint fold_tx {A} (body : tables -> A -> result tables) (l : list A)
    (t : tables) : result tables :=
  match l with
  | [] => Ok t
  | a :: l => let! t := body t a in fold_tx body l t
  end.

(** ** Reads inside the transaction (actor_store_tokens.go) *)

(** The ORDER BY of these reads shows only in the audit details. *)
Definition tokenConnectionScopeTx (s : AuthStore) (fn : string) (t : tables)
    (tok : Z) : result (list ScopedConnection) :=
  ask s fn 20 [tok] (scope_connections t tok).

Definition tokenMCPScopeIDsTx (s : AuthStore) (fn : string) (t : tables)
    (tok : Z) : result (list Z) :=
  ask s fn 21 [tok] (scope_mcp t tok).

(** The LEFT JOIN, with the wildcard sentinel rendered as "*" and the rows
    that name no identifier dropped. *)
Definition scope_names (t : tables) (tok : Z) : list string :=
  concat (map (fun id =>
    if id =? MCPPrivilegeIDWildcard then [mcpScopeWildcard]
    else omap (fun p => if mcp_id p =? id then Some (Identifier p) else None)
              (mcp_privilege_identifiers t)) (scope_mcp t tok)).

Definition tokenMCPScopeNamesTx (s : AuthStore) (fn : string) (t : tables)
    (tok : Z) : result (list string) :=
  ask s fn 22 [tok] (scope_names t tok).

Definition tokenAdminScopeTx (s : AuthStore) (fn : string) (t : tables)
    (tok : Z) : result (list string) :=
  ask s fn 23 [tok] (scope_admin t tok).

(** ** Writes *)

(** The before and after reads are for the audit details; they can fail the
    write. *)
Definition writeTokenConnectionScopeTx (s : AuthStore) (t : tables) (tok : Z)
    (connections : list ScopedConnection) : result tables :=
  let fn := "writeTokenConnectionScopeTx"%string in
  let! _ := tokenConnectionScopeTx s fn t tok in
  let! t := ask s fn 0 [tok] (clear_conns t tok) in
  let! t := fold_tx (insert_conn s fn tok) connections t in
  let! _ := tokenConnectionScopeTx s (fn +:+ "/after") t tok in
  Ok t.

(** The ids INSERT ... SELECT id ... WHERE identifier = ? inserts. *)
Definition ids_named (t : tables) (identifier : string) : list Z :=
  omap (fun p => if String.eqb (Identifier p) identifier then Some (mcp_id p)
                 else None) (mcp_privilege_identifiers t).

Fixpoint write_mcp_names (s : AuthStore) (fn : string) (tok : Z)
    (identifiers : list string) (t : tables) : result tables :=
  match identifiers with
  | [] => Ok t
  | identifier :: rest =>
      if String.eqb identifier mcpScopeWildcard
      then insert_mcp s fn tok t MCPPrivilegeIDWildcard
      else
        let ids := ids_named t identifier in
        let! t := fold_tx (insert_mcp s fn tok) ids t in
        if is_nil ids then Err ErrUnknownMCPPrivilege
        else write_mcp_names s fn tok rest t
  end.

Definition writeTokenMCPScopeByNamesTx (s : AuthStore) (t : tables) (tok : Z)
    (identifiers : list string) : result tables :=
  let fn := "writeTokenMCPScopeByNamesTx"%string in
  let! _ := tokenMCPScopeNamesTx s fn t tok in
  let! t := ask s fn 0 [tok] (clear_mcp t tok) in
  let! t := write_mcp_names s fn tok identifiers t in
  let! _ := tokenMCPScopeNamesTx s (fn +:+ "/after") t tok in
  Ok t.

(** The permissions the loop inserts: it stops after the wildcard. *)
Fixpoint upto_wildcard (permissions : list string) : list string :=
  match permissions with
  | [] => []
  | perm :: rest =>
      if String.eqb perm AdminPermissionWildcard then [AdminPermissionWildcard]
      else perm :: upto_wildcard rest
  end.

Definition writeTokenAdminScopeTx (s : AuthStore) (t : tables) (tok : Z)
    (permissions : list string) : result tables :=
  let fn := "writeTokenAdminScopeTx"%string in
  let! _ := tokenAdminScopeTx s fn t tok in
  let! t := ask s fn 0 [tok] (clear_admin t tok) in
  let! t := fold_tx (insert_admin s fn tok) (upto_wildcard permissions) t in
  let! _ := tokenAdminScopeTx s (fn +:+ "/after") t tok in
  Ok t.

(** ** The stored scope (grant_scope.go, token_owner_guard.go) *)

Definition accessLevelRank (level : string) : nat :=
  if String.eqb level AccessLevelRead then 1
  else if String.eqb level AccessLevelReadWrite then 2 else 0.

(** [namedScope]: [None] for the set is an unrestricted kind. *)
Definition namedScope (entries : list string) (wildcard : string)
    : option (gset string) :=
  if is_nil entries then None
  else if existsb (String.eqb wildcard) entries then None
  else Some (list_to_set entries).

Definition conns_map (conns : list ScopedConnection) : gmap Z string :=
  foldl (fun m sc => <[ConnectionID sc := AccessLevel sc]> m) ∅ conns.

(** [storedTokenScope]; a restricted named kind is [Some] set. *)
Record storedTokenScope := {
  st_conns : gmap Z string;
  st_connsRestricted : bool;
  st_mcp : option (gset string);
  st_admin : option (gset string);
}.

Definition newStoredTokenScope (conns : list ScopedConnection)
    (mcpNames : list string) (hasMCPRows : bool) (adminPerms : list string)
    : storedTokenScope :=
  {| st_conns := conns_map conns;
     st_connsRestricted := negb (bool_decide (conns_map conns = ∅));
     st_mcp := match namedScope mcpNames mcpScopeWildcard with
               | Some set => Some set
               | None => if is_nil mcpNames && hasMCPRows then Some ∅ else None
               end;
     st_admin := namedScope adminPerms AdminPermissionWildcard |}.

Definition storedTokenScopeTx (s : AuthStore) (t : tables) (tok : Z)
    : result storedTokenScope :=
  let fn := "storedTokenScopeTx"%string in
  let! conns := tokenConnectionScopeTx s fn t tok in
  let! names := tokenMCPScopeNamesTx s fn t tok in
  let! ids := tokenMCPScopeIDsTx s fn t tok in
  let! perms := tokenAdminScopeTx s fn t tok in
  Ok (newStoredTokenScope conns names (negb (is_nil ids)) perms).

(** The lowest of the levels recorded, starting from [level]. *)
Definition lowest_level (level : string) (entries : list string) : string :=
  foldl (fun level entry =>
    if (accessLevelRank entry <? accessLevelRank level)%nat then entry
    else level) level entries.

(** [connectionLevel] of [storedTokenScope]. *)
Definition stored_connectionLevel (st : storedTokenScope) (connectionID : Z)
    : string :=
  if negb (st_connsRestricted st) then AccessLevelReadWrite
  else if connectionID =? ConnectionIDAll then
    match st_conns st !! ConnectionIDAll with
    | None => AccessLevelNone
    | Some level => lowest_level level (map snd (map_to_list (st_conns st)))
    end
  else match st_conns st !! connectionID with
       | Some level => level
       | None => default AccessLevelNone (st_conns st !! ConnectionIDAll)
       end.

(** [TokenScopeChange]; [None] is a kind left as it is. *)
Record TokenScopeChange := {
  ch_connections : option (list ScopedConnection);
  ch_mcp : option (list string);
  ch_admin : option (list string);
}.

Definition liftsRestriction {A} (supplied : option (list A)) (restricted : bool)
    : bool :=
  match supplied with
  | None => false
  | Some entries => is_nil entries && restricted
  end.

Definition restricted_kind (current : option (gset string)) : bool :=
  match current with Some _ => true | None => false end.

Definition namesWiden (entries : option (list string))
    (current : option (gset string)) : bool :=
  match current with
  | None => false
  | Some set => existsb (fun e => bool_decide (e ∉ set)) (default [] entries)
  end.

Definition widens (st : storedTokenScope) (change : TokenScopeChange) : bool :=
  liftsRestriction (ch_connections change) (st_connsRestricted st) ||
  liftsRestriction (ch_mcp change) (restricted_kind (st_mcp st)) ||
  liftsRestriction (ch_admin change) (restricted_kind (st_admin st)) ||
  existsb (fun sc =>
      (accessLevelRank (stored_connectionLevel st (ConnectionID sc))
         <? accessLevelRank (AccessLevel sc))%nat)
    (default [] (ch_connections change)) ||
  namesWiden (ch_mcp change) (st_mcp st) ||
  namesWiden (ch_admin change) (st_admin st).

(** ** Guards *)

Inductive TokenOwnerGuard :=
| AnyTokenOwner
| TokensOwnedBy (callerUserID : Z).

Definition token_owner (t : tables) (tok : Z) : option Z :=
  OwnerID <$> find (fun k => stored_token_id k =? tok) (tokens t).

(** [change] is [None] when the scope is being cleared. *)
Definition guardTokenOwnerTx (s : AuthStore) (t : tables) (tok : Z)
    (guard : TokenOwnerGuard) (change : option TokenScopeChange)
    : result unit :=
  match guard with
  | AnyTokenOwner => Ok tt
  | TokensOwnedBy callerUserID =>
      let! owner := ask s "guardTokenOwnerTx" 0 [tok] (token_owner t tok) in
      match owner with
      | None => Ok tt
      | Some ownerID =>
          if ownerID =? callerUserID then Ok tt
          else match change with
               | None => Err ErrTokenNotOwned
               | Some change =>
                   let! stored := storedTokenScopeTx s t tok in
                   if widens stored change then Err ErrTokenNotOwned else Ok tt
               end
      end
  end.

(** The owner row of a token, through the join. *)
Definition owner_is_superuser (t : tables) (tok : Z) : option bool :=
  match token_owner t tok with
  | None => None
  | Some o => IsSuperuserRow <$> find (fun u => user_id u =? o) (users t)
  end.

Definition guardSuperuserOwnedTokenTx (s : AuthStore) (t : tables) (tok : Z)
    (superuserOwnerAllowed : bool) : result unit :=
  if superuserOwnerAllowed then Ok tt
  else
    let! super := ask s "guardSuperuserOwnedTokenTx" 0 [tok]
                      (owner_is_superuser t tok) in
    match super with
    | Some true => Err ErrSuperuserTargetForbidden
    | _ => Ok tt
    end.

Record TokenScopeSnapshot := {
  snap_conns : gmap Z string; snap_mcp : gset Z; snap_admin : gset string;
}.

#[export] Instance TokenScopeSnapshot_eq_dec : EqDecision TokenScopeSnapshot.
Proof. solve_decision. Defined.

Definition newTokenScopeSnapshot (conns : list ScopedConnection)
    (mcpIDs : list Z) (admin : list string) : TokenScopeSnapshot :=
  {| snap_conns := conns_map conns; snap_mcp := list_to_set mcpIDs;
     snap_admin := list_to_set admin |}.

Definition tokenScopeSnapshotTx (s : AuthStore) (t : tables) (tok : Z)
    : result TokenScopeSnapshot :=
  let fn := "tokenScopeSnapshotTx"%string in
  let! conns := tokenConnectionScopeTx s fn t tok in
  let! ids := tokenMCPScopeIDsTx s fn t tok in
  let! admin := tokenAdminScopeTx s fn t tok in
  Ok (newTokenScopeSnapshot conns ids admin).

Definition guardJudgedTokenScopeTx (s : AuthStore) (t : tables) (tok : Z)
    (judged : option TokenScopeSnapshot) : result unit :=
  match judged with
  | None => Ok tt
  | Some judged =>
      let! current := tokenScopeSnapshotTx s t tok in
      if bool_decide (judged = current) then Ok tt else Err ErrTokenScopeChanged
  end.

(** ** The guarded transaction *)

Definition scope_event (action : string) (tok : Z) (ok : bool) : AuditEvent :=
  {| ev_action := action; ev_target := tok; ev_member := None;
     ev_success := ok |}.

(** [beginGuardedTokenScopeChange] followed by [body] and the failure
    handling the callers defer: [body] gives the tables to commit, or the
    action the failure is recorded under and the error. *)
Definition guarded_change (s : AuthStore) (tok : Z) (action : string)
    (superuserOwnerAllowed : bool) (owner : TokenOwnerGuard)
    (change : option TokenScopeChange) (judged : option TokenScopeSnapshot)
    (body : tables -> string * result tables) : tables * result unit :=
  match ask s "beginGuardedTokenScopeChange" 0 [] tt with
  | Err e => (db s, Err e)
  | Ok _ =>
      let t := db s in
      let guards :=
        let! _ := guardSuperuserOwnedTokenTx s t tok superuserOwnerAllowed in
        let! _ := guardTokenOwnerTx s t tok owner change in
        guardJudgedTokenScopeTx s t tok judged in
      match guards with
      | Err e => (failAudit s (scope_event action tok false) e, Err e)
      | Ok _ =>
          let '(action, outcome) := body t in
          match rbind outcome (ask s "commitTokenScopeChange" 0 [tok]) with
          | Ok t => (t, Ok tt)
          | Err e => (failAudit s (scope_event action tok false) e, Err e)
          end
      end
  end.

Definition actionSetConnectionScope : string := "token.scope.set_connections".
Definition actionSetMCPScope : string := "token.scope.set_tools".
Definition actionSetAdminScope : string := "token.scope.set_admin".
Definition actionClearScope : string := "token.scope.clear".

(** One scope kind: its audit action and its write. *)
Definition tokenScopeStep : Type := string * (tables -> result tables).

Fixpoint run_steps (s : AuthStore) (tok : Z) (action : string)
    (steps : list tokenScopeStep) (t : tables) : string * result tables :=
  match steps with
  | [] => (action, Ok t)
  | (action, write) :: rest =>
      match (let! t := write t in
             recordAudit s action t (scope_event action tok true)) with
      | Err e => (action, Err e)
      | Ok t => run_steps s tok action rest t
      end
  end.

Definition scope_steps (s : AuthStore) (tok : Z) (change : TokenScopeChange)
    : list tokenScopeStep :=
  match ch_mcp change with
  | None => []
  | Some names =>
      [(actionSetMCPScope, fun t => writeTokenMCPScopeByNamesTx s t tok names)]
  end ++
  match ch_connections change with
  | None => []
  | Some conns =>
      [(actionSetConnectionScope,
        fun t => writeTokenConnectionScopeTx s t tok conns)]
  end ++
  match ch_admin change with
  | None => []
  | Some perms =>
      [(actionSetAdminScope, fun t => writeTokenAdminScopeTx s t tok perms)]
  end.

Definition setTokenScope (s : AuthStore) (tok : Z) (change : TokenScopeChange)
    (superuserOwnerAllowed : bool) (owner : TokenOwnerGuard)
    (judged : option TokenScopeSnapshot) : tables * result unit :=
  let valid :=
    let! _ := from_option ValidateScopedConnections (Ok tt)
                          (ch_connections change) in
    from_option ValidateAdminPermissions (Ok tt) (ch_admin change) in
  match valid with
  | Err e => (db s, Err e)
  | Ok _ =>
      match scope_steps s tok change with
      | [] => (db s, Ok tt)
      | (action, write) :: rest =>
          guarded_change s tok action superuserOwnerAllowed owner (Some change)
            judged (run_steps s tok action ((action, write) :: rest))
      end
  end.

(** [clearTokenScope]; the read of the old scope is for the audit event. *)
Definition clearTokenScope (s : AuthStore) (tok : Z)
    (superuserOwnerAllowed : bool) (owner : TokenOwnerGuard)
    (judged : option TokenScopeSnapshot) : tables * result unit :=
  guarded_change s tok actionClearScope superuserOwnerAllowed owner None judged
    (fun t =>
       let fn := "clearTokenScope"%string in
       (actionClearScope,
        let! _ := tokenConnectionScopeTx s fn t tok in
        let! _ := tokenMCPScopeNamesTx s fn t tok in
        let! _ := tokenAdminScopeTx s fn t tok in
        let! t := ask s fn 0 [tok] (clear_conns t tok) in
        let! t := ask s fn 1 [tok] (clear_mcp t tok) in
        let! t := ask s fn 2 [tok] (clear_admin t tok) in
        recordAudit s actionClearScope t (scope_event actionClearScope tok true))).

(** The single-kind setters, which only the CLI calls. *)
Definition setTokenConnectionScope (s : AuthStore) (tok : Z)
    (connections : list ScopedConnection) (superuserOwnerAllowed : bool)
    : tables * result unit :=
  match ValidateScopedConnections connections with
  | Err e => (db s, Err e)
  | Ok _ =>
      guarded_change s tok actionSetConnectionScope superuserOwnerAllowed
        AnyTokenOwner None None
        (run_steps s tok actionSetConnectionScope
           [(actionSetConnectionScope,
             fun t => writeTokenConnectionScopeTx s t tok connections)])
  end.

Definition setTokenMCPScopeByNames (s : AuthStore) (tok : Z)
    (identifiers : list string) (superuserOwnerAllowed : bool)
    : tables * result unit :=
  guarded_change s tok actionSetMCPScope superuserOwnerAllowed
    AnyTokenOwner None None
    (run_steps s tok actionSetMCPScope
       [(actionSetMCPScope,
         fun t => writeTokenMCPScopeByNamesTx s t tok identifiers)]).

Definition setTokenMCPScope (s : AuthStore) (tok : Z) (privilegeIDs : list Z)
    (superuserOwnerAllowed : bool) : tables * result unit :=
  let fn := "setTokenMCPScope"%string in
  guarded_change s tok actionSetMCPScope superuserOwnerAllowed
    AnyTokenOwner None None
    (run_steps s tok actionSetMCPScope
       [(actionSetMCPScope, fun t =>
           let! _ := tokenMCPScopeIDsTx s fn t tok in
           let! t := ask s fn 0 [tok] (clear_mcp t tok) in
           let! t := fold_tx (insert_mcp s fn tok) privilegeIDs t in
           let! _ := tokenMCPScopeIDsTx s (fn +:+ "/after") t tok in
           Ok t)]).

Definition setTokenAdminScope (s : AuthStore) (tok : Z)
    (permissions : list string) (superuserOwnerAllowed : bool)
    : tables * result unit :=
  match ValidateAdminPermissions permissions with
  | Err e => (db s, Err e)
  | Ok _ =>
      guarded_change s tok actionSetAdminScope superuserOwnerAllowed
        AnyTokenOwner None None
        (run_steps s tok actionSetAdminScope
           [(actionSetAdminScope,
             fun t => writeTokenAdminScopeTx s t tok permissions)])
  end.

(** ** Well-formed scopes *)

Record well_formed (conns : list ScopedConnection) : Prop := {
  wf_level : Forall (fun sc => AccessLevel sc = AccessLevelRead \/
                               AccessLevel sc = AccessLevelReadWrite) conns;
  wf_id : Forall (fun sc => 0 <= ConnectionID sc) conns;
  wf_unique : NoDup (map ConnectionID conns);
  wf_wildcard : ConnectionIDAll ∈ map ConnectionID conns -> length conns = 1%nat;
}.

Lemma validate_entries_spec conns seen seen' :
  validate_entries seen conns = Ok seen' <->
  Forall (fun sc => AccessLevel sc = AccessLevelRead \/
                    AccessLevel sc = AccessLevelReadWrite) conns /\
  Forall (fun sc => 0 <= ConnectionID sc) conns /\
  NoDup (map ConnectionID conns) /\
  (forall c, c ∈ map ConnectionID conns -> c ∉ seen) /\
  seen' = foldl (fun X c => {[c]} ∪ X) seen (map ConnectionID conns).
Proof.
  revert seen. induction conns as [|sc conns IH]; intros seen; simpl.
  { split; [intros [= ->]; split_and!; try constructor; by intros ? ?%elem_of_nil|].
    by intros (_ & _ & _ & _ & ->). }
  rewrite !Forall_cons, NoDup_cons. setoid_rewrite elem_of_cons.
  destruct (String.eqb_spec (AccessLevel sc) AccessLevelRead) as [El|El],
    (String.eqb_spec (AccessLevel sc) AccessLevelReadWrite) as [El'|El'];
    cbn [negb andb]; try (split; [done|tauto]).
  all: destruct (Z.ltb_spec (ConnectionID sc) 0); [split; [done|lia]|].
  all: case_bool_decide as Hs; [split; [done|naive_solver]|].
  all: rewrite IH; split; [|naive_solver set_solver].
  all: intros (H1 & H2 & H3 & H4 & ->); split_and!; try tauto; set_solver.
Qed.

Lemma fold_union_elem (l : list Z) (X : gset Z) c :
  c ∈ foldl (fun X c => {[c]} ∪ X) X l <-> c ∈ X \/ c ∈ l.
Proof.
  revert X. induction l as [|d l IH]; intros X; simpl; [set_solver|].
  rewrite IH. set_solver.
Qed.

Lemma ValidateScopedConnections_spec conns :
  ValidateScopedConnections conns = Ok tt <-> well_formed conns.
Proof.
  unfold ValidateScopedConnections. rewrite rbind_Ok. split.
  - intros (seen & (H1 & H2 & H3 & _ & ->)%validate_entries_spec & H).
    constructor; [done..|]. intros H0.
    rewrite (bool_decide_eq_true_2 (ConnectionIDAll ∈ _)) in H
      by (apply fold_union_elem; auto). simpl in H.
    destruct conns as [|a [|b conns]]; [by apply elem_of_nil in H0|done|done].
  - intros [H1 H2 H3 H4]. eexists. split.
    { apply validate_entries_spec. split_and!; try done. }
    destruct (bool_decide _) eqn:E; [|done]. simpl.
    apply bool_decide_eq_true, fold_union_elem in E as [E|E]; [set_solver|].
    by rewrite H4.
Qed.

(** ** What a write leaves *)

(** The users, the groups and what they hold. *)
Definition same_grants (t t' : tables) : Prop :=
  users t = users t' /\ user_group_rows t = user_group_rows t' /\
  group_memberships t = group_memberships t' /\
  group_mcp_privileges t = group_mcp_privileges t' /\
  connection_privileges t = connection_privileges t' /\
  group_admin_permissions t = group_admin_permissions t'.

(** Everything but the scopes of [tok] is the same. *)
Record frame (tok : Z) (t t' : tables) : Prop := {
  fr_grants : same_grants t' t;
  fr_tokens : tokens t' = tokens t;
  fr_mcp_ids : mcp_privilege_identifiers t' = mcp_privilege_identifiers t;
  fr_conns : forall k, k <> tok -> scope_connections t' k = scope_connections t k;
  fr_mcp : forall k, k <> tok -> scope_mcp t' k = scope_mcp t k;
  fr_admin : forall k, k <> tok -> scope_admin t' k = scope_admin t k;
}.

Lemma frame_refl tok t : frame tok t t.
Proof. by constructor. Qed.

Lemma frame_trans tok t1 t2 t3 : frame tok t1 t2 -> frame tok t2 t3 -> frame tok t1 t3.
Proof.
  intros [A0 A1 A2 A3 A4 A5] [B0 B1 B2 B3 B4 B5].
  constructor; [unfold same_grants in *; naive_solver congruence|try congruence..];
    intros k Hk;
    [rewrite B3, A3|rewrite B4, A4|rewrite B5, A5]; done.
Qed.

(** The rows of a token after clearing a table and after one insert. *)
Lemma omap_cleared {A B} (tokf : A -> Z) (rowf : A -> B) (l : list A) tok k :
  omap (fun r => if tokf r =? k then Some (rowf r) else None)
    (filter (fun r => tokf r <> tok) l) =
  if k =? tok then []
  else omap (fun r => if tokf r =? k then Some (rowf r) else None) l.
Proof.
  induction l as [|a l IH]; [by destruct (k =? tok)|].
  rewrite filter_cons. case_decide as Hd; cbn [omap list_omap]; simpl; rewrite IH.
  - destruct (Z.eqb_spec (tokf a) k), (Z.eqb_spec k tok); try done. congruence.
  - destruct (Z.eqb_spec (tokf a) k), (Z.eqb_spec k tok); try done.
    exfalso. congruence.
Qed.

Lemma omap_inserted {A B} (tokf : A -> Z) (rowf : A -> B) (l : list A) a k :
  omap (fun r => if tokf r =? k then Some (rowf r) else None) (l ++ [a]) =
  omap (fun r => if tokf r =? k then Some (rowf r) else None) l ++
  (if tokf a =? k then [rowf a] else []).
Proof. rewrite omap_app. simpl. by destruct (tokf a =? k). Qed.

Lemma fold_tx_ind {A} (body : tables -> A -> result tables)
    (P : list A -> tables -> Prop) l t t' :
  P [] t ->
  (forall done_ a t t', P done_ t -> body t a = Ok t' -> P (done_ ++ [a]) t') ->
  fold_tx body l t = Ok t' -> P l t'.
Proof.
  intros H0 Hstep. cut (forall done_ l t, P done_ t -> fold_tx body l t = Ok t' ->
    P (done_ ++ l) t').
  { intros H. by apply (H [] l t). }
  clear t H0. intros done_ l0. revert done_.
  induction l0 as [|a l0 IH]; intros done_ t Hd; simpl.
  - intros [= <-]. by rewrite app_nil_r.
  - intros (t1 & Hb & Hf)%rbind_Ok. rewrite cons_middle, app_assoc.
    eapply IH; [|done]. by eapply Hstep.
Qed.

Lemma write_conns_Ok s t tok conns t' :
  writeTokenConnectionScopeTx s t tok conns = Ok t' ->
  frame tok t t' /\ scope_connections t' tok = conns /\
  scope_mcp t' tok = scope_mcp t tok /\ scope_admin t' tok = scope_admin t tok.
Proof.
  unfold writeTokenConnectionScopeTx, tokenConnectionScopeTx, ask.
  destruct (fault s _ 20%nat _); [done|]. destruct (fault s _ 0%nat _); [done|].
  cbn [rbind]. intros (t1 & Hf & H)%rbind_Ok. destruct (fault s _ _ _); [done|].
  injection H as <-. revert Hf.
  apply (fold_tx_ind _ (fun l t1 => frame tok t t1 /\
    scope_connections t1 tok = l /\ scope_mcp t1 tok = scope_mcp t tok /\
    scope_admin t1 tok = scope_admin t tok)).
  - split_and!; [constructor|..]; try done.
    + intros k Hk. unfold scope_connections. simpl. rewrite omap_cleared.
      by rewrite (proj2 (Z.eqb_neq k tok) Hk).
    + unfold scope_connections. simpl. by rewrite omap_cleared, Z.eqb_refl.
  - intros l sc u1 u2 (Hfr & Hc & Hm & Ha). unfold insert_conn, ask.
    destruct (_ && _ && _); [|done]. destruct (fault _ _ _ _); [done|].
    intros [= <-]. split_and!; try done.
    + eapply frame_trans; [done|]. constructor; try done.
      intros k Hk. unfold scope_connections. simpl. rewrite omap_inserted. simpl.
      by rewrite (proj2 (Z.eqb_neq tok k)), app_nil_r by congruence.
    + unfold scope_connections in *. simpl. rewrite omap_inserted. simpl.
      by rewrite Z.eqb_refl, Hc.
Qed.

Lemma write_admin_Ok s t tok perms t' :
  writeTokenAdminScopeTx s t tok perms = Ok t' ->
  frame tok t t' /\ scope_admin t' tok = upto_wildcard perms /\
  scope_mcp t' tok = scope_mcp t tok /\
  scope_connections t' tok = scope_connections t tok.
Proof.
  unfold writeTokenAdminScopeTx, tokenAdminScopeTx, ask.
  destruct (fault s _ 23%nat _); [done|]. destruct (fault s _ 0%nat _); [done|].
  cbn [rbind]. intros (t1 & Hf & H)%rbind_Ok. destruct (fault s _ _ _); [done|].
  injection H as <-. revert Hf.
  apply (fold_tx_ind _ (fun l t1 => frame tok t t1 /\
    scope_admin t1 tok = l /\ scope_mcp t1 tok = scope_mcp t tok /\
    scope_connections t1 tok = scope_connections t tok)).
  - split_and!; [constructor|..]; try done.
    + intros k Hk. unfold scope_admin. simpl. rewrite omap_cleared.
      by rewrite (proj2 (Z.eqb_neq k tok) Hk).
    + unfold scope_admin. simpl. by rewrite omap_cleared, Z.eqb_refl.
  - intros l p u1 u2 (Hfr & Hc & Hm & Ha). unfold insert_admin, ask.
    destruct (_ && _); [|done]. destruct (fault _ _ _ _); [done|].
    intros [= <-]. split_and!; try done.
    + eapply frame_trans; [done|]. constructor; try done.
      intros k Hk. unfold scope_admin. simpl. rewrite omap_inserted. simpl.
      by rewrite (proj2 (Z.eqb_neq tok k)), app_nil_r by congruence.
    + unfold scope_admin in *. simpl. rewrite omap_inserted. simpl.
      by rewrite Z.eqb_refl, Hc.
Qed.

Lemma insert_ids_Ok s fn tok ids t t' :
  fold_tx (insert_mcp s fn tok) ids t = Ok t' ->
  frame tok t t' /\ scope_mcp t' tok = scope_mcp t tok ++ ids /\
  scope_connections t' tok = scope_connections t tok /\
  scope_admin t' tok = scope_admin t tok.
Proof.
  apply (fold_tx_ind _ (fun l u => frame tok t u /\
    scope_mcp u tok = scope_mcp t tok ++ l /\
    scope_connections u tok = scope_connections t tok /\
    scope_admin u tok = scope_admin t tok)).
  - split_and!; rewrite ?app_nil_r; done || apply frame_refl.
  - intros l p u1 u2 (Hfr & Hc & Hm & Ha). unfold insert_mcp, ask.
    destruct (_ && _); [|done]. destruct (fault _ _ _ _); [done|].
    intros [= <-]. split_and!; try done.
    + eapply frame_trans; [done|]. constructor; try done.
      intros k Hk. unfold scope_mcp. simpl. rewrite omap_inserted. simpl.
      by rewrite (proj2 (Z.eqb_neq tok k)), app_nil_r by congruence.
    + unfold scope_mcp in *. simpl. rewrite omap_inserted. simpl.
      by rewrite Z.eqb_refl, Hc, <- app_assoc.
Qed.

Lemma ids_named_frame tok t t' n : frame tok t t' -> ids_named t' n = ids_named t n.
Proof. intros [_ _ H _ _ _]. unfold ids_named. by rewrite H. Qed.

Lemma write_mcp_names_Ok s fn tok names t t' :
  mcpScopeWildcard ∉ names ->
  write_mcp_names s fn tok names t = Ok t' ->
  frame tok t t' /\
  scope_mcp t' tok = scope_mcp t tok ++ concat (map (ids_named t) names) /\
  Forall (fun n => ids_named t n <> []) names /\
  scope_connections t' tok = scope_connections t tok /\
  scope_admin t' tok = scope_admin t tok.
Proof.
  revert t. induction names as [|n names IH]; intros t Hw; simpl.
  { intros [= <-].
    split_and!; rewrite ?app_nil_r; done || apply frame_refl || constructor. }
  rewrite elem_of_cons in Hw.
  destruct (String.eqb_spec n mcpScopeWildcard) as [->|]; [tauto|].
  intros (t1 & (Hf1 & Hm1 & Hc1 & Ha1)%insert_ids_Ok & H)%rbind_Ok.
  destruct (is_nil (ids_named t n)) eqn:Hn; [done|].
  apply IH in H as (Hf2 & Hm2 & Hall & Hc2 & Ha2); [|tauto].
  assert (map (ids_named t1) names = map (ids_named t) names) as Heq.
  { apply map_ext. intros x. by apply (ids_named_frame tok). }
  split_and!; [by eapply frame_trans| |..|congruence|congruence].
  - by rewrite Hm2, Hm1, Heq, <- app_assoc.
  - constructor; [by intros E; rewrite E in Hn|].
    eapply Forall_impl; [done|]. intros x Hx. simpl in Hx.
    by rewrite (ids_named_frame tok t t1) in Hx.
Qed.

Lemma write_mcp_Ok s t tok names t' :
  mcpScopeWildcard ∉ names ->
  writeTokenMCPScopeByNamesTx s t tok names = Ok t' ->
  frame tok t t' /\
  scope_mcp t' tok = concat (map (ids_named t) names) /\
  Forall (fun n => ids_named t n <> []) names /\
  scope_connections t' tok = scope_connections t tok /\
  scope_admin t' tok = scope_admin t tok.
Proof.
  intros Hw. unfold writeTokenMCPScopeByNamesTx, tokenMCPScopeNamesTx, ask.
  destruct (fault s _ 22%nat _); [done|]. destruct (fault s _ 0%nat _); [done|].
  cbn [rbind]. intros (t1 & Hf & H)%rbind_Ok. destruct (fault s _ _ _); [done|].
  injection H as <-. apply write_mcp_names_Ok in Hf as (H1 & H2 & H3 & H4 & H5); [|done].
  assert (frame tok t (clear_mcp t tok)) as Hfr.
  { constructor; try done. intros k Hk. unfold scope_mcp. simpl.
    rewrite omap_cleared. by rewrite (proj2 (Z.eqb_neq k tok) Hk). }
  assert (scope_mcp (clear_mcp t tok) tok = []) as Hnil.
  { unfold scope_mcp. simpl. by rewrite omap_cleared, Z.eqb_refl. }
  rewrite Hnil in H2. split_and!; try done. by eapply frame_trans.
Qed.

(** Whatever the names, only the MCP scope of the token changes. *)
Lemma write_mcp_names_frame s fn tok names t t' :
  write_mcp_names s fn tok names t = Ok t' ->
  frame tok t t' /\ scope_connections t' tok = scope_connections t tok /\
  scope_admin t' tok = scope_admin t tok.
Proof.
  revert t. induction names as [|n names IH]; intros t; simpl.
  { intros [= <-]. split_and!; done || apply frame_refl. }
  destruct (String.eqb n mcpScopeWildcard).
  { intros H.
    assert (fold_tx (insert_mcp s fn tok) [MCPPrivilegeIDWildcard] t = Ok t')
      as (? & _ & ? & ?)%insert_ids_Ok by (simpl; by rewrite H). done. }
  intros (t1 & (Hf1 & _ & Hc1 & Ha1)%insert_ids_Ok & H)%rbind_Ok.
  destruct (is_nil (ids_named t n)); [done|].
  apply IH in H as (Hf2 & Hc2 & Ha2).
  split_and!; [by eapply frame_trans|congruence|congruence].
Qed.

Lemma write_mcp_frame s t tok names t' :
  writeTokenMCPScopeByNamesTx s t tok names = Ok t' ->
  frame tok t t' /\ scope_connections t' tok = scope_connections t tok /\
  scope_admin t' tok = scope_admin t tok.
Proof.
  unfold writeTokenMCPScopeByNamesTx, tokenMCPScopeNamesTx, ask.
  destruct (fault s _ 22%nat _); [done|]. destruct (fault s _ 0%nat _); [done|].
  cbn [rbind]. intros (t1 & Hf & H)%rbind_Ok. destruct (fault s _ _ _); [done|].
  injection H as <-. apply write_mcp_names_frame in Hf as (H1 & H2 & H3).
  split_and!; try done. eapply frame_trans; [|done].
  constructor; try done. intros k Hk. unfold scope_mcp. simpl.
  rewrite omap_cleared. by rewrite (proj2 (Z.eqb_neq k tok) Hk).
Qed.

(** ** Scopes and stored scopes *)

Lemma conns_map_acc conns (m : gmap Z string) c :
  NoDup (map ConnectionID conns) ->
  foldl (fun m sc => <[ConnectionID sc := AccessLevel sc]> m) m conns !! c =
  match filter (fun sc => ConnectionID sc = c) conns with
  | [] => m !! c
  | sc :: _ => Some (AccessLevel sc)
  end.
Proof.
  revert m. induction conns as [|sc conns IH]; intros m; simpl; [done|].
  rewrite NoDup_cons. intros [Hn Hnd]. rewrite IH, filter_cons by done.
  case_decide as Hc; [|by rewrite lookup_insert_ne].
  destruct (filter _ conns) as [|sc' l] eqn:E; [subst c; by rewrite lookup_insert_eq|].
  exfalso. apply Hn. apply (list_elem_of_fmap ConnectionID). exists sc'.
  assert (sc' ∈ filter (fun sc => ConnectionID sc = c) conns) as Hin
    by (rewrite E; apply list_elem_of_here).
  apply list_elem_of_filter in Hin as [-> ?]. done.
Qed.

(** With one row per connection, the stored map is the scope's level. *)
Lemma conns_map_level t tok c :
  NoDup (map ConnectionID (scope_connections t tok)) ->
  conns_map (scope_connections t tok) !! c = scope_level t tok c.
Proof.
  intros Hnd. unfold conns_map, scope_level. rewrite conns_map_acc by done.
  by destruct (filter _ _).
Qed.

Lemma conns_map_empty conns : conns_map conns = ∅ <-> conns = [].
Proof.
  split; [|by intros ->]. destruct conns as [|sc conns]; [done|].
  intros H. exfalso.
  assert (forall l (m : gmap Z string), is_Some (m !! ConnectionID sc) ->
    is_Some (foldl (fun m sc => <[ConnectionID sc := AccessLevel sc]> m) m l
      !! ConnectionID sc)) as Hk.
  { intros l. induction l as [|a l IH]; intros m Hm; [done|]. apply IH.
    destruct (decide (ConnectionID a = ConnectionID sc)) as [->|];
      [rewrite lookup_insert_eq; eauto|by rewrite lookup_insert_ne]. }
  destruct (Hk conns (<[ConnectionID sc := AccessLevel sc]> ∅)) as [l Hl].
  { rewrite lookup_insert_eq. eauto. }
  assert (conns_map (sc :: conns) !! ConnectionID sc = Some l) as E by exact Hl.
  rewrite H, lookup_empty in E. done.
Qed.

Lemma lowest_level_le level entries :
  (accessLevelRank (lowest_level level entries) <= accessLevelRank level)%nat /\
  forall e, e ∈ entries ->
    (accessLevelRank (lowest_level level entries) <= accessLevelRank e)%nat.
Proof.
  revert level. induction entries as [|x entries IH]; intros level; simpl.
  { split; [done|]. intros e He. by apply elem_of_nil in He. }
  unfold lowest_level in *. simpl.
  destruct (Nat.ltb_spec (accessLevelRank x) (accessLevelRank level)).
  - destruct (IH x) as [H1 H2]. split; [lia|]. intros e He.
    apply elem_of_cons in He as [->|He]; [done|auto].
  - destruct (IH level) as [H1 H2]. split; [done|]. intros e He.
    apply elem_of_cons in He as [->|He]; [lia|auto].
Qed.

(** ** Narrowing *)

(** What a scope leaves of an owner's level, as a rank. *)
Definition cap_rank (scope : option string) (ownerLevel : string) : nat :=
  match scope with
  | None => 0
  | Some l => accessLevelRank (applyTokenCeiling l ownerLevel)
  end.

Definition real_level (l : string) : Prop :=
  l = AccessLevelRead \/ l = AccessLevelReadWrite.

Lemma rank_pos l : (1 <= accessLevelRank l)%nat <-> real_level l.
Proof.
  unfold accessLevelRank, real_level.
  destruct (String.eqb_spec l AccessLevelRead) as [->|]; [split; auto|].
  destruct (String.eqb_spec l AccessLevelReadWrite) as [->|]; [split; auto|].
  split; [lia|tauto].
Qed.

Lemma cap_le l l0 ul :
  real_level l -> real_level ul ->
  (accessLevelRank l <= accessLevelRank l0)%nat ->
  (cap_rank (Some l) ul <= cap_rank (Some l0) ul)%nat.
Proof.
  intros Hl Hu Hr. assert (real_level l0) as H0.
  { apply rank_pos. apply rank_pos in Hl. lia. }
  destruct Hl as [-> | ->], Hu as [-> | ->], H0 as [-> | ->]; vm_compute in *; lia.
Qed.

Lemma cap_unscoped l ul :
  real_level l -> real_level ul ->
  (cap_rank (Some l) ul <= cap_rank (Some AccessLevelNone) ul)%nat.
Proof. intros [-> | ->] [-> | ->]; vm_compute; lia. Qed.

(** The constraints of the schema the argument uses: one row per token and
    connection, privilege ids that are unique and start at 1, and no
    privilege called "*". *)
Record schema_ok (t : tables) (tok : Z) : Prop := {
  sch_conns : NoDup (map ConnectionID (scope_connections t tok));
  sch_id : forall p, p ∈ mcp_privilege_identifiers t -> mcp_id p <> 0;
  sch_unique : forall p q, p ∈ mcp_privilege_identifiers t ->
    q ∈ mcp_privilege_identifiers t -> mcp_id p = mcp_id q ->
    Identifier p = Identifier q;
  sch_star : forall p, p ∈ mcp_privilege_identifiers t ->
    Identifier p <> mcpScopeWildcard;
}.

Section Narrow.
Context (t : tables) (tok : Z) (Hsch : schema_ok t tok).

Let stored : storedTokenScope :=
  newStoredTokenScope (scope_connections t tok) (scope_names t tok)
    (negb (is_nil (scope_mcp t tok))) (scope_admin t tok).

Lemma stored_restricted :
  st_connsRestricted stored = negb (is_nil (scope_connections t tok)).
Proof.
  simpl. f_equal. apply eq_true_iff_eq.
  by rewrite bool_decide_eq_true, conns_map_empty, is_nil_true.
Qed.

Lemma stored_level c :
  st_connsRestricted stored = true -> c <> ConnectionIDAll ->
  stored_connectionLevel stored c = default AccessLevelNone (conn_scope t tok c).
Proof.
  intros Hr Hc. unfold stored_connectionLevel. rewrite Hr. cbn [negb].
  rewrite (proj2 (Z.eqb_neq c ConnectionIDAll) Hc).
  rewrite stored_restricted in Hr. apply negb_true_iff in Hr.
  unfold conn_scope. rewrite Hr. simpl.
  rewrite !conns_map_level by apply Hsch. by destruct (scope_level t tok c).
Qed.

(** The level recorded for all connections bounds the level on each. *)
Lemma stored_all_level c :
  st_connsRestricted stored = true ->
  (accessLevelRank (stored_connectionLevel stored ConnectionIDAll)
    <= accessLevelRank (default AccessLevelNone (conn_scope t tok c)))%nat.
Proof.
  intros Hr. unfold stored_connectionLevel. rewrite Hr. cbn [negb].
  rewrite Z.eqb_refl. rewrite stored_restricted in Hr. apply negb_true_iff in Hr.
  unfold conn_scope. rewrite Hr. simpl.
  rewrite conns_map_level by apply Hsch.
  destruct (scope_level t tok ConnectionIDAll) as [w|] eqn:Hw; [|apply Nat.le_0_l].
  destruct (lowest_level_le w (map snd (map_to_list (conns_map (scope_connections t tok)))))
    as [H1 H2].
  destruct (scope_level t tok c) as [l|] eqn:Hl; simpl; [|exact H1].
  apply H2. apply (list_elem_of_fmap snd). exists (c, l). split; [done|].
  apply elem_of_map_to_list. rewrite conns_map_level by apply Hsch. done.
Qed.

(** An entry the guard lets through is covered by the stored scope, on its
    own connection, and on every connection when it is the "all connections"
    entry. *)
Lemma entry_covered sc c ul :
  (accessLevelRank (AccessLevel sc)
     <= accessLevelRank (stored_connectionLevel stored (ConnectionID sc)))%nat ->
  real_level (AccessLevel sc) -> real_level ul ->
  ConnectionID sc = c \/ ConnectionID sc = ConnectionIDAll ->
  (cap_rank (Some (AccessLevel sc)) ul <= cap_rank (conn_scope t tok c) ul)%nat.
Proof.
  intros Hle Hl Hu Hc. destruct (st_connsRestricted stored) eqn:Hr.
  2:{ rewrite stored_restricted in Hr. apply negb_false_iff in Hr.
      unfold conn_scope. rewrite Hr. by apply cap_unscoped. }
  assert (accessLevelRank (AccessLevel sc)
    <= accessLevelRank (default AccessLevelNone (conn_scope t tok c)))%nat as Hle'.
  { destruct (decide (ConnectionID sc = ConnectionIDAll)) as [E|E].
    - rewrite E in Hle. pose proof (stored_all_level c Hr). lia.
    - destruct Hc as [Hc|]; [|done]. rewrite Hc in *. by rewrite stored_level in Hle. }
  destruct (conn_scope t tok c) as [l0|]; [by apply cap_le|].
  apply rank_pos in Hl. change (accessLevelRank (default _ None)) with 0%nat in Hle'.
  lia.
Qed.

Lemma narrow_conns t' entries :
  well_formed entries -> scope_connections t' tok = entries ->
  liftsRestriction (Some entries) (st_connsRestricted stored) = false ->
  existsb (fun sc =>
      (accessLevelRank (stored_connectionLevel stored (ConnectionID sc))
         <? accessLevelRank (AccessLevel sc))%nat) entries = false ->
  forall c ul, real_level ul ->
  (cap_rank (conn_scope t' tok c) ul <= cap_rank (conn_scope t tok c) ul)%nat.
Proof.
  intros Hwf Ht' Hlift Hw c ul Hu.
  assert (forall d l, scope_level t' tok d = Some l -> exists sc, sc ∈ entries /\
    ConnectionID sc = d /\ AccessLevel sc = l) as Hentry.
  { intros d l. unfold scope_level. rewrite Ht'.
    destruct (filter _ entries) as [|sc rest] eqn:E; [done|]. intros [= <-].
    exists sc. assert (sc ∈ filter (fun sc => ConnectionID sc = d) entries) as Hin
      by (rewrite E; apply list_elem_of_here).
    apply list_elem_of_filter in Hin. tauto. }
  assert (forall sc, sc ∈ entries -> ConnectionID sc = c \/
    ConnectionID sc = ConnectionIDAll ->
    (cap_rank (Some (AccessLevel sc)) ul <= cap_rank (conn_scope t tok c) ul)%nat) as Hcov.
  { intros sc Hin Hc. apply entry_covered; try done.
    - apply not_true_iff_false in Hw. destruct (Nat.lt_ge_cases
        (accessLevelRank (stored_connectionLevel stored (ConnectionID sc)))
        (accessLevelRank (AccessLevel sc))); [|done]. exfalso. apply Hw.
      apply existsb_exists. exists sc. split; [by apply list_elem_of_In|].
      by apply Nat.ltb_lt.
    - pose proof (wf_level _ Hwf) as Hall. rewrite Forall_forall in Hall. by apply Hall. }
  unfold conn_scope at 1. rewrite Ht'. destruct entries as [|e es].
  - cbn [liftsRestriction is_nil andb] in Hlift. rewrite stored_restricted in Hlift. apply negb_false_iff in Hlift.
    unfold conn_scope. by rewrite Hlift.
  - cbn [is_nil]. destruct (scope_level t' tok c) as [l|] eqn:Hl.
    { apply Hentry in Hl as (sc & Hin & Hc & <-). by apply Hcov; [|left]. }
    destruct (scope_level t' tok ConnectionIDAll) as [l|] eqn:Hl0; [|simpl; lia].
    apply Hentry in Hl0 as (sc & Hin & Hc & <-). by apply Hcov; [|right].
Qed.

Lemma namedScope_spec entries w :
  match namedScope entries w with
  | Some set => entries <> [] /\ (w ∉ entries) /\ set = list_to_set entries
  | None => entries = [] \/ w ∈ entries
  end.
Proof.
  unfold namedScope. destruct entries as [|e es]; [by left|]. cbn [is_nil].
  destruct (existsb (String.eqb w) (e :: es)) eqn:E.
  - right. by apply existsb_string.
  - split_and!; try done. rewrite <- existsb_string. by rewrite E.
Qed.

Lemma upto_wildcard_none perms :
  AdminPermissionWildcard ∉ perms -> upto_wildcard perms = perms.
Proof.
  induction perms as [|p perms IH]; simpl; [done|]. rewrite elem_of_cons.
  intros Hn. destruct (String.eqb_spec p AdminPermissionWildcard); [naive_solver|].
  f_equal. apply IH. tauto.
Qed.

Lemma upto_wildcard_sub perms x : x ∈ upto_wildcard perms -> x ∈ perms.
Proof.
  induction perms as [|p perms IH]; simpl; [done|].
  destruct (String.eqb_spec p AdminPermissionWildcard) as [->|];
    rewrite ?list_elem_of_singleton, ?elem_of_cons; tauto.
Qed.

(** Entries that do not widen a restricted kind are in its set. *)
Lemma names_kept entries set :
  liftsRestriction (Some entries) (restricted_kind (Some set)) = false ->
  namesWiden (Some entries) (Some set) = false ->
  entries <> [] /\ forall e, e ∈ entries -> e ∈ set.
Proof.
  simpl. rewrite andb_true_r. intros Hl Hw. split.
  { intros ->. done. }
  intros e He. destruct (decide (e ∈ set)) as [|Hn]; [done|].
  apply not_true_iff_false in Hw. exfalso. apply Hw, existsb_exists. exists e.
  split; [by apply list_elem_of_In|]. by apply bool_decide_eq_true.
Qed.

Lemma narrow_admin t' entries :
  scope_admin t' tok = upto_wildcard entries ->
  liftsRestriction (Some entries) (restricted_kind (st_admin stored)) = false ->
  namesWiden (Some entries) (st_admin stored) = false ->
  forall p, admin_in_scope t' tok p = true -> admin_in_scope t tok p = true.
Proof.
  intros Ht' Hlift Hw p. rewrite !admin_in_scope_spec, Ht'.
  change (st_admin stored) with
    (namedScope (scope_admin t tok) AdminPermissionWildcard) in *.
  pose proof (namedScope_spec (scope_admin t tok) AdminPermissionWildcard) as Hn.
  destruct (namedScope (scope_admin t tok) AdminPermissionWildcard) as [set|];
    [|tauto].
  destruct Hn as (Hne & Hstar & ->).
  destruct (names_kept _ _ Hlift Hw) as [Hne' Hin].
  assert (AdminPermissionWildcard ∉ entries) as Hns.
  { intros ?%Hin. by apply elem_of_list_to_set in H. }
  rewrite upto_wildcard_none by done. intros [?|[?|Hp]]; [done|done|].
  right. right. apply Hin in Hp. by apply elem_of_list_to_set in Hp.
Qed.

Lemma scope_names_spec n :
  n ∈ scope_names t tok <->
  (n = mcpScopeWildcard /\ MCPPrivilegeIDWildcard ∈ scope_mcp t tok) \/
  exists p, p ∈ mcp_privilege_identifiers t /\ Identifier p = n /\
    mcp_id p ∈ scope_mcp t tok.
Proof.
  unfold scope_names. rewrite list_elem_of_In, in_concat. split.
  - intros (l & Hl & Hn). apply in_map_iff in Hl as (id & <- & Hid).
    apply list_elem_of_In in Hid, Hn.
    destruct (Z.eqb_spec id MCPPrivilegeIDWildcard) as [->|Hne].
    + left. by apply list_elem_of_singleton in Hn.
    + right. apply list_elem_of_omap in Hn as (p & Hp & E).
      destruct (Z.eqb_spec (mcp_id p) id) as [<-|]; [|done].
      injection E as <-. eauto.
  - intros [[-> H0]|(p & Hp & <- & Hid)].
    + exists [mcpScopeWildcard]. split; [|by left]. apply in_map_iff.
      exists MCPPrivilegeIDWildcard. split; [done|by apply list_elem_of_In].
    + eexists. split; [apply in_map_iff; exists (mcp_id p); split;
        [reflexivity|by apply list_elem_of_In]|].
      rewrite (proj2 (Z.eqb_neq (mcp_id p) MCPPrivilegeIDWildcard))
        by (by apply Hsch). apply list_elem_of_In, list_elem_of_omap.
      exists p. by rewrite Z.eqb_refl.
Qed.

Lemma mcp_in_scope_spec u i :
  mcp_in_scope u tok i = true <->
  scope_mcp u tok = [] \/ MCPPrivilegeIDWildcard ∈ scope_mcp u tok \/
  exists p, p ∈ mcp_privilege_identifiers u /\ Identifier p = i /\
    mcp_id p ∈ scope_mcp u tok.
Proof.
  unfold mcp_in_scope. rewrite !orb_true_iff, existsb_string, is_nil_true.
  assert (forall z l, existsb (Z.eqb z) l = true <-> z ∈ l) as Hz.
  { intros z l. rewrite existsb_exists. setoid_rewrite Z.eqb_eq.
    rewrite list_elem_of_In. naive_solver. }
  rewrite Hz. unfold scope_mcp_names. rewrite list_elem_of_omap.
  assert ((exists x, x ∈ mcp_privilege_identifiers u /\
    (if existsb (Z.eqb (mcp_id x)) (scope_mcp u tok) then Some (Identifier x)
     else None) = Some i) <->
    exists p, p ∈ mcp_privilege_identifiers u /\ Identifier p = i /\
      mcp_id p ∈ scope_mcp u tok) as ->; [|tauto].
  split; intros (p & Hp & H); exists p; (split; [done|]).
  - destruct (existsb _ _) eqn:E; [|done]. injection H as <-. by apply Hz in E.
  - destruct H as [<- H]. by rewrite (proj2 (Hz _ _) H).
Qed.

Lemma ids_named_row entries id :
  id ∈ concat (map (ids_named t) entries) ->
  exists p, p ∈ mcp_privilege_identifiers t /\ mcp_id p = id /\ Identifier p ∈ entries.
Proof using.
  intros Hid. rewrite list_elem_of_In, in_concat in Hid.
  destruct Hid as (l & Hl & Hin'). apply in_map_iff in Hl as (n & <- & Hn').
  apply list_elem_of_In in Hin', Hn'. unfold ids_named in Hin'.
  apply list_elem_of_omap in Hin' as (p & Hp & E).
  destruct (String.eqb_spec (Identifier p) n) as [<-|]; [|done].
  injection E as <-. eauto.
Qed.

(** The items a written list of names admits. *)
Lemma written_mcp t' entries i :
  mcp_privilege_identifiers t' = mcp_privilege_identifiers t -> entries <> [] ->
  ((mcpScopeWildcard ∉ entries) ->
   scope_mcp t' tok = concat (map (ids_named t) entries) /\
   Forall (fun n => ids_named t n <> []) entries) ->
  mcp_in_scope t' tok i = true -> i ∈ entries \/ mcpScopeWildcard ∈ entries.
Proof.
  intros Hids Hne Hwrite.
  destruct (decide (mcpScopeWildcard ∈ entries)) as [|Hn]; [by right|].
  destruct (Hwrite Hn) as [E Hall]. rewrite mcp_in_scope_spec, Hids, E.
  intros [Hnil|[H0|(p & Hp & <- & Hid)]]; [..|left].
  - destruct entries as [|e es]; [done|]. simpl in Hnil.
    apply app_nil in Hnil as [Hnil _]. by apply Forall_cons in Hall as [? _].
  - apply ids_named_row in H0 as (p & Hp & E0 & _). exfalso.
    by apply (sch_id _ _ Hsch p Hp).
  - apply ids_named_row in Hid as (q & Hq & E0 & Hqn).
    by rewrite <- (sch_unique _ _ Hsch q p Hq Hp E0).
Qed.

Lemma narrow_mcp t' entries :
  mcp_privilege_identifiers t' = mcp_privilege_identifiers t ->
  ((mcpScopeWildcard ∉ entries) ->
   scope_mcp t' tok = concat (map (ids_named t) entries) /\
   Forall (fun n => ids_named t n <> []) entries) ->
  liftsRestriction (Some entries) (restricted_kind (st_mcp stored)) = false ->
  namesWiden (Some entries) (st_mcp stored) = false ->
  forall i, mcp_in_scope t' tok i = true -> mcp_in_scope t tok i = true.
Proof.
  intros Hids Hwrite Hlift Hw i. rewrite !mcp_in_scope_spec, Hids.
  change (st_mcp stored) with
    (match namedScope (scope_names t tok) mcpScopeWildcard with
     | Some set => Some set
     | None => if is_nil (scope_names t tok) && negb (is_nil (scope_mcp t tok))
               then Some ∅ else None
     end) in *.
  pose proof (namedScope_spec (scope_names t tok) mcpScopeWildcard) as Hn.
  destruct (namedScope (scope_names t tok) mcpScopeWildcard) as [set|].
  - destruct Hn as (Hne & Hstar & ->).
    destruct (names_kept _ _ Hlift Hw) as [Hne' Hin].
    setoid_rewrite elem_of_list_to_set in Hin.
    intros Hmcp. assert (mcp_in_scope t' tok i = true) as Hi
      by (by rewrite mcp_in_scope_spec, Hids).
    apply (written_mcp t' entries i Hids Hne' Hwrite) in Hi as [Hi|Hi];
      [|by apply Hin in Hi].
    apply Hin, scope_names_spec in Hi as [[-> ?]|?]; auto.
  - destruct Hn as [Hn|Hn].
    + rewrite Hn in *. cbn [is_nil andb] in *.
      destruct (is_nil (scope_mcp t tok)) eqn:E; [left; by apply is_nil_true|].
      cbn [negb] in *. destruct (names_kept _ _ Hlift Hw) as [Hne' Hin].
      destruct entries as [|e es]; [done|]. exfalso.
      specialize (Hin e ltac:(apply list_elem_of_here)). by apply elem_of_empty in Hin.
    + intros _. apply scope_names_spec in Hn as [[_ ?]|(p & Hp & E & _)]; [auto|].
      exfalso. by apply (sch_star _ _ Hsch p Hp).
Qed.
End Narrow.

(** ** The guarded transaction commits or changes nothing *)

Lemma guarded_change_Ok s tok action sup owner change judged body t' :
  guarded_change s tok action sup owner change judged body = (t', Ok tt) ->
  guardTokenOwnerTx s (db s) tok owner change = Ok tt /\
  guardSuperuserOwnedTokenTx s (db s) tok sup = Ok tt /\
  guardJudgedTokenScopeTx s (db s) tok judged = Ok tt /\
  snd (body (db s)) = Ok t'.
Proof.
  unfold guarded_change, ask. destruct (fault _ _ _ _); [done|].
  destruct (guardSuperuserOwnedTokenTx s (db s) tok sup) as [[]|]; [|done].
  destruct (guardTokenOwnerTx s (db s) tok owner change) as [[]|]; [|done].
  cbn [rbind]. destruct (guardJudgedTokenScopeTx s (db s) tok judged) as [[]|]; [|done].
  destruct (body (db s)) as [a [u|e]]; simpl; [|done].
  destruct (fault _ _ _ _); [done|]. by intros [= ->].
Qed.

Lemma guarded_change_Err s tok action sup owner change judged body t' e :
  guarded_change s tok action sup owner change judged body = (t', Err e) ->
  same_data t' (db s).
Proof.
  unfold guarded_change, ask. destruct (fault _ _ _ _); [by intros [= <- <-]|].
  destruct (rbind _ _) as [[]|e1]; [|intros [= <- <-]; apply failAudit_data].
  destruct (body (db s)) as [a out].
  destruct (rbind out _) as [u|e2]; [done|]. intros [= <- <-]. apply failAudit_data.
Qed.

Lemma same_data_scopes t t' tok :
  same_data t t' ->
  scope_connections t tok = scope_connections t' tok /\
  scope_mcp t tok = scope_mcp t' tok /\ scope_admin t tok = scope_admin t' tok /\
  mcp_privilege_identifiers t = mcp_privilege_identifiers t' /\
  tokens t = tokens t'.
Proof.
  intros (_ & _ & H3 & _ & H5 & _ & _ & _ & H9 & H10 & H11).
  unfold scope_connections, scope_mcp, scope_admin. by rewrite H9, H10, H11.
Qed.

(** One optional step of the change. *)
Lemma run_steps_opt {A} s tok a (o : option A) act (w : A -> tables -> result tables)
    rest t b t' :
  run_steps s tok a
    (match o with None => [] | Some x => [(act, w x)] end ++ rest) t = (b, Ok t') ->
  exists u a', run_steps s tok a' rest u = (b, Ok t') /\
    match o with
    | None => u = t
    | Some x => exists v, w x t = Ok v /\ same_data u v
    end.
Proof.
  destruct o as [x|]; simpl; [|eauto].
  destruct (w x t) as [v|e]; simpl; [|done]. unfold recordAudit, ask.
  destruct (fault _ _ _ _); simpl; [done|]. intros H.
  eexists _, _. split; [done|]. by exists v.
Qed.

Lemma setTokenScope_Err s tok change sup owner judged t' e :
  setTokenScope s tok change sup owner judged = (t', Err e) -> same_data t' (db s).
Proof.
  unfold setTokenScope. destruct (rbind _ _); [|by intros [= <- <-]].
  destruct (scope_steps s tok change) as [|[act w] rest]; [done|].
  apply guarded_change_Err.
Qed.

(** The writes of a successful change, one after the other. *)
Lemma setTokenScope_writes s tok change sup owner judged t' :
  setTokenScope s tok change sup owner judged = (t', Ok tt) ->
  scope_steps s tok change <> [] ->
  guardTokenOwnerTx s (db s) tok owner (Some change) = Ok tt /\
  (forall conns, ch_connections change = Some conns -> well_formed conns) /\
  exists u1 u2,
    match ch_mcp change with
    | None => u1 = db s
    | Some names => exists v,
        writeTokenMCPScopeByNamesTx s (db s) tok names = Ok v /\ same_data u1 v
    end /\
    match ch_connections change with
    | None => u2 = u1
    | Some conns => exists v,
        writeTokenConnectionScopeTx s u1 tok conns = Ok v /\ same_data u2 v
    end /\
    match ch_admin change with
    | None => t' = u2
    | Some perms => exists v,
        writeTokenAdminScopeTx s u2 tok perms = Ok v /\ same_data t' v
    end.
Proof.
  unfold setTokenScope. destruct (rbind _ _) eqn:Hv; [|done]. intros H Hne.
  apply rbind_Ok in Hv as ([] & Hv & _).
  assert (exists act, guarded_change s tok act sup owner (Some change) judged
    (run_steps s tok act (scope_steps s tok change)) = (t', Ok tt)) as (act & Hg).
  { destruct (scope_steps s tok change) as [|[act w] rest]; [done|]. by exists act. }
  apply guarded_change_Ok in Hg as (Hown & _ & _ & Hbody). split; [done|]. split.
  { intros conns E. rewrite E in Hv. by apply ValidateScopedConnections_spec. }
  destruct (run_steps s tok act (scope_steps s tok change) (db s)) as [b r] eqn:Hr.
  simpl in Hbody. subst r. unfold scope_steps in Hr.
  apply (run_steps_opt s tok _ _ _ (fun n t => writeTokenMCPScopeByNamesTx s t tok n))
    in Hr as (u1 & a1 & Hr & H1).
  apply (run_steps_opt s tok _ _ _ (fun n t => writeTokenConnectionScopeTx s t tok n))
    in Hr as (u2 & a2 & Hr & H2).
  rewrite <- (app_nil_r (match ch_admin change with _ => _ end)) in Hr.
  apply (run_steps_opt s tok _ _ _ (fun n t => writeTokenAdminScopeTx s t tok n))
    in Hr as (u3 & a3 & Hr & H3).
  injection Hr as <- <-. exists u1, u2. done.
Qed.

(** The scopes after a successful change, kind by kind. *)
Lemma setTokenScope_result s tok change sup owner judged t' :
  setTokenScope s tok change sup owner judged = (t', Ok tt) ->
  mcp_privilege_identifiers t' = mcp_privilege_identifiers (db s) /\
  scope_connections t' tok =
    default (scope_connections (db s) tok) (ch_connections change) /\
  scope_admin t' tok =
    from_option upto_wildcard (scope_admin (db s) tok) (ch_admin change) /\
  match ch_mcp change with
  | None => scope_mcp t' tok = scope_mcp (db s) tok
  | Some names => (mcpScopeWildcard ∉ names) ->
      scope_mcp t' tok = concat (map (ids_named (db s)) names) /\
      Forall (fun n => ids_named (db s) n <> []) names
  end.
Proof.
  intros Hset. destruct (scope_steps s tok change) as [|st sts] eqn:Hst.
  { unfold setTokenScope in Hset. rewrite Hst in Hset.
    destruct (rbind _ _); [|done]. injection Hset as <-. unfold scope_steps in Hst.
    by destruct (ch_mcp change), (ch_connections change), (ch_admin change). }
  apply setTokenScope_writes in Hset as (_ & _ & u1 & u2 & H1 & H2 & H3);
    [|by rewrite Hst]. clear Hst.
  assert (mcp_privilege_identifiers u1 = mcp_privilege_identifiers (db s) /\
    scope_connections u1 tok = scope_connections (db s) tok /\
    scope_admin u1 tok = scope_admin (db s) tok /\
    match ch_mcp change with
    | None => scope_mcp u1 tok = scope_mcp (db s) tok
    | Some names => (mcpScopeWildcard ∉ names) ->
        scope_mcp u1 tok = concat (map (ids_named (db s)) names) /\
        Forall (fun n => ids_named (db s) n <> []) names
    end) as (A1 & A2 & A3 & A4).
  { destruct (ch_mcp change) as [names|]; [|by subst u1].
    destruct H1 as (v & Hw & (E1 & E2 & E3 & E4 & _)%(same_data_scopes _ _ tok)).
    rewrite E1, E2, E3, E4.
    destruct (write_mcp_frame _ _ _ _ _ Hw) as ([_ _ F2 _ _ _] & F6 & F7).
    split_and!; try done. intros Hn.
    by destruct (write_mcp_Ok _ _ _ _ _ Hn Hw) as (_ & ? & ? & _). }
  assert (mcp_privilege_identifiers u2 = mcp_privilege_identifiers u1 /\
    scope_connections u2 tok =
      default (scope_connections u1 tok) (ch_connections change) /\
    scope_admin u2 tok = scope_admin u1 tok /\
    scope_mcp u2 tok = scope_mcp u1 tok) as (B1 & B2 & B3 & B4).
  { destruct (ch_connections change) as [conns|]; [|by subst u2].
    destruct H2 as (v & ([_ _ F2 _ _ _] & F6 & F7 & F8)%write_conns_Ok &
      (E1 & E2 & E3 & E4 & _)%(same_data_scopes _ _ tok)).
    simpl. split_and!; congruence. }
  assert (mcp_privilege_identifiers t' = mcp_privilege_identifiers u2 /\
    scope_connections t' tok = scope_connections u2 tok /\
    scope_admin t' tok =
      from_option upto_wildcard (scope_admin u2 tok) (ch_admin change) /\
    scope_mcp t' tok = scope_mcp u2 tok) as (C1 & C2 & C3 & C4).
  { destruct (ch_admin change) as [perms|]; [|by subst t'].
    destruct H3 as (v & ([_ _ F2 _ _ _] & F6 & F7 & F8)%write_admin_Ok &
      (E1 & E2 & E3 & E4 & _)%(same_data_scopes _ _ tok)).
    simpl. split_and!; congruence. }
  rewrite C1, C2, C3, C4, B1, B2, B3, B4, A1, A2, A3.
  split_and!; try done.
Qed.

Lemma frame_data tok t v u : frame tok t v -> same_data u v -> frame tok t u.
Proof.
  intros [H0 H1 H2 H3 H4 H5] Hd.
  assert (forall k, scope_connections u k = scope_connections v k /\
    scope_mcp u k = scope_mcp v k /\ scope_admin u k = scope_admin v k) as Hsc.
  { intros k. by destruct (same_data_scopes u v k Hd) as (-> & -> & -> & _). }
  destruct Hd as (? & ? & ? & ? & ? & ? & ? & ? & _).
  constructor; [unfold same_grants in *; naive_solver congruence|congruence..| | |];
    intros k Hk; destruct (Hsc k) as (E1 & E2 & E3); rewrite ?E1, ?E2, ?E3; auto.
Qed.

(** A change touches the scopes of its token and nothing else. *)
Lemma setTokenScope_frame s tok change sup owner judged t' :
  setTokenScope s tok change sup owner judged = (t', Ok tt) -> frame tok (db s) t'.
Proof.
  intros Hset. destruct (decide (scope_steps s tok change = [])) as [Hst|Hst].
  { unfold setTokenScope in Hset. rewrite Hst in Hset.
    destruct (rbind _ _); [|done]. injection Hset as <-. apply frame_refl. }
  apply setTokenScope_writes in Hset as (_ & _ & u1 & u2 & H1 & H2 & H3); [|done].
  assert (frame tok (db s) u1) as F1.
  { destruct (ch_mcp change); [|subst u1; apply frame_refl].
    destruct H1 as (v & (? & _)%write_mcp_frame & ?). by eapply frame_data. }
  assert (frame tok (db s) u2) as F2.
  { destruct (ch_connections change); [|by subst u2].
    destruct H2 as (v & (? & _)%write_conns_Ok & ?).
    eapply frame_trans; [done|]. by eapply frame_data. }
  destruct (ch_admin change); [|by subst t'].
  destruct H3 as (v & (? & _)%write_admin_Ok & ?).
  eapply frame_trans; [done|]. by eapply frame_data.
Qed.

Lemma clearTokenScope_Ok s tok sup owner judged t' :
  clearTokenScope s tok sup owner judged = (t', Ok tt) ->
  frame tok (db s) t' /\ scope_connections t' tok = [] /\
  scope_mcp t' tok = [] /\ scope_admin t' tok = [].
Proof.
  intros (_ & _ & _ & H)%guarded_change_Ok. revert H. cbn [snd].
  unfold tokenConnectionScopeTx, tokenMCPScopeNamesTx, tokenAdminScopeTx, recordAudit, ask.
  repeat (destruct (fault _ _ _ _); [done|]; cbn [rbind]). intros [= <-].
  unfold scope_connections, scope_mcp, scope_admin. simpl. split_and!.
  - constructor; try done; intros k Hk; unfold scope_connections, scope_mcp, scope_admin;
      simpl; rewrite omap_cleared; by rewrite (proj2 (Z.eqb_neq k tok) Hk).
  - by rewrite omap_cleared, Z.eqb_refl.
  - by rewrite omap_cleared, Z.eqb_refl.
  - by rewrite omap_cleared, Z.eqb_refl.
Qed.

(** The scope another caller's change was judged against. *)
Lemma guardTokenOwnerTx_narrows s tok caller owner change :
  token_owner (db s) tok = Some owner -> owner <> caller ->
  guardTokenOwnerTx s (db s) tok (TokensOwnedBy caller) (Some change) = Ok tt ->
  widens (newStoredTokenScope (scope_connections (db s) tok) (scope_names (db s) tok)
    (negb (is_nil (scope_mcp (db s) tok))) (scope_admin (db s) tok)) change = false.
Proof.
  intros Ho Hne. unfold guardTokenOwnerTx, storedTokenScopeTx,
    tokenConnectionScopeTx, tokenMCPScopeNamesTx, tokenMCPScopeIDsTx,
    tokenAdminScopeTx, ask.
  repeat (destruct (fault _ _ _ _); [done|]; cbn [rbind]; rewrite ?Ho;
          rewrite ?(proj2 (Z.eqb_neq owner caller) Hne)).
  by destruct (widens _ _).
Qed.

(** C10: Only a token's owner, or a caller free to act on any token, can widen
    it.  When someone else changes a token's scope, whatever kinds the change
    supplies, the token afterwards leaves no more of any owner level on any
    connection, and admits no MCP item and no admin permission it did not
    admit before; a change that is refused or fails leaves every scope as it
    was. *)
Theorem setTokenScope_narrows s tok change sup caller judged owner :
  schema_ok (db s) tok ->
  token_owner (db s) tok = Some owner -> owner <> caller ->
  let t' := fst (setTokenScope s tok change sup (TokensOwnedBy caller) judged) in
  (forall c ul, real_level ul ->
     (cap_rank (conn_scope t' tok c) ul <= cap_rank (conn_scope (db s) tok c) ul)%nat) /\
  (forall i, mcp_in_scope t' tok i = true -> mcp_in_scope (db s) tok i = true) /\
  (forall p, admin_in_scope t' tok p = true -> admin_in_scope (db s) tok p = true).
Proof.
  intros Hsch Hown Hne t'. unfold t'.
  assert (forall u, scope_connections u tok = scope_connections (db s) tok ->
    forall c, conn_scope u tok c = conn_scope (db s) tok c) as Hsc.
  { intros u E c. unfold conn_scope, scope_level. by rewrite E. }
  assert (forall u, scope_mcp u tok = scope_mcp (db s) tok ->
    mcp_privilege_identifiers u = mcp_privilege_identifiers (db s) ->
    forall i, mcp_in_scope u tok i = mcp_in_scope (db s) tok i) as Hsm.
  { intros u E1 E2 i. unfold mcp_in_scope, scope_mcp_names. by rewrite E1, E2. }
  assert (forall u, scope_admin u tok = scope_admin (db s) tok ->
    forall p, admin_in_scope u tok p = admin_in_scope (db s) tok p) as Hsa.
  { intros u E p. unfold admin_in_scope. by rewrite E. }
  destruct (setTokenScope s tok change sup (TokensOwnedBy caller) judged)
    as [u [[]|e]] eqn:Hset; simpl.
  2:{ apply setTokenScope_Err in Hset.
      destruct (same_data_scopes _ _ tok Hset) as (E1 & E2 & E3 & E4 & _).
      split_and!; intros *; [rewrite Hsc by done; lia|by rewrite Hsm|by rewrite Hsa]. }
  destruct (setTokenScope_result _ _ _ _ _ _ _ Hset) as (R1 & R2 & R3 & R4).
  destruct (decide (scope_steps s tok change = [])) as [Hst|Hst].
  { unfold setTokenScope in Hset. rewrite Hst in Hset.
    destruct (rbind _ _); [|done]. injection Hset as <-.
    split_and!; intros *; [lia|done|done]. }
  apply setTokenScope_writes in Hset as (Hg & Hwf & _); [|done].
  apply (guardTokenOwnerTx_narrows s tok caller owner change Hown Hne) in Hg.
  unfold widens in Hg. rewrite !orb_false_iff in Hg.
  destruct Hg as (((((G1 & G2) & G3) & G4) & G5) & G6). split_and!.
  - destruct (ch_connections change) as [conns|]; simpl in R2.
    + by apply (narrow_conns (db s) tok Hsch u conns); [apply Hwf|..].
    + intros c ul _. rewrite Hsc by done. lia.
  - destruct (ch_mcp change) as [names|].
    + by apply (narrow_mcp (db s) tok Hsch u names).
    + intros i. by rewrite Hsm.
  - destruct (ch_admin change) as [perms|]; simpl in R3.
    + by apply (narrow_admin (db s) tok u perms).
    + intros p. by rewrite Hsa.
Qed.

(** ** Round trip *)

Lemma token_exists_frame tok t t' k :
  frame tok t t' -> token_exists t' k = token_exists t k.
Proof. intros [_ H _ _ _ _]. unfold token_exists. by rewrite H. Qed.

(** A well-formed list goes into an empty scope without an error. *)
Lemma insert_conns_total s fn tok conns t :
  fault_free s -> token_exists t tok = true ->
  Forall (fun sc => AccessLevel sc = AccessLevelRead \/
                    AccessLevel sc = AccessLevelReadWrite) conns ->
  NoDup (map ConnectionID conns) ->
  (forall r, r ∈ scope_connections t tok ->
     ConnectionID r ∉ map ConnectionID conns) ->
  exists t', fold_tx (insert_conn s fn tok) conns t = Ok t'.
Proof.
  intros Hf. revert t. induction conns as [|sc conns IH]; intros t Ht; simpl; [eauto|].
  rewrite Forall_cons, NoDup_cons. intros [Hl Hls] [Hn Hnd] Hfresh.
  assert (insert_conn s fn tok t sc = Ok (set_scopes t (token_connection_scope t ++
    [{| tcs_token := tok; tcs_row := sc |}]) (token_mcp_scope t)
    (token_admin_scope t))) as ->.
  { unfold insert_conn, ask. rewrite Ht, Hf.
    assert (String.eqb (AccessLevel sc) AccessLevelRead ||
      String.eqb (AccessLevel sc) AccessLevelReadWrite = true) as ->.
    { apply orb_true_iff. by rewrite !String.eqb_eq. }
    rewrite (proj2 (forallb_forall _ _)); [done|]. intros r Hr.
    apply list_elem_of_In in Hr. apply negb_true_iff, Z.eqb_neq.
    specialize (Hfresh r Hr). rewrite elem_of_cons in Hfresh. tauto. }
  cbn [rbind]. apply IH; try done. intros r. unfold scope_connections. simpl.
  rewrite omap_inserted. simpl. rewrite Z.eqb_refl.
  rewrite elem_of_app, list_elem_of_singleton. intros [Hr| ->]; [|done].
  specialize (Hfresh r Hr). rewrite elem_of_cons in Hfresh. tauto.
Qed.

(** Writing a connection scope and reading it back.  With a working
    database, for a token that exists, the write succeeds exactly for a
    well-formed list: known levels, no negative or repeated connection, and
    the "all connections" entry alone.  The token's scope is then that list,
    no other token's scope changes, and a refused write changes nothing. *)
Lemma setTokenConnectionScope_roundtrip s tok conns :
  fault_free s -> token_exists (db s) tok = true ->
  let '(t', outcome) := setTokenConnectionScope s tok conns true in
  (outcome = Ok tt <-> well_formed conns) /\
  (outcome = Ok tt ->
     scope_connections t' tok = conns /\
     forall k, k <> tok -> scope_connections t' k = scope_connections (db s) k) /\
  (outcome <> Ok tt -> same_data t' (db s)).
Proof.
  intros Hf Ht. unfold setTokenConnectionScope.
  destruct (ValidateScopedConnections conns) as [[]|e] eqn:Hv.
  2:{ split_and!; try done. rewrite <- ValidateScopedConnections_spec, Hv. done. }
  apply ValidateScopedConnections_spec in Hv as Hwf.
  destruct (insert_conns_total s "writeTokenConnectionScopeTx" tok conns
    (clear_conns (db s) tok)) as [t1 Hins]; [done|done|apply Hwf|apply Hwf| |].
  { intros r. unfold scope_connections. simpl. rewrite omap_cleared, Z.eqb_refl.
    by intros ?%elem_of_nil. }
  assert (writeTokenConnectionScopeTx s (db s) tok conns = Ok t1) as Hw.
  { unfold writeTokenConnectionScopeTx, tokenConnectionScopeTx, ask. rewrite !Hf.
    cbn [rbind]. rewrite Hins. cbn [rbind]. by rewrite ?Hf. }
  unfold guarded_change, run_steps, recordAudit, ask. rewrite !Hf.
  cbn [rbind guardSuperuserOwnedTokenTx guardTokenOwnerTx guardJudgedTokenScopeTx].
  rewrite Hw. cbn [rbind]. rewrite ?Hf.
  apply write_conns_Ok in Hw as ([_ _ _ F3 _ _] & Hc & _).
  split_and!; [tauto|done|done].
Qed.

(** ** Stale judgements *)

Lemma guardJudged_Ok s tok snap :
  guardJudgedTokenScopeTx s (db s) tok (Some snap) = Ok tt ->
  snap = newTokenScopeSnapshot (scope_connections (db s) tok)
           (scope_mcp (db s) tok) (scope_admin (db s) tok).
Proof.
  unfold guardJudgedTokenScopeTx, tokenScopeSnapshotTx, tokenConnectionScopeTx,
    tokenMCPScopeIDsTx, tokenAdminScopeTx, ask.
  repeat (destruct (fault _ _ _ _); [done|]; cbn [rbind]).
  by case_bool_decide.
Qed.

(** A scope write approved against a scope that has since changed is
    refused: if a change that writes anything, or a clear, succeeds with the
    snapshot a ceiling check recorded, the stored connections, MCP rows and
    admin permissions are still the ones recorded; and one that does not
    succeed changes no data. *)
Theorem judged_scope_is_current s tok change sup owner snap t' outcome :
  ((scope_steps s tok change <> [] /\
    setTokenScope s tok change sup owner (Some snap) = (t', outcome)) \/
   clearTokenScope s tok sup owner (Some snap) = (t', outcome)) ->
  (outcome = Ok tt ->
   snap = newTokenScopeSnapshot (scope_connections (db s) tok)
            (scope_mcp (db s) tok) (scope_admin (db s) tok)) /\
  (outcome <> Ok tt -> same_data t' (db s)).
Proof.
  intros [[Hne H]|H].
  - split; [intros ->|].
    + unfold setTokenScope in H. destruct (rbind _ _); [|done].
      destruct (scope_steps s tok change) as [|[act w] rest]; [done|].
      apply guarded_change_Ok in H as (_ & _ & H & _). by apply guardJudged_Ok.
    + destruct outcome as [[]|e]; [done|]. intros _. by eapply setTokenScope_Err.
  - split; [intros ->|].
    + apply guarded_change_Ok in H as (_ & _ & H & _). by apply guardJudged_Ok.
    + destruct outcome as [[]|e]; [done|]. intros _. by eapply guarded_change_Err.
Qed.

(** ** A comment and the code *)

(** The comment on [setTokenAdminScope] says that a list containing "*" is
    stored as a single wildcard entry.  Names before the "*" are stored with
    it. *)
Definition one_token : AuthStore :=
  {| db := {| users := [{| user_id := 1; Username := "ada"; IsSuperuserRow := false |}];
              user_group_rows := []; tokens := [{| stored_token_id := 7; OwnerID := 1 |}];
              group_memberships := []; mcp_privilege_identifiers := [];
              group_mcp_privileges := []; connection_privileges := [];
              group_admin_permissions := []; token_connection_scope := [];
              token_mcp_scope := []; token_admin_scope := []; audit_events := [] |};
     fault := fun _ _ _ => false |}.

Lemma admin_wildcard_stored_with_names :
  let '(t', outcome) :=
    setTokenAdminScope one_token 7 ["manage_users"; "*"]%string true in
  outcome = Ok tt /\ scope_admin t' 7 = ["manage_users"; "*"]%string.
Proof. vm_compute. done. Qed.
