(* ===== verification/StoreInv.v ===== *)
(** * The store stays well formed

    What every table keeps at all times: the constraints of the schema
    (foreign keys, UNIQUE, CHECK) and the rules only the Go code enforces:
    the group hierarchy has no cycle, a token's "all connections" entry
    stands alone and its admin permissions are known ones.  Every mutation
    modelled here preserves all of it, whichever queries fail. *)
From stdpp Require Import base list strings gmap sets relations.
From S2P Require Import Prelude AuthStore Groups Grants Access TokenScope.

Local Open Scope Z_scope.
Local Open Scope res_scope.

(** ** Users, groups and what they hold *)

Definition member_ok (t : tables) (m : GroupMembership) : Prop :=
  group_exists t (ParentGroupID m) = true /\
  match MemberUserID m, MemberGroupID m with
  | Some u, None => user_exists t u = true
  | None, Some g => group_exists t g = true /\ ParentGroupID m <> g
  | _, _ => False
  end.

Record grants_wf (t : tables) : Prop := {
  gw_members : Forall (member_ok t) (group_memberships t);
  gw_members_unique : NoDup (group_memberships t);
  gw_acyclic : acyclic t;
  gw_conns : Forall (fun r => group_exists t (cp_group r) = true /\
                              real_level (cp_level r)) (connection_privileges t);
  gw_conns_unique :
    NoDup (map (fun r => (cp_group r, cp_connection r)) (connection_privileges t));
  gw_mcp : Forall (fun r => group_exists t (gmp_group r) = true)
                  (group_mcp_privileges t);
  gw_mcp_unique :
    NoDup (map (fun r => (gmp_group r, gmp_privilege r)) (group_mcp_privileges t));
  gw_admin : Forall (fun r => group_exists t (gap_group r) = true /\
                              gap_permission r ∈ storedAdminPermissions)
                    (group_admin_permissions t);
  gw_admin_unique :
    NoDup (map (fun r => (gap_group r, gap_permission r)) (group_admin_permissions t));
}.

(** ** Token scopes *)

Record scopes_wf (t : tables) : Prop := {
  sw_token tok : token_exists t tok = false ->
    scope_connections t tok = [] /\ scope_mcp t tok = [] /\ scope_admin t tok = [];
  sw_conns tok : well_formed (scope_connections t tok);
  sw_mcp tok : NoDup (scope_mcp t tok);
  sw_admin tok : NoDup (scope_admin t tok) /\
    Forall (fun p => p ∈ knownAdminPermissions) (scope_admin t tok);
}.

Definition store_wf (t : tables) : Prop := grants_wf t /\ scopes_wf t.

(** ** Lists *)

Lemma NoDup_map_filter {A B} (f : A -> B) (P : A -> Prop) `{!forall x, Decision (P x)} l :
  NoDup (map f l) -> NoDup (map f (filter P l)).
Proof.
  induction l as [|x l IH]; simpl; [done|]. rewrite NoDup_cons. intros [Hx Hl].
  rewrite filter_cons. case_decide; simpl; [|auto]. apply NoDup_cons. split; [|auto].
  intros (y & E & Hy)%list_elem_of_fmap. apply list_elem_of_filter in Hy as [_ Hy].
  apply Hx. apply list_elem_of_fmap. eauto.
Qed.

Lemma NoDup_map_snoc {A B} (f : A -> B) l x :
  NoDup (map f l) -> (forall y, y ∈ l -> f y <> f x) -> NoDup (map f (l ++ [x])).
Proof.
  intros Hl Hx. rewrite map_app. apply NoDup_app. split_and!; [done| |].
  - intros b (y & -> & Hy)%list_elem_of_fmap [E|E%elem_of_nil]%elem_of_cons; [|done].
    by apply (Hx y).
  - apply NoDup_singleton.
Qed.

Lemma Forall_kept {A} (P Q : A -> Prop) (R : A -> Prop) `{!forall x, Decision (R x)} l :
  Forall P l -> (forall x, P x -> R x -> Q x) -> Forall Q (filter R l).
Proof.
  rewrite !Forall_forall. intros Hp HQ x [Hr Hx]%list_elem_of_filter. auto.
Qed.

Lemma existsb_false {A} (P : A -> bool) l x : existsb P l = false -> x ∈ l -> P x = false.
Proof.
  intros H Hx. destruct (P x) eqn:E; [|done].
  assert (existsb P l = true); [|congruence]. apply existsb_exists. exists x.
  by rewrite <- list_elem_of_In.
Qed.

(** ** Tables that differ in the audit log only *)

Lemma store_wf_data t t' : same_data t' t -> store_wf t -> store_wf t'.
Proof.
  intros Hd. destruct t, t'. unfold same_data in Hd. simpl in Hd.
  destruct_and! Hd. subst. intros [[] []]. done.
Qed.

Lemma commits_wf s apply out :
  store_wf (db s) -> commits s apply out ->
  (forall t', apply (db s) = Ok t' -> store_wf t') -> store_wf (fst out).
Proof.
  intros Hw [(t' & Ht & Hd)|Hd] Hap; eapply store_wf_data; eauto.
Qed.

(** ** Rows added and removed *)

(** A change of the groups' tables leaves the scopes alone. *)
Lemma set_grants_scopes t gs ms mcp conns admin :
  scopes_wf t -> scopes_wf (set_grants t gs ms mcp conns admin).
Proof. by intros []. Qed.

Lemma set_memberships_scopes t ms : scopes_wf t -> scopes_wf (set_memberships t ms).
Proof. by intros []. Qed.

Lemma member_added_wf s fn t m t' :
  grants_wf t -> insert_membership s fn t m = Ok t' -> acyclic t' -> grants_wf t'.
Proof.
  intros [H1 H2 _ H4 H5 H6 H7 H8 H9] Hins Hac. pose proof Hins as ->%insert_membership_Ok.
  unfold insert_membership in Hins. destruct (_ && _ && _) eqn:E; [|done].
  rewrite !andb_true_iff, negb_true_iff in E. destruct E as [[Hp Hm] Hnew].
  split; try done; simpl.
  - apply Forall_app. split; [done|]. constructor; [|done]. split; [done|].
    destruct (MemberUserID m), (MemberGroupID m); try done.
    apply andb_true_iff in Hm as [? Hne]. split; [done|]. lia.
  - apply NoDup_app. split_and!; [done| |apply NoDup_singleton].
    intros r Hr [->|?%elem_of_nil]%elem_of_cons; [|done].
    apply (existsb_false _ _ m) in Hnew; [|done]. unfold same_row in Hnew.
    rewrite Z.eqb_refl in Hnew. destruct (MemberUserID m), (MemberGroupID m); try done;
      by rewrite bool_decide_eq_true_2 in Hnew.
Qed.

Lemma member_removed_wf s fn t m t' :
  grants_wf t -> delete_membership s fn t m = Ok t' -> grants_wf t'.
Proof.
  intros [H1 H2 H3 H4 H5 H6 H7 H8 H9] ->%delete_membership_Ok. split; try done; simpl.
  - eapply Forall_kept; [done|]. auto.
  - by apply NoDup_filter.
  - revert H3. apply acyclic_sub. intros x y. apply childOf_filtered.
Qed.

(** Replacing the tables of grants by well-formed ones. *)
Lemma set_grants_wf t mcp conns admin :
  grants_wf t ->
  Forall (fun r => group_exists t (gmp_group r) = true) mcp ->
  NoDup (map (fun r => (gmp_group r, gmp_privilege r)) mcp) ->
  Forall (fun r => group_exists t (cp_group r) = true /\ real_level (cp_level r)) conns ->
  NoDup (map (fun r => (cp_group r, cp_connection r)) conns) ->
  Forall (fun r => group_exists t (gap_group r) = true /\
                   gap_permission r ∈ storedAdminPermissions) admin ->
  NoDup (map (fun r => (gap_group r, gap_permission r)) admin) ->
  grants_wf (set_grants t (user_group_rows t) (group_memberships t) mcp conns admin).
Proof. intros [H1 H2 H3 _ _ _ _ _ _] ? ? ? ? ? ?. by split. Qed.

Lemma mcp_kept_wf t P `{!forall r, Decision (P r)} :
  grants_wf t -> grants_wf (set_mcp t (filter P (group_mcp_privileges t))).
Proof.
  intros Hw. pose proof Hw as [_ _ _ H4 H5 H6 H7 H8 H9]. apply set_grants_wf; try done.
  - eapply Forall_kept; [done|]. auto.
  - by apply NoDup_map_filter.
Qed.

Lemma conns_kept_wf t P `{!forall r, Decision (P r)} :
  grants_wf t -> grants_wf (set_conns t (filter P (connection_privileges t))).
Proof.
  intros Hw. pose proof Hw as [_ _ _ H4 H5 H6 H7 H8 H9]. apply set_grants_wf; try done.
  - eapply Forall_kept; [done|]. auto.
  - by apply NoDup_map_filter.
Qed.

Lemma admin_kept_wf t P `{!forall r, Decision (P r)} :
  grants_wf t -> grants_wf (set_admin t (filter P (group_admin_permissions t))).
Proof.
  intros Hw. pose proof Hw as [_ _ _ H4 H5 H6 H7 H8 H9]. apply set_grants_wf; try done.
  - eapply Forall_kept; [done|]. auto.
  - by apply NoDup_map_filter.
Qed.

Lemma insert_group_mcp_wf s fn t g p t' :
  grants_wf t -> insert_group_mcp s fn t g p = Ok t' -> grants_wf t'.
Proof.
  intros Hw. pose proof Hw as [_ _ _ H4 H5 H6 H7 H8 H9]. unfold insert_group_mcp.
  destruct (group_exists t g) eqn:Hg; [|done]. simpl. intros ->%ask_Ok.
  destruct (existsb _ _) eqn:E; [done|]. apply set_grants_wf; try done.
  - apply Forall_app. split; [done|]. by repeat constructor.
  - apply NoDup_map_snoc; [done|]. intros r Hr [= E1 E2].
    apply (existsb_false _ _ r) in E; [|done]. unfold mcp_row in E. lia.
Qed.

(** ** Grants and revocations *)

Lemma privilege_wf s action g apply :
  store_wf (db s) ->
  (forall t', apply (db s) = Ok t' -> grants_wf t' /\ scopes_wf t') ->
  store_wf (fst (privilege_change s action g apply)).
Proof.
  intros Hw H. eapply commits_wf; [done|apply privilege_change_commits|].
  intros t' Ht. by apply H.
Qed.

Lemma grantConnection_wf s g c l :
  store_wf (db s) -> store_wf (fst (grantConnectionPrivilege s g c l)).
Proof.
  intros [Hw Hs]. apply privilege_wf; [done|]. intros t'.
  destruct (_ && _) eqn:Hlv; [done|]. destruct (group_exists _ _) eqn:Hg; [|done].
  intros ->%ask_Ok. split; [|by apply set_grants_scopes].
  pose proof Hw as [_ _ _ H4 H5 H6 H7 H8 H9]. apply set_grants_wf; try done.
  - apply Forall_app. split; [eapply Forall_kept; [done|]; auto|].
    constructor; [|done]. split; [done|]. simpl. unfold real_level.
    destruct (String.eqb_spec l AccessLevelRead); [by left|].
    destruct (String.eqb_spec l AccessLevelReadWrite); [by right|done].
  - apply NoDup_map_snoc; [by apply NoDup_map_filter|].
    intros r [Hr _]%list_elem_of_filter [= E1 E2]. unfold conn_row in Hr. lia.
Qed.

Lemma grantMCP_wf s g p :
  store_wf (db s) -> store_wf (fst (grantMCPPrivilege s g p)).
Proof.
  intros [Hw Hs]. apply privilege_wf; [done|]. intros t' Ht.
  split; [by eapply insert_group_mcp_wf|].
  apply insert_group_mcp_Ok in Ht as [->| ->]; [done|by apply set_grants_scopes].
Qed.

Lemma grantMCPByName_wf s g x :
  store_wf (db s) -> store_wf (fst (grantMCPPrivilegeByName s g x)).
Proof.
  intros [Hw Hs]. apply privilege_wf; [done|]. cbv beta.
  intros t' (p & _ & (t1 & Ht1 & Hd)%rbind_Ok)%rbind_Ok.
  assert (grants_wf t1 /\ scopes_wf t1) as [Hw1 Hs1].
  { split; [by eapply insert_group_mcp_wf|].
    apply insert_group_mcp_Ok in Ht1 as [->| ->]; [done|by apply set_grants_scopes]. }
  destruct (String.eqb x "*"); [apply ask_Ok in Hd as ->|by injection Hd as <-].
  split; [by apply mcp_kept_wf|by apply set_grants_scopes].
Qed.

Lemma grantAdmin_wf s g p :
  store_wf (db s) -> store_wf (fst (grantAdminPermission s g p)).
Proof.
  intros [Hw Hs]. apply privilege_wf; [done|]. cbv beta.
  intros t' (_ & _ & (t1 & Ht1 & Hd)%rbind_Ok)%rbind_Ok.
  assert (grants_wf t1 /\ scopes_wf t1) as [Hw1 Hs1].
  { destruct (negb _ || _) eqn:E; [by apply ask_Ok in Ht1 as ->|].
    apply orb_false_iff in E as [Hk Hnew]. apply negb_false_iff in Hk.
    destruct (group_exists _ _) eqn:Hg; [|done]. apply ask_Ok in Ht1 as ->.
    split; [|by apply set_grants_scopes].
    pose proof Hw as [_ _ _ H4 H5 H6 H7 H8 H9]. apply set_grants_wf; try done.
    - apply Forall_app. split; [done|]. constructor; [|done]. split; [done|].
      by apply existsb_string.
    - apply NoDup_map_snoc; [done|]. intros r Hr [= E1 E2].
      apply (existsb_false _ _ r) in Hnew; [|done]. unfold admin_row in Hnew.
      by rewrite E1, E2, Z.eqb_refl, String.eqb_refl in Hnew. }
  destruct (String.eqb p _); [apply ask_Ok in Hd as ->|by injection Hd as <-].
  split; [by apply admin_kept_wf|by apply set_grants_scopes].
Qed.

Lemma revokeMCP_wf s g p :
  store_wf (db s) -> store_wf (fst (revokeMCPPrivilege s g p)).
Proof.
  intros [Hw Hs]. apply privilege_wf; [done|]. intros t' ->%delete_rows_Ok.
  split; [by apply mcp_kept_wf|by apply set_grants_scopes].
Qed.

Lemma revokeMCPByName_wf s g x :
  store_wf (db s) -> store_wf (fst (revokeMCPPrivilegeByName s g x)).
Proof.
  intros [Hw Hs]. apply privilege_wf; [done|]. cbv beta. intros t' ->%delete_rows_Ok.
  split; [by apply mcp_kept_wf|by apply set_grants_scopes].
Qed.

Lemma revokeConnection_wf s g c guard :
  store_wf (db s) -> store_wf (fst (revokeConnectionPrivilege s g c guard)).
Proof.
  intros [Hw Hs]. apply privilege_wf; [done|]. cbv beta.
  intros t' (_ & _ & ->%delete_rows_Ok)%rbind_Ok.
  split; [by apply conns_kept_wf|by apply set_grants_scopes].
Qed.

Lemma revokeAdmin_wf s g p :
  store_wf (db s) -> store_wf (fst (revokeAdminPermission s g p)).
Proof.
  intros [Hw Hs]. apply privilege_wf; [done|]. intros t' ->%delete_rows_Ok.
  split; [by apply admin_kept_wf|by apply set_grants_scopes].
Qed.

(** ** Deleting a group *)

Lemma group_exists_kept t gs ms mcp conns admin id g :
  gs = filter (fun g => (group_id g =? id) = false) (user_group_rows t) ->
  group_exists t g = true -> g <> id ->
  group_exists (set_grants t gs ms mcp conns admin) g = true.
Proof.
  intros -> Hg Hne. unfold group_exists in *. simpl.
  apply existsb_exists in Hg as (r & Hr & E). apply existsb_exists. exists r.
  split; [|done]. apply list_elem_of_In, list_elem_of_filter.
  split; [lia|]. by apply list_elem_of_In.
Qed.

Lemma group_deleted_wf t id :
  grants_wf t ->
  grants_wf (set_grants t
    (filter (fun g => (group_id g =? id) = false) (user_group_rows t))
    (filter (fun m => names_group id m = false) (group_memberships t))
    (filter (fun r => (gmp_group r =? id) = false) (group_mcp_privileges t))
    (filter (fun r => (cp_group r =? id) = false) (connection_privileges t))
    (filter (fun r => (gap_group r =? id) = false) (group_admin_permissions t))).
Proof.
  intros [H1 H2 H3 H4 H5 H6 H7 H8 H9].
  split; simpl; try by apply NoDup_map_filter.
  - eapply Forall_kept; [done|]. unfold names_group.
    intros m [Hp Hm] [E1 E2]%orb_false_iff. apply bool_decide_eq_false in E2.
    split; [by eapply group_exists_kept; [done..|lia]|].
    destruct (MemberUserID m), (MemberGroupID m) as [g|]; try done.
    destruct Hm as [Hg Hne]. split; [|done]. eapply group_exists_kept; [done..|].
    by intros ->.
  - by apply NoDup_filter.
  - revert H3. apply acyclic_sub. intros x y (m & Hm & E).
    apply list_elem_of_filter in Hm as [_ Hm]. by exists m.
  - eapply Forall_kept; [done|]. intros r [Hg Hr] E. split; [|done].
    eapply group_exists_kept; [done..|lia].
  - eapply Forall_kept; [done|]. intros r Hg E.
    eapply group_exists_kept; [done..|lia].
  - eapply Forall_kept; [done|]. intros r [Hg Hr] E. split; [|done].
    eapply group_exists_kept; [done..|lia].
Qed.

Lemma deleteGroup_wf s id guard :
  store_wf (db s) -> store_wf (fst (deleteGroup s id guard)).
Proof.
  intros [Hw Hs]. apply privilege_wf; [done|]. cbv beta.
  intros t' (_ & _ & (_ & _ & (t1 & ->%deleteGroupDependentsTx_Ok
    & ->%deleteGroupRowTx_Ok)%rbind_Ok)%rbind_Ok)%rbind_Ok.
  split; [exact (group_deleted_wf (db s) id Hw)|by do 2 apply set_grants_scopes].
Qed.

(** ** Memberships *)

Lemma group_step_wf t t' : group_step t t' -> store_wf t -> store_wf t'.
Proof.
  intros Hst [Hw Hs]. pose proof (group_step_acyclic t t' Hst (gw_acyclic _ Hw)) as Hac.
  assert (forall t1, same_data t' t1 -> acyclic t1) as Hac1.
  { intros t1 Hd. apply (same_data_acyclic t1 t'); [|done].
    unfold same_data in *. naive_solver. }
  destruct Hst as [f g u|f p c|f g u|f p c];
    (match goal with |- store_wf (fst ?out) =>
       destruct (membershipChange_commits {| db := t; fault := f |} _ _ _ _ : commits _ _ out)
         as [(t1 & Ht1 & Hd)|Hd] end);
    (eapply store_wf_data; [done|]; try done); simpl in Ht1.
  - split; [by eapply member_added_wf; [..|by apply Hac1]|].
    apply insert_membership_Ok in Ht1 as ->. by apply set_memberships_scopes.
  - apply rbind_Ok in Ht1 as (_ & _ & Ht1).
    split; [by eapply member_added_wf; [..|by apply Hac1]|].
    apply insert_membership_Ok in Ht1 as ->. by apply set_memberships_scopes.
  - split; [by eapply member_removed_wf|].
    apply delete_membership_Ok in Ht1 as ->. by apply set_memberships_scopes.
  - split; [by eapply member_removed_wf|].
    apply delete_membership_Ok in Ht1 as ->. by apply set_memberships_scopes.
Qed.

(** ** Writing a scope *)

Lemma frame_grants_wf tok t t' : frame tok t t' -> grants_wf t -> grants_wf t'.
Proof.
  intros [(? & ? & ? & ? & ? & ?) _ _ _ _ _]. destruct t, t'. simpl in *. subst.
  by intros [].
Qed.

(** It is enough to look at the token that was written. *)
Lemma frame_scopes_wf tok t t' :
  frame tok t t' -> scopes_wf t ->
  (token_exists t tok = false ->
     scope_connections t' tok = [] /\ scope_mcp t' tok = [] /\ scope_admin t' tok = []) ->
  well_formed (scope_connections t' tok) -> NoDup (scope_mcp t' tok) ->
  NoDup (scope_admin t' tok) /\
    Forall (fun p => p ∈ knownAdminPermissions) (scope_admin t' tok) ->
  scopes_wf t'.
Proof.
  intros Hfr [H1 H2 H3 H4] Ht Hc Hm Ha.
  pose proof Hfr as [_ _ _ F3 F4 F5].
  split; intros k; destruct (decide (k = tok)) as [->|Hne];
    rewrite ?(token_exists_frame tok t t') by done; rewrite ?F3, ?F4, ?F5 by done; auto.
Qed.

Lemma insert_ids_wf s fn tok ids t t' :
  fold_tx (insert_mcp s fn tok) ids t = Ok t' ->
  (NoDup (scope_mcp t tok) -> NoDup (scope_mcp t' tok)) /\
  (token_exists t tok = false -> ids = []).
Proof.
  intros H. split.
  - revert t H. induction ids as [|id ids IH]; intros t; simpl; [by intros [= <-]|].
    intros (t1 & H1 & H2)%rbind_Ok Hnd. apply (IH t1 H2). unfold insert_mcp in H1.
    destruct (_ && _) eqn:E; [|done]. apply andb_true_iff in E as [_ E%negb_true_iff].
    apply ask_Ok in H1 as ->. unfold scope_mcp in *. simpl.
    rewrite omap_inserted, Z.eqb_refl. apply NoDup_app. split_and!;
      [done| |apply NoDup_singleton].
    intros x Hx ->%list_elem_of_singleton. apply (existsb_false _ _ _ E) in Hx.
    simpl in Hx. lia.
  - destruct ids as [|id ids]; [done|]. simpl in H. intros Ht.
    apply rbind_Ok in H as (t1 & H1 & _). unfold insert_mcp in H1. by rewrite Ht in H1.
Qed.

Lemma write_mcp_names_wf s fn tok names t t' :
  write_mcp_names s fn tok names t = Ok t' ->
  (NoDup (scope_mcp t tok) -> NoDup (scope_mcp t' tok)) /\
  (token_exists t tok = false -> t' = t).
Proof.
  revert t. induction names as [|n names IH]; intros t; simpl; [by intros [= <-]|].
  destruct (String.eqb n mcpScopeWildcard).
  - intros H.
    assert (fold_tx (insert_mcp s fn tok) [MCPPrivilegeIDWildcard] t = Ok t')
      as [H1 H2]%insert_ids_wf by (simpl; by rewrite H).
    split; [done|]. intros Ht. by specialize (H2 Ht).
  - intros (t1 & Hf & H)%rbind_Ok. destruct (insert_ids_wf _ _ _ _ _ _ Hf) as [H1 H2].
    destruct (ids_named t n) as [|i ids]; [done|]. destruct (IH t1 H) as [H3 _].
    split; [auto|]. intros Ht. by specialize (H2 Ht).
Qed.

Lemma write_mcp_wf s t tok names t' :
  scopes_wf t -> writeTokenMCPScopeByNamesTx s t tok names = Ok t' -> scopes_wf t'.
Proof.
  intros Hs Hw. destruct (write_mcp_frame _ _ _ _ _ Hw) as (Hfr & Ec & Ea).
  unfold writeTokenMCPScopeByNamesTx in Hw. apply rbind_Ok in Hw as (_ & _ & Hw).
  apply rbind_Ok in Hw as (t1 & ->%ask_Ok & Hw). apply rbind_Ok in Hw as (t2 & Hn & Hw).
  apply rbind_Ok in Hw as (_ & _ & [= ->]). apply write_mcp_names_wf in Hn as [Hnd Hno].
  assert (scope_mcp (clear_mcp t tok) tok = []) as Hnil.
  { unfold scope_mcp. simpl. by rewrite omap_cleared, Z.eqb_refl. }
  rewrite Hnil in Hnd. pose proof Hs as [S1 S2 S3 S4].
  apply (frame_scopes_wf tok t); rewrite ?Ec, ?Ea; auto.
  - intros Ht. destruct (S1 tok Ht) as (-> & _ & ->). by rewrite (Hno Ht).
  - apply Hnd. constructor.
Qed.

Lemma write_conns_wf s t tok conns t' :
  scopes_wf t -> well_formed conns ->
  writeTokenConnectionScopeTx s t tok conns = Ok t' -> scopes_wf t'.
Proof.
  intros Hs Hwf Hw. destruct (write_conns_Ok _ _ _ _ _ Hw) as (Hfr & Ec & Em & Ea).
  pose proof Hs as [S1 S2 S3 S4].
  apply (frame_scopes_wf tok t); rewrite ?Ec, ?Em, ?Ea; auto.
  intros Ht. destruct (S1 tok Ht) as (_ & -> & ->). split; [|done].
  destruct conns as [|sc conns]; [done|]. exfalso.
  unfold writeTokenConnectionScopeTx in Hw. apply rbind_Ok in Hw as (_ & _ & Hw).
  apply rbind_Ok in Hw as (t1 & ->%ask_Ok & Hw). apply rbind_Ok in Hw as (t2 & Hn & _).
  simpl in Hn. apply rbind_Ok in Hn as (t3 & Hi & _). unfold insert_conn in Hi.
  change (token_exists (clear_conns t tok) tok) with (token_exists t tok) in Hi.
  by rewrite Ht in Hi.
Qed.

Lemma insert_admins_wf s fn tok perms t t' :
  fold_tx (insert_admin s fn tok) perms t = Ok t' ->
  (NoDup (scope_admin t tok) -> NoDup (scope_admin t' tok)) /\
  (token_exists t tok = false -> perms = []).
Proof.
  intros H. split.
  - revert t H. induction perms as [|p perms IH]; intros t; simpl; [by intros [= <-]|].
    intros (t1 & H1 & H2)%rbind_Ok Hnd. apply (IH t1 H2). unfold insert_admin in H1.
    destruct (_ && _) eqn:E; [|done]. apply andb_true_iff in E as [_ E%negb_true_iff].
    apply ask_Ok in H1 as ->. unfold scope_admin in *. simpl.
    rewrite omap_inserted, Z.eqb_refl. apply NoDup_app. split_and!;
      [done| |apply NoDup_singleton].
    intros x Hx ->%list_elem_of_singleton. apply (existsb_false _ _ _ E) in Hx.
    simpl in Hx. by rewrite String.eqb_refl in Hx.
  - destruct perms as [|p perms]; [done|]. simpl in H. intros Ht.
    apply rbind_Ok in H as (t1 & H1 & _). unfold insert_admin in H1. by rewrite Ht in H1.
Qed.

Lemma ValidateAdminPermissions_known perms :
  ValidateAdminPermissions perms = Ok tt -> Forall (fun p => p ∈ knownAdminPermissions) perms.
Proof.
  unfold ValidateAdminPermissions. destruct (forallb _ _) eqn:E; [|done]. intros _.
  rewrite forallb_forall in E. apply Forall_forall. intros p Hp%list_elem_of_In.
  by apply existsb_string, E.
Qed.

Lemma write_admin_wf s t tok perms t' :
  scopes_wf t -> ValidateAdminPermissions perms = Ok tt ->
  writeTokenAdminScopeTx s t tok perms = Ok t' -> scopes_wf t'.
Proof.
  intros Hs Hv%ValidateAdminPermissions_known Hw.
  destruct (write_admin_Ok _ _ _ _ _ Hw) as (Hfr & Ea & Em & Ec).
  unfold writeTokenAdminScopeTx in Hw. apply rbind_Ok in Hw as (_ & _ & Hw).
  apply rbind_Ok in Hw as (t1 & ->%ask_Ok & Hw). apply rbind_Ok in Hw as (t2 & Hn & Hw).
  apply rbind_Ok in Hw as (_ & _ & [= ->]). apply insert_admins_wf in Hn as [Hnd Hno].
  assert (scope_admin (clear_admin t tok) tok = []) as Hnil.
  { unfold scope_admin. simpl. by rewrite omap_cleared, Z.eqb_refl. }
  rewrite Hnil in Hnd. pose proof Hs as [S1 S2 S3 S4].
  apply (frame_scopes_wf tok t); rewrite ?Ec, ?Em; auto.
  - intros Ht. destruct (S1 tok Ht) as (-> & -> & _). split_and!; [done..|].
    by rewrite Ea, (Hno Ht).
  - split; [apply Hnd; constructor|]. rewrite Ea. rewrite Forall_forall in *.
    intros p Hp%upto_wildcard_sub. auto.
Qed.

(** ** The guarded transactions *)

Lemma guarded_wf s tok action sup owner change judged body :
  store_wf (db s) -> (forall t', snd (body (db s)) = Ok t' -> store_wf t') ->
  store_wf (fst (guarded_change s tok action sup owner change judged body)).
Proof.
  intros Hw Hb.
  destruct (guarded_change s tok action sup owner change judged body) as [t' [[]|e]] eqn:E.
  - apply guarded_change_Ok in E as (_ & _ & _ & E). by apply Hb.
  - apply guarded_change_Err in E. by eapply store_wf_data.
Qed.

Lemma one_step_wf s tok action act write :
  store_wf (db s) ->
  (forall t', write (db s) = Ok t' -> frame tok (db s) t' /\ scopes_wf t') ->
  forall t', snd (run_steps s tok action [(act, write)] (db s)) = Ok t' -> store_wf t'.
Proof.
  intros [Hw Hs] Hwr t'. simpl. destruct (write (db s)) as [v|] eqn:E; simpl; [|done].
  unfold recordAudit, ask. destruct (fault _ _ _ _); simpl; [done|]. intros [= <-].
  destruct (Hwr v eq_refl) as [Hfr Hsv]. apply (store_wf_data v); [done|].
  split; [by eapply frame_grants_wf|done].
Qed.

Lemma setTokenScope_wf s tok change sup owner judged :
  store_wf (db s) -> store_wf (fst (setTokenScope s tok change sup owner judged)).
Proof.
  intros [Hw Hs].
  destruct (setTokenScope s tok change sup owner judged) as [t' [[]|e]] eqn:E; simpl.
  2:{ apply setTokenScope_Err in E. by eapply store_wf_data. }
  pose proof (setTokenScope_frame _ _ _ _ _ _ _ E) as Hfr.
  split; [by eapply frame_grants_wf|].
  destruct (decide (scope_steps s tok change = [])) as [Hst|Hst].
  { unfold setTokenScope in E. rewrite Hst in E.
    destruct (rbind _ _); [|done]. by injection E as <-. }
  assert (forall perms, ch_admin change = Some perms ->
    ValidateAdminPermissions perms = Ok tt) as Hva.
  { intros perms Hp. unfold setTokenScope in E. destruct (rbind _ _) as [[]|] eqn:Hv; [|done].
    apply rbind_Ok in Hv as (_ & _ & Hv). by rewrite Hp in Hv. }
  assert (forall u v, same_data u v -> scopes_wf v -> scopes_wf u) as Hd.
  { intros u v Hd Hv. destruct u, v. unfold same_data in Hd. simpl in Hd.
    destruct_and! Hd. subst. by destruct Hv. }
  apply setTokenScope_writes in E as (_ & Hwf & u1 & u2 & H1 & H2 & H3); [|done].
  assert (scopes_wf u1) as S1.
  { destruct (ch_mcp change); [|by subst u1]. destruct H1 as (v & Hv & Hd1).
    eapply Hd; [done|]. by eapply write_mcp_wf. }
  assert (scopes_wf u2) as S2.
  { destruct (ch_connections change); [|by subst u2]. destruct H2 as (v & Hv & Hd1).
    eapply Hd; [done|]. by eapply write_conns_wf; [|apply Hwf|]. }
  destruct (ch_admin change); [|by subst t']. destruct H3 as (v & Hv & Hd1).
  eapply Hd; [done|]. by eapply write_admin_wf; [|apply Hva|].
Qed.

Lemma clearTokenScope_wf s tok sup owner judged :
  store_wf (db s) -> store_wf (fst (clearTokenScope s tok sup owner judged)).
Proof.
  intros [Hw Hs].
  destruct (clearTokenScope s tok sup owner judged) as [t' [[]|e]] eqn:E; simpl.
  2:{ apply guarded_change_Err in E. by eapply store_wf_data. }
  apply clearTokenScope_Ok in E as (Hfr & Ec & Em & Ea).
  split; [by eapply frame_grants_wf|].
  apply (frame_scopes_wf tok (db s)); rewrite ?Ec, ?Em, ?Ea; auto using NoDup_nil_2.
  split; try constructor. by intros ?%elem_of_nil.
Qed.

Lemma setTokenConnectionScope_wf s tok conns sup :
  store_wf (db s) -> store_wf (fst (setTokenConnectionScope s tok conns sup)).
Proof.
  intros Hw. unfold setTokenConnectionScope.
  destruct (ValidateScopedConnections conns) as [[]|] eqn:Hv; [|done].
  apply ValidateScopedConnections_spec in Hv.
  apply guarded_wf; [done|]. apply one_step_wf; [done|]. intros t' Ht.
  split; [by apply write_conns_Ok in Ht as (? & _)|].
  eapply write_conns_wf; [apply Hw|done..].
Qed.

Lemma setTokenAdminScope_wf s tok perms sup :
  store_wf (db s) -> store_wf (fst (setTokenAdminScope s tok perms sup)).
Proof.
  intros Hw. unfold setTokenAdminScope.
  destruct (ValidateAdminPermissions perms) as [[]|] eqn:Hv; [|done].
  apply guarded_wf; [done|]. apply one_step_wf; [done|]. intros t' Ht.
  split; [by apply write_admin_Ok in Ht as (? & _)|].
  eapply write_admin_wf; [apply Hw|done..].
Qed.

Lemma setTokenMCPScopeByNames_wf s tok names sup :
  store_wf (db s) -> store_wf (fst (setTokenMCPScopeByNames s tok names sup)).
Proof.
  intros Hw. apply guarded_wf; [done|]. apply one_step_wf; [done|]. intros t' Ht.
  split; [by apply write_mcp_frame in Ht as (? & _)|].
  eapply write_mcp_wf; [apply Hw|done].
Qed.

Lemma setTokenMCPScope_wf s tok ids sup :
  store_wf (db s) -> store_wf (fst (setTokenMCPScope s tok ids sup)).
Proof.
  intros Hw. apply guarded_wf; [done|]. apply one_step_wf; [done|].
  intros t' (_ & _ & (t1 & ->%ask_Ok & (t2 & Hf & (_ & _ & [= <-])%rbind_Ok)%rbind_Ok)%rbind_Ok)%rbind_Ok.
  destruct (insert_ids_Ok _ _ _ _ _ _ Hf) as (Hfr & Em & Ec & Ea).
  destruct (insert_ids_wf _ _ _ _ _ _ Hf) as [Hnd Hno].
  assert (frame tok (db s) (clear_mcp (db s) tok)) as Hfr0.
  { constructor; try done. intros k Hk. unfold scope_mcp. simpl. rewrite omap_cleared.
    by rewrite (proj2 (Z.eqb_neq k tok) Hk). }
  assert (scope_mcp (clear_mcp (db s) tok) tok = []) as Hnil.
  { unfold scope_mcp. simpl. by rewrite omap_cleared, Z.eqb_refl. }
  rewrite Hnil in *. assert (frame tok (db s) t2) as Hfr2 by by eapply frame_trans.
  split; [done|]. destruct Hw as [_ Hs]. pose proof Hs as [S1 S2 S3 S4].
  apply (frame_scopes_wf tok (db s)); rewrite ?Ec, ?Ea; [done|done|..].
  - intros Ht. destruct (S1 tok Ht) as (E1 & _ & E3).
    split_and!; [exact E1| |exact E3]. by rewrite Em, (Hno Ht).
  - apply S2.
  - apply Hnd. constructor.
  - apply S4.
Qed.

(** ** Every mutation *)

Inductive store_step (t : tables) : tables -> Prop :=
| step_membership t' : group_step t t' -> store_step t t'
| step_grant_mcp f g p :
    store_step t (fst (grantMCPPrivilege {| db := t; fault := f |} g p))
| step_grant_mcp_name f g x :
    store_step t (fst (grantMCPPrivilegeByName {| db := t; fault := f |} g x))
| step_revoke_mcp f g p :
    store_step t (fst (revokeMCPPrivilege {| db := t; fault := f |} g p))
| step_revoke_mcp_name f g x :
    store_step t (fst (revokeMCPPrivilegeByName {| db := t; fault := f |} g x))
| step_grant_connection f g c l :
    store_step t (fst (grantConnectionPrivilege {| db := t; fault := f |} g c l))
| step_revoke_connection f g c guard :
    store_step t (fst (revokeConnectionPrivilege {| db := t; fault := f |} g c guard))
| step_grant_admin f g p :
    store_step t (fst (grantAdminPermission {| db := t; fault := f |} g p))
| step_revoke_admin f g p :
    store_step t (fst (revokeAdminPermission {| db := t; fault := f |} g p))
| step_delete_group f g guard :
    store_step t (fst (deleteGroup {| db := t; fault := f |} g guard))
| step_set_scope f tok change sup owner judged :
    store_step t (fst (setTokenScope {| db := t; fault := f |} tok change sup owner judged))
| step_clear_scope f tok sup owner judged :
    store_step t (fst (clearTokenScope {| db := t; fault := f |} tok sup owner judged))
| step_set_connections f tok conns sup :
    store_step t (fst (setTokenConnectionScope {| db := t; fault := f |} tok conns sup))
| step_set_tools f tok ids sup :
    store_step t (fst (setTokenMCPScope {| db := t; fault := f |} tok ids sup))
| step_set_tool_names f tok names sup :
    store_step t (fst (setTokenMCPScopeByNames {| db := t; fault := f |} tok names sup))
| step_set_admin f tok perms sup :
    store_step t (fst (setTokenAdminScope {| db := t; fault := f |} tok perms sup)).

#[export] Hint Resolve group_step_wf grantMCP_wf grantMCPByName_wf revokeMCP_wf
  revokeMCPByName_wf grantConnection_wf revokeConnection_wf grantAdmin_wf revokeAdmin_wf
  deleteGroup_wf setTokenScope_wf clearTokenScope_wf setTokenConnectionScope_wf
  setTokenAdminScope_wf setTokenMCPScopeByNames_wf setTokenMCPScope_wf : wb.

(** C29: The store stays well formed.  Start from well-formed tables and run
    any sequence of mutations, with any query of any of them failing: no
    membership, grant or scope names a group, user or token that does not
    exist, none is stored twice, levels and permissions are known ones, the
    group hierarchy has no cycle, and in a token's scope the entry for all
    connections stands alone. *)
Theorem store_stays_well_formed t t' :
  rtc store_step t t' -> store_wf t -> store_wf t'.
Proof.
  induction 1 as [|x y z Hxy _ IH]; [done|]. intros Hw. apply IH.
  destruct Hxy; [by eapply group_step_wf|..]; auto with wb.
Qed.
