(* ===== verification/Reach.v ===== *)
(** * What a caller reaches, as ranks

    The level a caller has on a connection, as a number: 0 for none, 1 for
    read and 2 for read_write.  On ranks the rules of access.go are minima
    and maxima: a token caps its owner's rank, and the grants of a user's
    groups give the highest of their ranks. *)
From stdpp Require Import base list strings gmap sets relations.
From S2P Require Import Prelude AuthStore Groups Access TokenScope.

Local Open Scope Z_scope.

(** ** Levels *)

(** The CHECK on connection_privileges.access_level (store.go). *)
Definition levels_ok (t : tables) : Prop :=
  Forall (fun r => real_level (cp_level r)) (connection_privileges t).

Lemma rank_le2 l : (accessLevelRank l <= 2)%nat.
Proof. unfold accessLevelRank. split_ifs; lia. Qed.

Lemma rank_write l : (2 <= accessLevelRank l)%nat <-> l = AccessLevelReadWrite.
Proof.
  unfold accessLevelRank.
  destruct (String.eqb_spec l AccessLevelRead) as [->|]; [by split; [lia|]|].
  destruct (String.eqb_spec l AccessLevelReadWrite); split; [done..|lia|done].
Qed.

(** What is left of read_write under a scope entry. *)
Definition cap_of (scopeLevel : string) : nat :=
  if String.eqb scopeLevel AccessLevelNone ||
     String.eqb scopeLevel AccessLevelReadWrite then 2 else 1.

Lemma ceiling_rank x l :
  real_level l ->
  accessLevelRank (applyTokenCeiling x l) = (cap_of x `min` accessLevelRank l)%nat.
Proof.
  unfold applyTokenCeiling, knownAccessLevel, cap_of.
  intros [->| ->]; simpl; rewrite ?orb_true_r, ?orb_false_r; cbn;
    destruct (String.eqb_spec x AccessLevelNone) as [->|?];
    [done|..]; try done;
    destruct (String.eqb_spec x AccessLevelRead) as [->|?]; try done;
    destruct (String.eqb_spec x AccessLevelReadWrite) as [->|?]; done.
Qed.

Lemma cap_pos x : (1 <= cap_of x)%nat.
Proof. unfold cap_of. split_ifs; lia. Qed.

Lemma rank_cap l : (accessLevelRank l <= cap_of l)%nat.
Proof.
  unfold accessLevelRank, cap_of.
  destruct (String.eqb_spec l AccessLevelRead) as [->|]; [cbn; lia|].
  destruct (String.eqb_spec l AccessLevelReadWrite) as [->|]; cbn; [done|lia].
Qed.

(** ** Users *)

Definition user_rank (t : tables) (u c : Z) : nat :=
  from_option accessLevelRank 0%nat
    (resolveConnectionAccess (user_conns t u) c).

Lemma grant_real t u c l : levels_ok t -> conn_grant t u c l -> real_level l.
Proof.
  intros Hl (g & _ & Hin). unfold group_conn_rows in Hin.
  apply list_elem_of_omap in Hin as (r & Hr & E).
  destruct (cp_group r =? g); [|done]. injection E as _ <-.
  unfold levels_ok in Hl. rewrite Forall_forall in Hl. by apply Hl.
Qed.

(** The level kept for a connection is the highest granted. *)
Lemma user_conns_rank t u c l :
  levels_ok t -> conn_grant t u c l ->
  exists l', user_conns t u !! c = Some l' /\
    (accessLevelRank l <= accessLevelRank l')%nat.
Proof.
  intros Hl Hg. pose proof (user_conns_spec t u c) as Hc.
  destruct (user_conns t u !! c) as [l'|]; [|by apply Hc in Hg].
  destruct Hc as [Hg' Hrw]. exists l'. split; [done|].
  destruct (grant_real t u c l Hl Hg) as [->| ->]; [|by rewrite Hrw].
  apply rank_pos. by eapply grant_real.
Qed.

Lemma resolve_level t u c l :
  resolveConnectionAccess (user_conns t u) c = Some l ->
  exists c0, (c0 = c \/ c0 = ConnectionIDAll) /\ conn_grant t u c0 l.
Proof.
  unfold resolveConnectionAccess.
  pose proof (user_conns_spec t u c) as Hc.
  pose proof (user_conns_spec t u ConnectionIDAll) as Hw.
  destruct (user_conns t u !! c) as [lc|], (user_conns t u !! ConnectionIDAll) as [lw|];
    [|naive_solver..].
  destruct (String.eqb_spec lw AccessLevelReadWrite) as [->|]; naive_solver.
Qed.

(** A user's rank is the highest rank of the grants that name the connection
    or all connections. *)
Lemma user_rank_ge t u c n :
  levels_ok t -> (1 <= n)%nat ->
  (n <= user_rank t u c)%nat <->
  exists c0 l, (c0 = c \/ c0 = ConnectionIDAll) /\ conn_grant t u c0 l /\
    (n <= accessLevelRank l)%nat.
Proof.
  intros Hl Hn. unfold user_rank. split.
  - destruct (resolveConnectionAccess _ _) as [l|] eqn:E; simpl; [|lia].
    intros Hle. apply resolve_level in E as (c0 & Hc0 & Hg). eauto.
  - intros (c0 & l & Hc0 & Hg & Hle).
    pose proof (rank_le2 l) as H2.
    assert (is_Some (resolveConnectionAccess (user_conns t u) c)) as [l' E].
    { apply resolve_some. pose proof (user_conns_spec t u c0) as Hc.
      destruct Hc0 as [->| ->];
        destruct (user_conns t u !! _); eauto; by apply Hc in Hg. }
    rewrite E. simpl. destruct (decide (n = 1)%nat) as [->|].
    + apply resolve_level in E as (c1 & _ & Hg1). apply rank_pos.
      by eapply grant_real.
    + assert (l = AccessLevelReadWrite) as -> by (apply rank_write; lia).
      assert (resolveConnectionAccess (user_conns t u) c = Some AccessLevelReadWrite)
        as E' by (apply resolve_write; destruct Hc0 as [->| ->]; auto).
      rewrite E in E'. injection E' as ->. cbn. lia.
Qed.

(** ** Callers *)

(** A connection the sharing lookup finds. *)
Definition live (lk : option SharingLookup) (c : Z) : Prop :=
  match lk with None => True | Some fn => is_ok (fn c) = true end.

Definition owner_rank (t : tables) (lk : option SharingLookup) (ctx : Context)
    (c : Z) : nat := from_option accessLevelRank 0%nat (owner_level t lk ctx c).

Definition token_cap_rank (t : tables) (ctx : Context) (c : Z) : nat :=
  if tokenContextIncomplete ctx then 0
  else if ctx_tokenID ctx <=? 0 then 2
  else if token_exists t (ctx_tokenID ctx)
  then from_option cap_of 0%nat (conn_scope t (ctx_tokenID ctx) c) else 0.

(** The rank of the level [CanAccessConnection] gives. *)
Definition conn_rank (t : tables) (lk : option SharingLookup) (ctx : Context)
    (c : Z) : nat := from_option accessLevelRank 0%nat (access_level t lk ctx c).

Lemma owner_level_real t lk ctx c l :
  levels_ok t -> owner_level t lk ctx c = Some l -> real_level l.
Proof.
  intros Hl. unfold owner_level, connectionAccessRule.
  assert (real_level AccessLevelReadWrite) as Hrw by by right.
  destruct (ctx_isSuperuser ctx).
  { destruct lk as [fn|]; [destruct (is_ok (fn c))|]; naive_solver. }
  destruct (connection_facts _ _ _ _) as [facts|]; [|done].
  destruct (owned facts); [naive_solver|].
  destruct (shared facts && negb (restricted facts)); [naive_solver|].
  destruct (ctx_userID ctx =? 0).
  - unfold resolveConnectionAccess. by rewrite !lookup_empty.
  - intros E. apply resolve_level in E as (c0 & _ & Hg). by eapply grant_real.
Qed.

Lemma conn_rank_min t lk ctx c :
  levels_ok t ->
  conn_rank t lk ctx c =
  (token_cap_rank t ctx c `min` owner_rank t lk ctx c)%nat.
Proof.
  intros Hl. unfold conn_rank, access_level, token_cap_rank, owner_rank, token_cap.
  destruct (tokenContextIncomplete ctx); [done|].
  destruct (owner_level t lk ctx c) as [l|] eqn:E; simpl;
    [|by rewrite Nat.min_0_r].
  pose proof (rank_le2 l). destruct (ctx_tokenID ctx <=? 0); cbn [from_option]; [lia|].
  destruct (token_exists t _); [|done].
  destruct (conn_scope t _ c) as [x|]; cbn [from_option]; [|done].
  apply ceiling_rank. by eapply owner_level_real.
Qed.

Lemma conn_rank_le2 t lk ctx c : (conn_rank t lk ctx c <= 2)%nat.
Proof.
  unfold conn_rank. destruct (access_level _ _ _ _); simpl; [apply rank_le2|lia].
Qed.

(** Why a caller has read_write without a grant. *)
Definition open_to (t : tables) (lk : option SharingLookup) (ctx : Context)
    (c : Z) : bool :=
  match lk with
  | None => negb (restricted_by_group t c)
  | Some fn =>
      match fn c with
      | Err _ => false
      | Ok info => owns ctx (snd info) ||
                   (fst info && negb (restricted_by_group t c))
      end
  end.

Lemma owner_rank_eq t lk ctx c :
  live lk c ->
  owner_rank t lk ctx c =
  (if ctx_isSuperuser ctx || open_to t lk ctx c then 2
   else if (ctx_userID ctx =? 0)%Z then 0 else user_rank t (ctx_userID ctx) c)%nat.
Proof.
  unfold owner_rank, owner_level, live, open_to, connection_facts,
    connectionAccessRule, user_rank.
  destruct (ctx_isSuperuser ctx); simpl.
  { destruct lk as [fn|]; [|done]. by intros ->. }
  destruct lk as [fn|]; [destruct (fn c) as [[sh ow]|e]|]; intros Hok; try done; simpl.
  - destruct (owns ctx ow); [done|].
    destruct (sh && negb (restricted_by_group t c)); [done|].
    destruct (ctx_userID ctx =? 0); [|done].
    unfold resolveConnectionAccess. by rewrite !lookup_empty.
  - destruct (negb (restricted_by_group t c)); [done|].
    destruct (ctx_userID ctx =? 0); [|done].
    unfold resolveConnectionAccess. by rewrite !lookup_empty.
Qed.

Lemma owner_rank_dead t lk ctx c : ~ live lk c -> owner_rank t lk ctx c = 0%nat.
Proof.
  unfold live, owner_rank, owner_level, connection_facts.
  destruct lk as [fn|]; [|done]. destruct (fn c); [done|]. simpl. intros _.
  by destruct (ctx_isSuperuser ctx).
Qed.

Lemma live_dec lk c : live lk c \/ ~ live lk c.
Proof. destruct lk as [fn|]; simpl; [destruct (is_ok (fn c))|]; auto. Qed.

(** What gives a caller rank [n]: superuser status, an open connection or a
    grant. *)
Lemma owner_rank_ge t lk ctx c n :
  levels_ok t -> live lk c -> (1 <= n <= 2)%nat ->
  (n <= owner_rank t lk ctx c)%nat <->
  ctx_isSuperuser ctx = true \/ open_to t lk ctx c = true \/
  (ctx_userID ctx <> 0 /\ exists c0 l, (c0 = c \/ c0 = ConnectionIDAll) /\
     conn_grant t (ctx_userID ctx) c0 l /\ (n <= accessLevelRank l)%nat).
Proof.
  intros Hl Hlive Hn. rewrite owner_rank_eq by done.
  destruct (ctx_isSuperuser ctx); simpl; [split; [auto|lia]|].
  destruct (open_to t lk ctx c); [split; [auto|lia]|].
  destruct (Z.eqb_spec (ctx_userID ctx) 0) as [->|Hu].
  - split; [lia|]. intros [?|[?|[? _]]]; done.
  - rewrite (user_rank_ge t _ c n Hl) by lia. split; [auto|].
    intros [?|[?|[_ ?]]]; done.
Qed.

Lemma owner_rank_le2 t lk ctx c : (owner_rank t lk ctx c <= 2)%nat.
Proof.
  unfold owner_rank. destruct (owner_level _ _ _ _); simpl; [apply rank_le2|lia].
Qed.

(** ** The registered MCP identifiers *)

(** What registration keeps: ids are distinct and positive, and no item is
    called like the wildcard. *)
Definition ids_ok (t : tables) : Prop :=
  NoDup (map mcp_id (mcp_privilege_identifiers t)) /\
  Forall (fun p => mcp_id p <> MCPPrivilegeIDWildcard /\
                   Identifier p <> mcpScopeWildcard)
         (mcp_privilege_identifiers t).

Lemma same_id t p q :
  ids_ok t -> p ∈ mcp_privilege_identifiers t ->
  q ∈ mcp_privilege_identifiers t -> mcp_id p = mcp_id q -> p = q.
Proof.
  intros [Hnd _] Hp Hq E.
  apply list_elem_of_lookup in Hp as [i Hi], Hq as [j Hj].
  assert (i = j) as ->; [|congruence].
  eapply NoDup_lookup; [done|..]; rewrite list_lookup_fmap;
    [rewrite Hi|rewrite Hj]; simpl; by f_equal.
Qed.

(** ** What users and groups hold *)

(** One thing a group can hold. *)
Inductive item :=
| HoldsConnection (c : Z) (level : string)
| HoldsMCP (identifier : string)
| HoldsAdmin (permission : string).

Definition group_item (t : tables) (g : Z) (it : item) : Prop :=
  match it with
  | HoldsConnection c l => (c, l) ∈ group_conn_rows t g
  | HoldsMCP x => x ∈ group_mcp_names t g \/
                  (x = mcpScopeWildcard /\ group_mcp_wildcard t g = true)
  | HoldsAdmin p => p ∈ group_admin_names t g
  end.

(** A user ([inl]) or a group ([inr]), and the groups it takes items from. *)
Definition above (t : tables) (n : Z + Z) (g : Z) : Prop :=
  match n with
  | inl u => member_of t u g
  | inr g0 => rtc (childOf t) g0 g
  end.

Definition holds (t : tables) (n : Z + Z) (it : item) : Prop :=
  exists g, above t n g /\ group_item t g it.

(** Handing this item to anyone gives only what [ctx] reaches: a wildcard
    stands for every live connection, registered MCP item or permission. *)
Definition in_reach (t : tables) (lk : option SharingLookup) (ctx : Context)
    (it : item) : Prop :=
  match it with
  | HoldsConnection c0 l => forall c, c <> ConnectionIDAll ->
      c0 = c \/ c0 = ConnectionIDAll -> live lk c ->
      (accessLevelRank l <= conn_rank t lk ctx c)%nat
  | HoldsMCP x => forall i, x = i \/ x = mcpScopeWildcard ->
      is_Some (find_identifier t i) -> mcp_allowed t ctx i = true
  | HoldsAdmin p => forall q, p = q \/ p = AdminPermissionWildcard ->
      admin_allowed t ctx q = true
  end.

(** ** The answers of the checks *)

Definition checker (lk : option SharingLookup) (t : tables)
    (f : string -> nat -> list Z -> bool) : option RBACChecker :=
  Some {| authStore := Some {| db := t; fault := f |}; connSharingLookupFn := lk |}.
Definition working : string -> nat -> list Z -> bool := fun _ _ _ => false.

(** The rank of the level [CanAccessConnection] answers with. *)
Definition rank_on (rc : option RBACChecker) (ctx : Context) (c : Z) : nat :=
  accessLevelRank (snd (CanAccessConnection rc ctx c)).

Lemma rank_on_working lk t ctx c :
  rank_on (checker lk t working) ctx c = conn_rank t lk ctx c.
Proof.
  unfold rank_on. destruct (CanAccessConnection_decides (checker lk t working)
    {| db := t; fault := working |} ctx c eq_refl) as [_ ->]; [|done].
  unfold conn_rank. by destruct (access_level _ _ _ _).
Qed.

(** With a working store the checks are the tables' answer; with any other
    they answer yes only where the tables do. *)
Lemma mcp_working lk t ctx i :
  CanAccessMCPItem (checker lk t working) ctx i = mcp_allowed t ctx i.
Proof.
  by apply (CanAccessMCPItem_decides (checker lk t working) {| db := t; fault := working |} ctx i eq_refl).
Qed.

Lemma admin_working lk t ctx p :
  HasAdminPermission (checker lk t working) ctx p = admin_allowed t ctx p.
Proof.
  by apply (HasAdminPermission_decides (checker lk t working) {| db := t; fault := working |} ctx p eq_refl).
Qed.

Lemma superuser_working lk t ctx :
  IsSuperuser (checker lk t working) ctx = superuser_allowed t ctx.
Proof.
  by apply (IsSuperuser_decides (checker lk t working) {| db := t; fault := working |} ctx eq_refl).
Qed.

Lemma mcp_checked lk t f ctx i :
  CanAccessMCPItem (checker lk t f) ctx i = true -> mcp_allowed t ctx i = true.
Proof.
  destruct (CanAccessMCPItem_decides (checker lk t f) {| db := t; fault := f |} ctx i
    eq_refl) as [[->| ->] _]; done.
Qed.

Lemma admin_checked lk t f ctx p :
  HasAdminPermission (checker lk t f) ctx p = true -> admin_allowed t ctx p = true.
Proof.
  destruct (HasAdminPermission_decides (checker lk t f) {| db := t; fault := f |} ctx p
    eq_refl) as [[->| ->] _]; done.
Qed.

Lemma superuser_checked lk t f ctx :
  IsSuperuser (checker lk t f) ctx = true -> superuser_allowed t ctx = true.
Proof.
  destruct (IsSuperuser_decides (checker lk t f) {| db := t; fault := f |} ctx
    eq_refl) as [[->| ->] _]; done.
Qed.
