(* ===== verification/Ceiling.v ===== *)
(** * What a token may hand out
      (server/src/internal/auth/token_ceiling.go, grant_scope.go;
      privileges.go: the effective privileges of a group)

    A token that holds an admin permission may change other people's access,
    and may not give away more than it reaches itself.  The ceiling of a
    caller is what its token reaches; a session has none.  Every check here
    compares a change with it. *)
From stdpp Require Import base list strings gmap sets relations.
From S2P Require Import Prelude AuthStore Groups Grants Access TokenScope.

Local Open Scope Z_scope.
Local Open Scope res_scope.

(** ** Reads *)

Definition ancestor_groups (t : tables) (groupID : Z) : list Z :=
  recursive_cte (parent_edges t) [groupID].

Definition GetGroupEffectiveMCPPrivileges (s : AuthStore) (groupID : Z)
    : result (list string) :=
  let fn := "GetGroupEffectiveMCPPrivileges"%string in
  let! privileges := ask s fn 0 [groupID]
    (concat (map (group_mcp_names (db s)) (ancestor_groups (db s) groupID))) in
  let! wildcard := ask s fn 1 [groupID]
    (existsb (group_mcp_wildcard (db s)) (ancestor_groups (db s) groupID)) in
  Ok (if wildcard then "*"%string :: privileges else privileges).

(** The loop body that keeps the highest level of a connection. *)
Definition keep_effective (m : gmap Z string) (row : Z * string)
    : gmap Z string :=
  let '(connID, accessLevel) := row in
  match m !! connID with
  | None => <[connID := accessLevel]> m
  | Some existing =>
      if String.eqb existing AccessLevelRead &&
         String.eqb accessLevel AccessLevelReadWrite
      then <[connID := accessLevel]> m else m
  end.

Definition GetGroupEffectiveConnectionPrivileges (s : AuthStore) (groupID : Z)
    : result (list (Z * string)) :=
  let! rows := ask s "GetGroupEffectiveConnectionPrivileges" 0 [groupID]
    (concat (map (group_conn_rows (db s)) (ancestor_groups (db s) groupID))) in
  Ok (map_to_list (foldl keep_effective ∅ rows)).

Definition GetGroupEffectiveAdminPermissions (s : AuthStore) (groupID : Z)
    : result (list string) :=
  ask s "GetGroupEffectiveAdminPermissions" 0 [groupID]
    (concat (map (group_admin_names (db s)) (ancestor_groups (db s) groupID))).

Definition ListMCPPrivileges (s : AuthStore) : result (list MCPPrivilege) :=
  ask s "ListMCPPrivileges" 0 [] (mcp_privilege_identifiers (db s)).

Definition ListGroupConnectionPrivileges (s : AuthStore) (groupID : Z)
    : result (list (Z * string)) :=
  ask s "ListGroupConnectionPrivileges" 0 [groupID]
    (group_conn_rows (db s) groupID).

Definition find_user (t : tables) (id : Z) : option User :=
  find (fun u => user_id u =? id) (users t).

Definition GetUserByID (s : AuthStore) (id : Z) : result (option User) :=
  ask s "GetUserByID" 0 [id] (find_user (db s) id).

Definition GetTokenByID (s : AuthStore) (tokenID : Z)
    : result (option StoredToken) :=
  ask s "GetTokenByID" 0 [tokenID]
    (find (fun k => stored_token_id k =? tokenID) (tokens (db s))).

(** A lookup that failed counts as a refusal. *)
Definition or_refuse {A} (m : result A) (k : A -> bool) : bool :=
  match m with Ok v => k v | Err _ => false end.

(** ** The acting caller *)

(** The store of the checker and the token id, 0 or less for a session. *)
Definition actingToken (rc : option RBACChecker) (ctx : Context)
    : option (AuthStore * Z) :=
  match store_of rc with
  | None => None
  | Some s => if tokenContextIncomplete ctx then None
              else Some (s, ctx_tokenID ctx)
  end.

Record tokenCeiling := {
  tc_rc : option RBACChecker;
  tc_store : AuthStore;
  tc_ctx : Context;
  tc_session : bool;
}.

Definition actorCeiling (rc : option RBACChecker) (ctx : Context)
    : option tokenCeiling :=
  match actingToken rc ctx with
  | None => None
  | Some (s, tokenID) =>
      Some {| tc_rc := rc; tc_store := s; tc_ctx := ctx;
              tc_session := tokenID <=? 0 |}
  end.

(** A scope kind of the acting token: the names it is restricted to, or no
    restriction; an error when it cannot be read. *)
Definition actorMCPScope (s : AuthStore) (ctx : Context)
    : result (option (gset string)) :=
  let tokenID := ctx_tokenID ctx in
  if tokenID <=? 0 then Ok None
  else
    let! names := GetTokenMCPScope s tokenID in
    match namedScope names mcpScopeWildcard with
    | Some set => Ok (Some set)
    | None =>
        if negb (is_nil names) then Ok None
        else
          let! hasRows := HasTokenMCPScope s tokenID in
          Ok (if hasRows then Some ∅ else None)
    end.

Definition actorAdminScope (s : AuthStore) (ctx : Context)
    : result (option (gset string)) :=
  let tokenID := ctx_tokenID ctx in
  if tokenID <=? 0 then Ok None
  else
    let! perms := GetTokenAdminScope s tokenID in
    Ok (namedScope perms AdminPermissionWildcard).

(** ** The ceiling on connections *)

Definition lower_to (level : string) (sc : ScopedConnection) : string :=
  if (accessLevelRank (AccessLevel sc) <? accessLevelRank level)%nat
  then AccessLevel sc else level.

Definition lowestScopedLevel (c : tokenCeiling) (level : string) : string :=
  let tokenID := ctx_tokenID (tc_ctx c) in
  if tokenID <=? 0 then level
  else match GetTokenScope (tc_store c) tokenID with
       | Err _ => AccessLevelNone
       | Ok None => level
       | Ok (Some scope) =>
           let level := foldl lower_to level (Connections scope) in
           if (accessLevelRank level =? 0)%nat then AccessLevelNone else level
       end.

Definition allConnectionsLevel (c : tokenCeiling) : string :=
  let ctx := tc_ctx c in
  let ownerLevel :=
    if ctx_isSuperuser ctx then AccessLevelReadWrite
    else if ctx_userID ctx =? 0 then AccessLevelNone
    else match GetUserConnectionPrivileges (tc_store c) (ctx_userID ctx) with
         | Err _ => AccessLevelNone
         | Ok privs => default AccessLevelNone (privs !! ConnectionIDAll)
         end in
  if (accessLevelRank ownerLevel =? 0)%nat then AccessLevelNone
  else
    let '(inScope, level) :=
      applyConnectionTokenScope (tc_store c) ctx ConnectionIDAll ownerLevel in
    if negb inScope then AccessLevelNone else lowestScopedLevel c level.

Definition ceiling_connectionLevel (c : tokenCeiling) (connectionID : Z)
    : string :=
  if tc_session c then AccessLevelReadWrite
  else if connectionID =? ConnectionIDAll then allConnectionsLevel c
  else
    let '(ok, level) := CanAccessConnection (tc_rc c) (tc_ctx c) connectionID in
    if negb ok then AccessLevelNone else level.

Definition coversConnection (c : tokenCeiling) (connectionID : Z)
    (level : string) : bool :=
  let want := accessLevelRank level in
  (0 <? want)%nat &&
  (want <=? accessLevelRank (ceiling_connectionLevel c connectionID))%nat.

(** ** The ceiling on MCP items and admin permissions *)

Definition ownerHolds (c : tokenCeiling) (wildcard : string)
    (holds : Z -> result (gset string)) : bool :=
  if ctx_isSuperuser (tc_ctx c) then true
  else if ctx_userID (tc_ctx c) =? 0 then false
  else or_refuse (holds (ctx_userID (tc_ctx c)))
         (fun granted => bool_decide (wildcard ∈ granted)).

Definition holdsAllMCP (c : tokenCeiling) : bool :=
  if tc_session c then true
  else or_refuse (actorMCPScope (tc_store c) (tc_ctx c)) (fun scope =>
         negb (restricted_kind scope) &&
         ownerHolds c mcpScopeWildcard (GetUserMCPPrivileges (tc_store c))).

Definition holdsAllAdmin (c : tokenCeiling) : bool :=
  if tc_session c then true
  else or_refuse (actorAdminScope (tc_store c) (tc_ctx c)) (fun scope =>
         negb (restricted_kind scope) &&
         ownerHolds c AdminPermissionWildcard
           (GetUserAdminPermissions (tc_store c))).

Definition coversMCP (c : tokenCeiling) (identifier : string) : bool :=
  if tc_session c then true
  else if String.eqb identifier mcpScopeWildcard then holdsAllMCP c
  else CanAccessMCPItem (tc_rc c) (tc_ctx c) identifier.

Definition coversAdmin (c : tokenCeiling) (permission : string) : bool :=
  if tc_session c then true
  else if String.eqb permission AdminPermissionWildcard then holdsAllAdmin c
  else HasAdminPermission (tc_rc c) (tc_ctx c) permission.

Definition holdsEverything (c : tokenCeiling) : bool :=
  coversConnection c ConnectionIDAll AccessLevelReadWrite &&
  holdsAllMCP c && holdsAllAdmin c.

Definition holdsSuperuser (c : tokenCeiling) : bool :=
  tc_session c || (ctx_isSuperuser (tc_ctx c) && holdsEverything c).

(** ** What a principal reaches *)

Record principalReach := {
  asUser : bool;
  reach_username : string;
  reach_superuser : bool;
  reach_conns : gmap Z string;
  reach_mcp : gset string;
  reach_admin : gset string;
}.

Definition reachEverythingAdminPermissions : list string :=
  ["manage_users"; "manage_groups"; "manage_permissions";
   "manage_token_scopes"; AdminPermissionWildcard]%string.

Definition reachesEverything (p : principalReach) : bool :=
  reach_superuser p ||
  existsb (fun perm => bool_decide (perm ∈ reach_admin p))
          reachEverythingAdminPermissions.

Definition loadUserReach (s : AuthStore) (userID : Z)
    : option principalReach :=
  match (let! user := GetUserByID s userID in
         match user with
         | None => Ok None
         | Some user =>
             let! conns := GetUserConnectionPrivileges s userID in
             let! mcp := GetUserMCPPrivileges s userID in
             let! admin := GetUserAdminPermissions s userID in
             Ok (Some {| asUser := true; reach_username := Username user;
                         reach_superuser := IsSuperuserRow user;
                         reach_conns := conns; reach_mcp := mcp;
                         reach_admin := admin |})
         end) with
  | Ok reach => reach
  | Err _ => None
  end.

Definition loadGroupReach (s : AuthStore) (groupID : Z)
    : option principalReach :=
  match (let! connPrivs := GetGroupEffectiveConnectionPrivileges s groupID in
         let! mcpNames := GetGroupEffectiveMCPPrivileges s groupID in
         let! adminPerms := GetGroupEffectiveAdminPermissions s groupID in
         Ok {| asUser := false; reach_username := ""; reach_superuser := false;
               reach_conns := list_to_map connPrivs;
               reach_mcp := list_to_set mcpNames;
               reach_admin := list_to_set adminPerms |}) with
  | Ok reach => Some reach
  | Err _ => None
  end.

(** ** Comparing a reach with the ceiling *)

(** The lister handed to the checks: every connection, and, when it can
    enumerate them, the members of the cluster groups a user owns. *)
Record ReachLister := {
  GetAllConnections : result (list ConnectionVisibilityInfo);
  GetOwnedClusterGroupConnectionIDs : option (string -> result (list Z));
}.

Definition ownedClusterGroupsCovered (c : tokenCeiling) (username : string)
    (lister : ReachLister) : bool :=
  if String.eqb username "" then true
  else match GetOwnedClusterGroupConnectionIDs lister with
       | None => false
       | Some groups =>
           or_refuse (groups username)
             (forallb (fun id => coversConnection c id AccessLevelReadWrite))
       end.

(** One connection of [unrestrictedReachCovered]'s loop. *)
Definition unrestricted_covered (c : tokenCeiling) (username : string)
    (info : ConnectionVisibilityInfo) : bool :=
  if negb (String.eqb username "") &&
     String.eqb (info_OwnerUsername info) username
  then coversConnection c (info_ID info) AccessLevelReadWrite
  else if match lookup_of (tc_rc c) with Some _ => true | None => false end &&
          negb (info_IsShared info)
  then true
  else or_refuse (IsConnectionAssignedToAnyGroup (tc_store c) (info_ID info))
         (fun restricted =>
            restricted ||
            coversConnection c (info_ID info) AccessLevelReadWrite).

Definition unrestrictedReachCovered (c : tokenCeiling) (username : string)
    (lister : option ReachLister) : bool :=
  match lister with
  | None => false
  | Some lister =>
      ownedClusterGroupsCovered c username lister &&
      or_refuse (GetAllConnections lister)
        (forallb (unrestricted_covered c username))
  end.

Definition coversReachConnections (c : tokenCeiling) (p : principalReach)
    (lister : option ReachLister) : bool :=
  if coversConnection c ConnectionIDAll AccessLevelReadWrite then true
  else if reach_superuser p || negb (bool_decide (reach_admin p = ∅)) then false
  else if negb (forallb (fun kv => coversConnection c (fst kv) (snd kv))
                        (map_to_list (reach_conns p))) then false
  else if negb (asUser p) then true
  else unrestrictedReachCovered c (reach_username p) lister.

Definition coversReachMCP (c : tokenCeiling) (p : principalReach) : bool :=
  if holdsAllMCP c then true
  else if reachesEverything p || bool_decide (mcpScopeWildcard ∈ reach_mcp p)
  then false
  else if negb (forallb (coversMCP c) (elements (reach_mcp p))) then false
  else if negb (asUser p) then true
  else or_refuse (ListMCPPrivileges (tc_store c))
         (forallb (fun priv => negb (IsPublic priv) ||
                               coversMCP c (Identifier priv))).

Definition coversReachAdmin (c : tokenCeiling) (p : principalReach) : bool :=
  if holdsAllAdmin c then true
  else if reachesEverything p then false
  else forallb (coversAdmin c) (elements (reach_admin p)).

Definition coversReach (c : tokenCeiling) (p : principalReach)
    (lister : option ReachLister) : bool :=
  if reach_superuser p && negb (holdsSuperuser c) then false
  else coversReachConnections c p lister && coversReachMCP c p &&
       coversReachAdmin c p.

(** ** The checks of the write handlers *)

Definition ConnectionReadableInTokenScope (rc : option RBACChecker)
    (ctx : Context) (connectionID : Z) : bool :=
  match actingToken rc ctx with
  | None => false
  | Some (s, _) =>
      let '(inScope, level) :=
        applyConnectionTokenScope s ctx connectionID AccessLevelRead in
      inScope && String.eqb level AccessLevelRead
  end.

Definition CanGrantConnection (rc : option RBACChecker) (ctx : Context)
    (connectionID : Z) (level : string) : bool :=
  match actorCeiling rc ctx with
  | None => false
  | Some c => coversConnection c connectionID level
  end.

(** The group whose grant is removed does not matter here; the store decides
    whether it is the last. *)
Definition CanRevokeConnection (rc : option RBACChecker) (ctx : Context)
    (connectionID : Z) : bool :=
  match actorCeiling rc ctx with
  | None => false
  | Some c => tc_session c || coversConnection c connectionID AccessLevelRead
  end.

Definition ConnectionLiftGuard (rc : option RBACChecker) (ctx : Context)
    (connectionIDs : list Z) : option LiftGuard :=
  match actorCeiling rc ctx with
  | None => AllowLifts []
  | Some c =>
      if tc_session c then AllowAllLifts
      else AllowLifts (filter (fun id =>
             coversConnection c id AccessLevelReadWrite = true) connectionIDs)
  end.

Definition connectionsReadable (c : tokenCeiling) (groupID : Z) : bool :=
  or_refuse (GetGroupEffectiveConnectionPrivileges (tc_store c) groupID)
    (forallb (fun cp => coversConnection c (fst cp) AccessLevelRead)).

Definition CanRemoveGroupMember (rc : option RBACChecker) (ctx : Context)
    (groupID : Z) : bool :=
  match actorCeiling rc ctx with
  | None => false
  | Some c => tc_session c || connectionsReadable c groupID
  end.

Definition CanDeleteGroup (rc : option RBACChecker) (ctx : Context)
    (groupID : Z) : bool :=
  match actorCeiling rc ctx with
  | None => false
  | Some c => tc_session c || connectionsReadable c groupID
  end.

Definition GroupDeleteLiftGuard (rc : option RBACChecker) (s : AuthStore)
    (ctx : Context) (groupID : Z) : option LiftGuard :=
  match ListGroupConnectionPrivileges s groupID with
  | Err _ => AllowLifts []
  | Ok own => ConnectionLiftGuard rc ctx (map fst own)
  end.

Definition CanGrantMCPItem (rc : option RBACChecker) (ctx : Context)
    (identifier : string) : bool :=
  match actorCeiling rc ctx with
  | None => false
  | Some c => coversMCP c identifier
  end.

Definition CanGrantAdminPermission (rc : option RBACChecker) (ctx : Context)
    (permission : string) : bool :=
  match actorCeiling rc ctx with
  | None => false
  | Some c =>
      coversReach c {| asUser := false; reach_username := "";
                       reach_superuser := false; reach_conns := ∅;
                       reach_mcp := ∅; reach_admin := {[permission]} |} None
  end.

Definition TokenHoldsEverything (rc : option RBACChecker) (ctx : Context)
    : bool :=
  match actorCeiling rc ctx with
  | None => false
  | Some c => holdsSuperuser c
  end.

Definition UserWithinTokenScope (rc : option RBACChecker) (ctx : Context)
    (userID : Z) (lister : option ReachLister) : bool :=
  match actorCeiling rc ctx with
  | None => false
  | Some c =>
      if tc_session c then true
      else match loadUserReach (tc_store c) userID with
           | None => false
           | Some reach => coversReach c reach lister
           end
  end.

Definition NewUserWithinTokenScope (rc : option RBACChecker) (ctx : Context)
    (username : string) (lister : option ReachLister) : bool :=
  match actorCeiling rc ctx with
  | None => false
  | Some c =>
      coversReach c {| asUser := true; reach_username := username;
                       reach_superuser := false; reach_conns := ∅;
                       reach_mcp := ∅; reach_admin := ∅ |} lister
  end.

Definition GroupWithinTokenScope (rc : option RBACChecker) (ctx : Context)
    (groupID : Z) : bool :=
  match actorCeiling rc ctx with
  | None => false
  | Some c =>
      if tc_session c then true
      else match loadGroupReach (tc_store c) groupID with
           | None => false
           | Some reach => coversReach c reach None
           end
  end.

(** ** Judging a change of a token's scope *)

(** [storedTokenScope] with the owner and the rows it was read from. *)
Record loadedTokenScope := {
  ld_ownerID : Z;
  ld_ownerSuperuser : bool;
  ld_stored : storedTokenScope;
  ld_snapshot : TokenScopeSnapshot;
}.

(** [Ok None] is a token that does not exist. *)
Definition loadStoredTokenScope (s : AuthStore) (tokenID : Z)
    : result (option loadedTokenScope) :=
  match
    (let! token := GetTokenByID s tokenID in
     match token with
     | None => Ok None
     | Some token =>
         let! owner := GetUserByID s (OwnerID token) in
         match owner with
         | None => Err ErrTokenScopeUnreadable
         | Some owner =>
             let! scope := GetTokenScope s tokenID in
             let conns := from_option Connections [] scope in
             let mcpIDs := from_option MCPPrivileges [] scope in
             let perms := from_option AdminPermissions [] scope in
             let! names := GetTokenMCPScope s tokenID in
             Ok (Some {| ld_ownerID := OwnerID token;
                         ld_ownerSuperuser := IsSuperuserRow owner;
                         ld_stored := newStoredTokenScope conns names
                                        (negb (is_nil mcpIDs)) perms;
                         ld_snapshot := newTokenScopeSnapshot conns mcpIDs
                                          perms |})
         end
     end) with
  | Ok found => Ok found
  | Err _ => Err ErrTokenScopeUnreadable
  end.

Definition entry_change_covered (c : tokenCeiling) (st : storedTokenScope)
    (sc : ScopedConnection) : bool :=
  coversConnection c (ConnectionID sc) (AccessLevel sc) ||
  (coversConnection c (ConnectionID sc) AccessLevelRead &&
   (accessLevelRank (AccessLevel sc) <=?
      accessLevelRank (stored_connectionLevel st (ConnectionID sc)))%nat).

Definition connectionsChangeCovered (c : tokenCeiling) (st : storedTokenScope)
    (entries : list ScopedConnection) : bool :=
  forallb (entry_change_covered c st) entries &&
  forallb (fun kv => existsb (Z.eqb (fst kv)) (map ConnectionID entries) ||
                     coversConnection c (fst kv) AccessLevelRead)
          (map_to_list (st_conns st)).

Definition namesChangeCovered (entries : list string) (wildcard : string)
    (current : option (gset string)) (covers : string -> bool) : bool :=
  match current with
  | None => true
  | Some set =>
      forallb (fun entry =>
        (negb (String.eqb entry wildcard) && bool_decide (entry ∈ set)) ||
        covers entry) entries
  end.

Definition changeWithinCeiling (c : tokenCeiling) (ld : loadedTokenScope)
    (change : TokenScopeChange) : bool :=
  let st := ld_stored ld in
  if ld_ownerSuperuser ld && negb (holdsSuperuser c) && widens st change
  then false
  else
    from_option (connectionsChangeCovered c st) true (ch_connections change) &&
    from_option (fun entries =>
      namesChangeCovered entries mcpScopeWildcard (st_mcp st) (coversMCP c))
      true (ch_mcp change) &&
    from_option (fun entries =>
      namesChangeCovered entries AdminPermissionWildcard (st_admin st)
        (coversAdmin c)) true (ch_admin change).

(** The verdict, with the snapshot of an approved change by a token. *)
Definition JudgeTokenScopeChange (rc : option RBACChecker) (ctx : Context)
    (tokenID : Z) (change : TokenScopeChange)
    : result (bool * option TokenScopeSnapshot) :=
  match actorCeiling rc ctx with
  | None => Ok (false, None)
  | Some c =>
      if tc_session c then Ok (true, None)
      else
        let! stored := loadStoredTokenScope (tc_store c) tokenID in
        match stored with
        | None => Ok (false, None)
        | Some ld =>
            Ok (if changeWithinCeiling c ld change
                then (true, Some (ld_snapshot ld)) else (false, None))
        end
  end.

Definition clearWithinCeiling (c : tokenCeiling) (st : storedTokenScope)
    (owner : principalReach) (lister : option ReachLister) : bool :=
  if reach_superuser owner && negb (holdsSuperuser c) &&
     (st_connsRestricted st || restricted_kind (st_mcp st) ||
      restricted_kind (st_admin st)) then false
  else if st_connsRestricted st &&
          (negb (connectionsChangeCovered c st []) ||
           negb (coversReachConnections c owner lister)) then false
  else if restricted_kind (st_mcp st) && negb (coversReachMCP c owner) then false
  else negb (restricted_kind (st_admin st)) || coversReachAdmin c owner.

Definition JudgeTokenScopeClear (rc : option RBACChecker) (ctx : Context)
    (tokenID : Z) (lister : option ReachLister)
    : result (bool * option TokenScopeSnapshot) :=
  match actorCeiling rc ctx with
  | None => Ok (false, None)
  | Some c =>
      if tc_session c then Ok (true, None)
      else
        let! stored := loadStoredTokenScope (tc_store c) tokenID in
        match stored with
        | None => Ok (false, None)
        | Some ld =>
            match loadUserReach (tc_store c) (ld_ownerID ld) with
            | None => Err ErrTokenScopeUnreadable
            | Some owner =>
                Ok (if clearWithinCeiling c (ld_stored ld) owner lister
                    then (true, Some (ld_snapshot ld)) else (false, None))
            end
        end
  end.
