(* ===== verification/CeilingSound.v ===== *)
(** * The ceiling is what the token reaches

    Each comparison of Ceiling.v, when it approves, approves something the
    acting token reaches through the checks of Access.v: a connection at the
    level asked for, an MCP item, an admin permission.  The wildcards stand
    for every live connection, every registered item and every permission.
    Failing queries only refuse. *)
From stdpp Require Import base list strings gmap sets relations.
From S2P Require Import Prelude AuthStore Groups Grants Access TokenScope.
From S2P Require Import Reach Ceiling.

Local Open Scope Z_scope.

Lemma or_refuse_true {A} (m : result A) k :
  or_refuse m k = true -> exists v, m = Ok v /\ k v = true.
Proof. destruct m; simpl; [eauto|done]. Qed.

Lemma lower_fold_rank (l : list ScopedConnection) level :
  (accessLevelRank (foldl lower_to level l) <= accessLevelRank level)%nat /\
  forall sc, sc ∈ l ->
    (accessLevelRank (foldl lower_to level l) <= accessLevelRank (AccessLevel sc))%nat.
Proof.
  revert level. induction l as [|x l IH]; intros level; simpl.
  { split; [lia|]. by intros sc ?%elem_of_nil. }
  destruct (IH (lower_to level x)) as [H1 H2].
  assert (accessLevelRank (lower_to level x) <= accessLevelRank level /\
          accessLevelRank (lower_to level x) <= accessLevelRank (AccessLevel x))%nat
    as [H3 H4].
  { unfold lower_to.
    destruct (Nat.ltb_spec (accessLevelRank (AccessLevel x)) (accessLevelRank level));
      lia. }
  split; [lia|]. intros sc [->|Hin]%elem_of_cons; [lia|auto].
Qed.

Lemma ancestor_groups_spec t g g' :
  g' ∈ ancestor_groups t g <-> rtc (childOf t) g g'.
Proof.
  unfold ancestor_groups. rewrite recursive_cte_spec. split.
  - intros (b & ->%list_elem_of_singleton & Hr). eapply rtc_subrel; [|exact Hr].
    intros x y. apply parent_edges_spec.
  - intros Hr. exists g. split; [by apply list_elem_of_singleton|].
    eapply rtc_subrel; [|exact Hr]. intros x y. apply parent_edges_spec.
Qed.

Lemma elem_of_rows {B} (f : Z -> list B) l x :
  x ∈ concat (map f l) <-> exists g, g ∈ l /\ x ∈ f g.
Proof.
  rewrite list_elem_of_In, in_concat. setoid_rewrite in_map_iff.
  setoid_rewrite list_elem_of_In. naive_solver.
Qed.

(** Keeping the highest level of each connection loses no rank. *)
Lemma keep_effective_real m k v c l :
  (forall c l, m !! c = Some l -> real_level l) -> real_level v ->
  keep_effective m (k, v) !! c = Some l -> real_level l.
Proof.
  intros Hm Hv. unfold keep_effective. destruct (m !! k); [split_ifs|]; eauto;
    intros [[_ <-]|[_ ?]]%lookup_insert_Some; eauto.
Qed.

Lemma keep_effective_step m k v c l :
  (forall c l, m !! c = Some l -> real_level l) -> real_level v ->
  (c, l) = (k, v) \/ m !! c = Some l ->
  exists l', keep_effective m (k, v) !! c = Some l' /\
    (accessLevelRank l <= accessLevelRank l')%nat.
Proof.
  intros Hm Hv H. unfold keep_effective. destruct (m !! k) as [e|] eqn:E.
  - assert (real_level e) as He by eauto. split_ifs.
    + apply andb_true_iff in Heqb as [->%String.eqb_eq ->%String.eqb_eq].
      destruct H as [[= -> ->]|H]; [rewrite lookup_insert_eq; eauto|].
      destruct (decide (k = c)) as [->|]; [|rewrite lookup_insert_ne by done; eauto].
      rewrite lookup_insert_eq. assert (l = AccessLevelRead) as -> by congruence.
      eexists. split; [done|]. cbn. lia.
    + destruct H as [[= -> ->]|?]; [|eauto]. exists e. split; [done|].
      apply andb_false_iff in Heqb.
      destruct Hv as [->| ->], He as [->| ->]; cbn in *; naive_solver lia.
  - destruct H as [[= -> ->]|H]; [rewrite lookup_insert_eq; eauto|].
    rewrite lookup_insert_ne by congruence. eauto.
Qed.

Lemma keep_effective_ge rows m c l :
  (forall c l, (c, l) ∈ rows -> real_level l) ->
  (forall c l, m !! c = Some l -> real_level l) ->
  (c, l) ∈ rows \/ m !! c = Some l ->
  exists l', foldl keep_effective m rows !! c = Some l' /\
    (accessLevelRank l <= accessLevelRank l')%nat.
Proof.
  revert m l. induction rows as [|[k v] rows IH]; intros m l Hr Hm H; cbn [foldl].
  { destruct H as [?%elem_of_nil|H]; [done|]. eauto. }
  setoid_rewrite elem_of_cons in Hr. rewrite elem_of_cons in H.
  assert (real_level v) as Hv by eauto.
  assert ((c, l) ∈ rows \/ ((c, l) = (k, v) \/ m !! c = Some l)) as [?|H'] by tauto.
  - apply IH; [eauto|by intros; eapply keep_effective_real|by left].
  - destruct (keep_effective_step m k v c l Hm Hv H') as (l1 & H1 & ?).
    destruct (IH (keep_effective m (k, v)) l1) as (l2 & ? & ?);
      [eauto|by intros; eapply keep_effective_real|by right|].
    exists l2. split; [done|lia].
Qed.

Section Sound.
Context (rc : option RBACChecker) (s : AuthStore) (ctx : Context).
Hypothesis (Hs : store_of rc = Some s) (Hinc : tokenContextIncomplete ctx = false).
Hypothesis (Htok : 0 < ctx_tokenID ctx) (Hl : levels_ok (db s)).

Definition token_ceiling : tokenCeiling :=
  {| tc_rc := rc; tc_store := s; tc_ctx := ctx; tc_session := false |}.

Lemma actorCeiling_token : actorCeiling rc ctx = Some token_ceiling.
Proof using Hs Hinc Htok.
  unfold actorCeiling, actingToken. rewrite Hs, Hinc.
  by rewrite (proj2 (Z.leb_gt _ _) Htok).
Qed.

Lemma CanAccessConnection_rank c :
  (accessLevelRank (snd (CanAccessConnection rc ctx c))
     <= conn_rank (db s) (lookup_of rc) ctx c)%nat.
Proof using Hs.
  destruct (CanAccessConnection_decides rc s ctx c Hs) as [[->| ->] _]; [|cbn; lia].
  unfold conn_rank. destruct (access_level _ _ _ _); cbn; lia.
Qed.

(** The level a token has on all connections is a level it has on each. *)
Lemma lowestScopedLevel_cap level c :
  (accessLevelRank (lowestScopedLevel token_ceiling level) <= accessLevelRank level /\
   accessLevelRank (lowestScopedLevel token_ceiling level)
     <= from_option cap_of 0
          (if token_exists (db s) (ctx_tokenID ctx)
           then match conn_scope (db s) (ctx_tokenID ctx) ConnectionIDAll with
                | Some _ => conn_scope (db s) (ctx_tokenID ctx) c
                | None => Some AccessLevelReadWrite
                end
           else None))%nat.
Proof using Htok.
  unfold lowestScopedLevel. cbn [tc_ctx tc_store token_ceiling].
  rewrite (proj2 (Z.leb_gt _ _) Htok).
  destruct (token_exists (db s) (ctx_tokenID ctx)) eqn:Ht.
  2:{ destruct (scope_reads_missing s _ Ht) as (_ & _ & _ & _ & [e ->]). cbn. lia. }
  destruct (proj1 (reads_scope s _ Ht)) as [->|[e ->]]; [|cbn; lia].
  unfold token_scope, conn_scope.
  pose proof (rank_le2 level) as H2.
  destruct (scope_connections (db s) (ctx_tokenID ctx)) as [|sc0 scs] eqn:Hsc; cbn [is_nil].
  - assert (cap_of AccessLevelNone = 2%nat) as E2 by done.
    destruct (_ && _); cbn; [lia|].
    destruct (Nat.eqb_spec (accessLevelRank level) 0); cbn; lia.
  - cbn [andb]. cbn [Connections].
    destruct (lower_fold_rank (sc0 :: scs) level) as [H3 H4].
    assert (accessLevelRank
       (if (accessLevelRank (foldl lower_to level (sc0 :: scs)) =? 0)%nat
        then AccessLevelNone else foldl lower_to level (sc0 :: scs))
      = accessLevelRank (foldl lower_to level (sc0 :: scs))) as ->.
    { by destruct (Nat.eqb_spec (accessLevelRank (foldl lower_to level (sc0 :: scs))) 0)
        as [->|]. }
    split; [lia|].
    assert (forall c' l, scope_level (db s) (ctx_tokenID ctx) c' = Some l ->
      (accessLevelRank (foldl lower_to level (sc0 :: scs)) <= cap_of l)%nat) as Hcap.
    { intros c' l. unfold scope_level. rewrite Hsc.
      destruct (filter _ _) as [|sc rest] eqn:Hf; [done|]. intros [= <-].
      assert (sc ∈ sc0 :: scs) as Hin.
      { assert (sc ∈ filter (fun sc => ConnectionID sc = c') (sc0 :: scs)) as Hin
          by (rewrite Hf; apply list_elem_of_here).
        by apply list_elem_of_filter in Hin as [_ Hin]. }
      pose proof (H4 sc Hin). pose proof (rank_cap (AccessLevel sc)). lia. }
    destruct (scope_level (db s) (ctx_tokenID ctx) ConnectionIDAll) as [l0|] eqn:E0.
    + destruct (scope_level (db s) (ctx_tokenID ctx) c) as [l|] eqn:E; cbn; eauto.
    + pose proof (rank_le2 (foldl lower_to level (sc0 :: scs))).
      exact H.
Qed.

(** The owner's own level on all connections. *)
Definition owner_all : nat :=
  if ctx_isSuperuser ctx then 2
  else if ctx_userID ctx =? 0 then 0
  else from_option accessLevelRank 0%nat
         (user_conns (db s) (ctx_userID ctx) !! ConnectionIDAll).

Lemma owner_all_rank c :
  live (lookup_of rc) c ->
  (owner_all <= owner_rank (db s) (lookup_of rc) ctx c)%nat.
Proof using Hl.
  intros Hlive. unfold owner_all. rewrite owner_rank_eq by done.
  destruct (ctx_isSuperuser ctx); [done|]. cbn [orb].
  destruct (ctx_userID ctx =? 0); [lia|].
  pose proof (user_conns_spec (db s) (ctx_userID ctx) ConnectionIDAll) as Hg.
  destruct (user_conns _ _ !! ConnectionIDAll) as [l|]; cbn [from_option]; [|lia].
  destruct Hg as [Hg _]. pose proof (rank_le2 l).
  destruct (open_to _ _ _ _); [done|].
  apply user_rank_ge; [done|by apply rank_pos, (grant_real (db s) (ctx_userID ctx) 0)|].
  exists ConnectionIDAll, l. auto.
Qed.

Lemma applyConnectionTokenScope_rank c l l' :
  real_level l -> applyConnectionTokenScope s ctx c l = (true, l') ->
  (accessLevelRank l' <= accessLevelRank l)%nat /\
  token_exists (db s) (ctx_tokenID ctx) = true /\
  is_Some (conn_scope (db s) (ctx_tokenID ctx) c).
Proof using Htok.
  intros Hr E. destruct (applyConnectionTokenScope_decides s ctx c l) as [[E'|E'] _];
    rewrite E in E'; [|done].
  unfold token_cap in E'. rewrite (proj2 (Z.leb_gt _ _) Htok) in E'.
  destruct (token_exists _ _); [|done].
  destruct (conn_scope _ _ _) as [x|]; [|done]. injection E' as ->.
  rewrite ceiling_rank by done. split_and!; [lia|done|eauto].
Qed.

Lemma allConnectionsLevel_rank c :
  live (lookup_of rc) c ->
  (accessLevelRank (allConnectionsLevel token_ceiling)
     <= conn_rank (db s) (lookup_of rc) ctx c)%nat.
Proof using Hl Htok Hinc.
  intros Hlive. pose proof (owner_all_rank c Hlive) as Hown.
  unfold allConnectionsLevel. cbn [tc_ctx tc_store token_ceiling].
  set (ol := if ctx_isSuperuser ctx then _ else _).
  assert (accessLevelRank ol = 0%nat \/
          (real_level ol /\ (accessLevelRank ol <= owner_all)%nat)) as Hol.
  { unfold ol, owner_all. destruct (ctx_isSuperuser ctx); [right; by split; [right|]|].
    destruct (ctx_userID ctx =? 0); [by left|].
    destruct (proj1 (reads_conns s (ctx_userID ctx))) as [->|[e ->]]; [|by left].
    pose proof (user_conns_spec (db s) (ctx_userID ctx) ConnectionIDAll) as Hg.
    destruct (user_conns _ _ !! ConnectionIDAll) as [l|]; [|by left].
    right. destruct Hg as [Hg _]. split; [by eapply grant_real|done]. }
  destruct (Nat.eqb_spec (accessLevelRank ol) 0) as [|Hpos]; [cbn; lia|].
  destruct Hol as [|[Hr Hle]]; [done|].
  destruct (applyConnectionTokenScope s ctx ConnectionIDAll ol) as [[] l] eqn:E;
    [|cbn; lia]. cbn [negb].
  apply applyConnectionTokenScope_rank in E as (H1 & Ht & [x Hx]); [|done].
  destruct (lowestScopedLevel_cap l c) as [H2 H3]. rewrite Ht, Hx in H3.
  rewrite conn_rank_min by done. unfold token_cap_rank.
  rewrite Hinc, (proj2 (Z.leb_gt _ _) Htok), Ht. lia.
Qed.

(** An approved connection is within the token's reach: the connection
    itself, or each live one when all are asked for. *)
Lemma coversConnection_rank id l c :
  coversConnection token_ceiling id l = true ->
  c <> ConnectionIDAll -> id = c \/ id = ConnectionIDAll ->
  live (lookup_of rc) c ->
  (1 <= accessLevelRank l <= conn_rank (db s) (lookup_of rc) ctx c)%nat.
Proof using Hl Hs Htok Hinc.
  unfold coversConnection. rewrite andb_true_iff, Nat.ltb_lt, Nat.leb_le.
  intros [H1 H2] Hc Hid Hlive. split; [lia|]. etrans; [exact H2|].
  unfold ceiling_connectionLevel. cbn [tc_session token_ceiling].
  destruct Hid as [-> | ->].
  - rewrite (proj2 (Z.eqb_neq c ConnectionIDAll) Hc). cbn [tc_rc tc_ctx token_ceiling].
    pose proof (CanAccessConnection_rank c) as Hr.
    destruct (CanAccessConnection rc ctx c) as [[] l']; [exact Hr|apply Nat.le_0_l].
  - rewrite Z.eqb_refl. by apply allConnectionsLevel_rank.
Qed.

(** A token's lift guard allows the connections it reaches with read_write
    access. *)
Lemma ConnectionLiftGuard_rank ids c :
  lift_allows (ConnectionLiftGuard rc ctx ids) c = true ->
  c <> ConnectionIDAll -> live (lookup_of rc) c ->
  (2 <= conn_rank (db s) (lookup_of rc) ctx c)%nat.
Proof using Hl Hs Htok Hinc.
  unfold ConnectionLiftGuard. rewrite actorCeiling_token. cbn.
  rewrite bool_decide_eq_true, elem_of_list_to_set, list_elem_of_filter.
  intros [Hcov _] Hc Hlive.
  by apply (coversConnection_rank c AccessLevelReadWrite c Hcov); [|left|].
Qed.

(** ** MCP items and admin permissions *)

Lemma ownerHolds_true w (holds : Z -> result (gset string)) f :
  (forall u, reads s (holds u) (f (db s) u)) ->
  ownerHolds token_ceiling w holds = true ->
  ctx_isSuperuser ctx = true \/
  (ctx_userID ctx <> 0 /\ w ∈ f (db s) (ctx_userID ctx)).
Proof using.
  intros Hf. unfold ownerHolds. cbn [tc_ctx token_ceiling].
  destruct (ctx_isSuperuser ctx); [by left|].
  destruct (Z.eqb_spec (ctx_userID ctx) 0); [done|].
  intros (v & Hv & Hin)%or_refuse_true. right. split; [done|].
  rewrite (reads_Ok s _ _ _ (Hf _) Hv) in Hin. by apply bool_decide_eq_true in Hin.
Qed.

Lemma holdsAllAdmin_scope :
  holdsAllAdmin token_ceiling = true ->
  token_exists (db s) (ctx_tokenID ctx) = true /\
  (scope_admin (db s) (ctx_tokenID ctx) = [] \/
   AdminPermissionWildcard ∈ scope_admin (db s) (ctx_tokenID ctx)) /\
  ownerHolds token_ceiling AdminPermissionWildcard (GetUserAdminPermissions s) = true.
Proof using Htok.
  unfold holdsAllAdmin. cbn [tc_session tc_store tc_ctx token_ceiling].
  intros (sc & Hsc & [Hr Ho]%andb_true_iff)%or_refuse_true.
  unfold actorAdminScope in Hsc. rewrite (proj2 (Z.leb_gt _ _) Htok) in Hsc.
  apply rbind_Ok in Hsc as (perms & Hp & [= <-]).
  destruct (token_exists (db s) (ctx_tokenID ctx)) eqn:Ht.
  2:{ destruct (scope_reads_missing s _ Ht) as (_ & _ & _ & [e He] & _). congruence. }
  assert (perms = scope_admin (db s) (ctx_tokenID ctx)) as ->.
  { eapply reads_Ok, Hp. eapply reads_bind; [by apply reads_token|apply reads_ask]. }
  split; [done|]. split; [|done].
  pose proof (namedScope_spec (scope_admin (db s) (ctx_tokenID ctx))
                AdminPermissionWildcard) as Hn.
  by destruct (namedScope _ _).
Qed.

Lemma holdsAllAdmin_allowed p :
  holdsAllAdmin token_ceiling = true -> admin_allowed (db s) ctx p = true.
Proof using Hinc Htok.
  intros (Ht & Hsc & Ho)%holdsAllAdmin_scope.
  unfold admin_allowed. rewrite Hinc, (proj2 (Z.leb_gt _ _) Htok), Ht.
  assert (admin_in_scope (db s) (ctx_tokenID ctx) p = true) as ->
    by (apply admin_in_scope_spec; tauto).
  destruct (ownerHolds_true _ _ user_admin (reads_admin s) Ho) as [->|[Hu Hin]]; [done|].
  destruct (ctx_isSuperuser ctx); [done|].
  rewrite (proj2 (Z.eqb_neq _ _) Hu), (bool_decide_eq_true_2 _ Hin).
  by rewrite orb_true_r.
Qed.

Lemma holdsSuperuser_allowed :
  holdsSuperuser token_ceiling = true -> superuser_allowed (db s) ctx = true.
Proof using Hinc Htok.
  unfold holdsSuperuser, holdsEverything. cbn [tc_session token_ceiling orb tc_ctx].
  intros [Hsu [_ (Ht & Hsc & _)%holdsAllAdmin_scope]%andb_true_iff]%andb_true_iff.
  unfold superuser_allowed. rewrite Hsu, Hinc, Ht. cbn [andb negb].
  rewrite !orb_true_iff, is_nil_true, existsb_string. tauto.
Qed.

Lemma coversAdmin_allowed p q :
  coversAdmin token_ceiling p = true -> p = q \/ p = AdminPermissionWildcard ->
  admin_allowed (db s) ctx q = true.
Proof using Hs Hinc Htok.
  unfold coversAdmin. cbn [tc_session tc_rc tc_ctx token_ceiling].
  destruct (String.eqb_spec p AdminPermissionWildcard) as [->|Hne].
  { intros H _. by apply holdsAllAdmin_allowed. }
  intros H [->|?]; [|done].
  destruct (HasAdminPermission_decides rc s ctx q Hs) as [[E|E] _]; congruence.
Qed.

Lemma reads_mcp_names tok :
  token_exists (db s) tok = true ->
  reads s (GetTokenMCPScope s tok)
    (if existsb (Z.eqb MCPPrivilegeIDWildcard) (scope_mcp (db s) tok)
     then [mcpScopeWildcard] else scope_mcp_names (db s) tok).
Proof using.
  intros Ht. unfold GetTokenMCPScope. reads_on. destruct (existsb _ _); reads_on.
Qed.

(** An unrestricted MCP scope of the acting token contains every item. *)
Lemma actorMCPScope_all i :
  ids_ok (db s) -> actorMCPScope s ctx = Ok None ->
  token_exists (db s) (ctx_tokenID ctx) = true /\
  mcp_in_scope (db s) (ctx_tokenID ctx) i = true.
Proof using Htok.
  intros Hids. unfold actorMCPScope. rewrite (proj2 (Z.leb_gt _ _) Htok).
  set (tok := ctx_tokenID ctx). intros (names & Hn & H)%rbind_Ok.
  destruct (token_exists (db s) tok) eqn:Ht.
  2:{ unfold GetTokenMCPScope in Hn.
      destruct (requireTokenLocked_missing s "GetTokenMCPScope" tok Ht) as [e He].
      by rewrite He in Hn. }
  split; [done|]. unfold mcp_in_scope.
  pose proof (reads_Ok s _ _ _ (reads_mcp_names tok Ht) Hn) as ->. clear Hn. revert H.
  destruct (existsb (Z.eqb MCPPrivilegeIDWildcard) (scope_mcp (db s) tok)) eqn:Hw;
    intros H; [by rewrite orb_true_r|].
  pose proof (namedScope_spec (scope_mcp_names (db s) tok) mcpScopeWildcard) as Hsp.
  destruct (namedScope _ _); [done|]. destruct Hsp as [E|Hin].
  - rewrite E in H. cbn [is_nil negb] in H. apply rbind_Ok in H as (has & Hh & Hb).
    assert (has = (0 <? length (scope_mcp (db s) tok))%nat) as ->.
    { eapply reads_Ok, Hh. unfold HasTokenMCPScope. reads_on. }
    by destruct (scope_mcp (db s) tok).
  - unfold scope_mcp_names in Hin. apply list_elem_of_omap in Hin as (p & Hp & Hi).
    destruct (existsb (Z.eqb (mcp_id p)) (scope_mcp (db s) tok)); [|done].
    injection Hi as Hi.
    destruct Hids as [_ Hf]. rewrite Forall_forall in Hf. by destruct (Hf p Hp).
Qed.

Lemma holdsAllMCP_allowed i :
  ids_ok (db s) -> holdsAllMCP token_ceiling = true ->
  ctx_isSuperuser ctx = true \/ is_Some (find_identifier (db s) i) ->
  mcp_allowed (db s) ctx i = true.
Proof using Hinc Htok.
  intros Hids. unfold holdsAllMCP. cbn [tc_session tc_store tc_ctx token_ceiling].
  intros (sc & Hsc & [Hr Ho]%andb_true_iff)%or_refuse_true Hreg.
  destruct sc; [done|]. destruct (actorMCPScope_all i Hids Hsc) as [Ht Hin].
  unfold mcp_allowed. rewrite Hinc, (proj2 (Z.ltb_lt _ _) Htok), Ht, Hin.
  destruct Hreg as [->|[p Hp]]; [done|]. rewrite Hp.
  destruct (ownerHolds_true _ _ user_mcp (reads_mcp s) Ho) as [->|[Hu Hm]]; [done|].
  destruct (ctx_isSuperuser ctx); [done|].
  rewrite (proj2 (Z.eqb_neq _ _) Hu), (bool_decide_eq_true_2 _ Hm).
  by rewrite !orb_true_r.
Qed.

Lemma coversMCP_allowed x i :
  ids_ok (db s) -> coversMCP token_ceiling x = true ->
  x = i \/ x = mcpScopeWildcard -> is_Some (find_identifier (db s) i) ->
  mcp_allowed (db s) ctx i = true.
Proof using Hs Hinc Htok.
  intros Hids. unfold coversMCP. cbn [tc_session tc_rc tc_ctx token_ceiling].
  destruct (String.eqb_spec x mcpScopeWildcard) as [->|Hne].
  { intros H _ ?. apply holdsAllMCP_allowed; auto. }
  intros H [->|?] _; [|done].
  destruct (CanAccessMCPItem_decides rc s ctx i Hs) as [[E|E] _]; congruence.
Qed.

(** ** The reach of a principal *)

Lemma coversReachConnections_in p lister c0 l :
  coversReachConnections token_ceiling p lister = true ->
  reach_conns p !! c0 = Some l ->
  in_reach (db s) (lookup_of rc) ctx (HoldsConnection c0 l).
Proof using Hl Hs Htok Hinc.
  unfold coversReachConnections. intros H Hl0 c Hc Hc0 Hlive.
  destruct (coversConnection _ ConnectionIDAll _) eqn:Hall.
  - apply (coversConnection_rank _ _ c) in Hall; auto.
    pose proof (rank_le2 l). change (accessLevelRank AccessLevelReadWrite) with 2%nat in Hall.
    lia.
  - destruct (reach_superuser p || _); [done|].
    destruct (forallb _ _) eqn:Hf; [|done].
    rewrite forallb_forall in Hf. specialize (Hf (c0, l)).
    rewrite <- list_elem_of_In, elem_of_map_to_list in Hf.
    by apply (coversConnection_rank _ _ c (Hf Hl0)).
Qed.

Lemma coversReachMCP_in p x :
  ids_ok (db s) -> coversReachMCP token_ceiling p = true -> x ∈ reach_mcp p ->
  in_reach (db s) (lookup_of rc) ctx (HoldsMCP x).
Proof using Hs Htok Hinc.
  intros Hids. unfold coversReachMCP. intros H Hx i Hi Hreg.
  destruct (holdsAllMCP token_ceiling) eqn:Hall; [apply holdsAllMCP_allowed; auto|].
  destruct (reachesEverything p || _); [done|].
  destruct (forallb (coversMCP token_ceiling) _) eqn:Hf; [|done].
  rewrite forallb_forall in Hf. specialize (Hf x).
  rewrite <- list_elem_of_In, elem_of_elements in Hf.
  by apply (coversMCP_allowed x i Hids (Hf Hx)).
Qed.

Lemma coversReachAdmin_in p x :
  coversReachAdmin token_ceiling p = true -> x ∈ reach_admin p ->
  in_reach (db s) (lookup_of rc) ctx (HoldsAdmin x).
Proof using Hs Htok Hinc.
  unfold coversReachAdmin. intros H Hx q Hq.
  destruct (holdsAllAdmin token_ceiling) eqn:Hall; [by apply holdsAllAdmin_allowed|].
  destruct (reachesEverything p); [done|].
  rewrite forallb_forall in H. specialize (H x).
  rewrite <- list_elem_of_In, elem_of_elements in H.
  by apply (coversAdmin_allowed x q (H Hx)).
Qed.

Lemma group_row_real g c l : (c, l) ∈ group_conn_rows (db s) g -> real_level l.
Proof using Hl.
  unfold group_conn_rows. intros (r & Hr & E)%list_elem_of_omap.
  destruct (cp_group r =? g); [|done]. injection E as _ <-.
  unfold levels_ok in Hl. rewrite Forall_forall in Hl. by apply Hl.
Qed.

(** What [loadGroupReach] collects includes what the group holds. *)
Lemma loadGroupReach_holds g p it :
  loadGroupReach s g = Some p -> holds (db s) (inr g) it ->
  match it with
  | HoldsConnection c l => exists l', reach_conns p !! c = Some l' /\
                             (accessLevelRank l <= accessLevelRank l')%nat
  | HoldsMCP x => x ∈ reach_mcp p
  | HoldsAdmin x => x ∈ reach_admin p
  end.
Proof using Hl.
  unfold loadGroupReach. intros H (g' & Hg' & Hit). apply ancestor_groups_spec in Hg'.
  destruct (rbind _ _) as [p'|] eqn:E; [|done]. injection H as ->.
  apply rbind_Ok in E as (conns & Hc & E). apply rbind_Ok in E as (mcp & Hm & E).
  apply rbind_Ok in E as (admin & Ha & [= <-]). destruct it as [c l|x|x]; simpl in *.
  - apply rbind_Ok in Hc as (rows & ->%ask_Ok & [= <-]). rewrite list_to_map_to_list.
    apply keep_effective_ge; [|by intros ? ? ?%lookup_empty_Some|].
    + intros c' l' (g1 & _ & Hin)%elem_of_rows. by eapply group_row_real.
    + left. apply elem_of_rows. eauto.
  - apply rbind_Ok in Hm as (names & ->%ask_Ok & Hm).
    apply rbind_Ok in Hm as (wild & ->%ask_Ok & [= <-]). rewrite elem_of_list_to_set.
    destruct Hit as [Hin|[-> Hw]].
    + assert (x ∈ concat (map (group_mcp_names (db s)) (ancestor_groups (db s) g)))
        by (apply elem_of_rows; eauto).
      destruct (existsb _ _); [by apply list_elem_of_further|done].
    + assert (existsb (group_mcp_wildcard (db s)) (ancestor_groups (db s) g) = true)
        as ->; [|apply list_elem_of_here].
      apply existsb_exists. exists g'. by rewrite <- list_elem_of_In.
  - apply ask_Ok in Ha as ->. rewrite elem_of_list_to_set. apply elem_of_rows. eauto.
Qed.

Lemma GroupWithinTokenScope_in g it :
  ids_ok (db s) -> GroupWithinTokenScope rc ctx g = true ->
  holds (db s) (inr g) it -> in_reach (db s) (lookup_of rc) ctx it.
Proof using Hl Hs Htok Hinc.
  intros Hids. unfold GroupWithinTokenScope. rewrite actorCeiling_token.
  cbn [tc_session tc_store token_ceiling].
  destruct (loadGroupReach s g) as [p|] eqn:Hp; [|done].
  unfold coversReach. destruct (reach_superuser p && _); [done|].
  intros [[Hc Hm]%andb_true_iff Ha]%andb_true_iff Hh.
  pose proof (loadGroupReach_holds g p it Hp Hh) as Hit. destruct it as [c0 l|x|x].
  - destruct Hit as (l' & Hl' & Hle). intros c ? ? ?.
    pose proof (coversReachConnections_in p None c0 l' Hc Hl' c) as Hr.
    etrans; [exact Hle|]. by apply Hr.
  - by eapply coversReachMCP_in.
  - by eapply coversReachAdmin_in.
Qed.
End Sound.
