(* ===== verification/RbacHandlers.v ===== *)
(** * The handlers that change access
      (server/src/internal/api: rbac_grant_scope.go,
      rbac_group_privilege_handlers.go, rbac_group_handlers.go,
      rbac_token_handlers.go, rbac_handlers.go)

    Each handler asks for an admin permission, asks the ceiling checks
    whether the change lies within the acting token's access, and then writes
    to the store.  Other requests may change the store in between: the checks
    run on the store of the checker [rc], the write on the store [w]. *)
From stdpp Require Import base list strings gmap sets relations.
From S2P Require Import Prelude AuthStore Groups Grants Access TokenScope.
From S2P Require Import Ceiling.

Local Open Scope Z_scope.

(** What the client sees.  A refusal is recorded as a denial, which touches
    the audit log only and is not part of [tables] here. *)
Inductive rbac_response :=
| Refused
| BadRequest
| Conflict
| ReadFailed
| WriteFailed (e : auth_error)
| NoContent.

(** The answer to a write: [respondTokenWriteError], and for the other writes
    the two cases that apply to them. *)
Definition respond (out : tables * result unit) : tables * rbac_response :=
  (fst out, match snd out with
            | Ok _ => NoContent
            | Err ErrUnknownMCPPrivilege => BadRequest
            | Err ErrTokenScopeChanged => Conflict
            | Err e =>
                if bool_decide (e ∈ [ErrSuperuserTargetForbidden; ErrTokenNotOwned;
                                     ErrRevokeLiftsRestriction])
                then Refused else WriteFailed e
            end).

Section Handlers.
Context (rc : option RBACChecker) (w : AuthStore) (ctx : Context).

Definition requirePermission (permission : string)
    (k : tables * rbac_response) : tables * rbac_response :=
  if HasAdminPermission rc ctx permission then k else (db w, Refused).

Definition requireSuperuser (k : tables * rbac_response)
    : tables * rbac_response :=
  if IsSuperuser rc ctx then k else (db w, Refused).

Definition requireGrantInTokenScope (inScope : bool)
    (k : tables * rbac_response) : tables * rbac_response :=
  if inScope then k else (db w, Refused).

(** ** Privileges of a group *)

Definition handleGrantMCP (groupID : Z) (privilege : string)
    : tables * rbac_response :=
  requirePermission "manage_permissions"
    (if String.eqb privilege "" then (db w, BadRequest)
     else requireGrantInTokenScope (CanGrantMCPItem rc ctx privilege)
       (respond (grantMCPPrivilegeByName w groupID privilege))).

Definition handleRevokeMCP (groupID : Z) (privilege : string)
    : tables * rbac_response :=
  requirePermission "manage_permissions"
    (if String.eqb privilege "" then (db w, BadRequest)
     else respond (revokeMCPPrivilegeByName w groupID privilege)).

Definition handleGrantConnection (groupID connectionID : Z)
    (accessLevel : string) : tables * rbac_response :=
  requirePermission "manage_permissions"
    (if connectionID <? 0 then (db w, BadRequest)
     else if negb (String.eqb accessLevel "read") &&
             negb (String.eqb accessLevel "read_write") then (db w, BadRequest)
     else requireGrantInTokenScope
       (CanGrantConnection rc ctx connectionID accessLevel)
       (respond (grantConnectionPrivilege w groupID connectionID accessLevel))).

Definition handleRevokeConnection (groupID connectionID : Z)
    : tables * rbac_response :=
  requirePermission "manage_permissions"
    (requireGrantInTokenScope (CanRevokeConnection rc ctx connectionID)
       (respond (revokeConnectionPrivilege w groupID connectionID
                   (ConnectionLiftGuard rc ctx [connectionID])))).

Definition grantGroupPermission (groupID : Z) (permission : string)
    : tables * rbac_response :=
  requireSuperuser
    (if String.eqb permission "" then (db w, BadRequest)
     else requireGrantInTokenScope (CanGrantAdminPermission rc ctx permission)
       (respond (grantAdminPermission w groupID permission))).

Definition revokeGroupPermission (groupID : Z) (permission : string)
    : tables * rbac_response :=
  requireSuperuser (respond (revokeAdminPermission w groupID permission)).

(** ** Members of a group *)

(** The member named by a request body. *)
Definition addGroupMember (groupID : Z) (userID memberGroupID : option Z)
    : tables * rbac_response :=
  requirePermission "manage_groups"
    (match userID, memberGroupID with
     | None, None | Some _, Some _ => (db w, BadRequest)
     | Some u, None =>
         requireGrantInTokenScope (GroupWithinTokenScope rc ctx groupID)
           (respond (addUserToGroup w groupID u))
     | None, Some g =>
         requireGrantInTokenScope (GroupWithinTokenScope rc ctx groupID)
           (respond (addGroupToGroup w groupID g))
     end).

Definition removeGroupMember (groupID : Z) (memberType : string) (memberID : Z)
    : tables * rbac_response :=
  requirePermission "manage_groups"
    (if negb (String.eqb memberType "user") &&
        negb (String.eqb memberType "group") then (db w, BadRequest)
     else requireGrantInTokenScope (CanRemoveGroupMember rc ctx groupID)
       (if String.eqb memberType "user"
        then respond (removeUserFromGroup w groupID memberID)
        else respond (removeGroupFromGroup w groupID memberID))).

(** ** Deleting a group *)

Definition GetGroup (s : AuthStore) (id : Z) : result (option UserGroup) :=
  ask s "GetGroup" 0 [id]
    (find (fun g => group_id g =? id) (user_group_rows (db s))).

(** [federated]: the group names the OIDC group map assigns users to. *)
Definition requireGroupDeleteInTokenScope (s : AuthStore)
    (federated : gset string) (groupID : Z) (k : tables * rbac_response)
    : tables * rbac_response :=
  if bool_decide (federated = ∅) || TokenHoldsEverything rc ctx then k
  else match GetGroup s groupID with
       | Err _ => (db w, ReadFailed)
       | Ok None => k
       | Ok (Some group) =>
           requireGrantInTokenScope
             (negb (bool_decide (Name group ∈ federated))) k
       end.

(** [s] is the store of [rc], which the handler also reads directly. *)
Definition handleDeleteGroup (s : AuthStore) (federated : gset string)
    (groupID : Z) : tables * rbac_response :=
  requirePermission "manage_groups"
    (requireGrantInTokenScope (CanDeleteGroup rc ctx groupID)
       (requireGroupDeleteInTokenScope s federated groupID
          (respond (deleteGroup w groupID
                      (GroupDeleteLiftGuard rc s ctx groupID))))).

(** ** Token scopes *)

Definition tokenOwnerGuard : TokenOwnerGuard :=
  if IsSuperuser rc ctx then AnyTokenOwner else TokensOwnedBy (ctx_userID ctx).

Definition superuserOwnerAllowed (tokenID : Z) : bool :=
  if (0 <? ctx_tokenID ctx) && (ctx_tokenID ctx =? tokenID) then true
  else IsSuperuser rc ctx.

(** [requireTokenScopeChange]: the snapshot the write is tied to, or the
    refusal. *)
Definition requireTokenScopeChange (judge : result (bool * option TokenScopeSnapshot))
    : option TokenScopeSnapshot + rbac_response :=
  if TokenHoldsEverything rc ctx then inl None
  else match judge with
       | Err _ => inr ReadFailed
       | Ok (allowed, judged) => if allowed then inl judged else inr Refused
       end.

Definition is_empty {A} (kind : option (list A)) : bool :=
  match kind with Some entries => is_nil entries | None => false end.

Definition emptyScopeKind (connections mcpPrivileges adminPermissions : bool)
    : bool := connections || mcpPrivileges || adminPermissions.

(** [requireKnownMCPPrivileges], reading the store of the handler. *)
Fixpoint requireKnownMCPPrivileges (s : AuthStore) (identifiers : list string)
    : option rbac_response :=
  match identifiers with
  | [] => None
  | identifier :: rest =>
      if String.eqb identifier "*" then requireKnownMCPPrivileges s rest
      else match ask s "GetMCPPrivilege" 0 [] (find_identifier (db s) identifier) with
           | Err _ => Some ReadFailed
           | Ok None => Some BadRequest
           | Ok (Some _) => requireKnownMCPPrivileges s rest
           end
  end.

Definition handleSetTokenScope (s : AuthStore) (tokenID : Z)
    (change : TokenScopeChange) : tables * rbac_response :=
  requirePermission "manage_token_scopes" (
  if emptyScopeKind (is_empty (ch_connections change)) (is_empty (ch_mcp change))
       (is_empty (ch_admin change)) then (db w, BadRequest)
  else if negb (is_ok (ValidateScopedConnections (default [] (ch_connections change))))
  then (db w, BadRequest)
  else if negb (is_ok (ValidateAdminPermissions (default [] (ch_admin change))))
  then (db w, BadRequest)
  else match requireKnownMCPPrivileges s (default [] (ch_mcp change)) with
       | Some r => (db w, r)
       | None =>
           match requireTokenScopeChange
                   (JudgeTokenScopeChange rc ctx tokenID change) with
           | inr r => (db w, r)
           | inl judged =>
               respond (setTokenScope w tokenID change
                          (superuserOwnerAllowed tokenID) tokenOwnerGuard judged)
           end
       end).

Definition handleClearTokenScope (tokenID : Z) (lister : option ReachLister)
    : tables * rbac_response :=
  requirePermission "manage_token_scopes"
    (match requireTokenScopeChange
             (JudgeTokenScopeClear rc ctx tokenID lister) with
     | inr r => (db w, r)
     | inl judged =>
         respond (clearTokenScope w tokenID (superuserOwnerAllowed tokenID)
                    tokenOwnerGuard judged)
     end).
End Handlers.
