(* ===== verification/Escalation.v ===== *)
(** * Tokens cannot escalate
      (the handlers of RbacHandlers, run against each other)

    A set of tokens sends any sequence of grants, revocations, membership
    changes and group deletions.  Nobody ends up with more than they had or
    than one of those tokens could reach at the start. *)
From stdpp Require Import base list strings gmap sets relations.
From S2P Require Import Prelude AuthStore Groups Grants Access TokenScope.
From S2P Require Import Reach Ceiling CeilingSound RbacHandlers.

Local Open Scope Z_scope.
Local Open Scope res_scope.

(** ** Staying within bounds *)

(** The tables none of these handlers writes. *)
Definition same_scopes (t t' : tables) : Prop :=
  users t = users t' /\ tokens t = tokens t' /\
  mcp_privilege_identifiers t = mcp_privilege_identifiers t' /\
  token_connection_scope t = token_connection_scope t' /\
  token_mcp_scope t = token_mcp_scope t' /\
  token_admin_scope t = token_admin_scope t'.

Section Bounds.
Context (lk : option SharingLookup) (actors : Context -> Prop) (t0 : tables).

(** What some actor reaches in the tables [t0]. *)
Definition conn_bound (c : Z) (n : nat) : Prop :=
  exists a, actors a /\ (n <= conn_rank t0 lk a c)%nat.
Definition mcp_bound (i : string) : Prop :=
  exists a, actors a /\ mcp_allowed t0 a i = true.
Definition admin_bound (p : string) : Prop :=
  exists a, actors a /\ admin_allowed t0 a p = true.

(** Handing this item to anyone gives only what some actor reaches. *)
Definition covered (it : item) : Prop :=
  match it with
  | HoldsConnection c0 l => forall c, c <> ConnectionIDAll ->
      c0 = c \/ c0 = ConnectionIDAll -> live lk c -> conn_bound c (accessLevelRank l)
  | HoldsMCP x => forall i, x = i \/ x = mcpScopeWildcard ->
      is_Some (find_identifier t0 i) -> mcp_bound i
  | HoldsAdmin p => forall q, p = q \/ p = AdminPermissionWildcard -> admin_bound q
  end.

Record within (t t' : tables) : Prop := {
  within_scopes : same_scopes t' t;
  within_levels : levels_ok t -> levels_ok t';
  within_holds n it : holds t' n it -> holds t n it \/ covered it;
  within_restricted c : c <> ConnectionIDAll ->
    restricted_by_group t c = true ->
    restricted_by_group t' c = true \/ (live lk c -> conn_bound c 2);
}.

#[export] Instance within_preorder : PreOrder within.
Proof.
  split.
  - intros t. split; auto. done.
  - intros t1 t2 t3 [S1 L1 H1 R1] [S2 L2 H2 R2]. split; [|auto|..].
    + unfold same_scopes in *. naive_solver congruence.
    + intros n it H. destruct (H2 n it H) as [H'|?]; auto.
    + intros c Hc H. destruct (R1 c Hc H) as [H'|?]; auto.
Qed.

Lemma within_data t t1 t2 : same_data t2 t1 -> within t t1 -> within t t2.
Proof.
  intros Hd Hw. assert (within t1 t2) as H.
  { destruct t1, t2. unfold same_data in Hd. simpl in Hd. destruct_and! Hd. subst.
    split; auto. done. }
  by transitivity t1.
Qed.

(** ** Checks on tables within bounds *)

Section Checks.
Context (t : tables) (Hl : levels_ok t0) (Hw : within t0 t).

Lemma owner_rank_within ctx c :
  c <> ConnectionIDAll -> live lk c ->
  (owner_rank t lk ctx c <= owner_rank t0 lk ctx c)%nat \/
  conn_bound c (owner_rank t lk ctx c).
Proof.
  intros Hc Hlive. destruct Hw as [_ Hlv Hh Hr]. specialize (Hlv Hl).
  pose proof (owner_rank_le2 t lk ctx c) as H2.
  assert (open_to t lk ctx c = true -> open_to t0 lk ctx c = true \/ conn_bound c 2) as Ho.
  { specialize (Hr c Hc). unfold open_to, live in *.
    destruct lk as [fn|]; [destruct (fn c) as [[sh ow]|e]; [|done]|];
      simpl in *; [destruct (owns ctx ow), sh; simpl; try by left|];
      destruct (restricted_by_group t c), (restricted_by_group t0 c); auto;
      destruct Hr; auto. }
  destruct (decide (owner_rank t lk ctx c = 0%nat)) as [->|Hpos]; [left; lia|].
  destruct (proj1 (owner_rank_ge t lk ctx c (owner_rank t lk ctx c) Hlv Hlive
    ltac:(lia)) (le_n _)) as [Hsu|[Hop|(Hu & c0 & l & Hc0 & Hg & Hle)]].
  - left. apply owner_rank_ge; auto. lia.
  - destruct (Ho Hop) as [?|(a & Ha & Hb)].
    + left. apply owner_rank_ge; auto. lia.
    + right. exists a. split; [done|]. lia.
  - destruct (Hh (inl (ctx_userID ctx)) (HoldsConnection c0 l) Hg) as [Hg'|Hcov].
    + left. apply owner_rank_ge; [done..|lia|]. right; right. eauto 6.
    + right. destruct (Hcov c Hc Hc0 Hlive) as (a & Ha & Hb).
      exists a. split; [done|]. lia.
Qed.

Lemma conn_rank_within ctx c :
  c <> ConnectionIDAll ->
  (conn_rank t lk ctx c <= conn_rank t0 lk ctx c)%nat \/
  conn_bound c (conn_rank t lk ctx c).
Proof.
  intros Hc. destruct Hw as [Hs Hlv _ _].
  rewrite !conn_rank_min by auto.
  destruct (live_dec lk c) as [Hlive|Hd];
    [|left; rewrite owner_rank_dead by done; lia].
  assert (token_cap_rank t ctx c = token_cap_rank t0 ctx c) as ->.
  { unfold token_cap_rank, token_exists, conn_scope, scope_level, scope_connections.
    destruct Hs as (_ & -> & _ & -> & _). done. }
  destruct (owner_rank_within ctx c Hc Hlive) as [?|(a & Ha & Hb)]; [left; lia|].
  right. exists a. split; [done|]. lia.
Qed.

Lemma mcp_within ctx i :
  mcp_allowed t ctx i = true -> mcp_allowed t0 ctx i = true \/ mcp_bound i.
Proof.
  destruct Hw as [(_ & Htok & Hids & _ & Hms & _) _ Hh _].
  unfold mcp_allowed, find_identifier, token_exists, mcp_in_scope, scope_mcp_names,
    scope_mcp. rewrite Htok, Hids, Hms. fold (find_identifier t0 i).
  destruct (tokenContextIncomplete ctx); [done|].
  destruct (ctx_isSuperuser ctx); [auto|].
  destruct (find_identifier t0 i) as [p|] eqn:Hf; [|done].
  rewrite !andb_true_iff, !orb_true_iff, !andb_true_iff, !orb_true_iff,
    !bool_decide_eq_true.
  intros [[Hp|[Hu Hin]] Hsc]; [left; auto|].
  assert (exists x, (x = i \/ x = mcpScopeWildcard) /\
    holds t (inl (ctx_userID ctx)) (HoldsMCP x)) as (x & Hx & Hhold).
  { destruct Hin as [H|H]; apply user_mcp_spec in H; eauto. }
  apply Hh in Hhold as [Hold|Hcov]; [left|right; apply Hcov; eauto].
  split; [|done]. right. split; [done|]. destruct Hx as [->| ->]; [left|right];
    by apply user_mcp_spec.
Qed.

Lemma admin_within ctx p :
  admin_allowed t ctx p = true -> admin_allowed t0 ctx p = true \/ admin_bound p.
Proof.
  destruct Hw as [(_ & Htok & _ & _ & _ & Has) _ Hh _].
  unfold admin_allowed, token_exists, admin_in_scope, scope_admin.
  rewrite Htok, Has.
  destruct (tokenContextIncomplete ctx); [done|].
  destruct (ctx_isSuperuser ctx); [auto|].
  rewrite !andb_true_iff, !orb_true_iff, !bool_decide_eq_true.
  intros [[Hu Hin] Hsc].
  assert (exists x, (x = p \/ x = AdminPermissionWildcard) /\
    holds t (inl (ctx_userID ctx)) (HoldsAdmin x)) as (x & Hx & Hhold).
  { destruct Hin as [H|H]; apply user_admin_spec in H; eauto. }
  apply Hh in Hhold as [Hold|Hcov]; [left|right; apply Hcov; eauto].
  split; [|done]. split; [done|]. destruct Hx as [->| ->]; [left|right];
    by apply user_admin_spec.
Qed.

(** An actor still reaches nothing new. *)
Lemma actor_conn a c n :
  actors a -> c <> ConnectionIDAll -> (n <= conn_rank t lk a c)%nat ->
  conn_bound c n.
Proof.
  intros Ha Hc Hn.
  destruct (conn_rank_within a c Hc) as [?|(b & Hb & ?)];
    [exists a|exists b]; (split; [done|lia]).
Qed.

Lemma actor_mcp a i : actors a -> mcp_allowed t a i = true -> mcp_bound i.
Proof. intros Ha [?|?]%mcp_within; [by exists a|done]. Qed.

Lemma actor_admin a p : actors a -> admin_allowed t a p = true -> admin_bound p.
Proof. intros Ha [?|?]%admin_within; [by exists a|done]. Qed.

Lemma in_reach_covered a it : actors a -> in_reach t lk a it -> covered it.
Proof.
  intros Ha Hin. destruct it as [c0 l|x|p].
  - intros c Hc Hc0 Hlive. eapply actor_conn; [done..|]. by apply Hin.
  - intros i Hi Hreg. eapply actor_mcp; [done|]. apply Hin; [done|].
    destruct Hw as [(_ & _ & Hids & _) _ _ _]. unfold find_identifier. by rewrite Hids.
  - intros q Hq. eapply actor_admin; [done|]. by apply Hin.
Qed.
End Checks.

(** ** What a change of the tables can do *)

Lemma above_sub t t' n g :
  (forall m, m ∈ group_memberships t' -> m ∈ group_memberships t) ->
  above t' n g -> above t n g.
Proof.
  intros Hm. assert (forall x y, childOf t' x y -> childOf t x y) as Hc.
  { intros x y (m & Hin & H). exists m. auto. }
  destruct n as [u|g0]; simpl.
  - rewrite !member_of_ancestors. intros (d & Hd & Hr). exists d.
    split; [|by eapply rtc_subrel].
    unfold direct_groups in *. apply list_elem_of_omap in Hd as (m & Hin & E).
    apply list_elem_of_omap. eauto.
  - by apply rtc_subrel.
Qed.

(** Fewer rows hold fewer items. *)
Lemma group_item_sub t t' g it :
  mcp_privilege_identifiers t' = mcp_privilege_identifiers t ->
  (forall r, r ∈ group_mcp_privileges t' -> r ∈ group_mcp_privileges t) ->
  (forall r, r ∈ connection_privileges t' -> r ∈ connection_privileges t) ->
  (forall r, r ∈ group_admin_permissions t' -> r ∈ group_admin_permissions t) ->
  group_item t' g it -> group_item t g it.
Proof.
  intros Hi Hm Hc Ha. destruct it as [c l|x|p]; simpl.
  - unfold group_conn_rows. rewrite !list_elem_of_omap. naive_solver.
  - assert (forall P, existsb P (group_mcp_privileges t') = true ->
      existsb P (group_mcp_privileges t) = true) as He.
    { intros P. rewrite !existsb_exists. setoid_rewrite <- list_elem_of_In. naive_solver. }
    intros [Hin|[-> Hw]]; [left|right; split; [done|by apply He]].
    unfold group_mcp_names in *. rewrite Hi in Hin.
    apply list_elem_of_omap in Hin as (q & Hq & E). apply list_elem_of_omap.
    exists q. split; [done|]. revert E.
    destruct (existsb _ (group_mcp_privileges t')) eqn:E'; [|done].
    by rewrite (He _ E').
  - unfold group_admin_names. rewrite !list_elem_of_omap. naive_solver.
Qed.

(** Removing rows is harmless as long as it opens no connection but one an
    actor holds. *)
Lemma within_shrink t t' :
  same_scopes t' t ->
  (forall m, m ∈ group_memberships t' -> m ∈ group_memberships t) ->
  (forall r, r ∈ group_mcp_privileges t' -> r ∈ group_mcp_privileges t) ->
  (forall r, r ∈ connection_privileges t' -> r ∈ connection_privileges t) ->
  (forall r, r ∈ group_admin_permissions t' -> r ∈ group_admin_permissions t) ->
  (forall c, c <> ConnectionIDAll -> restricted_by_group t c = true ->
     restricted_by_group t' c = true \/ (live lk c -> conn_bound c 2)) ->
  within t t'.
Proof.
  intros Hs Hm Hmc Hc Ha Hr. split; [done|..|done].
  - unfold levels_ok. rewrite !Forall_forall. auto.
  - intros n it (g & Hg & Hit). left. exists g.
    split; [by apply (above_sub t t')|]. apply (group_item_sub t t'); try done.
    by destruct Hs as (_ & _ & ? & _).
Qed.

(** Adding rows gives the new item to those who have the group. *)
Lemma within_grow t t' :
  same_scopes t' t -> group_memberships t' = group_memberships t ->
  (levels_ok t -> levels_ok t') ->
  (forall g it, group_item t' g it -> group_item t g it \/ covered it) ->
  (forall c, restricted_by_group t c = true -> restricted_by_group t' c = true) ->
  within t t'.
Proof.
  intros Hs Hm Hlv Hit Hr. split; [done|done|..|auto].
  intros n it (g & Hg & H). destruct (Hit g it H) as [?|?]; [left|by right].
  exists g. split; [|done]. eapply above_sub; [|done]. by rewrite Hm.
Qed.

Lemma commits_within s apply out :
  commits s apply out ->
  (forall t', apply (db s) = Ok t' -> within (db s) t') ->
  within (db s) (fst out).
Proof.
  intros [(t' & Ht' & Hd)|Hd] Hap; (eapply within_data; [done|]); [auto|reflexivity].
Qed.

(** ** Grants *)

Lemma grantConnection_within s g c l :
  covered (HoldsConnection c l) ->
  within (db s) (fst (grantConnectionPrivilege s g c l)).
Proof.
  intros Hcov. eapply commits_within; [apply privilege_change_commits|].
  cbv beta. intros t'.
  destruct (_ && _) eqn:Hlv; [done|]. destruct (group_exists _ _); [|done].
  intros ->%ask_Ok. assert (real_level l) as Hreal.
  { unfold real_level. destruct (String.eqb_spec l AccessLevelRead); [by left|].
    destruct (String.eqb_spec l AccessLevelReadWrite); [by right|done]. }
  apply within_grow; [done|done|..].
  - unfold levels_ok. simpl. rewrite Forall_app, Forall_singleton. intros Hold. split; [|done].
    rewrite !Forall_forall in *. intros r [_ ?]%list_elem_of_filter. auto.
  - intros g' [c' l'|x|p] H; [|by left|by left]. simpl in *. unfold group_conn_rows in *.
    simpl in H. rewrite omap_app, elem_of_app in H. destruct H as [H|H].
    + left. apply list_elem_of_omap in H as (r & Hr & E).
      apply list_elem_of_filter in Hr as [_ Hr]. apply list_elem_of_omap. eauto.
    + right. simpl in H. destruct (g =? g'); [|by apply elem_of_nil in H].
      by apply list_elem_of_singleton in H as [= -> ->].
  - intros c'. rewrite !restricted_elem. intros (r & Hr & E). simpl.
    setoid_rewrite elem_of_app. setoid_rewrite list_elem_of_filter.
    destruct (conn_row g c r) eqn:Hrow; [|by eauto].
    eexists. split; [right; by apply list_elem_of_singleton|]. simpl.
    unfold conn_row in Hrow. lia.
Qed.

Lemma insert_group_mcp_within t g p x :
  ids_ok t -> covered (HoldsMCP x) ->
  (p = MCPPrivilegeIDWildcard /\ x = mcpScopeWildcard \/
   exists q, q ∈ mcp_privilege_identifiers t /\ mcp_id q = p /\ Identifier q = x) ->
  within t (set_mcp t (group_mcp_privileges t ++
                         [{| gmp_group := g; gmp_privilege := p |}])).
Proof.
  intros Hids Hcov Hp. apply within_grow; try done.
  assert (forall q, q ∈ mcp_privilege_identifiers t -> mcp_id q <> 0) as Hnz.
  { destruct Hids as [_ Hf]. rewrite Forall_forall in Hf. intros q Hq. by destruct (Hf q Hq). }
  intros g' [c' l'|y|q] H; [by left| |by left]. simpl in *.
  destruct H as [H|[-> H]].
  - unfold group_mcp_names in *. simpl in H. apply list_elem_of_omap in H as (q & Hq & E).
    rewrite existsb_app in E. simpl in E.
    destruct (existsb _ (group_mcp_privileges t)) eqn:E'; simpl in E.
    + left; left. apply list_elem_of_omap. exists q. by rewrite E'.
    + rewrite orb_false_r in E. destruct (_ && _) eqn:Hrow; [|done]. injection E as <-.
      right. destruct Hp as [[-> ->]|(q' & Hq' & <- & <-)].
      * unfold MCPPrivilegeIDWildcard in Hrow. specialize (Hnz q Hq). lia.
      * assert (q = q') as ->; [|done]. apply (same_id t); [done..|]. lia.
  - unfold group_mcp_wildcard in *. simpl in H. rewrite existsb_app in H.
    destruct (existsb _ (group_mcp_privileges t)) eqn:E'; [by left; right|].
    simpl in H. rewrite orb_false_r in H. right.
    destruct Hp as [[_ ->]|(q' & Hq' & <- & _)]; [done|].
    unfold MCPPrivilegeIDWildcard in H. specialize (Hnz q' Hq'). lia.
Qed.

Lemma grantMCP_within s g x :
  ids_ok (db s) -> covered (HoldsMCP x) ->
  within (db s) (fst (grantMCPPrivilegeByName s g x)).
Proof.
  intros Hids Hcov. eapply commits_within; [apply privilege_change_commits|].
  cbv beta. intros t' (p & Hp & (t1 & Ht1 & Hd)%rbind_Ok)%rbind_Ok.
  assert (within (db s) t1) as H1.
  { apply insert_group_mcp_Ok in Ht1 as [->| ->]; [reflexivity|].
    apply (insert_group_mcp_within _ g p x); [done..|].
    destruct (String.eqb_spec x "*") as [->|]; [left; by injection Hp as <-|right].
    apply rbind_Ok in Hp as (row & ->%ask_Ok & Hp).
    destruct (find_identifier (db s) x) as [q|] eqn:Hf; [|done]. injection Hp as <-.
    unfold find_identifier in Hf. apply find_some in Hf as [Hin E%String.eqb_eq].
    exists q. by rewrite list_elem_of_In. }
  destruct (String.eqb x "*"); [apply ask_Ok in Hd as ->|by injection Hd as <-].
  transitivity t1; [done|]. apply within_shrink; simpl; auto; [done|].
  intros r [_ ?]%list_elem_of_filter. done.
Qed.

Lemma grantAdmin_within s g p :
  covered (HoldsAdmin p) ->
  within (db s) (fst (grantAdminPermission s g p)).
Proof.
  intros Hcov. eapply commits_within; [apply privilege_change_commits|].
  cbv beta. intros t' (_ & _ & (t1 & Ht1 & Hd)%rbind_Ok)%rbind_Ok.
  assert (within (db s) t1) as H1.
  { destruct (_ || _); [by apply ask_Ok in Ht1 as ->|].
    destruct (group_exists _ _); [|done]. apply ask_Ok in Ht1 as ->.
    apply within_grow; try done. intros g' [c l|x|q] H; [by left|by left|].
    simpl in *. unfold group_admin_names in *. simpl in H.
    rewrite omap_app, elem_of_app in H. destruct H as [H|H]; [by left|right].
    simpl in H. destruct (g =? g'); [|by apply elem_of_nil in H].
    by apply list_elem_of_singleton in H as ->. }
  destruct (String.eqb p _); [apply ask_Ok in Hd as ->|by injection Hd as <-].
  transitivity t1; [done|]. apply within_shrink; simpl; auto; [done|].
  intros r [_ ?]%list_elem_of_filter. done.
Qed.

(** ** Memberships *)

(** A new member takes on what the group holds. *)
Lemma within_member t t' p :
  same_scopes t' t -> connection_privileges t' = connection_privileges t ->
  (forall g it, group_item t' g it -> group_item t g it) ->
  (forall n g, above t' n g -> above t n g \/ above t (inr p) g) ->
  (forall it, holds t (inr p) it -> covered it) ->
  within t t'.
Proof.
  intros Hs Hc Hit Hab Hcov. split; [done|..].
  - unfold levels_ok. by rewrite Hc.
  - intros n it (g & Hg & H). apply Hit in H.
    destruct (Hab n g Hg); [left; by exists g|right]. apply Hcov. by exists g.
  - intros c _. unfold restricted_by_group. rewrite Hc. auto.
Qed.

Lemma addUser_within s g u :
  (forall it, holds (db s) (inr g) it -> covered it) ->
  within (db s) (fst (addUserToGroup s g u)).
Proof.
  intros Hcov. eapply commits_within; [apply membershipChange_commits|].
  cbv beta. intros t' ->%insert_membership_Ok.
  apply (within_member _ _ g); try done.
  intros [v|g0] g'; cbn [above].
  - rewrite member_user_added. tauto.
  - intros Hr. left. eapply rtc_subrel; [|exact Hr]. intros x y. apply childOf_user_added.
Qed.

Lemma addGroup_within s p c :
  (forall it, holds (db s) (inr p) it -> covered it) ->
  within (db s) (fst (addGroupToGroup s p c)).
Proof.
  intros Hcov. eapply commits_within; [apply membershipChange_commits|].
  cbv beta. intros t' (_ & _ & ->%insert_membership_Ok)%rbind_Ok.
  apply (within_member _ _ p); try done.
  intros [v|g0] g'; cbn [above].
  - rewrite member_group_added. tauto.
  - rewrite (rtc_add (childOf (db s)) _ c p (childOf_group_added (db s) p c)). tauto.
Qed.

Lemma removed_within s m fn t' :
  delete_membership s fn (db s) m = Ok t' -> within (db s) t'.
Proof.
  intros ->%delete_membership_Ok. apply within_shrink; simpl; auto; [done|].
  intros r [_ ?]%list_elem_of_filter. done.
Qed.

Lemma removeUser_within s g u :
  within (db s) (fst (removeUserFromGroup s g u)).
Proof.
  eapply commits_within; [apply membershipChange_commits|].
  intros t'. apply removed_within.
Qed.

Lemma removeGroup_within s p c :
  within (db s) (fst (removeGroupFromGroup s p c)).
Proof.
  eapply commits_within; [apply membershipChange_commits|].
  intros t'. apply removed_within.
Qed.

(** ** Revocations *)

Lemma revokeMCP_within s g x :
  within (db s) (fst (revokeMCPPrivilegeByName s g x)).
Proof.
  eapply commits_within; [apply privilege_change_commits|].
  cbv beta. intros t' ->%delete_rows_Ok. apply within_shrink; simpl; auto; [done|].
  intros r [_ ?]%list_elem_of_filter. done.
Qed.

Lemma revokeAdmin_within s g p :
  within (db s) (fst (revokeAdminPermission s g p)).
Proof.
  eapply commits_within; [apply privilege_change_commits|].
  cbv beta. intros t' ->%delete_rows_Ok. apply within_shrink; simpl; auto; [done|].
  intros r [_ ?]%list_elem_of_filter. done.
Qed.

Definition guard_bounded (guard : option LiftGuard) : Prop :=
  forall c, c <> ConnectionIDAll -> lift_allows guard c = true -> live lk c ->
    conn_bound c 2.

Lemma revokeConnection_within s g c guard :
  guard_bounded guard ->
  within (db s) (fst (revokeConnectionPrivilege s g c guard)).
Proof.
  intros Hg. eapply commits_within; [apply privilege_change_commits|].
  cbv beta. intros t' Ht'.
  pose proof (fun c' => revoke_apply_lift s (db s) g c guard t' c' Ht') as Hlift.
  apply rbind_Ok in Ht' as (_ & _ & ->%delete_rows_Ok).
  apply within_shrink; simpl; auto; [done|..].
  - intros r [_ ?]%list_elem_of_filter. done.
  - intros c' Hc' Hr. destruct (restricted_by_group (set_conns _ _) c') eqn:Hr';
      [by left|right]. apply Hg; auto.
Qed.

Lemma deleteGroup_within s g guard :
  guard_bounded guard ->
  within (db s) (fst (deleteGroup s g guard)).
Proof.
  intros Hg. eapply commits_within; [apply privilege_change_commits|].
  cbv beta. intros t' Ht'.
  pose proof (fun c => delete_apply_lift s (db s) g guard t' c Ht') as Hlift.
  apply rbind_Ok in Ht' as (_ & _ & (_ & _ & (t1 & ->%deleteGroupDependentsTx_Ok
    & ->%deleteGroupRowTx_Ok)%rbind_Ok)%rbind_Ok).
  apply within_shrink; simpl; [done|by intros ? [_ ?]%list_elem_of_filter..|].
  intros c' Hc' Hr. destruct (restricted_by_group (set_grants _ _ _ _ _ _) c') eqn:Hr';
    [by left|right]. apply Hg; auto.
Qed.
End Bounds.

(** ** Requests *)

Inductive access_request :=
| GrantConnection (groupID connectionID : Z) (accessLevel : string)
| RevokeConnection (groupID connectionID : Z)
| GrantMCP (groupID : Z) (privilege : string)
| RevokeMCP (groupID : Z) (privilege : string)
| GrantAdmin (groupID : Z) (permission : string)
| RevokeAdmin (groupID : Z) (permission : string)
| AddMember (groupID : Z) (userID memberGroupID : option Z)
| RemoveMember (groupID : Z) (memberType : string) (memberID : Z)
| DeleteGroup (federated : gset string) (groupID : Z).

(** [s] is the store the checks read, [w] the one the write finds. *)
Definition serve (lk : option SharingLookup) (s w : AuthStore) (ctx : Context)
    (req : access_request) : tables * rbac_response :=
  let rc := Some {| authStore := Some s; connSharingLookupFn := lk |} in
  match req with
  | GrantConnection g c l => handleGrantConnection rc w ctx g c l
  | RevokeConnection g c => handleRevokeConnection rc w ctx g c
  | GrantMCP g x => handleGrantMCP rc w ctx g x
  | RevokeMCP g x => handleRevokeMCP rc w ctx g x
  | GrantAdmin g p => grantGroupPermission rc w ctx g p
  | RevokeAdmin g p => revokeGroupPermission rc w ctx g p
  | AddMember g u m => addGroupMember rc w ctx g u m
  | RemoveMember g ty m => removeGroupMember rc w ctx g ty m
  | DeleteGroup fed g => handleDeleteGroup rc w ctx s fed g
  end.

Lemma fst_respond out : fst (respond out) = fst out.
Proof. done. Qed.

Section Serve.
Context (lk : option SharingLookup) (actors : Context -> Prop) (t0 : tables).
Context (s w : AuthStore) (ctx : Context).
Hypothesis (Hl : levels_ok t0) (Hids : ids_ok t0).
Hypothesis (Hs : within lk actors t0 t0 (db s)) (Hsw : within lk actors t0 (db s) (db w)).
Hypothesis (Hactor : actors ctx) (Htok : 0 < ctx_tokenID ctx).

Let rc := Some {| authStore := Some s; connSharingLookupFn := lk |}.
Let ok := within lk actors t0 (db w).

Lemma token_complete : tokenContextIncomplete ctx = false.
Proof using Htok.
  unfold tokenContextIncomplete. rewrite (proj2 (Z.leb_gt _ _) Htok).
  apply andb_false_r.
Qed.

Lemma within_ids t : within lk actors t0 t0 t -> ids_ok t.
Proof using Hids.
  intros [(_ & _ & E & _) _ _ _]. unfold ids_ok. by rewrite E.
Qed.

Lemma permitted p k : ok (fst k) -> ok (fst (requirePermission rc w ctx p k)).
Proof using.
  intros Hk. unfold requirePermission.
  destruct (HasAdminPermission _ _ _); [done|apply within_preorder].
Qed.

Lemma superuser_only k : ok (fst k) -> ok (fst (requireSuperuser rc w ctx k)).
Proof using.
  intros Hk. unfold requireSuperuser.
  destruct (IsSuperuser _ _); [done|apply within_preorder].
Qed.

Lemma granted b k :
  (b = true -> ok (fst k)) -> ok (fst (requireGrantInTokenScope w b k)).
Proof using.
  intros Hk. unfold requireGrantInTokenScope.
  destruct b; [auto|apply within_preorder].
Qed.

(** What the checks approve is covered. *)
Lemma ceiling_covered it : in_reach (db s) lk ctx it -> covered lk actors t0 it.
Proof using Hactor Hs Hl. intros H. by apply (in_reach_covered lk actors t0 (db s) Hl Hs ctx). Qed.

Lemma conn_covered c l :
  CanGrantConnection rc ctx c l = true -> covered lk actors t0 (HoldsConnection c l).
Proof using Hactor Hs Hl Htok.
  unfold CanGrantConnection. rewrite (actorCeiling_token rc s) by (done || apply token_complete).
  intros H. apply ceiling_covered. intros c' Hc' Hor Hlive.
  by apply (coversConnection_rank rc s ctx eq_refl token_complete Htok
              (within_levels _ _ _ _ _ Hs Hl) c l).
Qed.

Lemma mcp_covered x :
  CanGrantMCPItem rc ctx x = true -> covered lk actors t0 (HoldsMCP x).
Proof using Hactor Hs Hl Htok Hids.
  unfold CanGrantMCPItem. rewrite (actorCeiling_token rc s) by (done || apply token_complete).
  intros H. apply ceiling_covered. intros i Hi Hreg.
  by apply (coversMCP_allowed rc s ctx eq_refl token_complete Htok x i
              (within_ids _ Hs)).
Qed.

Lemma admin_covered p :
  CanGrantAdminPermission rc ctx p = true -> covered lk actors t0 (HoldsAdmin p).
Proof using Hactor Hs Hl Htok.
  unfold CanGrantAdminPermission.
  rewrite (actorCeiling_token rc s) by (done || apply token_complete).
  unfold coversReach. cbn [reach_superuser andb].
  intros [_ Ha]%andb_true_iff. apply ceiling_covered.
  eapply (coversReachAdmin_in rc s ctx eq_refl token_complete Htok _ p Ha).
  cbn [reach_admin]. by apply elem_of_singleton.
Qed.

Lemma member_covered g it :
  GroupWithinTokenScope rc ctx g = true -> holds (db w) (inr g) it ->
  covered lk actors t0 it.
Proof using Hactor Hs Hl Htok Hids Hsw.
  intros Hg Hh.
  destruct (within_holds _ _ _ _ _ Hsw (inr g) it Hh) as [Hold|?]; [|done].
  apply ceiling_covered.
  by apply (GroupWithinTokenScope_in rc s ctx eq_refl token_complete Htok
              (within_levels _ _ _ _ _ Hs Hl) g it (within_ids _ Hs)).
Qed.

Lemma guard_covered ids :
  guard_bounded lk actors t0 (ConnectionLiftGuard rc ctx ids).
Proof using Hactor Hs Hl Htok.
  intros c Hc Hal Hlive.
  eapply (actor_conn lk actors t0 (db s) Hl Hs ctx); [done..|].
  by apply (ConnectionLiftGuard_rank rc s ctx eq_refl token_complete Htok
              (within_levels _ _ _ _ _ Hs Hl) ids).
Qed.

Lemma serve_within req : within lk actors t0 (db w) (fst (serve lk s w ctx req)).
Proof using Hactor Hs Hl Htok Hids Hsw.
  assert (ids_ok (db w)) as Hidw by (apply within_ids; by transitivity (db s)).
  assert (ok (db w)) as Hrefl by apply within_preorder.
  destruct req as [g c l|g c|g x|g x|g p|g p|g u m|g ty m|fed g]; cbn [serve].
  - apply permitted. split_ifs; try done. apply granted. intros H.
    apply grantConnection_within. by apply conn_covered.
  - apply permitted, granted. intros _. apply revokeConnection_within, guard_covered.
  - apply permitted. split_ifs; try done. apply granted. intros H.
    apply grantMCP_within; [done|]. by apply mcp_covered.
  - apply permitted. split_ifs; try done. apply revokeMCP_within.
  - apply superuser_only. split_ifs; try done. apply granted. intros H.
    apply grantAdmin_within. by apply admin_covered.
  - apply superuser_only, revokeAdmin_within.
  - apply permitted. destruct u as [u|], m as [m|]; try done; apply granted; intros H.
    + apply addUser_within. intros it. by apply member_covered.
    + apply addGroup_within. intros it. by apply member_covered.
  - apply permitted. split_ifs; try done; apply granted; intros _;
      [apply removeUser_within|apply removeGroup_within].
  - apply permitted, granted. intros _.
    assert (ok (fst (respond (deleteGroup w g (GroupDeleteLiftGuard rc s ctx g)))))
      as Hdel.
    { apply deleteGroup_within. unfold GroupDeleteLiftGuard.
      destruct (ListGroupConnectionPrivileges s g); [apply guard_covered|].
      intros c _ Hal. cbn in Hal. by apply bool_decide_eq_true, elem_of_empty in Hal. }
    unfold requireGroupDeleteInTokenScope. destruct (_ || _); [done|].
    destruct (GetGroup s g) as [[grp|]|]; [|done|done]. by apply granted.
Qed.
End Serve.

(** ** Any sequence of requests *)

(** The tables a run has gone through, the latest first.  Requests overlap:
    the checks of one may have read any of the earlier tables, and any of
    its queries may fail. *)
Inductive runs (lk : option SharingLookup) (actors : Context -> Prop)
    (t0 : tables) : list tables -> Prop :=
| runs_start : runs lk actors t0 [t0]
| runs_request t seen checked f f' ctx req :
    runs lk actors t0 (t :: seen) -> checked ∈ t :: seen -> actors ctx ->
    runs lk actors t0
      (fst (serve lk {| db := checked; fault := f |} {| db := t; fault := f' |}
              ctx req) :: t :: seen).

Lemma runs_within lk actors t0 t seen :
  levels_ok t0 -> ids_ok t0 -> (forall a, actors a -> 0 < ctx_tokenID a) ->
  runs lk actors t0 (t :: seen) ->
  within lk actors t0 t0 t /\
  forall t1, t1 ∈ t :: seen ->
    within lk actors t0 t0 t1 /\ within lk actors t0 t1 t.
Proof.
  intros Hl Hids Htok Hrun. remember (t :: seen) as hist eqn:E. revert t seen E.
  induction Hrun as [|t' seen' checked f f' ctx req Hrun IH Hin Ha]; intros t seen [= <- <-].
  { split; [reflexivity|]. intros t1 ->%list_elem_of_singleton. split; reflexivity. }
  destruct (IH t' seen' eq_refl) as [Hw Hall].
  destruct (Hall checked Hin) as [Hc Hcw].
  pose proof (serve_within lk actors t0 {| db := checked; fault := f |}
    {| db := t'; fault := f' |} ctx Hl Hids Hc Hcw Ha (Htok ctx Ha) req) as Hstep.
  split; [by transitivity t'|].
  intros t1 [->|H1]%elem_of_cons; [split; [by transitivity t'|reflexivity]|].
  destruct (Hall t1 H1) as [H2 H3]. split; [done|]. by transitivity t'.
Qed.

Lemma superuser_same t t' ctx :
  same_scopes t t' -> superuser_allowed t ctx = superuser_allowed t' ctx.
Proof.
  intros (_ & Ht & _ & _ & _ & Ha). unfold superuser_allowed, token_exists, scope_admin.
  by rewrite Ht, Ha.
Qed.

(** C2: Tokens cannot escalate.  Some tokens send any number of requests to
    grant and revoke privileges, to change memberships and to delete groups,
    overlapping in any order and with any query failing.  Afterwards no
    caller, through a token or a session, reaches a connection, an MCP item
    or an admin permission beyond what it reached at the start, unless one
    of the acting tokens reached it at the start, at that level; and nobody
    became a superuser. *)
Theorem tokens_cannot_escalate lk actors t0 t seen f ctx :
  levels_ok t0 -> ids_ok t0 -> (forall a, actors a -> 0 < ctx_tokenID a) ->
  runs lk actors t0 (t :: seen) ->
  let before := checker lk t0 working in
  let after := checker lk t f in
  (forall c, c <> ConnectionIDAll ->
     (rank_on after ctx c <= rank_on before ctx c)%nat \/
     exists a, actors a /\ (rank_on after ctx c <= rank_on before a c)%nat) /\
  (forall i, CanAccessMCPItem after ctx i = true ->
     CanAccessMCPItem before ctx i = true \/
     exists a, actors a /\ CanAccessMCPItem before a i = true) /\
  (forall p, HasAdminPermission after ctx p = true ->
     HasAdminPermission before ctx p = true \/
     exists a, actors a /\ HasAdminPermission before a p = true) /\
  (IsSuperuser after ctx = true -> IsSuperuser before ctx = true).
Proof.
  intros Hl Hids Htok Hrun before after.
  destruct (runs_within lk actors t0 t seen Hl Hids Htok Hrun) as [Hw _].
  unfold before, after. split_and!.
  - intros c Hc. setoid_rewrite rank_on_working.
    pose proof (CanAccessConnection_rank (checker lk t f) _ ctx eq_refl c) as Hr.
    destruct (conn_rank_within lk actors t0 t Hl Hw ctx c Hc) as [?|(a & Ha & ?)];
      [left; by etrans|right]. exists a. split; [done|by etrans].
  - intros i Hi%mcp_checked. setoid_rewrite mcp_working.
    by apply (mcp_within lk actors t0 t Hw).
  - intros p Hp%admin_checked. setoid_rewrite admin_working.
    by apply (admin_within lk actors t0 t Hw).
  - intros H%superuser_checked. rewrite superuser_working.
    by rewrite <- (superuser_same t) by apply (within_scopes _ _ _ _ _ Hw).
Qed.

(** ** Opening a connection *)

(** A connection that is restricted to groups is opened to everybody
    only by someone who holds it.  When revoking a grant or deleting a group
    leaves a connection with no grant, whatever happened to the tables
    between the checks and the write, the caller is a session or a token
    that reaches the connection with read_write access. *)
Theorem only_holder_lifts_restriction lk s w ctx req c :
  levels_ok (db s) -> c <> ConnectionIDAll -> live lk c ->
  (match req with RevokeConnection _ _ | DeleteGroup _ _ => True | _ => False end) ->
  restricted_by_group (db w) c = true ->
  restricted_by_group (fst (serve lk s w ctx req)) c = false ->
  ctx_tokenID ctx <= 0 \/
  rank_on (checker lk (db s) working) ctx c = 2%nat.
Proof.
  intros Hl Hc Hlive Hreq Hr Hno.
  destruct (decide (ctx_tokenID ctx <= 0)) as [|Htok]; [by left|right].
  rewrite rank_on_working. apply Nat.le_antisymm; [apply conn_rank_le2|].
  set (rc := Some {| authStore := Some s; connSharingLookupFn := lk |}) in *.
  assert (exists ids, lift_allows (ConnectionLiftGuard rc ctx ids) c = true) as (ids & Hal).
  { destruct req as [| g c0 | | | | | | | fed g]; try done; cbn [serve] in Hno; revert Hno;
      unfold handleRevokeConnection, handleDeleteGroup, requirePermission,
        requireGroupDeleteInTokenScope, requireGrantInTokenScope;
      (destruct (HasAdminPermission _ _ _); [|cbn; congruence]).
    - destruct (CanRevokeConnection _ _ _); [|cbn; congruence]. intros Hno.
      exists [c0]. by apply (revokeConnection_lift w g c0).
    - destruct (CanDeleteGroup _ _ _); [|cbn; congruence]. intros Hno.
      assert (restricted_by_group (fst (deleteGroup w g
        (GroupDeleteLiftGuard rc s ctx g))) c = false) as Hdel.
      { revert Hno. destruct (_ || _); [done|].
        destruct (GetGroup s g) as [[grp|]|]; [destruct (negb _)|..];
          solve [done | cbn [fst]; congruence]. }
      apply deleteGroup_lift in Hdel; [|done..]. unfold GroupDeleteLiftGuard in Hdel.
      destruct (ListGroupConnectionPrivileges s g); [by eauto|].
      by apply bool_decide_eq_true, elem_of_empty in Hdel. }
  assert (0 < ctx_tokenID ctx) as Htok' by lia.
  by apply (ConnectionLiftGuard_rank rc s ctx eq_refl (token_complete ctx Htok') Htok' Hl ids).
Qed.
