(* ===== verification/ScopeDelegation.v ===== *)
(** * Changing a token's scope through the API
      (rbac_token_handlers.go: setTokenScope and clearTokenScope, with
      JudgeTokenScopeChange and JudgeTokenScopeClear of grant_scope.go)

    A token with manage_token_scopes may change the scope of other tokens.
    The change is judged against the scope it found, and written only while
    that scope is still in place, so that the other token afterwards reaches
    nothing it did not reach and the acting token does not reach either. *)
From stdpp Require Import base list strings gmap sets relations.
From S2P Require Import Prelude AuthStore Groups Grants Access TokenScope.
From S2P Require Import Reach Ceiling CeilingSound RbacHandlers.

Local Open Scope Z_scope.
Local Open Scope res_scope.

(** ** What the judge read *)

Definition judged_names (t : tables) (tok : Z) : list string :=
  if existsb (Z.eqb MCPPrivilegeIDWildcard) (scope_mcp t tok)
  then [mcpScopeWildcard] else scope_mcp_names t tok.

Definition judged_scope (t : tables) (tok : Z) : storedTokenScope :=
  newStoredTokenScope (scope_connections t tok) (judged_names t tok)
    (negb (is_nil (scope_mcp t tok))) (scope_admin t tok).

Definition scope_snapshot (t : tables) (tok : Z) : TokenScopeSnapshot :=
  newTokenScopeSnapshot (scope_connections t tok) (scope_mcp t tok) (scope_admin t tok).

Lemma token_scope_parts t tok :
  from_option Connections [] (token_scope t tok) = scope_connections t tok /\
  from_option MCPPrivileges [] (token_scope t tok) = scope_mcp t tok /\
  from_option AdminPermissions [] (token_scope t tok) = scope_admin t tok.
Proof.
  unfold token_scope.
  by destruct (scope_connections t tok), (scope_mcp t tok), (scope_admin t tok).
Qed.

Lemma loadStoredTokenScope_Ok s tok ld :
  loadStoredTokenScope s tok = Ok (Some ld) ->
  ld_stored ld = judged_scope (db s) tok /\
  ld_snapshot ld = scope_snapshot (db s) tok /\
  token_owner (db s) tok = Some (ld_ownerID ld).
Proof.
  unfold loadStoredTokenScope. intros H.
  destruct (rbind _ _) as [found|] eqn:E; [|done]. injection H as ->.
  apply rbind_Ok in E as ([token|] & Htk%ask_Ok & E); [|done].
  apply rbind_Ok in E as ([owner|] & _ & E); [|done].
  apply rbind_Ok in E as (scope & Hsc & E). apply rbind_Ok in E as (names & Hn & [= <-]).
  destruct (token_exists (db s) tok) eqn:Ht.
  2:{ destruct (scope_reads_missing s tok Ht) as (_ & _ & _ & _ & [e He]). congruence. }
  pose proof (reads_Ok s _ _ _ (reads_scope s tok Ht) Hsc) as ->.
  pose proof (reads_Ok s _ _ _ (reads_mcp_names s tok Ht) Hn) as ->.
  destruct (token_scope_parts (db s) tok) as (E1 & E2 & E3). simpl.
  unfold token_owner. by rewrite <- Htk, E1, E2, E3.
Qed.

(** ** Scopes that have the same snapshot *)

Lemma elems_nil {A} (l l' : list A) : (forall x, x ∈ l <-> x ∈ l') -> l = [] <-> l' = [].
Proof.
  intros H. destruct l as [|a l], l' as [|b l']; try done.
  - pose proof (proj2 (H b) ltac:(apply list_elem_of_here)) as ?%elem_of_nil. done.
  - pose proof (proj1 (H a) ltac:(apply list_elem_of_here)) as ?%elem_of_nil. done.
Qed.

Section Snapshot.
Context (t t' : tables) (tok : Z).
Hypothesis (Hsnap : scope_snapshot t tok = scope_snapshot t' tok).
Hypothesis (Hids : mcp_privilege_identifiers t = mcp_privilege_identifiers t').

Lemma snapshot_mcp_elem x : x ∈ scope_mcp t tok <-> x ∈ scope_mcp t' tok.
Proof using Hsnap.
  injection Hsnap as _ E _. rewrite <- !(elem_of_list_to_set (C := gset Z)). by rewrite E.
Qed.

Lemma snapshot_mcp i : mcp_in_scope t tok i = mcp_in_scope t' tok i.
Proof using Hsnap Hids.
  apply eq_true_iff_eq. rewrite !mcp_in_scope_spec, Hids.
  rewrite (elems_nil _ _ snapshot_mcp_elem).
  by setoid_rewrite snapshot_mcp_elem.
Qed.

Lemma snapshot_admin p : admin_in_scope t tok p = admin_in_scope t' tok p.
Proof using Hsnap.
  injection Hsnap as _ _ E.
  assert (forall x, x ∈ scope_admin t tok <-> x ∈ scope_admin t' tok) as H.
  { intros x. rewrite <- !(elem_of_list_to_set (C := gset string)). by rewrite E. }
  apply eq_true_iff_eq. rewrite !admin_in_scope_spec, !H.
  by rewrite (elems_nil _ _ H).
Qed.

(** The levels recorded depend on the map of connections only. *)
Lemma snapshot_level c :
  stored_connectionLevel (judged_scope t tok) c =
  stored_connectionLevel (judged_scope t' tok) c.
Proof using Hsnap.
  injection Hsnap as E _ _. unfold stored_connectionLevel, judged_scope. simpl.
  by rewrite E.
Qed.
End Snapshot.

(** ** Each kind of the scope *)

Section Kinds.
Context (rc : option RBACChecker) (s w : AuthStore) (ctx : Context) (tok : Z).
Hypothesis (Hs : store_of rc = Some s) (Hinc : tokenContextIncomplete ctx = false).
Hypothesis (Htok : 0 < ctx_tokenID ctx) (Hl : levels_ok (db s)).
Hypothesis (Hids : ids_ok (db s)) (Hsch : schema_ok (db w) tok).
Hypothesis (Hreg : mcp_privilege_identifiers (db s) = mcp_privilege_identifiers (db w)).
Hypothesis (Hsnap : scope_snapshot (db s) tok = scope_snapshot (db w) tok).

Let lk := lookup_of rc.
Let ceil := token_ceiling rc s ctx.
Let st := judged_scope (db s) tok.

(** What is left of read_write on a connection by the scope of [tok]. *)
Definition scope_cap (t : tables) (tok c : Z) : nat :=
  from_option cap_of 0%nat (conn_scope t tok c).

Lemma cap_of_real l : real_level l -> cap_of l = accessLevelRank l.
Proof using. by intros [->| ->]. Qed.

Lemma cap_rank_write sc :
  cap_rank sc AccessLevelReadWrite = from_option cap_of 0%nat sc.
Proof using.
  destruct sc as [l|]; simpl; [|done]. rewrite ceiling_rank by by right.
  unfold cap_of. split_ifs; done.
Qed.

Lemma entry_delegated sc c :
  entry_change_covered ceil st sc = true -> real_level (AccessLevel sc) ->
  c <> ConnectionIDAll -> ConnectionID sc = c \/ ConnectionID sc = ConnectionIDAll ->
  live lk c ->
  (cap_of (AccessLevel sc) <= scope_cap (db w) tok c)%nat \/
  (cap_of (AccessLevel sc) <= conn_rank (db s) lk ctx c)%nat.
Proof using Hs Hinc Htok Hl Hsch Hsnap.
  intros H Hreal Hc Hid Hlive. rewrite cap_of_real by done.
  unfold entry_change_covered in H. apply orb_true_iff in H as [H|[_ H]%andb_true_iff].
  - right. by apply (coversConnection_rank rc s ctx Hs Hinc Htok Hl (ConnectionID sc)).
  - left. apply Nat.leb_le in H. unfold st in H.
    rewrite (snapshot_level (db s) (db w)) in H by done.
    pose proof (entry_covered (db w) tok Hsch sc c AccessLevelReadWrite H Hreal
      ltac:(by right) Hid) as Hcap.
    rewrite !cap_rank_write in Hcap. cbn [from_option] in Hcap.
    by rewrite cap_of_real in Hcap.
Qed.

Lemma conns_delegated t' entries c :
  well_formed entries -> entries <> [] -> scope_connections t' tok = entries ->
  connectionsChangeCovered ceil st entries = true ->
  c <> ConnectionIDAll -> live lk c ->
  (scope_cap t' tok c <= scope_cap (db w) tok c)%nat \/
  (scope_cap t' tok c <= conn_rank (db s) lk ctx c)%nat.
Proof using Hs Hinc Htok Hl Hsch Hsnap.
  intros Hwf Hne Ht' [Hcov _]%andb_true_iff Hc Hlive.
  assert (forall d l, d = c \/ d = ConnectionIDAll -> scope_level t' tok d = Some l ->
    (cap_of l <= scope_cap (db w) tok c)%nat \/
    (cap_of l <= conn_rank (db s) lk ctx c)%nat) as Hentry.
  { intros d l Hd. unfold scope_level. rewrite Ht'.
    destruct (filter _ entries) as [|sc rest] eqn:E; [done|]. intros [= <-].
    assert (sc ∈ filter (fun sc => ConnectionID sc = d) entries) as Hin
      by (rewrite E; apply list_elem_of_here).
    apply list_elem_of_filter in Hin as [Hid Hin]. apply entry_delegated; auto.
    - rewrite forallb_forall in Hcov. by apply Hcov, list_elem_of_In.
    - pose proof (wf_level _ Hwf) as Hall. rewrite Forall_forall in Hall. by apply Hall.
    - destruct Hd; [left|right]; congruence. }
  unfold scope_cap at 1 3, conn_scope. rewrite Ht'. destruct entries; [done|].
  cbn [is_nil]. destruct (scope_level t' tok c) as [l|] eqn:E1; [by apply (Hentry c); [left|]|].
  destruct (scope_level t' tok ConnectionIDAll) as [l|] eqn:E2;
    [by apply (Hentry ConnectionIDAll); [right|]|]. left. apply Nat.le_0_l.
Qed.

Lemma names_covered entries wildcard current covers e :
  namesChangeCovered entries wildcard current covers = true -> e ∈ entries ->
  match current with
  | None => True
  | Some set => (e <> wildcard /\ e ∈ set) \/ covers e = true
  end.
Proof using.
  unfold namesChangeCovered. destruct current as [set|]; [|done].
  rewrite forallb_forall. intros H He. specialize (H e).
  rewrite <- list_elem_of_In, orb_true_iff, andb_true_iff, bool_decide_eq_true in H.
  destruct (H He) as [[Hne ?]|?]; [left|by right]. split; [|done].
  by apply negb_true_iff, String.eqb_neq in Hne.
Qed.

Lemma admin_delegated t' entries p :
  entries <> [] -> scope_admin t' tok = upto_wildcard entries ->
  namesChangeCovered entries AdminPermissionWildcard (st_admin st)
    (coversAdmin ceil) = true ->
  admin_in_scope t' tok p = true ->
  admin_in_scope (db w) tok p = true \/ admin_allowed (db s) ctx p = true.
Proof using Hs Hinc Htok Hsnap.
  intros Hne Ht' Hcov. rewrite <- (snapshot_admin (db s) (db w)) by done.
  rewrite !admin_in_scope_spec, Ht'. intros Hin.
  assert (exists e, e ∈ entries /\ (e = p \/ e = AdminPermissionWildcard)) as (e & He & Hp).
  { destruct Hin as [Hnil|[H|H]]; [|by eauto using upto_wildcard_sub..].
    destruct entries as [|x l]; [done|]. simpl in Hnil. by destruct (String.eqb x _). }
  pose proof (names_covered _ _ _ _ e Hcov He) as H.
  unfold st, judged_scope in H. cbn [st_admin newStoredTokenScope] in H.
  pose proof (namedScope_spec (scope_admin (db s) tok) AdminPermissionWildcard) as Hn.
  destruct (namedScope _ _) as [set|]; [|left; tauto].
  destruct Hn as (_ & _ & ->). destruct H as [[Hw H]|H].
  - left. right. right. apply elem_of_list_to_set in H. by destruct Hp as [<-|].
  - right. by apply (coversAdmin_allowed rc s ctx Hs Hinc Htok e).
Qed.

(** An item the judged scope admits by name or for lack of a restriction. *)
Lemma judged_mcp i :
  match st_mcp st with
  | None => mcp_in_scope (db s) tok i = true
  | Some set => i ∈ set -> i <> mcpScopeWildcard -> mcp_in_scope (db s) tok i = true
  end.
Proof using Hids.
  unfold st, judged_scope, judged_names. cbn [st_mcp newStoredTokenScope].
  unfold mcp_in_scope.
  destruct (existsb (Z.eqb MCPPrivilegeIDWildcard) (scope_mcp (db s) tok)).
  { rewrite orb_true_r. by destruct (namedScope _ _). }
  rewrite orb_false_r.
  pose proof (namedScope_spec (scope_mcp_names (db s) tok) mcpScopeWildcard) as Hn.
  destruct (namedScope _ _) as [set|].
  - destruct Hn as (_ & _ & ->). intros Hi _. apply elem_of_list_to_set in Hi.
    by rewrite (proj2 (existsb_string _ _) Hi), orb_true_r.
  - destruct Hn as [Hn|Hn].
    + rewrite Hn. by destruct (scope_mcp (db s) tok).
    + exfalso. unfold scope_mcp_names in Hn. apply list_elem_of_omap in Hn as (p & Hp & E).
      destruct (existsb _ _); [|done]. injection E as E.
      destruct Hids as [_ Hf]. rewrite Forall_forall in Hf. by destruct (Hf p Hp).
Qed.

Lemma mcp_delegated t' entries i :
  entries <> [] -> mcp_privilege_identifiers t' = mcp_privilege_identifiers (db w) ->
  ((mcpScopeWildcard ∉ entries) ->
   scope_mcp t' tok = concat (map (ids_named (db w)) entries) /\
   Forall (fun n => ids_named (db w) n <> []) entries) ->
  namesChangeCovered entries mcpScopeWildcard (st_mcp st) (coversMCP ceil) = true ->
  is_Some (find_identifier (db s) i) -> mcp_in_scope t' tok i = true ->
  mcp_in_scope (db w) tok i = true \/ mcp_allowed (db s) ctx i = true.
Proof using Hs Hinc Htok Hids Hsch Hreg Hsnap.
  intros Hne Hid Hwrite Hcov Hfi Hin. rewrite <- (snapshot_mcp (db s) (db w)) by done.
  assert (exists e, e ∈ entries /\ (e = i \/ e = mcpScopeWildcard)) as (e & He & Hi).
  { apply (written_mcp (db w) tok Hsch t' entries i) in Hin as [?|?]; eauto. }
  pose proof (names_covered _ _ _ _ e Hcov He) as H. pose proof (judged_mcp i) as Hj.
  destruct (st_mcp st) as [set|]; [|by left].
  destruct H as [[Hw H]|H]; [left|right].
  - destruct Hi as [->|]; [auto|done].
  - by apply (coversMCP_allowed rc s ctx Hs Hinc Htok e).
Qed.
End Kinds.

(** ** Callers after a change of scope *)

Lemma ids_schema t tok :
  ids_ok t -> NoDup (map ConnectionID (scope_connections t tok)) -> schema_ok t tok.
Proof.
  intros Hids Hnd. pose proof Hids as [_ Hf]. rewrite Forall_forall in Hf.
  constructor; [done|..].
  - intros p Hp. by destruct (Hf p Hp).
  - intros p q Hp Hq E. by rewrite (same_id t p q Hids Hp Hq E).
  - intros p Hp. by destruct (Hf p Hp).
Qed.

Section Rescoped.
Context (t t' : tables) (tok : Z) (Hfr : frame tok t t') (ctx : Context).

Lemma frame_grants :
  (forall u, user_conns t' u = user_conns t u) /\
  (forall u, user_mcp t' u = user_mcp t u) /\
  (forall u, user_admin t' u = user_admin t u) /\
  (forall c, restricted_by_group t' c = restricted_by_group t c).
Proof using Hfr.
  destruct Hfr as [(? & ? & ? & ? & ? & ?) _ ? _ _ _]. destruct t, t'. simpl in *. by subst.
Qed.

Lemma frame_levels : levels_ok t -> levels_ok t'.
Proof using Hfr.
  destruct Hfr as [(_ & _ & _ & _ & E & _) _ _ _ _ _]. unfold levels_ok. by rewrite E.
Qed.

Lemma frame_exists k : token_exists t' k = token_exists t k.
Proof using Hfr. by apply (token_exists_frame tok). Qed.

Lemma frame_owner_rank lk c : owner_rank t' lk ctx c = owner_rank t lk ctx c.
Proof using Hfr.
  destruct frame_grants as (H1 & _ & _ & H4).
  unfold owner_rank, owner_level. by rewrite H1, H4.
Qed.

Lemma rescoped_conn lk c n :
  levels_ok t ->
  (ctx_tokenID ctx = tok -> (scope_cap t' tok c <= scope_cap t tok c)%nat \/
                            (scope_cap t' tok c <= n)%nat) ->
  (conn_rank t' lk ctx c <= conn_rank t lk ctx c)%nat \/
  (conn_rank t' lk ctx c <= n)%nat.
Proof using Hfr.
  intros Hl Hcap. rewrite !conn_rank_min by auto using frame_levels.
  rewrite frame_owner_rank.
  assert ((token_cap_rank t' ctx c <= token_cap_rank t ctx c)%nat \/
          (token_cap_rank t' ctx c <= n)%nat) as H; [|destruct H; [left|right]; lia].
  unfold token_cap_rank. rewrite frame_exists.
  destruct (tokenContextIncomplete ctx); [by left|].
  destruct (ctx_tokenID ctx <=? 0); [by left|].
  destruct (token_exists t (ctx_tokenID ctx)); [|by left].
  destruct (decide (ctx_tokenID ctx = tok)) as [E|Hne]; [rewrite E; auto|]. left.
  unfold conn_scope, scope_level. by rewrite (fr_conns _ _ _ Hfr).
Qed.

Lemma rescoped_mcp i (P : Prop) :
  (ctx_tokenID ctx = tok -> is_Some (find_identifier t i) ->
     mcp_in_scope t' tok i = true -> mcp_in_scope t tok i = true \/ P) ->
  is_Some (find_identifier t i) ->
  mcp_allowed t' ctx i = true -> mcp_allowed t ctx i = true \/ P.
Proof using Hfr.
  intros Hsc Hreg. destruct frame_grants as (_ & H2 & _).
  pose proof (fr_mcp_ids _ _ _ Hfr) as Hids.
  unfold mcp_allowed. rewrite H2, frame_exists.
  assert (find_identifier t' i = find_identifier t i) as ->
    by (unfold find_identifier; by rewrite Hids).
  assert (mcp_in_scope t' (ctx_tokenID ctx) i = true ->
    mcp_in_scope t (ctx_tokenID ctx) i = true \/ P) as Hin.
  { intros H. destruct (decide (ctx_tokenID ctx = tok)) as [E|Hne];
      [rewrite E in *; auto|left].
    revert H. unfold mcp_in_scope, scope_mcp_names.
    by rewrite (fr_mcp _ _ _ Hfr), Hids. }
  destruct (tokenContextIncomplete ctx); [done|].
  destruct (0 <? ctx_tokenID ctx); [|by left].
  destruct (ctx_isSuperuser ctx), (find_identifier t i);
    rewrite ?andb_true_iff; tauto.
Qed.

Lemma rescoped_admin p (P : Prop) :
  (ctx_tokenID ctx = tok -> admin_in_scope t' tok p = true ->
     admin_in_scope t tok p = true \/ P) ->
  admin_allowed t' ctx p = true -> admin_allowed t ctx p = true \/ P.
Proof using Hfr.
  intros Hsc. destruct frame_grants as (_ & _ & H3 & _).
  unfold admin_allowed. rewrite H3, frame_exists.
  assert (admin_in_scope t' (ctx_tokenID ctx) p = true ->
    admin_in_scope t (ctx_tokenID ctx) p = true \/ P) as Hin.
  { intros H. destruct (decide (ctx_tokenID ctx = tok)) as [E|Hne];
      [rewrite E in *; auto|left].
    revert H. unfold admin_in_scope. by rewrite (fr_admin _ _ _ Hfr). }
  destruct (tokenContextIncomplete ctx); [done|].
  destruct (ctx_tokenID ctx <=? 0); [by left|].
  destruct (ctx_isSuperuser ctx); rewrite ?andb_true_iff; tauto.
Qed.
End Rescoped.

(** ** The handlers *)

(** What [ctx'] reaches in [t'] it reached in [t], or [ctx] reaches it in
    [ts]. *)
Definition delegates_to (lk : option SharingLookup) (ts : tables) (ctx : Context)
    (t t' : tables) (ctx' : Context) : Prop :=
  (forall c, c <> ConnectionIDAll ->
     (conn_rank t' lk ctx' c <= conn_rank t lk ctx' c)%nat \/
     (conn_rank t' lk ctx' c <= conn_rank ts lk ctx c)%nat) /\
  (forall i, is_Some (find_identifier t i) -> mcp_allowed t' ctx' i = true ->
     mcp_allowed t ctx' i = true \/ mcp_allowed ts ctx i = true) /\
  (forall p, admin_allowed t' ctx' p = true ->
     admin_allowed t ctx' p = true \/ admin_allowed ts ctx p = true).

Definition delegates (lk : option SharingLookup) (ts : tables) (ctx : Context)
    (t t' : tables) : Prop :=
  forall ctx', delegates_to lk ts ctx t t' ctx'.

Lemma delegates_data lk ts ctx t t' : same_data t' t -> delegates lk ts ctx t t'.
Proof.
  intros Hd ctx'. destruct t, t'. unfold same_data in Hd. simpl in Hd.
  destruct_and! Hd. subst. split_and!; [left; done|by left..].
Qed.

(** It is enough to look at the scope that was written. *)
Lemma delegates_scope lk ts ctx t t' tok :
  frame tok t t' -> levels_ok t ->
  (forall c, c <> ConnectionIDAll -> live lk c ->
     (scope_cap t' tok c <= scope_cap t tok c)%nat \/
     (scope_cap t' tok c <= conn_rank ts lk ctx c)%nat) ->
  (forall i, is_Some (find_identifier t i) -> mcp_in_scope t' tok i = true ->
     mcp_in_scope t tok i = true \/ mcp_allowed ts ctx i = true) ->
  (forall p, admin_in_scope t' tok p = true ->
     admin_in_scope t tok p = true \/ admin_allowed ts ctx p = true) ->
  delegates lk ts ctx t t'.
Proof.
  intros Hfr Hl Hc Hm Ha ctx'. split_and!.
  - intros c Hne. destruct (live_dec lk c) as [Hlive|Hd].
    + apply (rescoped_conn t t' tok Hfr); auto.
    + left. rewrite conn_rank_min by by apply (frame_levels t t' tok).
      rewrite owner_rank_dead by done. rewrite Nat.min_0_r. apply Nat.le_0_l.
  - intros i Hi. apply (rescoped_mcp t t' tok Hfr); auto.
  - intros p. apply (rescoped_admin t t' tok Hfr); auto.
Qed.

(** Other tokens and sessions are not concerned. *)
Lemma delegates_elsewhere lk ts ctx t t' tok ctx' :
  frame tok t t' -> levels_ok t -> ctx_tokenID ctx' <> tok ->
  delegates_to lk ts ctx t t' ctx'.
Proof.
  intros Hfr Hl Hne. split_and!; intros.
  - by apply (rescoped_conn t t' tok Hfr).
  - by apply (rescoped_mcp t t' tok Hfr).
  - by apply (rescoped_admin t t' tok Hfr).
Qed.

Section Handlers.
Context (lk : option SharingLookup) (s w : AuthStore) (ctx : Context) (tok : Z).
Hypothesis (Htok : 0 < ctx_tokenID ctx).
Hypothesis (Hl : levels_ok (db s)) (Hlw : levels_ok (db w)) (Hids : ids_ok (db w)).
Hypothesis (Hreg : mcp_privilege_identifiers (db s) = mcp_privilege_identifiers (db w)).
Hypothesis (Hnd : NoDup (map ConnectionID (scope_connections (db w) tok))).

Let rc := Some {| authStore := Some s; connSharingLookupFn := lk |}.
Let ceil := token_ceiling rc s ctx.

Lemma ids_checked : ids_ok (db s).
Proof using Hids Hreg. unfold ids_ok. by rewrite Hreg. Qed.

Lemma complete : tokenContextIncomplete ctx = false.
Proof using Htok.
  unfold tokenContextIncomplete. rewrite (proj2 (Z.leb_gt _ _) Htok).
  apply andb_false_r.
Qed.

Lemma find_checked i : find_identifier (db w) i = find_identifier (db s) i.
Proof using Hreg. unfold find_identifier. by rewrite Hreg. Qed.

(** A token that holds everything reaches everything. *)
Lemma holds_everything t t' :
  mcp_privilege_identifiers t = mcp_privilege_identifiers (db s) ->
  TokenHoldsEverything rc ctx = true -> levels_ok t' -> delegates lk (db s) ctx t t'.
Proof using Htok Hl Hids Hreg.
  intros Hid. unfold TokenHoldsEverything.
  rewrite (actorCeiling_token rc s ctx eq_refl complete Htok).
  unfold holdsSuperuser, holdsEverything. cbn [tc_session token_ceiling orb tc_ctx].
  intros [_ [[Hc Hm]%andb_true_iff Ha]%andb_true_iff]%andb_true_iff Hl' ctx'.
  split_and!.
  - intros c Hne. destruct (live_dec lk c) as [Hlive|Hd]; [right|left].
    + etrans; [apply conn_rank_le2|].
      by apply (coversConnection_rank rc s ctx eq_refl complete Htok Hl ConnectionIDAll
                  AccessLevelReadWrite c Hc Hne); [right|].
    + rewrite conn_rank_min, owner_rank_dead by done. rewrite Nat.min_0_r. apply Nat.le_0_l.
  - intros i Hi _. right.
    apply (holdsAllMCP_allowed rc s ctx complete Htok i ids_checked Hm). right.
    revert Hi. unfold find_identifier. by rewrite Hid.
  - intros p _. right. by apply (holdsAllAdmin_allowed rc s ctx complete Htok).
Qed.

(** A change the ceiling approved. *)
Lemma judged_change change ld sup owner t' :
  changeWithinCeiling ceil ld change = true ->
  ld_stored ld = judged_scope (db s) tok ->
  emptyScopeKind (is_empty (ch_connections change)) (is_empty (ch_mcp change))
    (is_empty (ch_admin change)) = false ->
  scope_snapshot (db s) tok = scope_snapshot (db w) tok ->
  scope_steps w tok change <> [] ->
  setTokenScope w tok change sup owner (Some (ld_snapshot ld)) = (t', Ok tt) ->
  delegates lk (db s) ctx (db w) t'.
Proof using Htok Hl Hlw Hids Hreg Hnd.
  intros Hcov Hst Hempty Hsnap Hsteps Hset.
  destruct (setTokenScope_result _ _ _ _ _ _ _ Hset) as (R1 & R2 & R3 & R4).
  assert (forall conns, ch_connections change = Some conns -> well_formed conns) as Hwf.
  { by apply (setTokenScope_writes w tok change sup owner (Some (ld_snapshot ld)) t'). }
  unfold emptyScopeKind, is_empty in Hempty.
  rewrite !orb_false_iff in Hempty. destruct Hempty as [[N1 N2] N3].
  unfold changeWithinCeiling in Hcov. rewrite Hst in Hcov.
  destruct (_ && widens _ _); [done|]. rewrite !andb_true_iff in Hcov.
  destruct Hcov as [[C1 C2] C3].
  pose proof (ids_schema (db w) tok Hids Hnd) as Hsch.
  apply (delegates_scope lk _ ctx (db w) t' tok); [by eapply setTokenScope_frame|done|..].
  - intros c Hc Hlive. destruct (ch_connections change) as [conns|]; simpl in *.
    + apply (conns_delegated rc s w ctx tok eq_refl complete Htok Hl Hsch Hsnap t' conns);
        auto. by intros ->.
    + left. unfold scope_cap, conn_scope, scope_level. by rewrite R2.
  - intros i Hi. rewrite find_checked in Hi.
    destruct (ch_mcp change) as [names|]; simpl in *.
    + apply (mcp_delegated rc s w ctx tok eq_refl complete Htok ids_checked Hsch Hreg
        Hsnap t' names); auto. by intros ->.
    + left. revert H. unfold mcp_in_scope, scope_mcp_names. by rewrite R1, R4.
  - intros p. destruct (ch_admin change) as [perms|]; simpl in *.
    + apply (admin_delegated rc s w ctx tok eq_refl complete Htok Hsnap t' perms); auto.
      by intros ->.
    + left. revert H. unfold admin_in_scope. by rewrite R3.
Qed.

Lemma requireTokenScopeChange_cases judge :
  match requireTokenScopeChange rc ctx judge with
  | inr _ => True
  | inl judged => TokenHoldsEverything rc ctx = true \/ judge = Ok (true, judged)
  end.
Proof using.
  unfold requireTokenScopeChange. destruct (TokenHoldsEverything rc ctx); [by left|].
  destruct judge as [[[] j]|]; [by right|done|done].
Qed.

Lemma judge_change_Ok change judged :
  JudgeTokenScopeChange rc ctx tok change = Ok (true, judged) ->
  exists ld, judged = Some (ld_snapshot ld) /\
    changeWithinCeiling ceil ld change = true /\
    ld_stored ld = judged_scope (db s) tok /\
    ld_snapshot ld = scope_snapshot (db s) tok.
Proof using Htok.
  unfold JudgeTokenScopeChange.
  rewrite (actorCeiling_token rc s ctx eq_refl complete Htok). cbn [tc_session token_ceiling].
  intros ([ld|] & Hld & H)%rbind_Ok; [|done].
  change (tc_store (token_ceiling rc s ctx)) with s in Hld.
  apply loadStoredTokenScope_Ok in Hld as (E1 & E2 & _).
  destruct (changeWithinCeiling _ ld change) eqn:Hcov; [|done].
  injection H as <-. by exists ld.
Qed.

Lemma set_scope_delegates change :
  delegates lk (db s) ctx (db w) (fst (handleSetTokenScope rc w ctx s tok change)).
Proof using Htok Hl Hlw Hids Hreg Hnd.
  assert (delegates lk (db s) ctx (db w) (db w)) as Hrefl by by apply delegates_data.
  unfold handleSetTokenScope, requirePermission.
  destruct (HasAdminPermission rc ctx _); [|done].
  destruct (emptyScopeKind _ _ _) eqn:Hempty; [done|].
  destruct (is_ok _); [|done]. destruct (is_ok _); [|done]. cbn [negb].
  destruct (requireKnownMCPPrivileges s _); [done|].
  pose proof (requireTokenScopeChange_cases (JudgeTokenScopeChange rc ctx tok change)) as Hj.
  destruct (requireTokenScopeChange rc ctx _) as [judged|r]; [|done].
  cbn [respond fst].
  destruct (setTokenScope w tok change _ _ judged) as [t' [[]|e]] eqn:Hset; cbn [fst].
  2:{ apply delegates_data. by eapply setTokenScope_Err. }
  destruct Hj as [Hall|Hj].
  { apply holds_everything; [done..|]. apply setTokenScope_frame in Hset.
    by apply (frame_levels (db w) t' tok). }
  destruct (decide (scope_steps w tok change = [])) as [Hst|Hst].
  { unfold setTokenScope in Hset. rewrite Hst in Hset.
    destruct (rbind _ _); [|done]. by injection Hset as <-. }
  apply judge_change_Ok in Hj as (ld & -> & Hcov & E1 & E2).
  eapply judged_change; [done..| |done|done].
  rewrite <- E2. apply guardJudged_Ok. unfold setTokenScope in Hset.
  destruct (rbind _ _); [|done].
  destruct (scope_steps w tok change) as [|[act wr] rest]; [done|].
  by apply guarded_change_Ok in Hset as (_ & _ & Hg & _).
Qed.
End Handlers.

(** [delegates], as the checks answer. *)
Lemma delegates_checks lk s ctx t t' ctx' f :
  delegates_to lk (db s) ctx t t' ctx' ->
  (forall c, c <> ConnectionIDAll ->
     (rank_on (checker lk t' f) ctx' c <= rank_on (checker lk t working) ctx' c)%nat \/
     (rank_on (checker lk t' f) ctx' c <= rank_on (checker lk (db s) working) ctx c)%nat) /\
  (forall i, is_Some (find_identifier t i) ->
     CanAccessMCPItem (checker lk t' f) ctx' i = true ->
     CanAccessMCPItem (checker lk t working) ctx' i = true \/
     CanAccessMCPItem (checker lk (db s) working) ctx i = true) /\
  (forall p, HasAdminPermission (checker lk t' f) ctx' p = true ->
     HasAdminPermission (checker lk t working) ctx' p = true \/
     HasAdminPermission (checker lk (db s) working) ctx p = true).
Proof.
  intros (H1 & H2 & H3). split_and!.
  - intros c Hc. rewrite !rank_on_working.
    pose proof (CanAccessConnection_rank (checker lk t' f) _ ctx' eq_refl c) as Hr.
    unfold rank_on. destruct (H1 c Hc); [left|right]; by etrans.
  - intros i Hi Ha. rewrite !mcp_working. apply H2; [done|]. by eapply mcp_checked.
  - intros p Ha. rewrite !admin_working. apply H3. by eapply admin_checked.
Qed.

(** C9: Nobody gains from a scope change more than its author has.  A token
    changes the scope of a token through the API; the change is judged on
    one state of the store and written on a later one.  Afterwards every
    caller, through whichever token, reaches the connections, MCP items and
    admin permissions it reached just before the write, or that the acting
    token reached when the change was judged. *)
Theorem set_scope_within_ceiling lk s w ctx tok change ctx' f :
  0 < ctx_tokenID ctx ->
  levels_ok (db s) -> levels_ok (db w) -> ids_ok (db w) ->
  mcp_privilege_identifiers (db s) = mcp_privilege_identifiers (db w) ->
  NoDup (map ConnectionID (scope_connections (db w) tok)) ->
  let rc := Some {| authStore := Some s; connSharingLookupFn := lk |} in
  let before := checker lk (db w) working in
  let judged := checker lk (db s) working in
  let after := checker lk (fst (handleSetTokenScope rc w ctx s tok change)) f in
  (forall c, c <> ConnectionIDAll ->
     (rank_on after ctx' c <= rank_on before ctx' c)%nat \/
     (rank_on after ctx' c <= rank_on judged ctx c)%nat) /\
  (forall i, is_Some (find_identifier (db w) i) ->
     CanAccessMCPItem after ctx' i = true ->
     CanAccessMCPItem before ctx' i = true \/ CanAccessMCPItem judged ctx i = true) /\
  (forall p, HasAdminPermission after ctx' p = true ->
     HasAdminPermission before ctx' p = true \/ HasAdminPermission judged ctx p = true).
Proof. intros. by apply delegates_checks, set_scope_delegates. Qed.
