(* ===== verification/UserReach.v ===== *)
(** * Acting on a user's account
      (grant_scope.go: UserWithinTokenScope, JudgeTokenScopeClear)

    Whoever controls a user's account, or a token of it without a scope,
    reaches what the user reaches.  A token may take such control only of a
    user it covers; covering a user is shown to mean reaching everything the
    user reaches. *)
From stdpp Require Import base list strings gmap sets relations.
From S2P Require Import Prelude AuthStore Groups Grants Access TokenScope.
From S2P Require Import Reach Ceiling CeilingSound RbacHandlers ScopeDelegation.

Local Open Scope Z_scope.
Local Open Scope res_scope.

(** The reach a user has by the tables. *)
Definition user_reach (t : tables) (user : User) : principalReach :=
  {| asUser := true; reach_username := Username user;
     reach_superuser := IsSuperuserRow user;
     reach_conns := user_conns t (user_id user);
     reach_mcp := user_mcp t (user_id user);
     reach_admin := user_admin t (user_id user) |}.

(** A request of the user, in a session or through a token. *)
Definition acts_as (user : User) (ctx : Context) : Prop :=
  ctx_userID ctx = user_id user /\ ctx_username ctx = Username user /\
  ctx_isSuperuser ctx = IsSuperuserRow user.

(** The lister and the sharing lookup read the same connections. *)
Definition lists (lister : ReachLister) (fn : SharingLookup) : Prop :=
  exists all, GetAllConnections lister = Ok all /\
    forall c sh ow, fn c = Ok (sh, ow) <->
      {| info_ID := c; info_IsShared := sh; info_OwnerUsername := ow |} ∈ all.

Lemma loadUserReach_Ok s u p :
  loadUserReach s u = Some p ->
  exists user, find_user (db s) u = Some user /\ user_id user = u /\
    p = user_reach (db s) user.
Proof.
  unfold loadUserReach. intros H. destruct (rbind _ _) as [r|] eqn:E; [|done].
  subst r. apply rbind_Ok in E as (usr & ->%ask_Ok & E).
  destruct (find_user (db s) u) as [user|] eqn:Hf; [|done].
  assert (user_id user = u) as <-.
  { unfold find_user in Hf. apply find_some in Hf as [_ Hf]. lia. }
  apply rbind_Ok in E as (conns & Hc & E). apply rbind_Ok in E as (mcp & Hm & E).
  apply rbind_Ok in E as (admin & Ha & [= <-]). exists user. split_and!; [done..|].
  by rewrite (reads_Ok s _ _ _ (reads_conns s _) Hc),
    (reads_Ok s _ _ _ (reads_mcp s _) Hm), (reads_Ok s _ _ _ (reads_admin s _) Ha).
Qed.

Section Reach.
Context (fn : SharingLookup) (s : AuthStore) (ctx : Context) (lister : ReachLister).
Hypothesis (Htok : 0 < ctx_tokenID ctx) (Hl : levels_ok (db s)) (Hids : ids_ok (db s)).
Hypothesis (Hlist : lists lister fn).
Context (user : User) (ctx' : Context) (Hacts : acts_as user ctx').

Let rc := Some {| authStore := Some s; connSharingLookupFn := Some fn |}.
Let ceil := token_ceiling rc s ctx.
Let Hinc : tokenContextIncomplete ctx = false := complete ctx Htok.

Lemma covers_write id c :
  coversConnection ceil id AccessLevelReadWrite = true -> c <> ConnectionIDAll ->
  id = c \/ id = ConnectionIDAll -> is_ok (fn c) = true ->
  (2 <= conn_rank (db s) (Some fn) ctx c)%nat.
Proof using Hl Htok.
  intros Hcov Hc Hid Hlive.
  by apply (coversConnection_rank rc s ctx eq_refl Hinc Htok Hl id AccessLevelReadWrite c Hcov).
Qed.

(** A connection that is open to the user is one the token has. *)
Lemma open_covered c :
  unrestrictedReachCovered ceil (Username user) (Some lister) = true ->
  c <> ConnectionIDAll -> open_to (db s) (Some fn) ctx' c = true ->
  (2 <= conn_rank (db s) (Some fn) ctx c)%nat.
Proof using Hl Htok Hlist Hacts.
  destruct Hacts as (_ & Hname & _). destruct Hlist as (all & Hall & Hviews).
  unfold unrestrictedReachCovered, open_to. rewrite Hall. cbn [or_refuse].
  intros [_ Hcov]%andb_true_iff Hc. destruct (fn c) as [[sh ow]|] eqn:Hfn; [|done].
  cbn [fst snd]. rewrite forallb_forall in Hcov.
  apply Hviews in Hfn as Hin. rewrite list_elem_of_In in Hin.
  specialize (Hcov _ Hin). unfold unrestricted_covered, owns in *.
  cbn [info_OwnerUsername info_ID info_IsShared] in Hcov. rewrite Hname.
  assert (is_ok (fn c) = true) as Hlive by by rewrite Hfn.
  destruct (negb (String.eqb (Username user) "") && String.eqb ow (Username user)).
  { intros _. by apply (covers_write c); [|..|left|]. }
  cbn [orb]. intros [-> Hr]%andb_true_iff. cbn in Hcov.
  apply or_refuse_true in Hcov as (restricted & ->%ask_Ok & H).
  fold (restricted_by_group (db s) c) in H.
  destruct (restricted_by_group (db s) c); [done|].
  by apply (covers_write c); [|..|left|].
Qed.

Lemma user_conns_covered c :
  coversReachConnections ceil (user_reach (db s) user) (Some lister) = true ->
  c <> ConnectionIDAll ->
  (owner_rank (db s) (Some fn) ctx' c <= conn_rank (db s) (Some fn) ctx c)%nat.
Proof using Hl Htok Hlist Hacts.
  intros Hcov Hc. destruct (live_dec (Some fn) c) as [Hlive|Hd];
    [|rewrite owner_rank_dead by done; apply Nat.le_0_l].
  pose proof (owner_rank_le2 (db s) (Some fn) ctx' c) as H2.
  pose proof (fun c0 l => coversReachConnections_in rc s ctx eq_refl Hinc Htok Hl
    _ _ c0 l Hcov) as Hin.
  revert Hcov. unfold coversReachConnections.
  destruct (coversConnection ceil ConnectionIDAll _) eqn:Hall.
  { intros _. etrans; [exact H2|]. by apply (covers_write ConnectionIDAll); [|..|right|]. }
  cbn [reach_superuser user_reach asUser reach_username].
  destruct Hacts as (Hu & _ & Hsu).
  destruct (IsSuperuserRow user); [done|]. cbn [orb].
  destruct (negb _); [done|]. destruct (negb _); [done|]. cbn [negb]. intros Hcov.
  destruct (decide (owner_rank (db s) (Some fn) ctx' c = 0%nat)) as [->|Hpos];
    [apply Nat.le_0_l|].
  destruct (proj1 (owner_rank_ge (db s) (Some fn) ctx' c (owner_rank (db s) (Some fn) ctx' c)
    Hl Hlive ltac:(lia)) (le_n _))
    as [?|[Hop|(_ & c0 & l & Hc0 & Hg & Hle)]]; [congruence|..].
  - etrans; [exact H2|]. by apply open_covered.
  - rewrite Hu in Hg. destruct (user_conns_rank _ _ _ _ Hl Hg) as (l' & Hl' & Hle').
    etrans; [exact Hle|]. etrans; [exact Hle'|]. by apply (Hin c0 l').
Qed.

Lemma user_mcp_covered i :
  coversReachMCP ceil (user_reach (db s) user) = true ->
  (IsSuperuserRow user = true -> ctx_isSuperuser ctx = true) ->
  mcp_allowed (db s) ctx' i = true -> mcp_allowed (db s) ctx i = true.
Proof using Htok Hids Hacts.
  destruct Hacts as (Hu & _ & Hsu). intros Hcov Hsup Ha.
  pose proof (fun x => coversReachMCP_in rc s ctx eq_refl Hinc Htok _ x Hids Hcov) as Hin.
  destruct (find_identifier (db s) i) as [p|] eqn:Hf.
  2:{ destruct (IsSuperuserRow user) eqn:Hrow.
      - revert Hcov. unfold coversReachMCP.
        destruct (holdsAllMCP ceil) eqn:Hall; 
          [|unfold reachesEverything; cbn [reach_superuser user_reach]; by rewrite Hrow].
        intros _. apply (holdsAllMCP_allowed rc s ctx Hinc Htok i Hids Hall). auto.
      - unfold mcp_allowed in Ha. rewrite Hf, Hsu in Ha.
        by destruct (tokenContextIncomplete ctx'). }
  revert Hcov. unfold coversReachMCP. destruct (holdsAllMCP ceil) eqn:Hall.
  { intros _. apply (holdsAllMCP_allowed rc s ctx Hinc Htok i Hids Hall). right. eauto. }
  destruct (reachesEverything (user_reach (db s) user)) eqn:Hre; [done|].
  cbn [orb]. case_bool_decide as Hstar; [done|].
  destruct (negb (forallb _ _)); [done|]. cbn [asUser user_reach negb].
  intros (ids & ->%ask_Ok & Hpub)%or_refuse_true.
  unfold reachesEverything in Hre. apply orb_false_iff in Hre as [Hrow _].
  cbn [reach_superuser user_reach reach_mcp] in Hrow, Hstar, Hin.
  unfold mcp_allowed in Ha. rewrite Hf, Hsu, Hrow, Hu in Ha.
  destruct (tokenContextIncomplete ctx'); [done|].
  apply andb_true_iff in Ha as [Ha _]. apply orb_true_iff in Ha as [Ha|Ha].
  - rewrite forallb_forall in Hpub. unfold find_identifier in Hf.
    apply find_some in Hf as [Hinp E%String.eqb_eq]. specialize (Hpub p Hinp).
    rewrite Ha in Hpub. cbn [negb orb] in Hpub. rewrite E in Hpub.
    apply (coversMCP_allowed rc s ctx eq_refl Hinc Htok i i Hids Hpub); [by left|].
    destruct (find_identifier (db s) i) eqn:Hf'; [done|].
    unfold find_identifier in Hf'. apply (find_none _ _ Hf') in Hinp.
    by rewrite E, String.eqb_refl in Hinp.
  - apply andb_true_iff in Ha as [_ Ha]. rewrite orb_true_iff, !bool_decide_eq_true in Ha.
    destruct Ha as [Ha|Ha]; [|done]. apply (Hin i Ha); eauto.
Qed.

Lemma user_admin_covered p :
  coversReachAdmin ceil (user_reach (db s) user) = true ->
  admin_allowed (db s) ctx' p = true -> admin_allowed (db s) ctx p = true.
Proof using Htok Hacts.
  destruct Hacts as (Hu & _ & Hsu). intros Hcov Ha.
  pose proof (fun x => coversReachAdmin_in rc s ctx eq_refl Hinc Htok _ x Hcov) as Hin.
  revert Hcov. unfold coversReachAdmin. destruct (holdsAllAdmin ceil) eqn:Hall.
  { intros _. by apply (holdsAllAdmin_allowed rc s ctx Hinc Htok). }
  destruct (reachesEverything (user_reach (db s) user)) eqn:Hre; [done|]. intros _.
  unfold reachesEverything in Hre. apply orb_false_iff in Hre as [Hrow _].
  cbn [reach_superuser user_reach reach_admin] in Hrow, Hin.
  unfold admin_allowed in Ha. rewrite Hsu, Hrow, Hu in Ha.
  destruct (tokenContextIncomplete ctx'); [done|].
  apply andb_true_iff in Ha as [[_ Ha]%andb_true_iff _].
  rewrite orb_true_iff, !bool_decide_eq_true in Ha.
  destruct Ha as [Ha|Ha]; apply (Hin _ Ha); auto.
Qed.

End Reach.

(** A token approved to act on a user's account reaches everything the
    user does.  When [UserWithinTokenScope] approves, no request of that
    user, in a session or through any token, gets a connection at a higher
    level, an MCP item, an admin permission or superuser status the acting
    token does not have. *)
Theorem user_within_scope_sound fn s ctx lister user ctx' f :
  0 < ctx_tokenID ctx -> levels_ok (db s) -> ids_ok (db s) -> lists lister fn ->
  find_user (db s) (user_id user) = Some user -> acts_as user ctx' ->
  UserWithinTokenScope
    (Some {| authStore := Some s; connSharingLookupFn := Some fn |})
    ctx (user_id user) (Some lister) = true ->
  let users := checker (Some fn) (db s) f in
  let actors := checker (Some fn) (db s) working in
  (forall c, c <> ConnectionIDAll -> (rank_on users ctx' c <= rank_on actors ctx c)%nat) /\
  (forall i, CanAccessMCPItem users ctx' i = true ->
             CanAccessMCPItem actors ctx i = true) /\
  (forall p, HasAdminPermission users ctx' p = true ->
             HasAdminPermission actors ctx p = true) /\
  (IsSuperuser users ctx' = true -> IsSuperuser actors ctx = true).
Proof.
  intros Htok Hl Hids Hlist Huser Hacts. unfold UserWithinTokenScope.
  set (rc := Some _). pose proof (complete ctx Htok) as Hinc.
  rewrite (actorCeiling_token rc s ctx eq_refl Hinc Htok).
  cbn [tc_session tc_store token_ceiling].
  destruct (loadUserReach s (user_id user)) as [p|] eqn:Hp; [|done].
  apply loadUserReach_Ok in Hp as (user' & E & _ & ->). rewrite Huser in E.
  injection E as <-. unfold coversReach. cbn [reach_superuser user_reach].
  destruct (IsSuperuserRow user && negb (holdsSuperuser _)) eqn:Hsup; [done|].
  assert (IsSuperuserRow user = true -> superuser_allowed (db s) ctx = true) as Hsu.
  { intros E. rewrite E in Hsup. cbn [andb] in Hsup. apply negb_false_iff in Hsup.
    by apply (holdsSuperuser_allowed rc s ctx Hinc Htok). }
  assert (IsSuperuserRow user = true -> ctx_isSuperuser ctx = true) as Hsu'.
  { intros E. specialize (Hsu E). unfold superuser_allowed in Hsu.
    by destruct (ctx_isSuperuser ctx). }
  intros [[Hc Hm]%andb_true_iff Ha]%andb_true_iff.
  split_and!.
  - intros c Hne. rewrite rank_on_working.
    etrans; [apply (CanAccessConnection_rank (checker (Some fn) (db s) f) _ ctx' eq_refl)|].
    cbn [db lookup_of checker connSharingLookupFn]. rewrite conn_rank_min by done.
    etrans; [apply Nat.le_min_r|].
    by apply (user_conns_covered fn s ctx lister Htok Hl Hlist user).
  - intros i Hi%mcp_checked. rewrite mcp_working.
    by apply (user_mcp_covered fn s ctx Htok Hids user ctx').
  - intros q Hq%admin_checked. rewrite admin_working.
    by apply (user_admin_covered fn s ctx Htok user ctx').
  - intros H%superuser_checked. rewrite superuser_working. apply Hsu.
    destruct Hacts as (_ & _ & <-). unfold superuser_allowed in H.
    by destruct (ctx_isSuperuser ctx').
Qed.

(** ** Clearing a scope *)

(** The user's own requests do not depend on a token's scope. *)
Lemma session_mcp t t' tok ctx i :
  frame tok t t' -> mcp_allowed t' ctx i = true ->
  mcp_allowed t (as_session ctx) i = true.
Proof.
  intros Hfr. destruct (frame_grants t t' tok Hfr) as (_ & H2 & _).
  unfold mcp_allowed, find_identifier. rewrite H2, (fr_mcp_ids _ _ _ Hfr). simpl.
  destruct (tokenContextIncomplete ctx); [done|].
  destruct (ctx_isSuperuser ctx); [done|]. destruct (find _ _); [|done].
  by intros [-> _]%andb_true_iff.
Qed.

Lemma session_admin t t' tok ctx p :
  frame tok t t' -> admin_allowed t' ctx p = true ->
  admin_allowed t (as_session ctx) p = true.
Proof.
  intros Hfr. destruct (frame_grants t t' tok Hfr) as (_ & _ & H3 & _).
  unfold admin_allowed. rewrite H3. simpl.
  destruct (tokenContextIncomplete ctx); [done|].
  destruct (ctx_isSuperuser ctx); [done|]. by intros [-> _]%andb_true_iff.
Qed.

Section Clear.
Context (fn : SharingLookup) (s w : AuthStore) (ctx : Context) (lister : ReachLister).
Context (tok : Z) (owner : User) (ctx' : Context).
Hypothesis (Htok : 0 < ctx_tokenID ctx) (Hl : levels_ok (db s)) (Hids : ids_ok (db s)).
Hypothesis (Hlist : lists lister fn) (Hsame : db w = db s).
Hypothesis (Hown : token_owner (db s) tok = Some (user_id owner)).
Hypothesis (Huser : find_user (db s) (user_id owner) = Some owner).
Hypothesis (Hacts : ctx_tokenID ctx' = tok -> acts_as owner ctx').

Let rc := Some {| authStore := Some s; connSharingLookupFn := Some fn |}.
Let ceil := token_ceiling rc s ctx.
Let st := judged_scope (db s) tok.

Lemma judge_clear_Ok judged :
  JudgeTokenScopeClear rc ctx tok (Some lister) = Ok (true, judged) ->
  clearWithinCeiling ceil st (user_reach (db s) owner) (Some lister) = true.
Proof using Htok Hown Huser.
  unfold JudgeTokenScopeClear.
  rewrite (actorCeiling_token rc s ctx eq_refl (complete ctx Htok) Htok).
  cbn [tc_session token_ceiling tc_store].
  intros ([ld|] & Hld & H)%rbind_Ok; [|done].
  apply loadStoredTokenScope_Ok in Hld as (E1 & _ & E3). rewrite Hown in E3.
  injection E3 as E3. rewrite <- E3, E1 in H.
  destruct (loadUserReach s (user_id owner)) as [p|] eqn:Hp; [|done].
  apply loadUserReach_Ok in Hp as (user' & E & _ & ->). rewrite Huser in E.
  injection E as <-. by destruct (clearWithinCeiling _ _ _ _).
Qed.

(** What an approved clear was checked for. *)
Lemma clear_approved :
  clearWithinCeiling ceil st (user_reach (db s) owner) (Some lister) = true ->
  (st_connsRestricted st = true ->
   coversReachConnections ceil (user_reach (db s) owner) (Some lister) = true) /\
  (restricted_kind (st_mcp st) = true ->
   coversReachMCP ceil (user_reach (db s) owner) = true /\
   (IsSuperuserRow owner = true -> ctx_isSuperuser ctx = true)) /\
  (restricted_kind (st_admin st) = true ->
   coversReachAdmin ceil (user_reach (db s) owner) = true).
Proof using.
  unfold clearWithinCeiling. cbn [reach_superuser user_reach].
  assert (holdsSuperuser ceil = true -> ctx_isSuperuser ctx = true) as Hh.
  { unfold holdsSuperuser. cbn. by intros [? _]%andb_true_iff. }
  destruct (st_connsRestricted st), (restricted_kind (st_mcp st)),
    (restricted_kind (st_admin st)), (IsSuperuserRow owner), (holdsSuperuser ceil),
    (connectionsChangeCovered ceil st []),
    (coversReachConnections ceil (user_reach (db s) owner) (Some lister)),
    (coversReachMCP ceil (user_reach (db s) owner)),
    (coversReachAdmin ceil (user_reach (db s) owner)); cbn; intuition.
Qed.

(** What the token's owner reaches without a scope, kind by kind. *)
Lemma cleared_delegates t' :
  clearWithinCeiling ceil st (user_reach (db s) owner) (Some lister) = true ->
  frame tok (db s) t' -> scope_connections t' tok = [] -> scope_mcp t' tok = [] ->
  scope_admin t' tok = [] -> ctx_tokenID ctx' = tok ->
  delegates_to (Some fn) (db s) ctx (db s) t' ctx'.
Proof using Htok Hl Hids Hlist Hacts.
  intros (K1 & K2 & K3)%clear_approved Hfr Hc Hm Ha Htk. specialize (Hacts Htk).
  assert (acts_as owner (as_session ctx')) as Hsess by exact Hacts.
  split_and!.
  - intros c Hne. destruct (st_connsRestricted st) eqn:R1.
    + right. rewrite conn_rank_min by by apply (frame_levels (db s) t' tok).
      rewrite (frame_owner_rank (db s) t' tok Hfr). etrans; [apply Nat.le_min_r|].
      apply (user_conns_covered fn s ctx lister Htok Hl Hlist owner); auto.
    + apply (rescoped_conn (db s) t' tok Hfr); [done|]. intros _. left.
      unfold st in R1. cbn in R1. apply negb_false_iff, bool_decide_eq_true in R1.
      apply conns_map_empty in R1. unfold scope_cap, conn_scope. by rewrite Hc, R1.
  - intros i Hi. destruct (restricted_kind (st_mcp st)) eqn:R2.
    + destruct K2 as [Hcov Hsup]; [done|]. intros Hal. right.
      apply (user_mcp_covered fn s ctx Htok Hids owner (as_session ctx')); try done.
      by apply (session_mcp (db s) t' tok).
    + apply (rescoped_mcp (db s) t' tok Hfr); [|done]. intros _ _ _. left.
      pose proof (judged_mcp s tok Hids i) as Hj. unfold st in R2.
      by destruct (st_mcp _).
  - intros p. destruct (restricted_kind (st_admin st)) eqn:R3.
    + intros Hal. right.
      apply (user_admin_covered fn s ctx Htok owner (as_session ctx')); auto.
      by apply (session_admin (db s) t' tok).
    + apply (rescoped_admin (db s) t' tok Hfr). intros _ _. left.
      apply admin_in_scope_spec. unfold st in R3. cbn in R3.
      pose proof (namedScope_spec (scope_admin (db s) tok) AdminPermissionWildcard) as Hn.
      destruct (namedScope _ _); [done|tauto].
Qed.
End Clear.

(** Clearing a scope gives away nothing.  When a token clears the scope
    of a token through the API, every request afterwards reaches what it
    reached before or what the acting token reaches; a request through the
    cleared token carries its owner, as authentication sets it. *)
Theorem clear_scope_within_ceiling fn s w ctx lister tok owner ctx' f :
  0 < ctx_tokenID ctx -> levels_ok (db s) -> ids_ok (db s) ->
  lists lister fn -> db w = db s ->
  token_owner (db s) tok = Some (user_id owner) ->
  find_user (db s) (user_id owner) = Some owner ->
  (ctx_tokenID ctx' = tok -> acts_as owner ctx') ->
  let lk := Some fn in
  let rc := Some {| authStore := Some s; connSharingLookupFn := lk |} in
  let before := checker lk (db s) working in
  let after := checker lk (fst (handleClearTokenScope rc w ctx tok (Some lister))) f in
  (forall c, c <> ConnectionIDAll ->
     (rank_on after ctx' c <= rank_on before ctx' c)%nat \/
     (rank_on after ctx' c <= rank_on before ctx c)%nat) /\
  (forall i, is_Some (find_identifier (db s) i) ->
     CanAccessMCPItem after ctx' i = true ->
     CanAccessMCPItem before ctx' i = true \/ CanAccessMCPItem before ctx i = true) /\
  (forall p, HasAdminPermission after ctx' p = true ->
     HasAdminPermission before ctx' p = true \/ HasAdminPermission before ctx p = true).
Proof.
  intros Htok Hl Hids Hlist Hsame Hown Huser Hacts lk rc.
  apply delegates_checks.
  assert (forall t, same_data t (db s) -> delegates lk (db s) ctx (db s) t) as Hdata
    by (intros t; apply delegates_data).
  unfold handleClearTokenScope, requirePermission. rewrite Hsame.
  destruct (HasAdminPermission rc ctx _); [|by apply Hdata].
  pose proof (requireTokenScopeChange_cases lk s ctx
    (JudgeTokenScopeClear rc ctx tok (Some lister))) as Hj. fold rc in Hj.
  destruct (requireTokenScopeChange rc ctx _) as [judged|r]; [|by apply Hdata].
  cbn [respond fst].
  destruct (clearTokenScope w tok _ _ judged) as [t' [[]|e]] eqn:Hset; cbn [fst].
  2:{ apply Hdata. rewrite <- Hsame. by eapply guarded_change_Err. }
  apply clearTokenScope_Ok in Hset as (Hfr & Hc & Hm & Ha). rewrite Hsame in Hfr.
  destruct Hj as [Hall|Hj].
  { apply (holds_everything lk s s ctx Htok Hl Hids eq_refl); try done.
    by apply (frame_levels (db s) t' tok). }
  destruct (decide (ctx_tokenID ctx' = tok)) as [Htk|Hne].
  - apply (cleared_delegates fn s ctx lister tok owner); try done.
    by apply (judge_clear_Ok fn s ctx lister tok owner Htok Hown Huser judged).
  - by apply (delegates_elsewhere lk (db s) ctx (db s) t' tok).
Qed.
