(* ===== verification/QueryHandler.v ===== *)
(** * The query endpoint
      (server/src/internal/api/query_handlers.go: executeQuery and the
      functions that run statements; server/src/internal/database:
      ValidateDatabaseName)

    The handler ties the access checks to the read-only gate.  The monitored
    PostgreSQL server is not part of the program: the class [Server] answers
    every request sent to it as a function of everything sent before, and
    the theorems hold for every server. *)
From stdpp Require Import base list strings.
From Stdlib Require Import Ascii.
From S2P Require Import Prelude GoStrings SqlLexer SqlSplit QueryGate.
From S2P Require Import AuthStore Access.

Local Open Scope nat_scope.

(** ** What the handler sends *)

Inductive event :=
| EvLookup                      (** GetConnectionWithPassword *)
| EvOpen                        (** openQueryPool *)
| EvAcquire
| EvBegin
| EvSetReadOnly
| EvQuery (sql : bytes)         (** a statement read through pgx *)
| EvExec (sql : bytes)          (** a write through pgx *)
| EvSimple (sql : bytes)        (** a statement over the simple protocol *)
| EvCommit
| EvRollback.

(** [fails h]: the last request of the history [h] returned an error.
    [rows h]: the rows it returned.  [encoding_utf8 h] and [tx_idle h]: the
    client_encoding and the transaction status reported after it. *)
Class Server := {
  fails : list event -> bool;
  rows : list event -> list (list bytes);
  encoding_utf8 : list event -> bool;
  tx_idle : list event -> bool;
}.

(** [statementResult]; the error text is reduced to whether there is one. *)
Record statementResult := {
  res_Rows : list (list bytes);
  res_RowCount : nat;
  res_Truncated : bool;
  res_Query : bytes;
  res_Error : bool;
}.

Definition error_result (q : bytes) : statementResult :=
  {| res_Rows := []; res_RowCount := 0; res_Truncated := false;
     res_Query := q; res_Error := true |}.

Definition defaultRowLimit : nat := 500.

(** The decimal digits fmt.Sprintf("%d") prints. *)
Fixpoint digits (fuel n : nat) : bytes :=
  match fuel with
  | O => []
  | S fuel =>
      (if n <? 10 then [] else digits fuel (n / 10)) ++
      [ascii_of_nat (48 + n mod 10)]
  end.
Definition decimal (n : nat) : bytes := digits (S n) n.

Section Handler.
Context `{UnicodeCase} `{Server}.

(** The text [runStatement] sends for a statement. *)
Definition injects_limit (stmt : bytes) : bool :=
  let upperBody := ToUpper (StripLeadingComments stmt) in
  (HasPrefix upperBody (lit "SELECT") || HasPrefix upperBody (lit "WITH")) &&
  negb (hasLimitClause stmt).

Definition limited_text (stmt : bytes) (limit : nat) : bytes :=
  if injects_limit stmt then stmt ++ lit " LIMIT " ++ decimal (limit + 1)
  else stmt.

Definition runStatement (h : list event) (stmt : bytes) (limit : nat)
    : list event * statementResult :=
  let h := h ++ [EvQuery (limited_text stmt limit)] in
  if fails h then (h, error_result stmt)
  else
    let resultRows := rows h in
    let truncated := injects_limit stmt && (limit <? length resultRows) in
    let kept := if truncated then take limit resultRows else resultRows in
    (h, {| res_Rows := kept; res_RowCount := length kept;
           res_Truncated := truncated; res_Query := stmt;
           res_Error := false |}).

(** [runSimpleStatement]: rows past the limit are read and dropped. *)
Definition runSimpleStatement (h : list event) (stmt : bytes) (limit : nat)
    : list event * statementResult :=
  let h := h ++ [EvSimple stmt] in
  if fails h then (h, error_result stmt)
  else
    let kept := take limit (rows h) in
    (h, {| res_Rows := kept; res_RowCount := length kept;
           res_Truncated := limit <? length (rows h); res_Query := stmt;
           res_Error := false |}).

Definition requireUTF8 (out : list event * statementResult)
    : list event * statementResult :=
  let '(h, result) := out in
  if res_Error result || encoding_utf8 h then out
  else (h, error_result (res_Query result)).

Definition endOpenTransaction (h : list event) (results : list statementResult)
    : list event * list statementResult :=
  if tx_idle h then (h, results)
  else (h ++ [EvRollback], results ++ [error_result (lit "ROLLBACK")]).

(** The loop over the statements: it stops at the first error.  The last
    component says whether it did. *)
Fixpoint run_all (run : list event -> bytes -> list event * statementResult)
    (h : list event) (statements : list bytes)
    : list event * list statementResult * bool :=
  match statements with
  | [] => (h, [], false)
  | stmt :: rest =>
      let '(h, result) := run h stmt in
      if res_Error result then (h, [result], true)
      else let '(h, results, failed) := run_all run h rest in
           (h, result :: results, failed)
  end.

(** [runSimpleStatementsWith], with [exec] the simple-protocol control
    statements and [run] the runner below. *)
Definition runSimpleStatements (h : list event) (statements : list bytes)
    (limit : nat) (readOnly : bool) : list event * list statementResult :=
  let run h stmt := requireUTF8 (runSimpleStatement h stmt limit) in
  if readOnly then
    let h := h ++ [EvBegin] in
    if fails h then (h, [error_result (lit "BEGIN")])
    else
      let h := h ++ [EvSetReadOnly] in
      if fails h then
        (h ++ [EvRollback], [error_result (lit "SET TRANSACTION READ ONLY")])
      else
        let '(h, results, failed) := run_all run h statements in
        if failed then (h ++ [EvRollback], results)
        else
          let h := h ++ [EvCommit] in
          if fails h then
            (h ++ [EvRollback], results ++ [error_result (lit "COMMIT")])
          else (h, results)
  else
    let '(h, results, _) := run_all run h statements in (h, results).

(** ** The request *)

Record queryRequest := {
  Query : bytes; DatabaseName : bytes; Confirmed : bool;
}.

(** [unicode.IsControl] on the UTF-8 bytes: U+0000-U+001F, U+007F and
    U+0080-U+009F, the last encoded as C2 followed by 80-9F. *)
Fixpoint has_control (name : bytes) : bool :=
  match name with
  | [] => false
  | c :: rest =>
      in_range 0 31 c || in_range 127 127 c ||
      match rest with
      | d :: _ => in_range 194 194 c && in_range 128 159 d
      | [] => false
      end || has_control rest
  end.

Definition maxDatabaseNameLen : nat := 63.

Definition ValidateDatabaseName (name : bytes) : bool :=
  negb (bytes_eqb (TrimSpace name) []) &&
  (length name <=? maxDatabaseNameLen) && negb (has_control name).

Inductive response :=
| MethodNotAllowed
| AccessDenied
| BadRequestBody
| QueryRequired
| InvalidDatabaseName
| RequiresConfirmation (writeStatements : list bytes)
| WriteDenied
| ConnectionNotFound
| InternalError
| Results (results : list statementResult) (totalStatements : nat).

(** The read-only path through pgx. *)
Definition run_read_only (h : list event) (statements : list bytes)
    : response * list event :=
  let h := h ++ [EvBegin] in
  if fails h then (InternalError, h)
  else
    let h := h ++ [EvSetReadOnly] in
    if fails h then (InternalError, h ++ [EvRollback])
    else
      let '(h, results, failed) :=
        run_all (fun h stmt => requireUTF8 (runStatement h stmt defaultRowLimit))
                h statements in
      if failed then (Results results (length statements), h ++ [EvRollback])
      else
        let h := h ++ [EvCommit] in
        if fails h then (InternalError, h ++ [EvRollback])
        else (Results results (length statements), h).

(** One statement of the write path. *)
Definition run_write (h : list event) (stmt : bytes)
    : list event * statementResult :=
  requireUTF8
    (if isReadOnlyStatement stmt then runStatement h stmt defaultRowLimit
     else
       let h := h ++ [EvExec stmt] in
       if fails h then (h, error_result stmt)
       else (h, {| res_Rows := [[lit "Statement executed successfully"]];
                   res_RowCount := 1; res_Truncated := false;
                   res_Query := stmt; res_Error := false |})).

(** [executeQuery], from the method check on; [None] for the request is a
    body that could not be decoded. *)
Definition executeQuery (rc : option RBACChecker) (ctx : Context)
    (isPost : bool) (connectionID : Z) (request : option queryRequest)
    : response * list event :=
  if negb isPost then (MethodNotAllowed, [])
  else if negb (fst (CanAccessConnection rc ctx connectionID)) then
    (AccessDenied, [])
  else
    match request with
    | None => (BadRequestBody, [])
    | Some req =>
        let query := TrimSpace (Query req) in
        if bytes_eqb query [] then (QueryRequired, [])
        else if negb (bytes_eqb (DatabaseName req) []) &&
                negb (ValidateDatabaseName (DatabaseName req))
        then (InvalidDatabaseName, [])
        else
          let statements := splitStatements query in
          let writeStatements :=
            filter (fun stmt => isReadOnlyStatement stmt = false) statements in
          let allReadOnly := forallb isReadOnlyStatement statements in
          match statements with
          | [] => (QueryRequired, [])
          | _ =>
              if negb allReadOnly && negb (Confirmed req) then
                (RequiresConfirmation writeStatements, [])
              else if negb allReadOnly &&
                      negb (HasWriteAccess rc ctx connectionID) then
                (WriteDenied, [])
              else if fails [EvLookup] then (ConnectionNotFound, [EvLookup])
              else
                let h := [EvLookup; EvOpen] in
                if fails h then (InternalError, h)
                else if needsSimpleProtocol statements then
                  let h := h ++ [EvAcquire] in
                  if fails h then (InternalError, h)
                  else
                    let '(h, results) := runSimpleStatements h statements
                                           defaultRowLimit allReadOnly in
                    let '(h, results) :=
                      if allReadOnly then (h, results)
                      else endOpenTransaction h results in
                    (Results results (length statements), h)
                else if allReadOnly then run_read_only h statements
                else
                  let h := h ++ [EvAcquire] in
                  if fails h then (InternalError, h)
                  else
                    let '(h, results, _) := run_all run_write h statements in
                    let '(h, results) := endOpenTransaction h results in
                    (Results results (length statements), h)
          end
    end.
End Handler.

(** ** Traces *)

Section Traces.
Context `{UnicodeCase} `{Server}.

(** The events that make the server run a statement, and its text. *)
Definition statement_event (e : event) : option bytes :=
  match e with
  | EvQuery sql | EvExec sql | EvSimple sql => Some sql
  | _ => None
  end.

(** A runner sends one request for the statement it is given and reports
    under that statement. *)
Definition runner (Q : bytes -> event -> Prop)
    (run : list event -> bytes -> list event * statementResult) : Prop :=
  forall h p, exists e r, run h p = (h ++ [e], r) /\ Q p e /\ res_Query r = p.

Lemma requireUTF8_runner Q run :
  runner Q run -> runner Q (fun h p => requireUTF8 (run h p)).
Proof.
  intros Hrun h p. destruct (Hrun h p) as (e & r & -> & He & Hr).
  unfold requireUTF8. destruct (_ || _); [by exists e, r|].
  exists e, (error_result (res_Query r)). by rewrite Hr.
Qed.

Lemma runStatement_runner limit :
  runner (fun p e => e = EvQuery (limited_text p limit))
         (fun h p => runStatement h p limit).
Proof.
  intros h p. unfold runStatement. destruct (fails _); eexists _, _; done.
Qed.

Lemma runSimpleStatement_runner limit :
  runner (fun p e => e = EvSimple p) (fun h p => runSimpleStatement h p limit).
Proof.
  intros h p. unfold runSimpleStatement. destruct (fails _); eexists _, _; done.
Qed.

(** The write path: a statement the gate passes is read, another is executed
    as it stands. *)
Definition write_event (p : bytes) (e : event) : Prop :=
  if isReadOnlyStatement p then e = EvQuery (limited_text p defaultRowLimit)
  else e = EvExec p.

Lemma run_write_runner : runner write_event run_write.
Proof.
  unfold run_write. apply (requireUTF8_runner _ (fun h stmt =>
    if isReadOnlyStatement stmt then runStatement h stmt defaultRowLimit
    else
      let h := h ++ [EvExec stmt] in
      if fails h then (h, error_result stmt)
      else (h, {| res_Rows := [[lit "Statement executed successfully"]];
                  res_RowCount := 1; res_Truncated := false;
                  res_Query := stmt; res_Error := false |}))).
  intros h p. unfold write_event. destruct (isReadOnlyStatement p).
  - apply runStatement_runner.
  - simpl. destruct (fails _); eexists _, _; done.
Qed.

(** What the loop leaves: one request and one result per statement tried, in
    order, and only the last result can be an error. *)
Lemma run_all_spec Q run h stmts h' results failed :
  runner Q run -> run_all run h stmts = (h', results, failed) ->
  exists evs, h' = h ++ evs /\
    Forall2 Q (take (length results) stmts) evs /\
    map res_Query results = take (length results) stmts /\
    (if failed
     then exists good bad, results = good ++ [bad] /\ res_Error bad = true /\
          Forall (fun r => res_Error r = false) good
     else length results = length stmts /\
          Forall (fun r => res_Error r = false) results).
Proof.
  intros Hrun. revert h h' results failed.
  induction stmts as [|p stmts IH]; intros h h' results failed; simpl.
  { intros [= <- <- <-]. exists []. rewrite app_nil_r. done. }
  destruct (Hrun h p) as (e & r & -> & He & Hq).
  destruct (res_Error r) eqn:Hr.
  { intros [= <- <- <-]. exists [e]. simpl. rewrite Hq. split_and!; try done.
    - repeat constructor. done.
    - exists [], r. done. }
  destruct (run_all run (h ++ [e]) stmts) as [[h1 rs] f] eqn:E.
  intros [= <- <- <-]. apply IH in E as (evs & -> & H2 & Hm & Hres).
  exists (e :: evs). simpl. rewrite Hq, Hm, <- app_assoc. split_and!; try done.
  - by constructor.
  - destruct f.
    + destruct Hres as (good & bad & -> & Hb & Hg). exists (r :: good), bad.
      split_and!; [done|done|by constructor].
    + destruct Hres as [-> ?]. split; [done|by constructor].
Qed.

Lemma Forall2_events (Q : bytes -> event -> Prop) ps evs stmts n e :
  Forall2 Q ps evs -> ps = take n stmts -> e ∈ evs -> exists p, p ∈ stmts /\ Q p e.
Proof.
  intros H2 -> He. apply list_elem_of_lookup in He as [i Hi].
  destruct (Forall2_lookup_r _ _ _ _ _ H2 Hi) as (p & Hp & HQ).
  exists p. split; [|done]. apply lookup_take_Some in Hp as [Hp _].
  by eapply list_elem_of_lookup_2.
Qed.

(** The events of a run: they are all statement events of its statements. *)
Lemma run_all_events Q run h stmts h' results failed :
  runner Q run -> run_all run h stmts = (h', results, failed) ->
  exists evs, h' = h ++ evs /\ forall e, e ∈ evs -> exists p, p ∈ stmts /\ Q p e.
Proof.
  intros Hrun E. destruct (run_all_spec Q run h stmts h' results failed Hrun E)
    as (evs & -> & H2 & _). exists evs. split; [done|]. intros e He.
  by eapply Forall2_events.
Qed.

(** [read_only_tx h]: every statement of the history runs inside a transaction
    that was set read-only and has not ended. *)
Definition read_only_tx (h : list event) : Prop :=
  forall pre e post sql, h = pre ++ e :: post -> statement_event e = Some sql ->
  exists a b, pre = a ++ EvBegin :: EvSetReadOnly :: b /\
    (EvCommit ∉ b) /\ (EvRollback ∉ b).

Definition no_statement (h : list event) : Prop :=
  forall e, e ∈ h -> statement_event e = None.

Lemma take_sub k (l : list event) e : e ∈ take k l -> e ∈ l.
Proof. intros He. rewrite <- (take_drop k l), elem_of_app. by left. Qed.

Lemma read_only_shape h0 evs tail_ :
  no_statement h0 -> no_statement tail_ ->
  (forall e, e ∈ evs -> exists sql, statement_event e = Some sql) ->
  read_only_tx (h0 ++ EvBegin :: EvSetReadOnly :: evs ++ tail_).
Proof.
  intros Hh0 Ht Hev pre e post sql Heq He.
  set (h := h0 ++ EvBegin :: EvSetReadOnly :: evs ++ tail_) in *.
  assert (h !! length pre = Some e) as Hi.
  { by rewrite Heq, lookup_app_r, Nat.sub_diag by lia. }
  assert (pre = take (length pre) h) as Hpre by (by rewrite Heq, take_app_length).
  assert (length h0 + 2 <= length pre) as Hlo.
  { destruct (decide (length h0 + 2 <= length pre)); [done|]. exfalso.
    unfold h in Hi. destruct (decide (length pre < length h0)).
    - rewrite lookup_app_l in Hi by lia. apply list_elem_of_lookup_2 in Hi.
      by rewrite (Hh0 e Hi) in He.
    - rewrite lookup_app_r in Hi by lia.
      destruct (length pre - length h0) as [|[|k]] eqn:Ek; [..|lia];
        simpl in Hi; injection Hi as <-; done. }
  assert (length pre < length h0 + 2 + length evs) as Hhi.
  { destruct (decide (length pre < length h0 + 2 + length evs)); [done|]. exfalso.
    unfold h in Hi. rewrite lookup_app_r in Hi by lia.
    destruct (length pre - length h0) as [|[|k]] eqn:Ek; [lia|lia|].
    simpl in Hi. rewrite lookup_app_r in Hi by lia.
    apply list_elem_of_lookup_2 in Hi. by rewrite (Ht e Hi) in He. }
  set (k := length pre - length h0 - 2).
  exists h0, (take k evs). split_and!.
  - rewrite Hpre at 1. unfold h. rewrite take_app_ge by lia.
    replace (length pre - length h0) with (S (S k)) by lia. simpl.
    by rewrite take_app_le by lia.
  - intros Hin. by destruct (Hev EvCommit (take_sub k evs _ Hin)).
  - intros Hin. by destruct (Hev EvRollback (take_sub k evs _ Hin)).
Qed.

Lemma no_statement_tx h : no_statement h -> read_only_tx h.
Proof.
  intros Hn pre e post sql -> He. rewrite (Hn e) in He; [done|].
  rewrite elem_of_app, elem_of_cons. auto.
Qed.

(** Histories that hold no statement, settled by evaluation. *)
Lemma no_statement_list h :
  forallb (fun e => match statement_event e with None => true | _ => false end) h
    = true -> no_statement h.
Proof.
  rewrite forallb_forall. intros Hf e He. apply list_elem_of_In, Hf in He.
  by destruct (statement_event e).
Qed.

Lemma run_read_only_tx h stmts :
  no_statement h -> read_only_tx (snd (run_read_only h stmts)).
Proof.
  intros Hn. unfold run_read_only.
  assert (forall l, forallb (fun e => match statement_event e with
    | None => true | _ => false end) l = true -> no_statement (h ++ l)) as Happ.
  { intros l Hl e [He|He]%elem_of_app; [by apply Hn|].
    by apply (no_statement_list l). }
  destruct (fails (h ++ [EvBegin])); [by apply no_statement_tx, Happ|].
  destruct (fails _); [rewrite <- !app_assoc; by apply no_statement_tx, Happ|].
  destruct (run_all _ _ stmts) as [[h1 results] failed] eqn:E.
  eapply run_all_events in E as (evs & -> & Hev);
    [|apply requireUTF8_runner, runStatement_runner].
  assert (forall l, no_statement l ->
    read_only_tx ((((h ++ [EvBegin]) ++ [EvSetReadOnly]) ++ evs) ++ l)) as Hshape.
  { intros l Hl. rewrite <- !app_assoc. simpl. apply read_only_shape; try done.
    intros e He. destruct (Hev e He) as (p & _ & ->). by eexists. }
  destruct failed; simpl; [by apply Hshape, no_statement_list|].
  destruct (fails _); simpl; [rewrite <- app_assoc|]; by apply Hshape, no_statement_list.
Qed.

Lemma runSimpleStatements_tx h stmts limit :
  no_statement h -> read_only_tx (fst (runSimpleStatements h stmts limit true)).
Proof.
  intros Hn. unfold runSimpleStatements.
  assert (forall l, forallb (fun e => match statement_event e with
    | None => true | _ => false end) l = true -> no_statement (h ++ l)) as Happ.
  { intros l Hl e [He|He]%elem_of_app; [by apply Hn|].
    by apply (no_statement_list l). }
  destruct (fails (h ++ [EvBegin])); [by apply no_statement_tx, Happ|].
  destruct (fails _); [rewrite <- !app_assoc; by apply no_statement_tx, Happ|].
  destruct (run_all _ _ stmts) as [[h1 results] failed] eqn:E.
  eapply run_all_events in E as (evs & -> & Hev);
    [|apply requireUTF8_runner, runSimpleStatement_runner].
  assert (forall l, no_statement l ->
    read_only_tx ((((h ++ [EvBegin]) ++ [EvSetReadOnly]) ++ evs) ++ l)) as Hshape.
  { intros l Hl. rewrite <- !app_assoc. simpl. apply read_only_shape; try done.
    intros e He. destruct (Hev e He) as (p & _ & ->). by eexists. }
  destruct failed; simpl; [by apply Hshape, no_statement_list|].
  destruct (fails _); simpl; [rewrite <- app_assoc|]; by apply Hshape, no_statement_list.
Qed.

(** ** The whole handler *)

(** What each way of running the statements can send. *)
Definition sends (stmts : list bytes) (h : list event) : Prop :=
  forall e sql, e ∈ h -> statement_event e = Some sql ->
  exists p, p ∈ stmts /\ (sql = p \/ sql = limited_text p defaultRowLimit).

Lemma sends_app stmts h evs :
  no_statement h ->
  (forall e, e ∈ evs -> statement_event e = None \/
     exists p, p ∈ stmts /\ (statement_event e = Some p \/
       statement_event e = Some (limited_text p defaultRowLimit))) ->
  sends stmts (h ++ evs).
Proof.
  intros Hn Hev e sql [He|He]%elem_of_app Hs; [by rewrite Hn in Hs|].
  destruct (Hev e He) as [Hx|(p & Hp & [Hx|Hx])]; rewrite Hx in Hs; [done|..];
    injection Hs as <-; eauto.
Qed.

Lemma sends_snoc stmts h e :
  sends stmts h -> statement_event e = None -> sends stmts (h ++ [e]).
Proof.
  intros Hs He e' sql [Hin|Hin]%elem_of_app; [by apply Hs|].
  apply list_elem_of_singleton in Hin as ->. congruence.
Qed.

Lemma no_statement_sends stmts h : no_statement h -> sends stmts h.
Proof. intros Hn e sql He Hs. by rewrite Hn in Hs. Qed.

Lemma run_read_only_sends h stmts :
  no_statement h -> sends stmts (snd (run_read_only h stmts)).
Proof.
  intros Hn. unfold run_read_only.
  assert (no_statement (h ++ [EvBegin])) as Hn1.
  { intros e [?| ->%list_elem_of_singleton]%elem_of_app; [by apply Hn|done]. }
  assert (no_statement ((h ++ [EvBegin]) ++ [EvSetReadOnly])) as Hn2.
  { intros e [?| ->%list_elem_of_singleton]%elem_of_app; [by apply Hn1|done]. }
  destruct (fails (h ++ [EvBegin])); [by apply no_statement_sends|].
  destruct (fails _); [by apply sends_snoc; [apply no_statement_sends|]|].
  destruct (run_all _ _ stmts) as [[h1 results] failed] eqn:E.
  eapply run_all_events in E as (evs & -> & Hev);
    [|apply requireUTF8_runner, runStatement_runner].
  assert (sends stmts (((h ++ [EvBegin]) ++ [EvSetReadOnly]) ++ evs)) as Hs.
  { apply sends_app; [done|]. intros e He. right.
    destruct (Hev e He) as (p & Hp & ->). eauto. }
  destruct failed; simpl; [by apply sends_snoc|].
  destruct (fails _); simpl; repeat (apply sends_snoc; [|done]); done.
Qed.

Lemma runSimpleStatements_sends h stmts limit ro :
  no_statement h -> sends stmts (fst (runSimpleStatements h stmts limit ro)).
Proof.
  intros Hn. unfold runSimpleStatements.
  assert (forall h0 h1 results failed, no_statement h0 ->
    run_all (fun h stmt => requireUTF8 (runSimpleStatement h stmt limit)) h0 stmts
      = (h1, results, failed) -> sends stmts h1) as Hrun.
  { intros h0 h1 results failed Hn0 E.
    eapply run_all_events in E as (evs & -> & Hev);
      [|apply requireUTF8_runner, runSimpleStatement_runner].
    apply sends_app; [done|]. intros e He. right.
    destruct (Hev e He) as (p & Hp & ->). eauto. }
  destruct ro; [|destruct (run_all _ h stmts) as [[h1 results] failed] eqn:E;
    by apply Hrun in E].
  assert (no_statement (h ++ [EvBegin])) as Hn1.
  { intros e [?| ->%list_elem_of_singleton]%elem_of_app; [by apply Hn|done]. }
  assert (no_statement ((h ++ [EvBegin]) ++ [EvSetReadOnly])) as Hn2.
  { intros e [?| ->%list_elem_of_singleton]%elem_of_app; [by apply Hn1|done]. }
  destruct (fails (h ++ [EvBegin])); [by apply no_statement_sends|].
  destruct (fails _); [by apply sends_snoc; [apply no_statement_sends|]|].
  destruct (run_all _ _ stmts) as [[h1 results] failed] eqn:E.
  apply Hrun in E; [|done]. destruct failed; [by apply sends_snoc|].
  destruct (fails _); simpl; repeat (apply sends_snoc; [|done]); done.
Qed.

Lemma run_write_sends h stmts h1 results failed :
  no_statement h -> run_all run_write h stmts = (h1, results, failed) ->
  sends stmts h1.
Proof.
  intros Hn E. eapply run_all_events in E as (evs & -> & Hev);
    [|apply run_write_runner].
  apply sends_app; [done|]. intros e He. right.
  destruct (Hev e He) as (p & Hp & Hw). unfold write_event in Hw.
  destruct (isReadOnlyStatement p); subst e; eauto.
Qed.

Lemma endOpenTransaction_sends stmts h results :
  sends stmts h -> sends stmts (fst (endOpenTransaction h results)).
Proof.
  intros Hs. unfold endOpenTransaction.
  destruct (tx_idle h); [done|by apply sends_snoc].
Qed.

(** The decisions the handler makes before it sends anything, and what it
    then sends. *)
Lemma executeQuery_cases rc ctx isPost c request :
  let '(resp, h) := executeQuery rc ctx isPost c request in
  h = [] \/
  exists req,
    request = Some req /\ fst (CanAccessConnection rc ctx c) = true /\
    let stmts := splitStatements (TrimSpace (Query req)) in
    sends stmts h /\
    (forallb isReadOnlyStatement stmts = true /\ read_only_tx h \/
     forallb isReadOnlyStatement stmts = false /\
     Confirmed req = true /\ HasWriteAccess rc ctx c = true).
Proof.
  unfold executeQuery. destruct isPost; [|by left].
  destruct (fst (CanAccessConnection rc ctx c)); [|by left].
  destruct request as [req|]; [|by left]. cbn [negb].
  destruct (bytes_eqb (TrimSpace (Query req)) []); [by left|].
  destruct (_ && _); [by left|].
  set (stmts := splitStatements (TrimSpace (Query req))).
  destruct (decide (stmts = [])) as [->|Hne]; [by left|].
  assert (forall X (a b : X), match stmts with [] => a | _ => b end = b) as Hmatch
    by (intros; by destruct stmts).
  rewrite Hmatch. clear Hmatch.
  assert (no_statement [EvLookup]) as N1 by (by apply no_statement_list).
  assert (no_statement [EvLookup; EvOpen]) as N2 by (by apply no_statement_list).
  assert (no_statement ([EvLookup; EvOpen] ++ [EvAcquire])) as N3
    by (by apply no_statement_list).
  destruct (forallb isReadOnlyStatement stmts) eqn:Hro; cbn [negb andb].
  - destruct (fails [EvLookup]); [right; exists req; eauto 10 using
      no_statement_sends, no_statement_tx|].
    destruct (fails [EvLookup; EvOpen]); [right; exists req; eauto 10 using
      no_statement_sends, no_statement_tx|].
    destruct (needsSimpleProtocol stmts).
    + destruct (fails _); [right; exists req; eauto 10 using
        no_statement_sends, no_statement_tx|].
      pose proof (runSimpleStatements_sends _ stmts defaultRowLimit true N3).
      pose proof (runSimpleStatements_tx _ stmts defaultRowLimit N3).
      destruct (runSimpleStatements _ _ _ _). right. exists req. eauto 10.
    + pose proof (run_read_only_sends _ stmts N2).
      pose proof (run_read_only_tx _ stmts N2).
      destruct (run_read_only _ _). right. exists req. eauto 10.
  - destruct (Confirmed req) eqn:Hconf; [|by left]. cbn [negb andb].
    destruct (HasWriteAccess rc ctx c); [|by left]. cbn [negb].
    destruct (fails [EvLookup]); [right; exists req; eauto 10 using
      no_statement_sends|].
    destruct (fails [EvLookup; EvOpen]); [right; exists req; eauto 10 using
      no_statement_sends|].
    destruct (needsSimpleProtocol stmts).
    + destruct (fails _); [right; exists req; eauto 10 using no_statement_sends|].
      pose proof (runSimpleStatements_sends _ stmts defaultRowLimit false N3) as Hs.
      destruct (runSimpleStatements _ _ _ _) as [h1 results]. simpl in Hs.
      pose proof (endOpenTransaction_sends stmts h1 results Hs).
      destruct (endOpenTransaction h1 results). right. exists req. eauto 10.
    + destruct (fails _); [right; exists req; eauto 10 using no_statement_sends|].
      destruct (run_all run_write _ stmts) as [[h1 results] failed] eqn:E.
      apply run_write_sends in E as Hs; [|done].
      pose proof (endOpenTransaction_sends stmts h1 results Hs).
      destruct (endOpenTransaction h1 results). right. exists req. eauto 10.
Qed.
End Traces.

(** C1: Nothing reaches the database without the right to send it.  Every
    statement the handler makes the server run is one of the statements of
    the request, as it stands or with the injected LIMIT; the caller could
    access the connection; and a statement the read-only gate does not pass
    was confirmed, by a caller with write access to the connection.  This
    holds for every server and every pattern of failures. *)
Theorem executeQuery_authorised `{UnicodeCase} `{Server}
    rc ctx isPost c request e sql :
  let '(resp, h) := executeQuery rc ctx isPost c request in
  e ∈ h -> statement_event e = Some sql ->
  fst (CanAccessConnection rc ctx c) = true /\
  exists req p, request = Some req /\
    p ∈ splitStatements (TrimSpace (Query req)) /\
    (sql = p \/ sql = limited_text p defaultRowLimit) /\
    (isReadOnlyStatement p = true \/
     Confirmed req = true /\ HasWriteAccess rc ctx c = true).
Proof.
  pose proof (executeQuery_cases rc ctx isPost c request) as Hc.
  destruct (executeQuery rc ctx isPost c request) as [resp h]. intros He Hsql.
  destruct Hc as [->|(req & -> & Hacc & Hs & Hright)]; [by apply elem_of_nil in He|].
  split; [done|]. destruct (Hs e sql He Hsql) as (p & Hp & Htext).
  exists req, p. split_and!; [done..|].
  destruct Hright as [[Hro _]|[_ ?]]; [|by right]. left.
  rewrite forallb_forall in Hro. by apply Hro, list_elem_of_In.
Qed.

(** C5: A request that is not a confirmed write by a caller with write access
    runs read-only: every statement it makes the server run is sent inside a
    transaction that was begun and set read-only, and that has neither been
    committed nor rolled back before the statement. *)
Theorem executeQuery_read_only `{UnicodeCase} `{Server}
    rc ctx isPost c req :
  (Confirmed req && HasWriteAccess rc ctx c = false \/
   forallb isReadOnlyStatement (splitStatements (TrimSpace (Query req))) = true) ->
  read_only_tx (snd (executeQuery rc ctx isPost c (Some req))).
Proof.
  intros Hreq. pose proof (executeQuery_cases rc ctx isPost c (Some req)) as Hc.
  destruct (executeQuery rc ctx isPost c (Some req)) as [resp h] eqn:E. simpl.
  destruct Hc as [->|(r & [= <-] & _ & _ & Hright)].
  { by apply no_statement_tx, no_statement_list. }
  destruct Hright as [[_ ?]|(Hro & Hconf & Hw)]; [done|].
  rewrite Hconf, Hw in Hreq. destruct Hreq as [|Hall]; [done|].
  by rewrite Hall in Hro.
Qed.

(** The write path runs a batch in order and stops at the first error.  The
    server is sent one request per result, the requests are those of the
    first statements of the batch, read with a LIMIT when the gate passes
    them and executed as they stand otherwise, the results name those
    statements, and only the last can report an error; without an error
    every statement ran. *)
Lemma write_path_in_order `{UnicodeCase} `{Server} h stmts h' results failed :
  run_all run_write h stmts = (h', results, failed) ->
  exists evs, h' = h ++ evs /\
    Forall2 write_event (take (length results) stmts) evs /\
    map res_Query results = take (length results) stmts /\
    (if failed
     then exists good bad, results = good ++ [bad] /\ res_Error bad = true /\
          Forall (fun r => res_Error r = false) good
     else length results = length stmts /\
          Forall (fun r => res_Error r = false) results).
Proof. apply run_all_spec, run_write_runner. Qed.
