(* ===== verification/Witnesses.v ===== *)
(** * Concrete instances

    Each theorem with hypotheses applied to a concrete input on which the
    hypotheses hold: small statements, a store with two users, a token and a
    group, and a server that answers every request. *)
From stdpp Require Import base list strings gmap sets relations.
From Stdlib Require Import Ascii.
From S2P Require Import Prelude GoStrings SqlLexer LexGrammar LexStable.
From S2P Require Import SqlSplit SqlCalls QueryGate.
From S2P Require Import AuthStore Groups Access TokenScope QueryHandler.

Local Open Scope nat_scope.

(** ** Parameters *)

(** Case mapping that leaves text outside ASCII alone. *)
Definition ascii_case : UnicodeCase :=
  {| unicode_upper := fun s => s; unicode_lower := fun s => s |}.

(** A server that fails nothing. *)
Definition quiet_server : Server :=
  {| fails := fun _ => false; rows := fun _ => [];
     encoding_utf8 := fun _ => true; tx_idle := fun _ => true |}.

(** User 1 belongs to group 10, which may read and write connection 5; user 2
    owns token 7, scoped to connection 5 at read and to one tool. *)
Definition demo_tables : tables :=
  {| users := [{| user_id := 1; Username := "ada"; IsSuperuserRow := false |};
               {| user_id := 2; Username := "bob"; IsSuperuserRow := false |}];
     user_group_rows := [{| group_id := 10; Name := "dba" |};
                         {| group_id := 11; Name := "staff" |}];
     tokens := [{| stored_token_id := 7; OwnerID := 2 |}];
     group_memberships := [user_member 10 1];
     mcp_privilege_identifiers :=
       [{| mcp_id := 1; Identifier := "query"; IsPublic := false |}];
     group_mcp_privileges := [];
     connection_privileges :=
       [{| cp_group := 10; cp_connection := 5; cp_level := "read_write" |}];
     group_admin_permissions :=
       [{| gap_group := 10; gap_permission := "manage_probes" |}];
     token_connection_scope :=
       [{| tcs_token := 7;
           tcs_row := {| ConnectionID := 5; AccessLevel := "read" |} |}];
     token_mcp_scope := [{| tms_token := 7; tms_privilege := 1 |}];
     token_admin_scope := [];
     audit_events := [] |}.

Definition demo_store : AuthStore :=
  {| db := demo_tables; fault := fun _ _ _ => false |}.

Lemma demo_fault_free : fault_free demo_store.
Proof. done. Qed.

(** Connections 5, of nobody and not shared, and 6, shared by ada. *)
Definition demo_connections : list ConnectionVisibilityInfo :=
  [{| info_ID := 5; info_IsShared := false; info_OwnerUsername := "" |};
   {| info_ID := 6; info_IsShared := true; info_OwnerUsername := "ada" |}].

Definition demo_lookup : SharingLookup := fun c =>
  if (c =? 5)%Z then Ok (false, ""%string)
  else if (c =? 6)%Z then Ok (true, "ada"%string) else Err DBError.

(** The lister and the sharing lookup read the same connections. *)
Lemma demo_views c sh ow :
  demo_lookup c = Ok (sh, ow) <->
  {| info_ID := c; info_IsShared := sh; info_OwnerUsername := ow |} ∈ demo_connections.
Proof.
  unfold demo_lookup, demo_connections. split.
  - destruct (Z.eqb_spec c 5) as [->|_]; [intros [= <- <-]; apply list_elem_of_here|].
    destruct (Z.eqb_spec c 6) as [->|_]; [|discriminate].
    intros [= <- <-]. apply list_elem_of_further, list_elem_of_here.
  - intros Hin. apply list_elem_of_In in Hin. simpl in Hin.
    destruct Hin as [E|[E|[]]]; injection E as <- <- <-; reflexivity.
Qed.

Definition demo_checker : option RBACChecker :=
  NewRBACCheckerWithSharing (Some (healthy_store demo_store)) (Some demo_lookup).

Definition ada : Context :=
  {| ctx_username := "ada"; ctx_isAPIToken := false; ctx_userID := 1;
     ctx_tokenID := 0; ctx_isSuperuser := false |}.

Definition read_request : queryRequest :=
  {| Query := lit "SELECT 1"; DatabaseName := []; Confirmed := false |}.
Definition write_request : queryRequest :=
  {| Query := lit "DELETE FROM t"; DatabaseName := []; Confirmed := true |}.

(** ** The query endpoint *)

Lemma executeQuery_authorised_witness :
  HasWriteAccess demo_checker ada 5 = true.
Proof.
  pose proof (@executeQuery_authorised ascii_case quiet_server demo_checker ada
    true 5%Z (Some write_request) (EvExec (lit "DELETE FROM t"))
    (lit "DELETE FROM t")) as T.
  assert (E : snd (@executeQuery ascii_case quiet_server demo_checker ada true 5%Z
    (Some write_request)) =
    [EvLookup; EvOpen; EvAcquire; EvExec (lit "DELETE FROM t")])
    by (vm_compute; reflexivity).
  destruct (@executeQuery ascii_case quiet_server demo_checker ada true 5%Z
    (Some write_request)) as [resp h]. simpl in E. subst h.
  destruct T as (_ & req & p & Hreq & Hp & Hsql & Hright).
  - do 3 apply list_elem_of_further. apply list_elem_of_here.
  - reflexivity.
  - injection Hreq as <-.
    assert (Hs : @splitStatements (TrimSpace (Query write_request)) =
      [lit "DELETE FROM t"]) by (vm_compute; reflexivity).
    rewrite Hs in Hp. apply list_elem_of_singleton in Hp. subst p.
    destruct Hright as [Hro|[_ Hw]]; [|exact Hw].
    vm_compute in Hro. discriminate.
Defined.

Lemma executeQuery_read_only_witness :
  read_only_tx (snd (@executeQuery ascii_case quiet_server demo_checker ada true
                       5%Z (Some read_request))).
Proof.
  apply (@executeQuery_read_only ascii_case quiet_server).
  left. vm_compute. reflexivity.
Defined.

(** ** The read-only gate *)

Lemma ascii_text s : forallb is_ascii s = true -> all_ascii s.
Proof.
  rewrite forallb_forall. intros Hs. apply Forall_forall. intros c Hc.
  by apply Hs, list_elem_of_In.
Defined.


Lemma SplitStatements_stable_witness :
  SplitStatements (lit "SELECT ';'") StandardStrings = [lit "SELECT ';'"].
Proof.
  apply (SplitStatements_stable (lit "SELECT ';'; SELECT 2") StandardStrings).
  - apply ascii_text. vm_compute. reflexivity.
  - assert (E : SplitStatements (lit "SELECT ';'; SELECT 2") StandardStrings =
      [lit "SELECT ';'"; lit "SELECT 2"]) by (vm_compute; reflexivity).
    rewrite E. apply list_elem_of_here.
Defined.

(** Outside ASCII a statement may not survive its own trimming.  A no-break
    space is a byte of a name to the lexer, so the E after it opens no escape
    literal and the script is one statement; trimmed of the space, the same
    text reads as an escape literal and its semicolon as code. *)
Example trimmed_statement_splits :
  let statement := lit "E'\' || ';' || 'x'" in
  let script := chr 194 :: chr 160 :: statement in
  SplitStatements script StandardStrings = [statement] /\
  SplitStatements statement StandardStrings = [lit "E'\' || '"; lit "' || 'x'"].
Proof. vm_compute. split; reflexivity. Qed.

Lemma select_call_detected_witness :
  @CallsSideEffectingFunction ascii_case (lit "SELECT Pg_Terminate_Backend (1)")
    EscapeStrings = true.
Proof.
  apply (@select_call_detected ascii_case EscapeStrings (lit " ")
    (lit "Pg_Terminate_Backend") (lit " ") (lit "1)")).
  - apply blank_space; [reflexivity|apply blank_nil].
  - discriminate.
  - apply blank_space; [reflexivity|apply blank_nil].
  - split; [simpl; lia|repeat constructor].
  - vm_compute. reflexivity.
Defined.


(** ** Lexing *)

Example regions_stepped_over :
  SkipNonCode (lit "E'a\'b' x") 0 StandardStrings = 7 /\
  SkipNonCode (lit "/* a /* b */ */ x") 0 StandardStrings = 15 /\
  SkipNonCode (lit "$f$ it's $f$ x") 0 EscapeStrings = 12.
Proof. vm_compute. repeat split. Qed.

(** ** Access control *)

Lemma visible_iff_openable_witness :
  listed (VisibleConnectionIDs demo_checker ada (Some (Ok demo_connections))) 6%Z.
Proof.
  apply (visible_iff_openable demo_store demo_lookup demo_connections ada 6).
  - apply demo_views.
  - discriminate.
  - reflexivity.
  - left. discriminate.
  - vm_compute. reflexivity.
Defined.

(** ** Groups *)

(** No row of [demo_tables] nests a group. *)
Lemma demo_acyclic : acyclic demo_tables.
Proof.
  assert (N : forall c p, ~ childOf demo_tables c p).
  { intros c p (m & Hm & Hc & _). apply list_elem_of_singleton in Hm.
    subst m. discriminate. }
  intros g Hg. inversion Hg as [x y Hxy|x y z Hxy _]; exact (N _ _ Hxy).
Defined.

(** Group 10 is put into 11; putting 11 into 10 as well is refused. *)
Definition nested_once : tables := fst (addGroupToGroup demo_store 11 10).

Lemma reachable_acyclic_witness :
  acyclic (fst (addGroupToGroup {| db := nested_once; fault := fun _ _ _ => false |}
                  10 11)) /\
  existsb (same_row (group_member 11 10)) (group_memberships nested_once) = true.
Proof.
  split; [|vm_compute; reflexivity].
  apply (reachable_acyclic demo_tables); [|exact demo_acyclic].
  apply rtc_l with nested_once; [apply (step_add_group demo_tables)|].
  apply rtc_l with (fst (addGroupToGroup
    {| db := nested_once; fault := fun _ _ _ => false |} 10 11));
    [apply step_add_group|apply rtc_refl].
Defined.

(** ** Token scopes *)

Lemma demo_schema_ok : schema_ok (db demo_store) 7.
Proof.
  assert (P : forall p, p ∈ mcp_privilege_identifiers (db demo_store) ->
    p = {| mcp_id := 1; Identifier := "query"; IsPublic := false |}).
  { intros p Hp. by apply list_elem_of_singleton in Hp. }
  split.
  - repeat constructor. set_solver.
  - intros p ->%P. discriminate.
  - intros p q ->%P ->%P. reflexivity.
  - intros p ->%P. discriminate.
Defined.

(** User 1 tries to give bob's token every tool. *)
Definition all_tools : TokenScopeChange :=
  {| ch_connections := None; ch_mcp := Some ["*"%string]; ch_admin := None |}.

Lemma setTokenScope_narrows_witness :
  mcp_in_scope (fst (setTokenScope demo_store 7 all_tools true (TokensOwnedBy 1)
                       None)) 7 "server_info" = false.
Proof.
  destruct (setTokenScope_narrows demo_store 7 all_tools true 1 None 2
    demo_schema_ok) as (_ & Hmcp & _); [reflexivity|discriminate|].
  apply not_true_is_false. intros Hin. apply Hmcp in Hin.
  vm_compute in Hin. discriminate.
Defined.

(** A snapshot taken before connection 5 was put in the scope. *)
Definition stale : TokenScopeSnapshot := newTokenScopeSnapshot [] [1%Z] [].

Lemma judged_scope_is_current_witness :
  snd (clearTokenScope demo_store 7 true AnyTokenOwner (Some stale)) <> Ok tt.
Proof.
  destruct (clearTokenScope demo_store 7 true AnyTokenOwner (Some stale))
    as [t' outcome] eqn:E.
  destruct (judged_scope_is_current demo_store 7 all_tools true AnyTokenOwner
    stale t' outcome (or_intror E)) as [Hcur _].
  simpl. intros Ho. specialize (Hcur Ho).
  apply (f_equal (fun sn => size (snap_conns sn))) in Hcur.
  vm_compute in Hcur. discriminate.
Defined.
