(* ===== verification/WitnessesAccess.v ===== *)
(** * Concrete instances: changing access

    The theorems on grants, token scopes and the rate limiter applied to a
    small store: bob runs the group that hands out permissions, eve has
    nothing, and root is a superuser. *)
From stdpp Require Import base list strings gmap sets relations.
From S2P Require Import Prelude AuthStore RateLimiter Groups Grants Access.
From S2P Require Import TokenScope StoreInv Reach Ceiling CeilingSound RbacHandlers.
From S2P Require Import Escalation ScopeDelegation UserReach.

Local Open Scope Z_scope.

(** ** The store *)

Definition ops_tables : tables :=
  {| users := [{| user_id := 1; Username := "ada"; IsSuperuserRow := false |};
               {| user_id := 2; Username := "bob"; IsSuperuserRow := false |};
               {| user_id := 3; Username := "eve"; IsSuperuserRow := false |};
               {| user_id := 4; Username := "root"; IsSuperuserRow := true |}];
     user_group_rows := [{| group_id := 10; Name := "dba" |};
                         {| group_id := 11; Name := "staff" |};
                         {| group_id := 12; Name := "ops" |}];
     tokens := [{| stored_token_id := 8; OwnerID := 2 |};
                {| stored_token_id := 9; OwnerID := 2 |};
                {| stored_token_id := 20; OwnerID := 3 |};
                {| stored_token_id := 21; OwnerID := 4 |}];
     group_memberships := [user_member 10 1; user_member 11 3; user_member 12 2];
     mcp_privilege_identifiers :=
       [{| mcp_id := 1; Identifier := "query"; IsPublic := false |}];
     group_mcp_privileges := [{| gmp_group := 12; gmp_privilege := 1 |}];
     connection_privileges :=
       [{| cp_group := 10; cp_connection := 5; cp_level := "read_write" |};
        {| cp_group := 12; cp_connection := 6; cp_level := "read_write" |}];
     group_admin_permissions :=
       [{| gap_group := 12; gap_permission := "manage_permissions" |};
        {| gap_group := 12; gap_permission := "manage_groups" |};
        {| gap_group := 12; gap_permission := "manage_token_scopes" |}];
     token_connection_scope :=
       [{| tcs_token := 8; tcs_row := {| ConnectionID := 6; AccessLevel := "read" |} |};
        {| tcs_token := 20; tcs_row := {| ConnectionID := 6; AccessLevel := "read" |} |};
        {| tcs_token := 21;
           tcs_row := {| ConnectionID := 6; AccessLevel := "read_write" |} |}];
     token_mcp_scope := []; token_admin_scope := []; audit_events := [] |}.

Definition ops_store : AuthStore := {| db := ops_tables; fault := working |}.

(** Connections 5 and 6, which belong to nobody; 6 is shared. *)
Definition ops_lookup : SharingLookup := fun c =>
  if c =? 5 then Ok (false, ""%string)
  else if c =? 6 then Ok (true, ""%string) else Err DBError.

Definition ops_lister : ReachLister :=
  {| GetAllConnections := Ok
       [{| info_ID := 5; info_IsShared := false; info_OwnerUsername := "" |};
        {| info_ID := 6; info_IsShared := true; info_OwnerUsername := "" |}];
     GetOwnedClusterGroupConnectionIDs := Some (fun _ => Ok []) |}.

Definition by_token (name : string) (user token : Z) (super : bool) : Context :=
  {| ctx_username := name; ctx_isAPIToken := true; ctx_userID := user;
     ctx_tokenID := token; ctx_isSuperuser := super |}.

Definition bob_9 : Context := by_token "bob" 2 9 false.
Definition bob_8 : Context := by_token "bob" 2 8 false.
Definition eve_20 : Context := by_token "eve" 3 20 false.
Definition root_21 : Context := by_token "root" 4 21 true.
Definition eve : Context :=
  {| ctx_username := "eve"; ctx_isAPIToken := false; ctx_userID := 3;
     ctx_tokenID := 0; ctx_isSuperuser := false |}.
Definition eve_user : User :=
  {| user_id := 3; Username := "eve"; IsSuperuserRow := false |}.

Lemma ops_levels : levels_ok ops_tables.
Proof. repeat constructor; by right. Defined.

Lemma ops_ids : ids_ok ops_tables.
Proof. split; repeat constructor; set_solver. Defined.

Lemma ops_lists : lists ops_lister ops_lookup.
Proof.
  eexists. split; [reflexivity|]. intros c sh ow. unfold ops_lookup.
  rewrite !elem_of_cons, elem_of_nil.
  destruct (Z.eqb_spec c 5) as [->|]; [naive_solver|].
  destruct (Z.eqb_spec c 6) as [->|]; naive_solver.
Defined.

(** ** Grants *)

(** Bob's token gives eve's group read access to connection 6, which it has,
    and tries to give it connection 5, which it has not. *)
Definition after_grant : tables :=
  fst (serve (Some ops_lookup) ops_store ops_store bob_9 (GrantConnection 11 6 "read")).
Definition after_both : tables :=
  fst (serve (Some ops_lookup) ops_store {| db := after_grant; fault := working |}
         bob_9 (GrantConnection 11 5 "read")).

Lemma tokens_cannot_escalate_witness :
  rank_on (checker (Some ops_lookup) after_both working) eve 6 = 1%nat /\
  rank_on (checker (Some ops_lookup) after_both working) eve 5 = 0%nat.
Proof.
  split; [vm_compute; reflexivity|].
  destruct (tokens_cannot_escalate (Some ops_lookup) (fun a => a = bob_9) ops_tables
    after_both [after_grant; ops_tables] working eve) as (H & _).
  - exact ops_levels.
  - exact ops_ids.
  - intros a ->. reflexivity.
  - apply (runs_request (Some ops_lookup) (fun a => a = bob_9) ops_tables after_grant
      [ops_tables] ops_tables working working bob_9 (GrantConnection 11 5 "read"));
      [|apply list_elem_of_further, list_elem_of_here|reflexivity].
    apply (runs_request (Some ops_lookup) (fun a => a = bob_9) ops_tables ops_tables
      [] ops_tables working working bob_9 (GrantConnection 11 6 "read"));
      [apply runs_start|apply list_elem_of_here|reflexivity].
  - destruct (H 5 ltac:(discriminate)) as [Hle|(a & -> & Hle)]; revert Hle;
      vm_compute; lia.
Defined.

(** Bob's token revokes the only grant on connection 6. *)
Lemma only_holder_lifts_restriction_witness :
  rank_on (checker (Some ops_lookup) ops_tables working) bob_9 6 = 2%nat.
Proof.
  destruct (only_holder_lifts_restriction (Some ops_lookup) ops_store ops_store bob_9
    (RevokeConnection 12 6) 6) as [H|H].
  - exact ops_levels.
  - discriminate.
  - reflexivity.
  - exact I.
  - vm_compute. reflexivity.
  - vm_compute. reflexivity.
  - vm_compute in H. contradiction H. reflexivity.
  - exact H.
Defined.

(** ** Token scopes *)

(** Bob's token 9 gives his token 8 write access to connection 6. *)
Definition widen_8 : TokenScopeChange :=
  {| ch_connections := Some [{| ConnectionID := 6; AccessLevel := "read_write" |}];
     ch_mcp := None; ch_admin := None |}.

Definition ops_checker : option RBACChecker :=
  Some {| authStore := Some ops_store; connSharingLookupFn := Some ops_lookup |}.

Definition after_widen : tables :=
  fst (handleSetTokenScope ops_checker ops_store bob_9 ops_store 8 widen_8).

Lemma set_scope_within_ceiling_witness :
  rank_on (checker (Some ops_lookup) after_widen working) bob_8 6 = 2%nat /\
  rank_on (checker (Some ops_lookup) after_widen working) bob_8 5 = 0%nat.
Proof.
  split; [vm_compute; reflexivity|].
  destruct (set_scope_within_ceiling (Some ops_lookup) ops_store ops_store bob_9 8
    widen_8 bob_8 working) as (H & _).
  - reflexivity.
  - exact ops_levels.
  - exact ops_levels.
  - exact ops_ids.
  - reflexivity.
  - repeat constructor. set_solver.
  - destruct (H 5 ltac:(discriminate)) as [Hle|Hle]; revert Hle; vm_compute; lia.
Defined.

(** ** Acting on a user *)

Lemma user_within_scope_sound_witness :
  (rank_on (checker (Some ops_lookup) ops_tables working) eve 6 <=
   rank_on (checker (Some ops_lookup) ops_tables working) bob_9 6)%nat.
Proof.
  destruct (user_within_scope_sound ops_lookup ops_store bob_9 ops_lister eve_user eve
    working) as (H & _).
  - reflexivity.
  - exact ops_levels.
  - exact ops_ids.
  - exact ops_lists.
  - reflexivity.
  - by split_and!.
  - vm_compute. reflexivity.
  - apply H. discriminate.
Defined.

(** Root's token, scoped to connection 6, clears the scope of eve's. *)
Definition after_clear : tables :=
  fst (handleClearTokenScope ops_checker ops_store root_21 20 (Some ops_lister)).

Lemma clear_scope_within_ceiling_witness :
  scope_connections after_clear 20 = [] /\
  rank_on (checker (Some ops_lookup) after_clear working) eve_20 5 = 0%nat.
Proof.
  split; [vm_compute; reflexivity|].
  destruct (clear_scope_within_ceiling ops_lookup ops_store ops_store root_21 ops_lister
    20 eve_user eve_20 working) as (H & _).
  - reflexivity.
  - exact ops_levels.
  - exact ops_ids.
  - exact ops_lists.
  - reflexivity.
  - reflexivity.
  - reflexivity.
  - intros _. by split_and!.
  - destruct (H 5 ltac:(discriminate)) as [Hle|Hle]; revert Hle; vm_compute; lia.
Defined.

(** ** The rate limiter *)

(** Two requests a minute: the third is refused, the fourth comes after a
    refund, and a cleanup runs in between. *)
Definition busy_minute : list limiter_op :=
  [Spend "10.0.0.1" 0 1; Spend "10.0.0.1" 2 3; Spend "10.0.0.1" 4 5; Sweep 6;
   GiveBack "10.0.0.1"; Spend "10.0.0.1" 7 8].

Lemma rate_limit_holds_witness :
  spent "10.0.0.1" (NewRateLimiter 1 2) [] busy_minute = [1; 8] /\
  Z.of_nat (length (in_window 0 Minute
    (spent "10.0.0.1" (NewRateLimiter 1 2) [] busy_minute))) <= 2.
Proof.
  split; [vm_compute; reflexivity|].
  apply (rate_limit_holds 1 2 busy_minute "10.0.0.1" 0 0). cbn. lia.
Defined.

Definition busy_ops : list any_op :=
  map Limited busy_minute ++ [Failed "10.0.0.1" 8; Forgiven "10.0.0.2"].

Lemma allowance_returns_witness :
  IsAllowed (run_ops (NewRateLimiter 1 2) busy_ops) "10.0.0.1" 9 = false /\
  answers (run_ops (NewRateLimiter 1 2) busy_ops)
    (requests "10.0.0.1" [(8 + Minute, 8 + Minute); (9 + Minute, 9 + Minute)]) = [true; true].
Proof.
  split; [vm_compute; reflexivity|].
  apply (allowance_returns 1 2 0 busy_ops "10.0.0.1" (8 + Minute)
           [(8 + Minute, 8 + Minute); (9 + Minute, 9 + Minute)]).
  - vm_compute. repeat split; discriminate.
  - lia.
  - vm_compute. discriminate.
  - cbn. lia.
  - done.
Defined.

(** ** The tables *)

Ltac by_token k :=
  destruct (Z.eqb_spec 8 k) as [<-|]; [|destruct (Z.eqb_spec 20 k) as [<-|];
    [|destruct (Z.eqb_spec 21 k) as [<-|]]].

(** The connection scope of token [k], written out. *)
Lemma ops_scope k :
  scope_connections ops_tables k =
    (if 8 =? k then [{| ConnectionID := 6; AccessLevel := "read" |}]
     else if 20 =? k then [{| ConnectionID := 6; AccessLevel := "read" |}]
     else if 21 =? k then [{| ConnectionID := 6; AccessLevel := "read_write" |}]
     else []).
Proof.
  by_token k; try reflexivity. unfold scope_connections. cbn -[Z.eqb].
  rewrite !(proj2 (Z.eqb_neq _ k)) by done. reflexivity.
Defined.

Lemma ops_wf : store_wf ops_tables.
Proof.
  split; split; try (repeat constructor; set_solver).
  - intros g Hg. assert (forall x y, ~ childOf ops_tables x y) as Hno.
    { intros x y (m & Hm & E & _). revert Hm E. simpl.
      rewrite !elem_of_cons, elem_of_nil. naive_solver. }
    destruct Hg as [x y Hxy|x y z Hxy _]; by apply Hno in Hxy.
  - intros k Hk. rewrite ops_scope. split_and!; [|done..].
    by_token k; by vm_compute in Hk.
  - intros k. rewrite ops_scope. apply ValidateScopedConnections_spec.
    by by_token k.
Defined.

(** Bob grants eve's group access to connection 5, then the scope of token 8
    is written. *)
Definition after_steps : tables :=
  fst (setTokenConnectionScope
    {| db := fst (grantConnectionPrivilege {| db := ops_tables; fault := working |}
                    11 5 "read"); fault := working |}
    8 [{| ConnectionID := 5; AccessLevel := "read" |}] true).

Lemma store_stays_well_formed_witness :
  scope_connections after_steps 8 = [{| ConnectionID := 5; AccessLevel := "read" |}] /\
  store_wf after_steps.
Proof.
  split; [vm_compute; reflexivity|].
  apply (store_stays_well_formed ops_tables after_steps); [|exact ops_wf].
  eapply rtc_l; [exact (step_grant_connection ops_tables working 11 5 "read")|].
  apply rtc_once. apply step_set_connections.
Defined.
