(* ===== verification/WitnessesAudit.v ===== *)
(** * Concrete instances: the audit log

    The theorems on the audit log applied to a log of two events, a purge,
    a truncation and a change of secret, with stand-ins for HMAC and JSON
    that obey the laws the theorems ask for. *)
From Stdlib Require Import Ascii.
From stdpp Require Import base list strings sets sorting countable.
From S2P Require Import Prelude AuditText AuditChain AuditVerify AuditSound AuditRotate.

Local Open Scope Z_scope.

(** ** Stand-ins *)

(** The record as a tuple, and a tuple as a string of bits. *)
Definition anchor_tuple (a : auditAnchor) : option Z * string * option Z * Z * string :=
  (OldestRetainedID a, OldestRetainedHash a, HistoryThroughID a, HistoryEvents a,
   HistoryDigest a).

Definition tuple_anchor (x : option Z * string * option Z * Z * string) : auditAnchor :=
  let '(i, h, t, n, g) := x in
  {| OldestRetainedID := i; OldestRetainedHash := h; HistoryThroughID := t;
     HistoryEvents := n; HistoryDigest := g |}.

Fixpoint bits (p : positive) : string :=
  match p with
  | xH => "."
  | xO p => String "0" (bits p)
  | xI p => String "1" (bits p)
  end.

Fixpoint from_bits (s : string) : option positive :=
  match s with
  | String "0" s => xO <$> from_bits s
  | String "1" s => xI <$> from_bits s
  | String _ _ => Some xH
  | EmptyString => None
  end.

Lemma from_bits_bits p : from_bits (bits p) = Some p.
Proof. induction p as [p IH|p IH|]; simpl; by rewrite ?IH. Qed.

Definition stand_in (h : string -> string -> string) : Primitives := {|
  hmac := h;
  sha256 m := String "$" m;
  marshal p := bits (encode (anchor_tuple (retained p)));
  unmarshal s := p ← from_bits s; tuple_anchor <$> decode p;
|}.

Lemma stand_in_laws h :
  (forall key m, h key m <> ""%string) -> PrimitiveLaws (stand_in h).
Proof.
  intros Hh. split.
  - exact Hh.
  - intros p. simpl. by destruct (encode _).
  - intros p. simpl. rewrite from_bits_bits. simpl. rewrite decode_encode.
    by destruct (retained p).
Defined.

(** A short one, and one without collisions. *)
Definition short : Primitives :=
  stand_in (fun key m => String "#" (decimal (N.of_nat (String.length m)))).
Lemma short_laws : PrimitiveLaws short.
Proof. by apply stand_in_laws. Defined.

#[local] Instance toy : Primitives :=
  stand_in (fun key m => String "#" (key ++ String "#" m)).
#[local] Instance toy_laws : PrimitiveLaws toy.
Proof. by apply stand_in_laws. Defined.

(** ** The log *)

Definition act (action : string) : AuditEvent :=
  {| ID := 0; OccurredAt := 1700000000000000000; ActorType := "user";
     ActorID := Some 7; ActorName := "ada"; ActorIP := ""; Action := action;
     TargetType := "group"; TargetID := Some 3; TargetName := "dba";
     Outcome := ""; Error := ""; Details := ""; PrevHash := ""; Hash := "";
     HashVersion := 0 |}.

Definition written {prims : Primitives} (key : string) (d : auditDB) (action : string) : auditDB :=
  match recordAudit (store key d no_fault) 0 (act action) with
  | Ok d' => d'
  | Err _ => empty_log
  end.

Definition newest (d : auditDB) : AuditEvent := default (act "") (newest_row d).

Definition log1 : auditDB := written "k" empty_log "group.create".
Definition log2 : auditDB := written "k" log1 "group.delete".
Definition past2 : list AuditEvent := [newest log1; newest log2].

Lemma log2_run : log_run "k" past2 log2.
Proof.
  apply (log_record "k" [newest log1] log1 no_fault 0 (act "group.delete")).
  - apply (log_record "k" [] empty_log no_fault 0 (act "group.create")).
    + constructor.
    + by vm_compute.
    + vm_compute. reflexivity.
    + vm_compute. reflexivity.
  - by vm_compute.
  - vm_compute. reflexivity.
  - vm_compute. reflexivity.
Defined.

(** The same log with short hashes, and its first event purged. *)
Definition short1 : auditDB := @written short "k" empty_log "group.create".
Definition short2 : auditDB := @written short "k" short1 "group.delete".
Definition purged : auditDB :=
  match @purge_below short (store "k" short2 no_fault) 0 0 2 with
  | Ok out => fst out
  | Err _ => empty_log
  end.
Definition past3 : list AuditEvent := [newest short1; newest short2; newest purged].

Lemma purged_run : @log_run short "k" past3 purged.
Proof.
  apply (@log_purge short "k" [newest short1; newest short2] short2 no_fault 0 0 2 _ 1).
  - apply (@log_record short "k" [newest short1] short1 no_fault 0 (act "group.delete")).
    + apply (@log_record short "k" [] empty_log no_fault 0 (act "group.create")).
      * constructor.
      * by vm_compute.
      * vm_compute. reflexivity.
      * vm_compute. reflexivity.
    + by vm_compute.
    + vm_compute. reflexivity.
    + vm_compute. reflexivity.
  - vm_compute. reflexivity.
  - done.
  - vm_compute. reflexivity.
Defined.

Lemma honest_log_verifies_witness :
  map ID (audit_events purged) = [2; 3] /\
  snd (@verifyAuditLog short (store "k" purged no_fault)) = None.
Proof.
  split; [vm_compute; reflexivity|].
  rewrite (@honest_log_verifies short short_laws "k" past3 purged ltac:(discriminate)
             purged_run).
  reflexivity.
Defined.

(** An earlier log put back with its own anchor: it verifies, and it is a
    state of the log. *)
Lemma toy_inj key m m' : hmac key m = hmac key m' -> m = m'.
Proof. cbn. intros [= H]. apply app_inv_head_s in H. by injection H. Qed.

Lemma verified_log_is_genuine_witness :
  snd (verifyAuditLog (store "k" log1 no_fault)) = None /\
  exists before after d', past2 = before ++ after /\ log_run "k" before d' /\
                          same_log log1 d'.
Proof.
  split; [vm_compute; reflexivity|].
  apply (verified_log_is_genuine "k" past2 log2 log1 no_fault).
  - exact log2_run.
  - intros m m' _ _. apply toy_inj.
  - intros m Hm. exists (newest log1). split; [left|].
    assert (macs log1 = [hmac "k" (auditCanonical auditHashV3Label (newest log1));
                         hmac "k" (tail_message (newest log1))]) as E
      by (vm_compute; reflexivity).
    rewrite E in Hm. apply elem_of_cons in Hm as [Hm|Hm]; [left; by apply toy_inj in Hm|right].
    apply list_elem_of_singleton in Hm. by apply toy_inj in Hm.
  - vm_compute. reflexivity.
Defined.

(** The secret changes and one more event is written. *)
Definition rotated : auditDB := written "q" log2 "user.create".

Lemma rotation_is_key_mismatch_witness :
  map ID (audit_events rotated) = [1; 2; 3] /\
  snd (verifyAuditLog (store "q" rotated no_fault)) = Some ErrAuditKeyMismatch.
Proof.
  split; [vm_compute; reflexivity|].
  apply (rotation_is_key_mismatch "k" "q" past2 log2 [newest rotated]).
  - exact log2_run.
  - discriminate.
  - split; [discriminate|]. intros m _ [=].
  - apply (rotated_record "q" log2 [] log2 no_fault 0 (act "user.create")).
    + constructor.
    + by vm_compute.
    + vm_compute. reflexivity.
    + vm_compute. reflexivity.
Defined.

(** The second event is deleted and the sequence written down; the server
    goes on. *)
Definition cut_short : auditDB :=
  {| audit_events := audit_events log1; tail_primary := tail_primary log2;
     tail_current := None; sqlite_sequence := Some (Some 1); schema_intact := true |}.

Definition anchor2 : auditTailSlot := tail_of "k" (newest log2).
Definition goes_on : auditDB := written "k" cut_short "user.create".

Lemma truncation_stays_visible_witness :
  map ID (audit_events goes_on) = [1; 2] /\
  snd (verifyAuditLog (store "k" goes_on no_fault)) <> None.
Proof.
  split; [vm_compute; reflexivity|].
  apply (truncation_stays_visible "k" anchor2 None cut_short [newest goes_on] goes_on no_fault).
  - split; [|vm_compute; reflexivity..]. vm_compute. repeat constructor.
  - apply (server_record "k" cut_short [] cut_short no_fault 0 (act "user.create")).
    + constructor.
    + vm_compute. reflexivity.
    + vm_compute. reflexivity.
  - apply Forall_singleton. unfold not_the_missing. apply conj; [by vm_compute|by intros slot [=]].
Defined.
