(* ===== verification/Streaks.v ===== *)
(** * Sample streaks (alerter/src/internal/engine/hysteresis.go)

    The alerter raises an alert only after a condition has held on several
    samples in a row, and clears it only after the condition has been false on
    several.  [sampleStreaks] does the counting.  Here are its operations and
    an independent description of what is counted: [sustained] speaks of the
    history of calls alone, and [count_is_longest_run] says that the counter
    is the length of the longest run in that sense.

    Times are nanoseconds.  The pass number is a uint64 and a count is an int;
    both wrap around. *)
From stdpp Require Import base list gmap sorting.
From S2P Require Import Prelude.

Local Open Scope Z_scope.

(** ** The counters *)

Record sampleStreak := { sample : Z; streak_count : Z; streak_pass : Z }.

Record sampleStreaks (K : Type) `{Countable K} := {
  entries : gmap K sampleStreak;
  pass : Z;
}.
Arguments entries {K _ _}.
Arguments pass {K _ _}.

Section Streaks.
Context {K : Type} `{Countable K}.
Implicit Types (s : sampleStreaks K) (key : K).

Definition no_streaks : sampleStreaks K := {| entries := ∅; pass := 0 |}.

Definition set_entries s (m : gmap K sampleStreak) : sampleStreaks K :=
  {| entries := m; pass := pass s |}.

Definition startPass s : sampleStreaks K :=
  {| entries := entries s; pass := uint64 (pass s + 1) |}.

Definition observe s key (sampled : Z) (holds : bool) : sampleStreaks K * Z :=
  if negb holds then (set_entries s (delete key (entries s)), 0) else
  match entries s !! key with
  | None =>
      (set_entries s (<[key := {| sample := sampled; streak_count := 1;
                                  streak_pass := pass s |}]> (entries s)), 1)
  | Some entry =>
      let entry' :=
        if sample entry <? sampled
        then {| sample := sampled; streak_count := int64 (streak_count entry + 1);
                streak_pass := pass s |}
        else {| sample := sample entry; streak_count := streak_count entry;
                streak_pass := pass s |} in
      (set_entries s (<[key := entry']> (entries s)), streak_count entry')
  end.

(** [keep] may be nil. *)
Definition kept (keep : option (K -> bool)) key : bool :=
  match keep with Some f => f key | None => false end.

Definition sweep s (keep : option (K -> bool)) : sampleStreaks K :=
  set_entries s
    (filter (fun ke : K * sampleStreak =>
               (streak_pass ke.2 =? pass s) || kept keep ke.1) (entries s)).

Definition retain s (keep : K -> bool) : sampleStreaks K :=
  set_entries s (filter (fun ke : K * sampleStreak => keep ke.1) (entries s)).

Definition count s key : Z :=
  match entries s !! key with Some entry => streak_count entry | None => 0 end.

Definition size s : nat := map_size (entries s).

(** ** Histories of calls *)

Inductive streak_op :=
| Judged (key : K) (sampled : Z) (holds : bool)
| PassStarted
| Swept (keep : option (K -> bool))
| Retained (keep : K -> bool).

Definition apply s (op : streak_op) : sampleStreaks K :=
  match op with
  | Judged key sampled holds => fst (observe s key sampled holds)
  | PassStarted => startPass s
  | Swept keep => sweep s keep
  | Retained keep => retain s keep
  end.

Definition replay (ops : list streak_op) : sampleStreaks K :=
  fold_left apply ops no_streaks.

(** The samples on which the condition of [key] was found to hold. *)
Definition held key (ops : list streak_op) : list Z :=
  omap (fun op => match op with
                  | Judged key' sampled true =>
                      if decide (key' = key) then Some sampled else None
                  | _ => None
                  end) ops.

(** Did the pass that [ops] ends in find the condition of [key] to hold? *)
Definition judged_step key (seen : bool) (op : streak_op) : bool :=
  match op with
  | Judged key' _ holds => if decide (key' = key) then holds else seen
  | PassStarted => false
  | _ => seen
  end.

Definition judged_this_pass key (ops : list streak_op) : bool :=
  fold_left (judged_step key) ops false.

(** [op], coming after [ops], does not interrupt a run of [key]: it is no
    judgement that the condition is false, no sweep at the end of a pass that
    did not judge [key] and does not ask to keep it, no pruning of [key]. *)
Definition uninterrupted key (ops : list streak_op) (op : streak_op) : Prop :=
  match op with
  | Judged key' _ holds => key' = key -> holds = true
  | PassStarted => True
  | Swept keep => judged_this_pass key ops = true \/ kept keep key = true
  | Retained keep => keep key = true
  end.

(** [run] is a run of samples of [key], each newer than the one before, on
    which the condition held, all since some point of the history after which
    nothing interrupted it. *)
Definition sustained key (ops : list streak_op) (samples : list Z) : Prop :=
  exists before after,
    ops = before ++ after /\
    (forall p op q, after = p ++ op :: q -> uninterrupted key (before ++ p) op) /\
    StronglySorted Z.lt samples /\
    sublist samples (held key after).

(** The samples of [key] come in the order of their times. *)
Definition in_time key (ops : list streak_op) : Prop :=
  StronglySorted Z.le (held key ops).
End Streaks.
Arguments streak_op K : clear implicits.
Arguments no_streaks {K _ _}.

(** ** Reading a history from its end *)

Section Histories.
Context {K : Type} `{Countable K}.
Implicit Types (key : K) (ops : list (streak_op K)).

Lemma replay_snoc ops op : replay (ops ++ [op]) = apply (replay ops) op.
Proof. apply fold_left_app. Qed.

Lemma judged_snoc key ops op :
  judged_this_pass key (ops ++ [op]) = judged_step key (judged_this_pass key ops) op.
Proof. apply fold_left_app. Qed.

Lemma held_app key ops ops' : held key (ops ++ ops') = held key ops ++ held key ops'.
Proof. apply omap_app. Qed.

Lemma held_snoc key ops op : held key (ops ++ [op]) = held key ops ++ held key [op].
Proof. apply held_app. Qed.

Lemma held_same key sampled : held key [Judged key sampled true] = [sampled].
Proof. cbn. by rewrite decide_True. Qed.

Lemma held_not key op :
  (forall sampled, op <> Judged key sampled true) -> held key [op] = [].
Proof.
  intros Hop. destruct op as [key' sampled []| | |]; cbn; try done.
  case_decide; [subst; by destruct (Hop sampled)|done].
Qed.

Lemma snoc_split {A} (after p q : list A) (op x : A) :
  after ++ [op] = p ++ x :: q ->
  (q = [] /\ p = after /\ x = op) \/ (exists q', q = q' ++ [op] /\ after = p ++ x :: q').
Proof.
  destruct q as [|y q' _] using rev_ind; intros Heq.
  - left. by apply app_inj_tail in Heq as [-> ->].
  - right. exists q'. rewrite app_comm_cons, app_assoc in Heq.
    by apply app_inj_tail in Heq as [-> ->].
Qed.

(** A run stays one when nothing interrupts it, and takes up a newer sample. *)
Lemma sustained_none key ops : sustained key ops [].
Proof.
  exists ops, []. split_and!; [by rewrite app_nil_r|by intros [] ???|constructor|constructor].
Qed.

Lemma sustained_extend key ops op samples more :
  sustained key ops samples -> uninterrupted key ops op ->
  StronglySorted Z.lt (samples ++ more) -> sublist more (held key [op]) ->
  sustained key (ops ++ [op]) (samples ++ more).
Proof.
  intros (before & after & -> & Hun & _ & Hsub) Hop Hsort Hmore.
  exists before, (after ++ [op]). split_and!; [by rewrite app_assoc| |done|].
  - intros p x q Hsplit.
    apply snoc_split in Hsplit as [(_ & -> & ->)|(q' & _ & ->)]; [done|by eapply Hun].
  - rewrite held_snoc. by apply sublist_app.
Qed.

Lemma sustained_keep key ops op samples :
  sustained key ops samples -> uninterrupted key ops op ->
  sustained key (ops ++ [op]) samples.
Proof.
  intros Hs Hop. rewrite <- (app_nil_r samples). apply sustained_extend; [done..| |].
  - rewrite app_nil_r. by destruct Hs as (? & ? & ? & ? & ? & ?).
  - apply sublist_nil_l.
Qed.

Lemma sustained_first key ops sampled :
  sustained key (ops ++ [Judged key sampled true]) [sampled].
Proof.
  apply (sustained_extend key ops _ [] [sampled]); [apply sustained_none|done|..].
  - repeat constructor.
  - by rewrite held_same.
Qed.

(** Conversely, a run of the longer history is one of the shorter, with at
    most one sample more. *)
Lemma sustained_snoc_inv key ops op samples :
  sustained key (ops ++ [op]) samples ->
  samples = [] \/
  uninterrupted key ops op /\
  exists samples' more, samples = samples' ++ more /\ sustained key ops samples' /\
    sublist more (held key [op]).
Proof.
  intros (before & after & Hops & Hun & Hsort & Hsub).
  destruct after as [|op' after _] using rev_ind.
  { left. by apply sublist_nil_r in Hsub. }
  right. rewrite app_assoc in Hops. apply app_inj_tail in Hops as [-> <-].
  split. { by apply (Hun after op []). }
  rewrite held_snoc in Hsub. apply sublist_app_r in Hsub as (xs & ys & -> & Hxs & Hys).
  exists xs, ys. split_and!; [done| |done].
  exists before, after. split_and!; [done| | |done].
  - intros p x q ->. apply (Hun p x (q ++ [op])). by rewrite <- app_assoc.
  - by apply StronglySorted_app_1_l in Hsort.
Qed.

Lemma sublist_single {A} (l : list A) (x : A) :
  sublist l [x] -> l = [] \/ l = [x].
Proof.
  intros Hl. inversion Hl as [|? ? ? Hn|? ? ? Hn]; subst.
  - right. f_equal. by apply sublist_nil_r.
  - left. by apply sublist_nil_r.
Qed.

(** The number of passes of a history. *)
Definition is_start (op : streak_op K) : bool :=
  match op with PassStarted => true | _ => false end.

Definition passes ops : Z := Z.of_nat (length (filter (fun op => is_start op) ops)).

Lemma passes_snoc ops op :
  passes (ops ++ [op]) = passes ops + (if is_start op then 1 else 0).
Proof.
  unfold passes. rewrite filter_app, length_app, filter_cons, filter_nil.
  destruct op; simpl; lia.
Qed.

(** What a call does to the entry of [key]. *)
Definition next_entry s key (op : streak_op K) : option sampleStreak :=
  match op with
  | Judged key' sampled holds =>
      if decide (key' = key) then
        if holds then
          match entries s !! key with
          | None => Some {| sample := sampled; streak_count := 1; streak_pass := pass s |}
          | Some e =>
              Some {| sample := Z.max (sample e) sampled;
                      streak_count := if sample e <? sampled
                                      then int64 (streak_count e + 1) else streak_count e;
                      streak_pass := pass s |}
          end
        else None
      else entries s !! key
  | PassStarted => entries s !! key
  | Swept keep =>
      e ← entries s !! key;
      if (streak_pass e =? pass s) || kept keep key then Some e else None
  | Retained keep => if keep key then entries s !! key else None
  end.

Lemma apply_entry (s : sampleStreaks K) key op :
  entries (apply s op) !! key = next_entry s key op.
Proof.
  destruct op as [key' sampled holds| |keep|keep]; cbn.
  - unfold observe. destruct holds; cbn.
    + case_decide as Hk; [subst|]; destruct (entries s !! _) as [e|] eqn:E; cbn;
        rewrite ?lookup_insert_eq, ?lookup_insert_ne, ?E by done; try done.
      destruct (Z.ltb_spec (sample e) sampled); do 2 f_equal; lia.
    + case_decide; [by subst; rewrite lookup_delete_eq|by rewrite lookup_delete_ne].
  - done.
  - rewrite map_lookup_filter. destruct (entries s !! key) as [e|]; cbn; [|done].
    by destruct ((_ =? _) || _).
  - rewrite map_lookup_filter. destruct (entries s !! key) as [e|]; cbn; by destruct (keep key).
Qed.

Definition short ops : Prop := Z.of_nat (length ops) < 2 ^ 63.

Lemma short_snoc ops op : short (ops ++ [op]) -> short ops.
Proof. unfold short. rewrite length_app. simpl. lia. Qed.

Lemma passes_bound ops : 0 <= passes ops <= Z.of_nat (length ops).
Proof. unfold passes. pose proof (length_filter (fun op => is_start op) ops). lia. Qed.

Lemma pass_replay ops : short ops -> pass (replay ops) = passes ops.
Proof.
  induction ops as [|op ops IH] using rev_ind; intros Hs; [done|].
  rewrite replay_snoc, passes_snoc. specialize (IH (short_snoc _ _ Hs)).
  pose proof (passes_bound ops). apply short_snoc in Hs. unfold short in Hs.
  destruct op as [key sampled holds| | |]; cbn; try lia.
  - unfold observe. destruct holds; cbn; [destruct (_ !! _); cbn; lia|lia].
  - rewrite IH, uint64_small; lia.
Qed.
End Histories.

(** ** What the counter counts *)

Section Counting.
Context {K : Type} `{Countable K}.
Implicit Types (key : K) (ops : list (streak_op K)) (e : sampleStreak).

(** The entry was last marked in the current pass iff that pass judged it. *)
Definition marked key ops e : Prop :=
  streak_pass e <= passes ops /\
  (streak_pass e = passes ops <-> judged_this_pass key ops = true).

Lemma marked_holds ops key e :
  short ops -> entries (replay ops) !! key = Some e -> marked key ops e.
Proof.
  revert e. induction ops as [|op ops IH] using rev_ind; intros e Hs He; [done|].
  rewrite replay_snoc, apply_entry in He. unfold marked.
  rewrite passes_snoc, judged_snoc.
  pose proof (short_snoc _ _ Hs) as Hs'. specialize (fun e => IH e Hs').
  unfold marked in IH. rewrite <- (pass_replay ops) in * by done.
  destruct op as [key' sampled []| |keep|keep]; cbn in *; try case_decide;
    destruct (entries (replay ops) !! key) as [e0|] eqn:E0; simplify_eq/=;
    try (specialize (IH _ eq_refl)); split_ifs; simplify_eq/=; rewrite ?Z.add_0_r in *;
    intuition (try lia; try done).
Qed.

(** The run behind an entry. *)
Definition run_behind key ops e : Prop :=
  exists samples, sustained key ops samples /\ last samples = Some (sample e) /\
    Z.of_nat (length samples) = streak_count e.

Lemma sorted_snoc (l : list Z) (x y : Z) :
  StronglySorted Z.lt l -> last l = Some x -> x < y -> StronglySorted Z.lt (l ++ [y]).
Proof.
  intros Hl Hx Hy. apply StronglySorted_app_2; [|done|repeat constructor].
  intros a b Ha Hb. apply list_elem_of_singleton in Hb as ->.
  destruct l as [|z l _] using rev_ind; [done|].
  rewrite last_snoc in Hx. simplify_eq.
  apply elem_of_app in Ha as [Ha|Ha%list_elem_of_singleton]; [|lia].
  enough (a < x) by lia.
  eapply StronglySorted_app_1_elem_of; [exact Hl|done|by apply list_elem_of_singleton].
Qed.

Lemma run_behind_holds ops key e :
  short ops -> entries (replay ops) !! key = Some e ->
  run_behind key ops e /\ streak_count e <= Z.of_nat (length ops).
Proof.
  revert e. induction ops as [|op ops IH] using rev_ind; intros e Hs He; [done|].
  pose proof (short_snoc _ _ Hs) as Hs'.
  pose proof (fun e0 => marked_holds ops key e0 Hs') as Hmark.
  rewrite replay_snoc, apply_entry in He. rewrite length_app, Nat2Z.inj_add. cbn [length].
  (* an entry left alone keeps its run *)
  assert (Hkeep : forall e0, entries (replay ops) !! key = Some e0 ->
      uninterrupted key ops op ->
      run_behind key (ops ++ [op]) e0 /\ streak_count e0 <= Z.of_nat (length ops) + 1).
  { intros e0 He0 Hun. destruct (IH e0 Hs' He0) as [(samples & Hsus & ? & ?) ?].
    split; [|lia]. exists samples. split_and!; [by apply sustained_keep|done..]. }
  destruct op as [key' sampled []| |keep|keep]; cbn in He.
  - case_decide as Hk; [subst key'|by apply Hkeep].
    destruct (entries (replay ops) !! key) as [e0|] eqn:E0; simplify_eq/=;
      [|split; [exists [sampled]; split_and!; [apply sustained_first|done..]|cbn; lia]].
    destruct (IH e0 Hs' eq_refl) as [(samples & Hsus & Hlast & Hlen) Hle].
    destruct (Z.ltb_spec (sample e0) sampled) as [Hlt|Hge].
    + unfold short in Hs. rewrite length_app in Hs. cbn in Hs. rewrite int64_small by lia. split; [|cbn; lia].
      exists (samples ++ [sampled]). split_and!.
      * apply sustained_extend; [done..| |by rewrite held_same].
        eapply sorted_snoc; [by destruct Hsus as (?&?&?&?&?&?)|done|done].
      * rewrite last_snoc. cbn. f_equal. lia.
      * cbn. rewrite length_app. cbn. lia.
    + split; [|cbn; lia]. exists samples. split_and!; [by apply sustained_keep| |done].
      cbn. rewrite Hlast. f_equal. lia.
  - case_decide; [done|]. apply Hkeep; [done|by intros ->].
  - by apply Hkeep.
  - destruct (entries (replay ops) !! key) as [e0|] eqn:E0; simplify_eq/=.
    destruct ((_ =? _) || _) eqn:Eb; simplify_eq/=. apply Hkeep; [done|].
    apply orb_true_iff in Eb as [Eb%Z.eqb_eq|]; [left|by right].
    apply (Hmark e eq_refl). by rewrite Eb, pass_replay.
  - destruct (keep key) eqn:Ek; [by apply Hkeep|done].
Qed.

(** No run is longer: [longest] is what the counter knows of every run. *)
Definition longest key ops e : Prop :=
  forall samples, sustained key ops samples ->
  Z.of_nat (length samples) <= streak_count e /\
  (last samples = Some (sample e) \/ Z.of_nat (length samples) < streak_count e).

Lemma in_time_snoc key ops op : in_time key (ops ++ [op]) -> in_time key ops.
Proof. unfold in_time. rewrite held_snoc. apply StronglySorted_app_1_l. Qed.

Lemma sample_held ops key e :
  entries (replay ops) !! key = Some e -> sample e ∈ held key ops.
Proof.
  revert e. induction ops as [|op ops IH] using rev_ind; intros e He; [done|].
  rewrite replay_snoc, apply_entry in He. rewrite held_snoc, elem_of_app.
  destruct op as [key' sampled []| |keep|keep]; cbn in *; try case_decide;
    destruct (entries (replay ops) !! key) as [e0|] eqn:E0; simplify_eq/=;
    split_ifs; simplify_eq/=; try (left; by apply IH).
  - destruct (Z.max_spec (sample e0) sampled) as [[_ ->]|[_ ->]];
      [right; by apply list_elem_of_singleton|left; by apply IH].
  - right. by apply list_elem_of_singleton.
Qed.

Lemma sustained_same key ops op samples :
  held key [op] = [] -> sustained key (ops ++ [op]) samples ->
  samples = [] \/ uninterrupted key ops op /\ sustained key ops samples.
Proof.
  intros Hno [->|(Hun & s' & more & -> & Hs2 & Hmore)]%sustained_snoc_inv; [by left|].
  rewrite Hno in Hmore. apply sublist_nil_r in Hmore as ->. rewrite app_nil_r. by right.
Qed.

Lemma last_below (l : list Z) (x y : Z) :
  StronglySorted Z.lt (l ++ [y]) -> last l = Some x -> x < y.
Proof.
  intros Hl Hx. eapply StronglySorted_app_1_elem_of; [exact Hl| |by apply list_elem_of_singleton].
  by apply last_Some_elem_of.
Qed.

(** What is known of the runs of [key], with its entry [oe]. *)
Definition known key ops (oe : option sampleStreak) : Prop :=
  match oe with
  | Some e => 0 < streak_count e /\ longest key ops e
  | None => forall samples, sustained key ops samples -> samples = []
  end.

Lemma known_same key ops op oe :
  held key [op] = [] -> known key ops oe -> known key (ops ++ [op]) oe.
Proof.
  intros Hno Hk. destruct oe as [e|].
  - destruct Hk as [Hpos Hk]. split; [done|].
    intros samples [->|[_ Hs]]%(sustained_same _ _ _ _ Hno); [cbn; lia|by apply Hk].
  - intros samples [->|[_ Hs]]%(sustained_same _ _ _ _ Hno); [done|by apply Hk].
Qed.

Lemma known_dropped key ops op :
  held key [op] = [] -> ~ uninterrupted key ops op -> known key (ops ++ [op]) None.
Proof. intros Hno Hun samples [->|[? _]]%(sustained_same _ _ _ _ Hno); done. Qed.

Lemma known_sample key ops sampled oe :
  in_time key (ops ++ [Judged key sampled true]) -> oe = entries (replay ops) !! key ->
  (forall e, oe = Some e -> streak_count e + 1 < 2 ^ 63) -> known key ops oe ->
  known key (ops ++ [Judged key sampled true])
    (next_entry (replay ops) key (Judged key sampled true)).
Proof.
  intros Ht Hoe Hsmall Hk. cbn. rewrite decide_True by done. rewrite <- Hoe.
  destruct oe as [e|].
  - assert (sample e <= sampled) as Hle.
    { unfold in_time in Ht. rewrite held_snoc, held_same in Ht.
      eapply StronglySorted_app_1_elem_of; [exact Ht|by apply sample_held|
        by apply list_elem_of_singleton]. }
    destruct Hk as [Hpos Hk]. specialize (Hsmall e eq_refl).
    assert (Hcount : forall n, n = (if sample e <? sampled then int64 (streak_count e + 1)
        else streak_count e) -> n = streak_count e + (if sample e <? sampled then 1 else 0)).
    { intros n ->. destruct (_ <? _); [rewrite int64_small; lia|lia]. }
    split; cbn; [rewrite (Hcount _ eq_refl); destruct (_ <? _); lia|].
    intros samples Hs. pose proof Hs as (_ & _ & _ & _ & Hsort & _). cbn.
    rewrite (Hcount _ eq_refl), Z.max_r by done.
    apply sustained_snoc_inv in Hs as [->|(_ & s' & more & -> & Hs' & Hmore)];
      [cbn; destruct (_ <? _); lia|].
    rewrite held_same in Hmore. destruct (Hk s' Hs') as [Hlen Hlast].
    apply sublist_single in Hmore as [->| ->].
    + rewrite app_nil_r. destruct (Z.ltb_spec (sample e) sampled); [lia|].
      replace sampled with (sample e) by lia. intuition lia.
    + rewrite last_snoc, length_app. cbn [length]. split; [|by left].
      destruct (Z.ltb_spec (sample e) sampled); [lia|].
      destruct Hlast as [Hlast|]; [|lia]. pose proof (last_below _ _ _ Hsort Hlast). lia.
  - split; [cbn; lia|]. cbn. intros samples Hs.
    apply sustained_snoc_inv in Hs as [->|(_ & s' & more & -> & Hs' & Hmore)]; [cbn; lia|].
    rewrite held_same in Hmore. apply Hk in Hs' as ->. cbn.
    apply sublist_single in Hmore as [->| ->]; cbn; [lia|split; [lia|by left]].
Qed.

Lemma longest_holds ops key :
  short ops -> in_time key ops -> known key ops (entries (replay ops) !! key).
Proof.
  induction ops as [|op ops IH] using rev_ind; intros Hs Ht.
  { change (known key [] None). intros samples (before & after & Hops & _ & _ & Hsub).
    symmetry in Hops. apply app_nil in Hops as [-> ->]. by apply sublist_nil_r in Hsub. }
  pose proof (short_snoc _ _ Hs) as Hs'.
  specialize (IH Hs' (in_time_snoc _ _ _ Ht)). rewrite replay_snoc, apply_entry.
  pose proof (fun e0 => marked_holds ops key e0 Hs') as Hmark.
  destruct op as [key' sampled holds| |keep|keep].
  - destruct (decide (key' = key)) as [->|Hk].
    + destruct holds.
      * eapply known_sample; [done..| |done]. intros e He.
        destruct (run_behind_holds ops key e Hs' He) as [_ Hc].
        unfold short in Hs. rewrite length_app in Hs. cbn in Hs. lia.
      * cbn. rewrite decide_True by done. apply known_dropped; [done|]. cbn. intros Hun. by specialize (Hun eq_refl).
    + cbn. rewrite decide_False by done. apply known_same; [|done].
      apply held_not. by intros ? [= ? ?].
  - by apply known_same.
  - cbn. destruct (entries (replay ops) !! key) as [e|] eqn:E; cbn;
      [|by apply (known_same _ _ _ None)].
    destruct ((_ =? _) || _) eqn:Eb; [by apply (known_same _ _ _ (Some e))|].
    apply known_dropped; [done|]. apply orb_false_iff in Eb as [Eb Ekeep].
    apply Z.eqb_neq in Eb. rewrite pass_replay in Eb by done.
    intros [Hj|Hj]; [|congruence]. by apply Eb, (Hmark e eq_refl).
  - cbn. destruct (keep key) eqn:E; [by apply known_same|].
    apply known_dropped; [done|]. cbn. by rewrite E.
Qed.

(** The returned count is the one stored. *)
Lemma observe_count (s : sampleStreaks K) key sampled holds :
  snd (observe s key sampled holds) = count (fst (observe s key sampled holds)) key.
Proof.
  unfold observe, count. destruct holds; cbn.
  - destruct (entries s !! key); cbn; by rewrite lookup_insert_eq.
  - by rewrite lookup_delete_eq.
Qed.

(** At least [n] is counted only after a run of [n] samples. *)
Lemma count_sustained ops key :
  short ops ->
  exists samples, sustained key ops samples /\
    Z.of_nat (length samples) = count (replay ops) key.
Proof.
  intros Hs. unfold count. destruct (entries (replay ops) !! key) as [e|] eqn:E.
  - destruct (run_behind_holds ops key e Hs E) as [(l & ? & _ & ?) _]. eauto.
  - exists []. split; [apply sustained_none|done].
Qed.

(** C32: for any history of fewer than 2^63 calls in which the samples of a
    key come in the order of their times, the counter of the key is the length
    of the longest run of ever newer samples on which its condition held and
    which nothing has interrupted since. *)
Theorem count_is_longest_run (ops : list (streak_op K)) (key : K) (n : nat) :
  Z.of_nat (length ops) < 2 ^ 63 -> in_time key ops ->
  Z.of_nat n = count (replay ops) key <->
  (exists samples, sustained key ops samples /\ length samples = n) /\
  (forall samples, sustained key ops samples -> (length samples <= n)%nat).
Proof.
  intros Hs Ht. destruct (count_sustained ops key Hs) as (l & Hl & Hlen).
  assert (forall samples, sustained key ops samples ->
    Z.of_nat (length samples) <= count (replay ops) key) as Hmax.
  { intros samples Hsus. pose proof (longest_holds ops key Hs Ht) as Hk. unfold count.
    destruct (entries (replay ops) !! key) as [e|]; cbn in Hk; [by apply Hk|].
    by rewrite (Hk _ Hsus). }
  split.
  - intros Hn. split; [exists l; split; [done|lia]|].
    intros samples Hsus%Hmax. lia.
  - intros [(samples & Hsus & <-) Hle]. apply Hmax in Hsus. apply Hle in Hl. lia.
Qed.
End Counting.
