(* ===== verification/AlertDb.v ===== *)
(** * The alerter's datastore and engine state
      (alerter/src/internal/database: types.go, queries.go, alert_queries.go,
      metric_queries.go, metric_registry.go, system_alert_queries.go;
      alerter/src/internal/engine: engine.go, notifications.go)

    The tables the alerter reads and writes, each of its queries as a function
    of the tables, and the monad in which the engine's passes are written.

    Every query is a step.  Before it, other processes may change the tables
    in any way ([others]): the web server, the collector, and the alerter's
    own goroutines other than the one that runs the pass.  A query may fail;
    a write that reports a failure may nevertheless have taken effect, as
    when the connection drops after the commit.  The engine keeps a [log] of
    its queries, writes and notifications, which no definition reads: the
    theorems are stated with it.

    A time is in nanoseconds; a column of type timestamptz keeps
    microseconds.  A float64 is a [spec_float] of the Standard Library, and a
    column of type REAL keeps 24 bits of it. *)
From stdpp Require Import base list strings gmap sorting pretty.
From Stdlib Require Import SpecFloat.
From S2P Require Import Prelude Streaks.

Local Open Scope string_scope.
Local Open Scope Z_scope.

(** ** Floating-point numbers *)

Abbreviation float64 := spec_float.

Definition f_mul : float64 -> float64 -> float64 := SFmul 53 1024.
Definition f_div : float64 -> float64 -> float64 := SFdiv 53 1024.
Definition f_add : float64 -> float64 -> float64 := SFadd 53 1024.
Definition f_of_int (z : Z) : float64 := binary_normalize 53 1024 z 0 false.

Definition signed (s : bool) (m : positive) : Z := if s then Zneg m else Zpos m.

(** Conversion to float32 and back, which is what a REAL column keeps. *)
Definition real (x : float64) : float64 :=
  match x with
  | S754_finite s m e =>
      match binary_normalize 24 128 (signed s m) e s with
      | S754_finite s' m' e' => binary_normalize 53 1024 (signed s' m') e' s'
      | y => y
      end
  | _ => x
  end.

(** Conversion to int64.  Go leaves the result open when the value does not
    fit; this is what an amd64 processor gives. *)
Definition f_to_int (x : float64) : Z :=
  match x with
  | S754_finite s m e =>
      let z := (if s then -1 else 1) *
               (if 0 <=? e then Zpos m * 2 ^ e else Zpos m / 2 ^ (- e)) in
      if (- 2 ^ 63 <=? z) && (z <? 2 ^ 63) then z else - 2 ^ 63
  | S754_zero _ => 0
  | _ => - 2 ^ 63
  end.

(** PostgreSQL's comparison, for which NaN equals itself. *)
Definition pg_eqb (x y : float64) : bool :=
  match x, y with S754_nan, S754_nan => true | _, _ => SFeqb x y end.

(** fmt's verb %.0f: the nearest integer, the even one of two. *)
Definition nearest_even (m e : Z) : Z :=
  if 0 <=? e then m * 2 ^ e else
  let q := m / 2 ^ (- e) in
  match 2 * (m mod 2 ^ (- e)) ?= 2 ^ (- e) with
  | Lt => q
  | Gt => q + 1
  | Eq => if Z.even q then q else q + 1
  end.

Definition fmt_f0 (x : float64) : string :=
  match x with
  | S754_nan => "NaN"
  | S754_infinity s => if s then "-Inf" else "+Inf"
  | S754_zero s => if s then "-0" else "0"
  | S754_finite s m e => (if s then "-" else "") ++ pretty (nearest_even (Zpos m) e)
  end.

Definition Second : Z := 1000000000.
Definition Minute : Z := 60 * Second.
Definition timestamptz (t : Z) : Z := t / 1000 * 1000.

(** Duration.Seconds of a duration that is not negative. *)
Definition Seconds (d : Z) : float64 :=
  f_add (f_of_int (d / Second)) (f_div (f_of_int (d mod Second)) (f_of_int Second)).

(** ** Rows *)

Record AlertRule := {
  rule_id : Z;
  rule_name : string;
  rule_description : string;
  rule_category : string;
  rule_metric : string;
  DefaultOperator : string;
  DefaultThreshold : float64;
  DefaultSeverity : string;
  DefaultEnabled : bool;
  RequiredExtension : option string;
}.

(** A row of alert_thresholds; the schema ties the ids to the scope. *)
Record AlertThreshold := {
  th_scope : string;
  th_rule : Z;
  th_connection : option Z;
  th_cluster : option Z;
  th_group : option Z;
  th_database : option string;
  th_operator : string;
  th_threshold : float64;
  th_severity : string;
  th_enabled : bool;
}.

(** An alert.  A [ConnectionID] of 0 stands for none, in which case the
    column is NULL. *)
Record Alert := {
  ID : Z;
  AlertType : string;
  RuleID : option Z;
  ConnectionID : Z;
  DatabaseName : option string;
  ObjectName : option string;
  ProbeName : option string;
  MetricName : option string;
  MetricValue : option float64;
  ThresholdValue : option float64;
  Operator : option string;
  Severity : string;
  Title : string;
  Description : string;
  CorrelationID : option string;
  Status : string;
  TriggeredAt : Z;
  ClearedAt : option Z;
  LastUpdated : option Z;
  AnomalyScore : option float64;
  AnomalyDetails : option string;
}.

(** A row of alerts: the alert and the columns of its AI analysis. *)
Record alert_row := {
  alert_of : Alert;
  ai_analysis : option string;
  ai_analysis_metric_value : option float64;
}.

Record Blackout := {
  bl_scope : string;
  bl_connection : option Z;
  bl_group : option Z;
  bl_cluster : option Z;
  bl_database : option string;
  bl_reason : string;
  StartTime : Z;
  EndTime : Z;
  CreatedBy : string;
  CreatedAt : Z;
}.

Record BlackoutSchedule := {
  sc_scope : string;
  sc_connection : option Z;
  sc_group : option Z;
  sc_cluster : option Z;
  sc_database : option string;
  sc_name : string;
  CronExpression : string;
  DurationMinutes : Z;
  Timezone : string;
  sc_enabled : bool;
}.

(** A row of connections; [deleted] says that deleted_at is set. *)
Record connection := {
  conn_id : Z;
  conn_name : string;
  conn_cluster : option Z;
  is_monitored : bool;
  deleted : bool;
}.

Record cluster := { cluster_id : Z; cluster_group : option Z }.

Record ProbeAvailability := {
  pa_connection : Z;
  pa_probe : string;
  pa_available : bool;
  pa_reason : option string;
  last_collected : option Z;
}.

Record probe_config := {
  pc_name : string;
  pc_scope : string;
  pc_interval : Z;
  pc_enabled : bool;
}.

(** A row of metrics.pg_extension. *)
Record extension_row := { ext_connection : Z; ext_collected : Z; extname : string }.

(** A row that a metric's latest query returns, before it is scanned. *)
Record sql_row := {
  r_connection : Z;
  r_database : option string;
  r_object : option string;
  r_value : float64;
  r_collected : Z;
}.

Record MetricValueRow := {
  mv_connection : Z;
  mv_database : option string;
  mv_object : option string;
  mv_value : float64;
  CollectedAt : Z;
}.

Record ProbeStaleness := {
  ps_connection : Z;
  ps_name : string;
  ps_probe : string;
  CollectionInterval : Z;
  StalenessRatio : float64;
  SinceCollected : Z;
  LastCollected : Z;
  IsAvailable : bool;
  UnavailableReason : option string;
}.

(** The tables.  [latest] is what the latest query of a metric, SQL text over
    the metrics schema, returns. *)
Record datastore := {
  alert_rules : list AlertRule;
  alert_thresholds : list AlertThreshold;
  alerts : list alert_row;
  next_alert : Z;
  acknowledgments : list Z;
  blackouts : list Blackout;
  blackout_schedules : list BlackoutSchedule;
  connections : list connection;
  clusters : list cluster;
  probe_availability : list ProbeAvailability;
  probe_configs : list probe_config;
  pg_extension : list extension_row;
  latest : string -> list sql_row;
}.

Definition set_alerts (d : datastore) (rows : list alert_row) : datastore :=
  {| alert_rules := alert_rules d; alert_thresholds := alert_thresholds d;
     alerts := rows; next_alert := next_alert d;
     acknowledgments := acknowledgments d; blackouts := blackouts d;
     blackout_schedules := blackout_schedules d;
     connections := connections d; clusters := clusters d;
     probe_availability := probe_availability d; probe_configs := probe_configs d;
     pg_extension := pg_extension d; latest := latest d |}.

Definition set_next_alert (d : datastore) (n : Z) : datastore :=
  {| alert_rules := alert_rules d; alert_thresholds := alert_thresholds d;
     alerts := alerts d; next_alert := n;
     acknowledgments := acknowledgments d; blackouts := blackouts d;
     blackout_schedules := blackout_schedules d;
     connections := connections d; clusters := clusters d;
     probe_availability := probe_availability d; probe_configs := probe_configs d;
     pg_extension := pg_extension d; latest := latest d |}.

Definition set_acknowledgments (d : datastore) (l : list Z) : datastore :=
  {| alert_rules := alert_rules d; alert_thresholds := alert_thresholds d;
     alerts := alerts d; next_alert := next_alert d;
     acknowledgments := l; blackouts := blackouts d;
     blackout_schedules := blackout_schedules d;
     connections := connections d; clusters := clusters d;
     probe_availability := probe_availability d; probe_configs := probe_configs d;
     pg_extension := pg_extension d; latest := latest d |}.

Definition set_blackouts (d : datastore) (l : list Blackout) : datastore :=
  {| alert_rules := alert_rules d; alert_thresholds := alert_thresholds d;
     alerts := alerts d; next_alert := next_alert d;
     acknowledgments := acknowledgments d; blackouts := l;
     blackout_schedules := blackout_schedules d;
     connections := connections d; clusters := clusters d;
     probe_availability := probe_availability d; probe_configs := probe_configs d;
     pg_extension := pg_extension d; latest := latest d |}.

(** ** The metric registry (metric_registry.go)

    What the engine reads of an entry: how its rows are scanned, whether a
    missing row is a recovery, and the probe and the window behind it.  The
    SQL itself is run by PostgreSQL. *)

Inductive scanType := scanBasic | scanWithDB | scanWithDBObject.

Record metricQueryConfig := {
  scan : scanType;
  clearWhenAbsent : bool;
  probeName : string;
  absenceWindow : Z;
}.

Definition metricRegistry : list (string * metricQueryConfig) :=
  [("pg_settings.max_connections",
    Build_metricQueryConfig scanBasic false "pg_settings" 0);
   ("connection_utilization_percent",
    Build_metricQueryConfig scanBasic false "pg_stat_activity" 0);
   ("pg_stat_activity.count",
    Build_metricQueryConfig scanBasic false "pg_stat_activity" 0);
   ("pg_stat_replication.replay_lag_seconds",
    Build_metricQueryConfig scanBasic true "pg_stat_replication" (5 * Minute));
   ("pg_stat_replication.lag_bytes",
    Build_metricQueryConfig scanBasic true "pg_stat_replication" (5 * Minute));
   ("pg_replication_slots.retained_bytes",
    Build_metricQueryConfig scanBasic true "pg_replication_slots" (15 * Minute));
   ("pg_replication_slots.inactive",
    Build_metricQueryConfig scanBasic true "pg_replication_slots" (15 * Minute));
   ("pg_replication_slots.inactive_count",
    Build_metricQueryConfig scanBasic true "pg_replication_slots" (15 * Minute));
   ("pg_replication_slots.max_retained_bytes",
    Build_metricQueryConfig scanBasic true "pg_replication_slots" (15 * Minute));
   ("spock_exception_log.recent_count",
    Build_metricQueryConfig scanBasic true "spock_exception_log" (5 * Minute));
   ("spock_resolutions.recent_count",
    Build_metricQueryConfig scanBasic true "spock_resolutions" (5 * Minute));
   ("pg_stat_replication.standby_disconnected",
    Build_metricQueryConfig scanBasic true "pg_stat_replication" (5 * Minute));
   ("pg_node_role.subscription_worker_down",
    Build_metricQueryConfig scanBasic true "pg_node_role" (15 * Minute));
   ("pg_stat_activity.blocked_count",
    Build_metricQueryConfig scanBasic true "pg_stat_activity" (5 * Minute));
   ("pg_stat_activity.idle_in_transaction_seconds",
    Build_metricQueryConfig scanBasic true "pg_stat_activity" (5 * Minute));
   ("pg_stat_activity.max_lock_wait_seconds",
    Build_metricQueryConfig scanBasic true "pg_stat_activity" (5 * Minute));
   ("pg_stat_activity.max_query_duration_seconds",
    Build_metricQueryConfig scanBasic true "pg_stat_activity" (5 * Minute));
   ("pg_stat_activity.max_xact_duration_seconds",
    Build_metricQueryConfig scanBasic true "pg_stat_activity" (5 * Minute));
   ("pg_stat_all_tables.dead_tuple_percent",
    Build_metricQueryConfig scanWithDBObject true "pg_stat_all_tables" (15 * Minute));
   ("pg_stat_archiver.failed_count_delta",
    Build_metricQueryConfig scanBasic false "pg_stat_wal" 0);
   ("pg_stat_checkpointer.checkpoints_req_delta",
    Build_metricQueryConfig scanBasic true "pg_stat_checkpointer" (60 * Minute));
   ("pg_stat_database.cache_hit_ratio",
    Build_metricQueryConfig scanWithDB true "pg_stat_database" (15 * Minute));
   ("pg_stat_database.deadlocks_delta",
    Build_metricQueryConfig scanWithDB false "pg_stat_database" 0);
   ("pg_stat_database.temp_files_delta",
    Build_metricQueryConfig scanWithDB false "pg_stat_database" 0);
   ("pg_stat_statements.slow_query_count",
    Build_metricQueryConfig scanBasic false "pg_stat_statements" 0);
   ("pg_sys_cpu_usage_info.processor_time_percent",
    Build_metricQueryConfig scanBasic false "pg_sys_cpu_usage_info" 0);
   ("pg_sys_disk_info.used_percent",
    Build_metricQueryConfig scanBasic false "pg_sys_disk_info" 0);
   ("pg_sys_load_avg_info.load_avg_fifteen_minutes",
    Build_metricQueryConfig scanBasic false "pg_sys_load_avg_info" 0);
   ("pg_sys_memory_info.used_percent",
    Build_metricQueryConfig scanBasic false "pg_sys_memory_info" 0);
   ("age_percent",
    Build_metricQueryConfig scanBasic false "pg_database" 0);
   ("table_last_autovacuum_hours",
    Build_metricQueryConfig scanWithDBObject true "pg_stat_all_tables" (15 * Minute))].

Definition registry (metric : string) : option metricQueryConfig :=
  snd <$> find (fun e => String.eqb (fst e) metric) metricRegistry.

Definition MetricIsServerWide (metric : string) : bool :=
  match registry metric with
  | Some cfg => match scan cfg with scanBasic => true | _ => false end
  | None => false
  end.

(** A name outside the registry reads as the zero entry. *)
Definition MetricClearsWhenAbsent (metric : string) : bool :=
  match registry metric with Some cfg => clearWhenAbsent cfg | None => false end.
Definition MetricProbeName (metric : string) : string :=
  match registry metric with Some cfg => probeName cfg | None => "" end.
Definition MetricAbsenceWindow (metric : string) : Z :=
  match registry metric with Some cfg => absenceWindow cfg | None => 0 end.

(** ** The engine *)

(** hysteresis.go: the key of a stream of samples. *)
Record thresholdSampleKey := {
  k_rule : Z;
  k_connection : Z;
  k_database : string;
  hasDatabase : bool;
}.

#[export] Instance thresholdSampleKey_eq_dec : EqDecision thresholdSampleKey.
Proof. solve_decision. Defined.

#[export] Instance thresholdSampleKey_countable : Countable thresholdSampleKey.
Proof.
  refine (inj_countable'
    (fun k => (k_rule k, k_connection k, k_database k, hasDatabase k))
    (fun '(r, c, s, h) => Build_thresholdSampleKey r c s h) _).
  by intros [].
Defined.

Inductive NotificationType := AlertFire | AlertClear.

(** What the engine does, in order.  [Asked] is a query with its number and
    the tables it found. *)
Inductive event :=
| Asked (query : string) (n : nat) (d : datastore)
| OnTrigger (op : streak_op thresholdSampleKey)
| OnClear (op : streak_op Z)
| Raised (a : Alert)
| Updated (id : Z) (value threshold : float64) (operator severity : string)
| Reactivated (id : Z)
| Described (id : Z) (text : string)
| Cleared (id : Z)
| Queued (a : Alert) (t : NotificationType)
| BlackedOut (b : Blackout)
| Deleted (ids : list Z).

Record engine := {
  db : datastore;
  triggerStreaks : sampleStreaks thresholdSampleKey;
  clearStreaks : sampleStreaks Z;
  steps : nat;
  log : list event;
}.

(** threshold.trigger_count and threshold.clear_count. *)
Record Config := { TriggerCount : Z; ClearCount : Z }.

(** ** The surroundings

    [n] is the number of the step.  [fails n q]: query [q] fails; [lands n]:
    a write that reports a failure took effect; [cancelled n]: the context is
    done; [now] and [db_now]: the clocks of the alerter and of PostgreSQL;
    [submits n]: the worker pool takes a notification; [getConfig n]: the
    configuration, which may be reloaded.  [epoch] and [epoch_ratio] are
    PostgreSQL's EXTRACT(EPOCH FROM ...) of an interval, as it is and divided
    by a number of seconds. *)
Class World := {
  fails : nat -> string -> bool;
  lands : nat -> bool;
  cancelled : nat -> bool;
  now : nat -> Z;
  db_now : nat -> Z;
  submits : nat -> bool;
  others : nat -> datastore -> datastore;
  getConfig : nat -> option Config;
  epoch : Z -> float64;
  epoch_ratio : Z -> Z -> float64;
}.

Inductive db_error :=
| QueryFailed
| ErrNoRows
| ErrMetricNotSupported
| ErrNoMetricData.

Definition M (A : Type) : Type := engine -> A * engine.
Definition ret {A} (a : A) : M A := fun e => (a, e).
Definition bind {A B} (m : M A) (k : A -> M B) : M B :=
  fun e => let '(a, e') := m e in k a e'.

Declare Scope engine_scope.
Delimit Scope engine_scope with engine.
Notation "'let*' x ':=' m 'in' k" := (bind m (fun x => k))
  (at level 10, x pattern, m at level 100, k at level 200,
   format "'[v' 'let*'  x  ':='  m  'in' '/' k ']'") : engine_scope.
Local Open Scope engine_scope.

(** A [for] loop over a slice whose body may leave it ([false]). *)
Fixpoint for_each {A} (l : list A) (body : A -> M bool) : M bool :=
  match l with
  | [] => ret true
  | x :: l =>
      let* go := body x in
      if go then for_each l body else ret false
  end.

Section Steps.
Context `{World}.

(** The next step: others have acted, then the query reads the tables. *)
Definition begin_step (q : string) (e : engine) : nat * engine :=
  let n := steps e in
  let d := others n (db e) in
  (n, {| db := d; triggerStreaks := triggerStreaks e;
         clearStreaks := clearStreaks e; steps := S n;
         log := log e ++ [Asked q n d] |}).

Definition query {A} (q : string) (f : nat -> datastore -> res db_error A)
    : M (res db_error A) := fun e =>
  let '(n, e) := begin_step q e in
  (if fails n q then Err QueryFailed else f n (db e), e).

Definition written (e : engine) (d : datastore) (evs : list event) : engine :=
  {| db := d; triggerStreaks := triggerStreaks e; clearStreaks := clearStreaks e;
     steps := steps e; log := log e ++ evs |}.

(** [f] gives the result, the tables after the write and what was done. *)
Definition exec {A} (q : string) (f : nat -> datastore -> A * datastore * list event)
    : M (res db_error A) := fun e =>
  let '(n, e) := begin_step q e in
  let '(a, d, evs) := f n (db e) in
  if fails n q
  then (Err QueryFailed, if lands n then written e d evs else e)
  else (Ok a, written e d evs).

(** Reads of the context, the clock and the configuration. *)
Definition tick {A} (f : nat -> A) : M A := fun e =>
  (f (steps e), {| db := db e; triggerStreaks := triggerStreaks e;
                   clearStreaks := clearStreaks e; steps := S (steps e); log := log e |}).

Definition ctx_done : M bool := tick cancelled.
Definition time_now : M Z := tick now.

(** notifications.go.  Without a pool, or when its queue is full, nothing is
    queued. *)
Definition queueNotification (a : Alert) (t : NotificationType) : M unit := fun e =>
  let n := steps e in
  (tt, {| db := db e; triggerStreaks := triggerStreaks e;
          clearStreaks := clearStreaks e; steps := S n;
          log := if submits n then log e ++ [Queued a t] else log e |}).

(** The two sets of counters. *)
Definition on_trigger {A} (f : sampleStreaks thresholdSampleKey ->
      A * sampleStreaks thresholdSampleKey) (op : streak_op thresholdSampleKey) : M A :=
  fun e => let '(a, s) := f (triggerStreaks e) in
    (a, {| db := db e; triggerStreaks := s; clearStreaks := clearStreaks e;
           steps := steps e; log := log e ++ [OnTrigger op] |}).

Definition on_clear {A} (f : sampleStreaks Z -> A * sampleStreaks Z)
    (op : streak_op Z) : M A :=
  fun e => let '(a, s) := f (clearStreaks e) in
    (a, {| db := db e; triggerStreaks := triggerStreaks e; clearStreaks := s;
           steps := steps e; log := log e ++ [OnClear op] |}).

Definition trigger_startPass : M unit :=
  on_trigger (fun s => (tt, startPass s)) PassStarted.
Definition trigger_observe (key : thresholdSampleKey) (sampled : Z) (holds : bool) : M Z :=
  on_trigger (fun s => let '(s', n) := observe s key sampled holds in (n, s'))
    (Judged key sampled holds).
Definition trigger_sweep (keep : thresholdSampleKey -> bool) : M unit :=
  on_trigger (fun s => (tt, sweep s (Some keep))) (Swept (Some keep)).
Definition clear_observe (id : Z) (sampled : Z) (holds : bool) : M Z :=
  on_clear (fun s => let '(s', n) := observe s id sampled holds in (n, s'))
    (Judged id sampled holds).
Definition clear_retain (keep : Z -> bool) : M unit :=
  on_clear (fun s => (tt, retain s keep)) (Retained keep).
End Steps.

(** ** Queries *)

Definition same (a b : option string) : bool := bool_decide (a = b).

Definition is_open (a : Alert) : bool :=
  String.eqb (Status a) "active" || String.eqb (Status a) "acknowledged".

(** A column that is NULL equals nothing. *)
Definition on_connection (a : Alert) (c : Z) : bool :=
  negb (c =? 0) && (ConnectionID a =? c).

Definition of_rule (a : Alert) (rule : Z) : bool := bool_decide (RuleID a = Some rule).

Definition IsSystem (a : Alert) : bool := String.eqb (AlertType a) "system".

(** LIMIT 1 without an order returns any of the rows; this is the first. *)
Definition active_threshold_alert (d : datastore) (rule c : Z) (dbName : option string)
    : option Alert :=
  alert_of <$> find (fun r => let a := alert_of r in
    of_rule a rule && on_connection a c && is_open a && same (DatabaseName a) dbName)
    (alerts d).

Definition active_probe_alert (d : datastore) (rule c : Z) (probe : string)
    : option Alert :=
  alert_of <$> find (fun r => let a := alert_of r in
    of_rule a rule && on_connection a c && same (ProbeName a) (Some probe) && is_open a)
    (alerts d).

(** Cleared after [since]. *)
Definition cleared_after (a : Alert) (since : Z) : bool :=
  String.eqb (Status a) "cleared" &&
  match ClearedAt a with Some t => since <? t | None => false end.

(** The cooldown is sent as a whole number of seconds. *)
Definition interval (cooldown : Z) : Z := cooldown / Second * Second.

Definition recently_cleared (d : datastore) (t rule c : Z) (dbName : option string)
    (cooldown : Z) : bool :=
  existsb (fun r => let a := alert_of r in
    of_rule a rule && on_connection a c && cleared_after a (t - interval cooldown) &&
    same (DatabaseName a) dbName) (alerts d).

Definition recently_cleared_probe (d : datastore) (t rule c : Z) (probe : string)
    (cooldown : Z) : bool :=
  existsb (fun r => let a := alert_of r in
    of_rule a rule && on_connection a c && same (ProbeName a) (Some probe) &&
    cleared_after a (t - interval cooldown)) (alerts d).

Definition with_values (a : Alert) (value threshold : float64)
    (operator severity : string) (t : Z) : Alert :=
  {| ID := ID a; AlertType := AlertType a; RuleID := RuleID a;
     ConnectionID := ConnectionID a; DatabaseName := DatabaseName a;
     ObjectName := ObjectName a; ProbeName := ProbeName a; MetricName := MetricName a;
     MetricValue := Some value; ThresholdValue := Some threshold;
     Operator := Some operator; Severity := severity; Title := Title a;
     Description := Description a; CorrelationID := CorrelationID a; Status := Status a;
     TriggeredAt := TriggeredAt a; ClearedAt := ClearedAt a; LastUpdated := Some t;
     AnomalyScore := AnomalyScore a; AnomalyDetails := AnomalyDetails a |}.

(** A new status, description or time of clearing; [None] keeps the field. *)
Definition with_state (a : Alert) (severity status description : option string)
    (cleared updated : option Z) : Alert :=
  {| ID := ID a; AlertType := AlertType a; RuleID := RuleID a;
     ConnectionID := ConnectionID a; DatabaseName := DatabaseName a;
     ObjectName := ObjectName a; ProbeName := ProbeName a; MetricName := MetricName a;
     MetricValue := MetricValue a; ThresholdValue := ThresholdValue a;
     Operator := Operator a; Severity := default (Severity a) severity; Title := Title a;
     Description := default (Description a) description;
     CorrelationID := CorrelationID a; Status := default (Status a) status;
     TriggeredAt := TriggeredAt a;
     ClearedAt := match cleared with Some t => Some t | None => ClearedAt a end;
     LastUpdated := match updated with Some t => Some t | None => LastUpdated a end;
     AnomalyScore := AnomalyScore a; AnomalyDetails := AnomalyDetails a |}.

(** The row an INSERT makes of an alert. *)
Definition new_row (id : Z) (a : Alert) : alert_row :=
  {| alert_of :=
       {| ID := id; AlertType := AlertType a; RuleID := RuleID a;
          ConnectionID := ConnectionID a; DatabaseName := DatabaseName a;
          ObjectName := ObjectName a; ProbeName := ProbeName a; MetricName := MetricName a;
          MetricValue := real <$> MetricValue a; ThresholdValue := real <$> ThresholdValue a;
          Operator := Operator a; Severity := Severity a; Title := Title a;
          Description := Description a; CorrelationID := CorrelationID a;
          Status := Status a; TriggeredAt := timestamptz (TriggeredAt a);
          ClearedAt := None; LastUpdated := None;
          AnomalyScore := real <$> AnomalyScore a; AnomalyDetails := AnomalyDetails a |};
     ai_analysis := None; ai_analysis_metric_value := None |}.

Definition with_id (a : Alert) (id : Z) : Alert :=
  {| ID := id; AlertType := AlertType a; RuleID := RuleID a;
     ConnectionID := ConnectionID a; DatabaseName := DatabaseName a;
     ObjectName := ObjectName a; ProbeName := ProbeName a; MetricName := MetricName a;
     MetricValue := MetricValue a; ThresholdValue := ThresholdValue a;
     Operator := Operator a; Severity := Severity a; Title := Title a;
     Description := Description a; CorrelationID := CorrelationID a; Status := Status a;
     TriggeredAt := TriggeredAt a; ClearedAt := ClearedAt a; LastUpdated := LastUpdated a;
     AnomalyScore := AnomalyScore a; AnomalyDetails := AnomalyDetails a |}.

(** Change the alert of every row that [p] selects. *)
Definition update_alerts (d : datastore) (p : Alert -> bool) (f : Alert -> Alert)
    : datastore :=
  set_alerts d (map (fun r => if p (alert_of r)
    then {| alert_of := f (alert_of r); ai_analysis := ai_analysis r;
            ai_analysis_metric_value := ai_analysis_metric_value r |}
    else r) (alerts d)).

Definition has_id (id : Z) (a : Alert) : bool := ID a =? id.

(** An UPDATE of the values drops an AI analysis made for another value. *)
Definition update_values (d : datastore) (id : Z) (value threshold : float64)
    (operator severity : string) (t : Z) : datastore :=
  set_alerts d (map (fun r => if has_id id (alert_of r) then
      let changed := match MetricValue (alert_of r) with
                     | Some v => negb (pg_eqb v (real value))
                     | None => true
                     end in
      {| alert_of := with_values (alert_of r) (real value) (real threshold) operator severity t;
         ai_analysis := if changed then None else ai_analysis r;
         ai_analysis_metric_value :=
           if changed then None else ai_analysis_metric_value r |}
    else r) (alerts d)).

Definition insert_alert (d : datastore) (a : Alert) : datastore :=
  set_next_alert (set_alerts d (alerts d ++ [new_row (next_alert d) a])) (next_alert d + 1).

(** The cluster of a connection and the group of that cluster. *)
Definition cluster_of (d : datastore) (c : Z) : option Z :=
  find (fun r => conn_id r =? c) (connections d) ≫= conn_cluster.

Definition group_of (d : datastore) (c : Z) : option Z :=
  cl ← cluster_of d c;
  find (fun r => cluster_id r =? cl) (clusters d) ≫= cluster_group.

(** An id column equals an id that may be missing. *)
Definition id_eqb (column value : option Z) : bool :=
  match column, value with Some a, Some b => a =? b | _, _ => false end.

Definition settings (r : AlertThreshold) : float64 * string * string * bool :=
  (th_threshold r, th_operator r, th_severity r, th_enabled r).

(** The override that names the database comes before the one that does not. *)
Definition server_override (d : datastore) (rule c : Z) (dbName : option string)
    : option AlertThreshold :=
  let rows := List.filter (fun r =>
    String.eqb (th_scope r) "server" && (th_rule r =? rule) &&
    id_eqb (th_connection r) (Some c) &&
    (same (th_database r) dbName || same (th_database r) None)) (alert_thresholds d) in
  match find (fun r => negb (same (th_database r) None)) rows with
  | Some r => Some r
  | None => head rows
  end.

Definition cluster_override (d : datastore) (rule c : Z) : option AlertThreshold :=
  find (fun r => String.eqb (th_scope r) "cluster" && (th_rule r =? rule) &&
                 id_eqb (th_cluster r) (cluster_of d c)) (alert_thresholds d).

Definition group_override (d : datastore) (rule c : Z) : option AlertThreshold :=
  find (fun r => String.eqb (th_scope r) "group" && (th_rule r =? rule) &&
                 id_eqb (th_group r) (group_of d c)) (alert_thresholds d).

Definition rule_by_id (d : datastore) (id : Z) : option AlertRule :=
  find (fun r => rule_id r =? id) (alert_rules d).

(** Does blackout [b] apply to a connection and database at time [t]? *)
Definition blackout_applies (d : datastore) (t : Z) (c : option Z)
    (dbName : option string) (b : Blackout) : bool :=
  (StartTime b <=? t) && (t <=? EndTime b) &&
  (String.eqb (bl_scope b) "estate"
   || (String.eqb (bl_scope b) "group" && id_eqb (bl_group b) (c ≫= group_of d))
   || (String.eqb (bl_scope b) "cluster" && id_eqb (bl_cluster b) (c ≫= cluster_of d))
   || (String.eqb (bl_scope b) "server"
       && (bool_decide (bl_connection b = None) || id_eqb (bl_connection b) c)
       && (same (bl_database b) None
           || match dbName with Some n => same (bl_database b) (Some n) | None => false end))).

Definition blackout_active (d : datastore) (t : Z) (c : option Z)
    (dbName : option string) : bool :=
  existsb (blackout_applies d t c dbName) (blackouts d).

(** The connections whose newest pg_extension snapshot lists [ext]. *)
Definition newest_snapshot (d : datastore) (c : Z) : option Z :=
  foldr (fun r acc => if ext_connection r =? c
                      then Some (match acc with Some t => Z.max t (ext_collected r)
                                 | None => ext_collected r end)
                      else acc) None (pg_extension d).

Definition connections_with_extension (d : datastore) (ext : string) : list Z :=
  map ext_connection (List.filter (fun r =>
    String.eqb (extname r) ext &&
    bool_decide (newest_snapshot d (ext_connection r) = Some (ext_collected r)))
    (pg_extension d)).

Definition unmonitored_connections (d : datastore) : gmap Z string :=
  foldl (fun m r => if negb (is_monitored r) && negb (deleted r)
                    then <[conn_id r := conn_name r]> m else m) ∅ (connections d).

Definition scan_row (s : scanType) (r : sql_row) : option MetricValueRow :=
  let row dbName object :=
    {| mv_connection := r_connection r; mv_database := dbName; mv_object := object;
       mv_value := r_value r; CollectedAt := r_collected r |} in
  match s with
  | scanBasic => Some (row None None)
  | scanWithDB => n ← r_database r; Some (row (Some n) None)
  | scanWithDBObject => n ← r_database r; o ← r_object r; Some (row (Some n) (Some o))
  end.

Definition scan_rows (s : scanType) (rows : list sql_row) : res db_error (list MetricValueRow) :=
  match mapM (scan_row s) rows with
  | Some l => Ok l
  | None => Err QueryFailed
  end.

Definition found {A} (o : option A) : res db_error A :=
  match o with Some a => Ok a | None => Err ErrNoRows end.

(** ** The datastore's methods *)

Section Datastore.
Context `{World}.

(** The orders in which rows are read, text as in the C collation. *)
Definition rule_before (a b : AlertRule) : bool :=
  if String.eqb (rule_category a) (rule_category b)
  then String.leb (rule_name a) (rule_name b)
  else String.leb (rule_category a) (rule_category b).

Definition newer (a b : Alert) : bool := TriggeredAt b <=? TriggeredAt a.

Definition schedule_before (a b : BlackoutSchedule) : bool :=
  String.leb (sc_name a) (sc_name b).

Definition GetEnabledAlertRules : M (res db_error (list AlertRule)) :=
  query "GetEnabledAlertRules" (fun _ d =>
    Ok (merge_sort (fun a b => rule_before a b) (List.filter DefaultEnabled (alert_rules d)))).

Definition GetActiveThresholdAlert (rule c : Z) (dbName : option string)
    : M (res db_error (option Alert)) :=
  query "GetActiveThresholdAlert" (fun _ d => Ok (active_threshold_alert d rule c dbName)).

Definition GetActiveThresholdAlertForProbe (rule c : Z) (probe : string)
    : M (res db_error (option Alert)) :=
  query "GetActiveThresholdAlertForProbe" (fun _ d => Ok (active_probe_alert d rule c probe)).

Definition GetRecentlyClearedAlert (rule c : Z) (dbName : option string) (cooldown : Z)
    : M (res db_error bool) :=
  query "GetRecentlyClearedAlert" (fun n d =>
    Ok (recently_cleared d (db_now n) rule c dbName cooldown)).

Definition GetRecentlyClearedAlertForProbe (rule c : Z) (probe : string) (cooldown : Z)
    : M (res db_error bool) :=
  query "GetRecentlyClearedAlertForProbe" (fun n d =>
    Ok (recently_cleared_probe d (db_now n) rule c probe cooldown)).

Definition UpdateAlertValues (id : Z) (value threshold : float64)
    (operator severity : string) : M (res db_error unit) :=
  exec "UpdateAlertValues" (fun n d =>
    (tt, update_values d id value threshold operator severity (timestamptz (now n)),
     [Updated id value threshold operator severity])).

(** Returns the alert with the id of its row. *)
Definition CreateAlert (a : Alert) : M (res db_error Alert) :=
  exec "CreateAlert" (fun _ d =>
    let a := with_id a (next_alert d) in (a, insert_alert d a, [Raised a])).

Definition GetActiveAlerts : M (res db_error (list Alert)) :=
  query "GetActiveAlerts" (fun _ d =>
    Ok (merge_sort (fun a b => newer a b)
         (List.filter (fun a => String.eqb (Status a) "active") (map alert_of (alerts d))))).

Definition ClearAlert (id : Z) : M (res db_error unit) :=
  exec "ClearAlert" (fun n d =>
    (tt, update_alerts d (has_id id) (fun a =>
           with_state a None (Some "cleared") None (Some (timestamptz (now n))) None),
     [Cleared id])).

(** One transaction: the acknowledgments go only with an alert that was
    acknowledged. *)
Definition acknowledged_row (id : Z) (a : Alert) : bool :=
  has_id id a && String.eqb (Status a) "acknowledged".

Definition ReactivateAlert (id : Z) : M (res db_error unit) :=
  exec "ReactivateAlert" (fun n d =>
    if existsb (fun r => acknowledged_row id (alert_of r)) (alerts d)
    then (tt, set_acknowledgments
                (update_alerts d (acknowledged_row id) (fun a =>
                   with_state a None (Some "active") None None (Some (timestamptz (now n)))))
                (List.filter (fun i => negb (i =? id)) (acknowledgments d)),
          [Reactivated id])
    else (tt, d, [])).

Definition UpdateAlertDescription (id : Z) (text : string) : M (res db_error unit) :=
  exec "UpdateAlertDescription" (fun n d =>
    (tt, update_alerts d (has_id id) (fun a =>
           with_state a None None (Some text) None (Some (timestamptz (db_now n)))),
     [Described id text])).

(** Each level is tried in turn; one whose query fails is passed over. *)
Definition threshold_query (f : datastore -> option AlertThreshold)
    : M (res db_error (float64 * string * string * bool)) :=
  query "GetEffectiveThreshold" (fun _ d => found (settings <$> f d)).

Definition GetEffectiveThreshold (rule c : Z) (dbName : option string)
    : M (float64 * string * string * bool) :=
  let* r := threshold_query (fun d => server_override d rule c dbName) in
  match r with Ok s => ret s | Err _ =>
  let* r := threshold_query (fun d => cluster_override d rule c) in
  match r with Ok s => ret s | Err _ =>
  let* r := threshold_query (fun d => group_override d rule c) in
  match r with Ok s => ret s | Err _ =>
  let* r := query "GetEffectiveThreshold" (fun _ d =>
    found ((fun r => (DefaultThreshold r, DefaultOperator r, DefaultSeverity r,
                      DefaultEnabled r)) <$> rule_by_id d rule)) in
  match r with
  | Ok s => ret s
  | Err _ => ret (S754_zero false, "", "", false)
  end end end end.

Definition IsBlackoutActive (c : option Z) (dbName : option string)
    : M (res db_error bool) :=
  query "IsBlackoutActive" (fun n d => Ok (blackout_active d (now n) c dbName)).

Definition GetAlertRuleByName (name : string) : M (res db_error AlertRule) :=
  query "GetAlertRuleByName" (fun _ d =>
    found (find (fun r => String.eqb (rule_name r) name) (alert_rules d))).

Definition GetAlertRuleByID (id : Z) : M (res db_error AlertRule) :=
  query "GetAlertRuleByID" (fun _ d => found (rule_by_id d id)).

Definition GetConnectionsWithExtension (ext : string) : M (res db_error (list Z)) :=
  query "GetConnectionsWithExtension" (fun _ d => Ok (connections_with_extension d ext)).

Definition GetUnmonitoredConnections : M (res db_error (gmap Z string)) :=
  query "GetUnmonitoredConnections" (fun _ d => Ok (unmonitored_connections d)).

(** The join of the probes that have collected with their global
    configuration and their connection. *)
Definition staleness_rows (d : datastore) (t : Z) : list ProbeStaleness :=
  pa ← probe_availability d;
  pc ← probe_configs d;
  c ← connections d;
  match last_collected pa with
  | Some collected =>
      if String.eqb (pc_name pc) (pa_probe pa) && String.eqb (pc_scope pc) "global" &&
         (conn_id c =? pa_connection pa) && pc_enabled pc && is_monitored c
      then [{| ps_connection := conn_id c; ps_name := conn_name c;
               ps_probe := pa_probe pa; CollectionInterval := pc_interval pc;
               StalenessRatio := epoch_ratio (t - collected) (pc_interval pc);
               SinceCollected :=
                 f_to_int (f_mul (epoch (t - collected)) (f_of_int Second));
               LastCollected := collected; IsAvailable := pa_available pa;
               UnavailableReason := pa_reason pa |}]
      else []
  | None => []
  end.

Definition GetProbeStalenessByConnection : M (res db_error (list ProbeStaleness)) :=
  query "GetProbeStalenessByConnection" (fun n d => Ok (staleness_rows d (db_now n))).

Definition GetProbeStalenessContext (c : Z) (probe : string)
    : M (res db_error (option (string * Z))) :=
  query "GetProbeStalenessContext" (fun _ d =>
    Ok (r ← find (fun r => (conn_id r =? c) && negb (deleted r)) (connections d);
        pc ← find (fun pc => String.eqb (pc_name pc) probe &&
                             String.eqb (pc_scope pc) "global") (probe_configs d);
        Some (conn_name r, pc_interval pc))).

Definition dropDeletedConnections (values : list MetricValueRow)
    : M (res db_error (list MetricValueRow)) :=
  match values with
  | [] => ret (Ok values)
  | _ =>
    query "dropDeletedConnections" (fun _ d =>
      let gone := map conn_id (List.filter deleted (connections d)) in
      Ok (List.filter (fun v => negb (bool_decide (mv_connection v ∈ gone))) values))
  end.

Definition GetLatestMetricValues (metric : string)
    : M (res db_error (list MetricValueRow)) :=
  match registry metric with
  | None => ret (Err ErrMetricNotSupported)
  | Some cfg =>
      let* results := query "GetLatestMetricValues" (fun _ d =>
        scan_rows (scan cfg) (latest d metric)) in
      match results with
      | Err err => ret (Err err)
      | Ok results =>
          let* results := dropDeletedConnections results in
          match results with
          | Err err => ret (Err err)
          | Ok [] => ret (Err ErrNoMetricData)
          | Ok results => ret (Ok results)
          end
      end
  end.

Definition GetEnabledBlackoutSchedules : M (res db_error (list BlackoutSchedule)) :=
  query "GetEnabledBlackoutSchedules" (fun _ d =>
    Ok (merge_sort (fun a b => schedule_before a b)
          (List.filter sc_enabled (blackout_schedules d)))).

Definition CreateBlackout (b : Blackout) : M (res db_error unit) :=
  exec "CreateBlackout" (fun _ d =>
    let b := {| bl_scope := bl_scope b; bl_connection := bl_connection b;
                bl_group := bl_group b; bl_cluster := bl_cluster b;
                bl_database := bl_database b; bl_reason := bl_reason b;
                StartTime := timestamptz (StartTime b); EndTime := timestamptz (EndTime b);
                CreatedBy := CreatedBy b; CreatedAt := timestamptz (CreatedAt b) |} in
    (tt, set_blackouts d (blackouts d ++ [b]), [BlackedOut b])).
End Datastore.
