(* ===== verification/Thresholds.v ===== *)
(** * The threshold evaluator
      (alerter/src/internal/engine: thresholds.go, hysteresis.go)

    The pass that compares the latest value of every metric with the
    thresholds, counts breaching samples, and raises, updates and reactivates
    alerts; and the two passes over the probes, for probes that are late and
    for probes that have stopped being available. *)
From stdpp Require Import base list strings gmap.
From Stdlib Require Import SpecFloat.
From S2P Require Import Prelude Streaks AlertDb.

Local Open Scope string_scope.
Local Open Scope Z_scope.
Local Open Scope engine_scope.

Definition AlertCooldownPeriod : Z := 5 * Minute.

Definition metricStalenessRuleName := "metric_staleness".
Definition probeUnavailableRuleName := "probe_unavailable".
Definition probeUnavailableMetricName := "probe_available".
Definition probeUnavailableValue : float64 := S754_zero false.
Definition probeAvailableValue : float64 := f_of_int 1.

(** In Go a comparison with NaN is false, but for [!=]. *)
Definition checkThreshold (value : float64) (operator : string) (threshold : float64)
    : bool :=
  if String.eqb operator ">" then SFltb threshold value
  else if String.eqb operator ">=" then SFleb threshold value
  else if String.eqb operator "<" then SFltb value threshold
  else if String.eqb operator "<=" then SFleb value threshold
  else if String.eqb operator "==" then SFeqb value threshold
  else if String.eqb operator "!=" then negb (SFeqb value threshold)
  else false.

Definition newThresholdSampleKey (rule : Z) (mv : MetricValueRow) : thresholdSampleKey :=
  match mv_database mv with
  | Some name => {| k_rule := rule; k_connection := mv_connection mv;
                    k_database := name; hasDatabase := true |}
  | None => {| k_rule := rule; k_connection := mv_connection mv;
               k_database := ""; hasDatabase := false |}
  end.

Record thresholdViolation := {
  v_value : float64;
  v_threshold : float64;
  v_operator : string;
  v_severity : string;
}.

(** A description never has a hole where the reason should be. *)
Definition unavailableProbeReason (entry : ProbeStaleness) : string :=
  match UnavailableReason entry with
  | Some r => if String.eqb r "" then "no reason recorded" else r
  | None => "no reason recorded"
  end.

Definition stalenessMinutes (collectionInterval : Z) (ratio : float64) : float64 :=
  f_div (f_mul (f_of_int collectionInterval) ratio) (f_of_int 60).

Definition stalenessAlertDescription (probe connectionName : string)
    (elapsedMinutes thresholdMinutes : float64) : string :=
  "The " ++ probe ++ " probe on " ++ connectionName ++ " has not collected data for " ++
  fmt_f0 elapsedMinutes ++ " minutes (threshold: " ++ fmt_f0 thresholdMinutes ++
  " minutes). Dashboards may show outdated data.".

Definition probeUnavailableAlertDescription (probe connectionName reason : string) : string :=
  "The " ++ probe ++ " probe on " ++ connectionName ++
  " was collecting and is no longer available (" ++ reason ++ "). " ++
  "Metric collection for this probe has stopped, so dashboards and " ++
  "alert rules that depend on it cannot be evaluated until it is " ++
  "available again.".

(** The alert of a violated rule, before it has an id. *)
Definition new_alert (rule : AlertRule) (v : thresholdViolation) (c : Z)
    (dbName objectName probe : option string) (title description : string) (t : Z) : Alert :=
  {| ID := 0; AlertType := "threshold"; RuleID := Some (rule_id rule); ConnectionID := c;
     DatabaseName := dbName; ObjectName := objectName; ProbeName := probe;
     MetricName := Some (rule_metric rule); MetricValue := Some (v_value v);
     ThresholdValue := Some (v_threshold v); Operator := Some (v_operator v);
     Severity := v_severity v; Title := title; Description := description;
     CorrelationID := None; Status := "active"; TriggeredAt := t; ClearedAt := None;
     LastUpdated := None; AnomalyScore := None; AnomalyDetails := None |}.

Section Evaluator.
Context `{World}.

Definition thresholdTriggerCount : M Z :=
  tick (fun n => match getConfig n with
                 | Some cfg => if TriggerCount cfg <? 1 then 1 else TriggerCount cfg
                 | None => 1
                 end).

Definition thresholdClearCount : M Z :=
  tick (fun n => match getConfig n with
                 | Some cfg => if ClearCount cfg <? 1 then 1 else ClearCount cfg
                 | None => 1
                 end).

(** [None] is the nil map: no gate. *)
Definition connectionsWithRequiredExtension (rule : AlertRule) : M (option (list Z)) :=
  match RequiredExtension rule with
  | None => ret None
  | Some ext =>
      if String.eqb ext "" then ret None else
      let* withExtension := GetConnectionsWithExtension ext in
      match withExtension with
      | Ok l => ret (Some l)
      | Err _ => ret None
      end
  end.

Definition gated_out (withExtension : option (list Z)) (c : Z) : bool :=
  match withExtension with Some l => negb (bool_decide (c ∈ l)) | None => false end.

(** An open alert takes the new values.  One that was acknowledged at another
    severity becomes active again, with a notification, unless the write of
    the new severity failed. *)
Definition update_existing (existing : Alert) (v : thresholdViolation) : M unit :=
  let needsReactivation :=
    String.eqb (Status existing) "acknowledged" &&
    negb (String.eqb (Severity existing) (v_severity v)) in
  let* updated := UpdateAlertValues (ID existing) (v_value v) (v_threshold v)
                    (v_operator v) (v_severity v) in
  if needsReactivation && is_ok updated then
    let* reactivated := ReactivateAlert (ID existing) in
    match reactivated with
    | Err _ => ret tt
    | Ok _ => queueNotification
                (with_state existing (Some (v_severity v)) (Some "active") None None None)
                AlertFire
    end
  else ret tt.

(** No alert is open: raise one if the breach has lasted and none was cleared
    in the cooldown.  A cooldown that cannot be read does not count. *)
Definition raise_new (rule : AlertRule) (v : thresholdViolation) (c : Z)
    (dbName objectName : option string) (sustained : bool) : M unit :=
  if negb sustained then ret tt else
  let* recentlyClosed :=
    GetRecentlyClearedAlert (rule_id rule) c dbName AlertCooldownPeriod in
  match recentlyClosed with
  | Ok true => ret tt
  | _ =>
      let* t := time_now in
      let* created := CreateAlert
        (new_alert rule v c dbName objectName None (rule_name rule)
           (rule_description rule) t) in
      match created with
      | Err _ => ret tt
      | Ok alert => queueNotification alert AlertFire
      end
  end.

Definition triggerThresholdAlert (rule : AlertRule) (v : thresholdViolation) (c : Z)
    (dbName objectName : option string) (sustained : bool) : M unit :=
  let* existing := GetActiveThresholdAlert (rule_id rule) c dbName in
  match existing with
  | Ok (Some existing) => update_existing existing v
  | _ => raise_new rule v c dbName objectName sustained
  end.

(** A blackout that cannot be read does not count. *)
Definition blacked_out (c : Z) (dbName : option string) : M bool :=
  let* active := IsBlackoutActive (Some c) dbName in
  ret (match active with Ok b => b | Err _ => false end).

(** One value of a metric; [false] when the context is done. *)
Definition evaluate_value (rule : AlertRule) (withExtension : option (list Z))
    (triggerCount : Z) (mv : MetricValueRow) : M bool :=
  let* stop := ctx_done in
  if stop then ret false else
  let c := mv_connection mv in
  if gated_out withExtension c then ret true else
  let* active := blacked_out c (mv_database mv) in
  if active then ret true else
  let* (threshold, operator, severity, enabled) :=
    GetEffectiveThreshold (rule_id rule) c (mv_database mv) in
  if negb enabled then ret true else
  let violated := checkThreshold (mv_value mv) operator threshold in
  let* breaches := trigger_observe (newThresholdSampleKey (rule_id rule) mv)
                     (CollectedAt mv) violated in
  if violated then
    let* _ := triggerThresholdAlert rule
      {| v_value := mv_value mv; v_threshold := threshold; v_operator := operator;
         v_severity := severity |} c (mv_database mv) (mv_object mv)
      (triggerCount <=? breaches) in
    ret true
  else ret true.

(** [false] when the values could not be read. *)
Definition evaluateRuleForAllConnections (rule : AlertRule) : M bool :=
  let* values := GetLatestMetricValues (rule_metric rule) in
  match values with
  | Err ErrNoMetricData => ret true
  | Err _ => ret false
  | Ok values =>
      let* withExtension := connectionsWithRequiredExtension rule in
      let* triggerCount := thresholdTriggerCount in
      let* _ := for_each values (evaluate_value rule withExtension triggerCount) in
      ret true
  end.

(** The ids of the rules whose values could not be read; [None] when the
    context was done before the last rule. *)
Fixpoint evaluate_rules (rules : list AlertRule) (unread : list Z) : M (option (list Z)) :=
  match rules with
  | [] => ret (Some unread)
  | rule :: rules =>
      let* stop := ctx_done in
      if stop then ret None else
      let* read := evaluateRuleForAllConnections rule in
      evaluate_rules rules (if read then unread else rule_id rule :: unread)
  end.

(** The tail of the two probe passes: one alert for each probe, with the
    cooldown; a failed look-up waits for the next pass.  [build] makes the
    alert, with the time at which it is made. *)
Definition raise_for_probe (rule : AlertRule) (v : thresholdViolation) (c : Z)
    (probe : string) (build : M Alert) : M unit :=
  let* existing := GetActiveThresholdAlertForProbe (rule_id rule) c probe in
  match existing with
  | Err _ => ret tt
  | Ok (Some existing) =>
      let* _ := UpdateAlertValues (ID existing) (v_value v) (v_threshold v)
                  (v_operator v) (v_severity v) in
      ret tt
  | Ok None =>
      let* recentlyCleared :=
        GetRecentlyClearedAlertForProbe (rule_id rule) c probe AlertCooldownPeriod in
      match recentlyCleared with
      | Ok true => ret tt
      | _ =>
          let* alert := build in
          let* created := CreateAlert alert in
          match created with
          | Err _ => ret tt
          | Ok alert => queueNotification alert AlertFire
          end
      end
  end.

Definition staleness_entry (rule : AlertRule) (entry : ProbeStaleness) : M bool :=
  let* stop := ctx_done in
  if stop then ret false else
  if negb (IsAvailable entry) then ret true else
  let c := ps_connection entry in
  let* active := blacked_out c None in
  if active then ret true else
  let* (threshold, operator, severity, enabled) :=
    GetEffectiveThreshold (rule_id rule) c None in
  if negb enabled then ret true else
  if checkThreshold (StalenessRatio entry) operator threshold then
    let v := {| v_value := StalenessRatio entry; v_threshold := threshold;
                v_operator := operator; v_severity := severity |} in
    let* t := time_now in
    let alert := new_alert rule v c None None (Some (ps_probe entry))
         ("Stale metrics: " ++ ps_probe entry ++ " on " ++ ps_name entry)
         (stalenessAlertDescription (ps_probe entry) (ps_name entry)
            (stalenessMinutes (CollectionInterval entry) (StalenessRatio entry))
            (stalenessMinutes (CollectionInterval entry) threshold)) t in
    let* _ := raise_for_probe rule v c (ps_probe entry) (ret alert) in
    ret true
  else ret true.

Definition evaluateMetricStaleness (entries : list ProbeStaleness) : M unit :=
  let* rule := GetAlertRuleByName metricStalenessRuleName in
  match rule with
  | Err _ => ret tt
  | Ok rule =>
      if negb (DefaultEnabled rule) then ret tt else
      let* _ := for_each entries (staleness_entry rule) in
      ret tt
  end.

Definition evaluateProbeUnavailableEntry (rule : AlertRule) (entry : ProbeStaleness)
    : M unit :=
  let c := ps_connection entry in
  let* active := blacked_out c None in
  if active then ret tt else
  let* (threshold, operator, severity, enabled) :=
    GetEffectiveThreshold (rule_id rule) c None in
  if negb enabled then ret tt else
  if negb (checkThreshold probeUnavailableValue operator threshold) then ret tt else
  let v := {| v_value := probeUnavailableValue; v_threshold := threshold;
              v_operator := operator; v_severity := severity |} in
  raise_for_probe rule v c (ps_probe entry)
    (let* t := time_now in
     ret (new_alert rule v c None None (Some (ps_probe entry))
       ("Probe unavailable: " ++ ps_probe entry ++ " on " ++ ps_name entry)
       (probeUnavailableAlertDescription (ps_probe entry) (ps_name entry)
          (unavailableProbeReason entry)) t)).

Definition evaluateProbeUnavailable (entries : list ProbeStaleness) : M unit :=
  let* rule := GetAlertRuleByName probeUnavailableRuleName in
  match rule with
  | Err _ => ret tt
  | Ok rule =>
      if negb (DefaultEnabled rule) then ret tt else
      let* _ := for_each entries (fun entry =>
        let* stop := ctx_done in
        if stop then ret false else
        if IsAvailable entry then ret true else
        let* _ := evaluateProbeUnavailableEntry rule entry in
        ret true) in
      ret tt
  end.

Definition evaluateProbeScopedRules : M unit :=
  let* entries := GetProbeStalenessByConnection in
  match entries with
  | Err _ => ret tt
  | Ok entries =>
      let* _ := evaluateMetricStaleness entries in
      evaluateProbeUnavailable entries
  end.

Definition evaluateThresholds : M unit :=
  let* rules := GetEnabledAlertRules in
  match rules with
  | Err _ => ret tt
  | Ok rules =>
      let* _ := trigger_startPass in
      let* unread := evaluate_rules rules [] in
      match unread with
      | None => ret tt
      | Some unread =>
          let* _ := trigger_sweep (fun key => bool_decide (k_rule key ∈ unread)) in
          evaluateProbeScopedRules
      end
  end.
End Evaluator.
