(* ===== verification/Cleaner.v ===== *)
(** * The alert cleaner
      (alerter/src/internal/engine: cleanup.go, hysteresis.go,
      anomaly_recovery.go: probeLastCollected;
      alerter/src/internal/database: queries.go: deleteInBatches)

    The pass that clears alerts whose condition has ended, and the retention
    sweep that deletes old ones. *)
From stdpp Require Import base list strings gmap.
From Stdlib Require Import SpecFloat.
From S2P Require Import Prelude Streaks AlertDb Thresholds.

Local Open Scope string_scope.
Local Open Scope Z_scope.
Local Open Scope engine_scope.

(** ** Texts *)

Definition unmonitoredClearDescriptionPrefix := "Monitoring stopped: ".

Definition unmonitoredClearDescription (connectionName previous : string) : string :=
  unmonitoredClearDescriptionPrefix ++ "monitoring of " ++ connectionName ++
  " was turned off, so this alert was closed " ++
  "without the condition it reports being observed to end. The " ++
  "alert said: " ++ previous.

Definition unavailableProbeDescriptionPrefix := "Collection has stopped: ".

Definition unavailableProbeDescription (entry : ProbeStaleness) (reason : string) : string :=
  unavailableProbeDescriptionPrefix ++
  "the " ++ ps_probe entry ++ " probe on " ++ ps_name entry ++
  " is no longer available (" ++ reason ++ "). " ++
  "Metrics from this probe are neither arriving nor being evaluated, so " ++
  "conditions it reports on cannot be seen. This alert stays active until " ++
  "the probe collects again, or until the probe or connection is disabled.".

Definition databaseScopedClearDescriptionPrefix := "Closed without re-evaluation: ".

Definition databaseScopedClearDescription (metric previous : string) : string :=
  databaseScopedClearDescriptionPrefix ++
  "the metric " ++ metric ++ " is now reported for the whole server rather than " ++
  "per database, so this alert, which names a database, can no longer " ++
  "be evaluated and was closed without the condition it reports being " ++
  "observed to end. The alert said: " ++ previous.

(** ** Absent metrics *)

Inductive absentMetricVerdict :=
| absentMetricClear
| absentMetricNotAbsenceDriven
| absentMetricNoProbe
| absentMetricNoWindow
| absentMetricProbeNotReporting.

Definition about_probe (c : Z) (probe : string) (entry : ProbeStaleness) : bool :=
  (ps_connection entry =? c) && String.eqb (ps_probe entry) probe.

Definition classifyAbsentMetric (clearsWhenAbsent : bool) (probe : string) (window c : Z)
    (entries : list ProbeStaleness) (age : Z) : absentMetricVerdict :=
  if negb clearsWhenAbsent then absentMetricNotAbsenceDriven
  else if String.eqb probe "" then absentMetricNoProbe
  else if window <=? 0 then absentMetricNoWindow
  else match find (about_probe c probe) entries with
       | Some entry =>
           if negb (IsAvailable entry) then absentMetricProbeNotReporting
           else if int64 (SinceCollected entry + age) <=? window then absentMetricClear
           else absentMetricProbeNotReporting
       | None => absentMetricProbeNotReporting
       end.

(** The zero time when there is no entry. *)
Definition zero_time : Z := -62135596800 * Second.

Definition probeLastCollected (entries : list ProbeStaleness) (c : Z) (probe : string) : Z :=
  match find (about_probe c probe) entries with
  | Some entry => LastCollected entry
  | None => zero_time
  end.

Definition currentStalenessRatio (entry : ProbeStaleness) (age : Z) : float64 :=
  if CollectionInterval entry <=? 0 then StalenessRatio entry
  else f_div (Seconds (int64 (SinceCollected entry + age)))
             (f_of_int (CollectionInterval entry)).

(** What a pass has read so far: each snapshot at most once, its failure
    included; the staleness rows with the time just before they were read. *)
Record snapshots := {
  unmonitored : option (res db_error (gmap Z string));
  staleness : option (res db_error (list ProbeStaleness) * Z);
}.

Definition no_snapshots : snapshots := {| unmonitored := None; staleness := None |}.

Section Cleaner.
Context `{World}.

Definition unmonitored_get (s : snapshots) : M (res db_error (gmap Z string) * snapshots) :=
  match unmonitored s with
  | Some r => ret (r, s)
  | None =>
      let* r := GetUnmonitoredConnections in
      ret (r, {| unmonitored := Some r; staleness := staleness s |})
  end.

Definition staleness_get (s : snapshots)
    : M (res db_error (list ProbeStaleness) * snapshots) :=
  match staleness s with
  | Some (r, _) => ret (r, s)
  | None =>
      let* readAt := time_now in
      let* r := GetProbeStalenessByConnection in
      ret (r, {| unmonitored := unmonitored s; staleness := Some (r, readAt) |})
  end.

Definition age (s : snapshots) : M Z :=
  match staleness s with
  | None => ret 0
  | Some (_, readAt) => let* t := time_now in ret (t - readAt)
  end.

(** ** Clearing one alert *)

Definition clearResolvedAlert (alert : Alert) : M unit :=
  let* cleared := ClearAlert (ID alert) in
  match cleared with
  | Err _ => ret tt
  | Ok _ => queueNotification alert AlertClear
  end.

Definition recordViolatingSample (alert : Alert) (sampled : Z) : M unit :=
  let* _ := clear_observe (ID alert) sampled false in ret tt.

Definition recordResolvedSample (alert : Alert) (sampled : Z) : M unit :=
  let* required := thresholdClearCount in
  let* resolved := clear_observe (ID alert) sampled true in
  if resolved <? required then ret tt else clearResolvedAlert alert.

(** The description is changed on the alert only once it is stored. *)
Definition rewrite_description (alert : Alert) (description : string) : M Alert :=
  let* r := UpdateAlertDescription (ID alert) description in
  match r with
  | Err _ => ret alert
  | Ok _ => ret (with_state alert None None (Some description) None None)
  end.

(** Close an alert with a text that says why, without a notification. *)
Definition close_with_reason (alert : Alert) (starts description : string) : M unit :=
  let* alert := if String.prefix starts (Description alert) then ret alert
                else rewrite_description alert description in
  let* _ := ClearAlert (ID alert) in
  ret tt.

Definition clearAlertForUnmonitoredConnection (alert : Alert) (s : snapshots)
    : M (bool * snapshots) :=
  let* (connections, s) := unmonitored_get s in
  match connections with
  | Err _ => ret (false, s)
  | Ok connections =>
      match connections !! ConnectionID alert with
      | None => ret (false, s)
      | Some connectionName =>
          let* _ := close_with_reason alert unmonitoredClearDescriptionPrefix
                      (unmonitoredClearDescription connectionName (Description alert)) in
          ret (true, s)
      end
  end.

Definition retireDatabaseScopedAlert (alert : Alert) (metric : string) : M unit :=
  close_with_reason alert databaseScopedClearDescriptionPrefix
    (databaseScopedClearDescription metric (Description alert)).

Definition resolveAbsentMetric (alert : Alert) (metric : string) (s : snapshots)
    : M snapshots :=
  let clears := MetricClearsWhenAbsent metric in
  let probe := MetricProbeName metric in
  let window := MetricAbsenceWindow metric in
  let* (entries, s) :=
    if clears && negb (String.eqb probe "") && (0 <? window)
    then staleness_get s else ret (Ok [], s) in
  match entries with
  | Err _ => ret s
  | Ok entries =>
      let* age := age s in
      match classifyAbsentMetric clears probe window (ConnectionID alert) entries age with
      | absentMetricClear =>
          let* _ := recordResolvedSample alert
                      (probeLastCollected entries (ConnectionID alert) probe) in
          ret s
      | _ => ret s
      end
  end.

Definition holdStalenessAlertForUnavailableProbe (alert : Alert) (entry : ProbeStaleness)
    : M unit :=
  let description := unavailableProbeDescription entry (unavailableProbeReason entry) in
  if String.eqb description (Description alert) then ret tt else
  let* _ := rewrite_description alert description in
  ret tt.

Definition restoreStalenessAlertDescription (alert : Alert) (threshold : float64)
    (probe connectionName : string) (collectionInterval : Z) (ratio : float64) : M Alert :=
  if negb (String.prefix unavailableProbeDescriptionPrefix (Description alert))
  then ret alert else
  let ratio := default ratio (MetricValue alert) in
  let description := stalenessAlertDescription probe connectionName
    (stalenessMinutes collectionInterval ratio)
    (stalenessMinutes collectionInterval threshold) in
  if String.eqb description (Description alert) then ret alert
  else rewrite_description alert description.

Definition restoreHeldDescriptionBeforeClear (alert : Alert) (threshold : float64)
    (probe : string) : M Alert :=
  if negb (String.prefix unavailableProbeDescriptionPrefix (Description alert))
  then ret alert else
  let* context := GetProbeStalenessContext (ConnectionID alert) probe in
  match context with
  | Ok (Some (connectionName, collectionInterval)) =>
      restoreStalenessAlertDescription alert threshold probe connectionName
        collectionInterval (S754_zero false)
  | _ => ret alert
  end.

Definition checkStalenessAlertResolved (alert : Alert) (probe operator : string)
    (threshold : float64) (s : snapshots) : M snapshots :=
  let* (entries, s) := staleness_get s in
  match entries with
  | Err _ => ret s
  | Ok entries =>
      match find (about_probe (ConnectionID alert) probe) entries with
      | Some entry =>
          if negb (IsAvailable entry) then
            let* _ := holdStalenessAlertForUnavailableProbe alert entry in ret s
          else
            let* age := age s in
            let ratio := currentStalenessRatio entry age in
            let* alert := restoreStalenessAlertDescription alert threshold
              (ps_probe entry) (ps_name entry) (CollectionInterval entry) ratio in
            if checkThreshold ratio operator threshold then ret s
            else let* _ := clearResolvedAlert alert in ret s
      | None =>
          let* alert := restoreHeldDescriptionBeforeClear alert threshold probe in
          let* _ := clearResolvedAlert alert in
          ret s
      end
  end.

Definition checkProbeUnavailableAlertResolved (alert : Alert) (probe : string)
    (s : snapshots) : M snapshots :=
  let* (entries, s) := staleness_get s in
  match entries with
  | Err _ => ret s
  | Ok entries =>
      match find (about_probe (ConnectionID alert) probe) entries with
      | Some entry =>
          if negb (IsAvailable entry) then ret s
          else let* _ := clearResolvedAlert alert in ret s
      | None => let* _ := clearResolvedAlert alert in ret s
      end
  end.

(** Is [mv] the value the alert is about? *)
Definition about_alert (alert : Alert) (mv : MetricValueRow) : bool :=
  (mv_connection mv =? ConnectionID alert) &&
  match DatabaseName alert with
  | Some name => same (mv_database mv) (Some name)
  | None => true
  end.

Definition checkRegistryAlertResolved (alert : Alert) (metric operator : string)
    (threshold : float64) (withExtension : option (list Z)) (s : snapshots) : M snapshots :=
  if gated_out withExtension (ConnectionID alert) then ret s else
  let* values := GetLatestMetricValues metric in
  match values with
  | Err ErrNoMetricData => resolveAbsentMetric alert metric s
  | Err _ => ret s
  | Ok values =>
      match find (about_alert alert) values with
      | None => resolveAbsentMetric alert metric s
      | Some mv =>
          if checkThreshold (mv_value mv) operator threshold
          then let* _ := recordViolatingSample alert (CollectedAt mv) in ret s
          else let* _ := recordResolvedSample alert (CollectedAt mv) in ret s
      end
  end.

Definition checkAlertResolved (alert : Alert) (withExtension : option (list Z))
    (s : snapshots) : M snapshots :=
  match MetricName alert, ThresholdValue alert, Operator alert with
  | Some metric, Some threshold, Some operator =>
      match ProbeName alert with
      | Some probe =>
          if String.eqb metric probeUnavailableMetricName
          then checkProbeUnavailableAlertResolved alert probe s
          else checkStalenessAlertResolved alert probe operator threshold s
      | None =>
          if bool_decide (DatabaseName alert <> None) && MetricIsServerWide metric
          then let* _ := retireDatabaseScopedAlert alert metric in ret s
          else checkRegistryAlertResolved alert metric operator threshold withExtension s
      end
  | _, _, _ => ret s
  end.

(** ** The pass *)

(** The gate of each rule among the alerts, each rule and each extension
    looked up once. *)
Fixpoint resolve_gates (alerts : list Alert) (gates : gmap Z (option (list Z)))
    (byExtension : gmap string (option (list Z))) : M (gmap Z (option (list Z))) :=
  match alerts with
  | [] => ret gates
  | alert :: alerts =>
      match RuleID alert with
      | Some id =>
          if negb (String.eqb (AlertType alert) "threshold") ||
             bool_decide (is_Some (gates !! id))
          then resolve_gates alerts gates byExtension else
          let gates := <[id := None]> gates in
          let* rule := GetAlertRuleByID id in
          match rule with
          | Err _ => resolve_gates alerts gates byExtension
          | Ok rule =>
              match RequiredExtension rule with
              | None => resolve_gates alerts gates byExtension
              | Some ext =>
                  if String.eqb ext "" then resolve_gates alerts gates byExtension else
                  match byExtension !! ext with
                  | Some set => resolve_gates alerts (<[id := set]> gates) byExtension
                  | None =>
                      let* set := connectionsWithRequiredExtension rule in
                      resolve_gates alerts (<[id := set]> gates) (<[ext := set]> byExtension)
                  end
              end
          end
      | None => resolve_gates alerts gates byExtension
      end
  end.

Definition resolveExtensionGates (alerts : list Alert) : M (gmap Z (option (list Z))) :=
  resolve_gates alerts ∅ ∅.

Definition clean_alert (gates : gmap Z (option (list Z))) (alert : Alert) (s : snapshots)
    : M snapshots :=
  if IsSystem alert then ret s else
  let* (claimed, s) := clearAlertForUnmonitoredConnection alert s in
  if claimed then ret s else
  match RuleID alert with
  | Some id =>
      if String.eqb (AlertType alert) "threshold"
      then checkAlertResolved alert (default None (gates !! id)) s
      else ret s
  | None => ret s
  end.

(** [false] when the context is done. *)
Fixpoint clean_alerts (gates : gmap Z (option (list Z))) (alerts : list Alert)
    (s : snapshots) : M bool :=
  match alerts with
  | [] => ret true
  | alert :: alerts =>
      let* stop := ctx_done in
      if stop then ret false else
      let* s := clean_alert gates alert s in
      clean_alerts gates alerts s
  end.

Definition cleanResolvedAlerts : M unit :=
  let* alerts := GetActiveAlerts in
  match alerts with
  | Err _ => ret tt
  | Ok alerts =>
      let* gates := resolveExtensionGates alerts in
      let* finished := clean_alerts gates alerts no_snapshots in
      if finished
      then clear_retain (fun id => bool_decide (id ∈ map ID alerts))
      else ret tt
  end.

(** ** Retention *)

Definition retentionDeleteBatchSize : nat := 1000.

(** COALESCE(cleared_at, triggered_at) < cutoff, for an alert that is
    cleared or acknowledged. *)
Definition retired (cutoff : Z) (a : Alert) : bool :=
  (String.eqb (Status a) "cleared" || String.eqb (Status a) "acknowledged") &&
  (default (TriggeredAt a) (ClearedAt a) <? cutoff).

Definition retired_ids (cutoff : Z) (d : datastore) : list Z :=
  map ID (List.filter (retired cutoff) (map alert_of (alerts d))).

(** One run of the DELETE: the number of rows it removes. *)
Definition delete_batch (cutoff : Z) (batchSize : nat) : M (res db_error nat) :=
  exec "deleteInBatches" (fun _ d =>
    let ids := take batchSize (retired_ids cutoff d) in
    let kept := List.filter (fun r => negb (bool_decide (ID (alert_of r) ∈ ids))) (alerts d) in
    ((length (alerts d) - length kept)%nat, set_alerts d kept, [Deleted ids])).

(** [None]: still deleting after [fuel] batches.  The boolean says whether the
    sweep ended without an error. *)
Fixpoint deleteInBatches (fuel : nat) (cutoff : Z) (batchSize total : nat)
    : M (option (nat * bool)) :=
  match fuel with
  | O => ret None
  | S fuel =>
      let* stop := ctx_done in
      if stop then ret (Some (total, false)) else
      let* result := delete_batch cutoff batchSize in
      match result with
      | Err _ => ret (Some (total, false))
      | Ok O => ret (Some (total, true))
      | Ok n => deleteInBatches fuel cutoff batchSize (total + n)
      end
  end.

Definition DeleteOldAlerts (fuel : nat) (cutoff : Z) : M (option (nat * bool)) :=
  deleteInBatches fuel cutoff retentionDeleteBatchSize 0.
End Cleaner.
