(* ===== verification/AlertLog.v ===== *)
(** * What the alerter may do, and on what grounds

    Each entry of the engine's log is judged against the entries before it:
    [fine] says what must have been read or done before an alert is raised,
    updated or cleared and before a notification is queued.  The predicate
    [wp] and the lemmas on queries and writes are the tools with which the
    passes are shown to write only fine entries. *)
From stdpp Require Import base list strings gmap.
From Stdlib Require Import SpecFloat.
From S2P Require Import Prelude Streaks AlertDb Thresholds Cleaner.

Local Open Scope string_scope.
Local Open Scope Z_scope.
Local Open Scope engine_scope.

(** ** Reading a log *)

(** The last time [q] was asked, and the tables it found. *)
Fixpoint last_asked (q : string) (l : list event) : option (nat * datastore) :=
  match l with
  | [] => None
  | ev :: l =>
      match last_asked q l with
      | Some r => Some r
      | None => match ev with
                | Asked q' n d => if String.eqb q' q then Some (n, d) else None
                | _ => None
                end
      end
  end.

Definition trigger_ops (l : list event) : list (streak_op thresholdSampleKey) :=
  omap (fun ev => match ev with OnTrigger op => Some op | _ => None end) l.

Definition clear_ops (l : list event) : list (streak_op Z) :=
  omap (fun ev => match ev with OnClear op => Some op | _ => None end) l.

Definition alert_key (rule : Z) (a : Alert) : thresholdSampleKey :=
  newThresholdSampleKey rule
    {| mv_connection := ConnectionID a; mv_database := DatabaseName a; mv_object := None;
       mv_value := S754_zero false; CollectedAt := 0 |}.

(** ** The threshold in force

    Which settings a rule has for a connection is said level by level, as the
    tables have it: a row of [alert_thresholds] for the server, for its
    cluster or for the group of its cluster, or the defaults of the rule. *)
Inductive level := ForServer | ForCluster | ForGroup | ForEstate.

Definition levels : list level := [ForServer; ForCluster; ForGroup; ForEstate].

Section Levels.
Context (d : datastore) (rule c : Z) (dbName : option string).

(** [r] overrides the rule for the server, for this database or for all. *)
Definition of_server (r : AlertThreshold) : Prop :=
  r ∈ alert_thresholds d /\ th_scope r = "server" /\ th_rule r = rule /\
  th_connection r = Some c /\ (th_database r = dbName \/ th_database r = None).

Definition of_cluster (r : AlertThreshold) : Prop :=
  exists k, cluster_of d c = Some k /\ r ∈ alert_thresholds d /\
  th_scope r = "cluster" /\ th_rule r = rule /\ th_cluster r = Some k.

Definition of_group (r : AlertThreshold) : Prop :=
  exists k, group_of d c = Some k /\ r ∈ alert_thresholds d /\
  th_scope r = "group" /\ th_rule r = rule /\ th_group r = Some k.

(** The level holds the settings: threshold, operator, severity and whether
    the rule is enabled.  For a server, a row that names the database goes
    before one that names none. *)
Definition set_at (lv : level) (s : float64 * string * string * bool) : Prop :=
  match lv with
  | ForServer => exists r, of_server r /\
      s = (th_threshold r, th_operator r, th_severity r, th_enabled r) /\
      (th_database r = None -> forall r', of_server r' -> th_database r' = None)
  | ForCluster => exists r, of_cluster r /\
      s = (th_threshold r, th_operator r, th_severity r, th_enabled r)
  | ForGroup => exists r, of_group r /\
      s = (th_threshold r, th_operator r, th_severity r, th_enabled r)
  | ForEstate => exists r, r ∈ alert_rules d /\ rule_id r = rule /\
      s = (DefaultThreshold r, DefaultOperator r, DefaultSeverity r, DefaultEnabled r)
  end.

Definition unset_at (lv : level) : Prop :=
  match lv with
  | ForServer => forall r, ~ of_server r
  | ForCluster => forall r, ~ of_cluster r
  | ForGroup => forall r, ~ of_group r
  | ForEstate => forall r, r ∈ alert_rules d -> rule_id r <> rule
  end.
End Levels.

Section Grounds.
Context `{World}.

(** The settings of the first level that answered; a level whose question
    failed is passed over. *)
Inductive effective (rule c : Z) (dbName : option string)
    : list level -> list (nat * datastore) -> float64 * string * string * bool -> Prop :=
| set_here lv lvs n d s :
    fails n "GetEffectiveThreshold" = false -> set_at d rule c dbName lv s ->
    effective rule c dbName (lv :: lvs) [(n, d)] s
| set_below lv lvs n d asked s :
    fails n "GetEffectiveThreshold" = true \/ unset_at d rule c dbName lv ->
    effective rule c dbName lvs asked s ->
    effective rule c dbName (lv :: lvs) ((n, d) :: asked) s.

Definition asked_threshold (nd : nat * datastore) : event :=
  Asked "GetEffectiveThreshold" nd.1 nd.2.

(** The last settings looked up are those of the rule for the connection. *)
Definition in_force (l : list event) (rule c : Z) (dbName : option string)
    (s : float64 * string * string * bool) : Prop :=
  exists l0 asked l1, l = (l0 ++ map asked_threshold asked ++ l1)%list /\
    Forall (fun ev => forall nd, ev <> asked_threshold nd) l1 /\
    effective rule c dbName levels asked s.

(** The last answer to [q] satisfied [P], unless the query failed. *)
Definition answered (q : string) (l : list event) (P : nat -> datastore -> Prop) : Prop :=
  exists n d, last_asked q l = Some (n, d) /\ (fails n q = true \/ P n d).

(** The last answer to [q] was given, and satisfied [P]. *)
Definition told (q : string) (l : list event) (P : nat -> datastore -> Prop) : Prop :=
  exists n d, last_asked q l = Some (n, d) /\ fails n q = false /\ P n d.

Definition no_blackout (l : list event) (c : Z) (dbName : option string) : Prop :=
  answered "IsBlackoutActive" l (fun n d =>
    blackout_active d (now n) (Some c) dbName = false).

(** The configured counts. *)
Definition trigger_count (cfg : option Config) : Z :=
  match cfg with
  | Some cfg => if TriggerCount cfg <? 1 then 1 else TriggerCount cfg
  | None => 1
  end.

Definition clear_count (cfg : option Config) : Z :=
  match cfg with
  | Some cfg => if ClearCount cfg <? 1 then 1 else ClearCount cfg
  | None => 1
  end.

(** [mv] is a row that the metric's query last returned. *)
Definition reported (l : list event) (metric : string) (mv : MetricValueRow) : Prop :=
  told "GetLatestMetricValues" l (fun _ d => exists cfg r,
    registry metric = Some cfg /\ r ∈ latest d metric /\ scan_row (scan cfg) r = Some mv).

(** A rule that the pass found enabled. *)
Definition listed_rule (l : list event) (rule : AlertRule) : Prop :=
  told "GetEnabledAlertRules" l (fun _ d => rule ∈ alert_rules d /\ DefaultEnabled rule = true).

(** The rule, one of the enabled ones, was judged on a reported value of its
    metric with the settings in force for the value's connection and
    database, under which it is enabled. *)
Definition judged_by (l : list event) (rule : AlertRule) (mv : MetricValueRow)
    (t : float64) (op sev : string) : Prop :=
  listed_rule l rule /\ reported l (rule_metric rule) mv /\
  in_force l (rule_id rule) (mv_connection mv) (mv_database mv) (t, op, sev, true).

(** The probe's entry in the last view, and the rule that was looked up by
    name and found enabled. *)
Definition viewed (l : list event) (entry : ProbeStaleness) : Prop :=
  told "GetProbeStalenessByConnection" l (fun n d => entry ∈ staleness_rows d (db_now n)).

Definition named_rule (l : list event) (name : string) (rule : AlertRule) : Prop :=
  told "GetAlertRuleByName" l (fun _ d =>
    rule ∈ alert_rules d /\ rule_name rule = name /\ DefaultEnabled rule = true).

(** What the alert says of the value, the threshold and the operator. *)
Definition says (a : Alert) (v t : float64) (op : string) : Prop :=
  MetricValue a = Some v /\ ThresholdValue a = Some t /\ Operator a = Some op.

(** An alert of a metric: a value that the metric's query reported breaches
    the threshold in force, which gives the severity; the breach was seen on at least [trigger] samples in a row, the connection was not in a
    blackout, no alert of the rule was open and none cleared in the cooldown. *)
Record metric_grounds (trigger : Z) (l : list event) (a : Alert) (rule : Z) : Prop := {
  breach : exists r mv t op, rule_id r = rule /\ judged_by l r mv t op (Severity a) /\
    MetricName a = Some (rule_metric r) /\ ConnectionID a = mv_connection mv /\
    DatabaseName a = mv_database mv /\ ObjectName a = mv_object mv /\
    says a (mv_value mv) t op /\ checkThreshold (mv_value mv) op t = true;
  sustained_breach : Z.of_nat (length l) < 2 ^ 63 ->
    exists samples, sustained (alert_key rule a) (trigger_ops l) samples /\
      trigger <= Z.of_nat (length samples);
  outside_blackout : no_blackout l (ConnectionID a) (DatabaseName a);
  none_open : answered "GetActiveThresholdAlert" l (fun _ d =>
    active_threshold_alert d rule (ConnectionID a) (DatabaseName a) = None);
  cooled_down : answered "GetRecentlyClearedAlert" l (fun n d =>
    recently_cleared d (db_now n) rule (ConnectionID a) (DatabaseName a)
      AlertCooldownPeriod = false);
}.

(** An alert of a probe: the same without samples, on the probe's staleness
    or on its being unavailable; here the look-up of an open alert must not
    have failed. *)
Record probe_grounds (l : list event) (a : Alert) (rule : Z) (probe : string) : Prop := {
  probe_breach : exists r entry v t op, rule_id r = rule /\
    ps_connection entry = ConnectionID a /\ ps_probe entry = probe /\
    viewed l entry /\ MetricName a = Some (rule_metric r) /\
    in_force l rule (ConnectionID a) None (t, op, Severity a, true) /\
    says a v t op /\ checkThreshold v op t = true /\
    (named_rule l "metric_staleness" r /\ IsAvailable entry = true /\
       v = StalenessRatio entry \/
     named_rule l "probe_unavailable" r /\ IsAvailable entry = false /\
       v = probeUnavailableValue);
  probe_outside_blackout : no_blackout l (ConnectionID a) None;
  probe_none_open : told "GetActiveThresholdAlertForProbe" l (fun _ d =>
    active_probe_alert d rule (ConnectionID a) probe = None);
  probe_cooled_down : answered "GetRecentlyClearedAlertForProbe" l (fun n d =>
    recently_cleared_probe d (db_now n) rule (ConnectionID a) probe
      AlertCooldownPeriod = false);
}.

Definition raise_grounds (trigger : Z) (l : list event) (a : Alert) : Prop :=
  exists rule, RuleID a = Some rule /\ Status a = "active" /\
  match ProbeName a with
  | None => metric_grounds trigger l a rule
  | Some probe => DatabaseName a = None /\ probe_grounds l a rule probe
  end.

(** A fire notification: the alert has just been raised, or it has just been
    given its severity and reactivated. *)
Definition fire_grounds (l : list event) (a : Alert) : Prop :=
  Status a = "active" /\
  ((exists l', l = (l' ++ [Raised a])%list) \/
   (exists l' v t op n d re, l = (l' ++ [Updated (ID a) v t op (Severity a);
        Asked "ReactivateAlert" n d] ++ re)%list /\ (re = [] \/ re = [Reactivated (ID a)]))).

(** An update is of an open alert on a connection that is in no blackout. *)
Definition update_grounds (l : list event) (id : Z) : Prop :=
  exists existing dbName, ID existing = id /\
    no_blackout l (ConnectionID existing) dbName /\
    (told "GetActiveThresholdAlert" l (fun _ d => exists rule,
        active_threshold_alert d rule (ConnectionID existing) dbName = Some existing) \/
     told "GetActiveThresholdAlertForProbe" l (fun _ d => exists rule probe,
        active_probe_alert d rule (ConnectionID existing) probe = Some existing)).

(** The time from the reading of the clock just before query [n] to the one
    at the later step [m]. *)
Definition elapsed (n m : nat) : Z := now m - now (pred n).

(** The probe's entry in a view. *)
Definition entry_of (rows : list ProbeStaleness) (c : Z) (probe : string)
    (entry : ProbeStaleness) : Prop :=
  entry ∈ rows /\ ps_connection entry = c /\ ps_probe entry = probe.

(** The condition that an alert of a probe reports is over: the probe is no
    longer in the view, or it is available and, for an alert on staleness, the
    ratio of the time since its last collection to its interval does not
    breach the threshold stored with the alert. *)
Definition probe_over (a : Alert) (probe : string) (n : nat) (rows : list ProbeStaleness)
    : Prop :=
  (forall entry, ~ entry_of rows (ConnectionID a) probe entry) \/
  exists entry, entry_of rows (ConnectionID a) probe entry /\ IsAvailable entry = true /\
    (MetricName a = Some "probe_available" \/
     exists t op m, ThresholdValue a = Some t /\ Operator a = Some op /\ (n < m)%nat /\
       checkThreshold (currentStalenessRatio entry (elapsed n m)) op t = false).

(** An alert that the pass found active is cleared because its connection is
    no longer monitored; or it is about a metric and the condition was absent
    on at least [clear] samples in a row, or it names a database of a metric
    that has none; or it is about a probe whose condition is over. *)
Definition clear_grounds (clear : Z) (l : list event) (id : Z) : Prop :=
  exists a,
    told "GetActiveAlerts" l (fun _ d => a ∈ map alert_of (alerts d) /\ Status a = "active") /\
    ID a = id /\ IsSystem a = false /\
    (told "GetUnmonitoredConnections" l (fun _ d =>
       is_Some (unmonitored_connections d !! ConnectionID a)) \/
     match ProbeName a with
     | None =>
         (exists metric, MetricName a = Some metric /\ DatabaseName a <> None /\
            MetricIsServerWide metric = true) \/
         (Z.of_nat (length l) < 2 ^ 63 ->
          exists samples, sustained id (clear_ops l) samples /\
            clear <= Z.of_nat (length samples))
     | Some probe =>
         told "GetProbeStalenessByConnection" l (fun n d =>
           probe_over a probe n (staleness_rows d (db_now n)))
     end).

(** A breach is judged on a reported value with the threshold in force. *)
Definition breach_grounds (l : list event) (key : thresholdSampleKey) (sampled : Z)
    (holds : bool) : Prop :=
  exists rule mv t op sev, key = newThresholdSampleKey (rule_id rule) mv /\
    judged_by l rule mv t op sev /\ sampled = CollectedAt mv /\
    holds = checkThreshold (mv_value mv) op t.

(** So is a recovery, against the threshold stored with the alert; or, for a
    metric whose rows disappear with the condition, it is judged on a
    collection of its probe inside the window that the query reads. *)
Definition recovery_grounds (l : list event) (id sampled : Z) (holds : bool) : Prop :=
  exists a metric op t,
    told "GetActiveAlerts" l (fun _ d => a ∈ map alert_of (alerts d) /\ Status a = "active") /\
    ID a = id /\ MetricName a = Some metric /\ Operator a = Some op /\
    ThresholdValue a = Some t /\
    ((exists mv, reported l metric mv /\ mv_connection mv = ConnectionID a /\
        (DatabaseName a = None \/ mv_database mv = DatabaseName a) /\
        sampled = CollectedAt mv /\ holds = negb (checkThreshold (mv_value mv) op t)) \/
     (holds = true /\ MetricClearsWhenAbsent metric = true /\
      told "GetProbeStalenessByConnection" l (fun n d => exists entry m,
        entry_of (staleness_rows d (db_now n)) (ConnectionID a) (MetricProbeName metric) entry /\
        IsAvailable entry = true /\ sampled = LastCollected entry /\ (n < m)%nat /\
        int64 (SinceCollected entry + elapsed n m) <= MetricAbsenceWindow metric))).

Context (trigger clear : Z).

Definition fine (l : list event) (ev : event) : Prop :=
  match ev with
  | Raised a => raise_grounds trigger l a
  | Queued a AlertFire => fire_grounds l a
  | Queued a AlertClear => exists l', l = (l' ++ [Cleared (ID a)])%list
  | Updated id _ _ _ _ => update_grounds l id
  | Cleared id => clear_grounds clear l id
  | OnTrigger (Judged key sampled holds) => breach_grounds l key sampled holds
  | OnClear (Judged id sampled holds) => recovery_grounds l id sampled holds
  | _ => True
  end.

Definition all_fine (l : list event) : Prop :=
  forall l1 ev l2, l = (l1 ++ ev :: l2)%list -> fine l1 ev.

(** The engine's counters are those of its log, which is fine. *)
Record sound (e : engine) : Prop := {
  log_fine : all_fine (log e);
  trigger_replayed : triggerStreaks e = replay (trigger_ops (log e));
  clear_replayed : clearStreaks e = replay (clear_ops (log e));
}.

(** ** Logs that grow *)

Lemma last_asked_snoc q l ev :
  last_asked q (l ++ [ev])%list =
  match ev with
  | Asked q' n d => if String.eqb q' q then Some (n, d) else last_asked q l
  | _ => last_asked q l
  end.
Proof.
  induction l as [|x l IH]; cbn.
  - by destruct ev.
  - rewrite IH. destruct ev; try done. by destruct (String.eqb _ _).
Qed.

Lemma trigger_ops_snoc l ev :
  trigger_ops (l ++ [ev])%list =
  (trigger_ops l ++ match ev with OnTrigger op => [op] | _ => [] end)%list.
Proof. unfold trigger_ops. rewrite omap_app. by destruct ev. Qed.

Lemma clear_ops_snoc l ev :
  clear_ops (l ++ [ev])%list =
  (clear_ops l ++ match ev with OnClear op => [op] | _ => [] end)%list.
Proof. unfold clear_ops. rewrite omap_app. by destruct ev. Qed.

Lemma trigger_ops_length l : (length (trigger_ops l) <= length l)%nat.
Proof. unfold trigger_ops. induction l as [|[] l IH]; cbn; lia. Qed.

Lemma clear_ops_length l : (length (clear_ops l) <= length l)%nat.
Proof. unfold clear_ops. induction l as [|[] l IH]; cbn; lia. Qed.

Lemma all_fine_snoc l ev : all_fine l -> fine l ev -> all_fine (l ++ [ev])%list.
Proof.
  intros Hl Hev l1 x l2 Heq.
  apply snoc_split in Heq as [(_ & -> & ->)|(l2' & _ & ->)]; [done|by eapply Hl].
Qed.

(** [e'] is [e] after one more entry, counters moved on with it. *)
Definition logs (ev : event) (e e' : engine) : Prop :=
  log e' = (log e ++ [ev])%list /\
  triggerStreaks e' = match ev with OnTrigger op => apply (triggerStreaks e) op
                      | _ => triggerStreaks e end /\
  clearStreaks e' = match ev with OnClear op => apply (clearStreaks e) op
                    | _ => clearStreaks e end /\
  (steps e <= steps e')%nat.

Lemma sound_logs ev e e' :
  logs ev e e' -> sound e -> fine (log e) ev -> sound e'.
Proof.
  intros (Hl & Ht & Hc & _) [Hf Hst Hsc] Hev. split.
  - rewrite Hl. by apply all_fine_snoc.
  - rewrite Hl, Ht, trigger_ops_snoc, Hst. destruct ev; rewrite ?app_nil_r; try done.
    by rewrite replay_snoc.
  - rewrite Hl, Hc, clear_ops_snoc, Hsc. destruct ev; rewrite ?app_nil_r; try done.
    by rewrite replay_snoc.
Qed.
End Grounds.
