(* ===== verification/AlertWp.v ===== *)
(** * Reasoning about the engine's passes

    [wp m Q e]: run from [e], [m] ends with a result and an engine that
    satisfy [Q].  One lemma for each way of touching the engine; [reads]
    abbreviates runs of queries. *)
From stdpp Require Import base list strings gmap.
From Stdlib Require Import SpecFloat.
From S2P Require Import Prelude Streaks AlertDb Thresholds Cleaner AlertLog.

Local Open Scope string_scope.
Local Open Scope Z_scope.
Local Open Scope engine_scope.

(** [grows] closes the bookkeeping of one step. *)
Ltac grows := cbn; rewrite ?app_nil_r; repeat split; cbn; done || lia.

Definition wp {A} (m : M A) (Q : A -> engine -> Prop) (e : engine) : Prop :=
  Q (fst (m e)) (snd (m e)).

(** Nothing but the step count moves. *)
Definition quiet (e e' : engine) : Prop :=
  log e' = log e /\ triggerStreaks e' = triggerStreaks e /\
  clearStreaks e' = clearStreaks e /\ db e' = db e /\ (steps e <= steps e')%nat.

(** Only queries named in [qs] were asked. *)
Definition reads (qs : list string) (e e' : engine) : Prop :=
  exists evs, log e' = (log e ++ evs)%list /\
    Forall (fun ev => exists q n d, ev = Asked q n d /\ q ∈ qs) evs /\
    triggerStreaks e' = triggerStreaks e /\ clearStreaks e' = clearStreaks e /\
    (steps e <= steps e')%nat.

Lemma wp_ret {A} (a : A) Q e : Q a e -> wp (ret a) Q e.
Proof. done. Qed.

Lemma wp_bind {A B} (m : M A) (k : A -> M B) Q e :
  wp m (fun a e' => wp (k a) Q e') e -> wp (bind m k) Q e.
Proof. unfold wp, bind. by destruct (m e). Qed.

Lemma wp_mono {A} (m : M A) (P Q : A -> engine -> Prop) e :
  (forall a e', P a e' -> Q a e') -> wp m P e -> wp m Q e.
Proof. intros HPQ. apply HPQ. Qed.

Lemma wp_for_each {A} (l : list A) (body : A -> M bool) (I : engine -> Prop) e :
  I e -> (forall x e, x ∈ l -> I e -> wp (body x) (fun _ => I) e) ->
  wp (for_each l body) (fun _ => I) e.
Proof.
  revert e. induction l as [|x l IH]; intros e He Hbody; [done|].
  cbn. apply wp_bind. eapply wp_mono; [|apply Hbody; [apply list_elem_of_here|done]].
  intros [] e' He'; [|done]. apply IH; [done|].
  intros y e2 Hy. apply Hbody. by apply list_elem_of_further.
Qed.

Section Rules.
Context `{World}.

Lemma wp_tick {A} (f : nat -> A) Q e :
  (forall e', quiet e e' -> Q (f (steps e)) e') -> wp (tick f) Q e.
Proof. intros HQ. apply HQ; grows. Qed.

Lemma wp_query {A} q (f : nat -> datastore -> res db_error A) Q e :
  (forall n e', logs (Asked q n (db e')) e e' -> db e' = others n (db e) ->
     Q (if fails n q then Err QueryFailed else f n (db e')) e') ->
  wp (query q f) Q e.
Proof. intros HQ. apply (HQ (steps e)); grows. Qed.

(** A write: the question is logged; what is done follows, unless the query
    failed and did not land. *)
Definition wrote (evs : list event) (e e' : engine) : Prop :=
  log e' = (log e ++ evs)%list /\
  triggerStreaks e' = triggerStreaks e /\ clearStreaks e' = clearStreaks e /\
  (steps e <= steps e')%nat.

Lemma wp_exec {A} q (f : nat -> datastore -> A * datastore * list event) Q e :
  (forall n e1, logs (Asked q n (db e1)) e e1 -> db e1 = others n (db e) ->
     Q (Err QueryFailed) e1 /\
     forall a d evs e2, f n (db e1) = (a, d, evs) -> wrote evs e1 e2 -> db e2 = d ->
       Q (Err QueryFailed) e2 /\ Q (Ok a) e2) ->
  wp (exec q f) Q e.
Proof.
  intros HQ. unfold wp, exec.
  destruct (begin_step q e) as [n e1] eqn:E1. injection E1 as <- <-. cbn.
  destruct (f _ _) as [[a d] evs] eqn:Ef.
  destruct (HQ (steps e) (snd (begin_step q e))) as [Hno Hyes]; [grows|done|].
  specialize (Hyes a d evs).
  destruct (fails _ _); [destruct (lands _)|]; cbn.
  - eapply Hyes; grows.
  - apply Hno.
  - eapply Hyes; grows.
Qed.

Lemma wp_queue a t Q e :
  (forall e', quiet e e' \/ (logs (Queued a t) e e' /\ db e' = db e) -> Q tt e') ->
  wp (queueNotification a t) Q e.
Proof.
  intros HQ. unfold wp, queueNotification. cbn.
  destruct (submits _); apply HQ; [right|left]; grows.
Qed.

Lemma wp_trigger_startPass Q e :
  (forall e', logs (OnTrigger PassStarted) e e' -> db e' = db e -> Q tt e') ->
  wp trigger_startPass Q e.
Proof. intros HQ. apply HQ; grows. Qed.

Lemma wp_trigger_sweep keep Q e :
  (forall e', logs (OnTrigger (Swept (Some keep))) e e' -> db e' = db e -> Q tt e') ->
  wp (trigger_sweep keep) Q e.
Proof. intros HQ. apply HQ; grows. Qed.

Lemma wp_clear_retain keep Q e :
  (forall e', logs (OnClear (Retained keep)) e e' -> db e' = db e -> Q tt e') ->
  wp (clear_retain keep) Q e.
Proof. intros HQ. apply HQ; grows. Qed.

(** An observation returns the new count. *)
Lemma wp_trigger_observe key sampled holds Q e :
  (forall e', logs (OnTrigger (Judged key sampled holds)) e e' -> db e' = db e ->
     Q (count (triggerStreaks e') key) e') ->
  wp (trigger_observe key sampled holds) Q e.
Proof.
  intros HQ. unfold wp, trigger_observe, on_trigger.
  pose proof (observe_count (triggerStreaks e) key sampled holds) as Hc.
  destruct (observe (triggerStreaks e) key sampled holds) as [s n] eqn:E.
  cbn in *. rewrite Hc.
  match goal with |- Q _ ?e' => apply (HQ e') end; [|done].
  split_and!; cbn; [done|by rewrite E|done|lia].
Qed.

Lemma wp_clear_observe id sampled holds Q e :
  (forall e', logs (OnClear (Judged id sampled holds)) e e' -> db e' = db e ->
     Q (count (clearStreaks e') id) e') ->
  wp (clear_observe id sampled holds) Q e.
Proof.
  intros HQ. unfold wp, clear_observe, on_clear.
  pose proof (observe_count (clearStreaks e) id sampled holds) as Hc.
  destruct (observe (clearStreaks e) id sampled holds) as [s n] eqn:E.
  cbn in *. rewrite Hc.
  match goal with |- Q _ ?e' => apply (HQ e') end; [|done].
  split_and!; cbn; [done|done|by rewrite E|lia].
Qed.

(** ** Runs of queries *)

Lemma reads_refl qs e : reads qs e e.
Proof. exists []. rewrite app_nil_r. grows. Qed.

Lemma reads_quiet qs e e' : quiet e e' -> reads qs e e'.
Proof. intros (Hl & ? & ? & _ & ?). exists []. rewrite app_nil_r. grows. Qed.

Lemma reads_asked q qs n d e e' : logs (Asked q n d) e e' -> q ∈ qs -> reads qs e e'.
Proof.
  intros (Hl & ? & ? & ?) Hq. exists [Asked q n d]. split_and!; [done| |done..].
  repeat constructor. by exists q, n, d.
Qed.

Lemma reads_trans qs e1 e2 e3 : reads qs e1 e2 -> reads qs e2 e3 -> reads qs e1 e3.
Proof.
  intros (evs & Hl & Hf & ? & ? & ?) (evs' & Hl' & Hf' & ? & ? & ?).
  exists (evs ++ evs')%list. rewrite Hl', Hl, app_assoc.
  split_and!; [done|by apply Forall_app|congruence|congruence|lia].
Qed.

Lemma reads_ops qs e e' : reads qs e e' ->
  trigger_ops (log e') = trigger_ops (log e) /\ clear_ops (log e') = clear_ops (log e).
Proof.
  intros (evs & -> & Hf & _ & _).
  induction evs as [|ev evs IH] using rev_ind; [by rewrite app_nil_r|].
  apply Forall_app in Hf as [Hf (q & n & d & -> & _)%Forall_singleton].
  rewrite app_assoc, trigger_ops_snoc, clear_ops_snoc, !app_nil_r. by apply IH.
Qed.

Lemma reads_last_asked q qs e e' : reads qs e e' -> q ∉ qs ->
  last_asked q (log e') = last_asked q (log e).
Proof.
  intros (evs & -> & Hf & _ & _) Hq.
  induction evs as [|ev evs IH] using rev_ind; [by rewrite app_nil_r|].
  apply Forall_app in Hf as [Hf (q' & n & d & -> & Hq')%Forall_singleton].
  rewrite app_assoc, last_asked_snoc. destruct (String.eqb_spec q' q); [congruence|by apply IH].
Qed.

Lemma reads_sound trigger clear qs e e' :
  reads qs e e' -> sound trigger clear e -> sound trigger clear e'.
Proof.
  intros Hr [Hf Ht Hc]. destruct (reads_ops _ _ _ Hr) as [Ho Hco].
  destruct Hr as (evs & Hl & Hevs & Htr & Hcl & _). split.
  - rewrite Hl. clear -Hf Hevs.
    induction evs as [|ev evs IH] using rev_ind; [by rewrite app_nil_r|].
    apply Forall_app in Hevs as [Hevs (q & n & d & -> & _)%Forall_singleton].
    rewrite app_assoc. apply all_fine_snoc; [by apply IH|done].
  - by rewrite Htr, Ho.
  - by rewrite Hcl, Hco.
Qed.

Lemma quiet_sound trigger clear e e' :
  quiet e e' -> sound trigger clear e -> sound trigger clear e'.
Proof. intros Hq. by apply (reads_sound _ _ []), reads_quiet. Qed.

(** An answer stands until the query is asked again. *)
Lemma answered_reads q qs P e e' :
  reads qs e e' -> q ∉ qs -> answered q (log e) P -> answered q (log e') P.
Proof.
  intros Hr Hq (n & d & Hl & Ha). exists n, d. by rewrite (reads_last_asked _ _ _ _ Hr Hq).
Qed.

Lemma told_reads q qs P e e' :
  reads qs e e' -> q ∉ qs -> told q (log e) P -> told q (log e') P.
Proof.
  intros Hr Hq (n & d & Hl & Ha). exists n, d. by rewrite (reads_last_asked _ _ _ _ Hr Hq).
Qed.

Lemma answered_logs q ev P e e' :
  logs ev e e' -> (forall n d, ev <> Asked q n d) ->
  answered q (log e) P -> answered q (log e') P.
Proof.
  intros (Hl & _) Hev (n & d & Hla & Ha). exists n, d. split; [|done].
  rewrite Hl, last_asked_snoc. destruct ev as [q' n' d'| | | | | | | | | |]; try done.
  destruct (String.eqb_spec q' q); [subst; by destruct (Hev n' d')|done].
Qed.

Lemma told_logs q ev P e e' :
  logs ev e e' -> (forall n d, ev <> Asked q n d) ->
  told q (log e) P -> told q (log e') P.
Proof.
  intros (Hl & _) Hev (n & d & Hla & Ha). exists n, d. split; [|done].
  rewrite Hl, last_asked_snoc. destruct ev as [q' n' d'| | | | | | | | | |]; try done.
  destruct (String.eqb_spec q' q); [subst; by destruct (Hev n' d')|done].
Qed.

(** The answer just given. *)
Lemma answered_now q n e e' (P : nat -> datastore -> Prop) :
  logs (Asked q n (db e')) e e' -> (fails n q = false -> P n (db e')) ->
  answered q (log e') P.
Proof.
  intros (Hl & _) HP. exists n, (db e'). rewrite Hl, last_asked_snoc, String.eqb_refl.
  split; [done|]. destruct (fails n q); [by left|right; by apply HP].
Qed.

Lemma told_now q n e e' (P : nat -> datastore -> Prop) :
  logs (Asked q n (db e')) e e' -> fails n q = false -> P n (db e') -> told q (log e') P.
Proof.
  intros (Hl & _) Hf HP. exists n, (db e').
  by rewrite Hl, last_asked_snoc, String.eqb_refl.
Qed.

(** Programs that only ask. *)
Definition asks {A} (qs : list string) (m : M A) : Prop :=
  forall e, wp m (fun _ e' => reads qs e e') e.

Lemma asks_query {A} q (f : nat -> datastore -> res db_error A) qs :
  q ∈ qs -> asks qs (query q f).
Proof. intros Hq e. apply wp_query. intros n e' Hl _. by eapply reads_asked. Qed.

Lemma asks_tick {A} (f : nat -> A) qs : asks qs (tick f).
Proof. intros e. apply wp_tick. intros e'. apply reads_quiet. Qed.

Lemma asks_ret {A} (a : A) qs : asks qs (ret a).
Proof. intros e. apply reads_refl. Qed.

Lemma asks_bind {A B} (m : M A) (k : A -> M B) qs :
  asks qs m -> (forall a, asks qs (k a)) -> asks qs (bind m k).
Proof.
  intros Hm Hk e. apply wp_bind. eapply wp_mono; [|apply Hm].
  intros a e' Hr. eapply wp_mono; [|apply Hk]. intros b e2 Hr2.
  exact (reads_trans _ _ _ _ Hr Hr2).
Qed.

Lemma wp_asks {A} qs (m : M A) (Q : A -> engine -> Prop) e :
  asks qs m -> (forall a e', reads qs e e' -> Q a e') -> wp m Q e.
Proof. intros Hm HQ. exact (wp_mono m _ Q e HQ (Hm e)). Qed.

(** ** Programs that do not ask [q] *)

Lemma wp_and {A} (m : M A) (P Q : A -> engine -> Prop) e :
  wp m P e -> wp m Q e -> wp m (fun a e' => P a e' /\ Q a e') e.
Proof. by split. Qed.

Definition avoids (q : string) {A} (m : M A) : Prop :=
  forall e, wp m (fun _ e' => last_asked q (log e') = last_asked q (log e)) e.

Lemma avoids_ret q {A} (a : A) : avoids q (ret a).
Proof. done. Qed.

Lemma avoids_bind q {A B} (m : M A) (k : A -> M B) :
  avoids q m -> (forall a, avoids q (k a)) -> avoids q (bind m k).
Proof.
  intros Hm Hk e. apply wp_bind. eapply wp_mono; [|apply Hm].
  intros a e' Hr. eapply wp_mono; [|apply Hk]. intros b e2 Hr2. exact (eq_trans Hr2 Hr).
Qed.

Lemma avoids_for_each q {A} (l : list A) (body : A -> M bool) :
  (forall x, avoids q (body x)) -> avoids q (for_each l body).
Proof.
  intros Hb. induction l as [|x l IH]; [apply avoids_ret|]. cbn. apply avoids_bind; [done|].
  intros []; [done|apply avoids_ret].
Qed.

Lemma avoids_tick q {A} (f : nat -> A) : avoids q (tick f).
Proof. done. Qed.

Lemma avoids_asked q q' n d e e' :
  logs (Asked q' n d) e e' -> q' <> q -> last_asked q (log e') = last_asked q (log e).
Proof.
  intros [-> _] Hq. rewrite last_asked_snoc. by destruct (String.eqb_spec q' q).
Qed.

Lemma avoids_query q {A} q' (f : nat -> datastore -> res db_error A) :
  q' <> q -> avoids q (query q' f).
Proof. intros Hq e. apply wp_query. intros n e' Hl _. by eapply avoids_asked. Qed.

Lemma avoids_exec q {A} q' (f : nat -> datastore -> A * datastore * list event) :
  q' <> q ->
  (forall n d, match snd (f n d) with [] => True | [Asked _ _ _] => False | [_] => True
               | _ => False end) -> avoids q (exec q' f).
Proof.
  intros Hq Hf e. apply wp_exec. intros n e1 Hl1 _.
  pose proof (avoids_asked _ _ _ _ _ _ Hl1 Hq) as H1. split; [done|].
  intros a d evs e2 Hfn [Hl2 _] _. specialize (Hf n (db e1)). rewrite Hfn in Hf. cbn in Hf.
  assert (last_asked q (log e2) = last_asked q (log e)) as H2; [|done].
  rewrite Hl2. destruct evs as [|ev [|]]; [by rewrite app_nil_r| |by destruct ev].
  rewrite last_asked_snoc. by destruct ev.
Qed.

Lemma avoids_queue q a t : avoids q (queueNotification a t).
Proof.
  intros e. apply wp_queue. intros e' [(-> & _)|[[-> _] _]]; [done|].
  by rewrite last_asked_snoc.
Qed.

Lemma avoids_trigger q {A} f op : avoids q (@on_trigger A f op).
Proof. intros e. unfold wp, on_trigger. destruct (f _). apply last_asked_snoc. Qed.

Lemma told_avoids q {A} (m : M A) P e :
  avoids q m -> told q (log e) P -> wp m (fun _ e' => told q (log e') P) e.
Proof.
  intros Hm (n & d & Hl & Ht). eapply wp_mono; [|apply Hm]. intros a e' Heq.
  exists n, d. split; [|done]. exact (eq_trans Heq Hl).
Qed.
End Rules.

(** [avoid] shows that a program does not ask a query. *)
Ltac avoid :=
  repeat (intros; match goal with
  | |- avoids _ (bind _ _) => apply avoids_bind
  | |- avoids _ (query _ _) => apply avoids_query; done
  | |- avoids _ (exec _ _) => apply avoids_exec; [done|intros; cbn; try done]
  | |- avoids _ (tick _) => apply avoids_tick
  | |- avoids _ (ret _) => apply avoids_ret
  | |- avoids _ (on_trigger _ _) => apply avoids_trigger
  | |- avoids _ (queueNotification _ _) => apply avoids_queue
  | |- avoids _ (match ?x with _ => _ end) => destruct x
  | |- avoids _ (if ?b then _ else _) => destruct b
  end).
