(* ===== verification/AlertSound.v ===== *)
(** * The evaluator acts on grounds

    Every pass of the evaluator, whatever fails and whatever other processes
    do between its queries, writes only entries that are [fine]
    ([AlertLog]). *)
From stdpp Require Import base list strings gmap sorting.
From Stdlib Require Import SpecFloat.
From S2P Require Import Prelude Streaks AlertDb Thresholds Cleaner AlertLog AlertWp.

Local Open Scope string_scope.
Local Open Scope Z_scope.
Local Open Scope engine_scope.

(** [ask] shows that a program only asks. *)
Ltac ask :=
  repeat (intros; match goal with
  | |- asks _ (bind _ _) => apply asks_bind
  | |- asks _ (query _ _) => apply asks_query; cbn; set_solver
  | |- asks _ (tick _) => apply asks_tick
  | |- asks _ (ret _) => apply asks_ret
  | |- asks _ (match ?x with _ => _ end) => destruct x
  | |- asks _ (if ?b then _ else _) => destruct b
  end).

Section Reads.
Context `{World}.

Lemma asks_threshold rule c dbName :
  asks ["GetEffectiveThreshold"] (GetEffectiveThreshold rule c dbName).
Proof. unfold GetEffectiveThreshold, threshold_query. ask. Qed.

(** ** The look-up of the threshold *)

Lemma id_eqb_spec x k : id_eqb x k = true <-> exists i, x = Some i /\ k = Some i.
Proof.
  unfold id_eqb. destruct x as [x|], k as [k|]; (split; [intros E|intros (i & [=] & [=])]);
    try done; [|lia].
  exists x. split; [done|]. f_equal. lia.
Qed.

Lemma server_override_spec d rule c dbName :
  match server_override d rule c dbName with
  | Some r => set_at d rule c dbName ForServer (settings r)
  | None => unset_at d rule c dbName ForServer
  end.
Proof.
  unfold server_override. set (rows := List.filter _ _).
  assert (forall r, In r rows <-> of_server d rule c dbName r) as Hrows.
  { intros r. unfold rows, of_server, same. rewrite filter_In, !andb_true_iff, orb_true_iff,
      String.eqb_eq, Z.eqb_eq, id_eqb_spec, !bool_decide_eq_true, list_elem_of_In.
    split; [intros (? & ((? & ?) & i & ? & ?) & ?); by simplify_eq|naive_solver]. }
  destruct (find _ rows) as [r|] eqn:Ef.
  - apply find_some in Ef as [Hin Hdb]. exists r. split; [by apply Hrows|]. split; [done|].
    intros Hno. unfold same in Hdb. by rewrite bool_decide_true in Hdb.
  - pose proof (find_none _ _ Ef) as Hnone.
    assert (forall r, of_server d rule c dbName r -> th_database r = None) as Hall.
    { intros r Hr%Hrows%Hnone%negb_false_iff%bool_decide_eq_true. done. }
    destruct rows as [|r rows']; cbn.
    + intros r Hr. by apply Hrows in Hr.
    + exists r. split; [apply Hrows; by left|done].
Qed.

Lemma cluster_override_spec d rule c dbName :
  match cluster_override d rule c with
  | Some r => set_at d rule c dbName ForCluster (settings r)
  | None => unset_at d rule c dbName ForCluster
  end.
Proof.
  unfold cluster_override. destruct (find _ _) as [r|] eqn:Ef.
  - apply find_some in Ef as [Hin Hr].
    rewrite !andb_true_iff, String.eqb_eq, Z.eqb_eq, id_eqb_spec in Hr.
    destruct Hr as ((? & ?) & k & ? & ?). exists r. split; [|done].
    exists k. split_and!; try done. by apply list_elem_of_In.
  - intros r (k & Hk & Hin & Hs & Hru & Hc). apply list_elem_of_In in Hin.
    apply (find_none _ _ Ef), not_true_iff_false in Hin. apply Hin.
    rewrite !andb_true_iff, String.eqb_eq, Z.eqb_eq, id_eqb_spec. eauto.
Qed.

Lemma group_override_spec d rule c dbName :
  match group_override d rule c with
  | Some r => set_at d rule c dbName ForGroup (settings r)
  | None => unset_at d rule c dbName ForGroup
  end.
Proof.
  unfold group_override. destruct (find _ _) as [r|] eqn:Ef.
  - apply find_some in Ef as [Hin Hr].
    rewrite !andb_true_iff, String.eqb_eq, Z.eqb_eq, id_eqb_spec in Hr.
    destruct Hr as ((? & ?) & k & ? & ?). exists r. split; [|done].
    exists k. split_and!; try done. by apply list_elem_of_In.
  - intros r (k & Hk & Hin & Hs & Hru & Hc). apply list_elem_of_In in Hin.
    apply (find_none _ _ Ef), not_true_iff_false in Hin. apply Hin.
    rewrite !andb_true_iff, String.eqb_eq, Z.eqb_eq, id_eqb_spec. eauto.
Qed.

Lemma rule_default_spec d rule c dbName r :
  rule_by_id d rule = Some r ->
  set_at d rule c dbName ForEstate
    (DefaultThreshold r, DefaultOperator r, DefaultSeverity r, DefaultEnabled r).
Proof.
  unfold rule_by_id. intros [Hin Heq]%find_some. exists r.
  split_and!; [by apply list_elem_of_In|lia|done].
Qed.

(** One level is asked; its settings end the look-up. *)
Lemma threshold_query_spec (f : datastore -> option AlertThreshold) lv lvs rule c dbName
    (Q : res db_error (float64 * string * string * bool) -> engine -> Prop) e :
  (forall d, match f d with
             | Some r => set_at d rule c dbName lv (settings r)
             | None => unset_at d rule c dbName lv
             end) ->
  (forall n e', log e' = (log e ++ [asked_threshold (n, db e')])%list ->
     (forall s, effective rule c dbName (lv :: lvs) [(n, db e')] s -> Q (Ok s) e') /\
     ((forall asked s, effective rule c dbName lvs asked s ->
         effective rule c dbName (lv :: lvs) ((n, db e') :: asked) s) ->
       forall err, Q (Err err) e')) ->
  wp (threshold_query f) Q e.
Proof.
  intros Hf HQ. apply wp_query. intros n e' [Hl _] _.
  destruct (HQ n e' Hl) as [Hok Herr]. specialize (Hf (db e')).
  destruct (fails n _) eqn:Ef; [apply Herr; intros; apply set_below; auto|].
  destruct (f (db e')) as [r|]; cbn.
  - apply Hok. by apply set_here.
  - apply Herr. intros. apply set_below; auto.
Qed.

Lemma threshold_spec rule c dbName e :
  wp (GetEffectiveThreshold rule c dbName) (fun s e' => reads ["GetEffectiveThreshold"] e e' /\
    (s.2 = true -> in_force (log e') rule c dbName s)) e.
Proof.
  apply wp_and; [apply asks_threshold|]. unfold GetEffectiveThreshold.
  apply wp_bind, (threshold_query_spec _ ForServer [ForCluster; ForGroup; ForEstate] rule c dbName);
    [intros d; apply server_override_spec|].
  intros n1 e1 Hl1. split.
  { intros s Hs. apply wp_ret. intros _. exists (log e), [(n1, db e1)], []. by rewrite app_nil_r, Hl1. }
  intros H1 _. apply wp_bind, (threshold_query_spec _ ForCluster [ForGroup; ForEstate] rule c dbName);
    [intros d; apply cluster_override_spec|].
  intros n2 e2 Hl2. split.
  { intros s Hs. apply wp_ret. intros _. exists (log e), [(n1, db e1); (n2, db e2)], [].
    rewrite app_nil_r, Hl2, Hl1, <- app_assoc. split_and!; [done|done|by apply H1]. }
  intros H2 _. apply wp_bind, (threshold_query_spec _ ForGroup [ForEstate] rule c dbName);
    [intros d; apply group_override_spec|].
  intros n3 e3 Hl3. split.
  { intros s Hs. apply wp_ret. intros _. exists (log e), [(n1, db e1); (n2, db e2); (n3, db e3)], [].
    rewrite app_nil_r, Hl3, Hl2, Hl1, <- !app_assoc. split_and!; [done|done|by apply H1, H2]. }
  intros H3 _. apply wp_bind, wp_query. intros n4 e4 [Hl4 _] _.
  destruct (fails n4 _) eqn:Ef; [done|].
  destruct (rule_by_id (db e4) rule) as [r|] eqn:Er; [|done]. apply wp_ret. intros Hen.
  exists (log e), [(n1, db e1); (n2, db e2); (n3, db e3); (n4, db e4)], [].
  rewrite app_nil_r, Hl4, Hl3, Hl2, Hl1, <- !app_assoc. split_and!; [done|done|].
  apply H1, H2, H3, set_here; [done|]. by apply rule_default_spec.
Qed.

(** The settings stay in force until they are looked up again. *)
Lemma in_force_logs ev e e' rule c dbName s :
  logs ev e e' -> (forall n d, ev <> Asked "GetEffectiveThreshold" n d) ->
  in_force (log e) rule c dbName s -> in_force (log e') rule c dbName s.
Proof.
  intros [Hl _] Hev (l0 & asked & l1 & Heq & Hl1 & Heff).
  exists l0, asked, (l1 ++ [ev])%list. rewrite Hl, Heq, <- !app_assoc.
  split_and!; [done| |done]. apply Forall_app. split; [done|].
  apply Forall_singleton. intros [n d]. apply Hev.
Qed.

Lemma in_force_reads qs e e' rule c dbName s :
  reads qs e e' -> "GetEffectiveThreshold" ∉ qs ->
  in_force (log e) rule c dbName s -> in_force (log e') rule c dbName s.
Proof.
  intros (evs & Hl & Hevs & _) Hq (l0 & asked & l1 & Heq & Hl1 & Heff).
  exists l0, asked, (l1 ++ evs)%list. rewrite Hl, Heq, <- !app_assoc.
  split_and!; [done| |done]. apply Forall_app. split; [done|].
  eapply Forall_impl; [exact Hevs|]. intros ev (q & n & d & -> & Hin) [n' d'] [= -> _ _]. done.
Qed.

Definition metric_queries : list string := ["GetLatestMetricValues"; "dropDeletedConnections"].

Lemma asks_latest metric : asks metric_queries (GetLatestMetricValues metric).
Proof. unfold GetLatestMetricValues, dropDeletedConnections, metric_queries. ask. Qed.

Lemma asks_extension rule :
  asks ["GetConnectionsWithExtension"] (connectionsWithRequiredExtension rule).
Proof. unfold connectionsWithRequiredExtension, GetConnectionsWithExtension. ask. Qed.

Lemma asks_gates alerts gates byExtension :
  asks ["GetAlertRuleByID"; "GetConnectionsWithExtension"]
    (resolve_gates alerts gates byExtension).
Proof.
  revert gates byExtension. induction alerts as [|a alerts IH]; intros gates byExtension; cbn;
    [apply asks_ret|].
  unfold GetAlertRuleByID, connectionsWithRequiredExtension, GetConnectionsWithExtension.
  repeat (ask; try (intros; apply IH)).
Qed.

Lemma wrote_logs ev e e' :
  match ev with OnTrigger _ | OnClear _ => False | _ => True end ->
  wrote [ev] e e' -> logs ev e e'.
Proof. intros Hev (? & ? & ? & ?). split_and!; [done| | |done]; by destruct ev. Qed.

Lemma wrote_nil e e' : wrote [] e e' -> reads [] e e'.
Proof. intros (? & ? & ? & ?). by exists []. Qed.

Context {trigger clear : Z}.
Abbreviation sound := (sound trigger clear).

Lemma sound_asked q n d e e' : logs (Asked q n d) e e' -> sound e -> sound e'.
Proof. intros Hl Hs. by eapply sound_logs. Qed.

(** ** Updates *)

Lemma update_grounds_logs ev id e e' :
  logs ev e e' ->
  match ev with
  | Asked q _ _ => q ∉ ["IsBlackoutActive"; "GetActiveThresholdAlert";
                        "GetActiveThresholdAlertForProbe"]
  | _ => True
  end ->
  update_grounds (log e) id -> update_grounds (log e') id.
Proof.
  intros Hl Hev (existing & dbName & Hid & Hb & Ht).
  assert (forall q, q ∈ ["IsBlackoutActive"; "GetActiveThresholdAlert";
    "GetActiveThresholdAlertForProbe"] -> forall n d, ev <> Asked q n d) as Hne.
  { intros q Hq n d ->. done. }
  exists existing, dbName. split_and!; [done| |].
  - eapply answered_logs; [done|apply Hne; set_solver|done].
  - destruct Ht as [Ht|Ht]; [left|right];
      (eapply told_logs; [done|apply Hne; set_solver|done]).
Qed.

Lemma values_sound id v t op sev (Q : res db_error unit -> engine -> Prop) e :
  sound e -> update_grounds (log e) id ->
  (forall r e', sound e' ->
     (is_ok r = true -> exists l, log e' = (l ++ [Updated id v t op sev])%list) -> Q r e') ->
  wp (UpdateAlertValues id v t op sev) Q e.
Proof.
  intros Hs Hg HQ. apply wp_exec. intros n e1 Hl1 _.
  pose proof (sound_asked _ _ _ _ _ Hl1 Hs) as Hs1.
  split; [by apply HQ|]. intros a d evs e2 [= <- <- <-] Hw _.
  apply wrote_logs in Hw; [|done].
  assert (sound e2) as Hs2.
  { eapply sound_logs; [exact Hw|done|]. cbn.
    eapply update_grounds_logs; [exact Hl1|cbn; set_solver|done]. }
  split; apply HQ; [done|done|done|]. intros _. exists (log e1). apply Hw.
Qed.

Lemma update_existing_sound existing v e :
  sound e -> update_grounds (log e) (ID existing) ->
  wp (update_existing existing v) (fun _ => sound) e.
Proof.
  intros Hs Hg. unfold update_existing. apply wp_bind.
  apply values_sound; [done..|]. intros r e1 Hs1 Hlog.
  destruct (_ && is_ok r) eqn:E; [|done]. apply andb_true_iff in E as [_ Hok].
  destruct (Hlog Hok) as [l Hl]. apply wp_bind, wp_exec.
  intros n e2 Hl2 _. pose proof (sound_asked _ _ _ _ _ Hl2 Hs1) as Hs2.
  split; [done|]. intros a d evs e3 Hf Hw _.
  assert (sound e3 /\ exists re, log e3 = (log e2 ++ re)%list /\
    (re = [] \/ re = [Reactivated (ID existing)])) as [Hs3 (re & Hl3 & Hre)].
  { destruct (existsb _ _); injection Hf as <- <- <-.
    - pose proof Hw as [Hl3 _]. apply wrote_logs in Hw; [|done].
      split; [by eapply sound_logs|]. eauto.
    - pose proof (wrote_nil _ _ Hw) as Hr. destruct Hw as [Hl3 _].
      split; [by eapply reads_sound|]. eauto. }
  split; [done|]. cbn. apply wp_queue.
  intros e4 [Hq|[Hq _]]; [by eapply quiet_sound|].
  eapply sound_logs; [exact Hq|done|]. cbn. split; [done|]. right.
  destruct Hl2 as [Hl2 _].
  exists l, (v_value v), (v_threshold v), (v_operator v), n, (db e2), re. split; [|done].
  rewrite Hl3, Hl2, Hl. by rewrite <- !app_assoc.
Qed.

(** ** Raising *)

Lemma on_connection_eq a c : on_connection a c = true -> ConnectionID a = c.
Proof. unfold on_connection. intros [_ Hc]%andb_true_iff. lia. Qed.

Lemma active_threshold_alert_connection d rule c dbName a :
  active_threshold_alert d rule c dbName = Some a -> ConnectionID a = c.
Proof.
  unfold active_threshold_alert. destruct (find _ _) as [r|] eqn:E; [|done].
  intros [= <-]. apply find_some in E as [_ E]. bool_hyps. by apply on_connection_eq.
Qed.

Lemma active_probe_alert_connection d rule c probe a :
  active_probe_alert d rule c probe = Some a -> ConnectionID a = c.
Proof.
  unfold active_probe_alert. destruct (find _ _) as [r|] eqn:E; [|done].
  intros [= <-]. apply find_some in E as [_ E]. bool_hyps. by apply on_connection_eq.
Qed.

(** The alert is written once its grounds are in the log; then the
    notification may go. *)
Lemma create_sound a Q e :
  sound e ->
  (forall n e1, logs (Asked "CreateAlert" n (db e1)) e e1 ->
     raise_grounds trigger (log e1) (with_id a (next_alert (db e1)))) ->
  (forall r e', sound e' -> match r with
     | Ok a' => Status a' = Status a /\ exists l, log e' = (l ++ [Raised a'])%list
     | Err _ => True end -> Q r e') ->
  wp (CreateAlert a) Q e.
Proof.
  intros Hs Hg HQ. apply wp_exec. intros n e1 Hl1 _.
  pose proof (sound_asked _ _ _ _ _ Hl1 Hs) as Hs1.
  split; [by apply HQ|]. intros a' d evs e2 [= <- <- <-] Hw _.
  apply wrote_logs in Hw; [|done].
  assert (sound e2) as Hs2.
  { eapply sound_logs; [exact Hw|done|]. by eapply Hg. }
  split; apply HQ; [done|done|done|]. split; [done|]. exists (log e1). apply Hw.
Qed.

Lemma create_and_queue_sound a e :
  sound e -> Status a = "active" ->
  (forall n e1, logs (Asked "CreateAlert" n (db e1)) e e1 ->
     raise_grounds trigger (log e1) (with_id a (next_alert (db e1)))) ->
  wp (let* created := CreateAlert a in
      match created with Err _ => ret tt | Ok alert => queueNotification alert AlertFire end)
    (fun _ => sound) e.
Proof.
  intros Hs Hact Hg. apply wp_bind, create_sound; [done..|].
  intros [a'|] e1 Hs1 Hr; [|done]. destruct Hr as [Hst [l Hl]].
  apply wp_queue. intros e2 [Hq|[Hq _]]; [by eapply quiet_sound|].
  eapply sound_logs; [exact Hq|done|]. cbn. split; [congruence|]. left. eauto.
Qed.

(** The violation [v] was judged on a reported value of the rule's metric. *)
Definition breached (l : list event) (rule : AlertRule) (v : thresholdViolation) (c : Z)
    (dbName objectName : option string) : Prop :=
  exists mv, judged_by l rule mv (v_threshold v) (v_operator v) (v_severity v) /\
    c = mv_connection mv /\ dbName = mv_database mv /\ objectName = mv_object mv /\
    v_value v = mv_value mv /\
    checkThreshold (v_value v) (v_operator v) (v_threshold v) = true.

Definition judging_queries : list string :=
  ["GetEnabledAlertRules"; "GetLatestMetricValues"; "GetEffectiveThreshold"].

Lemma judged_logs ev e e' rule mv t op sev :
  logs ev e e' -> (forall q, q ∈ judging_queries -> forall n d, ev <> Asked q n d) ->
  judged_by (log e) rule mv t op sev -> judged_by (log e') rule mv t op sev.
Proof.
  intros Hl Hev (Hr & Hrep & Hf). unfold judging_queries in Hev. split_and!.
  - eapply told_logs; [done|apply Hev; set_solver|done].
  - eapply told_logs; [done|apply Hev; set_solver|done].
  - eapply in_force_logs; [done|apply Hev; set_solver|done].
Qed.

Lemma judged_reads qs e e' rule mv t op sev :
  reads qs e e' -> (forall q, q ∈ judging_queries -> q ∉ qs) ->
  judged_by (log e) rule mv t op sev -> judged_by (log e') rule mv t op sev.
Proof.
  intros Hl Hev (Hr & Hrep & Hf). unfold judging_queries in Hev. split_and!.
  - eapply told_reads; [done|apply Hev; set_solver|done].
  - eapply told_reads; [done|apply Hev; set_solver|done].
  - eapply in_force_reads; [done|apply Hev; set_solver|done].
Qed.

Lemma breached_logs q n d e e' rule v c dbName objectName :
  logs (Asked q n d) e e' -> q ∉ judging_queries ->
  breached (log e) rule v c dbName objectName -> breached (log e') rule v c dbName objectName.
Proof.
  intros Hl Hq (mv & Hj & Hrest). exists mv. split; [|done].
  eapply judged_logs; [done| |done]. intros q' Hq' n' d' [= -> _ _]. done.
Qed.

Definition steady_count rule v c dbName objectName e : Prop :=
  forall t, trigger <= count (triggerStreaks e) (alert_key (rule_id rule)
    (new_alert rule v c dbName objectName None (rule_name rule) (rule_description rule) t)).

(** A count is a run of the log. *)
Lemma counted_sustained key n e :
  sound e -> n <= count (triggerStreaks e) key -> Z.of_nat (length (log e)) < 2 ^ 63 ->
  exists samples, sustained key (trigger_ops (log e)) samples /\ n <= Z.of_nat (length samples).
Proof.
  intros Hs Hn Hlen. rewrite (trigger_replayed _ _ _ Hs) in Hn.
  destruct (count_sustained (trigger_ops (log e)) key) as (samples & Hsus & Hc).
  { unfold short. pose proof (trigger_ops_length (log e)). lia. }
  exists samples. split; [done|lia].
Qed.

Lemma raise_tail_sound rule v c dbName objectName e :
  sound e -> no_blackout (log e) c dbName ->
  breached (log e) rule v c dbName objectName ->
  steady_count rule v c dbName objectName e ->
  answered "GetActiveThresholdAlert" (log e) (fun _ d =>
    active_threshold_alert d (rule_id rule) c dbName = None) ->
  answered "GetRecentlyClearedAlert" (log e) (fun n d =>
    recently_cleared d (db_now n) (rule_id rule) c dbName AlertCooldownPeriod = false) ->
  wp (let* t := time_now in
      let* created := CreateAlert
        (new_alert rule v c dbName objectName None (rule_name rule) (rule_description rule) t) in
      match created with Err _ => ret tt | Ok alert => queueNotification alert AlertFire end)
    (fun _ => sound) e.
Proof.
  intros Hs Hb Hv Hc Hnone Hcool. apply wp_bind, wp_tick. intros e1 Hq1.
  pose proof (quiet_sound _ _ _ _ Hq1 Hs) as Hs1.
  apply create_and_queue_sound; [done|done|]. intros n e2 Hl2.
  pose proof (sound_asked _ _ _ _ _ Hl2 Hs1) as Hs2.
  assert (reads ["CreateAlert"] e e2) as Hr.
  { eapply reads_trans; [by apply reads_quiet|by eapply reads_asked; [done|set_solver]]. }
  exists (rule_id rule). split_and!; [done..|]. cbn. split; cbn.
  - destruct Hv as (mv & Hj & -> & -> & -> & Hval & Hch). rewrite Hval in Hch.
    exists rule, mv, (v_threshold v), (v_operator v). unfold says. cbn. rewrite Hval. split_and!; try done.
    eapply judged_reads; [exact Hr|unfold judging_queries; set_solver|done].
  - apply counted_sustained; [done|]. destruct Hr as (_ & _ & _ & -> & _). apply Hc.
  - by eapply answered_reads; [exact Hr|set_solver|].
  - by eapply answered_reads; [exact Hr|set_solver|].
  - by eapply answered_reads; [exact Hr|set_solver|].
Qed.

Lemma raise_new_sound rule v c dbName objectName steady e :
  sound e -> no_blackout (log e) c dbName ->
  breached (log e) rule v c dbName objectName ->
  (steady = true -> steady_count rule v c dbName objectName e) ->
  answered "GetActiveThresholdAlert" (log e) (fun _ d =>
    active_threshold_alert d (rule_id rule) c dbName = None) ->
  wp (raise_new rule v c dbName objectName steady) (fun _ => sound) e.
Proof.
  intros Hs Hb Hv Hc Hnone. unfold raise_new. destruct steady; [|done]. cbn.
  specialize (Hc eq_refl). apply wp_bind, wp_query. intros n e1 Hl1 _.
  assert (sound e1) as Hs1 by (by eapply sound_asked).
  assert (no_blackout (log e1) c dbName) as Hb1 by (by eapply answered_logs).
  assert (steady_count rule v c dbName objectName e1) as Hc1.
  { unfold steady_count. destruct Hl1 as (_ & -> & _). exact Hc. }
  apply (answered_logs _ _ _ _ _ Hl1) in Hnone; [|done].
  apply (breached_logs _ _ _ _ _ _ _ _ _ _ Hl1) in Hv; [|unfold judging_queries; set_solver].
  pose proof (raise_tail_sound rule v c dbName objectName e1 Hs1 Hb1 Hv Hc1 Hnone) as Htail.
  destruct (fails n _) eqn:Ef.
  - apply Htail. eapply answered_now; [done|by rewrite Ef].
  - destruct (recently_cleared _ _ _ _ _ _) eqn:Er; [done|].
    apply Htail. by eapply answered_now.
Qed.

Lemma triggerThresholdAlert_sound rule v c dbName objectName steady e :
  sound e -> no_blackout (log e) c dbName ->
  breached (log e) rule v c dbName objectName ->
  (steady = true -> steady_count rule v c dbName objectName e) ->
  wp (triggerThresholdAlert rule v c dbName objectName steady) (fun _ => sound) e.
Proof.
  intros Hs Hb Hv Hc. unfold triggerThresholdAlert. apply wp_bind, wp_query.
  intros n1 e1 Hl1 _. pose proof (sound_asked _ _ _ _ _ Hl1 Hs) as Hs1.
  assert (no_blackout (log e1) c dbName) as Hb1 by (by eapply answered_logs).
  assert (steady = true -> steady_count rule v c dbName objectName e1) as Hc1.
  { intros ->. unfold steady_count. destruct Hl1 as (_ & -> & _). by apply Hc. }
  apply (breached_logs _ _ _ _ _ _ _ _ _ _ Hl1) in Hv; [|unfold judging_queries; set_solver].
  destruct (fails n1 _) eqn:Ef.
  { apply raise_new_sound; [done..|]. eapply answered_now; [done|by rewrite Ef]. }
  destruct (active_threshold_alert (db e1) (rule_id rule) c dbName) as [existing|] eqn:Ea.
  - apply update_existing_sound; [done|].
    pose proof (active_threshold_alert_connection _ _ _ _ _ Ea) as Hconn.
    exists existing, dbName. rewrite Hconn. split_and!; [done..|]. left.
    eapply told_now; [done..|]. eauto.
  - apply raise_new_sound; [done..|]. by eapply answered_now.
Qed.

Lemma blacked_out_spec c dbName e :
  wp (blacked_out c dbName) (fun b e' => reads ["IsBlackoutActive"] e e' /\
    (b = false -> no_blackout (log e') c dbName)) e.
Proof.
  apply wp_bind, wp_query. intros n e1 Hl1 _. apply wp_ret.
  split; [eapply reads_asked; [done|set_solver]|]. intros Hb.
  eapply answered_now; [done|]. intros Hf. by rewrite Hf in Hb.
Qed.

(** From here on [trigger] bounds the configured count from below. *)
Lemma evaluate_value_sound rule withExtension triggerCount mv e :
  sound e -> trigger <= triggerCount -> listed_rule (log e) rule ->
  reported (log e) (rule_metric rule) mv ->
  wp (evaluate_value rule withExtension triggerCount mv) (fun _ => sound) e.
Proof.
  intros Hs Htc Hrule Hrep. unfold evaluate_value. apply wp_bind, wp_tick. intros e1 Hq1.
  pose proof (quiet_sound _ _ _ _ Hq1 Hs) as Hs1. destruct (cancelled _); [done|].
  destruct (gated_out _ _); [done|]. apply wp_bind.
  eapply wp_mono; [|apply blacked_out_spec]. intros b e2 [Hr2 Hb2]. cbn in Hr2, Hb2.
  pose proof (reads_sound _ _ _ _ _ Hr2 Hs1) as Hs2. destruct b; [done|].
  specialize (Hb2 eq_refl). apply wp_bind.
  eapply wp_mono; [|apply threshold_spec].
  intros [[[threshold operator] severity] enabled] e3 [Hr3 Hf3].
  pose proof (reads_sound _ _ _ _ _ Hr3 Hs2) as Hs3. destruct enabled; [|done].
  specialize (Hf3 eq_refl). cbn.
  assert (no_blackout (log e3) (mv_connection mv) (mv_database mv)) as Hb3.
  { by eapply answered_reads; [exact Hr3|set_solver|]. }
  assert (forall q P, q ∉ ["GetEffectiveThreshold"; "IsBlackoutActive"] ->
    told q (log e) P -> told q (log e3) P) as Hkeep.
  { intros q P Hq Ht. eapply told_reads; [exact Hr3|set_solver|].
    eapply told_reads; [exact Hr2|set_solver|]. by destruct Hq1 as (-> & _). }
  assert (judged_by (log e3) rule mv threshold operator severity) as Hj3.
  { split_and!; [apply Hkeep; [set_solver|done]|apply Hkeep; [set_solver|done]|done]. }
  apply wp_bind, wp_trigger_observe. intros e4 Hl4 _.
  assert (sound e4) as Hs4.
  { eapply sound_logs; [exact Hl4|done|]. cbn.
    by exists rule, mv, threshold, operator, severity. }
  destruct (checkThreshold _ _ _) eqn:Ev; [|done]. apply wp_bind.
  eapply wp_mono; [intros ?? Hs'; exact Hs'|].
  apply triggerThresholdAlert_sound; [done| | |].
  - by eapply answered_logs.
  - exists mv. split_and!; try done. by eapply judged_logs.
  - intros Hle%Z.leb_le t. etrans; [exact Htc|]. etrans; [exact Hle|].
    unfold alert_key, newThresholdSampleKey. cbn. by destruct (mv_database mv).
Qed.

(** The values of a metric stay reported while they are judged, and the list
    of rules stands for the pass. *)
Ltac avoid_value :=
  unfold evaluate_value, ctx_done, blacked_out, IsBlackoutActive, GetEffectiveThreshold,
    threshold_query, trigger_observe, triggerThresholdAlert, GetActiveThresholdAlert,
    update_existing, UpdateAlertValues, ReactivateAlert, raise_new, GetRecentlyClearedAlert,
    time_now, CreateAlert; avoid; by destruct (existsb _ _).

Lemma value_avoids rule withExtension triggerCount mv :
  avoids "GetLatestMetricValues" (evaluate_value rule withExtension triggerCount mv).
Proof. avoid_value. Qed.

Lemma value_avoids_rules rule withExtension triggerCount mv :
  avoids "GetEnabledAlertRules" (evaluate_value rule withExtension triggerCount mv).
Proof. avoid_value. Qed.

Lemma latest_reported metric e :
  wp (GetLatestMetricValues metric) (fun r e' => reads metric_queries e e' /\
    (forall values, r = Ok values -> forall mv, mv ∈ values -> reported (log e') metric mv)) e.
Proof.
  apply wp_and; [apply asks_latest|]. unfold GetLatestMetricValues.
  destruct (registry metric) as [cfg|] eqn:Ereg; [|done].
  apply wp_bind, wp_query. intros n e1 Hl1 _.
  destruct (fails n _) eqn:Ef; [done|].
  destruct (scan_rows (scan cfg) (latest (db e1) metric)) as [results|] eqn:Escan; [|done].
  assert (forall mv, mv ∈ results -> reported (log e1) metric mv) as Hrep.
  { intros mv Hmv. eapply told_now; [done..|]. unfold scan_rows in Escan.
    destruct (mapM _ _) as [l|] eqn:Em; [|done]. injection Escan as ->.
    apply mapM_Some in Em. apply list_elem_of_lookup in Hmv as [i Hi].
    destruct (Forall2_lookup_r _ _ _ _ _ Em Hi) as (r & Hr & Hs).
    exists cfg, r. split_and!; [done|by eapply list_elem_of_lookup_2|done]. }
  apply wp_bind.
  apply (wp_mono _ (fun r e' => forall values, r = Ok values ->
    forall mv, mv ∈ values -> reported (log e') metric mv)).
  { intros [[|mv0 values]|] e2 Hv; cbn; [done| |done].
    apply wp_ret. intros values' [= <-]. by apply Hv. }
  unfold dropDeletedConnections.
  destruct results as [|mv0 results'] eqn:E; [by intros values [= <-]|rewrite <- E in *].
  apply wp_query. intros n2 e2 Hl2 _. destruct (fails n2 _); [done|].
  intros values [= <-] mv Hmv. eapply told_logs; [exact Hl2|done|]. apply Hrep.
  apply list_elem_of_In, filter_In in Hmv as [Hmv _]. by apply list_elem_of_In.
Qed.

(** The violation [v] of a probe's rule, judged on its entry in the view. *)
Definition probe_breached (l : list event) (rule : AlertRule) (v : thresholdViolation)
    (c : Z) (probe : string) : Prop :=
  exists entry, ps_connection entry = c /\ ps_probe entry = probe /\ viewed l entry /\
    in_force l (rule_id rule) c None (v_threshold v, v_operator v, v_severity v, true) /\
    checkThreshold (v_value v) (v_operator v) (v_threshold v) = true /\
    (named_rule l "metric_staleness" rule /\ IsAvailable entry = true /\
       v_value v = StalenessRatio entry \/
     named_rule l "probe_unavailable" rule /\ IsAvailable entry = false /\
       v_value v = probeUnavailableValue).

Definition probe_queries : list string :=
  ["GetProbeStalenessByConnection"; "GetEffectiveThreshold"; "GetAlertRuleByName"].

Lemma probe_breached_reads qs e e' rule v c probe :
  reads qs e e' -> (forall q, q ∈ probe_queries -> q ∉ qs) ->
  probe_breached (log e) rule v c probe -> probe_breached (log e') rule v c probe.
Proof.
  intros Hr Hqs (entry & Hc & Hp & Hv & Hf & Hch & Hk). unfold probe_queries in Hqs.
  exists entry. split_and!; try done.
  - eapply told_reads; [done|apply Hqs; set_solver|done].
  - eapply in_force_reads; [done|apply Hqs; set_solver|done].
  - destruct Hk as [(Hn & Hk)|(Hn & Hk)]; [left|right]; (split; [|done]);
      (eapply told_reads; [done|apply Hqs; set_solver|done]).
Qed.

Lemma probe_breached_logs q n d e e' rule v c probe :
  logs (Asked q n d) e e' -> q ∉ probe_queries ->
  probe_breached (log e) rule v c probe -> probe_breached (log e') rule v c probe.
Proof.
  intros Hl Hq. apply (probe_breached_reads [q]).
  - eapply reads_asked; [done|set_solver].
  - intros q' Hq' ->%list_elem_of_singleton. done.
Qed.

(** The alerts of a probe. *)
Definition probe_alert_for (rule : AlertRule) (v : thresholdViolation) (c : Z)
    (probe : string) (a : Alert) : Prop :=
  exists title description t, a = new_alert rule v c None None (Some probe) title description t.

Lemma probe_tail_sound rule v c probe (build : M Alert) e :
  sound e -> no_blackout (log e) c None -> probe_breached (log e) rule v c probe ->
  (forall e, wp build (fun a e' => reads [] e e' /\ probe_alert_for rule v c probe a) e) ->
  told "GetActiveThresholdAlertForProbe" (log e) (fun _ d =>
    active_probe_alert d (rule_id rule) c probe = None) ->
  answered "GetRecentlyClearedAlertForProbe" (log e) (fun n d =>
    recently_cleared_probe d (db_now n) (rule_id rule) c probe AlertCooldownPeriod = false) ->
  wp (let* alert := build in
      let* created := CreateAlert alert in
      match created with Err _ => ret tt | Ok alert => queueNotification alert AlertFire end)
    (fun _ => sound) e.
Proof.
  intros Hs Hb Hpb Hbuild Hnone Hcool. apply wp_bind. eapply wp_mono; [|apply Hbuild].
  intros a e1 [Hr1 (title & description & t & ->)].
  pose proof (reads_sound _ _ _ _ _ Hr1 Hs) as Hs1.
  apply create_and_queue_sound; [done|done|]. intros n e2 Hl2.
  assert (reads ["CreateAlert"] e e2) as Hr.
  { destruct Hr1 as (evs & Hl1 & Hevs & Hrest).
    eapply reads_trans; [|by eapply reads_asked; [exact Hl2|set_solver]].
    exists evs. split_and!; [done| |apply Hrest..].
    eapply Forall_impl; [exact Hevs|]. cbn. set_solver. }
  exists (rule_id rule). split_and!; [done..|]. cbn. split; [done|]. split; cbn.
  - apply (probe_breached_reads _ _ _ _ _ _ _ Hr) in Hpb; [|unfold probe_queries; set_solver].
    destruct Hpb as (entry & Hc & Hp & Hv & Hf & Hch & Hk).
    exists rule, entry, (v_value v), (v_threshold v), (v_operator v). by split_and!.
  - by eapply answered_reads; [exact Hr|set_solver|].
  - by eapply told_reads; [exact Hr|set_solver|].
  - by eapply answered_reads; [exact Hr|set_solver|].
Qed.

Lemma raise_for_probe_sound rule v c probe (build : M Alert) e :
  sound e -> no_blackout (log e) c None -> probe_breached (log e) rule v c probe ->
  (forall e, wp build (fun a e' => reads [] e e' /\ probe_alert_for rule v c probe a) e) ->
  wp (raise_for_probe rule v c probe build) (fun _ => sound) e.
Proof.
  intros Hs Hb Hpb Hbuild. unfold raise_for_probe. apply wp_bind, wp_query.
  intros n1 e1 Hl1 _. assert (sound e1) as Hs1 by (by eapply sound_asked).
  assert (no_blackout (log e1) c None) as Hb1 by (by eapply answered_logs).
  destruct (fails n1 _) eqn:Ef; [done|].
  destruct (active_probe_alert (db e1) (rule_id rule) c probe) as [existing|] eqn:Ea.
  { apply wp_bind, values_sound; [done| |by intros].
    pose proof (active_probe_alert_connection _ _ _ _ _ Ea) as Hconn.
    exists existing, None. rewrite Hconn. split_and!; [done..|]. right.
    eapply told_now; [done..|]. eauto. }
  assert (told "GetActiveThresholdAlertForProbe" (log e1) (fun _ d =>
    active_probe_alert d (rule_id rule) c probe = None)) as Hnone by (by eapply told_now).
  apply wp_bind, wp_query. intros n2 e2 Hl2 _.
  assert (sound e2) as Hs2 by (by eapply sound_asked).
  assert (no_blackout (log e2) c None) as Hb2 by (by eapply answered_logs).
  apply (told_logs _ _ _ _ _ Hl2) in Hnone; [|done].
  assert (probe_breached (log e2) rule v c probe) as Hpb2.
  { eapply probe_breached_logs; [exact Hl2|unfold probe_queries; set_solver|].
    eapply probe_breached_logs; [exact Hl1|unfold probe_queries; set_solver|done]. }
  pose proof (probe_tail_sound rule v c probe build e2 Hs2 Hb2 Hpb2 Hbuild Hnone) as Htail.
  destruct (fails n2 _) eqn:Ef2.
  - apply Htail. eapply answered_now; [done|by rewrite Ef2].
  - destruct (recently_cleared_probe _ _ _ _ _ _) eqn:Er; [done|].
    apply Htail. by eapply answered_now.
Qed.

Lemma staleness_entry_sound rule entry e :
  sound e -> viewed (log e) entry -> named_rule (log e) "metric_staleness" rule ->
  wp (staleness_entry rule entry) (fun _ => sound) e.
Proof.
  intros Hs Hview Hname. unfold staleness_entry. apply wp_bind, wp_tick. intros e1 Hq1.
  pose proof (quiet_sound _ _ _ _ Hq1 Hs) as Hs1. destruct (cancelled _); [done|].
  destruct (IsAvailable entry) eqn:Eav; [|done]. apply wp_bind.
  eapply wp_mono; [|apply blacked_out_spec]. intros b e2 [Hr2 Hb2]. cbn in Hr2, Hb2.
  pose proof (reads_sound _ _ _ _ _ Hr2 Hs1) as Hs2. destruct b; [done|].
  specialize (Hb2 eq_refl). apply wp_bind.
  eapply wp_mono; [|apply threshold_spec].
  intros [[[threshold operator] severity] enabled] e3 [Hr3 Hf3].
  pose proof (reads_sound _ _ _ _ _ Hr3 Hs2) as Hs3. destruct enabled; [|done].
  specialize (Hf3 eq_refl). cbn.
  apply (answered_reads _ _ _ _ _ Hr3) in Hb2; [|set_solver].
  destruct (checkThreshold _ _ _) eqn:Ev; [|done].
  apply wp_bind, wp_tick. intros e4 Hq4.
  pose proof (quiet_sound _ _ _ _ Hq4 Hs3) as Hs4.
  apply wp_bind. eapply wp_mono; [intros ?? Hs'; exact Hs'|].
  apply raise_for_probe_sound; [done|by unfold no_blackout; destruct Hq4 as (-> & _)| |].
  - destruct Hq4 as (-> & _). destruct Hq1 as (Hl1 & _). rewrite <- Hl1 in Hview, Hname.
    exists entry. split_and!; try done; [|left; split; [|done]];
      (eapply told_reads; [exact Hr3|set_solver|]; eapply told_reads; [exact Hr2|set_solver|done]).
  - intros e5. split; [apply reads_refl|]. by eexists _, _, _.
Qed.

Lemma unavailable_entry_sound rule entry e :
  sound e -> viewed (log e) entry -> named_rule (log e) "probe_unavailable" rule ->
  IsAvailable entry = false ->
  wp (evaluateProbeUnavailableEntry rule entry) (fun _ => sound) e.
Proof.
  intros Hs Hview Hname Hav. unfold evaluateProbeUnavailableEntry. apply wp_bind.
  eapply wp_mono; [|apply blacked_out_spec]. intros b e2 [Hr2 Hb2]. cbn in Hr2, Hb2.
  pose proof (reads_sound _ _ _ _ _ Hr2 Hs) as Hs2. destruct b; [done|].
  specialize (Hb2 eq_refl). apply wp_bind.
  eapply wp_mono; [|apply threshold_spec].
  intros [[[threshold operator] severity] enabled] e3 [Hr3 Hf3].
  pose proof (reads_sound _ _ _ _ _ Hr3 Hs2) as Hs3. destruct enabled; [|done].
  specialize (Hf3 eq_refl). cbn.
  apply (answered_reads _ _ _ _ _ Hr3) in Hb2; [|set_solver].
  destruct (checkThreshold _ _ _) eqn:Ev; [|done]. cbn.
  apply raise_for_probe_sound; [done|done| |].
  - exists entry. split_and!; try done; [|right; split; [|done]];
      (eapply told_reads; [exact Hr3|set_solver|]; eapply told_reads; [exact Hr2|set_solver|done]).
  - intros e5. apply wp_bind, wp_tick. intros e6 Hq6. apply wp_ret.
    split; [by apply reads_quiet|]. by eexists _, _, _.
Qed.

(** Neither the view nor the rule is read again while the entries are judged. *)
Ltac avoid_probe :=
  unfold staleness_entry, evaluateProbeUnavailableEntry, ctx_done, blacked_out,
    IsBlackoutActive, GetEffectiveThreshold, threshold_query, raise_for_probe,
    GetActiveThresholdAlertForProbe, UpdateAlertValues, GetRecentlyClearedAlertForProbe,
    time_now, CreateAlert; avoid.

Lemma staleness_avoids q rule entry :
  q ∈ ["GetProbeStalenessByConnection"; "GetAlertRuleByName"] ->
  avoids q (staleness_entry rule entry).
Proof.
  intros [->|[->|[]%elem_of_nil]%elem_of_cons]%elem_of_cons; avoid_probe.
Qed.

Lemma unavailable_avoids q rule entry :
  q ∈ ["GetProbeStalenessByConnection"; "GetAlertRuleByName"] ->
  avoids q (evaluateProbeUnavailableEntry rule entry).
Proof.
  intros [->|[->|[]%elem_of_nil]%elem_of_cons]%elem_of_cons; avoid_probe.
Qed.

(** The view and the rule that the loops over its entries rely on. *)
Definition viewing (entries : list ProbeStaleness) (name : string) (rule : AlertRule)
    (e : engine) : Prop :=
  sound e /\ (forall entry, entry ∈ entries -> viewed (log e) entry) /\
  named_rule (log e) name rule.

Lemma viewing_step {A} entries name rule (m : M A) e :
  viewing entries name rule e -> wp m (fun _ => sound) e ->
  (forall q, q ∈ ["GetProbeStalenessByConnection"; "GetAlertRuleByName"] -> avoids q m) ->
  wp m (fun _ => viewing entries name rule) e.
Proof.
  intros (Hs & Hv & Hn) Hm Ha. apply wp_and; [done|]. apply wp_and.
  - intros entry Hin. apply told_avoids; [apply Ha; set_solver|by apply Hv].
  - apply told_avoids; [apply Ha; set_solver|done].
Qed.

Lemma viewing_quiet entries name rule e e' :
  quiet e e' -> viewing entries name rule e -> viewing entries name rule e'.
Proof.
  intros Hq (Hs & Hv & Hn). pose proof (quiet_sound _ _ _ _ Hq Hs).
  unfold viewing, viewed, named_rule. destruct Hq as (-> & _). done.
Qed.

(** The rule found by its name, with the view still in place. *)
Lemma rule_by_name_sound name entries (k : res db_error AlertRule -> M unit) e :
  sound e -> (forall entry, entry ∈ entries -> viewed (log e) entry) ->
  (forall err, k (Err err) = ret tt) ->
  (forall rule e', DefaultEnabled rule = false -> wp (k (Ok rule)) (fun _ e => e = e') e') ->
  (forall rule e', viewing entries name rule e' -> wp (k (Ok rule)) (fun _ => sound) e') ->
  wp (bind (GetAlertRuleByName name) k)
    (fun _ e' => sound e') e.
Proof.
  intros Hs Hv Herr Hoff Hk. apply wp_bind, wp_query. intros n e1 Hl1 _.
  pose proof (sound_asked _ _ _ _ _ Hl1 Hs) as Hs1.
  destruct (fails n _) eqn:Ef; [by rewrite Herr|].
  destruct (find _ _) as [rule|] eqn:Er; cbn; [|by rewrite Herr].
  destruct (DefaultEnabled rule) eqn:Een.
  - apply Hk. split_and!; [done| |].
    + intros entry Hin. eapply told_logs; [exact Hl1|done|by apply Hv].
    + apply find_some in Er as [Hin Hname%String.eqb_eq].
      eapply told_now; [done..|]. split_and!; [by apply list_elem_of_In|done|done].
  - eapply wp_mono; [|by apply Hoff]. by intros ? ? ->.
Qed.

Lemma probe_rules_sound e : sound e -> wp evaluateProbeScopedRules (fun _ => sound) e.
Proof.
  intros Hs. apply wp_bind, wp_query. intros n e1 Hl1 _.
  pose proof (sound_asked _ _ _ _ _ Hl1 Hs) as Hs1.
  destruct (fails n _) eqn:Ef; [done|].
  set (entries := staleness_rows _ _).
  assert (forall entry, entry ∈ entries -> viewed (log e1) entry) as Hv1
    by (intros; by eapply told_now).
  apply wp_bind. apply (wp_mono _ (fun _ e => sound e /\
    forall entry, entry ∈ entries -> viewed (log e) entry)).
  - intros _ e2 [Hs2 Hv2]. unfold evaluateProbeUnavailable.
    apply (rule_by_name_sound _ entries); [done|done|done|by intros rule e3 ->|].
    intros rule e3 Hview. destruct (negb _); [apply Hview|]. apply wp_bind.
    apply (wp_mono _ (fun _ => viewing entries probeUnavailableRuleName rule)); [by intros ? ? []|].
    apply wp_for_each; [done|]. intros entry e4 Hin Hview4. apply wp_bind, wp_tick. intros e5 Hq5.
    apply (viewing_quiet _ _ _ _ _ Hq5) in Hview4. destruct (cancelled _); [done|].
    destruct (IsAvailable entry) eqn:Eav; [done|]. apply wp_bind.
    apply (wp_mono _ (fun _ => viewing entries probeUnavailableRuleName rule)); [done|].
    apply viewing_step; [done| |by intros; apply unavailable_avoids].
    destruct Hview4 as (? & Hv & ?). apply unavailable_entry_sound; try done. by apply Hv.
  - unfold evaluateMetricStaleness. apply wp_and.
    + apply (rule_by_name_sound _ entries); [done|done|done|by intros rule e3 ->|].
      intros rule e3 Hview. destruct (negb _); [apply Hview|]. apply wp_bind.
      apply (wp_mono _ (fun _ => viewing entries metricStalenessRuleName rule)); [by intros ? ? []|].
      apply wp_for_each; [done|]. intros entry e4 Hin Hview4.
      apply viewing_step; [done| |by intros; apply staleness_avoids].
      destruct Hview4 as (? & Hv & ?). apply staleness_entry_sound; try done. by apply Hv.
    + intros entry Hin. apply told_avoids; [|by apply Hv1].
      unfold GetAlertRuleByName. avoid.
      apply avoids_for_each. intros. apply staleness_avoids. set_solver.
Qed.

Context (Htrigger : forall n, trigger <= trigger_count (getConfig n)).

Lemma rule_avoids rule :
  avoids "GetEnabledAlertRules" (evaluateRuleForAllConnections rule).
Proof.
  unfold evaluateRuleForAllConnections, GetLatestMetricValues, dropDeletedConnections,
    connectionsWithRequiredExtension, GetConnectionsWithExtension, thresholdTriggerCount.
  avoid. apply avoids_for_each. intros mv. apply value_avoids_rules.
Qed.

Lemma rule_sound rule e :
  sound e -> listed_rule (log e) rule ->
  wp (evaluateRuleForAllConnections rule) (fun _ => sound) e.
Proof.
  intros Hs Hrule. unfold evaluateRuleForAllConnections. apply wp_bind.
  eapply wp_mono; [|apply latest_reported]. intros [values|err] e1 [Hr1 Hrep];
    pose proof (reads_sound _ _ _ _ _ Hr1 Hs) as Hs1; [|by destruct err].
  specialize (Hrep values eq_refl).
  apply (told_reads _ _ _ _ _ Hr1) in Hrule; [|unfold metric_queries; set_solver].
  apply wp_bind, (wp_asks ["GetConnectionsWithExtension"]); [apply asks_extension|].
  intros withExtension e2 Hr2. pose proof (reads_sound _ _ _ _ _ Hr2 Hs1) as Hs2.
  apply (told_reads _ _ _ _ _ Hr2) in Hrule; [|set_solver].
  apply wp_bind, wp_tick. intros e3 Hq3. pose proof (quiet_sound _ _ _ _ Hq3 Hs2) as Hs3.
  set (I e := sound e /\ listed_rule (log e) rule /\
    forall mv, mv ∈ values -> reported (log e) (rule_metric rule) mv).
  apply wp_bind, (wp_mono _ (fun _ => I)); [by intros ?? [? _]|].
  apply wp_for_each.
  - destruct Hq3 as (Hl3 & _). unfold I, listed_rule. rewrite Hl3. split_and!; [done|done|].
    intros mv Hmv. eapply told_reads; [exact Hr2|set_solver|by apply Hrep].
  - intros mv e4 Hmv (Hs4 & Hrule4 & Hrep4). apply wp_and; [|apply wp_and].
    + apply evaluate_value_sound; [done|apply Htrigger|done|by apply Hrep4].
    + apply told_avoids; [apply value_avoids_rules|done].
    + intros mv' Hmv'. apply told_avoids; [apply value_avoids|by apply Hrep4].
Qed.

Lemma rules_sound rules unread e :
  sound e -> (forall rule, rule ∈ rules -> listed_rule (log e) rule) ->
  wp (evaluate_rules rules unread) (fun _ => sound) e.
Proof.
  revert unread e. induction rules as [|rule rules IH]; intros unread e Hs Hall; [done|].
  cbn. apply wp_bind, wp_tick. intros e1 Hq1.
  pose proof (quiet_sound _ _ _ _ Hq1 Hs) as Hs1. destruct (cancelled _); [done|].
  destruct Hq1 as (Hl1 & _). unfold listed_rule in Hall. rewrite <- Hl1 in Hall.
  apply wp_bind, (wp_mono _ (fun _ e => sound e /\
    forall rule, rule ∈ rules -> listed_rule (log e) rule)).
  - intros read e2 [Hs2 Hall2]. by apply IH.
  - apply wp_and; [apply rule_sound; [done|by apply Hall, list_elem_of_here]|].
    intros rule' Hin. apply told_avoids; [apply rule_avoids|by apply Hall, list_elem_of_further].
Qed.

Lemma evaluateThresholds_sound e : sound e -> wp evaluateThresholds (fun _ => sound) e.
Proof.
  intros Hs. apply wp_bind, wp_query. intros n e1 Hl1 _.
  pose proof (sound_asked _ _ _ _ _ Hl1 Hs) as Hs1.
  destruct (fails n _) eqn:Ef; [done|]. set (rules := merge_sort _ _).
  assert (forall rule, rule ∈ rules -> listed_rule (log e1) rule) as Hall.
  { intros rule Hin. eapply told_now; [done..|]. unfold rules in Hin.
    rewrite merge_sort_Permutation in Hin. apply list_elem_of_In, filter_In in Hin as [Hin Hen].
    split; [by apply list_elem_of_In|done]. }
  apply wp_bind, wp_trigger_startPass. intros e2 Hl2 _.
  assert (sound e2) as Hs2 by (by eapply sound_logs).
  apply wp_bind, (wp_mono _ (fun _ => sound)).
  - intros [unread|] e3 Hs3; [|done].
    apply wp_bind, wp_trigger_sweep. intros e4 Hl4 _.
    apply probe_rules_sound. by eapply sound_logs.
  - apply rules_sound; [done|]. intros rule Hin. eapply told_logs; [exact Hl2|done|by apply Hall].
Qed.
End Reads.
