(* ===== verification/CleanerSound.v ===== *)
(** * The cleaner acts on grounds

    The same for the passes of the cleaner. *)
From stdpp Require Import base list strings gmap sorting.
From Stdlib Require Import SpecFloat.
From S2P Require Import Prelude Streaks AlertDb Thresholds Cleaner AlertLog AlertWp AlertSound.

Local Open Scope string_scope.
Local Open Scope Z_scope.
Local Open Scope engine_scope.

Section Cleaning.
Context `{World} {trigger clear : Z}.
Abbreviation sound := (AlertLog.sound trigger clear).

(** The answers on which a cleaning pass relies, each asked once. *)
Definition pinned : list string :=
  ["GetActiveAlerts"; "GetUnmonitoredConnections"; "GetProbeStalenessByConnection"].

Definition found_active (a : Alert) (l : list event) : Prop :=
  told "GetActiveAlerts" l (fun _ d => a ∈ map alert_of (alerts d) /\ Status a = "active").

(** The view that the pass holds: the last one read, with the reading of the
    clock just before. *)
Definition snapshot (rows : list ProbeStaleness) (t : Z) (e : engine) : Prop :=
  told "GetProbeStalenessByConnection" (log e) (fun n d =>
    staleness_rows d (db_now n) = rows /\ t = now (pred n) /\ (n < steps e)%nat).

Lemma snapshot_grows rows t e e' :
  (forall P, told "GetProbeStalenessByConnection" (log e) P ->
     told "GetProbeStalenessByConnection" (log e') P) ->
  (steps e <= steps e')%nat -> snapshot rows t e -> snapshot rows t e'.
Proof.
  intros Hk Hst Hs. apply Hk in Hs as (n & d & Hl & Hf & Hr & Ht & Hn).
  exists n, d. split_and!; [done..|lia].
Qed.

Record cleaning (active : list Alert) (s : snapshots) (e : engine) : Prop := {
  cl_sound : sound e;
  cl_active : forall a, a ∈ active -> found_active a (log e);
  cl_unmonitored : forall m, unmonitored s = Some (Ok m) ->
    told "GetUnmonitoredConnections" (log e) (fun _ d => unmonitored_connections d = m);
  cl_staleness : forall rows t, staleness s = Some (Ok rows, t) ->
    snapshot rows t e;
}.

(** Entries that leave those answers in place. *)
Definition harmless_entry (ev : event) : Prop :=
  match ev with Asked q _ _ => q ∉ pinned | _ => True end.

Lemma cleaning_logs active s ev e e' :
  logs ev e e' -> harmless_entry ev -> fine trigger clear (log e) ev ->
  cleaning active s e -> cleaning active s e'.
Proof.
  intros Hl Hh Hf [Hs Ha Hu Hst].
  assert (forall q, q ∈ pinned -> forall n d, ev <> Asked q n d) as Hne.
  { intros q Hq n d ->. done. }
  unfold pinned in Hne. split; [by eapply sound_logs| | |].
  - intros a Hin. eapply told_logs; [done|apply Hne; set_solver|by apply Ha].
  - intros m Hm. eapply told_logs; [done|apply Hne; set_solver|by apply Hu].
  - intros rows t Ht. eapply snapshot_grows; [|apply Hl|by apply Hst].
    intros P. eapply told_logs; [done|apply Hne; set_solver].
Qed.

Lemma cleaning_reads active s qs e e' :
  reads qs e e' -> (forall q, q ∈ qs -> q ∉ pinned) ->
  cleaning active s e -> cleaning active s e'.
Proof.
  intros Hr Hqs [Hs Ha Hu Hst].
  assert (forall q, q ∈ pinned -> q ∉ qs) as Hne by (intros q ? ?; by eapply Hqs).
  unfold pinned in Hne. split; [by eapply reads_sound| | |].
  - intros a Hin. eapply told_reads; [done|apply Hne; set_solver|by apply Ha].
  - intros m Hm. eapply told_reads; [done|apply Hne; set_solver|by apply Hu].
  - intros rows t Ht. eapply snapshot_grows; [| |by apply Hst].
    + intros P. eapply told_reads; [done|apply Hne; set_solver].
    + by destruct Hr as (_ & _ & _ & _ & _ & ?).
Qed.

Lemma cleaning_quiet active s e e' :
  quiet e e' -> cleaning active s e -> cleaning active s e'.
Proof. intros Hq. apply (cleaning_reads _ _ []); [by apply reads_quiet|set_solver]. Qed.

(** Grounds stay grounds. *)
Lemma clear_grounds_logs ev id e e' :
  logs ev e e' -> harmless_entry ev ->
  match ev with OnClear _ => False | _ => True end ->
  clear_grounds clear (log e) id -> clear_grounds clear (log e') id.
Proof.
  intros Hl Hh Hno (a & Hact & Hid & Hsys & Hcase).
  assert (forall q, q ∈ pinned -> forall n d, ev <> Asked q n d) as Hne.
  { intros q Hq n d ->. done. }
  unfold pinned in Hne. exists a. split_and!; [|done|done|].
  { eapply told_logs; [done|apply Hne; set_solver|done]. }
  destruct Hcase as [Hu|Hcase].
  { left. eapply told_logs; [done|apply Hne; set_solver|done]. }
  right. destruct (ProbeName a) as [probe|].
  - eapply told_logs; [done|apply Hne; set_solver|done].
  - destruct Hcase as [Hw|Hrun]; [by left|right]. destruct Hl as [Hl _].
    rewrite Hl, clear_ops_snoc, length_app. intros Hlen.
    replace (match ev with OnClear op => [op] | _ => [] end) with (@nil (streak_op Z))
      by (by destruct ev).
    rewrite app_nil_r. apply Hrun. lia.
Qed.

Lemma clear_alert_cleaning active s id (Q : res db_error unit -> engine -> Prop) e :
  cleaning active s e -> clear_grounds clear (log e) id ->
  (forall r e', cleaning active s e' ->
     (is_ok r = true -> exists l, log e' = (l ++ [Cleared id])%list) -> Q r e') ->
  wp (ClearAlert id) Q e.
Proof.
  intros Hc Hg HQ. apply wp_exec. intros n e1 Hl1 _.
  assert (harmless_entry (Asked "ClearAlert" n (db e1))) as Hh by (cbn; unfold pinned; set_solver).
  assert (cleaning active s e1) as Hc1 by (by eapply cleaning_logs).
  split; [by apply HQ|]. intros a d evs e2 [= <- <- <-] Hw _.
  apply wrote_logs in Hw; [|done].
  assert (cleaning active s e2) as Hc2.
  { eapply cleaning_logs; [exact Hw|done| |done]. cbn. by eapply clear_grounds_logs. }
  split; apply HQ; [done|done|done|]. intros _. exists (log e1). apply Hw.
Qed.

Lemma clearResolved_cleaning active s alert e :
  cleaning active s e -> clear_grounds clear (log e) (ID alert) ->
  wp (clearResolvedAlert alert) (fun _ => cleaning active s) e.
Proof.
  intros Hc Hg. apply wp_bind, (clear_alert_cleaning active s); [done..|].
  intros [[]|] e1 Hc1 Hl; [|done]. apply wp_queue.
  intros e2 [Hq|[Hq _]]; [by eapply cleaning_quiet|].
  eapply cleaning_logs; [exact Hq|done| |done]. cbn. by apply Hl.
Qed.

Lemma rewrite_cleaning active s alert text e :
  cleaning active s e ->
  wp (rewrite_description alert text) (fun a e' => ID a = ID alert /\ cleaning active s e' /\
    (forall id, clear_grounds clear (log e) id -> clear_grounds clear (log e') id)) e.
Proof.
  intros Hc. apply wp_bind, wp_exec. intros n e1 Hl1 _.
  assert (harmless_entry (Asked "UpdateAlertDescription" n (db e1))) as Hh
    by (cbn; unfold pinned; set_solver).
  assert (cleaning active s e1) as Hc1 by (by eapply cleaning_logs).
  assert (forall id, clear_grounds clear (log e) id -> clear_grounds clear (log e1) id) as Hg1.
  { intros id. by eapply clear_grounds_logs. }
  split; [done|]. intros a d evs e2 [= <- <- <-] Hw _. apply wrote_logs in Hw; [|done].
  assert (cleaning active s e2) as Hc2 by (by eapply cleaning_logs).
  assert (forall id, clear_grounds clear (log e) id -> clear_grounds clear (log e2) id) as Hg2.
  { intros id Hid. eapply clear_grounds_logs; [done..|]. by apply Hg1. }
  by split.
Qed.

Lemma close_cleaning active s alert starts text e :
  cleaning active s e -> clear_grounds clear (log e) (ID alert) ->
  wp (close_with_reason alert starts text) (fun _ => cleaning active s) e.
Proof.
  intros Hc Hg. unfold close_with_reason. apply wp_bind.
  apply (wp_mono _ (fun a e' => ID a = ID alert /\ cleaning active s e' /\
    clear_grounds clear (log e') (ID alert))).
  - intros a e1 (Hid & Hc1 & Hg1). rewrite <- Hid in Hg1.
    by apply wp_bind, (clear_alert_cleaning active s).
  - destruct (String.prefix _ _); [done|].
    eapply wp_mono; [|by apply rewrite_cleaning]. intros a e1 (Hid & Hc1 & Hg1).
    split_and!; [done|done|by apply Hg1].
Qed.

Lemma unmonitored_cleaning active s e :
  cleaning active s e ->
  wp (unmonitored_get s) (fun rs e' => cleaning active rs.2 e' /\
    (forall m, rs.1 = Ok m -> told "GetUnmonitoredConnections" (log e') (fun _ d =>
       unmonitored_connections d = m))) e.
Proof.
  intros Hc. unfold unmonitored_get. destruct (unmonitored s) as [r|] eqn:Eu.
  { split; [done|]. cbn. intros m ->. by apply (cl_unmonitored _ _ _ Hc). }
  apply wp_bind, wp_query. intros n e1 Hl1 _. apply wp_ret. cbn.
  assert (forall m, (if fails n "GetUnmonitoredConnections" then Err QueryFailed
      else Ok (unmonitored_connections (db e1))) = Ok m ->
    told "GetUnmonitoredConnections" (log e1) (fun _ d => unmonitored_connections d = m)) as Ht.
  { intros m Hm. destruct (fails n _) eqn:Ef; [done|]. injection Hm as <-.
    by eapply told_now. }
  split; [|done]. destruct Hc as [Hs Ha Hu Hst]. split; cbn.
  - by eapply sound_asked.
  - intros a Hin. eapply told_logs; [done|done|by apply Ha].
  - intros m [= Hm]. by apply Ht.
  - intros rows t Hr. eapply snapshot_grows; [|apply Hl1|by apply Hst].
    intros P. by eapply told_logs.
Qed.

Lemma staleness_cleaning active s e :
  cleaning active s e ->
  wp (staleness_get s) (fun rs e' => cleaning active rs.2 e' /\
    (forall rows, rs.1 = Ok rows -> exists t, staleness rs.2 = Some (Ok rows, t) /\
       snapshot rows t e')) e.
Proof.
  intros Hc. unfold staleness_get. destruct (staleness s) as [[r t]|] eqn:Eu.
  { split; [done|]. cbn. intros rows ->. exists t. split; [done|].
    by apply (cl_staleness _ _ _ Hc). }
  unfold wp, bind, time_now, tick, GetProbeStalenessByConnection, query. cbn.
  set (n := S (steps e)). set (e1 := {| db := _ |}).
  assert (logs (Asked "GetProbeStalenessByConnection" n (db e1)) e e1) as Hl1.
  { split_and!; try done. cbn. lia. }
  assert (forall rows, (if fails n "GetProbeStalenessByConnection" then Err QueryFailed
      else Ok (staleness_rows (db e1) (db_now n))) = Ok rows ->
    snapshot rows (now (steps e)) e1) as Ht.
  { intros rows Hm. destruct (fails n _) eqn:Ef; [done|]. injection Hm as <-.
    eapply told_now; [done..|]. split_and!; [done..|]. cbn. lia. }
  split; [|intros rows Hm; eexists; split; [by rewrite Hm|by apply Ht]].
  destruct Hc as [Hs Ha Hu Hst]. split.
  - by eapply sound_asked.
  - intros a Hin. eapply told_logs; [exact Hl1|done|by apply Ha].
  - intros m Hm. cbn in Hm. eapply told_logs; [exact Hl1|done|by apply Hu].
  - intros rows t [= Hm <-]. by apply Ht.
Qed.

(** The age of the view is read off the clock now. *)
Lemma age_cleaning active s rows t e :
  cleaning active s e -> staleness s = Some (Ok rows, t) -> snapshot rows t e ->
  wp (age s) (fun a e' => cleaning active s e' /\
    told "GetProbeStalenessByConnection" (log e') (fun n d =>
      staleness_rows d (db_now n) = rows /\ exists m, (n < m)%nat /\ a = elapsed n m)) e.
Proof.
  intros Hc Hst (n & d & Hl & Hf & Hr & Ht & Hn). unfold age. rewrite Hst.
  apply wp_bind, wp_tick. intros e1 Hq. apply wp_ret. split; [by eapply cleaning_quiet|].
  exists n, d. destruct Hq as (-> & _). split_and!; [done..|].
  exists (steps e). unfold elapsed. rewrite Ht. done.
Qed.

Context (Hclear : forall n, clear <= clear_count (getConfig n)).

(** An alert of a metric, found active, that has been absent long enough. *)
Lemma resolved_cleaning active s alert sampled e :
  cleaning active s e -> alert ∈ active -> IsSystem alert = false -> ProbeName alert = None ->
  recovery_grounds (log e) (ID alert) sampled true ->
  wp (recordResolvedSample alert sampled) (fun _ => cleaning active s) e.
Proof.
  intros Hc Hin Hsys Hprobe Hg. unfold recordResolvedSample. apply wp_bind, wp_tick.
  intros e1 Hq1. apply (cleaning_quiet _ _ _ _ Hq1) in Hc.
  apply wp_bind, wp_clear_observe. intros e2 Hl2 _.
  assert (cleaning active s e2) as Hc2.
  { eapply cleaning_logs; [exact Hl2|done| |done]. cbn. by destruct Hq1 as (-> & _). }
  destruct (Z.ltb_spec (count (clearStreaks e2) (ID alert))
    match getConfig (steps e) with
    | Some cfg => if ClearCount cfg <? 1 then 1 else ClearCount cfg | None => 1 end)
    as [|Hge]; [done|].
  apply clearResolved_cleaning; [done|]. exists alert. split_and!; [by apply Hc2|done|done|].
  right. rewrite Hprobe. right. intros Hlen.
  pose proof (clear_replayed _ _ _ (cl_sound _ _ _ Hc2)) as Hrep. rewrite Hrep in Hge.
  destruct (count_sustained (clear_ops (log e2)) (ID alert)) as (samples & Hsus & Hn).
  { unfold short. pose proof (clear_ops_length (log e2)). lia. }
  exists samples. split; [done|]. pose proof (Hclear (steps e)) as Hcl.
  unfold clear_count in Hcl. lia.
Qed.

Lemma violating_cleaning active s alert sampled e :
  cleaning active s e -> recovery_grounds (log e) (ID alert) sampled false ->
  wp (recordViolatingSample alert sampled) (fun _ => cleaning active s) e.
Proof.
  intros Hc Hg. apply wp_bind, wp_clear_observe. intros e1 Hl1 _. by eapply cleaning_logs.
Qed.

Lemma about_probe_entry rows c probe entry :
  entry ∈ rows -> about_probe c probe entry = true -> entry_of rows c probe entry.
Proof.
  unfold about_probe. intros Hin [Hc%Z.eqb_eq Hp%String.eqb_eq]%andb_true_iff. done.
Qed.

Lemma no_entry rows c probe :
  find (about_probe c probe) rows = None -> forall entry, ~ entry_of rows c probe entry.
Proof.
  intros Hf entry (Hin%list_elem_of_In & Hc & Hp). apply (find_none _ _ Hf) in Hin.
  unfold about_probe in Hin. by rewrite Hc, Hp, Z.eqb_refl, String.eqb_refl in Hin.
Qed.

(** An absent row counts when the probe has collected inside the window. *)
Lemma classify_clear clears probe window c entries age :
  classifyAbsentMetric clears probe window c entries age = absentMetricClear ->
  clears = true /\ exists entry, entry_of entries c probe entry /\
    IsAvailable entry = true /\ probeLastCollected entries c probe = LastCollected entry /\
    int64 (SinceCollected entry + age) <= window.
Proof.
  unfold classifyAbsentMetric, probeLastCollected. intros Hv. split_ifs; try done.
  destruct (find _ entries) as [entry|] eqn:Ef; [|done]. split_ifs; try done.
  apply find_some in Ef as [Hin Hab]. bool_hyps. split; [by destruct clears|].
  exists entry. split_and!; [|done..|lia]. apply about_probe_entry; [|by bool_hyps].
  by apply list_elem_of_In.
Qed.

Lemma absent_cleaning active s alert metric operator threshold e :
  cleaning active s e -> alert ∈ active -> IsSystem alert = false -> ProbeName alert = None ->
  MetricName alert = Some metric -> Operator alert = Some operator ->
  ThresholdValue alert = Some threshold ->
  wp (resolveAbsentMetric alert metric s) (fun s' => cleaning active s') e.
Proof.
  intros Hc Hin Hsys Hprobe Hm Hop Hth. unfold resolveAbsentMetric. apply wp_bind.
  destruct (_ && _) eqn:Eask.
  - eapply wp_mono; [|by apply staleness_cleaning].
    intros [[rows|] s1] e1 [Hc1 Ht]; cbn in Hc1, Ht; [|done].
    destruct (Ht rows eq_refl) as (t & Hst & Hsn). apply wp_bind.
    eapply wp_mono; [|by eapply age_cleaning].
    intros a e2 [Hc2 (n1 & d1 & Ha1 & Hf1 & Hr1 & m & Hm1 & Hage)].
    destruct (classifyAbsentMetric _ _ _ _ _ _) eqn:Ev; try done.
    apply classify_clear in Ev as (Hcl & entry & Hen & Hav & Hlast & Hwin).
    apply wp_bind, resolved_cleaning; [done..|]. rewrite Hlast.
    exists alert, metric, operator, threshold. split_and!; [by apply Hc2|done..|].
    right. split_and!; [done..|]. exists n1, d1. rewrite Hr1. split_and!; [done..|].
    exists entry, m. rewrite <- Hage. by split_and!.
  - apply wp_ret. apply wp_bind, (wp_mono _ (fun _ e' => cleaning active s e')).
    + intros a e1 Hc1. destruct (classifyAbsentMetric _ _ _ _ _ _) eqn:Ev; try done.
      apply classify_clear in Ev as (_ & entry & (Hno & _) & _). by apply elem_of_nil in Hno.
    + unfold age. destruct (staleness s) as [[r t]|]; [|done].
      apply wp_bind, wp_tick. intros e1 Hq. by eapply cleaning_quiet.
Qed.

Lemma about_alert_spec a mv :
  about_alert a mv = true ->
  mv_connection mv = ConnectionID a /\
  (DatabaseName a = None \/ mv_database mv = DatabaseName a).
Proof.
  unfold about_alert, same. intros [Hc%Z.eqb_eq Hd]%andb_true_iff. split; [done|].
  destruct (DatabaseName a); [right; by apply bool_decide_eq_true in Hd|by left].
Qed.

Lemma registry_cleaning active s alert metric operator threshold withExtension e :
  cleaning active s e -> alert ∈ active -> IsSystem alert = false -> ProbeName alert = None ->
  MetricName alert = Some metric -> Operator alert = Some operator ->
  ThresholdValue alert = Some threshold ->
  wp (checkRegistryAlertResolved alert metric operator threshold withExtension s)
    (fun s' => cleaning active s') e.
Proof.
  intros Hc Hin Hsys Hprobe Hm Hop Hth. unfold checkRegistryAlertResolved.
  destruct (gated_out _ _); [done|]. apply wp_bind.
  eapply wp_mono; [|apply latest_reported]. intros values e1 [Hr1 Hrep].
  apply (cleaning_reads _ _ _ _ _ Hr1) in Hc;
    [|unfold metric_queries, pinned; set_solver].
  destruct values as [values|[]]; try done; [|by eapply absent_cleaning].
  destruct (find _ _) as [mv|] eqn:Ef; [|by eapply absent_cleaning].
  apply find_some in Ef as [Hmv Hab].
  assert (recovery_grounds (log e1) (ID alert) (CollectedAt mv)
    (negb (checkThreshold (mv_value mv) operator threshold))) as Hg.
  { exists alert, metric, operator, threshold. split_and!; [by apply Hc|done..|]. left.
    apply about_alert_spec in Hab as [Hconn Hdb].
    exists mv. split_and!; [|done..]. by eapply Hrep, list_elem_of_In. }
  destruct (checkThreshold _ _ _); apply wp_bind;
    [by apply violating_cleaning|by apply resolved_cleaning].
Qed.

(** A probe's alert whose condition is over. *)
Lemma probe_clear_grounds active s alert probe e :
  cleaning active s e -> alert ∈ active -> IsSystem alert = false ->
  ProbeName alert = Some probe ->
  told "GetProbeStalenessByConnection" (log e) (fun n d =>
    probe_over alert probe n (staleness_rows d (db_now n))) ->
  clear_grounds clear (log e) (ID alert).
Proof.
  intros Hc Hin Hsys Hprobe Hover.
  exists alert. split_and!; [by apply Hc|done|done|]. right. by rewrite Hprobe.
Qed.

(** A view without the probe. *)
Lemma missing_over alert probe rows t e :
  snapshot rows t e -> find (about_probe (ConnectionID alert) probe) rows = None ->
  told "GetProbeStalenessByConnection" (log e) (fun n d =>
    probe_over alert probe n (staleness_rows d (db_now n))).
Proof.
  intros (n & d & Hl & Hf & Hr & _) Hfind. exists n, d. rewrite Hr. split_and!; [done..|].
  left. by apply no_entry.
Qed.

Lemma unavailable_cleaning active s alert probe e :
  cleaning active s e -> alert ∈ active -> IsSystem alert = false ->
  ProbeName alert = Some probe -> MetricName alert = Some "probe_available" ->
  wp (checkProbeUnavailableAlertResolved alert probe s) (fun s' => cleaning active s') e.
Proof.
  intros Hc Hin Hsys Hprobe Hm. apply wp_bind.
  eapply wp_mono; [|by apply staleness_cleaning].
  intros [[rows|] s1] e1 [Hc1 Ht]; cbn in *; [|done].
  destruct (Ht rows eq_refl) as (t & _ & Hsn).
  destruct (find _ rows) as [entry|] eqn:Efind.
  - destruct (IsAvailable entry) eqn:Eav; [|done]. cbn. apply wp_bind.
    apply clearResolved_cleaning; [done|]. eapply probe_clear_grounds; [done..|].
    destruct Hsn as (n & d & Hl & Hf & Hr & _). exists n, d. rewrite Hr. split_and!; [done..|].
    right. apply find_some in Efind as [Hen Hab]. exists entry. split_and!; [|done|by left].
    apply about_probe_entry; [by apply list_elem_of_In|done].
  - apply wp_bind, clearResolved_cleaning; [done|].
    eapply probe_clear_grounds; [done..|]. by eapply missing_over.
Qed.

(** Putting a description back keeps the alert and the grounds. *)
Definition restores active s alert (e : engine) (a : Alert) (e' : engine) : Prop :=
  ID a = ID alert /\ cleaning active s e' /\
  (forall id, clear_grounds clear (log e) id -> clear_grounds clear (log e') id).

Lemma restore_cleaning active s alert threshold probe name collectionInterval ratio e :
  cleaning active s e ->
  wp (restoreStalenessAlertDescription alert threshold probe name collectionInterval ratio)
    (restores active s alert e) e.
Proof.
  intros Hc. unfold restoreStalenessAlertDescription.
  destruct (negb _); [by split_and!|]. destruct (String.eqb _ _); [by split_and!|].
  by apply rewrite_cleaning.
Qed.

Lemma clear_grounds_reads qs id e e' :
  reads qs e e' -> (forall q, q ∈ qs -> q ∉ pinned) ->
  clear_grounds clear (log e) id -> clear_grounds clear (log e') id.
Proof.
  intros Hr Hqs (a & Hact & Hid & Hsys & Hcase).
  assert (forall q, q ∈ pinned -> q ∉ qs) as Hne by (intros q ? ?; by eapply Hqs).
  unfold pinned in Hne. exists a. split_and!; [|done|done|].
  { eapply told_reads; [done|apply Hne; set_solver|done]. }
  destruct Hcase as [Hu|Hcase].
  { left. eapply told_reads; [done|apply Hne; set_solver|done]. }
  right. destruct (ProbeName a) as [probe|].
  - eapply told_reads; [done|apply Hne; set_solver|done].
  - destruct Hcase as [Hw|Hrun]; [by left|right].
    destruct (reads_ops _ _ _ Hr) as [_ ->]. destruct Hr as (evs & -> & _).
    rewrite length_app. intros Hlen. apply Hrun. lia.
Qed.

Lemma restore_held_cleaning active s alert threshold probe e :
  cleaning active s e ->
  wp (restoreHeldDescriptionBeforeClear alert threshold probe) (restores active s alert e) e.
Proof.
  intros Hc. unfold restoreHeldDescriptionBeforeClear.
  destruct (negb _); [by split_and!|]. apply wp_bind.
  apply (wp_asks ["GetProbeStalenessContext"]); [apply asks_query; set_solver|].
  intros context e1 Hr.
  assert (forall q, q ∈ ["GetProbeStalenessContext"] -> q ∉ pinned) as Hqs
    by (unfold pinned; set_solver).
  assert (cleaning active s e1) as Hc1 by (by eapply cleaning_reads).
  assert (forall id, clear_grounds clear (log e) id -> clear_grounds clear (log e1) id) as Hg
    by (intros id; by eapply clear_grounds_reads).
  destruct context as [[[name collectionInterval]|]|]; [|by split_and!..].
  eapply wp_mono; [|by apply restore_cleaning]. intros a e2 (Hid & Hc2 & Hg2).
  split_and!; [done|done|]. intros id Hgr. by apply Hg2, Hg.
Qed.

Lemma staleness_check_cleaning active s alert probe operator threshold e :
  cleaning active s e -> alert ∈ active -> IsSystem alert = false ->
  ProbeName alert = Some probe -> ThresholdValue alert = Some threshold ->
  Operator alert = Some operator ->
  wp (checkStalenessAlertResolved alert probe operator threshold s)
    (fun s' => cleaning active s') e.
Proof.
  intros Hc Hin Hsys Hprobe Hth Hop. apply wp_bind.
  eapply wp_mono; [|by apply staleness_cleaning].
  intros [[rows|] s1] e1 [Hc1 Ht]; cbn in *; [|done].
  destruct (Ht rows eq_refl) as (t & Hst & Hsn).
  destruct (find _ rows) as [entry|] eqn:Efind.
  - destruct (IsAvailable entry) eqn:Eav; cbn.
    + apply wp_bind. eapply wp_mono; [|by eapply age_cleaning].
      intros a e2 [Hc2 (n & d & Hl & Hf & Hr & m & Hnm & Hage)]. apply wp_bind.
      eapply wp_mono; [|by apply restore_cleaning]. intros b e3 (Hid & Hc3 & Hg3).
      destruct (checkThreshold _ _ _) eqn:Ech; [done|]. apply wp_bind.
      apply clearResolved_cleaning; [done|]. rewrite Hid. apply Hg3.
      eapply probe_clear_grounds; [done..|]. exists n, d. rewrite Hr. split_and!; [done..|].
      apply find_some in Efind as [Hen Hab]. right. exists entry. split_and!; [|done|].
      * apply about_probe_entry; [by apply list_elem_of_In|done].
      * right. exists threshold, operator, m. by rewrite <- Hage.
    + apply wp_bind. unfold holdStalenessAlertForUnavailableProbe.
      destruct (String.eqb _ _); [done|]. apply wp_bind.
      eapply wp_mono; [|by apply rewrite_cleaning]. by intros a e2 (_ & ? & _).
  - apply wp_bind. eapply wp_mono; [|by apply restore_held_cleaning].
    intros a e3 (Hid & Hc3 & Hg3). apply wp_bind, clearResolved_cleaning; [done|].
    rewrite Hid. apply Hg3. eapply probe_clear_grounds; [done..|]. by eapply missing_over.
Qed.

Lemma check_cleaning active s alert withExtension e :
  cleaning active s e -> alert ∈ active -> IsSystem alert = false ->
  wp (checkAlertResolved alert withExtension s) (fun s' => cleaning active s') e.
Proof.
  intros Hc Hin Hsys. unfold checkAlertResolved.
  destruct (MetricName alert) as [metric|] eqn:Em; [|done].
  destruct (ThresholdValue alert) as [threshold|] eqn:Et; [|done].
  destruct (Operator alert) as [operator|] eqn:Eo; [|done].
  destruct (ProbeName alert) as [probe|] eqn:Ep.
  - destruct (String.eqb_spec metric probeUnavailableMetricName) as [->|_];
      [by apply unavailable_cleaning|by apply staleness_check_cleaning].
  - destruct (bool_decide _ && _) eqn:Ew; [|by apply registry_cleaning].
    apply andb_true_iff in Ew as [Hdb%bool_decide_eq_true Hw].
    apply wp_bind, close_cleaning; [done|]. exists alert.
    split_and!; [by apply Hc|done|done|]. right. rewrite Ep. left. eauto.
Qed.

Lemma unmonitored_clear_cleaning active s alert e :
  cleaning active s e -> alert ∈ active -> IsSystem alert = false ->
  wp (clearAlertForUnmonitoredConnection alert s) (fun bs => cleaning active bs.2) e.
Proof.
  intros Hc Hin Hsys. apply wp_bind.
  eapply wp_mono; [|by apply unmonitored_cleaning].
  intros [[m|] s1] e1 [Hc1 Ht]; cbn in *; [|done]. specialize (Ht m eq_refl).
  destruct (m !! ConnectionID alert) as [name|] eqn:Em; [|done].
  apply wp_bind, close_cleaning; [done|]. exists alert.
  split_and!; [by apply Hc1|done|done|]. left.
  destruct Ht as (n & d & Hl & Hf & <-). exists n, d. split_and!; [done..|]. by eexists.
Qed.

Lemma clean_alert_cleaning active s gates alert e :
  cleaning active s e -> alert ∈ active ->
  wp (clean_alert gates alert s) (fun s' => cleaning active s') e.
Proof.
  intros Hc Hin. unfold clean_alert. destruct (IsSystem alert) eqn:Hsys; [done|].
  apply wp_bind. eapply wp_mono; [|by apply unmonitored_clear_cleaning].
  intros [claimed s1] e1 Hc1; cbn in Hc1. destruct claimed; [done|].
  destruct (RuleID alert) as [id|]; [|done]. destruct (String.eqb _ _); [|done].
  by apply check_cleaning.
Qed.

Lemma clean_alerts_cleaning active gates alerts s e :
  cleaning active s e -> (forall a, a ∈ alerts -> a ∈ active) ->
  wp (clean_alerts gates alerts s) (fun _ => sound) e.
Proof.
  revert s e. induction alerts as [|a alerts IH]; intros s e Hc Hin; [apply Hc|].
  cbn. apply wp_bind, wp_tick. intros e1 Hq1. apply (cleaning_quiet _ _ _ _ Hq1) in Hc.
  destruct (cancelled _); [apply Hc|]. apply wp_bind.
  eapply wp_mono; [|apply clean_alert_cleaning; [done|apply Hin, list_elem_of_here]].
  intros s1 e2 Hc2. apply IH; [done|]. intros b Hb. by apply Hin, list_elem_of_further.
Qed.

Lemma cleanResolvedAlerts_sound e : sound e -> wp cleanResolvedAlerts (fun _ => sound) e.
Proof.
  intros Hs. apply wp_bind, wp_query. intros n e1 Hl1 _.
  pose proof (sound_asked _ _ _ _ _ Hl1 Hs) as Hs1.
  destruct (fails n _) eqn:Ef; [done|].
  set (active := merge_sort _ _).
  assert (cleaning active no_snapshots e1) as Hc1.
  { split; [done| |done|done]. intros a Ha. eapply told_now; [done..|].
    unfold active in Ha. rewrite merge_sort_Permutation in Ha.
    apply list_elem_of_In, filter_In in Ha as [Ha Hst%String.eqb_eq].
    split; [by apply list_elem_of_In|done]. }
  apply wp_bind. apply (wp_asks ["GetAlertRuleByID"; "GetConnectionsWithExtension"]);
    [apply asks_gates|]. intros gates e2 Hr2.
  apply (cleaning_reads _ _ _ _ _ Hr2) in Hc1; [|unfold pinned; set_solver].
  apply wp_bind. eapply wp_mono; [|by eapply clean_alerts_cleaning].
  intros [] e3 Hs3; [|done]. apply wp_clear_retain. intros e4 Hl4 _. by eapply sound_logs.
Qed.
End Cleaning.
