(* ===== verification/OneAlert.v ===== *)
(** * One open alert for each condition

    A rule has at most one open alert for each connection, database and
    probe.  The table has no constraint to that effect: the evaluator looks
    before it inserts, and no other process opens an alert of a rule.  Between
    the look and the insertion anything else may happen to the table. *)
From stdpp Require Import base list strings gmap.
From Stdlib Require Import SpecFloat.
From S2P Require Import Prelude Streaks AlertDb Thresholds Cleaner AlertLog AlertWp AlertSound.

Local Open Scope string_scope.
Local Open Scope Z_scope.
Local Open Scope engine_scope.

(** ** Open alerts *)

Definition open_of_rule (a : Alert) : bool :=
  is_open a && bool_decide (is_Some (RuleID a)) && negb (ConnectionID a =? 0).

Definition condition_of (a : Alert) : option Z * Z * option string * option string :=
  (RuleID a, ConnectionID a, DatabaseName a, ProbeName a).

Definition open_conditions (d : datastore) : list (option Z * Z * option string * option string) :=
  map condition_of (List.filter open_of_rule (map alert_of (alerts d))).

Definition one_open (d : datastore) : Prop := NoDup (open_conditions d).

(** No open alert is new: those of [d'] were open in [d]. *)
Definition opens_none (d d' : datastore) : Prop := open_conditions d' ⊆+ open_conditions d.

(** A change row by row that opens nothing and moves nothing. *)
Lemma map_opens_none (f : alert_row -> alert_row) (rows : list alert_row) :
  (forall r, open_of_rule (alert_of (f r)) = true ->
     open_of_rule (alert_of r) = true /\
     condition_of (alert_of (f r)) = condition_of (alert_of r)) ->
  map condition_of (List.filter open_of_rule (map alert_of (map f rows))) ⊆+
  map condition_of (List.filter open_of_rule (map alert_of rows)).
Proof.
  intros Hf. induction rows as [|r rows IH]; cbn; [done|].
  destruct (open_of_rule (alert_of (f r))) eqn:E.
  - destruct (Hf r E) as [-> Hc]. cbn. rewrite Hc. by apply submseteq_skip.
  - destruct (open_of_rule (alert_of r)); cbn; [by apply submseteq_cons|done].
Qed.

Lemma update_alerts_opens_none d p f :
  (forall a, p a = true -> open_of_rule (f a) = true ->
     open_of_rule a = true /\ condition_of (f a) = condition_of a) ->
  opens_none d (update_alerts d p f).
Proof.
  intros Hf. apply map_opens_none. intros r. cbn. destruct (p (alert_of r)) eqn:E; [|done].
  cbn. by apply Hf.
Qed.

Lemma update_values_opens_none d id v t op sev time :
  opens_none d (update_values d id v t op sev time).
Proof.
  apply map_opens_none. intros r. cbn. by destruct (has_id id (alert_of r)).
Qed.

Lemma insert_conditions d a :
  open_conditions (insert_alert d a) =
  (open_conditions d ++ if open_of_rule a then [condition_of a] else [])%list.
Proof.
  unfold open_conditions. cbn. rewrite map_app, List.filter_app, map_app. f_equal. cbn.
  replace (open_of_rule _) with (open_of_rule a) by done. by destruct (open_of_rule a).
Qed.

(** Nothing is found only when there is nothing. *)
Lemma none_active_threshold d rule c dbName probe :
  active_threshold_alert d rule c dbName = None -> c <> 0 ->
  (Some rule, c, dbName, probe) ∉ open_conditions d.
Proof.
  unfold active_threshold_alert, open_conditions. intros Hnone Hc Hin.
  apply list_elem_of_In, in_map_iff in Hin as (a & [= Hr Hconn Hdb _] & Hin).
  apply filter_In in Hin as [Hin Hopen]. apply in_map_iff in Hin as (r & <- & Hr').
  destruct (find _ _) eqn:Efind in Hnone; [done|].
  pose proof (find_none _ _ Efind r Hr') as Hn. cbn in Hn.
  unfold open_of_rule in Hopen. apply andb_true_iff in Hopen as [[Ho _]%andb_true_iff _].
  unfold of_rule, on_connection, same in Hn. rewrite Hr, Hconn, Hdb, Ho in Hn.
  rewrite !bool_decide_true in Hn by done.
  rewrite (proj2 (Z.eqb_neq c 0) Hc), Z.eqb_refl in Hn. done.
Qed.

Lemma none_active_probe d rule c probe dbName :
  active_probe_alert d rule c probe = None -> c <> 0 ->
  (Some rule, c, dbName, Some probe) ∉ open_conditions d.
Proof.
  unfold active_probe_alert, open_conditions. intros Hnone Hc Hin.
  apply list_elem_of_In, in_map_iff in Hin as (a & [= Hr Hconn _ Hp] & Hin).
  apply filter_In in Hin as [Hin Hopen]. apply in_map_iff in Hin as (r & <- & Hr').
  destruct (find _ _) eqn:Efind in Hnone; [done|].
  pose proof (find_none _ _ Efind r Hr') as Hn. cbn in Hn.
  unfold open_of_rule in Hopen. apply andb_true_iff in Hopen as [[Ho _]%andb_true_iff _].
  unfold of_rule, on_connection, same in Hn. rewrite Hr, Hconn, Hp, Ho in Hn.
  rewrite !bool_decide_true in Hn by done.
  rewrite (proj2 (Z.eqb_neq c 0) Hc), Z.eqb_refl in Hn. done.
Qed.

Lemma opens_none_notin d d' x :
  opens_none d d' -> x ∉ open_conditions d -> x ∉ open_conditions d'.
Proof. intros Hs Hx Hin. apply Hx. by eapply elem_of_submseteq. Qed.

Lemma one_open_mono d d' : opens_none d d' -> one_open d -> one_open d'.
Proof.
  intros [l' Hp]%submseteq_Permutation Hd. unfold one_open in Hd. rewrite Hp in Hd.
  by apply NoDup_app in Hd as [? _].
Qed.

Lemma opens_none_refl d : opens_none d d.
Proof. unfold opens_none. reflexivity. Qed.

Lemma opens_none_trans d1 d2 d3 : opens_none d1 d2 -> opens_none d2 d3 -> opens_none d1 d3.
Proof. unfold opens_none. by intros Ho1 Ho2; etrans. Qed.

(** ** Programs that open nothing *)

Section Passes.
Context `{World}.
Context (Hothers : forall n d, opens_none d (others n d)).

Definition closed {A} (m : M A) : Prop :=
  forall e, wp m (fun _ e' => opens_none (db e) (db e')) e.

Lemma closed_ret {A} (a : A) : closed (ret a).
Proof. intros e. apply opens_none_refl. Qed.

Lemma closed_bind {A B} (m : M A) (k : A -> M B) :
  closed m -> (forall a, closed (k a)) -> closed (bind m k).
Proof.
  intros Hm Hk e. apply wp_bind. eapply wp_mono; [|apply Hm].
  intros a e' Hr. eapply wp_mono; [|apply Hk]. intros b e2 Hr2.
  exact (opens_none_trans _ _ _ Hr Hr2).
Qed.

Lemma closed_tick {A} (f : nat -> A) : closed (tick f).
Proof. intros e. apply opens_none_refl. Qed.

Lemma closed_query {A} q (f : nat -> datastore -> res db_error A) : closed (query q f).
Proof. intros e. apply Hothers. Qed.

Lemma closed_exec {A} q (f : nat -> datastore -> A * datastore * list event) :
  (forall n d, opens_none d (snd (fst (f n d)))) -> closed (exec q f).
Proof.
  intros Hf e. apply wp_exec. intros n e1 _ Hd1.
  assert (opens_none (db e) (db e1)) as Ho1 by (rewrite Hd1; apply Hothers).
  split; [done|]. intros a d evs e2 Hfn _ Hd2.
  assert (opens_none (db e) (db e2)) as Ho2; [|done].
  specialize (Hf n (db e1)). rewrite Hfn in Hf. cbn in Hf. rewrite <- Hd2 in Hf.
  exact (opens_none_trans _ _ _ Ho1 Hf).
Qed.

Lemma closed_queue a t : closed (queueNotification a t).
Proof. intros e. apply opens_none_refl. Qed.

Lemma closed_trigger {A} f op : closed (@on_trigger A f op).
Proof. intros e. unfold wp, on_trigger. destruct (f _). apply opens_none_refl. Qed.

Lemma closed_clear {A} f op : closed (@on_clear A f op).
Proof. intros e. unfold wp, on_clear. destruct (f _). apply opens_none_refl. Qed.

Lemma closed_values id v t op sev : closed (UpdateAlertValues id v t op sev).
Proof. apply closed_exec. intros n d. apply update_values_opens_none. Qed.

Lemma closed_ClearAlert id : closed (ClearAlert id).
Proof. apply closed_exec. intros n d. by apply update_alerts_opens_none. Qed.

Lemma closed_description id text : closed (UpdateAlertDescription id text).
Proof. apply closed_exec. intros n d. by apply update_alerts_opens_none. Qed.

Lemma closed_reactivate id : closed (ReactivateAlert id).
Proof.
  apply closed_exec. intros n d. destruct (existsb _ _); cbn; [|apply opens_none_refl].
  apply (update_alerts_opens_none d). intros a [_ Hst]%andb_true_iff Ho. split; [|done].
  unfold open_of_rule, is_open in *. by rewrite Hst, orb_true_r.
Qed.

(** [shut] shows that a program opens nothing. *)
Ltac shut :=
  repeat (intros; match goal with
  | |- closed (bind _ _) => apply closed_bind
  | |- closed (query _ _) => apply closed_query
  | |- closed (tick _) => apply closed_tick
  | |- closed (ret _) => apply closed_ret
  | |- closed (on_trigger _ _) => apply closed_trigger
  | |- closed (on_clear _ _) => apply closed_clear
  | |- closed (queueNotification _ _) => apply closed_queue
  | |- closed (UpdateAlertValues _ _ _ _ _) => apply closed_values
  | |- closed (ReactivateAlert _) => apply closed_reactivate
  | |- closed (UpdateAlertDescription _ _) => apply closed_description
  | |- closed (ClearAlert _) => apply closed_ClearAlert
  | |- closed (match ?x with _ => _ end) => destruct x
  | |- closed (if ?b then _ else _) => destruct b
  | Hc : closed ?m |- closed ?m => exact Hc
  | Hc : forall _, _ |- closed _ => apply Hc
  end).

Lemma closed_latest metric : closed (GetLatestMetricValues metric).
Proof. unfold GetLatestMetricValues, dropDeletedConnections. shut. Qed.

Lemma closed_extension rule : closed (connectionsWithRequiredExtension rule).
Proof. unfold connectionsWithRequiredExtension, GetConnectionsWithExtension. shut. Qed.

Lemma closed_gates alerts gates byExtension : closed (resolve_gates alerts gates byExtension).
Proof.
  revert gates byExtension. induction alerts as [|a alerts IH]; intros; cbn; [apply closed_ret|].
  pose proof closed_extension. unfold GetAlertRuleByID. shut.
Qed.

Lemma closed_close alert starts text : closed (close_with_reason alert starts text).
Proof. unfold close_with_reason, rewrite_description. shut. Qed.

Lemma closed_resolved alert : closed (clearResolvedAlert alert).
Proof. unfold clearResolvedAlert. shut. Qed.

Lemma closed_restore alert t probe name iv ratio :
  closed (restoreStalenessAlertDescription alert t probe name iv ratio).
Proof. unfold restoreStalenessAlertDescription, rewrite_description. shut. Qed.

Lemma closed_staleness s : closed (staleness_get s).
Proof. unfold staleness_get, time_now, GetProbeStalenessByConnection. shut. Qed.

Lemma closed_age s : closed (age s).
Proof. unfold age, time_now. shut. Qed.

Lemma closed_sample alert sampled : closed (recordResolvedSample alert sampled).
Proof.
  pose proof closed_resolved. unfold recordResolvedSample, thresholdClearCount, clear_observe. shut.
Qed.

Lemma closed_absent alert metric s : closed (resolveAbsentMetric alert metric s).
Proof.
  pose proof closed_sample. pose proof closed_staleness. pose proof closed_age.
  unfold resolveAbsentMetric. shut.
Qed.

Lemma closed_check alert withExtension s : closed (checkAlertResolved alert withExtension s).
Proof.
  pose proof closed_sample. pose proof closed_staleness. pose proof closed_age.
  pose proof closed_absent. pose proof closed_latest. pose proof closed_close.
  pose proof closed_resolved. pose proof closed_restore.
  unfold checkAlertResolved, checkProbeUnavailableAlertResolved, checkStalenessAlertResolved,
    checkRegistryAlertResolved, retireDatabaseScopedAlert, recordViolatingSample,
    holdStalenessAlertForUnavailableProbe, restoreHeldDescriptionBeforeClear,
    rewrite_description, clear_observe, GetProbeStalenessContext. shut.
Qed.

Lemma closed_clean_alerts gates alerts s : closed (clean_alerts gates alerts s).
Proof.
  revert s. induction alerts as [|a alerts IH]; intros s; cbn; [apply closed_ret|].
  pose proof closed_check. pose proof closed_close.
  unfold ctx_done, clean_alert, clearAlertForUnmonitoredConnection, unmonitored_get,
    GetUnmonitoredConnections. shut.
Qed.

Lemma closed_cleaner : closed cleanResolvedAlerts.
Proof.
  pose proof closed_gates. pose proof closed_clean_alerts.
  unfold cleanResolvedAlerts, GetActiveAlerts, resolveExtensionGates, clear_retain. shut.
Qed.

(** ** The evaluator *)

Definition keeps {A} (m : M A) : Prop :=
  forall e, one_open (db e) -> wp m (fun _ e' => one_open (db e')) e.

Lemma closed_keeps {A} (m : M A) : closed m -> keeps m.
Proof.
  intros Hm e He. eapply wp_mono; [|apply Hm]. intros a e' Ho.
  exact (one_open_mono _ _ Ho He).
Qed.

Lemma keeps_bind {A B} (m : M A) (k : A -> M B) :
  keeps m -> (forall a, keeps (k a)) -> keeps (bind m k).
Proof.
  intros Hm Hk e He. apply wp_bind. eapply wp_mono; [|by apply Hm].
  intros a e' He'. by apply Hk.
Qed.

Lemma keeps_for_each {A} (l : list A) (body : A -> M bool) :
  (forall x, keeps (body x)) -> keeps (for_each l body).
Proof. intros Hb e He. apply (wp_for_each _ _ (fun e => one_open (db e))); [done|]. intros x e1 _. apply Hb. Qed.

(** The condition of [a] is not open in the tables of [e]. *)
Definition not_open (a : Alert) (e : engine) : Prop :=
  open_of_rule a = true -> condition_of a ∉ open_conditions (db e).

Lemma create_one_open a (k : res db_error Alert -> M unit) e :
  one_open (db e) -> not_open a e -> (forall r, closed (k r)) ->
  wp (bind (CreateAlert a) k) (fun _ e' => one_open (db e')) e.
Proof.
  intros He Ha Hk. apply wp_bind.
  apply (wp_mono _ (fun _ e' => one_open (db e'))).
  { intros r e1 He1. by apply closed_keeps. }
  apply wp_exec. intros n e1 _ Hd1.
  assert (opens_none (db e) (db e1)) as Ho1 by (rewrite Hd1; apply Hothers).
  assert (one_open (db e1)) as He1 by (by eapply one_open_mono).
  split; [done|]. intros a' d evs e2 Hf _ Hd2. injection Hf as <- Hd _.
  assert (one_open (db e2)) as He2; [|done].
  rewrite Hd2, <- Hd. unfold one_open. rewrite insert_conditions. cbn.
  replace (open_of_rule _) with (open_of_rule a) by done.
  destruct (open_of_rule a) eqn:Eo; [|by rewrite app_nil_r].
  apply NoDup_app. split_and!; [done| |apply NoDup_singleton].
  intros x Hx ->%list_elem_of_singleton. eapply opens_none_notin; [exact Ho1|by apply Ha|done].
Qed.

Lemma queue_closed (r : res db_error Alert) :
  closed (match r with Err _ => ret tt | Ok alert => queueNotification alert AlertFire end).
Proof. shut. Qed.

Context (Hlookup : forall n, fails n "GetActiveThresholdAlert" = false).

Lemma keeps_trigger rule v c dbName objectName steady :
  keeps (triggerThresholdAlert rule v c dbName objectName steady).
Proof.
  intros e He. unfold triggerThresholdAlert. apply wp_bind, wp_query. intros n e1 _ Hd1.
  assert (one_open (db e1)) as He1 by (eapply one_open_mono; [rewrite Hd1; apply Hothers|done]).
  rewrite Hlookup.
  destruct (active_threshold_alert (db e1) (rule_id rule) c dbName) as [existing|] eqn:Ea.
  { apply closed_keeps; [|done]. unfold update_existing. shut. }
  unfold raise_new. destruct (negb steady); [done|].
  set (alert := fun t => new_alert rule v c dbName objectName None (rule_name rule)
    (rule_description rule) t).
  assert (forall t e', opens_none (db e1) (db e') -> not_open (alert t) e') as Hnot.
  { intros t e' Ho Hopen. eapply opens_none_notin; [exact Ho|].
    apply none_active_threshold; [done|]. unfold open_of_rule in Hopen. cbn in Hopen.
    apply negb_true_iff in Hopen. cbn. lia. }
  apply wp_bind, wp_query. intros n2 e2 _ Hd2.
  assert (opens_none (db e1) (db e2)) as Ho2 by (rewrite Hd2; apply Hothers).
  assert (one_open (db e2)) as He2 by (by eapply one_open_mono).
  assert (wp (let* t := time_now in
    let* created := CreateAlert (alert t) in
    match created with Err _ => ret tt | Ok a => queueNotification a AlertFire end)
    (fun _ e' => one_open (db e')) e2) as Htail.
  { apply wp_bind, wp_tick. intros e3 (_ & _ & _ & Hdb3 & _).
    apply create_one_open; [by rewrite Hdb3|by apply Hnot; rewrite Hdb3|apply queue_closed]. }
  destruct (fails n2 _); [exact Htail|]. by destruct (recently_cleared _ _ _ _ _ _).
Qed.

Lemma keeps_probe rule v c probe (build : M Alert) :
  closed build ->
  (forall e, wp build (fun a _ => probe_alert_for rule v c probe a) e) ->
  keeps (raise_for_probe rule v c probe build).
Proof.
  intros Hcb Hbuild e He. unfold raise_for_probe. apply wp_bind, wp_query. intros n e1 _ Hd1.
  assert (one_open (db e1)) as He1 by (eapply one_open_mono; [rewrite Hd1; apply Hothers|done]).
  destruct (fails n _); [done|].
  destruct (active_probe_alert (db e1) (rule_id rule) c probe) as [existing|] eqn:Ea.
  { apply closed_keeps; [shut|done]. }
  assert (forall a e', probe_alert_for rule v c probe a ->
    opens_none (db e1) (db e') -> not_open a e') as Hnot.
  { intros a e' (title & description & t & ->) Ho Hopen. eapply opens_none_notin; [exact Ho|].
    apply none_active_probe; [done|].
    apply andb_true_iff in Hopen as [_ Hz%negb_true_iff]. lia. }
  apply wp_bind, wp_query. intros n2 e2 _ Hd2.
  assert (opens_none (db e1) (db e2)) as Ho2 by (rewrite Hd2; apply Hothers).
  assert (one_open (db e2)) as He2 by (by eapply one_open_mono).
  assert (wp (let* alert := build in
    let* created := CreateAlert alert in
    match created with Err _ => ret tt | Ok a => queueNotification a AlertFire end)
    (fun _ e' => one_open (db e')) e2) as Htail.
  { apply wp_bind. specialize (Hbuild e2). specialize (Hcb e2). unfold wp in Hbuild, Hcb |- *.
    destruct (build e2) as [a e3]. cbn in *.
    assert (opens_none (db e1) (db e3)) as Ho3 by (by eapply opens_none_trans).
    apply create_one_open; [by eapply one_open_mono|by apply Hnot|apply queue_closed]. }
  destruct (fails n2 _); [exact Htail|]. by destruct (recently_cleared_probe _ _ _ _ _ _).
Qed.

Lemma closed_threshold rule c dbName : closed (GetEffectiveThreshold rule c dbName).
Proof. unfold GetEffectiveThreshold, threshold_query. shut. Qed.

Lemma closed_blacked_out c dbName : closed (blacked_out c dbName).
Proof. unfold blacked_out, IsBlackoutActive. shut. Qed.

(** [keep] splits a program into parts that open nothing and parts known to
    keep the invariant. *)
Ltac keep :=
  repeat (intros; match goal with
  | |- keeps (bind _ _) => apply keeps_bind
  | |- keeps (for_each _ _) => apply keeps_for_each
  | |- keeps (match ?x with _ => _ end) => destruct x eqn:?
  | |- keeps (if ?b then _ else _) => destruct b eqn:?
  | |- keeps (triggerThresholdAlert _ _ _ _ _ _) => apply keeps_trigger
  | Hk : forall _, _ |- keeps _ => apply Hk
  | |- keeps _ => apply closed_keeps;
      first [apply closed_threshold | apply closed_blacked_out | apply closed_latest
            | apply closed_extension | solve [shut]]
  end).

Lemma keeps_value rule withExtension triggerCount mv :
  keeps (evaluate_value rule withExtension triggerCount mv).
Proof. unfold evaluate_value, ctx_done, trigger_observe. keep. Qed.

Lemma keeps_rule rule : keeps (evaluateRuleForAllConnections rule).
Proof.
  pose proof keeps_value. unfold evaluateRuleForAllConnections, thresholdTriggerCount. keep.
Qed.

Lemma keeps_rules rules unread : keeps (evaluate_rules rules unread).
Proof.
  pose proof keeps_rule. revert unread. induction rules as [|rule rules IH]; intros unread; cbn;
    [apply closed_keeps, closed_ret|]. unfold ctx_done. keep.
Qed.

Lemma keeps_staleness rule entry : keeps (staleness_entry rule entry).
Proof.
  unfold staleness_entry, ctx_done, time_now. keep. apply keeps_probe; [shut|].
  intros e. by eexists _, _, _.
Qed.

Lemma keeps_unavailable rule entry : keeps (evaluateProbeUnavailableEntry rule entry).
Proof.
  unfold evaluateProbeUnavailableEntry. keep. apply keeps_probe; [unfold time_now; shut|].
  intros e. by eexists _, _, _.
Qed.

Lemma keeps_evaluator : keeps evaluateThresholds.
Proof.
  pose proof keeps_rules. pose proof keeps_staleness. pose proof keeps_unavailable.
  unfold evaluateThresholds, GetEnabledAlertRules, trigger_startPass, trigger_sweep,
    evaluateProbeScopedRules, GetProbeStalenessByConnection, evaluateMetricStaleness,
    evaluateProbeUnavailable, GetAlertRuleByName, ctx_done. keep.
Qed.
End Passes.
