(* ===== verification/AlerterRuns.v ===== *)
(** * Runs of the alerter

    Any sequence of evaluation and cleaning passes, from an engine that has
    just started.  Queries fail, writes are lost or land late, notifications
    are dropped, the configuration is reloaded and other processes change the
    tables before any query, as the [World] has it. *)
From stdpp Require Import base list strings gmap sorting.
From Stdlib Require Import SpecFloat.
From S2P Require Import Prelude Streaks AlertDb Thresholds Cleaner AlertLog AlertWp AlertSound CleanerSound OneAlert.

Local Open Scope string_scope.
Local Open Scope Z_scope.
Local Open Scope engine_scope.

(** engine.go: the tickers of the evaluator and of the cleaner. *)
Inductive alerter_pass := Evaluate | Clean.

Definition new_engine (d : datastore) : engine :=
  {| db := d; triggerStreaks := no_streaks; clearStreaks := no_streaks;
     steps := 0; log := [] |}.

Section Runs.
Context `{World}.

Definition run_pass (p : alerter_pass) : M unit :=
  match p with
  | Evaluate => evaluateThresholds
  | Clean => cleanResolvedAlerts
  end.

Fixpoint run_passes (ps : list alerter_pass) : M unit :=
  match ps with
  | [] => ret tt
  | p :: ps => let* _ := run_pass p in run_passes ps
  end.

Definition after (ps : list alerter_pass) (d : datastore) : engine :=
  snd (run_passes ps (new_engine d)).
End Runs.

Section Grounds.
Context `{World} (trigger clear : Z).
Context (Htrigger : forall n, trigger <= trigger_count (getConfig n)).
Context (Hclear : forall n, clear <= clear_count (getConfig n)).

Lemma new_engine_sound d : sound trigger clear (new_engine d).
Proof. split; [|done|done]. by intros [] ? ? ?. Qed.

Lemma run_passes_sound ps e :
  sound trigger clear e -> wp (run_passes ps) (fun _ => sound trigger clear) e.
Proof.
  revert e. induction ps as [|p ps IH]; intros e He; [done|]. cbn. apply wp_bind.
  apply (wp_mono _ (fun _ => sound trigger clear)); [by intros _ e'; apply IH|].
  destruct p; [by apply evaluateThresholds_sound|by apply cleanResolvedAlerts_sound].
Qed.

Lemma after_fine ps d l1 ev l2 :
  log (after ps d) = (l1 ++ ev :: l2)%list -> fine trigger clear l1 ev.
Proof.
  apply (log_fine _ _ _ (run_passes_sound ps (new_engine d) (new_engine_sound d))).
Qed.
End Grounds.

Lemma trigger_count_pos cfg : 1 <= trigger_count cfg.
Proof. unfold trigger_count. destruct cfg; [|done]. destruct (Z.ltb_spec (TriggerCount c) 1); lia. Qed.

Lemma clear_count_pos cfg : 1 <= clear_count cfg.
Proof. unfold clear_count. destruct cfg; [|done]. destruct (Z.ltb_spec (ClearCount c) 1); lia. Qed.

(** C19: an alert is raised on grounds.  In every run, an alert on a metric is
    raised only for a rule the pass found enabled, when the value it carries
    is one that the metric's query had reported and breaches the threshold in
    force for that connection and database (the first of the server's, the
    cluster's and the group's override and the rule's defaults that answered),
    under which the rule is enabled and which gives the alert its threshold,
    operator and severity; when the breach was seen on [trigger] samples in a
    row, each newer than the last and each a reported value judged with the
    threshold then in force; and when the last answers were that no blackout
    covers the connection, that no alert of the rule is open there and that
    none was cleared in the cooldown.  An alert on a probe, on the same
    answers, and on the probe's entry in the last view: its staleness ratio if
    it is available, or its being unavailable. *)
Theorem alert_raised_on_grounds (W : World) (trigger : Z) (ps : list alerter_pass)
    (d : datastore) (l1 l2 : list event) (a : Alert) :
  (forall n, trigger <= trigger_count (getConfig n)) ->
  log (after ps d) = (l1 ++ Raised a :: l2)%list ->
  raise_grounds trigger l1 a /\
  (forall l key sampled holds l', l1 = (l ++ OnTrigger (Judged key sampled holds) :: l')%list ->
     breach_grounds l key sampled holds).
Proof.
  intros Ht Hlog. pose proof (fun n => clear_count_pos (getConfig n)) as Hc.
  split; [by apply (after_fine trigger 1 Ht Hc ps d l1 (Raised a) l2)|].
  intros l key sampled holds l' ->. rewrite <- app_assoc in Hlog.
  by apply (after_fine trigger 1 Ht Hc ps d l (OnTrigger (Judged key sampled holds)) _ Hlog).
Qed.

(** C20: an alert is cleared on grounds.  In every run, the cleaner clears only
    alerts it found active; one whose connection is no longer monitored; an
    alert on a metric only when it names a database of a metric that has none,
    or when the condition was absent on [clear] samples in a row, each a
    reported value that does not breach the stored threshold, or a collection
    inside the window of a metric whose rows disappear with the condition; an
    alert on a probe of a monitored connection only when the probe is no
    longer in the view, or is available and, for an alert on staleness, the
    ratio at that time does not breach the stored threshold. *)
Theorem alert_cleared_on_grounds (W : World) (clear : Z) (ps : list alerter_pass)
    (d : datastore) (l1 l2 : list event) (id : Z) :
  (forall n, clear <= clear_count (getConfig n)) ->
  log (after ps d) = (l1 ++ Cleared id :: l2)%list ->
  clear_grounds clear l1 id /\
  (forall l sampled holds l', l1 = (l ++ OnClear (Judged id sampled holds) :: l')%list ->
     recovery_grounds l id sampled holds).
Proof.
  intros Hc Hlog. pose proof (fun n => trigger_count_pos (getConfig n)) as Ht.
  split; [by apply (after_fine 1 clear Ht Hc ps d l1 (Cleared id) l2)|].
  intros l sampled holds l' ->. rewrite <- app_assoc in Hlog.
  by apply (after_fine 1 clear Ht Hc ps d l (OnClear (Judged id sampled holds)) _ Hlog).
Qed.

(** a notification says what has been done.  In every run, a notification
    that an alert fires is queued only right after the alert was raised, or
    after it was given the severity the notification carries and reactivated;
    one that an alert is over, only right after it was cleared. *)
Theorem notification_backed (W : World) (ps : list alerter_pass) (d : datastore)
    (l1 l2 : list event) (a : Alert) (t : NotificationType) :
  log (after ps d) = (l1 ++ Queued a t :: l2)%list ->
  match t with
  | AlertFire => fire_grounds l1 a
  | AlertClear => exists l, l1 = (l ++ [Cleared (ID a)])%list
  end.
Proof.
  intros Hlog. pose proof (fun n => clear_count_pos (getConfig n)) as Hc.
  pose proof (fun n => trigger_count_pos (getConfig n)) as Ht.
  pose proof (after_fine 1 1 Ht Hc ps d l1 (Queued a t) l2 Hlog) as Hf. by destruct t.
Qed.

(** C31: one alert for each condition.  Where the look-up of open alerts does
    not fail and no other process opens an alert of a rule, no run leaves a
    rule with two open alerts for the same connection, database and probe,
    whatever else happens between a look-up and the insertion after it. *)
Theorem one_alert_per_condition (W : World) (ps : list alerter_pass) (d : datastore) :
  (forall n d, opens_none d (others n d)) ->
  (forall n, fails n "GetActiveThresholdAlert" = false) ->
  one_open d -> one_open (db (after ps d)).
Proof.
  intros Ho Hf Hd.
  assert (keeps (run_passes ps)) as Hk.
  { induction ps as [|p ps IH]; [apply closed_keeps, closed_ret|].
    cbn. apply keeps_bind; [|done].
    destruct p; [by apply keeps_evaluator|by apply closed_keeps, closed_cleaner]. }
  by apply Hk.
Qed.
