(* ===== verification/Retention.v ===== *)
(** * The retention sweep (alerter/src/internal/database/queries.go:
      deleteInBatches, DeleteOldAlerts)

    Deleting in batches comes to the same as deleting at once. *)
From stdpp Require Import base list strings gmap.
From Stdlib Require Import SpecFloat.
From S2P Require Import Prelude Streaks AlertDb Thresholds Cleaner AlertLog AlertWp.

Local Open Scope string_scope.
Local Open Scope Z_scope.
Local Open Scope engine_scope.

(** One batch, on any list of rows with distinct ids. *)
Section Batch.
Context {A : Type} (id : A -> Z) (p : A -> bool).

Definition batch (n : nat) (rows : list A) : list Z := take n (map id (List.filter p rows)).

Definition remove (ids : list Z) (rows : list A) : list A :=
  List.filter (fun r => negb (bool_decide (id r ∈ ids))) rows.

Lemma remove_other x ids rows :
  x ∉ map id rows -> remove (x :: ids) rows = remove ids rows.
Proof.
  intros Hx. unfold remove. apply List.filter_ext_in. intros r Hr. f_equal.
  apply bool_decide_ext. rewrite elem_of_cons. split; [|by right].
  intros [Heq|?]; [|done]. destruct Hx. subst. by apply list_elem_of_In, in_map.
Qed.

Lemma batch_in n rows x : x ∈ batch n rows -> x ∈ map id rows.
Proof.
  unfold batch. intros Hx%elem_of_take. destruct Hx as (i & Hi & _).
  apply list_elem_of_lookup_2, list_elem_of_In, in_map_iff in Hi as (r & <- & Hr).
  apply filter_In in Hr as [Hr _]. by apply list_elem_of_In, in_map.
Qed.

Lemma remove_nil rows : remove [] rows = rows.
Proof.
  unfold remove. induction rows as [|r rows IH]; [done|]. cbn.
  rewrite bool_decide_false by apply not_elem_of_nil. cbn. by rewrite IH.
Qed.

(** The rows after a batch: a selected row goes as long as the batch lasts. *)
Lemma remove_batch_cons n r rows :
  NoDup (map id (r :: rows)) ->
  remove (batch n (r :: rows)) (r :: rows) =
  match p r, n with
  | true, S n => remove (batch n rows) rows
  | _, _ => r :: remove (batch n rows) rows
  end.
Proof.
  intros [Hr Hnd]%NoDup_cons. unfold batch. cbn [List.filter].
  destruct (p r) eqn:Ep; [destruct n as [|n]|].
  - cbn [take]. by rewrite !remove_nil.
  - cbn [map take]. rewrite <- (remove_other (id r) _ rows) by done. unfold remove. cbn.
    by rewrite bool_decide_true by apply list_elem_of_here.
  - unfold remove. cbn [List.filter]. rewrite bool_decide_false; [done|].
    intros Hin. apply Hr. by eapply batch_in.
Qed.

(** What a batch leaves: all that is not selected, and the rest of what is. *)
Lemma remove_batch n rows :
  NoDup (map id rows) ->
  let rows' := remove (batch n rows) rows in
  List.filter (fun r => negb (p r)) rows' = List.filter (fun r => negb (p r)) rows /\
  List.filter p rows' = drop n (List.filter p rows) /\
  (length rows = length rows' + n `min` length (List.filter p rows))%nat.
Proof.
  cbn. revert n. induction rows as [|r rows IH]; intros n Hnd.
  { cbn. rewrite drop_nil. split_and!; [done..|lia]. }
  rewrite remove_batch_cons by done. apply NoDup_cons in Hnd as [_ Hnd].
  destruct (p r) eqn:Ep; [destruct n as [|n]|].
  - destruct (IH 0%nat Hnd) as (H1 & H2 & H3). cbn. rewrite Ep. cbn.
    rewrite drop_0 in H2. split_and!; [done|by rewrite H2|lia].
  - destruct (IH n Hnd) as (H1 & H2 & H3). cbn. rewrite Ep. cbn. split_and!; [done|done|lia].
  - destruct (IH n Hnd) as (H1 & H2 & H3). cbn. rewrite Ep. cbn. rewrite H1.
    split_and!; [done|done|lia].
Qed.
End Batch.

Lemma filter_rest {A} (p : A -> bool) rows :
  List.filter p rows = [] -> rows = List.filter (fun r => negb (p r)) rows.
Proof.
  induction rows as [|r rows IH]; [done|]. cbn. destruct (p r); [done|].
  intros Hr. cbn. by rewrite <- IH.
Qed.

Lemma NoDup_map_bfilter {A B} (f : A -> B) (p : A -> bool) rows :
  NoDup (map f rows) -> NoDup (map f (List.filter p rows)).
Proof.
  induction rows as [|r rows IH]; [done|]. cbn. intros [Hr Hnd]%NoDup_cons.
  destruct (p r); [|by apply IH]. cbn. apply NoDup_cons. split; [|by apply IH].
  intros Hin. apply Hr. apply list_elem_of_In, in_map_iff in Hin as (x & <- & Hx).
  apply filter_In in Hx as [Hx _]. by apply list_elem_of_In, in_map.
Qed.

Section Sweep.
Context `{World}.

(** Nothing else happens during the sweep. *)
Definition undisturbed : Prop :=
  (forall n d, others n d = d) /\ (forall n, cancelled n = false) /\
  (forall n, fails n "deleteInBatches" = false).

Definition retired_row (cutoff : Z) (r : alert_row) : bool := retired cutoff (alert_of r).

Lemma retired_ids_rows cutoff d :
  retired_ids cutoff d =
  map (fun r => ID (alert_of r)) (List.filter (retired_row cutoff) (alerts d)).
Proof.
  unfold retired_ids. induction (alerts d) as [|r rows IH]; [done|]. cbn.
  unfold retired_row at 1. destruct (retired cutoff (alert_of r)); cbn; by rewrite IH.
Qed.

Lemma sweep_all cutoff batchSize fuel total e :
  undisturbed -> (0 < batchSize)%nat ->
  NoDup (map (fun r => ID (alert_of r)) (alerts (db e))) ->
  (length (List.filter (retired_row cutoff) (alerts (db e))) < fuel)%nat ->
  exists e', deleteInBatches fuel cutoff batchSize total e =
    (Some ((total + length (List.filter (retired_row cutoff) (alerts (db e))))%nat, true), e') /\
    alerts (db e') = List.filter (fun r => negb (retired_row cutoff r)) (alerts (db e)).
Proof.
  intros (Hothers & Hrun & Hok) Hbatch. revert total e.
  induction fuel as [|fuel IH]; intros total e Hnd Hfuel; [lia|].
  cbn [deleteInBatches]. unfold bind at 1, ctx_done, tick. rewrite Hrun.
  unfold bind at 1, delete_batch, exec, begin_step. cbn [steps]. rewrite Hok, Hothers. cbn [db].
  rewrite retired_ids_rows.
  pose proof (remove_batch (fun r => ID (alert_of r)) (retired_row cutoff) batchSize
    (alerts (db e)) Hnd) as (Hrest & Hsel & Hlen). cbn in Hrest, Hsel, Hlen.
  unfold remove, batch in Hrest, Hsel, Hlen.
  set (rows' := List.filter _ (alerts (db e))) in Hrest, Hsel, Hlen |- *.
  replace (length (alerts (db e)) - length rows')%nat
    with (batchSize `min` length (List.filter (retired_row cutoff) (alerts (db e))))%nat by lia.
  destruct (batchSize `min` _)%nat as [|k] eqn:Ek.
  - assert (length (List.filter (retired_row cutoff) (alerts (db e))) = 0)%nat as Hz by lia.
    rewrite Hz. eexists. split; [unfold ret; do 3 f_equal; lia|]. cbn. rewrite <- Hrest.
    apply (filter_rest (retired_row cutoff)). by rewrite Hsel, (nil_length_inv _ Hz), drop_nil.
  - set (e' := written _ _ _).
    assert (alerts (db e') = rows') as Hrows by done.
    assert (length (List.filter (retired_row cutoff) (alerts (db e'))) =
      (length (List.filter (retired_row cutoff) (alerts (db e))) - batchSize)%nat) as Hleft.
    { by rewrite Hrows, Hsel, length_drop. }
    destruct (IH (total + S k)%nat e') as (e2 & Hrun2 & Hend).
    + rewrite Hrows. by apply NoDup_map_bfilter.
    + rewrite Hleft. lia.
    + exists e2. rewrite Hrun2, Hleft. split; [do 3 f_equal; lia|].
      by rewrite Hend, Hrows.
Qed.
End Sweep.

(** An alert that the retention period has passed: it was cleared or
    acknowledged, and the time it was cleared at, or for one that was only
    acknowledged the time it was raised at, is before the cutoff. *)
Inductive outdated (cutoff : Z) (a : Alert) : Prop :=
| outdated_cleared t :
    Status a = "cleared" \/ Status a = "acknowledged" ->
    ClearedAt a = Some t -> t < cutoff -> outdated cutoff a
| outdated_raised :
    Status a = "cleared" \/ Status a = "acknowledged" ->
    ClearedAt a = None -> TriggeredAt a < cutoff -> outdated cutoff a.

Lemma retired_outdated cutoff a : retired cutoff a = true <-> outdated cutoff a.
Proof.
  unfold retired. rewrite andb_true_iff, orb_true_iff, !String.eqb_eq, Z.ltb_lt. split.
  - intros [Hs Ht]. destruct (ClearedAt a) as [t|] eqn:E; [by eapply outdated_cleared|].
    by apply outdated_raised.
  - intros [t Hs Hc Ht|Hs Hc Ht]; by rewrite Hc.
Qed.

Lemma bfilter_sublist {A} (p : A -> bool) l : List.filter p l `sublist_of` l.
Proof. induction l as [|x l IH]; [constructor|]. cbn. destruct (p x); by constructor. Qed.

Lemma bfilter_length {A} (p : A -> bool) l :
  (length (List.filter p l) + length (List.filter (fun x => negb (p x)) l) = length l)%nat.
Proof. induction l as [|x l IH]; [done|]. cbn. destruct (p x); cbn; lia. Qed.

(** C39: the retention sweep ends, and deletes what is old and nothing else.
    When nothing disturbs it and ids are unique, it stops within one batch
    more than there are alerts and reports how many rows it deleted.  What it
    leaves, in their order, are exactly the alerts that are neither cleared
    nor acknowledged or are of the cutoff or later, counted from the time an
    alert was cleared or, failing that, raised. *)
Theorem retention_sweep_complete (W : World) (cutoff : Z) (fuel : nat) (e : engine) :
  undisturbed -> NoDup (map (fun r => ID (alert_of r)) (alerts (db e))) ->
  (length (alerts (db e)) < fuel)%nat ->
  exists n e', DeleteOldAlerts fuel cutoff e = (Some (n, true), e') /\
    (n + length (alerts (db e')) = length (alerts (db e)))%nat /\
    alerts (db e') `sublist_of` alerts (db e) /\
    forall r, r ∈ alerts (db e') <-> r ∈ alerts (db e) /\ ~ outdated cutoff (alert_of r).
Proof.
  intros Hu Hnd Hfuel.
  pose proof (bfilter_length (retired_row cutoff) (alerts (db e))) as Hlen.
  destruct (sweep_all cutoff retentionDeleteBatchSize fuel 0 e Hu) as (e' & Hrun & Hleft);
    [unfold retentionDeleteBatchSize; lia|done|lia|].
  eexists _, e'. split; [exact Hrun|]. rewrite Hleft. split_and!; [cbn; lia|apply bfilter_sublist|].
  intros r. rewrite !list_elem_of_In, filter_In, negb_true_iff, <- not_true_iff_false.
  unfold retired_row. by rewrite retired_outdated.
Qed.
