(* ===== verification/Blackouts.v ===== *)
(** * Scheduled blackouts
      (alerter/src/internal/cron/cron.go, alerter/src/internal/engine/blackouts.go)

    A schedule with a cron expression opens a blackout at each of its minutes,
    unless one is already in force.  Parsing an expression and finding the
    next activation of a schedule is the business of robfig/cron, a parameter
    here ([CronLibrary]) with the law its documentation gives. *)
From stdpp Require Import base list strings gmap.
From Stdlib Require Import SpecFloat.
From S2P Require Import Prelude Streaks AlertDb.

Local Open Scope string_scope.
Local Open Scope Z_scope.
Local Open Scope engine_scope.

(** [Parse expr] is the schedule of an expression, if it is valid: for a time
    zone and a time, the next activation after that time, if there is one.
    [LoadLocation]: is the name that of a time zone? *)
Class CronLibrary := {
  Parse : string -> option (string -> Z -> option Z);
  LoadLocation : string -> bool;
}.

Section Cron.
Context `{CronLibrary}.

Definition truncate_minute (t : Z) : Z := t - t mod Minute.

(** [None] for an invalid expression. *)
Definition Matches (expr : string) (t : Z) (timezone : string) : option bool :=
  let loc := if LoadLocation timezone then timezone else "UTC" in
  schedule ← Parse expr;
  let currentMinute := truncate_minute t in
  let oneMinuteAgo := currentMinute - Minute in
  Some (bool_decide (schedule loc oneMinuteAgo = Some currentMinute)).

Definition cronMatches (expr : string) (now : Z) (timezone : string) : bool :=
  match Matches expr now timezone with Some matches => matches | None => false end.

Context `{World}.

Definition check_schedule (t : Z) (schedule : BlackoutSchedule) : M bool :=
  let* stop := ctx_done in
  if stop then ret false else
  if negb (cronMatches (CronExpression schedule) t (Timezone schedule)) then ret true else
  let* active := IsBlackoutActive (sc_connection schedule) (sc_database schedule) in
  match active with
  | Ok true => ret true
  | _ =>
      let endTime := t + int64 (DurationMinutes schedule * Minute) in
      let* _ := CreateBlackout
        {| bl_scope := sc_scope schedule; bl_connection := sc_connection schedule;
           bl_group := sc_group schedule; bl_cluster := sc_cluster schedule;
           bl_database := sc_database schedule;
           bl_reason := "Scheduled: " ++ sc_name schedule;
           StartTime := t; EndTime := endTime; CreatedBy := "scheduler"; CreatedAt := t |} in
      ret true
  end.

Definition checkScheduledBlackouts : M unit :=
  let* schedules := GetEnabledBlackoutSchedules in
  match schedules with
  | Err _ => ret tt
  | Ok schedules =>
      let* t := time_now in
      let* _ := for_each schedules (check_schedule t) in
      ret tt
  end.
End Cron.

(** [next] gives the first activation after a time, and the activations are
    on the minute, as for an expression of five fields. *)
Record schedule_law (next : Z -> option Z) (activation : Z -> Prop) : Prop := {
  next_first : forall t u, next t = Some u <->
    activation u /\ t < u /\ (forall v, activation v -> t < v -> u <= v);
  on_the_minute : forall t, activation t -> t mod Minute = 0;
}.

(** a schedule matches a time iff the minute of that time is one of its
    activations, in its own time zone or, if that is unknown, in UTC; an
    invalid expression never matches. *)
Theorem cron_matches_minute (L : CronLibrary) (expr timezone : string) (t : Z)
    (activation : string -> Z -> Prop) :
  (forall next loc, Parse expr = Some next -> schedule_law (next loc) (activation loc)) ->
  cronMatches expr t timezone = true <->
  is_Some (Parse expr) /\
  activation (if LoadLocation timezone then timezone else "UTC") (truncate_minute t).
Proof.
  intros Hlaw. unfold cronMatches, Matches.
  destruct (Parse expr) as [next|] eqn:Ep; cbn; [|split; [done|by intros [[? [=]] _]]].
  set (loc := if LoadLocation timezone then timezone else "UTC").
  destruct (Hlaw next loc eq_refl) as [Hfirst Hminute].
  rewrite bool_decide_eq_true, Hfirst. split; [intros (Ha & _); split; [by eexists|done]|].
  intros [_ Ha]. split_and!; [done|unfold Minute, Second; lia|].
  intros v Hv Hlt. pose proof (Hminute _ Hv). pose proof (Hminute _ Ha).
  unfold Minute, Second in *. Z.div_mod_to_equations. lia.
Qed.
