(* ===== verification/WitnessesAlert.v ===== *)
(** * The alerter's theorems at concrete inputs

    A small installation: one rule on the CPU load, one connection, a world
    in which nothing fails and the collector stores a new sample every few
    queries. *)
From stdpp Require Import base list strings gmap sorting.
From Stdlib Require Import SpecFloat.
From S2P Require Import Prelude Streaks AlertDb Thresholds Cleaner AlertLog AlertWp AlertSound CleanerSound OneAlert AlerterRuns Retention Blackouts.

Local Open Scope string_scope.
Local Open Scope Z_scope.

Definition cpu := "pg_sys_cpu_usage_info.processor_time_percent".

Definition cpu_rule : AlertRule :=
  {| rule_id := 7; rule_name := "high_cpu"; rule_description := "CPU usage is high";
     rule_category := "system"; rule_metric := cpu; DefaultOperator := ">";
     DefaultThreshold := f_of_int 80; DefaultSeverity := "warning"; DefaultEnabled := true;
     RequiredExtension := None |}.

Definition install : datastore :=
  {| alert_rules := [cpu_rule]; alert_thresholds := []; alerts := []; next_alert := 1;
     acknowledgments := []; blackouts := []; blackout_schedules := [];
     connections := [{| conn_id := 3; conn_name := "prod"; conn_cluster := None;
                        is_monitored := true; deleted := false |}];
     clusters := []; probe_availability := []; probe_configs := []; pg_extension := [];
     latest := fun _ => [] |}.

Definition cpu_sample (t value : Z) : sql_row :=
  {| r_connection := 3; r_database := None; r_object := None; r_value := f_of_int value;
     r_collected := t |}.

(** The collector's samples, as far as they have come. *)
Definition with_latest (d : datastore) (rows : list sql_row) : datastore :=
  {| alert_rules := alert_rules d; alert_thresholds := alert_thresholds d;
     alerts := alerts d; next_alert := next_alert d; acknowledgments := acknowledgments d;
     blackouts := blackouts d; blackout_schedules := blackout_schedules d;
     connections := connections d; clusters := clusters d;
     probe_availability := probe_availability d; probe_configs := probe_configs d;
     pg_extension := pg_extension d;
     latest := fun m => if String.eqb m cpu then rows else [] |}.

(** [schedule n]: the time and value of the newest sample at step [n]. *)
Definition world (broken : string -> bool) (schedule : nat -> Z * Z) : World :=
  {| fails := fun _ q => broken q; lands := fun _ => false; cancelled := fun _ => false;
     now := fun n => Z.of_nat n * Minute; db_now := fun n => Z.of_nat n * Minute;
     submits := fun _ => true;
     others := fun n d => with_latest d [cpu_sample (schedule n).1 (schedule n).2];
     getConfig := fun _ => Some {| TriggerCount := 2; ClearCount := 2 |};
     epoch := fun z => f_of_int (z / Second); epoch_ratio := fun z s => f_of_int (z / Second / s) |}.

Definition healthy : string -> bool := fun _ => false.

(** Busy for the first passes, then idle; a new sample every twenty steps. *)
Definition busy_then_idle (n : nat) : Z * Z :=
  let k := Z.of_nat n / 20 in (k * 5 * Minute, if k <? 2 then 95 else 20).

Definition W1 : World := world healthy busy_then_idle.

(** Three evaluations: the second sees the first sample again, the third a
    new one and raises.  Two cleanings of new samples then clear. *)
Definition passes1 : list alerter_pass := [Evaluate; Evaluate; Evaluate; Clean; Clean].

Definition raised1 : Alert :=
  with_id (new_alert cpu_rule {| v_value := f_of_int 95; v_threshold := f_of_int 80;
             v_operator := ">"; v_severity := "warning" |} 3 None None None "high_cpu"
             "CPU usage is high" (43 * Minute)) 1.

Lemma split_at {A} (l : list A) (k : nat) (x : A) :
  l !! k = Some x -> l = (take k l ++ x :: drop (S k) l)%list.
Proof. intros Hk. symmetry. by apply take_drop_middle. Qed.

Lemma alert_raised_on_grounds_witness :
  (forall n, 2 <= trigger_count (@getConfig W1 n)) /\
  log (@after W1 passes1 install) =
    (take 43 (log (@after W1 passes1 install)) ++
     Raised raised1 :: drop 44 (log (@after W1 passes1 install)))%list /\
  @raise_grounds W1 2 (take 43 (log (@after W1 passes1 install))) raised1.
Proof.
  assert (forall n, 2 <= trigger_count (@getConfig W1 n)) as H1 by (intros n; vm_compute; discriminate).
  assert (log (@after W1 passes1 install) =
    (take 43 (log (@after W1 passes1 install)) ++
     Raised raised1 :: drop 44 (log (@after W1 passes1 install)))%list) as H2
    by (apply split_at; vm_compute; reflexivity).
  split; [exact H1|split; [exact H2|]].
  exact (proj1 (alert_raised_on_grounds W1 2 passes1 install _ _ raised1 H1 H2)).
Defined.

Lemma alert_cleared_on_grounds_witness :
  (forall n, 2 <= clear_count (@getConfig W1 n)) /\
  log (@after W1 passes1 install) =
    (take 63 (log (@after W1 passes1 install)) ++
     Cleared 1 :: drop 64 (log (@after W1 passes1 install)))%list /\
  @clear_grounds W1 2 (take 63 (log (@after W1 passes1 install))) 1.
Proof.
  assert (forall n, 2 <= clear_count (@getConfig W1 n)) as H1 by (intros n; vm_compute; discriminate).
  assert (log (@after W1 passes1 install) =
    (take 63 (log (@after W1 passes1 install)) ++
     Cleared 1 :: drop 64 (log (@after W1 passes1 install)))%list) as H2
    by (apply split_at; vm_compute; reflexivity).
  split; [exact H1|split; [exact H2|]].
  exact (proj1 (alert_cleared_on_grounds W1 2 passes1 install _ _ 1 H1 H2)).
Defined.

Lemma notification_backed_witness :
  log (@after W1 passes1 install) =
    (take 44 (log (@after W1 passes1 install)) ++
     Queued raised1 AlertFire :: drop 45 (log (@after W1 passes1 install)))%list /\
  fire_grounds (take 44 (log (@after W1 passes1 install))) raised1.
Proof.
  assert (log (@after W1 passes1 install) =
    (take 44 (log (@after W1 passes1 install)) ++
     Queued raised1 AlertFire :: drop 45 (log (@after W1 passes1 install)))%list) as H2
    by (apply split_at; vm_compute; reflexivity).
  split; [exact H2|].
  exact (notification_backed W1 passes1 install _ _ raised1 AlertFire H2).
Defined.

Lemma one_alert_per_condition_witness :
  one_open install /\ one_open (db (@after W1 passes1 install)).
Proof.
  assert (one_open install) as H1 by (constructor).
  split; [exact H1|].
  apply (one_alert_per_condition W1 passes1 install).
  - intros n d. exact (opens_none_refl d).
  - intros n. reflexivity.
  - exact H1.
Defined.

(** Where the look-up of open alerts fails, the evaluator takes the answer for
    "none" and raises a second alert of the same condition; the passes over
    the probes wait in that case. *)
Definition W2 : World :=
  world (String.eqb "GetActiveThresholdAlert") (fun n => (Z.of_nat n * Minute, 95)).

Example failed_lookup_raises_twice :
  length (open_conditions (db (@after W2 [Evaluate; Evaluate; Evaluate] install))) = 2%nat /\
  ~ one_open (db (@after W2 [Evaluate; Evaluate; Evaluate] install)).
Proof.
  split; [vm_compute; reflexivity|].
  intros Hnd. unfold one_open in Hnd.
  replace (open_conditions (db (@after W2 [Evaluate; Evaluate; Evaluate] install)))
    with [(Some 7, 3, @None string, @None string); (Some 7, 3, None, None)] in Hnd
    by (vm_compute; reflexivity).
  apply NoDup_cons in Hnd as [Hno _]. apply Hno. apply list_elem_of_here.
Qed.

(** ** Streaks *)

Definition streak_history : list (streak_op Z) :=
  [PassStarted; Judged 1 5 true; Judged 1 5 true; Swept None;
   PassStarted; Judged 1 9 true; Judged 2 9 false; Swept None].

Lemma count_is_longest_run_witness :
  Z.of_nat (length streak_history) < 2 ^ 63 /\ in_time 1 streak_history /\
  ((exists samples, sustained 1 streak_history samples /\ length samples = 2%nat) /\
   (forall samples, sustained 1 streak_history samples -> (length samples <= 2)%nat)).
Proof.
  assert (Z.of_nat (length streak_history) < 2 ^ 63) as H1 by (vm_compute; reflexivity).
  assert (in_time 1 streak_history) as H2.
  { change (StronglySorted Z.le [5; 5; 9]). repeat (constructor; try lia). }
  split; [exact H1|split; [exact H2|]].
  apply (count_is_longest_run streak_history 1 2 H1 H2). vm_compute. reflexivity.
Defined.

(** ** Retention *)

Definition old_row (id : Z) (status : string) (t : Z) : alert_row :=
  new_row id (with_state (new_alert cpu_rule {| v_value := f_of_int 95;
    v_threshold := f_of_int 80; v_operator := ">"; v_severity := "warning" |} 3 None None None
    "high_cpu" "CPU usage is high" t) None (Some status) None None None).

Definition old_engine : engine :=
  new_engine (set_alerts install
    [old_row 1 "cleared" 1000; old_row 2 "active" 1000; old_row 3 "acknowledged" 2000;
     old_row 4 "cleared" 9000000]).

(** Nothing else happens. *)
Definition still : World :=
  {| fails := fun _ _ => false; lands := fun _ => false; cancelled := fun _ => false;
     now := fun _ => 0; db_now := fun _ => 0; submits := fun _ => true;
     others := fun _ d => d; getConfig := fun _ => None;
     epoch := fun z => f_of_int z; epoch_ratio := fun z _ => f_of_int z |}.

Lemma retention_sweep_complete_witness :
  exists n e', @DeleteOldAlerts still 5 5000 old_engine = (Some (n, true), e') /\
    (n + length (alerts (db e')) = length (alerts (db old_engine)))%nat /\
    alerts (db e') `sublist_of` alerts (db old_engine) /\
    forall r, r ∈ alerts (db e') <->
      r ∈ alerts (db old_engine) /\ ~ outdated 5000 (alert_of r).
Proof.
  apply (retention_sweep_complete still 5000 5 old_engine).
  - split; [|split]; reflexivity.
  - cbn. repeat (apply NoDup_cons; split; [rewrite ?not_elem_of_cons;
      repeat split; try discriminate; apply not_elem_of_nil|]). constructor.
  - vm_compute. lia.
Defined.

Example retention_sweep_leaves :
  let '(r, e') := @DeleteOldAlerts still 5 5000 old_engine in
  r = Some (2%nat, true) /\
  alerts (db e') = [old_row 2 "active" 1000; old_row 4 "cleared" 9000000].
Proof. vm_compute. split; reflexivity. Qed.

(** ** Schedules *)

(** Every hour on the hour, whatever the expression. *)
Definition hourly : CronLibrary :=
  {| Parse := fun expr => if String.eqb expr "0 * * * *"
       then Some (fun _ t => Some ((t / (60 * Minute) + 1) * (60 * Minute))) else None;
     LoadLocation := String.eqb "Europe/London" |}.

Lemma next_multiple (h t u : Z) :
  0 < h -> (t / h + 1) * h = u <->
  u mod h = 0 /\ t < u /\ (forall v, v mod h = 0 -> t < v -> u <= v).
Proof.
  intros Hh.
  assert (forall v, v mod h = 0 -> t < v -> (t / h + 1) * h <= v) as Hleast.
  { intros v Hv Hlt. pose proof (Z.div_mod v h ltac:(lia)).
    pose proof (Z.div_lt_upper_bound t h (v / h) Hh ltac:(lia)). nia. }
  assert (t < (t / h + 1) * h) as Hafter.
  { pose proof (Z.div_mod t h ltac:(lia)). pose proof (Z.mod_pos_bound t h Hh). lia. }
  assert (((t / h + 1) * h) mod h = 0) as Hmod by (apply Z_mod_mult).
  split.
  - intros <-. auto.
  - intros (Hu & Hlt & Hmin). specialize (Hleast u Hu Hlt).
    specialize (Hmin _ Hmod Hafter). lia.
Qed.

Lemma cron_matches_minute_witness :
  @cronMatches hourly "0 * * * *" (120 * Minute + 5 * Second) "Europe/London" = true.
Proof.
  apply (cron_matches_minute hourly "0 * * * *" "Europe/London" (120 * Minute + 5 * Second)
    (fun _ t => t mod (60 * Minute) = 0)).
  - intros next loc [= <-]. split; intros t.
    + intros u. rewrite <- next_multiple by (unfold Minute, Second; lia).
      split; [intros Heq; injection Heq; auto|intros ->; reflexivity].
    + unfold Minute, Second. intros Ht. Z.div_mod_to_equations. lia.
  - split; [eexists; reflexivity|vm_compute; reflexivity].
Defined.

(** An estate-wide blackout with one second to go keeps a server's own
    schedule, which starts in that minute and lasts two hours, from being
    opened; its minute does not come back for the rest of the window. *)
Definition server_schedule : BlackoutSchedule :=
  {| sc_scope := "server"; sc_connection := Some 3; sc_group := None; sc_cluster := None;
     sc_database := None; sc_name := "nightly"; CronExpression := "0 * * * *";
     DurationMinutes := 120; Timezone := "UTC"; sc_enabled := true |}.

Definition ending_blackout : Blackout :=
  {| bl_scope := "estate"; bl_connection := None; bl_group := None; bl_cluster := None;
     bl_database := None; bl_reason := "maintenance"; StartTime := 0; EndTime := Second;
     CreatedBy := "dba"; CreatedAt := 0 |}.

Example other_blackout_skips_schedule :
  blackouts (db (snd (@check_schedule hourly still 0 server_schedule
    (new_engine (set_blackouts install [ending_blackout]))))) = [ending_blackout] /\
  blackout_active (set_blackouts install [ending_blackout]) (2 * Second) (Some 3) None = false /\
  blackout_active (db (snd (@check_schedule hourly still 0 server_schedule
    (new_engine install)))) (2 * Second) (Some 3) None = true.
Proof. vm_compute. auto. Qed.
