(* ===== verification/Threads.v ===== *)
(** * Threads over a shared state

    The server handles each request in a goroutine of its own.  A goroutine
    is a [prog]: it has finished, or it is at its next atomic step, which may
    have to wait (a mutex) and otherwise changes the shared state and says
    how the goroutine goes on.  A pool of goroutines runs under a schedule,
    and what holds under every schedule is proved by rely-guarantee
    reasoning: [wp] below. *)
From stdpp Require Import base list.
From S2P Require Import Prelude.

Section Threads.
Context {S : Type}.

Inductive prog (A : Type) : Type :=
| Done (a : A)
| Step (ready : S -> bool) (act : S -> S) (next : S -> prog A).
Arguments Done {A} _.
Arguments Step {A} _ _ _.

Fixpoint pbind {A B} (p : prog A) (f : A -> prog B) : prog B :=
  match p with
  | Done a => f a
  | Step ready act next => Step ready act (fun s => pbind (next s) f)
  end.

(** One atomic step, and one that waits for [ready]. *)
Definition atomic {A} (f : S -> A * S) : prog A :=
  Step (fun _ => true) (fun s => snd (f s)) (fun s => Done (fst (f s))).

Definition await (ready : S -> bool) (f : S -> S) : prog unit :=
  Step ready f (fun _ => Done tt).

(** A [for] loop over a slice. *)
Fixpoint each {A} (l : list A) (body : A -> prog unit) : prog unit :=
  match l with
  | [] => Done tt
  | x :: l => pbind (body x) (fun _ => each l body)
  end.

(** ** Pools and schedules *)

Abbreviation pool := (list (prog unit)).

(** The scheduler picks a goroutine; one that has finished or must wait
    stays where it is. *)
Definition advance (i : nat) (c : pool * S) : pool * S :=
  let '(ps, s) := c in
  match ps !! i with
  | Some (Step ready act next) =>
      if ready s then (<[i := next s]> ps, act s) else (ps, s)
  | _ => (ps, s)
  end.

Definition run_pool (schedule : list nat) (c : pool * S) : pool * S :=
  foldl (fun c i => advance i c) c schedule.

(** ** Rely-guarantee

    [I] is an invariant of the shared state, [G i] what a step of goroutine
    [i] may do, and [R i] what goroutine [i] may rely on of all others. *)
Record rely_guarantee (R G : nat -> S -> S -> Prop) : Prop := {
  rely_refl : forall i s, R i s s;
  rely_trans : forall i s1 s2 s3, R i s1 s2 -> R i s2 s3 -> R i s1 s3;
  guarantee_rely : forall i j s s', i <> j -> G j s s' -> R i s s';
}.

Section Logic.
Context (I : S -> Prop) (R G : nat -> S -> S -> Prop).
Context (HRG : rely_guarantee R G).

(** From state [s], goroutine [i] keeps the invariant and its guarantee at
    every step, and ends in a state with [Q]. *)
Fixpoint wp {A} (i : nat) (p : prog A) (Q : A -> S -> Prop) (s : S) : Prop :=
  match p with
  | Done a => Q a s
  | Step ready act next =>
      forall s', R i s s' -> I s' -> ready s' = true ->
      I (act s') /\ G i s' (act s') /\ wp i (next s') Q (act s')
  end.

Lemma wp_weaken {A} i (p : prog A) (Q Q' : A -> S -> Prop) s :
  (forall a s', Q a s' -> Q' a s') -> wp i p Q s -> wp i p Q' s.
Proof.
  intros HQ. revert s. induction p as [a|ready act next IH]; intros s; cbn; [apply HQ|].
  intros H s' Hr HI Hd. destruct (H s' Hr HI Hd) as (HI' & Hg & Hw). auto.
Qed.

Lemma wp_pbind {A B} i (p : prog A) (f : A -> prog B) Q s :
  wp i p (fun a s' => wp i (f a) Q s') s -> wp i (pbind p f) Q s.
Proof.
  revert s. induction p as [a|ready act next IH]; intros s; cbn; [done|].
  intros H s' Hr HI Hd. destruct (H s' Hr HI Hd) as (HI' & Hg & Hw). auto.
Qed.

(** A step, from any state the others may have made of [s]. *)
Lemma wp_atomic {A} i (f : S -> A * S) (Q : A -> S -> Prop) s :
  (forall s', R i s s' -> I s' ->
     let '(a, s'') := f s' in I s'' /\ G i s' s'' /\ Q a s'') ->
  wp i (atomic f) Q s.
Proof.
  intros H s' Hr HI _. specialize (H s' Hr HI). by destruct (f s') as [a s''].
Qed.

Lemma wp_await i ready (f : S -> S) (Q : unit -> S -> Prop) s :
  (forall s', R i s s' -> I s' -> ready s' = true ->
     I (f s') /\ G i s' (f s') /\ Q tt (f s')) ->
  wp i (await ready f) Q s.
Proof. done. Qed.

(** What a goroutine knows survives the others' steps. *)
Lemma wp_rely {A} i (p : prog A) Q s s' :
  (forall a s1 s2, R i s1 s2 -> Q a s1 -> Q a s2) ->
  R i s s' -> wp i p Q s -> wp i p Q s'.
Proof.
  intros HQ Hr. destruct p as [a|ready act next]; cbn; [by apply HQ|].
  intros H s'' Hr' HI Hd. apply H; [|done|done]. by eapply (rely_trans _ _ HRG).
Qed.

(** A goroutine all of whose steps are allowed. *)
Definition safe (i : nat) (p : prog unit) (s : S) : Prop := wp i p (fun _ _ => True) s.

Definition all_safe (c : pool * S) : Prop :=
  I (snd c) /\ forall i p, fst c !! i = Some p -> safe i p (snd c).

Lemma advance_safe i c : all_safe c -> all_safe (advance i c).
Proof.
  destruct c as [ps s]. intros [HI Hps]. simpl in HI, Hps. unfold advance.
  destruct (ps !! i) as [[a|ready act next]|] eqn:E; [done| |done].
  destruct (ready s) eqn:Hd; [|done].
  destruct (Hps i _ E s (rely_refl _ _ HRG i s) HI Hd) as (HI' & Hg & Hw).
  split; [done|]. intros j q. cbn [fst snd]. destruct (decide (i = j)) as [<-|Hne].
  - rewrite list_lookup_insert_eq by by eapply lookup_lt_Some. by intros [= <-].
  - rewrite list_lookup_insert_ne by done. intros Hj.
    eapply wp_rely; [done|by apply (guarantee_rely _ _ HRG j i)|by apply Hps].
Qed.

Lemma run_pool_safe schedule c : all_safe c -> all_safe (run_pool schedule c).
Proof.
  revert c. induction schedule as [|i schedule IH]; intros c Hc; [done|].
  apply IH. by apply advance_safe.
Qed.

(** When nothing but the invariant is known of the start. *)
Lemma pool_invariant (ps : pool) schedule s :
  I s -> (forall i p s, ps !! i = Some p -> safe i p s) ->
  I (snd (run_pool schedule (ps, s))).
Proof. intros HI Hps. apply (run_pool_safe schedule (ps, s)). split; [done|auto]. Qed.
End Logic.
End Threads.

Arguments prog S A : clear implicits.
Arguments Done {S A} _.
Arguments Step {S A} _ _ _.

Declare Scope prog_scope.
Delimit Scope prog_scope with prog.
Notation "'let&' x ':=' m 'in' k" := (pbind m (fun x => k))
  (at level 10, x pattern, m at level 100, k at level 200,
   format "'[v' 'let&'  x  ':='  m  'in' '/' k ']'") : prog_scope.
