(* ===== verification/Accounts.v ===== *)
(** * Accounts and API tokens
      (server/src/internal/auth: store.go, actor_store_users.go,
      federated_tokens.go, actor_store_tokens.go)

    The rows of the users and tokens tables in full, and the operations that
    create, change and delete them.  Each operation holds the store's lock
    from its first query to its last, and, but for the best-effort updates,
    runs in one transaction with its audit event: it is a function of the
    tables.  [flt] says which of its queries fail. *)
From stdpp Require Import base list strings gmap.
From Stdlib Require Import Ascii.
From S2P Require Import Prelude GoStrings AuthStore Groups Grants TokenScope.

Local Open Scope string_scope.
Local Open Scope Z_scope.
Local Open Scope res_scope.

(** ** Rows *)

Definition AuthSourceLocal : string := "local".

(** A row of users; [acc_row] holds the columns the access checks read. *)
Record account := {
  acc_row : User;
  PasswordHash : string;
  Enabled : bool;
  Annotation : string;
  DisplayName : string;
  Email : string;
  FailedAttempts : Z;
  LastLogin : option Z;
  IsServiceAccount : bool;
  AuthSource : string;
}.

Definition acc_id (a : account) : Z := user_id (acc_row a).
Definition acc_name (a : account) : string := Username (acc_row a).
Definition acc_superuser (a : account) : bool := IsSuperuserRow (acc_row a).

(** A row of tokens. *)
Record token_row := {
  tok_row : StoredToken;
  TokenHash : string;
  ExpiresAt : option Z;
  tok_annotation : string;
}.

Record ConnectionSession := {
  cs_token : string; cs_connection : Z; cs_database : option string;
}.

(** The database.  [other] holds the tables that no operation of this file
    reads; its users and tokens are not used. *)
Record store_db := {
  other : tables;
  accounts : list account;
  token_rows : list token_row;
  connection_sessions : list ConnectionSession;
  next_user : Z;
  next_token : Z;
}.

Definition set_other (d : store_db) (t : tables) : store_db :=
  {| other := t; accounts := accounts d; token_rows := token_rows d;
     connection_sessions := connection_sessions d; next_user := next_user d;
     next_token := next_token d |}.

Definition set_accounts (d : store_db) (l : list account) : store_db :=
  {| other := other d; accounts := l; token_rows := token_rows d;
     connection_sessions := connection_sessions d; next_user := next_user d;
     next_token := next_token d |}.

Definition set_tokens (d : store_db) (l : list token_row) : store_db :=
  {| other := other d; accounts := accounts d; token_rows := l;
     connection_sessions := connection_sessions d; next_user := next_user d;
     next_token := next_token d |}.

Definition set_connection_sessions (d : store_db) (l : list ConnectionSession)
    : store_db :=
  {| other := other d; accounts := accounts d; token_rows := token_rows d;
     connection_sessions := l; next_user := next_user d; next_token := next_token d |}.

(** What the access checks see of it. *)
Definition tables_of (d : store_db) : tables :=
  let t := other d in
  {| users := map acc_row (accounts d); user_group_rows := user_group_rows t;
     tokens := map tok_row (token_rows d); group_memberships := group_memberships t;
     mcp_privilege_identifiers := mcp_privilege_identifiers t;
     group_mcp_privileges := group_mcp_privileges t;
     connection_privileges := connection_privileges t;
     group_admin_permissions := group_admin_permissions t;
     token_connection_scope := token_connection_scope t;
     token_mcp_scope := token_mcp_scope t;
     token_admin_scope := token_admin_scope t;
     audit_events := audit_events t |}.

Definition find_account (d : store_db) (username : string) : option account :=
  find (fun a => String.eqb (acc_name a) username) (accounts d).

Definition account_by_id (d : store_db) (id : Z) : option account :=
  find (fun a => acc_id a =? id) (accounts d).

(** UPDATE users ... WHERE the row is selected by [p]. *)
Definition update_accounts (d : store_db) (p : account -> bool)
    (f : account -> account) : store_db :=
  set_accounts d (map (fun a => if p a then f a else a) (accounts d)).

Definition named (username : string) (a : account) : bool :=
  String.eqb (acc_name a) username.
Definition with_id (id : Z) (a : account) : bool := acc_id a =? id.

(** ** Changing columns *)

Definition set_password (h : string) (a : account) : account :=
  {| acc_row := acc_row a; PasswordHash := h; Enabled := Enabled a;
     Annotation := Annotation a; DisplayName := DisplayName a; Email := Email a;
     FailedAttempts := FailedAttempts a; LastLogin := LastLogin a;
     IsServiceAccount := IsServiceAccount a; AuthSource := AuthSource a |}.

Definition set_enabled (b : bool) (a : account) : account :=
  {| acc_row := acc_row a; PasswordHash := PasswordHash a; Enabled := b;
     Annotation := Annotation a; DisplayName := DisplayName a; Email := Email a;
     FailedAttempts := FailedAttempts a; LastLogin := LastLogin a;
     IsServiceAccount := IsServiceAccount a; AuthSource := AuthSource a |}.

Definition set_superuser (b : bool) (a : account) : account :=
  {| acc_row := {| user_id := acc_id a; Username := acc_name a; IsSuperuserRow := b |};
     PasswordHash := PasswordHash a; Enabled := Enabled a;
     Annotation := Annotation a; DisplayName := DisplayName a; Email := Email a;
     FailedAttempts := FailedAttempts a; LastLogin := LastLogin a;
     IsServiceAccount := IsServiceAccount a; AuthSource := AuthSource a |}.

Definition set_profile (annotation displayName email : string) (a : account) : account :=
  {| acc_row := acc_row a; PasswordHash := PasswordHash a; Enabled := Enabled a;
     Annotation := annotation; DisplayName := displayName; Email := email;
     FailedAttempts := FailedAttempts a; LastLogin := LastLogin a;
     IsServiceAccount := IsServiceAccount a; AuthSource := AuthSource a |}.

Definition set_attempts (n : Z) (a : account) : account :=
  {| acc_row := acc_row a; PasswordHash := PasswordHash a; Enabled := Enabled a;
     Annotation := Annotation a; DisplayName := DisplayName a; Email := Email a;
     FailedAttempts := n; LastLogin := LastLogin a;
     IsServiceAccount := IsServiceAccount a; AuthSource := AuthSource a |}.

Definition logged_in (t : Z) (a : account) : account :=
  {| acc_row := acc_row a; PasswordHash := PasswordHash a; Enabled := Enabled a;
     Annotation := Annotation a; DisplayName := DisplayName a; Email := Email a;
     FailedAttempts := 0; LastLogin := Some t;
     IsServiceAccount := IsServiceAccount a; AuthSource := AuthSource a |}.

(** ** What is not part of the server

    bcrypt; SHA-256 in hexadecimal; the Unicode classes and case mapping of
    runes, and NFKC normalisation, here of a text into runes; the lines of the
    dictionary of common passwords; the calendar arithmetic of AddDate. *)
Class Credentials := {
  GenerateFromPassword : nat -> string -> option string;
  CompareHashAndPassword : string -> string -> bool;
  sha256 : string -> string;
  letter_or_digit : N -> bool;
  unicode_space : N -> bool;
  unicode_lower : N -> N;
  NFKC : string -> list N;
  commonPasswordsRaw : list string;
  add_days : Z -> Z -> Z;
}.

(** The settings of a store. *)
Record settings := { maxUserTokenDays : Z; maxFailedAttempts : Z }.

(** ** Names and passwords *)

(** The runes of a string; a byte that is not part of an encoding counts as
    one rune, U+FFFD. *)
Definition cont (c : ascii) : bool := in_range 128 191 c.

Fixpoint runes (s : bytes) : list N :=
  match s with
  | [] => []
  | a :: s1 =>
      if is_ascii a then code a :: runes s1 else
      match s1 with
      | b :: s2 =>
          if in_range 194 223 a && cont b
          then ((code a - 192) * 64 + (code b - 128))%N :: runes s2 else
          match s2 with
          | c :: s3 =>
              if (in_range 224 239 a && cont b && cont c) &&
                 negb (Ascii.eqb a (chr 224) && (code b <? 160)%N) &&
                 negb (Ascii.eqb a (chr 237) && (159 <? code b)%N)
              then ((code a - 224) * 4096 + (code b - 128) * 64 + (code c - 128))%N
                     :: runes s3 else
              match s3 with
              | e :: s4 =>
                  if (in_range 240 244 a && cont b && cont c && cont e) &&
                     negb (Ascii.eqb a (chr 240) && (code b <? 144)%N) &&
                     negb (Ascii.eqb a (chr 244) && (143 <? code b)%N)
                  then ((code a - 240) * 262144 + (code b - 128) * 4096 +
                        (code c - 128) * 64 + (code e - 128))%N :: runes s4
                  else 65533%N :: runes s1
              | [] => 65533%N :: runes s1
              end
          | [] => 65533%N :: runes s1
          end
      | [] => [65533%N]
      end
  end.

Definition RuneCountInString (s : string) : nat := length (runes (lit s)).

Definition MinPasswordLength : nat := 12.
Definition MaxPasswordLength : nat := 72.

Definition ascii_letter_or_digit (r : N) : bool :=
  ((65 <=? r) && (r <=? 90) || (97 <=? r) && (r <=? 122) || (48 <=? r) && (r <=? 57))%N.

(** ** Queries and transactions *)

Abbreviation faults := (string -> nat -> list Z -> bool).

(** Query [n] of function [fn]. *)
Definition try {A} (flt : faults) (fn : string) (n : nat) (v : A) : result A :=
  if flt fn n [] then Err DBError else Ok v.

Definition as_store (flt : faults) (d : store_db) : AuthStore :=
  {| db := other d; fault := flt |}.

Definition user_event (action : string) (target : Z) (success : bool) : AuditEvent :=
  {| ev_action := action; ev_target := target; ev_member := None;
     ev_success := success |}.

(** A transaction: the body gives the tables and the rows its audit events
    name, one event each.  If the body, an event or the commit fails, the
    tables are as before but for the failure recorded, against the row the
    body reached or else against [target]; none is recorded without either. *)
Fixpoint record_events (flt : faults) (fn : string) (n : nat) (d : store_db)
    (evs : list AuditEvent) : result store_db :=
  match evs with
  | [] => Ok d
  | ev :: evs =>
      let! t := ask (as_store flt d) fn (100 + n) [] (append_event (other d) ev) in
      record_events flt fn (S n) (set_other d t) evs
  end.

Definition transaction {A} (flt : faults) (fn action : string) (target : option Z)
    (d : store_db) (body : result (store_db * list Z * A)) : store_db * result A :=
  if flt fn 0%nat [] then (d, Err DBError) else
  let done :=
    let! (d', ids, a) := body in
    let! d' := record_events flt fn 0 d' (map (fun id => user_event action id true) ids) in
    let! _ := try flt fn 200 tt in
    Ok (d', a) in
  match done with
  | Ok (d', a) => (d', Ok a)
  | Err e =>
      let target := match body with Ok (_, id :: _, _) => Some id | _ => target end in
      (match target with
       | Some id => set_other d (failAudit (as_store flt d) (user_event action id false) e)
       | None => d
       end, Err e)
  end.

(** ** Users (actor_store_users.go) *)

Section Users.
Context `{Credentials} (cfg : settings).

Definition username_rune (first : bool) (r : N) : bool :=
  (if (r <? 128)%N then ascii_letter_or_digit r else letter_or_digit r) ||
  negb first && ((r =? 95) || (r =? 46) || (r =? 64) || (r =? 45))%N.

Definition ValidateUsername (username : string) : bool :=
  match runes (lit username) with
  | [] => false
  | r :: rs =>
      (length (r :: rs) <=? 128)%nat && username_rune true r &&
      forallb (username_rune false) rs
  end.

(** *** The dictionary of common passwords (common_passwords.go) *)

Definition confusableFolds : list (N * N) :=
  [(1072, 97); (1077, 101); (1086, 111); (1088, 112); (1089, 99); (1091, 121); (1093, 120);
   (1040, 97); (1045, 101); (1054, 111); (1056, 112); (1057, 99); (1059, 121); (1061, 120);
   (913, 97); (945, 97); (917, 101); (949, 101); (927, 111); (959, 111); (929, 112);
   (961, 112); (932, 116); (964, 116)]%N.

Definition foldFullwidth (r : N) : N :=
  (if (65296 <=? r) && (r <=? 65305) then 48 + (r - 65296)
   else if (65313 <=? r) && (r <=? 65338) then 65 + (r - 65313)
   else if (65345 <=? r) && (r <=? 65370) then 97 + (r - 65345)
   else r)%N.

Definition fold_rune (r : N) : N :=
  match find (fun e => (fst e =? r)%N) confusableFolds with
  | Some (_, folded) => folded
  | None => foldFullwidth r
  end.

Fixpoint drop_spaces (rs : list N) : list N :=
  match rs with
  | r :: rs' => if unicode_space r then drop_spaces rs' else rs
  | [] => []
  end.

Definition normalizeForDictionary (s : string) : list N :=
  if String.eqb s "" then []
  else map unicode_lower (rev (drop_spaces (rev (drop_spaces (map fold_rune (NFKC s)))))).

(** The keys of the map, those of empty lines left out. *)
Definition loadCommonPasswords : list (list N) :=
  List.filter (fun e => negb (bool_decide (e = []))) (map normalizeForDictionary commonPasswordsRaw).

Definition isCommonPassword (password : string) : bool :=
  let key := normalizeForDictionary password in
  if bool_decide (key = []) then false else bool_decide (key ∈ loadCommonPasswords).

Definition ValidatePassword (password : string) : bool :=
  (MinPasswordLength <=? RuneCountInString password)%nat &&
  (length (lit password) <=? MaxPasswordLength)%nat &&
  negb (isCommonPassword password).

(** The snapshot of a user is its row without the password hash. *)
Definition userSnapshotTx (flt : faults) (fn : string) (n : nat) (d : store_db)
    (username : string) : result account :=
  let! found := try flt fn n (find_account d username) in
  match found with Some a => Ok a | None => Err ErrUserNotFound end.

(** The target a failure is recorded against: 0 until the user is read. *)
Definition user_target (flt : faults) (fn : string) (d : store_db)
    (username : string) : option Z :=
  Some (match userSnapshotTx flt fn 1 d username with
        | Ok a => acc_id a
        | Err _ => 0
        end).

Definition new_account (d : store_db) (username hash annotation displayName email : string)
    (service : bool) : account :=
  {| acc_row := {| user_id := next_user d; Username := username; IsSuperuserRow := false |};
     PasswordHash := hash; Enabled := true; Annotation := annotation;
     DisplayName := displayName; Email := email; FailedAttempts := 0;
     LastLogin := None; IsServiceAccount := service; AuthSource := AuthSourceLocal |}.

(** The INSERT: usernames are unique, ids are never used again. *)
Definition insert_account (flt : faults) (fn : string) (d : store_db) (a : account)
    : result store_db :=
  let! _ := try flt fn 2 tt in
  match find_account d (acc_name a) with
  | Some _ => Err DBError
  | None =>
      Ok {| other := other d; accounts := (accounts d ++ [a])%list;
            token_rows := token_rows d; connection_sessions := connection_sessions d;
            next_user := next_user d + 1; next_token := next_token d |}
  end.

Definition insertUserAudited (flt : faults) (fn action : string) (d : store_db)
    (a : result account) : store_db * result unit :=
  transaction flt fn action (Some 0) d
    (let! a := a in
     let! d' := insert_account flt fn d a in
     let! after := userSnapshotTx flt fn 3 d' (acc_name a) in
     Ok (d', [acc_id after], tt)).

Definition createUser (n : nat) (flt : faults) (d : store_db)
    (username password annotation displayName email : string)
    : store_db * result unit :=
  if negb (ValidateUsername username) || negb (ValidatePassword password)
  then (d, Err ErrInvalidInput)
  else insertUserAudited flt "createUser" "user.create" d
         (match GenerateFromPassword n password with
          | Some hash => Ok (new_account d username hash annotation displayName email false)
          | None => Err ErrHashing
          end).

Definition createServiceAccount (flt : faults) (d : store_db)
    (username annotation displayName email : string) : store_db * result unit :=
  if negb (ValidateUsername username) then (d, Err ErrInvalidInput)
  else insertUserAudited flt "createServiceAccount" "service_account.create" d
         (Ok (new_account d username "" annotation displayName email true)).

(** A federated account is refused; a missing one is no error. *)
Definition writePasswordHashLocked (flt : faults) (fn : string) (d : store_db)
    (username hash : string) : result store_db :=
  let local a := named username a && String.eqb (AuthSource a) AuthSourceLocal in
  let! _ := try flt fn 10 tt in
  if existsb local (accounts d)
  then Ok (update_accounts d local (set_password hash))
  else
    let! row := try flt fn 11 (find_account d username) in
    match row with Some _ => Err ErrInvalidInput | None => Ok d end.

Definition hash_and_write (n : nat) (flt : faults) (fn : string) (d : store_db)
    (username password : string) : result store_db :=
  match GenerateFromPassword n password with
  | None => Err ErrHashing
  | Some hash => writePasswordHashLocked flt fn d username hash
  end.

(** An empty [newPassword] leaves the password. *)
Definition updateUser (n : nat) (flt : faults) (d : store_db)
    (username newPassword newAnnotation newDisplayName newEmail : string)
    : store_db * result unit :=
  if negb (String.eqb newPassword "") && negb (ValidatePassword newPassword)
  then (d, Err ErrInvalidInput)
  else
    let fn := "updateUser" in
    transaction flt fn "user.update" (user_target flt fn d username) d
      (let! before := userSnapshotTx flt fn 1 d username in
       let! d := if String.eqb newPassword "" then Ok d
                 else hash_and_write n flt fn d username newPassword in
       let! _ := try flt fn 2 tt in
       let d := update_accounts d (named username)
                  (set_profile newAnnotation newDisplayName newEmail) in
       Ok (d, [acc_id before], tt)).

(** Counts the other enabled superusers, in the tables the transaction has
    reached. *)
Definition guardLastSuperuserTx (flt : faults) (fn : string) (d : store_db)
    (before after : account) (deleting : bool) : result unit :=
  if negb (acc_superuser before) || negb (Enabled before) then Ok tt
  else if negb deleting && acc_superuser after && Enabled after then Ok tt
  else
    let! others := try flt fn 20 (length (List.filter (fun a =>
      acc_superuser a && Enabled a && negb (acc_id a =? acc_id before)) (accounts d))) in
    if (others =? 0)%nat then Err ErrLastSuperuser else Ok tt.

Definition guardSuperuserTargetTx (before : account) (callerIsSuperuser : bool)
    : result unit :=
  if acc_superuser before && negb callerIsSuperuser
  then Err ErrSuperuserTargetForbidden else Ok tt.

(** [None] leaves a field as it is. *)
Record UserUpdate := {
  upd_Password : option string;
  upd_Annotation : option string;
  upd_DisplayName : option string;
  upd_Email : option string;
  upd_Enabled : option bool;
  upd_IsSuperuser : option bool;
}.

Definition passwordChanged (update : UserUpdate) : bool :=
  match upd_Password update with Some p => negb (String.eqb p "") | None => false end.

Definition applyUserPasswordTx (n : nat) (flt : faults) (fn : string) (d : store_db)
    (username : string) (update : UserUpdate) : result store_db :=
  match upd_Password update with
  | None => Ok d
  | Some p =>
      if String.eqb p "" then Ok d
      else if negb (ValidatePassword p) then Err ErrInvalidInput
      else hash_and_write n flt fn d username p
  end.

Definition applyUserProfileTx (flt : faults) (fn : string) (d : store_db)
    (username : string) (update : UserUpdate) (after : account)
    : result (store_db * account) :=
  match upd_Annotation update, upd_DisplayName update, upd_Email update with
  | None, None, None => Ok (d, after)
  | annotation, displayName, email =>
      let annotation := default (Annotation after) annotation in
      let displayName := default (DisplayName after) displayName in
      let email := default (Email after) email in
      let! _ := try flt fn 30 tt in
      Ok (update_accounts d (named username) (set_profile annotation displayName email),
          set_profile annotation displayName email after)
  end.

Definition applyUserFlagsTx (flt : faults) (fn : string) (d : store_db)
    (username : string) (update : UserUpdate) (after : account)
    : result (store_db * account) :=
  let! (d, after) :=
    match upd_Enabled update with
    | None => Ok (d, after)
    | Some b =>
        let! _ := try flt fn 31 tt in
        Ok (update_accounts d (named username) (set_enabled b), set_enabled b after)
    end in
  match upd_IsSuperuser update with
  | None => Ok (d, after)
  | Some b =>
      let! _ := try flt fn 32 tt in
      Ok (update_accounts d (named username) (set_superuser b), set_superuser b after)
  end.

Definition applyUserUpdatesTx (n : nat) (flt : faults) (fn : string) (d : store_db)
    (username : string) (update : UserUpdate) (after : account)
    : result (store_db * account) :=
  let! d := applyUserPasswordTx n flt fn d username update in
  let! (d, after) := applyUserProfileTx flt fn d username update after in
  applyUserFlagsTx flt fn d username update after.

Definition updateUserAtomic (n : nat) (flt : faults) (d : store_db) (username : string)
    (update : UserUpdate) (callerIsSuperuser : bool) : store_db * result unit :=
  let fn := "updateUserAtomic" in
  transaction flt fn "user.update" (user_target flt fn d username) d
    (let! before := userSnapshotTx flt fn 1 d username in
     let! _ := guardSuperuserTargetTx before callerIsSuperuser in
     let! (d, after) := applyUserUpdatesTx n flt fn d username update before in
     let! _ := guardLastSuperuserTx flt fn d before after false in
     Ok (d, [acc_id before], tt)).

(** The two columns [updateUserField] may name. *)
Inductive user_column := display_name | email.

Definition updateUserField (flt : faults) (d : store_db) (username : string)
    (column : user_column) (value : string) : store_db * result unit :=
  let fn := "updateUserField" in
  transaction flt fn "user.update" (user_target flt fn d username) d
    (let! before := userSnapshotTx flt fn 1 d username in
     let! _ := try flt fn 2 tt in
     let set a := match column with
                  | display_name => set_profile (Annotation a) value (Email a) a
                  | email => set_profile (Annotation a) (DisplayName a) value a
                  end in
     Ok (update_accounts d (named username) set, [acc_id before], tt)).

Definition setUserEnabled (flt : faults) (d : store_db) (username : string)
    (enabled : bool) : store_db * result unit :=
  let fn := "setUserEnabled" in
  let action := if enabled then "user.enable" else "user.disable" in
  transaction flt fn action (user_target flt fn d username) d
    (let! before := userSnapshotTx flt fn 1 d username in
     let! _ := try flt fn 2 tt in
     let set a := if enabled then set_attempts 0 (set_enabled true a)
                  else set_enabled false a in
     let d := update_accounts d (with_id (acc_id before)) set in
     let! _ := guardLastSuperuserTx flt fn d before (set_enabled enabled before) false in
     Ok (d, [acc_id before], tt)).

Definition setUserSuperuser (flt : faults) (d : store_db) (username : string)
    (isSuperuser : bool) : store_db * result unit :=
  let fn := "setUserSuperuser" in
  let action := if isSuperuser then "user.set_superuser" else "user.unset_superuser" in
  transaction flt fn action (user_target flt fn d username) d
    (let! before := userSnapshotTx flt fn 1 d username in
     let! _ := try flt fn 2 tt in
     let d := update_accounts d (with_id (acc_id before)) (set_superuser isSuperuser) in
     let! _ := guardLastSuperuserTx flt fn d before (set_superuser isSuperuser before) false in
     Ok (d, [acc_id before], tt)).

Definition ResetFailedAttempts (flt : faults) (d : store_db) (username : string)
    : store_db * result unit :=
  match try flt "ResetFailedAttempts" 0 tt with
  | Ok _ => (update_accounts d (named username) (set_attempts 0), Ok tt)
  | Err e => (d, Err e)
  end.
End Users.

(** ** Deletion of a user *)

Definition owned_by (id : Z) (k : token_row) : bool := OwnerID (tok_row k) =? id.
Definition token_id (k : token_row) : Z := stored_token_id (tok_row k).

(** Every row of the scope tables of the tokens [ids]. *)
Definition drop_scopes (t : tables) (ids : list Z) : tables :=
  {| users := users t; user_group_rows := user_group_rows t; tokens := tokens t;
     group_memberships := group_memberships t;
     mcp_privilege_identifiers := mcp_privilege_identifiers t;
     group_mcp_privileges := group_mcp_privileges t;
     connection_privileges := connection_privileges t;
     group_admin_permissions := group_admin_permissions t;
     token_connection_scope :=
       List.filter (fun r => negb (bool_decide (tcs_token r ∈ ids))) (token_connection_scope t);
     token_mcp_scope :=
       List.filter (fun r => negb (bool_decide (tms_token r ∈ ids))) (token_mcp_scope t);
     token_admin_scope :=
       List.filter (fun r => negb (bool_decide (tas_token r ∈ ids))) (token_admin_scope t);
     audit_events := audit_events t |}.

Definition drop_member (t : tables) (id : Z) : tables :=
  {| users := users t; user_group_rows := user_group_rows t; tokens := tokens t;
     group_memberships :=
       List.filter (fun m => negb (bool_decide (MemberUserID m = Some id)))
         (group_memberships t);
     mcp_privilege_identifiers := mcp_privilege_identifiers t;
     group_mcp_privileges := group_mcp_privileges t;
     connection_privileges := connection_privileges t;
     group_admin_permissions := group_admin_permissions t;
     token_connection_scope := token_connection_scope t;
     token_mcp_scope := token_mcp_scope t;
     token_admin_scope := token_admin_scope t;
     audit_events := audit_events t |}.

Definition drop_connection_sessions (d : store_db) (hashes : list string) : store_db :=
  set_connection_sessions d
    (List.filter (fun c => negb (bool_decide (cs_token c ∈ hashes))) (connection_sessions d)).

Definition deleteUserDependentsTx (flt : faults) (fn : string) (d : store_db) (id : Z)
    : result store_db :=
  let mine := List.filter (owned_by id) (token_rows d) in
  let! _ := try flt fn 10 tt in
  let d := drop_connection_sessions d (map TokenHash mine) in
  let! _ := try flt fn 11 tt in
  let! _ := try flt fn 12 tt in
  let! _ := try flt fn 13 tt in
  let d := set_other d (drop_scopes (other d) (map token_id mine)) in
  let! _ := try flt fn 14 tt in
  let d := set_tokens d (List.filter (fun k => negb (owned_by id k)) (token_rows d)) in
  let! _ := try flt fn 15 tt in
  Ok (set_other d (drop_member (other d) id)).

(** Rows are deleted by id. *)
Definition deleteUserRowTx (flt : faults) (fn : string) (d : store_db) (id : Z)
    : result store_db :=
  let! _ := try flt fn 16 tt in
  if existsb (with_id id) (accounts d)
  then Ok (set_accounts d (List.filter (fun a => negb (with_id id a)) (accounts d)))
  else Err ErrUserNotFound.

Definition deleteUser (flt : faults) (d : store_db) (username : string)
    (callerIsSuperuser : bool) : store_db * result unit :=
  let fn := "deleteUser" in
  transaction flt fn "user.delete" (user_target flt fn d username) d
    (let! before := userSnapshotTx flt fn 1 d username in
     let! _ := try flt fn 2 tt in (* the names of its groups *)
     let! _ := guardSuperuserTargetTx before callerIsSuperuser in
     let! _ := guardLastSuperuserTx flt fn d before before true in
     let! d := deleteUserDependentsTx flt fn d (acc_id before) in
     let! d := deleteUserRowTx flt fn d (acc_id before) in
     Ok (d, [acc_id before], tt)).

(** ** Tokens (store.go, federated_tokens.go) *)

(** How SQLite reads a string that is compared with an INTEGER column. *)
Class Affinity := { integer_affinity : string -> option Z }.

(** LIKE on ASCII text: [%] is any text, [_] any character, and letters match
    in either case. *)
Fixpoint like (p s : bytes) : bool :=
  match p with
  | [] => match s with [] => true | _ => false end
  | c :: p' =>
      if Ascii.eqb c "%" then
        (fix any s := like p' s || match s with [] => false | _ :: s' => any s' end) s
      else
        match s with
        | [] => false
        | b :: s' => (Ascii.eqb c "_" || Ascii.eqb (lower_byte c) (lower_byte b)) && like p' s'
        end
  end.

(** strconv.ParseInt(s, 10, 64). *)
Fixpoint decimal_value (s : bytes) (acc : Z) : option Z :=
  match s with
  | [] => Some acc
  | c :: s =>
      if in_range 48 57 c then decimal_value s (10 * acc + (Z.of_N (code c) - 48)) else None
  end.

Definition ParseInt (s : string) : option Z :=
  let '(negative, digits) :=
    match lit s with
    | c :: ds => if Ascii.eqb c "-" then (true, ds)
                 else if Ascii.eqb c "+" then (false, ds) else (false, c :: ds)
    | [] => (false, [])
    end in
  match digits with
  | [] => None
  | _ =>
      n ← decimal_value digits 0;
      let n := if negative : bool then - n else n in
      if (- 2 ^ 63 <=? n) && (n <? 2 ^ 63) then Some n else None
  end.

Section Tokens.
Context `{Credentials} `{Affinity} (cfg : settings).

(** [allowed]: the setting that lets federated accounts own API tokens. *)
Definition APITokensAllowedFor (allowed : bool) (authSource : string) : bool :=
  String.eqb authSource AuthSourceLocal || allowed.

(** [raw] is the random token, if one could be generated. *)
Definition createToken (flt : faults) (allowed : bool) (now : Z) (raw : option string)
    (d : store_db) (ownerUsername annotation : string) (requestedExpiry : option Z)
    (callerIsSuperuser : bool) (owner : TokenOwnerGuard)
    : store_db * result (string * token_row) :=
  let fn := "createToken" in
  transaction flt fn "token.create" (Some 0) d
    (let! user := userSnapshotTx flt fn 1 d ownerUsername in
     if acc_superuser user && negb callerIsSuperuser
     then Err ErrSuperuserTargetForbidden else
     if match owner with AnyTokenOwner => false | TokensOwnedBy id => negb (acc_id user =? id) end
     then Err ErrTokenNotOwned else
     if negb (APITokensAllowedFor allowed (AuthSource user))
     then Err ErrFederatedAPITokensDisabled else
     let expiry :=
       match requestedExpiry with
       | Some t => Some t
       | None => if negb (acc_superuser user) && (0 <? maxUserTokenDays cfg)
                 then Some (add_days now (maxUserTokenDays cfg)) else None
       end in
     match raw with
     | None => Err ErrRandom
     | Some raw =>
         let k := {| tok_row := {| stored_token_id := next_token d; OwnerID := acc_id user |};
                     TokenHash := sha256 raw; ExpiresAt := expiry;
                     tok_annotation := annotation |} in
         let! _ := try flt fn 2 tt in
         if existsb (fun k' => String.eqb (TokenHash k') (sha256 raw)) (token_rows d)
         then Err DBError else
         Ok ({| other := other d; accounts := accounts d;
                token_rows := (token_rows d ++ [k])%list;
                connection_sessions := connection_sessions d;
                next_user := next_user d; next_token := next_token d + 1 |},
             [token_id k], (raw, k))
     end).

Definition deleteTokenDependentsTx (flt : faults) (fn : string) (d : store_db)
    (matches : list token_row) : result store_db :=
  let! _ := try flt fn 10 tt in
  Ok (drop_connection_sessions (set_other d (drop_scopes (other d) (map token_id matches)))
        (map TokenHash matches)).

Fixpoint guard_matches (flt : faults) (d : store_db) (superuserOwnerAllowed : bool)
    (matches : list token_row) : result unit :=
  match matches with
  | [] => Ok tt
  | k :: matches =>
      let! _ := guardSuperuserOwnedTokenTx (as_store flt d) (tables_of d) (token_id k)
                  superuserOwnerAllowed in
      guard_matches flt d superuserOwnerAllowed matches
  end.

(** [None]: no token matches, and nothing has happened. *)
Definition deleteTokensByFilter (flt : faults) (fn : string) (d : store_db)
    (p : token_row -> bool) (superuserOwnerAllowed : bool)
    : option (store_db * result unit) :=
  if flt fn 0%nat [] then Some (d, Err DBError) else
  match try flt fn 1 (List.filter p (token_rows d)) with
  | Err e => Some (d, Err e)
  | Ok [] => None
  | Ok (k :: matches) =>
      Some (transaction flt fn "token.delete" (Some (token_id k)) d
        (let! _ := guard_matches flt d superuserOwnerAllowed (k :: matches) in
         let! _ := try flt fn 2 tt in (* the tokens and scopes that go *)
         let! d := deleteTokenDependentsTx flt fn d (k :: matches) in
         let! _ := try flt fn 3 tt in
         Ok (set_tokens d (List.filter (fun k => negb (p k)) (token_rows d)),
             map token_id (k :: matches), tt)))
  end.

Definition token_has_id (identifier : string) (k : token_row) : bool :=
  bool_decide (integer_affinity identifier = Some (token_id k)).

Definition token_has_prefix (identifier : string) (k : token_row) : bool :=
  like (lit identifier ++ ["%"%char]) (lit (TokenHash k)).

(** By id, then, for at least eight characters, by prefix of the hash. *)
Definition deleteToken (flt : faults) (d : store_db) (identifier : string)
    (superuserOwnerAllowed : bool) : store_db * result unit :=
  let missing :=
    (match ParseInt identifier with
     | Some id => set_other d (failAudit (as_store flt d) (user_event "token.delete" id false)
                                 ErrTokenNotFound)
     | None => d
     end, Err ErrTokenNotFound) in
  match deleteTokensByFilter flt "deleteToken" d (token_has_id identifier)
          superuserOwnerAllowed with
  | Some r => r
  | None =>
      if (8 <=? length (lit identifier))%nat then
        match deleteTokensByFilter flt "deleteTokenPrefix" d (token_has_prefix identifier)
                superuserOwnerAllowed with
        | Some r => r
        | None => missing
        end
      else missing
  end.

Definition expired (now : Z) (k : token_row) : bool :=
  match ExpiresAt k with Some t => t <? now | None => false end.

(** The rows that referred to the deleted tokens go with them, but for the
    connection sessions. *)
Definition CleanupExpiredTokens (flt : faults) (now : Z) (d : store_db) : store_db :=
  match try flt "CleanupExpiredTokens" 0 tt with
  | Err _ => d
  | Ok _ =>
      match try flt "CleanupExpiredTokens" 1 tt with
      | Err _ => d
      | Ok _ =>
          let gone := List.filter (expired now) (token_rows d) in
          set_tokens (set_other d (drop_scopes (other d) (map token_id gone)))
            (List.filter (fun k => negb (expired now k)) (token_rows d))
      end
  end.

(** ** Validation of a token *)

(** The owner must exist, be enabled, and be allowed to own tokens. *)
Definition checkTokenOwner (flt : faults) (allowed : bool) (d : store_db) (k : token_row)
    : result unit :=
  let! owner := match try flt "checkTokenOwner" 0 (account_by_id d (OwnerID (tok_row k))) with
                | Ok o => Ok o
                | Err _ => Err ErrAuthStoreUnavailable
                end in
  match owner with
  | None => Err ErrInvalidToken
  | Some a =>
      if negb (Enabled a) then Err ErrInvalidToken
      else if negb (APITokensAllowedFor allowed (AuthSource a))
      then Err ErrFederatedAPITokensDisabled else Ok tt
  end.

Definition validateToken (flt : faults) (allowed : bool) (now : Z) (d : store_db)
    (raw : string) : result token_row :=
  match try flt "validateToken" 0
          (find (fun k => String.eqb (TokenHash k) (sha256 raw)) (token_rows d)) with
  | Err _ => Err ErrAuthStoreUnavailable
  | Ok None => Err ErrInvalidToken
  | Ok (Some k) =>
      if expired now k then Err ErrInvalidToken else
      let! _ := checkTokenOwner flt allowed d k in
      Ok k
  end.
End Tokens.

(** ** The selected connection of a token *)

Definition SetConnectionSession (flt : faults) (d : store_db) (c : ConnectionSession)
    : store_db * result unit :=
  match try flt "SetConnectionSession" 0 tt with
  | Err e => (d, Err e)
  | Ok _ => (set_connection_sessions d
      (c :: List.filter (fun c' => negb (String.eqb (cs_token c') (cs_token c)))
              (connection_sessions d)), Ok tt)
  end.

Definition GetConnectionSession (flt : faults) (d : store_db) (tokenHash : string)
    : result (option ConnectionSession) :=
  try flt "GetConnectionSession" 0
    (find (fun c => String.eqb (cs_token c) tokenHash) (connection_sessions d)).

Definition ClearConnectionSession (flt : faults) (d : store_db) (tokenHash : string)
    : store_db * result unit :=
  match try flt "ClearConnectionSession" 0 tt with
  | Err e => (d, Err e)
  | Ok _ => (drop_connection_sessions d [tokenHash], Ok tt)
  end.

Definition ClearAllConnectionSessions (flt : faults) (d : store_db)
    : store_db * result unit :=
  match try flt "ClearAllConnectionSessions" 0 tt with
  | Err e => (d, Err e)
  | Ok _ => (set_connection_sessions d [], Ok tt)
  end.
