(* ===== verification/Sessions.v ===== *)
(** * Sessions and the authentication of requests
      (server/src/internal/auth: store.go, federation.go,
      federated_session.go, federated_tokens.go, authenticate.go,
      middleware.go)

    Each request is a goroutine.  What it does to the tables it does under
    the store's lock [mu], in one step: nobody else reads or writes them
    meanwhile.  Sessions are kept in memory, in a map that goroutines read
    and change one key at a time and without that lock, so every operation
    on the map is a step.  A session is a pointer: CompareAndSwap and
    CompareAndDelete compare pointers, and the heap is part of the state.

    [log] records what the theorems are about; no definition reads it. *)
From stdpp Require Import base list strings gmap.
From Stdlib Require Import Ascii.
From S2P Require Import Prelude GoStrings AuthStore TokenScope Accounts Threads.

Local Open Scope string_scope.
Local Open Scope Z_scope.
Local Open Scope prog_scope.

(** ** State *)

(** [federated]: the address of the part that refreshes of the session
    share. *)
Record SessionInfo := {
  session_user : string;
  session_expires : Z;
  federated : option nat;
}.

(** [locked]: the goroutine that holds the mutex. *)
Record federatedSession := {
  refreshToken : string;
  deadline : Z;
  locked : option nat;
}.

(** Goroutine [i] read the clock; saw the tables, at step [n]; served a
    request for [path], with the context it was authenticated with.  A
    session was minted at [t]; all those of a user were revoked; a refresh
    token was presented to the identity provider, and what its answer left
    as the token.  A password was tried; an account was made ready for
    tries again. *)
Inductive event :=
| Started (i : nat)
| Clocked (i : nat) (t : Z)
| Saw (i n : nat) (d : store_db)
| Served (i : nat) (path : string) (token : string) (ctx : option Context)
| Minted (hash username : string) (t : Z)
| Revoked (username : string)
| Presented (f : nat) (token : string)
| Settled (f : nat) (token : string)
| Guessed (username : string) (right_ : bool)
| Reopened (username : string).

Record server := {
  store : store_db;
  mu : option nat;
  sessions : gmap string nat;
  heap : gmap nat SessionInfo;
  feds : gmap nat federatedSession;
  ticks : nat;
  log : list event;
}.

(** ** Surroundings

    By the number of a step: the clock, the queries that fail, the setting
    on API tokens of federated accounts, whether federated login is
    configured and the identity provider's answer to a refresh (the next
    token and the expiry), and the order in which Range visits keys.  By
    goroutine: the random token it draws, if it can. *)
Class Surroundings := {
  now : nat -> Z;
  fails : nat -> faults;
  federatedAPITokens : nat -> bool;
  refresher : nat -> bool;
  RefreshFederatedSession : nat -> string -> string -> option (string * Z);
  range_order : nat -> list string -> list string;
  random : nat -> option string;
}.

(** What is relied on: a clock that does not go back, tokens that differ
    under the hash, and a Range that visits every key once. *)
Class Reliable `{Credentials} `{Surroundings} : Prop := {
  clock_monotone : forall n m, (n <= m)%nat -> now n <= now m;
  tokens_differ : forall i j a b, random i = Some a -> random j = Some b ->
    sha256 a = sha256 b -> i = j;
  range_visits : forall n l, Permutation (range_order n l) l;
}.

Definition Hour : Z := 3600 * 1000000000.
Definition DefaultSessionExpiry : Z := 24 * Hour.
Definition federatedRefreshWindow : Z := DefaultSessionExpiry.
Definition maxSessionsPerUser : nat := 10.

(** ** Changing the state *)

Definition with_store (s : server) (d : store_db) : server :=
  {| store := d; mu := mu s; sessions := sessions s; heap := heap s; feds := feds s;
     ticks := ticks s; log := log s |}.

Definition with_mu (s : server) (o : option nat) : server :=
  {| store := store s; mu := o; sessions := sessions s; heap := heap s; feds := feds s;
     ticks := ticks s; log := log s |}.

Definition with_sessions (s : server) (m : gmap string nat) : server :=
  {| store := store s; mu := mu s; sessions := m; heap := heap s; feds := feds s;
     ticks := ticks s; log := log s |}.

Definition with_heap (s : server) (m : gmap nat SessionInfo) : server :=
  {| store := store s; mu := mu s; sessions := sessions s; heap := m; feds := feds s;
     ticks := ticks s; log := log s |}.

Definition with_feds (s : server) (m : gmap nat federatedSession) : server :=
  {| store := store s; mu := mu s; sessions := sessions s; heap := heap s; feds := m;
     ticks := ticks s; log := log s |}.

Definition tell (s : server) (e : event) : server :=
  {| store := store s; mu := mu s; sessions := sessions s; heap := heap s; feds := feds s;
     ticks := ticks s; log := (log s ++ [e])%list |}.

Definition next_tick (s : server) : server :=
  {| store := store s; mu := mu s; sessions := sessions s; heap := heap s; feds := feds s;
     ticks := S (ticks s); log := log s |}.

(** A step of the program, with its number; one that takes the store's lock
    for reading; and the lock itself. *)
Definition step {A} (f : nat -> server -> A * server) : prog server A :=
  atomic (fun s => f (ticks s) (next_tick s)).

Definition reading {A} (f : nat -> server -> A * server) : prog server A :=
  Step (fun s => bool_decide (mu s = None))
    (fun s => snd (f (ticks s) (next_tick s)))
    (fun s => Done (fst (f (ticks s) (next_tick s)))).

Definition Lock (i : nat) : prog server unit :=
  await (fun s => bool_decide (mu s = None)) (fun s => with_mu s (Some i)).

Definition Unlock : prog server unit := atomic (fun s => (tt, with_mu s None)).

(** ** The session map *)

Definition Load (h : string) : prog server (option (nat * SessionInfo)) :=
  step (fun _ s => (p ← sessions s !! h; session ← heap s !! p; Some (p, session), s)).

(** A new object; addresses are not used again. *)
Definition Store (h : string) (session : SessionInfo) (e : event) : prog server unit :=
  step (fun _ s =>
    let p := fresh (dom (heap s)) in
    (tt, tell (with_sessions (with_heap s (<[p := session]> (heap s)))
                 (<[h := p]> (sessions s))) e)).

Definition Delete (h : string) : prog server unit :=
  step (fun _ s => (tt, with_sessions s (delete h (sessions s)))).

Definition CompareAndDelete (h : string) (p : nat) : prog server unit :=
  step (fun _ s => (tt, if bool_decide (sessions s !! h = Some p)
                        then with_sessions s (delete h (sessions s)) else s)).

Definition CompareAndSwap (h : string) (p : nat) (session : SessionInfo)
    : prog server bool :=
  step (fun _ s =>
    let p' := fresh (dom (heap s)) in
    if bool_decide (sessions s !! h = Some p)
    then (true, with_sessions (with_heap s (<[p' := session]> (heap s)))
                  (<[h := p']> (sessions s)))
    else (false, s)).

Section Sessions.
Context `{Credentials} `{Affinity} `{Surroundings} (cfg : settings).

(** The keys Range visits, whose values it then loads.  Who ranges holds the
    store's lock, without which no key is added. *)
Definition Range : prog server (list string) :=
  step (fun n s => (range_order n (elements (dom (sessions s))), s)).

Definition clock (i : nat) : prog server Z :=
  step (fun n s => (now n, tell s (Clocked i (now n)))).

(** ** Sessions of a user *)

Definition delete_if_of (username h : string) : prog server unit :=
  let& found := Load h in
  match found with
  | Some (_, session) =>
      if String.eqb (session_user session) username then Delete h else Done tt
  | None => Done tt
  end.

Definition InvalidateUserSessions (username : string) : prog server unit :=
  let& keys := Range in
  let& _ := each keys (delete_if_of username) in
  step (fun _ s => (tt, tell s (Revoked username))).

Definition InvalidateSession (token : string) : prog server unit := Delete (sha256 token).

(** The keys of a user's sessions, with their expiry. *)
Fixpoint sessions_of (username : string) (keys : list string)
    : prog server (list (string * Z)) :=
  match keys with
  | [] => Done []
  | h :: keys =>
      let& found := Load h in
      let& rest := sessions_of username keys in
      Done (match found with
            | Some (_, session) =>
                if String.eqb (session_user session) username
                then (h, session_expires session) :: rest else rest
            | None => rest
            end)
  end.

Fixpoint oldest_of (best : string * Z) (l : list (string * Z)) : string * Z :=
  match l with
  | [] => best
  | e :: l => oldest_of (if snd e <? snd best then e else best) l
  end.

Definition evict (mine : list (string * Z)) : prog server unit :=
  match mine with
  | [] => Done tt
  | e :: l => if (maxSessionsPerUser <=? length mine)%nat
              then Delete (fst (oldest_of e l)) else Done tt
  end.

(** Told when failed attempts of the account [id] are forgotten. *)
Definition tell_reset (s : server) (id : Z) : server :=
  match account_by_id (store s) id with
  | Some a => tell s (Reopened (acc_name a))
  | None => s
  end.

Definition createSessionForUserLocked (i : nat) (username : string) (id : Z)
    : prog server (result (string * Z)) :=
  match random i with
  | None => Done (Err ErrRandom)
  | Some token =>
      let& t := clock i in
      let expiration := t + DefaultSessionExpiry in
      let& keys := Range in
      let& mine := sessions_of username keys in
      let& _ := evict mine in
      let h := sha256 token in
      let& _ := Store h {| session_user := username; session_expires := expiration;
                           federated := None |} (Minted h username t) in
      let& _ := step (fun n s =>
        (tt, match try (fails n) "createSessionForUserLocked" 0 tt with
             | Ok _ => with_store (tell_reset s id)
                         (update_accounts (store s) (Accounts.with_id id) (logged_in (now n)))
             | Err _ => s
             end)) in
      Done (Ok (token, expiration))
  end.

Definition CreateSessionForUser (i : nat) (username : string)
    : prog server (result (string * Z)) :=
  let& _ := Lock i in
  let& user := step (fun n s =>
    (try (fails n) "CreateSessionForUser" 0 (find_account (store s) username), s)) in
  let& r := match user with
            | Err e => Done (Err e)
            | Ok None => Done (Err ErrUserNotFound)
            | Ok (Some a) =>
                if negb (Enabled a) || IsServiceAccount a then Done (Err ErrInvalidCredentials)
                else createSessionForUserLocked i (acc_name a) (acc_id a)
            end in
  let& _ := Unlock in
  Done r.

(** ** Passwords and lockout *)

(** Locks the account, whatever becomes of the audit event. *)
Definition commitLockout (flt : faults) (d : store_db) (id : Z) (username : string)
    : result (store_db * account) :=
  (let! _ := try flt "commitLockout" 0 tt in
   let! before := userSnapshotTx flt "commitLockout" 1 d username in
   let! _ := try flt "commitLockout" 2 tt in
   let! _ := try flt "commitLockout" 3 tt in
   Ok (update_accounts d (Accounts.with_id id) (set_enabled false), before))%res.

Definition disableForLockout (flt : faults) (d : store_db) (id : Z) (username : string)
    : store_db * bool :=
  match commitLockout flt d id username with
  | Err _ => (d, false)
  | Ok (d, before) =>
      (match record_events flt "disableForLockout" 0 d
               [user_event "user.disable" (acc_id before) true] with
       | Ok d' => d'
       | Err _ => d
       end, true)
  end.

(** The tables, and whether the account has been locked. *)
Definition wrong_password (flt : faults) (d : store_db) (a : account) : store_db * bool :=
  let attempts := FailedAttempts a + 1 in
  let d := match try flt "AuthenticateUser" 1 tt with
           | Ok _ => update_accounts d (Accounts.with_id (acc_id a)) (set_attempts attempts)
           | Err _ => d
           end in
  if (0 <? maxFailedAttempts cfg) && (maxFailedAttempts cfg <=? attempts)
  then disableForLockout flt d (acc_id a) (acc_name a) else (d, false).

(** What the tables say to a name and a password. *)
Inductive password_check :=
| Right (a : account)
| Wrong (locked_out : bool)
| Refused (e : auth_error).

Definition check_password (username password : string) (n : nat) (s : server)
    : password_check * server :=
  match try (fails n) "AuthenticateUser" 0 (find_account (store s) username) with
  | Err e => (Refused e, s)
  | Ok None => (Refused ErrInvalidCredentials, s)
  | Ok (Some a) =>
      if IsServiceAccount a || negb (String.eqb (AuthSource a) AuthSourceLocal)
      then (Refused ErrInvalidCredentials, s)
      else if negb (Enabled a) then (Refused ErrInvalidCredentials, s)
      else if CompareHashAndPassword (PasswordHash a) password
      then (Right a, tell s (Guessed username true))
      else
        let '(d, locked_out) := wrong_password (fails n) (store s) a in
        (Wrong locked_out, tell (with_store s d) (Guessed username false))
  end.

Definition AuthenticateUser (i : nat) (username password : string)
    : prog server (result (string * Z)) :=
  let& _ := Lock i in
  let& checked := step (check_password username password) in
  let& r := match checked with
            | Refused e => Done (Err e)
            | Wrong false => Done (Err ErrInvalidCredentials)
            | Wrong true =>
                let& _ := InvalidateUserSessions username in
                Done (Err ErrInvalidCredentials)
            | Right a => createSessionForUserLocked i (acc_name a) (acc_id a)
            end in
  let& _ := Unlock in
  Done r.

(** ** Federated sessions *)

Definition update_fed (s : server) (f : nat) (g : federatedSession -> federatedSession)
    : server := with_feds s (alter g f (feds s)).

Definition set_locked (o : option nat) (fs : federatedSession) : federatedSession :=
  {| refreshToken := refreshToken fs; deadline := deadline fs; locked := o |}.

Definition set_refreshToken (token : string) (fs : federatedSession) : federatedSession :=
  {| refreshToken := token; deadline := deadline fs; locked := locked fs |}.

Definition fed_free (f : nat) (s : server) : bool :=
  match feds s !! f with
  | Some fs => bool_decide (locked fs = None)
  | None => false
  end.

Definition LockFed (i f : nat) : prog server unit :=
  await (fed_free f) (fun s => update_fed s f (set_locked (Some i))).

Definition UnlockFed (f : nat) : prog server unit :=
  atomic (fun s => (tt, update_fed s f (set_locked None))).

(** [&federatedSession{...}] *)
Definition new_fed (token : string) (t : Z) : prog server nat :=
  step (fun _ s =>
    let f := fresh (dom (feds s)) in
    (f, with_feds s (<[f := {| refreshToken := token; deadline := t; locked := None |}]>
                       (feds s)))).

Definition CreateFederatedSession (i : nat) (username refreshToken : string) (expiresAt : Z)
    : prog server (result (string * Z)) :=
  let& t := clock i in
  if expiresAt <=? t then Done (Err ErrInvalidInput) else
  let deadline := t + DefaultSessionExpiry in
  let expiresAt := Z.min expiresAt deadline in
  let& r := CreateSessionForUser i username in
  match r with
  | Err e => Done (Err e)
  | Ok (token, _) =>
      let h := sha256 token in
      let& minted := Load h in
      match minted with
      | None => Done (Err ErrSessionEnded)
      | Some (p, _) =>
          let& f := new_fed refreshToken deadline in
          let& swapped := CompareAndSwap h p
            {| session_user := username; session_expires := expiresAt;
               federated := Some f |} in
          Done (if swapped : bool then Ok (token, expiresAt) else Err ErrSessionEnded)
      end
  end.

Definition loadFederatedSession (h : string) (f : nat)
    : prog server (option (nat * SessionInfo)) :=
  let& found := Load h in
  Done (match found with
        | Some (p, session) =>
            if bool_decide (federated session = Some f) then Some (p, session) else None
        | None => None
        end).

Definition pastDeadline (fs : federatedSession) (t : Z) : bool := deadline fs <=? t.

Definition unrefreshableReason (session : SessionInfo) (fs : federatedSession)
    (configured : bool) (t : Z) : bool :=
  pastDeadline fs t || String.eqb (refreshToken fs) "" ||
  (session_expires session + federatedRefreshWindow <? t) || negb configured.

Definition cappedRefreshExpiry (expiresAt t deadline : Z) : option Z :=
  if expiresAt <=? t then None else Some (Z.min expiresAt deadline).

Definition endFederatedSession (h : string) (p : nat) : prog server (result SessionInfo) :=
  let& _ := CompareAndDelete h p in
  Done (Err ErrSessionEnded).

Definition present (f : nat) (token : string) : prog server unit :=
  step (fun _ s => (tt, tell s (Presented f token))).

(** The provider's answer, and what it makes of the refresh token. *)
Definition answer (f : nat) (username token : string)
    : prog server (option Z) :=
  step (fun n s =>
    match RefreshFederatedSession n username token with
    | None => (None, tell (update_fed s f (set_refreshToken "")) (Settled f ""))
    | Some (rotated, expiresAt) =>
        let token := if String.eqb rotated "" then token else rotated in
        (Some expiresAt, tell (update_fed s f (set_refreshToken token)) (Settled f token))
    end).

(** The part of [refreshFederatedSession] that redeems the token. *)
Definition redeem (i : nat) (h : string) (f p : nat) (current : SessionInfo)
    (fs : federatedSession) : prog server (result SessionInfo) :=
  let& _ := present f (refreshToken fs) in
  let& refreshed := answer f (session_user current) (refreshToken fs) in
  match refreshed with
  | None => endFederatedSession h p
  | Some expiresAt =>
      let& t := clock i in
      match cappedRefreshExpiry expiresAt t (deadline fs) with
      | None => endFederatedSession h p
      | Some expiresAt =>
          let next := {| session_user := session_user current;
                         session_expires := expiresAt; federated := Some f |} in
          let& swapped := CompareAndSwap h p next in
          Done (if swapped : bool then Ok next else Err ErrSessionEnded)
      end
  end.

(** The part that runs with the session's mutex held. *)
Definition refresh_locked (i : nat) (h : string) (f : nat)
    : prog server (result SessionInfo) :=
  let& found := loadFederatedSession h f in
  match found with
  | None => Done (Err ErrSessionEnded)
  | Some (p, current) =>
      let& t := clock i in
      if t <? session_expires current then Done (Ok current) else
      let& configured := step (fun n s => (refresher n, s)) in
      let& t := clock i in
      let& found := step (fun _ s => (feds s !! f, s)) in
      match found with
      | None => Done (Err ErrSessionEnded) (* not reached: [f] is allocated *)
      | Some fs =>
          if unrefreshableReason current fs configured t then endFederatedSession h p
          else redeem i h f p current fs
      end
  end.

Definition refreshFederatedSession (i : nat) (h : string) (p : nat) (expired : SessionInfo)
    : prog server (result SessionInfo) :=
  match federated expired with
  | None => endFederatedSession h p
  | Some f =>
      let& _ := LockFed i f in
      let& r := refresh_locked i h f in
      let& _ := UnlockFed f in
      Done r
  end.

(** [keys]: those Range visits; it may or may not visit a key that is added
    or removed meanwhile. *)
Definition sweepExpiredSessions (i : nat) (keys : list string) : prog server unit :=
  let& t := clock i in
  each keys (fun h =>
    let& found := Load h in
    match found with
    | None => Done tt
    | Some (p, session) =>
        if t <=? session_expires session then Done tt else
        let& keep := step (fun _ s =>
          (match f ← federated session; feds s !! f with
           | None => false
           | Some fs =>
               bool_decide (locked fs <> None) ||
               negb (String.eqb (refreshToken fs) "") && negb (pastDeadline fs t) &&
               (t <? session_expires session + federatedRefreshWindow)
           end, s)) in
        if keep : bool then Done tt else CompareAndDelete h p
    end).

(** ** Authentication of a request *)

Definition GetUser (i : nat) (username : string) : prog server (result (option account)) :=
  reading (fun n s =>
    (try (fails n) "GetUser" 0 (find_account (store s) username), tell s (Saw i n (store s)))).

Definition GetUserByID (i : nat) (id : Z) : prog server (result (option account)) :=
  reading (fun n s =>
    (try (fails n) "GetUserByID" 0 (account_by_id (store s) id), tell s (Saw i n (store s)))).

(** The check that the account of a session may still use it. *)
Definition check_session_user (i : nat) (h : string) (session : SessionInfo)
    : prog server (result string) :=
  let& user := GetUser i (session_user session) in
  match user with
  | Err _ => let& _ := Delete h in Done (Err ErrAuthStoreUnavailable)
  | Ok None => let& _ := Delete h in Done (Err ErrSessionEnded)
  | Ok (Some a) =>
      if Enabled a then Done (Ok (session_user session))
      else let& _ := Delete h in Done (Err ErrSessionEnded)
  end.

Definition ValidateSessionToken (i : nat) (token : string) : prog server (result string) :=
  let h := sha256 token in
  let& found := Load h in
  match found with
  | None => Done (Err ErrSessionEnded)
  | Some (p, session) =>
      let& t := clock i in
      if t <=? session_expires session then check_session_user i h session else
      let& refreshed := refreshFederatedSession i h p session in
      match refreshed with
      | Err e => Done (Err e)
      | Ok session => check_session_user i h session
      end
  end.

(** The audit event of a refusal is written, if at all, after the lock has
    been given back. *)
Definition ValidateToken (i : nat) (raw : string) : prog server (result token_row) :=
  let& (r, refused) := reading (fun n s =>
    (validateToken (fails n) (federatedAPITokens n) (now n) (store s) raw,
     find (fun k => String.eqb (TokenHash k) (sha256 raw)) (token_rows (store s)),
     tell s (Saw i n (store s)))) in
  match r, refused with
  | Err ErrFederatedAPITokensDisabled, Some k =>
      let& _ := reading (fun n s =>
        (tt, match record_events (fails n) "recordFederatedTokenRefusal" 0 (store s)
                     [user_event "token.use" (token_id k) false] with
             | Ok d => with_store s d
             | Err _ => s
             end)) in
      Done r
  | _, _ => Done r
  end.

(** The headers of a request: Authorization, empty if it has none, and the
    session cookie. *)
Record credentials := { authorization : string; session_cookie : option string }.

Definition ExtractBearerToken (r : credentials) : string :=
  if negb (String.eqb (authorization r) "") then
    if String.prefix "Bearer " (authorization r)
    then String.substring 7 (String.length (authorization r) - 7) (authorization r)
    else ""
  else default "" (session_cookie r).

(** The part for a token that has been found in the tables. *)
Definition token_context (i : nat) (k : token_row) : prog server (result Context) :=
  let& user := GetUserByID i (OwnerID (tok_row k)) in
  Done (match user with
        | Err _ => Err ErrAuthStoreUnavailable
        | Ok None => Err ErrInvalidToken
        | Ok (Some a) =>
            if String.eqb (acc_name a) "" then Err ErrInvalidToken
            else Ok {| ctx_username := acc_name a; ctx_isAPIToken := true;
                       ctx_userID := OwnerID (tok_row k); ctx_tokenID := token_id k;
                       ctx_isSuperuser := acc_superuser a |}
        end).

(** The part for any other token. *)
Definition session_context (i : nat) (token : string) : prog server (result Context) :=
  let& session := ValidateSessionToken i token in
  match session with
  | Err ErrAuthStoreUnavailable => Done (Err ErrAuthStoreUnavailable)
  | Err _ => Done (Err ErrInvalidToken)
  | Ok username =>
      if String.eqb username "" then Done (Err ErrInvalidToken) else
      let& user := GetUser i username in
      Done (match user with
            | Err _ => Err ErrAuthStoreUnavailable
            | Ok None => Err ErrInvalidToken
            | Ok (Some a) =>
                Ok {| ctx_username := username; ctx_isAPIToken := false;
                      ctx_userID := acc_id a; ctx_tokenID := 0;
                      ctx_isSuperuser := acc_superuser a |}
            end)
  end.

Definition AuthenticateRequest (i : nat) (r : credentials) : prog server (result Context) :=
  let token := ExtractBearerToken r in
  if String.eqb token "" then Done (Err ErrMissingCredentials) else
  let& stored := ValidateToken i token in
  match stored with
  | Err ErrAuthStoreUnavailable => Done (Err ErrAuthStoreUnavailable)
  | Ok k => token_context i k
  | Err _ => session_context i token
  end.

Definition publicPaths : list string :=
  ["/health"; "/api/v1/user/info"; "/api/v1/auth/login"; "/api/v1/auth/logout";
   "/api/v1/auth/oidc/start"; "/api/v1/auth/oidc/callback"; "/api/v1/capabilities";
   "/api/v1/llm/providers"; "/api/v1/llm/models"].

Definition IsPublicPath (path : string) : bool := existsb (String.eqb path) publicPaths.

(** The handler behind the middleware is told of a request only here. *)
Definition ServeHTTP (i : nat) (path : string) (token : string) (ctx : option Context)
    : prog server unit :=
  step (fun _ s => (tt, tell s (Served i path token ctx))).

Definition AuthMiddleware (enabled : bool) (i : nat) (path : string) (r : credentials)
    : prog server unit :=
  let token := ExtractBearerToken r in
  if negb enabled then ServeHTTP i path token None else
  if IsPublicPath path then ServeHTTP i path token None else
  let& ctx := AuthenticateRequest i r in
  match ctx with
  | Err _ => Done tt
  | Ok ctx => ServeHTTP i path token (Some ctx)
  end.

(** ** What goroutines there are *)

Inductive account_op :=
| CreateUser (username password annotation displayName email : string)
| CreateServiceAccount (username annotation displayName email : string)
| UpdateUser (username newPassword newAnnotation newDisplayName newEmail : string)
| UpdateUserAtomic (username : string) (update : UserUpdate) (callerIsSuperuser : bool)
| UpdateUserField (username : string) (column : user_column) (value : string)
| SetUserEnabled (username : string) (enabled : bool)
| SetUserSuperuser (username : string) (isSuperuser : bool)
| ResetAttempts (username : string)
| DeleteUser (username : string) (callerIsSuperuser : bool)
| CreateToken (ownerUsername annotation : string) (requestedExpiry : option Z)
    (callerIsSuperuser : bool) (owner : TokenOwnerGuard)
| DeleteToken (identifier : string) (superuserOwnerAllowed : bool)
| CleanupTokens
| SetConnection (c : ConnectionSession)
| ClearConnection (tokenHash : string)
| ClearConnections.

Definition forget {A} (x : store_db * result A) : store_db * result unit :=
  (fst x, match snd x with Ok _ => Ok tt | Err e => Err e end).

Definition run_op (i n : nat) (op : account_op) (d : store_db) : store_db * result unit :=
  let flt := fails n in
  match op with
  | CreateUser u pw an dn em => createUser n flt d u pw an dn em
  | CreateServiceAccount u an dn em => createServiceAccount flt d u an dn em
  | UpdateUser u pw an dn em => updateUser n flt d u pw an dn em
  | UpdateUserAtomic u upd caller => updateUserAtomic n flt d u upd caller
  | UpdateUserField u c v => updateUserField flt d u c v
  | SetUserEnabled u b => setUserEnabled flt d u b
  | SetUserSuperuser u b => setUserSuperuser flt d u b
  | ResetAttempts u => ResetFailedAttempts flt d u
  | DeleteUser u caller => deleteUser flt d u caller
  | CreateToken u an e caller owner =>
      forget (createToken cfg flt (federatedAPITokens n) (now n) (random i) d u an e caller owner)
  | DeleteToken id allowed => deleteToken flt d id allowed
  | CleanupTokens => (CleanupExpiredTokens flt (now n) d, Ok tt)
  | SetConnection c => SetConnectionSession flt d c
  | ClearConnection h => ClearConnectionSession flt d h
  | ClearConnections => ClearAllConnectionSessions flt d
  end.

(** Whose sessions the operation ends, when it succeeds. *)
Definition revokes (op : account_op) : option string :=
  match op with
  | UpdateUser u pw _ _ _ => if String.eqb pw "" then None else Some u
  | UpdateUserAtomic u upd _ => if passwordChanged upd then Some u else None
  | SetUserEnabled u false => Some u
  | DeleteUser u _ => Some u
  | _ => None
  end.

(** Which account may be tried again after it. *)
Definition reopens (op : account_op) : option string :=
  match op with
  | CreateUser u _ _ _ _ | CreateServiceAccount u _ _ _ => Some u
  | UpdateUserAtomic u upd _ => if default false (upd_Enabled upd) then Some u else None
  | SetUserEnabled u true => Some u
  | ResetAttempts u => Some u
  | _ => None
  end.

Definition tell_reopened (s : server) (op : account_op) : server :=
  match reopens op with Some u => tell s (Reopened u) | None => s end.

(** An operation on accounts, as a whole: some do not take the lock before
    their arguments have been checked, which reads no state. *)
Definition change_accounts (i : nat) (op : account_op) : prog server unit :=
  let& _ := Lock i in
  let& r := step (fun n s =>
    let '(d, r) := run_op i n op (store s) in
    (r, if is_ok r then tell_reopened (with_store s d) op else with_store s d)) in
  let& _ := match r, revokes op with
            | Ok _, Some u => InvalidateUserSessions u
            | _, _ => Done tt
            end in
  Unlock.

(** [Elsewhere]: any other use of the store that holds its lock, such as
    those of the other files, with the user whose sessions it ends. *)
Inductive request :=
| Http (path : string) (r : credentials)
| Login (username password : string)
| FederatedLogin (username refreshToken : string) (expiresAt : Z)
| Logout (token : string)
| Sweep (keys : list string)
| Administer (op : account_op)
| Elsewhere (f : store_db -> store_db) (revoked : option string).

Definition serve (i : nat) (r : request) : prog server unit :=
  let& _ := step (fun _ s => (tt, tell s (Started i))) in
  match r with
  | Http path r => AuthMiddleware true i path r
  | Login u pw => let& _ := AuthenticateUser i u pw in Done tt
  | FederatedLogin u token t => let& _ := CreateFederatedSession i u token t in Done tt
  | Logout token => InvalidateSession token
  | Sweep keys => sweepExpiredSessions i keys
  | Administer op => change_accounts i op
  | Elsewhere f revoked =>
      let& _ := Lock i in
      let& _ := step (fun _ s => (tt, with_store s (f (store s)))) in
      let& _ := match revoked with Some u => InvalidateUserSessions u | None => Done tt end in
      Unlock
  end.

(** The server, from the tables [d] that it opens. *)
Definition opened (d : store_db) : server :=
  {| store := d; mu := None; sessions := ∅; heap := ∅; feds := ∅; ticks := 0; log := [] |}.

Definition run_server (requests : list request) (schedule : list nat) (d : store_db)
    : server :=
  snd (run_pool schedule (imap serve requests, opened d)).
End Sessions.
