(* ===== verification/SessionLogic.v ===== *)
(** * What the goroutines of the server keep

    The invariant [ok] of the server's state, what a goroutine may rely on of
    the others ([rely]), and the rules for the steps that programs are made
    of. *)
From stdpp Require Import base list strings gmap.
From S2P Require Import Prelude GoStrings AuthStore TokenScope Accounts Threads Sessions.

Local Open Scope Z_scope.
Local Open Scope list_scope.

Section SessionLogic.
Context `{Credentials} `{Surroundings}.

(** ** The log *)

(** The session [h] of [u] had been minted at [t] and not revoked, at some
    moment since goroutine [i] began. *)
Definition live_since (i : nat) (h u : string) (t : Z) (l : list event) : Prop :=
  exists a b c, l = a ++ (Minted h u t :: b) ++ c /\ (Revoked u ∉ b) /\ Started i ∉ c.

Definition live (h u : string) (t : Z) (l : list event) : Prop :=
  exists a b, l = a ++ Minted h u t :: b /\ Revoked u ∉ b.

(** The hash [h] was minted once, for [u] at [t]. *)
Definition only_minted (h u : string) (t : Z) (l : list event) : Prop :=
  forall u' t', Minted h u' t' ∈ l -> u' = u /\ t' = t.

(** Events of the refreshes of [f]; the last of them left [token]. *)
Definition about (f : nat) (e : event) : Prop :=
  match e with Presented g _ | Settled g _ => g = f | _ => False end.

#[global] Instance about_dec f e : Decision (about f e).
Proof. destruct e; simpl; apply _. Defined.

Definition settled (f : nat) (token : string) (l : list event) : Prop :=
  forall a e b, l = a ++ e :: b -> about f e -> Forall (fun e => ~ about f e) b ->
  e = Settled f token.

Definition serial (l : list event) : Prop :=
  forall a f token b, l = a ++ Presented f token :: b ->
  token <> ""%string /\ settled f token a.

(** ** Grounds for serving a request *)

Definition session_grounds (l : list event) (i : nat) (token : string) (c : Context)
    : Prop :=
  exists t t' n d user n' d' user',
    live_since i (sha256 token) (ctx_username c) t l /\
    Clocked i t' ∈ l /\ t' <= t + DefaultSessionExpiry /\
    Saw i n d ∈ l /\ find_account d (ctx_username c) = Some user /\ Enabled user = true /\
    Saw i n' d' ∈ l /\ find_account d' (ctx_username c) = Some user' /\
    c = {| ctx_username := ctx_username c; ctx_isAPIToken := false;
           ctx_userID := acc_id user'; ctx_tokenID := 0;
           ctx_isSuperuser := acc_superuser user' |}.

Definition token_grounds (l : list event) (i : nat) (token : string) (c : Context)
    : Prop :=
  exists n d k owner n' d' user,
    Saw i n d ∈ l /\ k ∈ token_rows d /\ TokenHash k = sha256 token /\
    expired (now n) k = false /\
    account_by_id d (OwnerID (tok_row k)) = Some owner /\ Enabled owner = true /\
    APITokensAllowedFor (federatedAPITokens n) (AuthSource owner) = true /\
    Saw i n' d' ∈ l /\ account_by_id d' (OwnerID (tok_row k)) = Some user /\
    c = {| ctx_username := acc_name user; ctx_isAPIToken := true;
           ctx_userID := OwnerID (tok_row k); ctx_tokenID := token_id k;
           ctx_isSuperuser := acc_superuser user |}.

Definition grounds (l : list event) (i : nat) (path token : string)
    (ctx : option Context) : Prop :=
  match ctx with
  | None => IsPublicPath path = true
  | Some c => ctx_username c <> ""%string /\ token <> ""%string /\
      if ctx_isAPIToken c then token_grounds l i token c else session_grounds l i token c
  end.

Definition served_on_grounds (l : list event) : Prop :=
  forall a i path token ctx b, l = a ++ Served i path token ctx :: b ->
  grounds a i path token ctx.

(** ** The invariant *)

Definition session_ok (s : server) (h : string) (session : SessionInfo) : Prop :=
  exists t, live h (session_user session) t (log s) /\
    session_expires session <= t + DefaultSessionExpiry /\
    forall f, federated session = Some f ->
      exists fs, feds s !! f = Some fs /\ deadline fs <= t + DefaultSessionExpiry.

Definition belongs (s : server) (username : string) (p : nat) : Prop :=
  session_user <$> heap s !! p = Some username.

#[global] Instance belongs_dec s u p : Decision (belongs s u p).
Proof. unfold belongs. apply _. Defined.

(** The keys of a user's sessions. *)
Definition user_keys (s : server) (username : string) : gset string :=
  dom (filter (fun e : string * nat => belongs s username e.2) (sessions s)).

Record ok (s : server) : Prop := {
  ok_session : forall h p, sessions s !! h = Some p ->
    exists session, heap s !! p = Some session /\ session_ok s h session;
  ok_served : served_on_grounds (log s);
  ok_serial : serial (log s);
  ok_feds : forall f fs, feds s !! f = Some fs -> locked fs = None ->
    settled f (refreshToken fs) (log s);
  ok_about : forall f e, e ∈ log s -> about f e -> is_Some (feds s !! f);
  ok_cap : forall u, (size (user_keys s u) <= maxSessionsPerUser)%nat;
}.

(** ** Rely *)

Definition foreign (i : nat) (e : event) : Prop :=
  match e with
  | Started j => j <> i
  | Minted h _ _ => forall t, random i = Some t -> h <> sha256 t
  | _ => True
  end.

(** What happens to what goroutine [i] knows of the log and the heap. *)
Record grows (i : nat) (s s' : server) : Prop := {
  grows_heap : heap s ⊆ heap s';
  grows_ticks : (ticks s <= ticks s')%nat;
  grows_log : exists es, log s' = log s ++ es /\ Forall (foreign i) es;
}.

(** No session comes to be [u]'s. *)
Definition no_new_keys (s s' : server) : Prop :=
  forall u, user_keys s' u ⊆ user_keys s u.

(** And of the locks it holds. *)
Record rely (i : nat) (s s' : server) : Prop := {
  rely_grows : grows i s s';
  rely_keys : mu s = Some i -> no_new_keys s s';
  rely_mu : mu s = Some i -> mu s' = Some i;
  rely_feds : forall f fs, feds s !! f = Some fs ->
    exists fs', feds s' !! f = Some fs' /\ deadline fs' = deadline fs /\
      (locked fs = Some i -> fs' = fs);
  rely_about : forall f fs es, feds s !! f = Some fs -> locked fs = Some i ->
    log s' = log s ++ es -> Forall (fun e => ~ about f e) es;
}.

Definition guarantee (i : nat) (s s' : server) : Prop := forall j, j <> i -> rely j s s'.

Lemma grows_transitive i s1 s2 s3 : grows i s1 s2 -> grows i s2 s3 -> grows i s1 s3.
Proof.
  intros [Hh1 Ht1 (es1 & Hl1 & Hf1)] [Hh2 Ht2 (es2 & Hl2 & Hf2)].
  split; [by etrans|lia|].
  exists (es1 ++ es2). rewrite Hl2, Hl1, app_assoc. split; [done|]. by apply Forall_app.
Qed.

Lemma rely_reflexive i s : rely i s s.
Proof.
  split; [split| |done| |].
  - done.
  - done.
  - exists []. rewrite app_nil_r. eauto.
  - by intros _ u.
  - eauto.
  - intros f fs es _ _ Heq. replace es with (@nil event); [done|].
    apply (app_inv_head (log s)). by rewrite app_nil_r.
Qed.

Lemma rely_transitive i s1 s2 s3 : rely i s1 s2 -> rely i s2 s3 -> rely i s1 s3.
Proof.
  intros [Hg1 Hk1 Hm1 Hd1 Ha1] [Hg2 Hk2 Hm2 Hd2 Ha2].
  split; [by eapply grows_transitive| | | |].
  - intros Hmu u. etrans; [apply Hk2; auto|by apply Hk1].
  - auto.
  - intros f fs Hf. destruct (Hd1 f fs Hf) as (fs' & Hf' & He & Hsame).
    destruct (Hd2 f fs' Hf') as (fs'' & Hf'' & He' & Hsame'). exists fs''.
    split; [done|]. split; [congruence|]. intros Hlk. rewrite (Hsame Hlk) in *. auto.
  - intros f fs es Hf Hlk Heq.
    destruct (grows_log _ _ _ Hg1) as (es1 & Hl1 & _), (grows_log _ _ _ Hg2) as (es2 & Hl2 & _).
    rewrite Hl2, Hl1, <- app_assoc in Heq. apply app_inv_head in Heq as <-.
    destruct (Hd1 f fs Hf) as (fs' & Hf' & _ & Hsame). rewrite (Hsame Hlk) in Hf'.
    apply Forall_app. eauto.
Qed.

Lemma server_rely_guarantee : rely_guarantee rely guarantee.
Proof.
  split; [apply rely_reflexive|intros *; apply rely_transitive|].
  intros i j s s' Hne HG. by apply HG.
Qed.

(** ** What survives *)

Lemma live_since_app i h u t l es :
  Forall (foreign i) es -> live_since i h u t l -> live_since i h u t (l ++ es).
Proof.
  intros Hf (a & b & c & -> & Hb & Hc). exists a, b, (c ++ es).
  split; [by rewrite <- !app_assoc|]. split; [done|].
  rewrite elem_of_app. intros [?|Hin]; [done|].
  rewrite Forall_forall in Hf. by apply (Hf _ Hin).
Qed.

Lemma live_since_live i h u t l : live h u t l -> live_since i h u t l.
Proof.
  intros (a & b & -> & Hb). exists a, b, []. rewrite app_nil_r.
  split; [done|]. split; [done|]. apply not_elem_of_nil.
Qed.

Lemma settled_app f token l es :
  Forall (fun e => ~ about f e) es -> settled f token l -> settled f token (l ++ es).
Proof.
  intros Hes Hl a e b Heq He Hb.
  apply app_eq_inv in Heq as [(k & -> & Hk)|(k & -> & ->)].
  - destruct k as [|x k]; simplify_eq/=.
    + by apply Forall_cons in Hes as [? _].
    + apply Forall_app in Hb as [Hb _]. by apply (Hl a x k).
  - apply Forall_app in Hes as [_ Hes]. by apply Forall_cons in Hes as [? _].
Qed.

Lemma settled_last f token l : settled f token (l ++ [Settled f token]).
Proof.
  intros a e b Heq He Hb. destruct b as [|x b _] using rev_ind.
  - apply app_inj_tail in Heq as [_ <-]. done.
  - exfalso. rewrite app_comm_cons, app_assoc in Heq. apply app_inj_tail in Heq as [_ <-].
    apply Forall_app in Hb as [_ Hb]. apply Forall_cons in Hb as [Hb _]. by apply Hb.
Qed.

Lemma snoc_inv {A} (l a b : list A) e x :
  l ++ [e] = a ++ x :: b ->
  (b = [] /\ a = l /\ x = e) \/ exists b', b = b' ++ [e] /\ l = a ++ x :: b'.
Proof.
  destruct b as [|y b _] using rev_ind; intros Heq.
  - apply app_inj_tail in Heq as [<- <-]. by left.
  - rewrite app_comm_cons, app_assoc in Heq. apply app_inj_tail in Heq as [-> ->]. right. eauto.
Qed.

Lemma serial_snoc l e :
  serial l -> (forall f token, e = Presented f token -> token <> ""%string /\ settled f token l) ->
  serial (l ++ [e]).
Proof.
  intros Hl He a f token b [(-> & -> & <-)|(b' & -> & ->)]%snoc_inv; [by apply He|].
  by apply (Hl a f token b').
Qed.

Lemma served_snoc l e :
  served_on_grounds l ->
  (forall i path token ctx, e = Served i path token ctx -> grounds l i path token ctx) ->
  served_on_grounds (l ++ [e]).
Proof.
  intros Hl He a i path token ctx b [(-> & -> & <-)|(b' & -> & ->)]%snoc_inv; [by apply He|].
  by apply (Hl a i path token ctx b').
Qed.

Lemma live_snoc h u t l e : e <> Revoked u -> live h u t l -> live h u t (l ++ [e]).
Proof.
  intros He (a & b & -> & Hb). exists a, (b ++ [e]). rewrite <- app_assoc. split; [done|].
  rewrite elem_of_app, list_elem_of_singleton. naive_solver.
Qed.

Lemma elem_of_user_keys s u h :
  h ∈ user_keys s u <-> exists p, sessions s !! h = Some p /\ belongs s u p.
Proof.
  unfold user_keys. rewrite elem_of_dom. split.
  - intros [p [Hp Hb]%map_lookup_filter_Some]. eauto.
  - intros (p & Hp & Hb). exists p. by apply map_lookup_filter_Some.
Qed.

(** ** Steps that keep the invariant *)

(** What a step leaves alone. *)
Lemma session_ok_step s s' h session es :
  session_ok s h session ->
  log s' = log s ++ es -> (es = [] \/ exists e, es = [e] /\ e <> Revoked (session_user session)) ->
  (forall f fs, feds s !! f = Some fs ->
     exists fs', feds s' !! f = Some fs' /\ deadline fs' = deadline fs) ->
  session_ok s' h session.
Proof.
  intros (t & Hl & He & Hf) Hlog Hes Hfeds. exists t. split_and!; [|done|].
  - rewrite Hlog. destruct Hes as [->|(e & -> & Hne)]; [by rewrite app_nil_r|by apply live_snoc].
  - intros f Hfd. destruct (Hf f Hfd) as (fs & Hfs & Hd).
    destruct (Hfeds f fs Hfs) as (fs' & Hfs' & Hd'). exists fs'. rewrite Hd'. done.
Qed.

(** The key sets only depend on the users of the sessions. *)
Lemma user_keys_sub s s' u :
  (forall h p', sessions s' !! h = Some p' -> belongs s' u p' ->
     exists p, sessions s !! h = Some p /\ belongs s u p) ->
  user_keys s' u ⊆ user_keys s u.
Proof.
  intros Hs h. rewrite !elem_of_user_keys. intros (p' & Hp' & Hb). eauto.
Qed.

(** An event of goroutine [i] that says nothing the invariant is about. *)
Definition quiet (i : nat) (e : event) : Prop :=
  match e with
  | Served _ _ _ _ | Minted _ _ _ | Revoked _ | Presented _ _ | Settled _ _ => False
  | Started j => j = i
  | _ => True
  end.

Lemma quiet_about i f e : quiet i e -> ~ about f e.
Proof. destruct e; simpl; tauto. Qed.

(** Sessions may go, the tables and the lock may change. *)
Record quiet_step (i : nat) (s s' : server) : Prop := {
  quiet_heap : heap s' = heap s;
  quiet_feds : feds s' = feds s;
  quiet_sessions : sessions s' ⊆ sessions s;
  quiet_ticks : (ticks s <= ticks s')%nat;
  quiet_log : log s' = log s \/ exists e, log s' = log s ++ [e] /\ quiet i e;
}.

Lemma quiet_no_new_keys i s s' : quiet_step i s s' -> no_new_keys s s'.
Proof.
  intros [Hh _ Hs _ _] u. apply user_keys_sub. intros h p Hp Hb. exists p.
  split; [by eapply lookup_weaken|]. unfold belongs in *. by rewrite <- Hh.
Qed.

Lemma ok_quiet i s s' : quiet_step i s s' -> ok s -> ok s'.
Proof.
  intros Hq Hok. pose proof (quiet_no_new_keys _ _ _ Hq) as Hk. destruct Hq as [Hh Hf Hs _ Hl].
  destruct Hok as [H1 H2 H3 H4 H5 H6].
  split.
  - intros h p Hp. destruct (H1 h p) as (session & Hp' & Hok); [by eapply lookup_weaken|].
    exists session. rewrite Hh. split; [done|].
    destruct Hl as [Hl|(e & Hl & Hq)].
    + eapply (session_ok_step _ _ _ _ [] Hok); [by rewrite app_nil_r|by left|].
      rewrite Hf. eauto.
    + eapply (session_ok_step _ _ _ _ [e] Hok); [done|right|rewrite Hf; eauto].
      exists e. split; [done|]. by intros ->.
  - destruct Hl as [->|(e & -> & Hq)]; [done|]. apply served_snoc; [done|]. by intros * ->.
  - destruct Hl as [->|(e & -> & Hq)]; [done|]. apply serial_snoc; [done|]. by intros * ->.
  - intros f fs. rewrite Hf. intros Hfs Hlk.
    destruct Hl as [->|(e & -> & Hq)]; [by apply H4|]. apply settled_app; [|by apply H4].
    by apply Forall_singleton, (quiet_about i).
  - intros f e. rewrite Hf. destruct Hl as [->|(e' & -> & Hq)]; [by apply H5|].
    rewrite elem_of_app, list_elem_of_singleton. intros [Hin| ->]; [by apply H5|].
    intros Ha. by apply (quiet_about i) in Ha.
  - intros u. etrans; [apply subseteq_size, Hk|apply H6].
Qed.

Lemma rely_quiet i j s s' :
  quiet_step i s s' ->
  (mu s = Some j -> mu s' = Some j) ->
  i <> j \/ log s' <> log s ++ [Started i] ->
  rely j s s'.
Proof.
  intros Hq Hmu Hst. pose proof (quiet_no_new_keys _ _ _ Hq) as Hk.
  destruct Hq as [Hh Hf Hs Ht Hl].
  split; [split| | | |]; [by rewrite Hh|done| |done|done|rewrite Hf; by eauto|].
  - destruct Hl as [->|(e & Hl & Hq)]; [exists []; rewrite app_nil_r; eauto|].
    exists [e]. split; [done|]. apply Forall_singleton.
    destruct e; simpl in *; try done. intros ->. destruct Hst as [?|Hst]; subst; [done|].
    by apply Hst.
  - intros f fs es _ _ Heq. destruct Hl as [Hl|(e & Hl & Hq)]; rewrite Hl in Heq.
    + replace es with (@nil event); [done|]. apply (app_inv_head (log s)). by rewrite app_nil_r.
    + apply app_inv_head in Heq as <-. by apply Forall_singleton, (quiet_about i).
Qed.

(** Steps that goroutine [i] itself can rely on, and those of the lock. *)
Record hushed (i : nat) (s s' : server) : Prop := {
  hushed_quiet : quiet_step i s s';
  hushed_mu : mu s' = mu s;
  hushed_log : log s' <> log s ++ [Started i];
}.

Lemma hushed_rely i j s s' : hushed i s s' -> rely j s s'.
Proof. intros [Hq Hm Hl]. eapply rely_quiet; [done|by rewrite Hm|by right]. Qed.

Lemma hushed_guarantee i s s' : hushed i s s' -> guarantee i s s'.
Proof. intros Hh j _. by eapply hushed_rely. Qed.

Lemma next_tick_quiet i s s' : hushed i (next_tick s) s' -> hushed i s s'.
Proof. intros [[Hh Hf Hs Ht Hl] Hm Hst]. split; [split| |]; simpl in *; try done. lia. Qed.

Abbreviation wps := (wp ok rely guarantee).

Lemma wp_hushed {A} i (f : nat -> server -> A * server) Q s :
  (forall n s', hushed i s' (snd (f n s'))) ->
  (forall s' a s'', rely i s s' -> ok s' -> f (ticks s') (next_tick s') = (a, s'') ->
     rely i s s'' -> ok s'' -> Q a s'') ->
  wps i (step f) Q s.
Proof.
  intros Hf HQ. apply wp_atomic. intros s' Hr Hok.
  destruct (f (ticks s') (next_tick s')) as [a s''] eqn:E.
  assert (hushed i s' s'') as Hh.
  { apply next_tick_quiet. specialize (Hf (ticks s') (next_tick s')). by rewrite E in Hf. }
  assert (ok s'') by (eapply ok_quiet; [apply Hh|done]).
  split_and!; [done|by apply hushed_guarantee|].
  eapply HQ; [exact Hr|done|done| |done]. eapply rely_transitive; [done|by eapply hushed_rely].
Qed.

Lemma wp_reading {A} i (f : nat -> server -> A * server) Q s :
  (forall n s', hushed i s' (snd (f n s'))) ->
  (forall s' a s'', rely i s s' -> ok s' -> f (ticks s') (next_tick s') = (a, s'') ->
     rely i s s'' -> ok s'' -> Q a s'') ->
  wps i (reading f) Q s.
Proof.
  intros Hf HQ s' Hr Hok _.
  pose proof (wp_hushed i f Q s Hf HQ s' Hr Hok eq_refl) as Hw. exact Hw.
Qed.

Lemma hushed_tell_store i s d e :
  quiet i e -> e <> Started i -> hushed i s (tell (with_store s d) e).
Proof.
  intros Hq Hne. split; [split| |]; simpl; eauto. intros Heq.
  apply app_inv_head in Heq. congruence.
Qed.

Lemma hushed_tell i s e : quiet i e -> e <> Started i -> hushed i s (tell s e).
Proof. intros Hq Hne. destruct s. by apply hushed_tell_store. Qed.

Lemma hushed_same i s s' :
  heap s' = heap s -> feds s' = feds s -> sessions s' ⊆ sessions s -> ticks s' = ticks s ->
  log s' = log s -> mu s' = mu s -> hushed i s s'.
Proof.
  intros Hh Hf Hs Ht Hl Hm. split; [split| |]; [done|done|done|lia|by left|done|].
  rewrite Hl. intros Heq%(f_equal length). rewrite length_app in Heq. simpl in Heq. lia.
Qed.

(** ** The session map *)

Definition at_key (s : server) (h : string) (found : option (nat * SessionInfo)) : Prop :=
  match found with
  | Some (p, session) => sessions s !! h = Some p /\ heap s !! p = Some session
  | None => sessions s !! h = None
  end.

Lemma wp_Load i h Q s :
  (forall s' found, rely i s s' -> ok s' -> at_key s' h found -> Q found s') ->
  wps i (Load h) Q s.
Proof.
  intros HQ. apply wp_hushed; [by intros; apply hushed_same|].
  intros s' a s'' _ _ [= <- <-] Hr Hok. apply HQ; [done..|]. simpl.
  destruct (sessions s' !! h) as [p|] eqn:Ep; simpl; [|done].
  destruct (ok_session _ Hok h p) as (session & Hp & _); [done|]. simpl in Hp. by rewrite Hp.
Qed.

Lemma wp_Delete i h Q s :
  (forall s', rely i s s' -> ok s' -> sessions s' !! h = None -> Q tt s') ->
  wps i (Delete h) Q s.
Proof.
  intros HQ. apply wp_hushed; [intros; apply hushed_same; try done; apply delete_subseteq|].
  intros s' a s'' _ _ [= <- <-] Hr Hok. apply HQ; [done..|]. apply lookup_delete_eq.
Qed.

Lemma wp_CompareAndDelete i h p Q s :
  (forall s', rely i s s' -> ok s' -> Q tt s') -> wps i (CompareAndDelete h p) Q s.
Proof.
  intros HQ. apply wp_hushed; [|by intros s' a s'' _ _ [= <- <-]; apply HQ].
  intros n s'. simpl. case_bool_decide; apply hushed_same; try done. apply delete_subseteq.
Qed.

Lemma wp_Range `{!Reliable} i Q s :
  (forall s' keys, rely i s s' -> ok s' -> Permutation keys (elements (dom (sessions s'))) ->
     Q keys s') ->
  wps i Range Q s.
Proof.
  intros HQ. apply wp_hushed; [by intros; apply hushed_same|].
  intros s' a s'' _ _ [= <- <-] Hr Hok. apply HQ; [done..|]. apply range_visits.
Qed.

Lemma wp_clock `{!Reliable} i Q s :
  (forall s' t, rely i s s' -> ok s' -> Clocked i t ∈ log s' ->
     (forall n, (n < ticks s)%nat -> now n <= t) ->
     (exists n, (n < ticks s')%nat /\ t = now n) -> Q t s') ->
  wps i (clock i) Q s.
Proof.
  intros HQ. apply wp_hushed; [by intros; apply hushed_tell|].
  intros s' a s'' Hr0 _ [= <- <-] Hr Hok. apply HQ; [done..| | |]; simpl.
  - apply elem_of_app. right. by apply list_elem_of_singleton.
  - intros n Hn. apply clock_monotone. pose proof (grows_ticks _ _ _ (rely_grows _ _ _ Hr0)). lia.
  - exists (ticks s'). split; [lia|done].
Qed.
End SessionLogic.

Abbreviation wps := (wp ok rely guarantee).
