(* ===== verification/SessionSteps.v ===== *)
(** * The steps of the locks, of minting, and of refreshes

    The remaining rules of the logic of [SessionLogic]: each says what a
    goroutine has to know to take the step, and what it knows after it. *)
From stdpp Require Import base list strings gmap.
From S2P Require Import Prelude GoStrings AuthStore TokenScope Accounts Threads Sessions SessionLogic.

Local Open Scope Z_scope.
Local Open Scope list_scope.

Section SessionSteps.
Context `{Credentials} `{Surroundings}.

(** ** General steps *)

(** What holds of the one event of a step. *)
Definition fitting (s s' : server) (e : event) : Prop :=
  match e with
  | Revoked u => user_keys s u = ∅
  | Served i path token ctx => grounds (log s) i path token ctx
  | Presented f token => token <> ""%string /\ settled f token (log s) /\ is_Some (feds s' !! f)
  | Settled f _ => is_Some (feds s' !! f)
  | _ => True
  end.

Definition feds_kept (s s' : server) : Prop :=
  forall f fs, feds s !! f = Some fs ->
  exists fs', feds s' !! f = Some fs' /\ deadline fs' = deadline fs.

Lemma no_new_keys_same s s' : sessions s' = sessions s -> heap s' = heap s -> no_new_keys s s'.
Proof.
  intros Hs Hh u. apply user_keys_sub. unfold belongs. rewrite Hs, Hh. eauto.
Qed.

(** A step that leaves the sessions. *)
Lemma ok_log s s' es :
  ok s -> sessions s' = sessions s -> heap s' = heap s ->
  log s' = log s ++ es -> (es = [] \/ exists e, es = [e] /\ fitting s s' e) ->
  feds_kept s s' ->
  (forall f fs, feds s' !! f = Some fs -> locked fs = None ->
     settled f (refreshToken fs) (log s')) ->
  ok s'.
Proof.
  intros [H1 H2 H3 H4 H5 H6] Hs Hh Hl Hes Hk Hset. split; [| | |done| |].
  - intros h p. rewrite Hs, Hh. intros Hp. destruct (H1 h p Hp) as (session & Hp' & Hok).
    exists session. split; [done|]. apply (session_ok_step s _ _ _ es); [done|done| |done].
    destruct Hes as [->|(e & -> & He)]; [by left|]. right. exists e. split; [done|].
    intros ->. simpl in He. assert (h ∈ user_keys s (session_user session)) as Hin.
    { apply elem_of_user_keys. exists p. split; [done|]. unfold belongs. by rewrite Hp'. }
    rewrite He in Hin. by apply elem_of_empty in Hin.
  - rewrite Hl. destruct Hes as [->|(e & -> & He)]; [by rewrite app_nil_r|].
    apply served_snoc; [done|]. by intros * ->.
  - rewrite Hl. destruct Hes as [->|(e & -> & He)]; [by rewrite app_nil_r|].
    apply serial_snoc; [done|]. intros * ->. simpl in He. tauto.
  - intros f e. rewrite Hl, elem_of_app. intros [Hin|Hin] Ha.
    + destruct (H5 f e Hin Ha) as [fs Hfs]. destruct (Hk f fs Hfs) as (fs' & ? & _). eauto.
    + destruct Hes as [->|(e' & -> & He)]; [by apply elem_of_nil in Hin|].
      apply list_elem_of_singleton in Hin as ->. destruct e'; simpl in *; naive_solver.
  - intros u. etrans; [by apply subseteq_size, no_new_keys_same|done].
Qed.

(** What others may rely on, of any step. *)
Lemma rely_step j s s' es :
  heap s ⊆ heap s' -> (ticks s <= ticks s')%nat ->
  log s' = log s ++ es -> Forall (foreign j) es ->
  (mu s = Some j -> no_new_keys s s' /\ mu s' = Some j) ->
  (forall f fs, feds s !! f = Some fs -> exists fs', feds s' !! f = Some fs' /\
     deadline fs' = deadline fs /\
     (locked fs = Some j -> fs' = fs /\ Forall (fun e => ~ about f e) es)) ->
  rely j s s'.
Proof.
  intros Hh Ht Hl Hf Hm Hd. split; [split; eauto|naive_solver|naive_solver| |].
  - intros f fs Hfs. destruct (Hd f fs Hfs) as (fs' & ? & ? & ?). naive_solver.
  - intros f fs es' Hfs Hlk Heq. rewrite Hl in Heq. apply app_inv_head in Heq as <-.
    destruct (Hd f fs Hfs) as (fs' & ? & ? & Hsame). by apply Hsame.
Qed.

(** ** The lock of the store *)

Lemma wp_Lock i Q s :
  (forall s', rely i s s' -> ok s' -> mu s' = Some i -> Q tt s') -> wps i (Lock i) Q s.
Proof.
  intros HQ. apply wp_await. intros s' Hr Hok Hmu%bool_decide_eq_true.
  assert (quiet_step i s' (with_mu s' (Some i))) as Hq by (split; eauto).
  assert (log (with_mu s' (Some i)) <> log s' ++ [Started i]) as Hl.
  { simpl. intros Heq%(f_equal length). rewrite length_app in Heq. simpl in Heq. lia. }
  assert (forall j, rely j s' (with_mu s' (Some i))).
  { intros j. eapply rely_quiet; [done|by rewrite Hmu|by right]. }
  assert (ok (with_mu s' (Some i))) by by eapply ok_quiet.
  split_and!; [done|by intros j _|]. apply HQ; [by eapply rely_transitive|done|done].
Qed.

Lemma wp_Unlock i Q s :
  mu s = Some i -> (forall s', grows i s s' -> ok s' -> Q tt s') -> wps i Unlock Q s.
Proof.
  intros Hmu HQ. apply wp_atomic. intros s' Hr Hok. pose proof (rely_mu _ _ _ Hr Hmu) as Hmu'.
  assert (quiet_step i s' (with_mu s' None)) as Hq by (split; eauto).
  assert (log (with_mu s' None) <> log s' ++ [Started i]) as Hl.
  { simpl. intros Heq%(f_equal length). rewrite length_app in Heq. simpl in Heq. lia. }
  assert (ok (with_mu s' None)) by by eapply ok_quiet.
  split_and!; [done| |].
  - intros j Hne. eapply rely_quiet; [done|congruence|by right].
  - apply HQ; [|done]. eapply grows_transitive; [by apply rely_grows|].
    split; [done|done|]. exists []. by rewrite app_nil_r.
Qed.

(** ** Events *)

(** A step that only tells an event that others need not know of. *)
Lemma wp_tell i e Q s :
  (forall s', rely i s s' -> ok s' -> fitting s' s' e) ->
  (forall j, foreign j e) -> (forall f, ~ about f e) ->
  (forall s', rely i s s' -> ok s' -> Q tt s') ->
  wps i (step (fun _ s => (tt, tell s e))) Q s.
Proof.
  intros He Hf Ha HQ. apply wp_atomic. intros s' Hr Hok.
  set (s'' := tell (next_tick s') e).
  assert (ok s'') as Hok''.
  { apply (ok_log s' s'' [e]); try done.
    - right. exists e. split; [done|]. specialize (He s' Hr Hok). by destruct e.
    - intros f fs Hfs. eauto.
    - intros f fs Hfs Hlk. apply settled_app; [by apply Forall_singleton|]. by apply Hok. }
  assert (forall j, rely j s' s'') as Hj.
  { intros j. apply (rely_step j _ _ [e]); simpl; [done|lia|done|by apply Forall_singleton| |].
    - intros Hmu. split; [by apply no_new_keys_same|done].
    - intros f fs Hfs. exists fs. split_and!; [done|done|]. intros _. split; [done|].
      by apply Forall_singleton. }
  split_and!; [done|by intros j _|]. apply HQ; [by eapply rely_transitive|done].
Qed.

Lemma wp_Revoked i u Q s :
  mu s = Some i -> user_keys s u = ∅ ->
  (forall s', rely i s s' -> ok s' -> Q tt s') ->
  wps i (step (fun _ s => (tt, tell s (Revoked u)))) Q s.
Proof.
  intros Hmu Hu HQ. apply wp_tell; [|done|by intros f []|done].
  intros s' Hr _. simpl. apply set_eq. intros h. split; [|set_solver].
  intros Hin. apply (rely_keys _ _ _ Hr Hmu) in Hin. by rewrite Hu in Hin.
Qed.

Lemma wp_ServeHTTP i path token ctx Q s :
  (forall s', rely i s s' -> ok s' -> grounds (log s') i path token ctx) ->
  (forall s', rely i s s' -> ok s' -> Q tt s') ->
  wps i (ServeHTTP i path token ctx) Q s.
Proof. intros Hg HQ. by apply wp_tell; [|done|intros f []|]. Qed.

Lemma wp_Started i Q s :
  (forall u t tok, random i = Some tok -> Minted (sha256 tok) u t ∉ log s) ->
  (forall s', ok s' -> (forall u t tok, random i = Some tok -> Minted (sha256 tok) u t ∉ log s') ->
     Q tt s') ->
  wps i (step (fun _ s => (tt, tell s (Started i)))) Q s.
Proof.
  intros Hm HQ. apply wp_atomic. intros s' Hr Hok.
  set (s'' := tell (next_tick s') (Started i)).
  assert (quiet_step i s' s'') as Hq.
  { split; simpl; eauto. right. by exists (Started i). }
  assert (ok s'') by by eapply ok_quiet.
  split_and!; [done| |].
  - intros j Hne. eapply rely_quiet; [done|done|by left].
  - apply HQ; [done|]. intros u t tok Ht. simpl.
    destruct (grows_log _ _ _ (rely_grows _ _ _ Hr)) as (es & -> & Hes).
    rewrite !elem_of_app, list_elem_of_singleton. intros [[Hin|Hin]|Heq]; [by eapply Hm| |done].
    rewrite Forall_forall in Hes. specialize (Hes _ Hin tok Ht). done.
Qed.

(** ** Minting and swapping *)

Lemma fresh_lookup {A} (m : gmap nat A) : m !! fresh (dom m) = None.
Proof. apply not_elem_of_dom, is_fresh. Qed.

(** The sessions after [h] is given a new session. *)
Definition stored (s : server) (h : string) (session : SessionInfo) : server :=
  let p := fresh (dom (heap s)) in
  with_sessions (with_heap s (<[p := session]> (heap s))) (<[h := p]> (sessions s)).

Lemma stored_heap s h session : heap s ⊆ heap (stored s h session).
Proof. apply insert_subseteq, fresh_lookup. Qed.

Lemma stored_belongs s h session h' p u :
  ok s -> sessions (stored s h session) !! h' = Some p -> belongs (stored s h session) u p ->
  (h' = h /\ session_user session = u) \/ (h' <> h /\ sessions s !! h' = Some p /\ belongs s u p).
Proof.
  intros Hok. unfold belongs. simpl. destruct (decide (h' = h)) as [->|Hne].
  - rewrite lookup_insert_eq. intros [= <-]. rewrite lookup_insert_eq. simpl.
    intros [= ->]. by left.
  - rewrite lookup_insert_ne by done. intros Hp.
    destruct (ok_session _ Hok h' p Hp) as (session' & Hp' & _).
    rewrite lookup_insert_ne; [by right|]. intros <-. by rewrite fresh_lookup in Hp'.
Qed.

Lemma ok_stored s s' h session es :
  ok s -> sessions s' = sessions (stored s h session) -> heap s' = heap (stored s h session) ->
  feds s' = feds s -> log s' = log s ++ es ->
  (es = [] \/ exists u t, es = [Minted h u t]) ->
  session_ok s' h session ->
  (forall u, (size (user_keys s' u) <= maxSessionsPerUser)%nat) ->
  ok s'.
Proof.
  intros Hok Hs Hh Hf Hl Hes Hnew Hcap. pose proof Hok as [H1 H2 H3 H4 H5 H6].
  split; [| | | | |done].
  - intros h' p. rewrite Hs, Hh. simpl. destruct (decide (h' = h)) as [->|Hne].
    { rewrite lookup_insert_eq. intros [= <-]. exists session. by rewrite lookup_insert_eq. }
    rewrite lookup_insert_ne by done. intros Hp. destruct (H1 h' p Hp) as (session' & Hp' & Hok').
    exists session'. split; [by eapply lookup_weaken, (stored_heap s h session)|].
    apply (session_ok_step s _ _ _ es); [done|done| |unfold feds_kept; rewrite Hf; eauto].
    destruct Hes as [->|(u & t & ->)]; [by left|right; eauto].
  - rewrite Hl. destruct Hes as [->|(u & t & ->)]; [by rewrite app_nil_r|by apply served_snoc].
  - rewrite Hl. destruct Hes as [->|(u & t & ->)]; [by rewrite app_nil_r|by apply serial_snoc].
  - intros f fs. rewrite Hf, Hl. intros Hfs Hlk. apply settled_app; [|by apply H4].
    destruct Hes as [->|(u & t & ->)]; [done|]. apply Forall_singleton. by intros [].
  - intros f e. rewrite Hl, Hf, elem_of_app. intros [Hin|Hin] Ha; [by eapply H5|].
    destruct Hes as [->|(u & t & ->)]; [by apply elem_of_nil in Hin|].
    by apply list_elem_of_singleton in Hin as ->.
Qed.

Lemma live_last h u t l : live h u t (l ++ [Minted h u t]).
Proof. exists l, []. split; [done|apply not_elem_of_nil]. Qed.

(** A session for [u] that is the goroutine's own. *)
Lemma wp_Store `{!Reliable} i token u t Q s :
  mu s = Some i -> random i = Some token ->
  (size (user_keys s u) < maxSessionsPerUser)%nat ->
  (forall u' t', Minted (sha256 token) u' t' ∉ log s) ->
  (forall s', ok s' -> mu s' = Some i -> only_minted (sha256 token) u t (log s') -> Q tt s') ->
  wps i (Store (sha256 token)
           {| session_user := u; session_expires := t + DefaultSessionExpiry;
              federated := None |} (Minted (sha256 token) u t)) Q s.
Proof.
  intros Hmu Hr Hsize Hnone HQ. apply wp_atomic. intros s' Hrely Hok. cbv zeta.
  set (h := sha256 token) in *.
  set (session := {| session_user := u; session_expires := _; federated := None |}).
  set (s'' := tell _ _).
  pose proof (rely_mu _ _ _ Hrely Hmu) as Hmu'.
  assert (forall u' t', Minted h u' t' ∉ log s') as Hnone'.
  { intros u' t'. destruct (grows_log _ _ _ (rely_grows _ _ _ Hrely)) as (es & -> & Hes).
    rewrite elem_of_app. intros [Hin|Hin]; [by eapply Hnone|].
    rewrite Forall_forall in Hes. by apply (Hes _ Hin token Hr). }
  assert (ok s'') as Hok''.
  { apply (ok_stored s' s'' h session [Minted h u t]); try done; [by eauto| |].
    - exists t. split_and!; [apply live_last|done|by intros f [=]].
    - intros v. assert (user_keys s'' v ⊆ {[h]} ∪ user_keys s' v) as Hsub.
      { intros h'. rewrite elem_of_user_keys, elem_of_union, elem_of_singleton.
        intros (p & Hp & Hb). destruct (stored_belongs s' h session h' p v Hok Hp Hb) as [[? _]|(_ & ? & ?)];
          [by left|right]. apply elem_of_user_keys. eauto. }
      destruct (decide (v = u)) as [->|Hne].
      + apply subseteq_size in Hsub. rewrite size_union_alt in Hsub.
        assert (size (user_keys s' u ∖ {[h]}) <= size (user_keys s u))%nat.
        { apply subseteq_size. transitivity (user_keys s' u); [set_solver|].
          by apply (rely_keys _ _ _ Hrely). }
        rewrite size_singleton in Hsub. lia.
      + etrans; [|apply (ok_cap _ Hok v)]. apply subseteq_size. intros h'.
        rewrite !elem_of_user_keys. intros (p & Hp & Hb).
        destruct (stored_belongs s' h session h' p v Hok Hp Hb) as [[_ ?]|(_ & ? & ?)]; [done|eauto]. }
  split_and!; [done| |].
  - intros j Hne. apply (rely_step j _ _ [Minted h u t]); simpl.
    + apply (stored_heap s' h session).
    + lia.
    + done.
    + apply Forall_singleton. intros t' Ht' Heq. apply Hne. symmetry. by eapply tokens_differ.
    + congruence.
    + intros f fs Hfs. exists fs. split_and!; [done|done|]. intros _. split; [done|].
      apply Forall_singleton. by intros [].
  - apply HQ; [done|done|]. intros u' t'. simpl. rewrite elem_of_app, list_elem_of_singleton.
    intros [Hin|[= -> ->]]; [by apply Hnone' in Hin|done].
Qed.

(** A swap keeps the user of the key. *)
Lemma wp_CompareAndSwap i h p session Q s :
  (forall s', rely i s s' -> ok s' -> sessions s' !! h = Some p ->
     belongs s' (session_user session) p /\ session_ok s' h session) ->
  (forall b s', rely i s s' -> ok s' -> (b = true -> session_ok s' h session) -> Q b s') ->
  wps i (CompareAndSwap h p session) Q s.
Proof.
  intros Hnew HQ. apply wp_atomic. intros s' Hr Hok. cbv zeta.
  case_bool_decide as Hp; simpl in Hp; cycle 1.
  { assert (hushed i s' (next_tick s')) as Hh by by apply next_tick_quiet, hushed_same.
    assert (ok (next_tick s')) by (eapply ok_quiet; [apply Hh|done]).
    split_and!; [done|by apply hushed_guarantee|].
    apply HQ; [|done|done]. eapply rely_transitive; [done|by eapply hushed_rely]. }
  destruct (Hnew s' Hr Hok Hp) as [Hb Hses]. set (s'' := with_sessions _ _).
  assert (session_ok s'' h session) as Hses''.
  { apply (session_ok_step s' _ _ _ []); [done|by rewrite app_nil_r|by left|intros f fs ?; eauto]. }
  assert (no_new_keys s' s'') as Hk.
  { intros u. apply user_keys_sub. intros h' p' Hp' Hb'.
    destruct (stored_belongs s' h session h' p' u Hok Hp' Hb') as [[-> <-]|(_ & ? & ?)]; eauto. }
  assert (ok s'') as Hok''.
  { apply (ok_stored s' s'' h session []); try done; [by rewrite app_nil_r|by left|].
    intros u. etrans; [apply subseteq_size, Hk|apply Hok]. }
  assert (forall j, rely j s' s'') as Hj.
  { intros j. apply (rely_step j _ _ []); simpl; [apply (stored_heap s' h session)|lia|by rewrite app_nil_r|done|by auto|].
    intros f fs Hfs. exists fs. split_and!; [done|done|]. by intros _. }
  split_and!; [done|by intros j _|]. apply HQ; [by eapply rely_transitive|done|done].
Qed.

(** ** The mutex of a federated session *)

(** Goroutine [i] holds it, and the last refresh left its token. *)
Definition holds (i f : nat) (d : Z) (s : server) : Prop :=
  exists fs, feds s !! f = Some fs /\ locked fs = Some i /\ deadline fs = d /\
    settled f (refreshToken fs) (log s).

Lemma holds_rely i f d s s' : rely i s s' -> holds i f d s -> holds i f d s'.
Proof.
  intros Hr (fs & Hf & Hlk & Hd & Hset). exists fs.
  destruct (rely_feds _ _ _ Hr f fs Hf) as (fs' & Hf' & _ & Hsame). rewrite (Hsame Hlk) in Hf'.
  split_and!; [done..|]. destruct (grows_log _ _ _ (rely_grows _ _ _ Hr)) as (es & Hl & _).
  rewrite Hl. apply settled_app; [|done]. by eapply rely_about.
Qed.

(** Of the steps of a goroutine that holds the mutex, or takes it. *)
Lemma rely_fed i j s s' f g es :
  i <> j ->
  sessions s' = sessions s -> heap s' = heap s -> mu s' = mu s -> (ticks s <= ticks s')%nat ->
  log s' = log s ++ es -> (forall e, e ∈ es -> about f e) ->
  feds s' = alter g f (feds s) -> (forall fs, deadline (g fs) = deadline fs) ->
  (forall fs, feds s !! f = Some fs -> locked fs = None \/ locked fs = Some i) ->
  rely j s s'.
Proof.
  intros Hne Hs Hh Hm Ht Hl Hes Hf Hg Hlk. apply (rely_step j _ _ es); [by rewrite Hh|lia|done| | |].
  - apply Forall_forall. intros e He%Hes. by destruct e.
  - intros Hmu. rewrite Hm. split; [by apply no_new_keys_same|done].
  - intros f' fs Hfs. rewrite Hf. destruct (decide (f' = f)) as [->|Hf'].
    + rewrite lookup_alter_eq, Hfs. exists (g fs). split_and!; [done|done|]. intros Hj.
      destruct (Hlk fs Hfs); congruence.
    + rewrite lookup_alter_ne by done. exists fs. split_and!; [done|done|]. intros _.
      split; [done|]. apply Forall_forall. intros e He%Hes. destruct e; simpl in *; congruence.
Qed.

(** The invariant, after a step on [f]. *)
Lemma ok_fed s s' f g es :
  ok s ->
  sessions s' = sessions s -> heap s' = heap s -> log s' = log s ++ es ->
  (es = [] \/ exists e, es = [e] /\ about f e /\ fitting s s' e) ->
  feds s' = alter g f (feds s) -> (forall fs, deadline (g fs) = deadline fs) ->
  (forall fs, feds s !! f = Some fs -> locked (g fs) = None ->
     settled f (refreshToken (g fs)) (log s')) ->
  ok s'.
Proof.
  intros Hok Hs Hh Hl Hes Hf Hg Hset. apply (ok_log s s' es); [done..| | |].
  - destruct Hes as [->|(e & -> & _ & He)]; [by left|right; eauto].
  - intros f' fs Hfs. rewrite Hf. destruct (decide (f' = f)) as [->|Hne].
    + rewrite lookup_alter_eq, Hfs. simpl. eauto.
    + rewrite lookup_alter_ne by done. eauto.
  - intros f' fs. rewrite Hf. destruct (decide (f' = f)) as [->|Hne].
    + rewrite lookup_alter_eq. intros (fs0 & Hfs0 & ->)%fmap_Some Hlk. auto.
    + rewrite lookup_alter_ne by done. intros Hfs Hlk. rewrite Hl.
      apply settled_app; [|by apply (ok_feds _ Hok)].
      destruct Hes as [->|(e & -> & He & _)]; [done|]. apply Forall_singleton.
      destruct e; simpl in *; congruence.
Qed.

Lemma grows_fed i s s' f es :
  heap s' = heap s -> (ticks s <= ticks s')%nat ->
  log s' = log s ++ es -> (forall e, e ∈ es -> about f e) ->
  grows i s s'.
Proof.
  intros Hh Ht Hl Hes. split; [by rewrite Hh|done|]. exists es. split; [done|].
  apply Forall_forall. intros e He%Hes. by destruct e.
Qed.

Lemma wp_LockFed i f Q s :
  (forall s' d, rely i s s' -> ok s' -> holds i f d s' -> Q tt s') -> wps i (LockFed i f) Q s.
Proof.
  intros HQ. apply wp_await. intros s' Hr Hok Hfree. unfold fed_free in Hfree.
  destruct (feds s' !! f) as [fs|] eqn:Hfs; [|done]. apply bool_decide_eq_true in Hfree as Hlk.
  set (s'' := update_fed s' f (set_locked (Some i))).
  assert (ok s'') as Hok''.
  { by apply (ok_fed s' s'' f (set_locked (Some i)) []); [..|rewrite app_nil_r|left| | |]. }
  assert (forall j, rely j s' s'') as Hj.
  { intros j. apply (rely_step j _ _ []); simpl; [done|lia|by rewrite app_nil_r|done| |].
    - intros Hmu. split; [by apply no_new_keys_same|done].
    - intros f' fs' Hfs'. destruct (decide (f' = f)) as [->|Hne].
      + rewrite lookup_alter_eq, Hfs'. simpl. eexists. split_and!; [done|done|].
        rewrite Hfs in Hfs'. injection Hfs' as <-. congruence.
      + rewrite lookup_alter_ne by done. exists fs'. split_and!; [done|done|]. by intros _. }
  split_and!; [done|by intros j _|]. apply (HQ _ (deadline fs)); [by eapply rely_transitive|done|].
  exists (set_locked (Some i) fs). simpl. rewrite lookup_alter_eq, Hfs.
  split_and!; [done..|]. by apply (ok_feds _ Hok).
Qed.

Lemma wp_UnlockFed i f d Q s :
  holds i f d s -> (forall s', grows i s s' -> ok s' -> Q tt s') -> wps i (UnlockFed f) Q s.
Proof.
  intros Hh HQ. apply wp_atomic. intros s' Hr Hok.
  destruct (holds_rely _ _ _ _ _ Hr Hh) as (fs & Hfs & Hlk & _ & Hset).
  set (s'' := update_fed s' f (set_locked None)).
  assert (ok s'') as Hok''.
  { apply (ok_fed s' s'' f (set_locked None) []); try done; [by rewrite app_nil_r|by left|].
    intros fs'. rewrite Hfs. intros [= <-] _. done. }
  split_and!; [done| |].
  - intros j Hne. apply (rely_fed i j s' s'' f (set_locked None) []); try done.
    + by rewrite app_nil_r.
    + by intros e ?%elem_of_nil.
    + intros fs'. rewrite Hfs. intros [= <-]. by right.
  - apply HQ; [|done]. eapply grows_transitive; [by apply rely_grows|].
    apply (grows_fed _ _ _ f []); [done|done|by rewrite app_nil_r|by intros e ?%elem_of_nil].
Qed.

Lemma wp_new_fed i token d Q s :
  (forall s' f fs, rely i s s' -> ok s' -> feds s' !! f = Some fs -> deadline fs = d -> Q f s') ->
  wps i (new_fed token d) Q s.
Proof.
  intros HQ. apply wp_atomic. intros s' Hr Hok. cbv zeta.
  set (f := fresh (dom (feds (next_tick s')))).
  set (fs := {| refreshToken := token; deadline := d; locked := None |}).
  set (s'' := with_feds (next_tick s') (<[f := fs]> (feds (next_tick s')))).
  assert (feds s' !! f = None) as Hnew by apply (fresh_lookup (feds s')).
  assert (forall f' fs', feds s' !! f' = Some fs' -> feds s'' !! f' = Some fs') as Hold.
  { intros f' fs' Hf'. simpl. rewrite lookup_insert_ne; [done|]. intros <-. congruence. }
  assert (ok s'') as Hok''.
  { apply (ok_log s' s'' []); try done; [by rewrite app_nil_r|by left|intros f' fs' Hf'; eauto|].
    intros f' fs'. simpl. destruct (decide (f' = f)) as [->|Hne].
    - rewrite lookup_insert_eq. intros [= <-] _ a e b Heq He _.
      destruct (ok_about _ Hok f e) as [fs0 Hfs0]; [|done|congruence].
      rewrite Heq. apply elem_of_app. right. by left.
    - rewrite lookup_insert_ne by done. apply (ok_feds _ Hok). }
  assert (forall j, rely j s' s'') as Hj.
  { intros j. apply (rely_step j _ _ []); simpl; [done|lia|by rewrite app_nil_r|done| |].
    - intros Hmu. split; [by apply no_new_keys_same|done].
    - intros f' fs' Hf'. exists fs'. split_and!; [by apply Hold|done|by intros _]. }
  split_and!; [done|by intros j _|].
  apply (HQ _ _ fs); [by eapply rely_transitive|done|apply lookup_insert_eq|done].
Qed.

(** ** Redeeming a refresh token *)

Lemma held_rely i f fs s s' :
  rely i s s' -> feds s !! f = Some fs -> locked fs = Some i -> feds s' !! f = Some fs.
Proof.
  intros Hr Hf Hlk. destruct (rely_feds _ _ _ Hr f fs Hf) as (fs' & Hf' & _ & Hsame).
  by rewrite <- (Hsame Hlk).
Qed.

Lemma wp_present i f fs Q s :
  feds s !! f = Some fs -> locked fs = Some i -> settled f (refreshToken fs) (log s) ->
  refreshToken fs <> ""%string ->
  (forall s', grows i s s' -> ok s' -> feds s' !! f = Some fs -> Q tt s') ->
  wps i (present f (refreshToken fs)) Q s.
Proof.
  intros Hf Hlk Hset Hne HQ. apply wp_atomic. intros s' Hr Hok. cbv zeta.
  assert (feds s' !! f = Some fs) as Hf' by by eapply held_rely.
  assert (holds i f (deadline fs) s') as (fs' & Heq & _ & _ & Hset').
  { eapply holds_rely; [done|]. exists fs. done. }
  rewrite Hf' in Heq. injection Heq as <-. set (s'' := tell _ _).
  assert (forall m : gmap nat federatedSession, m = alter id f m) as Hid.
  { intros m. apply map_eq. intros g. destruct (decide (g = f)) as [->|].
    - rewrite lookup_alter_eq. by destruct (m !! f).
    - by rewrite lookup_alter_ne. }
  assert (ok s'') as Hok''.
  { apply (ok_fed s' s'' f id [Presented f (refreshToken fs)]); try done; [|].
    - right. eexists. split; [done|]. split; [done|]. split_and!; [done|done|by exists fs].
    - intros fs'. rewrite Hf'. intros [= <-]. simpl. congruence. }
  split_and!; [done| |].
  - intros j Hj. apply (rely_fed i j s' s'' f id [Presented f (refreshToken fs)]); [done|done|done|done|simpl; lia|done| |exact (Hid (feds s'))|done|].
    + by intros e ->%list_elem_of_singleton.
    + intros fs'. rewrite Hf'. intros [= <-]. by right.
  - apply HQ; [|done|done]. eapply grows_transitive; [by apply rely_grows|].
    apply (grows_fed _ _ _ f [Presented f (refreshToken fs)]); [done|simpl; lia|done|].
    by intros e ->%list_elem_of_singleton.
Qed.

(** What the answer makes of the state. *)
Lemma answered i f fs token s s' :
  ok s -> feds s !! f = Some fs -> locked fs = Some i ->
  s' = tell (update_fed (next_tick s) f (set_refreshToken token)) (Settled f token) ->
  ok s' /\ guarantee i s s' /\ grows i s s' /\ holds i f (deadline fs) s'.
Proof.
  intros Hok Hf Hlk ->. set (s' := tell _ _).
  assert (feds s' !! f = Some (set_refreshToken token fs)) as Hf'.
  { simpl. by rewrite lookup_alter_eq, Hf. }
  split_and!.
  - apply (ok_fed s s' f (set_refreshToken token) [Settled f token]); try done.
    + right. eexists. split; [done|]. split; [done|]. eexists. apply Hf'.
    + intros fs'. rewrite Hf. intros [= <-]. simpl. congruence.
  - intros j Hj. apply (rely_fed i j s s' f (set_refreshToken token) [Settled f token]); [done|done|done|done|simpl; lia|done| |done|done|].
    + by intros e ->%list_elem_of_singleton.
    + intros fs'. rewrite Hf. intros [= <-]. by right.
  - apply (grows_fed _ _ _ f [Settled f token]); [done|simpl; lia|done|].
    by intros e ->%list_elem_of_singleton.
  - exists (set_refreshToken token fs). split_and!; [done..|]. apply settled_last.
Qed.

Lemma wp_answer i f fs username token Q s :
  feds s !! f = Some fs -> locked fs = Some i ->
  (forall s' a, grows i s s' -> ok s' -> holds i f (deadline fs) s' -> Q a s') ->
  wps i (answer f username token) Q s.
Proof.
  intros Hf Hlk HQ. apply wp_atomic. intros s' Hr Hok. cbv zeta.
  assert (feds s' !! f = Some fs) as Hf' by by eapply held_rely.
  destruct (RefreshFederatedSession _ _ _) as [[rotated expiresAt]|].
  - destruct (answered i f fs (if String.eqb rotated "" then token else rotated) s' _ Hok Hf' Hlk
      eq_refl) as (Hok'' & HG & Hg & Hh).
    split_and!; [done|done|]. apply HQ; [|done|done].
    eapply grows_transitive; [by apply rely_grows|done].
  - destruct (answered i f fs "" s' _ Hok Hf' Hlk eq_refl) as (Hok'' & HG & Hg & Hh).
    split_and!; [done|done|]. apply HQ; [|done|done].
    eapply grows_transitive; [by apply rely_grows|done].
Qed.
End SessionSteps.
