(* ===== verification/SessionMint.v ===== *)
(** * Minting and revoking sessions

    The programs that hold the store's lock: what they need, and what holds
    when they are done. *)
From stdpp Require Import base list strings gmap.
From S2P Require Import Prelude GoStrings AuthStore TokenScope Accounts Threads Sessions SessionLogic SessionSteps.

Local Open Scope Z_scope.
Local Open Scope list_scope.

(** The next step of a program. *)
Ltac wp_next := apply wp_pbind.

Section SessionMint.
Context `{Reliable}.

Lemma rely_keys_sub i s s' u :
  rely i s s' -> mu s = Some i -> user_keys s' u ⊆ user_keys s u.
Proof. intros Hr Hmu. by apply (rely_keys _ _ _ Hr). Qed.

Lemma deleted_key s u h : sessions s !! h = None -> h ∉ user_keys s u.
Proof. rewrite elem_of_user_keys. naive_solver. Qed.

Lemma other_key s u h p session :
  at_key s h (Some (p, session)) -> session_user session <> u -> h ∉ user_keys s u.
Proof.
  intros [Hp Hh] Hne. rewrite elem_of_user_keys. intros (p' & Hp' & Hb).
  rewrite Hp in Hp'. injection Hp' as <-. unfold belongs in Hb. rewrite Hh in Hb. naive_solver.
Qed.

Lemma own_key s u h p session :
  at_key s h (Some (p, session)) -> session_user session = u -> h ∈ user_keys s u.
Proof.
  intros [Hp Hh] <-. apply elem_of_user_keys. exists p. split; [done|]. unfold belongs.
  by rewrite Hh.
Qed.

(** ** Revoking the sessions of a user *)

Lemma wp_delete_each i u keys Q s :
  mu s = Some i -> ok s -> user_keys s u ⊆ list_to_set keys ->
  (forall s', rely i s s' -> ok s' -> user_keys s' u = ∅ -> Q tt s') ->
  wps i (each keys (delete_if_of u)) Q s.
Proof.
  revert s. induction keys as [|h keys IH]; intros s Hmu Hok Hk HQ; cbn [each].
  { apply HQ; [apply rely_reflexive|done|set_solver]. }
  assert (forall s', rely i s s' -> ok s' -> h ∉ user_keys s' u ->
    wps i (each keys (delete_if_of u)) Q s') as Hrest.
  { intros s' Hr Hok' Hh. pose proof (rely_keys_sub _ _ _ u Hr Hmu) as Hsub.
    apply IH; [by eapply rely_mu|done|set_solver|]. intros s'' Hr' Hok'' He.
    apply HQ; [by eapply rely_transitive|done|done]. }
  wp_next. unfold delete_if_of at 1. wp_next. apply wp_Load. intros s1 [[p session]|] Hr1 Hok1 Hat.
  - destruct (String.eqb_spec (session_user session) u) as [Heq|Hne].
    + apply wp_Delete. intros s2 Hr2 Hok2 Hnone. apply Hrest; [by eapply rely_transitive|done|].
      by apply deleted_key.
    + cbn [wp]. apply Hrest; [done|done|]. by eapply other_key.
  - cbn [wp]. apply Hrest; [done|done|]. by apply deleted_key.
Qed.

Lemma wp_InvalidateUserSessions i u Q s :
  mu s = Some i -> (forall s', rely i s s' -> ok s' -> Q tt s') ->
  wps i (InvalidateUserSessions u) Q s.
Proof.
  intros Hmu HQ. unfold InvalidateUserSessions. wp_next. apply wp_Range.
  intros s1 keys Hr1 Hok1 Hkeys. pose proof (rely_mu _ _ _ Hr1 Hmu) as Hmu1. wp_next.
  apply wp_delete_each; [done|done| |].
  { intros h. rewrite elem_of_user_keys, elem_of_list_to_set, Hkeys, elem_of_elements, elem_of_dom.
    naive_solver. }
  intros s2 Hr2 Hok2 He. apply wp_Revoked; [by eapply rely_mu|done|].
  intros s3 Hr3 Hok3. apply HQ; [|done]. eauto using rely_transitive.
Qed.

(** ** Making room for a session *)

Lemma wp_sessions_of i u keys Q s :
  mu s = Some i -> ok s ->
  (forall s' l, rely i s s' -> ok s' -> sublist l.*1 keys ->
     (forall h, h ∈ l.*1 -> h ∈ user_keys s u) ->
     (forall h, h ∈ keys -> h ∈ user_keys s' u -> h ∈ l.*1) -> Q l s') ->
  wps i (sessions_of u keys) Q s.
Proof.
  revert Q s. induction keys as [|h keys IH]; intros Q s Hmu Hok HQ; cbn [sessions_of].
  { apply HQ; [apply rely_reflexive|done|constructor|by intros h ?%elem_of_nil..]. }
  wp_next. apply wp_Load. intros s1 found Hr1 Hok1 Hat.
  pose proof (rely_mu _ _ _ Hr1 Hmu) as Hmu1. pose proof (rely_keys_sub _ _ _ u Hr1 Hmu) as Hsub1.
  wp_next. apply IH; [done|done|]. intros s2 l Hr2 Hok2 Hl1 Hl2 Hl3.
  pose proof (rely_keys_sub _ _ _ u Hr2 Hmu1) as Hsub2. cbn [wp].
  assert (h ∉ user_keys s1 u -> Q l s2) as Hskip.
  { intros Hh. apply HQ; [by eapply rely_transitive|done|by constructor|set_solver|].
    intros h'. rewrite elem_of_cons. intros [->|Hin] Hu; [set_solver|by apply Hl3]. }
  destruct found as [[p session]|]; [|by apply Hskip, deleted_key].
  destruct (String.eqb_spec (session_user session) u) as [Heq|Hne];
    [|by eapply Hskip, other_key].
  pose proof (own_key _ _ _ _ _ Hat Heq) as Hown.
  apply HQ; [by eapply rely_transitive|done|by constructor| |]; intros h'; simpl;
    rewrite !elem_of_cons.
  - intros [->|Hin]; [set_solver|]. set_solver.
  - intros [->|Hin] Hu; [by left|right; by apply Hl3].
Qed.

Lemma oldest_of_in e l : oldest_of e l ∈ e :: l.
Proof.
  revert e. induction l as [|e' l IH]; intros e; simpl; [by left|].
  specialize (IH (if snd e' <? snd e then e' else e)). destruct (snd e' <? snd e); set_solver.
Qed.

Lemma size_keys (X : gset string) (l : list string) :
  X ⊆ list_to_set l -> (size X <= length l)%nat.
Proof.
  intros Hs%subseteq_size. etrans; [exact Hs|]. clear. induction l as [|x l IH]; [done|].
  cbn [list_to_set length]. rewrite size_union_alt, size_singleton.
  assert (size ((list_to_set l : gset string) ∖ {[x]}) <= size (list_to_set l : gset string))%nat.
  { apply subseteq_size. set_solver. }
  lia.
Qed.

Lemma wp_evict i u mine Q s :
  mu s = Some i -> ok s -> user_keys s u ⊆ list_to_set mine.*1 ->
  (length mine <= maxSessionsPerUser)%nat ->
  (forall s', rely i s s' -> ok s' -> (size (user_keys s' u) < maxSessionsPerUser)%nat -> Q tt s') ->
  wps i (evict mine) Q s.
Proof.
  intros Hmu Hok Hk Hlen HQ. pose proof (size_keys _ _ Hk) as Hsize. rewrite length_fmap in Hsize.
  unfold evict. destruct mine as [|e l].
  { apply HQ; [apply rely_reflexive|done|]. simpl in Hsize. unfold maxSessionsPerUser. lia. }
  destruct (Nat.leb_spec maxSessionsPerUser (length (e :: l))) as [Hfull|Hroom]; cycle 1.
  { apply HQ; [apply rely_reflexive|done|lia]. }
  apply wp_Delete. intros s' Hr Hok' Hnone. apply HQ; [done|done|].
  pose proof (oldest_of_in e l) as Hin. apply list_elem_of_split in Hin as (l1 & l2 & Heq).
  assert (user_keys s' u ⊆ list_to_set (l1.*1 ++ l2.*1)) as Hsub.
  { intros h Hh. pose proof (rely_keys_sub _ _ _ u Hr Hmu _ Hh) as Hh1. apply Hk in Hh1.
    rewrite elem_of_list_to_set in *. rewrite Heq, fmap_app, fmap_cons in Hh1.
    rewrite elem_of_app, elem_of_cons in Hh1. rewrite elem_of_app.
    destruct Hh1 as [?|[->|?]]; [by left| |by right]. by apply (deleted_key _ u) in Hnone. }
  apply size_keys in Hsub. apply (f_equal length) in Heq.
  rewrite length_app in Heq. rewrite length_app, !length_fmap in Hsub. simpl in *. lia.
Qed.

(** ** Minting *)

(** Goroutine [i] has not used its token. *)
Definition unminted (i : nat) (l : list event) : Prop :=
  forall token u t, random i = Some token -> Minted (sha256 token) u t ∉ l.

Lemma unminted_grows i s s' : grows i s s' -> unminted i (log s) -> unminted i (log s').
Proof.
  intros Hg Hu token u t Hr. destruct (grows_log _ _ _ Hg) as (es & -> & Hes).
  rewrite elem_of_app. intros [Hin|Hin]; [by eapply Hu|].
  rewrite Forall_forall in Hes. by apply (Hes _ Hin token Hr).
Qed.

Lemma only_minted_grows i s s' token u t :
  random i = Some token -> grows i s s' ->
  only_minted (sha256 token) u t (log s) -> only_minted (sha256 token) u t (log s').
Proof.
  intros Hr Hg Ho u' t'. destruct (grows_log _ _ _ Hg) as (es & -> & Hes).
  rewrite elem_of_app. intros [Hin|Hin]; [by apply Ho|].
  rewrite Forall_forall in Hes. by destruct (Hes _ Hin token Hr).
Qed.

(** The session that a token was returned for. *)
Definition minted_after (i : nat) (s : server) (u : string) (s' : server)
    (r : result (string * Z)) : Prop :=
  forall token e, r = Ok (token, e) -> random i = Some token /\
  exists t, only_minted (sha256 token) u t (log s') /\
    forall n, (n < ticks s)%nat -> now n <= t.

Lemma minted_after_grows i s0 s1 u s s' r :
  (ticks s0 <= ticks s1)%nat -> grows i s s' ->
  minted_after i s1 u s r -> minted_after i s0 u s' r.
Proof.
  intros Ht Hg Hm token e He. destruct (Hm token e He) as (Hr & t & Ho & Hn).
  split; [done|]. exists t. split; [by eapply only_minted_grows|]. intros n Hlt. apply Hn. lia.
Qed.

Lemma wp_createSessionForUserLocked i u id Q s :
  mu s = Some i -> unminted i (log s) -> ok s ->
  (forall s' r, ok s' -> mu s' = Some i -> minted_after i s u s' r -> Q r s') ->
  wps i (createSessionForUserLocked i u id) Q s.
Proof.
  intros Hmu Hun Hok HQ. unfold createSessionForUserLocked.
  destruct (random i) as [token|] eqn:Hr; [|by apply HQ].
  wp_next. apply wp_clock. intros s1 t Hr1 Hok1 _ Hlate _. cbv zeta.
  pose proof (rely_mu _ _ _ Hr1 Hmu) as Hmu1.
  wp_next. apply wp_Range. intros s2 keys Hr2 Hok2 Hkeys.
  pose proof (rely_mu _ _ _ Hr2 Hmu1) as Hmu2.
  wp_next. apply wp_sessions_of; [done|done|]. intros s3 mine Hr3 Hok3 Hsub Hmine Hall.
  pose proof (rely_mu _ _ _ Hr3 Hmu2) as Hmu3.
  assert (user_keys s3 u ⊆ list_to_set mine.*1) as Hcover.
  { intros h Hh. rewrite elem_of_list_to_set. apply Hall; [|done].
    apply (rely_keys_sub _ _ _ u Hr3 Hmu2), elem_of_user_keys in Hh as (p & Hp & _).
    rewrite Hkeys, elem_of_elements, elem_of_dom. eauto. }
  assert (length mine <= maxSessionsPerUser)%nat as Hlen.
  { rewrite <- (length_fmap fst). etrans; [|apply (ok_cap _ Hok2 u)].
    rewrite <- (size_list_to_set (C := gset string)).
    - apply subseteq_size. intros h. rewrite elem_of_list_to_set. apply Hmine.
    - eapply sublist_NoDup; [|exact Hsub]. rewrite Hkeys. apply NoDup_elements. }
  wp_next. apply (wp_evict i u); [done..|]. intros s4 Hr4 Hok4 Hroom.
  assert (rely i s s4) as Hr04 by eauto 6 using rely_transitive.
  wp_next. apply wp_Store; [by eapply rely_mu|done|done| |].
  { intros u' t'. by eapply (unminted_grows i s s4 (rely_grows _ _ _ Hr04) Hun). }
  intros s5 Hok5 Hmu5 Ho. wp_next. apply wp_hushed.
  { intros n s'. cbn [snd]. destruct (try _ _ _ _); [|by apply hushed_same].
    unfold tell_reset. destruct (account_by_id _ _); [|by apply hushed_same].
    destruct s'. by apply (hushed_tell_store i). }
  intros s6 a s7 _ _ _ Hr7 Hok7. cbn [wp]. apply HQ; [done|by eapply rely_mu|].
  intros token' e [= <- _]. split; [done|]. exists t. split; [|done].
  eapply only_minted_grows; [done|by apply rely_grows|done].
Qed.

(** ** The operations that mint *)

Lemma find_account_name d username a : find_account d username = Some a -> acc_name a = username.
Proof. intros [_ Heq%String.eqb_eq]%find_some. done. Qed.

Lemma try_Ok {A} flt fn n (v w : A) : try flt fn n v = Ok w -> w = v.
Proof. unfold try. destruct (flt _ _ _); naive_solver. Qed.

Lemma wp_CreateSessionForUser i u Q s :
  unminted i (log s) ->
  (forall s' r, ok s' -> minted_after i s u s' r -> Q r s') ->
  wps i (CreateSessionForUser i u) Q s.
Proof.
  intros Hun HQ. unfold CreateSessionForUser. wp_next. apply wp_Lock. intros s1 Hr1 Hok1 Hmu1.
  wp_next. apply wp_hushed; [by intros; apply hushed_same|].
  intros s2 user s3 _ _ Hf Hr3 Hok3. injection Hf as Huser _.
  pose proof (rely_mu _ _ _ Hr3 Hmu1) as Hmu3.
  assert (rely i s s3) as Hr03 by eauto using rely_transitive.
  assert (forall s4 r, ok s4 -> mu s4 = Some i -> minted_after i s3 u s4 r ->
    wps i (pbind Unlock (fun _ => Done r)) Q s4) as Hend.
  { intros s4 r Hok4 Hmu4 Hm. wp_next. apply wp_Unlock; [done|]. intros s5 Hg Hok5.
    cbn [wp]. apply HQ; [done|]. eapply minted_after_grows; [|exact Hg|exact Hm].
    by apply grows_ticks with (i := i), rely_grows. }
  wp_next. destruct user as [[a|]|e]; [|by apply Hend..].
  destruct (negb (Enabled a) || IsServiceAccount a) eqn:Hc; [by apply Hend|].
  apply try_Ok in Huser. rewrite (find_account_name _ u a) by done.
  apply wp_createSessionForUserLocked; [done| |done|done].
  eapply unminted_grows; [by apply rely_grows|done].
Qed.

Lemma wp_AuthenticateUser cfg i u pw Q s :
  unminted i (log s) -> (forall s' r, ok s' -> Q r s') ->
  wps i (AuthenticateUser cfg i u pw) Q s.
Proof.
  intros Hun HQ. unfold AuthenticateUser. wp_next. apply wp_Lock. intros s1 Hr1 Hok1 Hmu1.
  wp_next. apply wp_hushed.
  { intros n s'. unfold check_password. destruct (try _ _ _ _) as [[a|]|e]; [|by apply hushed_same..].
    destruct (_ || _); [by apply hushed_same|]. destruct (negb _); [by apply hushed_same|].
    destruct (CompareHashAndPassword _ _); [by apply hushed_tell|].
    destruct (wrong_password _ _ _ _) as [d lk]. simpl.
    by apply hushed_tell_store. }
  intros s2 checked s3 _ _ _ Hr3 Hok3. pose proof (rely_mu _ _ _ Hr3 Hmu1) as Hmu3.
  assert (rely i s s3) as Hr03 by eauto using rely_transitive.
  assert (forall s4 r, mu s4 = Some i -> wps i (pbind Unlock (fun _ => Done r)) Q s4) as Hend.
  { intros s4 r Hmu4. wp_next. apply wp_Unlock; [done|]. intros s5 _ Hok5. by apply HQ. }
  wp_next. destruct checked as [a|[]|e]; [| |by apply Hend..].
  - apply wp_createSessionForUserLocked; [done| |done|].
    + eapply unminted_grows; [by apply rely_grows|done].
    + intros s4 r _ Hmu4 _. by apply Hend.
  - wp_next. apply wp_InvalidateUserSessions; [done|]. intros s4 Hr4 _. cbn [wp].
    apply Hend. by eapply rely_mu.
Qed.

(** ** Federated logins *)

Lemma session_ok_live_only s h session u t :
  session_ok s h session -> only_minted h u t (log s) -> session_user session = u /\ live h u t (log s).
Proof.
  intros (t' & Hl & _) Ho. pose proof Hl as (a & b & Heq & _).
  destruct (Ho (session_user session) t') as [Hu Ht].
  { rewrite Heq. apply elem_of_app. right. by left. }
  rewrite Hu, Ht in Hl. done.
Qed.

Lemma wp_CreateFederatedSession i u token e Q s :
  unminted i (log s) -> (forall s' r, ok s' -> Q r s') ->
  wps i (CreateFederatedSession i u token e) Q s.
Proof.
  intros Hun HQ. unfold CreateFederatedSession. wp_next. apply wp_clock.
  intros s1 t0 Hr1 Hok1 _ _ (n0 & Hn0 & Ht0). destruct (e <=? t0); [by apply HQ|]. cbv zeta.
  wp_next. apply wp_CreateSessionForUser; [eapply unminted_grows; [by apply rely_grows|done]|].
  intros s2 r Hok2 Hm. destruct r as [[tok e']|]; [|by apply HQ].
  destruct (Hm tok e' eq_refl) as (Hr & t & Ho & Hlate).
  assert (t0 <= t) as Hle by (rewrite Ht0; auto).
  wp_next. apply wp_Load. intros s3 [[p session]|] Hr3 Hok3 Hat; [|by apply HQ].
  wp_next. apply wp_new_fed. intros s4 f fs Hr4 Hok4 Hf Hd.
  wp_next. apply wp_CompareAndSwap; [|by intros b s5 _ Hok5 _; apply HQ].
  intros s5 Hr5 Hok5 Hp.
  assert (only_minted (sha256 tok) u t (log s5)) as Ho5.
  { eapply (only_minted_grows i s2); [done| |done]. apply rely_grows. eauto using rely_transitive. }
  destruct (ok_session _ Hok5 _ _ Hp) as (session' & Hp' & Hses).
  destruct (session_ok_live_only _ _ _ _ _ Hses Ho5) as [Hu Hl].
  split; [unfold belongs; rewrite Hp'; by simpl; rewrite Hu|].
  exists t. simpl. split_and!; [done|lia|]. intros f' [= <-].
  destruct (rely_feds _ _ _ Hr5 f fs Hf) as (fs' & Hf' & Hd' & _). exists fs'.
  split; [done|]. lia.
Qed.
End SessionMint.
