(* ===== verification/SessionSound.v ===== *)
(** * Requests are served on grounds

    The programs that validate a credential, and the goroutines as a whole:
    the server keeps [ok] under every schedule. *)
From stdpp Require Import base list strings gmap.
From S2P Require Import Prelude GoStrings AuthStore TokenScope Accounts Threads Sessions SessionLogic SessionSteps SessionMint.

Local Open Scope Z_scope.
Local Open Scope list_scope.

Section SessionSound.
Context `{Reliable} `{Affinity} (cfg : settings).

(** ** Refreshes *)

(** Goroutine [i] found the session of [u] live and within its time. *)
Definition valid (i : nat) (h u : string) (l : list event) : Prop :=
  exists t t', live_since i h u t l /\ Clocked i t' ∈ l /\ t' <= t + DefaultSessionExpiry.

Lemma elem_of_grows i s s' e : grows i s s' -> e ∈ log s -> e ∈ log s'.
Proof. intros Hg. destruct (grows_log _ _ _ Hg) as (es & -> & _). rewrite elem_of_app. by left. Qed.

Lemma live_since_grows i s s' h u t :
  grows i s s' -> live_since i h u t (log s) -> live_since i h u t (log s').
Proof.
  intros Hg Hl. destruct (grows_log _ _ _ Hg) as (es & -> & Hes). by apply live_since_app.
Qed.

Lemma valid_grows i s s' h u : grows i s s' -> valid i h u (log s) -> valid i h u (log s').
Proof.
  intros Hg (t & t' & Hl & Hc & Hle). exists t, t'.
  split_and!; [by eapply live_since_grows|by eapply elem_of_grows|done].
Qed.

Lemma rely_rely_grows i s1 s2 s3 : rely i s1 s2 -> grows i s2 s3 -> grows i s1 s3.
Proof. intros Hr Hg. eapply grows_transitive; [by apply rely_grows|done]. Qed.

Lemma heap_grows i s s' p session :
  grows i s s' -> heap s !! p = Some session -> heap s' !! p = Some session.
Proof. intros Hg Hp. by eapply lookup_weaken, grows_heap. Qed.

(** The result of a refresh. *)
Definition refreshed_ok (i : nat) (h : string) (r : result SessionInfo) (s : server) : Prop :=
  forall session, r = Ok session -> valid i h (session_user session) (log s).

Lemma wp_endFederatedSession i h p Q s :
  (forall s' e, rely i s s' -> ok s' -> Q (Err e) s') -> wps i (endFederatedSession h p) Q s.
Proof.
  intros HQ. unfold endFederatedSession. wp_next. apply wp_CompareAndDelete.
  intros s' Hr Hok. by apply HQ.
Qed.

Lemma wp_redeem i h f p current fs t1 Q s :
  feds s !! f = Some fs -> locked fs = Some i -> settled f (refreshToken fs) (log s) ->
  refreshToken fs <> ""%string ->
  heap s !! p = Some current -> federated current = Some f ->
  Clocked i t1 ∈ log s -> t1 < deadline fs ->
  (forall s' r, grows i s s' -> ok s' -> holds i f (deadline fs) s' ->
     refreshed_ok i h r s' -> Q r s') ->
  wps i (redeem i h f p current fs) Q s.
Proof.
  intros Hf Hlk Hset Hne Hp Hfed Hc Hlt HQ. unfold redeem.
  wp_next. apply wp_present; [done..|]. intros s1 Hg1 Hok1 Hf1.
  wp_next. apply (wp_answer i f fs); [done..|]. intros s2 a Hg2 Hok2 Hh2.
  assert (grows i s s2) as Hg02 by by eapply grows_transitive.
  assert (forall s3, rely i s2 s3 ->
    wps i (endFederatedSession h p) Q s3) as Hend.
  { intros s3 Hr3. apply wp_endFederatedSession. intros s4 e Hr4 Hok4.
    assert (rely i s2 s4) as Hr24 by by eapply rely_transitive.
    apply HQ; [eapply grows_transitive; [done|by apply rely_grows]|done|by eapply holds_rely|done]. }
  destruct a as [expiresAt|]; [|apply Hend, rely_reflexive].
  wp_next. apply wp_clock. intros s3 t' Hr3 Hok3 _ _ _.
  unfold cappedRefreshExpiry. destruct (Z.leb_spec expiresAt t') as [|Hlater]; [by apply Hend|].
  set (next := {| session_user := _; session_expires := _; federated := _ |}).
  assert (grows i s s3) as Hg03 by (eapply grows_transitive; [done|by apply rely_grows]).
  wp_next. apply wp_CompareAndSwap.
  - intros s4 Hr4 Hok4 Hp4.
    assert (grows i s s4) as Hg04 by (eapply grows_transitive; [done|by apply rely_grows]).
    pose proof (heap_grows _ _ _ _ _ Hg04 Hp) as Hp4'.
    destruct (ok_session _ Hok4 _ _ Hp4) as (cur & Hcur & (t & Hl & He & Hd)).
    rewrite Hp4' in Hcur. injection Hcur as <-. split; [unfold belongs; by rewrite Hp4'|].
    exists t. destruct (Hd f Hfed) as (fs4 & Hf4 & Hle).
    assert (rely i s2 s4) as Hr24 by by eapply rely_transitive.
    destruct (holds_rely _ _ _ _ _ Hr24 Hh2) as (fs4' & Hf4' & _ & Hd4 & _).
    rewrite Hf4 in Hf4'. injection Hf4' as <-.
    simpl. split_and!; [done|lia|]. intros f' [= <-]. eauto.
  - intros b s4 Hr4 Hok4 Hb. cbn [wp].
    assert (rely i s2 s4) as Hr24 by by eapply rely_transitive.
    pose proof (holds_rely _ _ _ _ _ Hr24 Hh2) as Hh4.
    assert (grows i s s4) as Hg04 by (eapply grows_transitive; [done|by apply rely_grows]).
    apply HQ; [done..|]. destruct b; [|done]. intros session [= <-].
    destruct (Hb eq_refl) as (t & Hl & He & Hd), (Hd f eq_refl) as (fs4 & Hf4 & Hle).
    destruct Hh4 as (fs4' & Hf4' & _ & Hd4 & _). rewrite Hf4 in Hf4'. injection Hf4' as <-.
    exists t, t1. split_and!; [by apply live_since_live|by eapply elem_of_grows|lia].
Qed.

(** What was loaded stays good, for the goroutine that loaded it. *)
Definition loaded_ok (i : nat) (h : string) (session : SessionInfo) (l : list event) : Prop :=
  exists t, live_since i h (session_user session) t l /\
    session_expires session <= t + DefaultSessionExpiry.

Lemma loaded i s h p session :
  ok s -> at_key s h (Some (p, session)) -> loaded_ok i h session (log s).
Proof.
  intros Hok [Hp Hh]. destruct (ok_session _ Hok _ _ Hp) as (session' & Hh' & (t & Hl & He & _)).
  rewrite Hh in Hh'. injection Hh' as <-. exists t. split; [by apply live_since_live|done].
Qed.

Lemma loaded_valid i s s' h session t :
  grows i s s' -> loaded_ok i h session (log s) -> Clocked i t ∈ log s' ->
  t <= session_expires session -> valid i h (session_user session) (log s').
Proof.
  intros Hg (t0 & Hl & He) Hc Hle. exists t0, t.
  split_and!; [by eapply live_since_grows|done|lia].
Qed.

Lemma wp_refresh_locked i h f d Q s :
  holds i f d s ->
  (forall s' r, grows i s s' -> ok s' -> holds i f d s' -> refreshed_ok i h r s' -> Q r s') ->
  wps i (refresh_locked i h f) Q s.
Proof.
  intros Hh HQ. unfold refresh_locked, loadFederatedSession. wp_next. wp_next. apply wp_Load.
  intros s1 found Hr1 Hok1 Hat.
  assert (forall s' r, rely i s s' -> ok s' -> refreshed_ok i h r s' -> Q r s') as Hdone.
  { intros s' r Hr Hok Href. apply HQ; [by apply rely_grows|done|by eapply holds_rely|done]. }
  cbn [wp]. destruct found as [[p current]|]; [|by apply Hdone].
  case_bool_decide as Hfed; [|by apply Hdone].
  pose proof (loaded i _ _ _ _ Hok1 Hat) as Hl.
  wp_next. apply wp_clock. intros s2 t Hr2 Hok2 Hc _ _.
  assert (rely i s s2) as Hr02 by by eapply rely_transitive.
  destruct (Z.ltb_spec t (session_expires current)) as [Hlt|_].
  { apply Hdone; [done|done|]. intros session [= <-].
    eapply (loaded_valid i s1); [by apply rely_grows|done|done|lia]. }
  wp_next. apply wp_hushed; [by intros; apply hushed_same|].
  intros _ configured s3 _ _ _ Hr3 Hok3. wp_next. apply wp_clock.
  intros s4 t1 Hr4 Hok4 Hc1 _ _. wp_next. apply wp_hushed; [by intros; apply hushed_same|].
  intros s5 found s6 _ _ Hf Hr6 Hok6. injection Hf as Hfound <-.
  assert (rely i s (next_tick s5)) as Hr06 by eauto 6 using rely_transitive.
  destruct found as [fs|]; [|by apply Hdone].
  destruct (unrefreshableReason current fs configured t1) eqn:Hwhy.
  { apply wp_endFederatedSession. intros s7 e Hr7 Hok7.
    apply Hdone; [by eapply rely_transitive|done|done]. }
  unfold unrefreshableReason, pastDeadline in Hwhy. rewrite !orb_false_iff in Hwhy.
  destruct Hwhy as [[[Hd Htok%String.eqb_neq] _] _]. apply Z.leb_gt in Hd.
  pose proof (holds_rely _ _ _ _ _ Hr06 Hh) as (fs' & Hf' & Hlk & Hd' & Hset).
  simpl in Hf'. rewrite Hfound in Hf'. injection Hf' as <-.
  apply (wp_redeem _ _ _ _ _ _ t1); [done..| |done| |done|].
  - assert (rely i s1 (next_tick s5)) as Hr16 by eauto 6 using rely_transitive.
    eapply (heap_grows i s1); [by apply rely_grows|apply Hat].
  - eapply (elem_of_grows i s4); [by apply rely_grows|done].
  - intros s7 r Hg7 Hok7 Hh7 Href. rewrite Hd' in Hh7.
    apply HQ; [by eapply rely_rely_grows|done..].
Qed.

Lemma wp_refreshFederatedSession i h p session Q s :
  (forall s' r, grows i s s' -> ok s' -> refreshed_ok i h r s' -> Q r s') ->
  wps i (refreshFederatedSession i h p session) Q s.
Proof.
  intros HQ. unfold refreshFederatedSession. destruct (federated session) as [f|]; cycle 1.
  { apply wp_endFederatedSession. intros s' e Hr Hok. apply HQ; [by apply rely_grows|done|done]. }
  wp_next. apply wp_LockFed. intros s1 d Hr1 Hok1 Hh1. wp_next.
  apply (wp_refresh_locked _ _ _ d); [done|]. intros s2 r Hg2 Hok2 Hh2 Href.
  wp_next. eapply wp_UnlockFed; [done|]. intros s3 Hg3 Hok3. cbn [wp].
  apply HQ; [|done|].
  - eapply rely_rely_grows; [done|]. by eapply grows_transitive.
  - intros session' ->. eapply valid_grows; [done|]. by apply Href.
Qed.

(** ** Reading the tables *)

Lemma wp_GetUser i u Q s :
  (forall s' r, rely i s s' -> ok s' ->
     (forall a, r = Ok (Some a) -> exists n d, Saw i n d ∈ log s' /\ find_account d u = Some a) ->
     Q r s') ->
  wps i (GetUser i u) Q s.
Proof.
  intros HQ. apply wp_reading; [by intros; apply hushed_tell|].
  intros s1 r s2 _ _ [= <- <-] Hr Hok. apply HQ; [done|done|].
  intros a Ha%try_Ok. exists (ticks s1), (store s1). split; [|done]. simpl.
  apply elem_of_app. right. by apply list_elem_of_singleton.
Qed.

Lemma wp_GetUserByID i id Q s :
  (forall s' r, rely i s s' -> ok s' ->
     (forall a, r = Ok (Some a) -> exists n d, Saw i n d ∈ log s' /\ account_by_id d id = Some a) ->
     Q r s') ->
  wps i (GetUserByID i id) Q s.
Proof.
  intros HQ. apply wp_reading; [by intros; apply hushed_tell|].
  intros s1 r s2 _ _ [= <- <-] Hr Hok. apply HQ; [done|done|].
  intros a Ha%try_Ok. exists (ticks s1), (store s1). split; [|done]. simpl.
  apply elem_of_app. right. by apply list_elem_of_singleton.
Qed.

(** ** Sessions *)

(** The account was seen enabled. *)
Definition seen_enabled (i : nat) (u : string) (l : list event) : Prop :=
  exists n d a, Saw i n d ∈ l /\ find_account d u = Some a /\ Enabled a = true.

Definition session_valid (i : nat) (h : string) (r : result string) (s : server) : Prop :=
  forall u, r = Ok u -> valid i h u (log s) /\ seen_enabled i u (log s).

Lemma wp_check_session_user i h session Q s :
  valid i h (session_user session) (log s) ->
  (forall s' r, grows i s s' -> ok s' -> session_valid i h r s' -> Q r s') ->
  wps i (check_session_user i h session) Q s.
Proof.
  intros Hv HQ. unfold check_session_user. wp_next. apply wp_GetUser. intros s1 r Hr1 Hok1 Hsaw.
  assert (forall e, wps i (pbind (Delete h) (fun _ => Done (Err e))) Q s1) as Hend.
  { intros e. wp_next. apply wp_Delete. intros s2 Hr2 Hok2 _. cbn [wp].
    apply HQ; [|done|done]. eapply rely_grows, rely_transitive; done. }
  destruct r as [[a|]|e]; [|by apply Hend..]. destruct (Enabled a) eqn:He; [|by apply Hend].
  cbn [wp]. apply HQ; [by apply rely_grows|done|]. intros u [= <-].
  split; [eapply valid_grows; [by apply rely_grows|done]|].
  destruct (Hsaw a eq_refl) as (n & d & Hin & Hfind). by exists n, d, a.
Qed.

Lemma wp_ValidateSessionToken i token Q s :
  (forall s' r, grows i s s' -> ok s' -> session_valid i (sha256 token) r s' -> Q r s') ->
  wps i (ValidateSessionToken i token) Q s.
Proof.
  intros HQ. unfold ValidateSessionToken. wp_next. apply wp_Load. intros s1 found Hr1 Hok1 Hat.
  destruct found as [[p session]|]; cycle 1.
  { cbn [wp]. apply HQ; [by apply rely_grows|done|done]. }
  pose proof (loaded i _ _ _ _ Hok1 Hat) as Hl.
  wp_next. apply wp_clock. intros s2 t Hr2 Hok2 Hc _ _.
  assert (grows i s s2) as Hg02 by (eapply rely_grows, rely_transitive; done).
  destruct (Z.leb_spec t (session_expires session)) as [Hle|_].
  - apply wp_check_session_user.
    + eapply (loaded_valid i s1); [by apply rely_grows|done..].
    + intros s3 r Hg3 Hok3 Hs. apply HQ; [by eapply grows_transitive|done|done].
  - wp_next. apply wp_refreshFederatedSession. intros s3 r Hg3 Hok3 Href.
    destruct r as [session'|e]; cycle 1.
    { cbn [wp]. apply HQ; [by eapply grows_transitive|done|done]. }
    apply wp_check_session_user; [by apply Href|].
    intros s4 r Hg4 Hok4 Hs. apply HQ; [|done|done]. eauto using grows_transitive.
Qed.

(** ** Requests *)

(** The grounds on which a context was given out. *)
Definition context_ok (i : nat) (token : string) (r : result Context) (s : server) : Prop :=
  forall c, r = Ok c -> ctx_username c <> ""%string /\
  if ctx_isAPIToken c then token_grounds (log s) i token c else session_grounds (log s) i token c.

Lemma wp_session_context i token Q s :
  (forall s' r, grows i s s' -> ok s' -> context_ok i token r s' -> Q r s') ->
  wps i (session_context i token) Q s.
Proof.
  intros HQ. unfold session_context. wp_next. apply wp_ValidateSessionToken.
  intros s1 r Hg1 Hok1 Hs. destruct r as [u|e]; cycle 1.
  { destruct e; cbn [wp]; by apply HQ. }
  destruct (String.eqb_spec u "") as [|Hne]; [cbn [wp]; by apply HQ|].
  wp_next. apply wp_GetUser. intros s2 r Hr2 Hok2 Hsaw. cbn [wp].
  assert (grows i s s2) as Hg02 by (eapply grows_transitive; [done|by apply rely_grows]).
  apply HQ; [done|done|]. destruct r as [[a|]|e]; [|done|done]. intros c [= <-]. split; [done|].
  simpl. destruct (Hs u eq_refl) as [(t & t' & Hl & Hc & Hle) (n & d & a0 & Hin & Hfind & He)].
  destruct (Hsaw a eq_refl) as (n' & d' & Hin' & Hfind').
  exists t, t', n, d, a0, n', d', a. pose proof (rely_grows _ _ _ Hr2) as Hg2.
  split_and!; [by eapply live_since_grows|by eapply elem_of_grows|done
              |by eapply elem_of_grows|done..].
Qed.

(** The token was seen in the tables, not expired and its owner allowed. *)
Definition token_seen (i : nat) (raw : string) (k : token_row) (l : list event) : Prop :=
  exists n d owner, Saw i n d ∈ l /\ k ∈ token_rows d /\ TokenHash k = sha256 raw /\
    expired (now n) k = false /\ account_by_id d (OwnerID (tok_row k)) = Some owner /\
    Enabled owner = true /\
    APITokensAllowedFor (federatedAPITokens n) (AuthSource owner) = true.

Lemma wp_token_context i token k Q s :
  token_seen i token k (log s) ->
  (forall s' r, grows i s s' -> ok s' -> context_ok i token r s' -> Q r s') ->
  wps i (token_context i k) Q s.
Proof.
  intros (n & d & owner & Hin & Hk & Hh & Hexp & Hown & He & Hal) HQ. unfold token_context.
  wp_next. apply wp_GetUserByID. intros s1 r Hr1 Hok1 Hsaw. cbn [wp].
  pose proof (rely_grows _ _ _ Hr1) as Hg1. apply HQ; [done|done|].
  destruct r as [[a|]|e]; [|done|done].
  destruct (String.eqb_spec (acc_name a) "") as [|Hne]; [done|]. intros c [= <-].
  split; [done|]. simpl. destruct (Hsaw a eq_refl) as (n' & d' & Hin' & Hfind').
  exists n, d, k, owner, n', d', a. split_and!; try done. by eapply elem_of_grows.
Qed.

(** A token that validates is as the tables say. *)
Lemma validateToken_Ok flt allowed t d raw k :
  validateToken flt allowed t d raw = Ok k ->
  k ∈ token_rows d /\ TokenHash k = sha256 raw /\ expired t k = false /\
  exists owner, account_by_id d (OwnerID (tok_row k)) = Some owner /\ Enabled owner = true /\
    APITokensAllowedFor allowed (AuthSource owner) = true.
Proof.
  unfold validateToken. destruct (try _ _ _ _) as [[k'|]|] eqn:Hf; [|done|done].
  apply try_Ok in Hf. symmetry in Hf. apply find_some in Hf as [Hin Hh%String.eqb_eq].
  destruct (expired t k') eqn:Hexp; [done|]. unfold checkTokenOwner.
  destruct (try _ _ _ _) as [o|] eqn:Ho; [|done]. simpl.
  destruct o as [owner|]; [|done]. apply try_Ok in Ho.
  destruct (Enabled owner) eqn:He; [|done]. simpl.
  destruct (APITokensAllowedFor _ _) eqn:Ha; [|done]. simpl. intros [= <-].
  split_and!; [by apply list_elem_of_In|done|done|]. exists owner. by rewrite Ho.
Qed.

Lemma wp_ValidateToken i raw Q s :
  (forall s' r, grows i s s' -> ok s' ->
     (forall k, r = Ok k -> token_seen i raw k (log s')) ->
     Q r s') ->
  wps i (ValidateToken i raw) Q s.
Proof.
  intros HQ. unfold ValidateToken. wp_next. apply wp_reading; [by intros; apply hushed_tell|].
  intros s1 [r refused] s2 _ _ Hf Hr2 Hok2. injection Hf as Hr _ Hs2.
  pose proof (rely_grows _ _ _ Hr2) as Hg2.
  assert (forall k, r = Ok k -> token_seen i raw k (log s2)) as Hk.
  { intros k ->. apply validateToken_Ok in Hr as (Hk & Hh & He & owner & Ho).
    exists (ticks s1), (store s1), owner. split_and!; [|by apply Hk|done|done|by apply Ho..].
    rewrite <- Hs2. simpl. apply elem_of_app. right. by apply list_elem_of_singleton. }
  destruct r as [k|e]; [by cbn [wp]; apply HQ|].
  destruct e; try (by cbn [wp]; apply HQ). destruct refused as [k|]; [|by cbn [wp]; apply HQ].
  wp_next. apply wp_reading.
  { intros n s'. cbn [snd]. case_match; by apply hushed_same. }
  intros _ a s3 _ _ _ Hr3 Hok3. cbn [wp]. apply HQ; [|done|done].
  eapply rely_grows, rely_transitive; done.
Qed.

Lemma wp_AuthenticateRequest i r Q s :
  (forall s' res, grows i s s' -> ok s' ->
     (forall c, res = Ok c -> ExtractBearerToken r <> ""%string) ->
     context_ok i (ExtractBearerToken r) res s' -> Q res s') ->
  ok s ->
  wps i (AuthenticateRequest i r) Q s.
Proof.
  intros HQ Hok. unfold AuthenticateRequest.
  destruct (String.eqb_spec (ExtractBearerToken r) "") as [|Hne].
  { cbn [wp]. apply HQ; [apply rely_grows, rely_reflexive|done|done|done]. }
  wp_next. apply wp_ValidateToken. intros s1 stored Hg1 Hok1 Hk.
  assert (forall p, (forall Q', (forall s' r', grows i s1 s' -> ok s' ->
      context_ok i (ExtractBearerToken r) r' s' -> Q' r' s') -> wps i p Q' s1) -> wps i p Q s1) as Hgo.
  { intros p Hp. apply Hp. intros s' r' Hg Hok' Hc.
    apply HQ; [by eapply grows_transitive|done|done|done]. }
  destruct stored as [k|e].
  - apply Hgo. intros Q' HQ'. apply (wp_token_context _ (ExtractBearerToken r)); [by apply Hk|done].
  - destruct e; try (by apply Hgo; intros Q' HQ'; apply wp_session_context).
    cbn [wp]. by apply HQ.
Qed.

Lemma wp_AuthMiddleware i path r Q s :
  ok s -> (forall s', ok s' -> Q tt s') -> wps i (AuthMiddleware true i path r) Q s.
Proof.
  intros Hok HQ. unfold AuthMiddleware. simpl negb. cbv iota.
  destruct (IsPublicPath path) eqn:Hp.
  { apply wp_ServeHTTP; [done|]. intros s' _ Hok'. by apply HQ. }
  wp_next. apply wp_AuthenticateRequest; [|done]. intros s1 res Hg1 Hok1 Hne Hc.
  destruct res as [c|e]; [|by cbn [wp]; apply HQ].
  apply wp_ServeHTTP; [|by intros s' _ Hok'; apply HQ]. intros s2 Hr2 Hok2.
  destruct (Hc c eq_refl) as [Hu Hg]. pose proof (rely_grows _ _ _ Hr2) as Hg2.
  split; [done|]. split; [by eapply Hne|]. destruct (ctx_isAPIToken c).
  - destruct Hg as (n & d & k & owner & n' & d' & a & H' & Hrest & Hrest').
    exists n, d, k, owner, n', d', a. split; [by eapply elem_of_grows|].
    naive_solver eauto using elem_of_grows.
  - destruct Hg as (t & t' & n & d & a & n' & d' & a' & Hl & Hrest).
    exists t, t', n, d, a, n', d', a'. split; [by eapply live_since_grows|].
    naive_solver eauto using elem_of_grows.
Qed.

(** ** Goroutines *)

Lemma wp_sweepExpiredSessions i keys Q s :
  ok s -> (forall s', ok s' -> Q tt s') -> wps i (sweepExpiredSessions i keys) Q s.
Proof.
  intros Hok HQ. unfold sweepExpiredSessions. wp_next. apply wp_clock. intros s1 t _ Hok1 _ _ _.
  clear s Hok. revert s1 Hok1. induction keys as [|h keys IH]; intros s Hok; cbn [each]; [by apply HQ|].
  wp_next. wp_next. apply wp_Load. intros s1 [[p session]|] Hr1 Hok1 _; [|cbn [wp]; by apply IH].
  destruct (t <=? session_expires session); [cbn [wp]; by apply IH|].
  wp_next. apply wp_hushed; [by intros; apply hushed_same|]. intros _ keep s2 _ _ _ _ Hok2.
  destruct keep; [cbn [wp]; by apply IH|]. apply wp_CompareAndDelete. intros s3 _ Hok3. by apply IH.
Qed.

(** Changing the tables, and then ending the sessions of a user. *)
Lemma wp_then_revoke i (revoked : option string) Q s :
  mu s = Some i -> (forall s', ok s' -> Q tt s') ->
  wps i (pbind (match revoked with Some u => InvalidateUserSessions u | None => Done tt end)
           (fun _ => Unlock)) Q s.
Proof.
  intros Hmu HQ. wp_next. destruct revoked as [u|].
  - apply wp_InvalidateUserSessions; [done|]. intros s1 Hr1 _.
    apply wp_Unlock; [by eapply rely_mu|]. intros s2 _ Hok2. by apply HQ.
  - cbn [wp]. apply wp_Unlock; [done|]. intros s2 _ Hok2. by apply HQ.
Qed.

Lemma hushed_tell_reopened i s d op : hushed i s (tell_reopened (with_store s d) op).
Proof.
  unfold tell_reopened. destruct (reopens op); [by apply hushed_tell_store|by apply hushed_same].
Qed.

Lemma wp_change_accounts i op Q s :
  (forall s', ok s' -> Q tt s') -> wps i (change_accounts cfg i op) Q s.
Proof.
  intros HQ. unfold change_accounts. wp_next. apply wp_Lock. intros s1 _ Hok1 Hmu1.
  wp_next. apply wp_hushed.
  { intros n s'. destruct (run_op _ _ _ _ _) as [d r]. cbn [snd].
    destruct (is_ok r); [apply hushed_tell_reopened|by apply hushed_same]. }
  intros _ r s2 _ _ _ Hr2 _. pose proof (rely_mu _ _ _ Hr2 Hmu1) as Hmu2.
  destruct r as [[]|e]; [by apply wp_then_revoke|].
  by apply (wp_then_revoke i None).
Qed.

Lemma serve_safe i r s :
  unminted i (log s) -> safe ok rely guarantee i (serve cfg i r) s.
Proof.
  intros Hun. unfold serve, safe. wp_next.
  apply wp_Started; [intros u t tok Ht; by apply Hun|]. intros s1 Hok1 Hun1.
  assert (unminted i (log s1)) as Hun' by (intros tok u t Ht; by apply Hun1).
  destruct r.
  - by apply wp_AuthMiddleware.
  - wp_next. by apply wp_AuthenticateUser.
  - wp_next. by apply wp_CreateFederatedSession.
  - by apply wp_Delete.
  - by apply wp_sweepExpiredSessions.
  - by apply wp_change_accounts.
  - wp_next. apply wp_Lock. intros s2 _ _ Hmu2. wp_next.
    apply wp_hushed; [by intros; apply hushed_same|]. intros _ [] s3 _ _ _ Hr3 _.
    apply wp_then_revoke; [by eapply rely_mu|done].
Qed.

Lemma ok_opened d : ok (opened d).
Proof.
  split; simpl.
  - done.
  - intros a i path token ctx b Heq. by destruct a.
  - intros a f token b Heq. by destruct a.
  - done.
  - by intros f e ?%elem_of_nil.
  - intros u. unfold user_keys. simpl. rewrite map_filter_empty, dom_empty_L, size_empty.
    unfold maxSessionsPerUser. lia.
Qed.

(** The server keeps the invariant, whatever the requests and the order in
    which their steps are taken. *)
Lemma run_server_ok requests schedule d : ok (run_server cfg requests schedule d).
Proof.
  unfold run_server. apply (run_pool_safe ok rely guarantee server_rely_guarantee).
  split; [apply ok_opened|]. intros i p Hp. simpl in Hp. rewrite list_lookup_imap in Hp.
  apply fmap_Some in Hp as (r & _ & ->). apply serve_safe.
  intros token u t _. apply not_elem_of_nil.
Qed.
End SessionSound.
