(* ===== verification/AccountOps.v ===== *)
(** * What the operations on accounts do to them

    Each operation leaves the accounts, adds one, changes one or deletes one;
    [changed] says which, with what the theorems about lockout and about the
    last superuser need of it. *)
From stdpp Require Import base list strings gmap.
From S2P Require Import Prelude GoStrings AuthStore TokenScope Accounts Threads Sessions SessionMint.

Local Open Scope Z_scope.
Local Open Scope list_scope.

(** Names and ids are unique, and ids have been given out in order. *)
Record accounts_ok (l : list account) (next : Z) : Prop := {
  names_unique : NoDup (map acc_name l);
  ids_unique : NoDup (map acc_id l);
  ids_below : forall a, a ∈ l -> acc_id a < next;
}.

(** An account that can administer. *)
Definition admin (a : account) : bool := acc_superuser a && Enabled a.

Definition keeps_identity (f : account -> account) : Prop :=
  forall a, acc_id (f a) = acc_id a /\ acc_name (f a) = acc_name a.

(** [reopened]: the account that may be tried again. *)
Inductive changed (reopened : option string) (l : list account) (next : Z)
    : list account -> Z -> Prop :=
| left_alone : changed reopened l next l next
| added a :
    acc_id a = next -> acc_name a ∉ map acc_name l -> reopened = Some (acc_name a) ->
    FailedAttempts a = 0 ->
    changed reopened l next (l ++ [a]) (next + 1)
| altered f before :
    before ∈ l -> keeps_identity f ->
    (reopened = Some (acc_name before) /\
       (0 <= FailedAttempts before -> 0 <= FailedAttempts (f before)) \/
     (Enabled (f before) = true -> Enabled before = true) /\
       FailedAttempts before <= FailedAttempts (f before)) ->
    (admin before = true -> admin (f before) = true \/
       exists a, a ∈ l /\ admin a = true /\ acc_id a <> acc_id before) ->
    changed reopened l next
      (map (fun a => if Accounts.with_id (acc_id before) a then f a else a) l) next
| removed before :
    before ∈ l ->
    (admin before = true -> exists a, a ∈ l /\ admin a = true /\ acc_id a <> acc_id before) ->
    changed reopened l next
      (List.filter (fun a => negb (Accounts.with_id (acc_id before) a)) l) next.

(** ** Accounts are found by name or by id *)

Lemma account_with_id l next a b :
  accounts_ok l next -> a ∈ l -> b ∈ l -> acc_id a = acc_id b -> a = b.
Proof.
  intros [_ Hn _] Ha Hb Heq. apply list_elem_of_lookup in Ha as [i Ha].
  apply list_elem_of_lookup in Hb as [j Hb].
  assert (i = j) as ->.
  { eapply NoDup_lookup; [exact Hn|..]; rewrite list_lookup_fmap.
    - by rewrite Ha.
    - rewrite Hb. simpl. by rewrite Heq. }
  congruence.
Qed.

Lemma same_name l next a b :
  accounts_ok l next -> a ∈ l -> b ∈ l -> acc_name a = acc_name b -> a = b.
Proof.
  intros [Hn _ _] Ha Hb Heq. apply list_elem_of_lookup in Ha as [i Ha].
  apply list_elem_of_lookup in Hb as [j Hb].
  assert (i = j) as ->.
  { eapply NoDup_lookup; [exact Hn|..]; rewrite list_lookup_fmap.
    - by rewrite Ha.
    - rewrite Hb. simpl. by rewrite Heq. }
  congruence.
Qed.

(** An UPDATE by name is one by id. *)
Lemma update_named l next before f :
  accounts_ok l next -> before ∈ l ->
  map (fun a => if named (acc_name before) a then f a else a) l =
  map (fun a => if Accounts.with_id (acc_id before) a then f a else a) l.
Proof.
  intros Hok Hb. apply map_ext_in. intros a Ha%list_elem_of_In.
  unfold named, Accounts.with_id.
  destruct (String.eqb_spec (acc_name a) (acc_name before)) as [Hn|Hn];
    destruct (Z.eqb_spec (acc_id a) (acc_id before)) as [Hi|Hi]; try done.
  - by rewrite (same_name _ _ _ _ Hok Ha Hb Hn) in Hi.
  - by rewrite (account_with_id _ _ _ _ Hok Ha Hb Hi) in Hn.
Qed.

Lemma find_account_In d u a : find_account d u = Some a -> a ∈ accounts d /\ acc_name a = u.
Proof. intros [Hin Hn%String.eqb_eq]%find_some. by rewrite list_elem_of_In. Qed.

(** ** Transactions *)

(** The parts of the tables that hold the accounts. *)
Definition same_accounts (d d' : store_db) : Prop :=
  accounts d' = accounts d /\ next_user d' = next_user d.

Lemma record_events_accounts flt fn n d evs d' :
  record_events flt fn n d evs = Ok d' -> same_accounts d d'.
Proof.
  revert n d. induction evs as [|ev evs IH]; intros n d; simpl; [by intros [= <-]|].
  destruct (ask _ _ _ _ _) as [t|]; [|done]. simpl. intros [Ha Hn]%IH. done.
Qed.

Lemma transaction_inv {A} flt fn action target d (body : result (store_db * list Z * A)) d' r :
  transaction flt fn action target d body = (d', r) ->
  (exists e, r = Err e /\ same_accounts d d') \/
  exists d'' ids a, body = Ok (d'', ids, a) /\ r = Ok a /\ same_accounts d'' d'.
Proof.
  unfold transaction. destruct (flt fn 0%nat []); [intros [= <- <-]; left; by eexists|].
  set (done_ := rbind body _). destruct done_ as [[d1 a]|e] eqn:Hdone.
  - intros [= <- <-]. right. unfold done_ in Hdone.
    apply rbind_Ok in Hdone as ([[d2 ids] a2] & Hb & Hdone).
    apply rbind_Ok in Hdone as (d3 & Hrec & Hdone).
    apply rbind_Ok in Hdone as ([] & _ & [= <- <-]).
    exists d2, ids, a2. split_and!; [done|done|]. by eapply record_events_accounts.
  - intros [= <- <-]. left. exists e. split; [done|].
    destruct (match body with Ok _ => _ | Err _ => _ end); done.
Qed.

Lemma userSnapshotTx_Ok flt fn n d u a :
  userSnapshotTx flt fn n d u = Ok a -> a ∈ accounts d /\ acc_name a = u.
Proof.
  unfold userSnapshotTx. intros (o & Ho & Ha)%rbind_Ok. apply try_Ok in Ho as ->.
  destruct (find_account d u) as [b|] eqn:Hf; [|done]. injection Ha as <-.
  by apply find_account_In.
Qed.

(** ** Updates of one account *)

Record updates (u : string) (f : account -> account) (d d' : store_db) : Prop := {
  updates_accounts : accounts d' = map (fun a => if named u a then f a else a) (accounts d);
  updates_next : next_user d' = next_user d;
  updates_identity : keeps_identity f;
}.

Lemma updates_id u d : updates u id d d.
Proof.
  split; [|done|by intros a]. rewrite <- (map_id (accounts d)) at 1. apply map_ext. intros a.
  by destruct (named u a).
Qed.

Lemma updates_trans u f g d1 d2 d3 :
  updates u f d1 d2 -> updates u g d2 d3 -> updates u (fun a => g (f a)) d1 d3.
Proof.
  intros [Ha1 Hn1 Hf] [Ha2 Hn2 Hg]. split; [|congruence|].
  - rewrite Ha2, Ha1, map_map. apply map_ext. intros a.
    destruct (named u a) eqn:Hu; [|by rewrite Hu]. unfold named in *.
    destruct (Hf a) as [_ ->]. by rewrite Hu.
  - intros a. destruct (Hf a), (Hg (f a)). split; congruence.
Qed.

Lemma updates_named u f d : keeps_identity f -> updates u f d (update_accounts d (named u) f).
Proof. by split. Qed.

Lemma updates_with_id u f d before :
  accounts_ok (accounts d) (next_user d) -> before ∈ accounts d -> acc_name before = u ->
  keeps_identity f -> updates u f d (update_accounts d (Accounts.with_id (acc_id before)) f).
Proof.
  intros Hok Hb <- Hf. split; [|done|done]. simpl. symmetry. by eapply update_named.
Qed.

(** What is changed neither for sign-in nor for administration. *)
Definition mild (f : account -> account) : Prop :=
  forall a, Enabled (f a) = Enabled a /\ FailedAttempts (f a) = FailedAttempts a /\
    acc_superuser (f a) = acc_superuser a.

Lemma other_accounts l next before f a :
  accounts_ok l next -> before ∈ l ->
  keeps_identity f ->
  a ∈ map (fun a => if named (acc_name before) a then f a else a) l ->
  acc_id a <> acc_id before -> a ∈ l.
Proof.
  intros Hok Hb Hf Ha Hne. apply list_elem_of_In, in_map_iff in Ha as (b & Heq & Hin).
  apply list_elem_of_In in Hin. unfold named in Heq.
  destruct (String.eqb_spec (acc_name b) (acc_name before)) as [Hn|_]; [|by subst].
  rewrite (same_name _ _ _ _ Hok Hin Hb Hn) in Heq. subst a. by destruct (Hf before).
Qed.

Lemma updates_changed reopened u f d d' before :
  accounts_ok (accounts d) (next_user d) -> before ∈ accounts d -> acc_name before = u ->
  updates u f d d' ->
  (reopened = Some u /\ (0 <= FailedAttempts before -> 0 <= FailedAttempts (f before)) \/
   (Enabled (f before) = true -> Enabled before = true) /\
     FailedAttempts before <= FailedAttempts (f before)) ->
  (admin before = true -> admin (f before) = true \/
     exists a, a ∈ accounts d' /\ admin a = true /\ acc_id a <> acc_id before) ->
  changed reopened (accounts d) (next_user d) (accounts d') (next_user d').
Proof.
  intros Hok Hb Hu [Ha Hn Hf] Hcalm Hguard. rewrite Hn, Ha. subst u.
  rewrite (update_named _ _ _ f Hok Hb). apply altered; [done..|].
  intros Hadm. destruct (Hguard Hadm) as [?|(a & Hin & Hadm' & Hne)]; [by left|right].
  exists a. split_and!; [|done|done]. rewrite Ha in Hin. by eapply other_accounts.
Qed.

Lemma mild_changed reopened u f d d' before :
  accounts_ok (accounts d) (next_user d) -> before ∈ accounts d -> acc_name before = u ->
  updates u f d d' -> mild f ->
  changed reopened (accounts d) (next_user d) (accounts d') (next_user d').
Proof.
  intros Hok Hb Hu Hup Hm. destruct (Hm before) as (He & Hfa & Hs).
  eapply updates_changed; [done..| |].
  - right. rewrite He, Hfa. done.
  - intros Hadm. left. unfold admin in *. by rewrite Hs, He.
Qed.

(** The count of the other enabled superusers was not zero. *)
Lemma counted_others flt fn d before :
  (rbind (try flt fn 20 (length (List.filter (fun a =>
      acc_superuser a && Enabled a && negb (acc_id a =? acc_id before)) (accounts d))))
     (fun others => if (others =? 0)%nat then Err ErrLastSuperuser else Ok tt)) = Ok tt ->
  exists a, a ∈ accounts d /\ admin a = true /\ acc_id a <> acc_id before.
Proof.
  intros (n & Hn & Hg)%rbind_Ok. apply try_Ok in Hn.
  destruct (List.filter _ _) as [|a l] eqn:Hf; [subst; done|].
  assert (In a (a :: l)) as Hin by by left. rewrite <- Hf in Hin.
  apply filter_In in Hin as [Hin Hp]. exists a. rewrite list_elem_of_In.
  apply andb_prop in Hp as [Hadm Hne%negb_true_iff]. by apply Z.eqb_neq in Hne.
Qed.

Lemma guard_Ok flt fn d before after :
  guardLastSuperuserTx flt fn d before after false = Ok tt -> admin before = true ->
  admin after = true \/ exists a, a ∈ accounts d /\ admin a = true /\ acc_id a <> acc_id before.
Proof.
  unfold guardLastSuperuserTx, admin at 1 2. intros Hg [Hs He]%andb_prop. rewrite Hs, He in Hg.
  cbn [negb orb andb] in Hg. destruct (acc_superuser after && Enabled after); [by left|right].
  by eapply counted_others.
Qed.

Lemma guard_deleting flt fn d before :
  guardLastSuperuserTx flt fn d before before true = Ok tt -> admin before = true ->
  exists a, a ∈ accounts d /\ admin a = true /\ acc_id a <> acc_id before.
Proof.
  unfold guardLastSuperuserTx, admin at 1. intros Hg [Hs He]%andb_prop. rewrite Hs, He in Hg.
  cbn [negb orb andb] in Hg. by eapply counted_others.
Qed.

(** ** The operations *)

Definition op_changed {A} (reopened : option string) (d : store_db)
    (x : store_db * result A) : Prop :=
  changed (if is_ok (snd x) then reopened else None) (accounts d) (next_user d)
    (accounts (fst x)) (next_user (fst x)).

(** What a transaction's body does, it does if it returns. *)
Lemma transaction_changed {A} reopened flt fn action target d
    (body : result (store_db * list Z * A)) :
  (forall d' ids a, body = Ok (d', ids, a) ->
     changed reopened (accounts d) (next_user d) (accounts d') (next_user d')) ->
  op_changed reopened d (transaction flt fn action target d body).
Proof.
  intros Hbody. unfold op_changed. destruct (transaction _ _ _ _ _ _) as [d' r] eqn:Ht. simpl.
  apply transaction_inv in Ht as [(e & -> & Ha & Hn)|(d'' & ids & a & Hb & -> & Ha & Hn)].
  - rewrite Ha, Hn. apply left_alone.
  - rewrite Ha, Hn. by eapply Hbody.
Qed.

Section Operations.
Context `{Credentials} `{Affinity} `{Surroundings} (cfg : settings).

Lemma insertUserAudited_changed flt fn action d a :
  (forall a', a = Ok a' -> acc_id a' = next_user d /\ FailedAttempts a' = 0) ->
  op_changed (match a with Ok a => Some (acc_name a) | Err _ => None end) d
    (insertUserAudited flt fn action d a).
Proof.
  intros Ha. apply transaction_changed. intros d' ids x Hb.
  apply rbind_Ok in Hb as (a' & -> & Hb). destruct (Ha a' eq_refl) as [Hid Hfa].
  apply rbind_Ok in Hb as (d1 & Hins & Hb). apply rbind_Ok in Hb as (after & _ & [= <- _]).
  unfold insert_account in Hins. apply rbind_Ok in Hins as ([] & _ & Hins).
  destruct (find_account d (acc_name a')) eqn:Hf; [done|]. injection Hins as <-. simpl.
  apply added; [done| |done|done]. intros Hin. apply list_elem_of_In, in_map_iff in Hin as (b & Hn & Hin).
  unfold find_account in Hf. apply (find_none _ _ Hf) in Hin. simpl in Hin.
  by rewrite Hn, String.eqb_refl in Hin.
Qed.

Lemma hash_and_write_updates n flt fn d u pw d' :
  hash_and_write n flt fn d u pw = Ok d' -> exists f, updates u f d d' /\ mild f.
Proof.
  unfold hash_and_write. destruct (GenerateFromPassword n pw) as [h|]; [|done].
  unfold writePasswordHashLocked. intros ([] & _ & Hd)%rbind_Ok. destruct (existsb _ _).
  - injection Hd as <-.
    exists (fun a => if String.eqb (AuthSource a) AuthSourceLocal then set_password h a else a).
    split; [split; [|done|]|].
    + simpl. apply map_ext. intros a. destruct (named u a); [|done]. simpl.
      by destruct (String.eqb _ _).
    + intros a. by destruct (String.eqb _ _).
    + intros a. by destruct (String.eqb _ _).
  - apply rbind_Ok in Hd as ([a|] & _ & Hd); [done|]. injection Hd as <-. exists id.
    split; [apply updates_id|done].
Qed.

Lemma same_changed {A} reopened d d' (r : result A) :
  same_accounts d d' -> op_changed reopened d (d', r).
Proof. intros [Ha Hn]. unfold op_changed. simpl. rewrite Ha, Hn. apply left_alone. Qed.

Lemma updateUser_changed n flt d u pw an dn em :
  accounts_ok (accounts d) (next_user d) ->
  op_changed None d (updateUser n flt d u pw an dn em).
Proof.
  intros Hok. unfold updateUser. destruct (_ && _); [by apply same_changed|].
  apply transaction_changed. intros d' ids x (before & Hb & Hd)%rbind_Ok.
  apply userSnapshotTx_Ok in Hb as [Hin Hname]. apply rbind_Ok in Hd as (d1 & Hd1 & Hd).
  apply rbind_Ok in Hd as ([] & _ & [= <- _]).
  assert (exists f, updates u f d d1 /\ mild f) as (f & Hf & Hm).
  { destruct (String.eqb pw ""); [|by eapply hash_and_write_updates].
    injection Hd1 as <-. exists id. split; [apply updates_id|done]. }
  eapply mild_changed; [done..|eapply updates_trans; [exact Hf|by apply updates_named]|].
  intros a. apply Hm.
Qed.

Lemma updateUserField_changed flt d u c v :
  accounts_ok (accounts d) (next_user d) ->
  op_changed None d (updateUserField flt d u c v).
Proof.
  intros Hok. apply transaction_changed. intros d' ids x (before & Hb & Hd)%rbind_Ok.
  apply userSnapshotTx_Ok in Hb as [Hin Hname]. apply rbind_Ok in Hd as ([] & _ & [= <- _]).
  eapply mild_changed; [done..|apply updates_named|]; intros a; by destruct c.
Qed.

Lemma setUserEnabled_changed flt d u (b : bool) :
  accounts_ok (accounts d) (next_user d) ->
  op_changed (if b then Some u else None) d (setUserEnabled flt d u b).
Proof.
  intros Hok. apply transaction_changed. intros d' ids x (before & Hb & Hd)%rbind_Ok.
  apply userSnapshotTx_Ok in Hb as [Hin Hname]. apply rbind_Ok in Hd as ([] & _ & Hd).
  apply rbind_Ok in Hd as ([] & Hg & [= <- _]).
  eapply updates_changed; [done..|by apply updates_with_id; [..|intros a; destruct b]| |].
  - destruct b; [by left|by right].
  - intros Hadm. destruct (guard_Ok _ _ _ _ _ Hg Hadm) as [Ha|Ha]; [left|by right].
    by destruct b.
Qed.

Lemma setUserSuperuser_changed flt d u b :
  accounts_ok (accounts d) (next_user d) ->
  op_changed None d (setUserSuperuser flt d u b).
Proof.
  intros Hok. apply transaction_changed. intros d' ids x (before & Hb & Hd)%rbind_Ok.
  apply userSnapshotTx_Ok in Hb as [Hin Hname]. apply rbind_Ok in Hd as ([] & _ & Hd).
  apply rbind_Ok in Hd as ([] & Hg & [= <- _]).
  eapply updates_changed; [done..|by apply updates_with_id| |].
  - by right.
  - intros Hadm. by destruct (guard_Ok _ _ _ _ _ Hg Hadm) as [Ha|Ha]; [left|right].
Qed.

(** [after] is what the row becomes. *)
Lemma applyUserUpdatesTx_updates n flt fn d u upd before d' after :
  applyUserUpdatesTx n flt fn d u upd before = Ok (d', after) ->
  exists f, updates u f d d' /\
    (forall a, FailedAttempts (f a) = FailedAttempts a /\
       Enabled (f a) = default (Enabled a) (upd_Enabled upd) /\
       acc_superuser (f a) = default (acc_superuser a) (upd_IsSuperuser upd)) /\
    Enabled after = default (Enabled before) (upd_Enabled upd) /\
    acc_superuser after = default (acc_superuser before) (upd_IsSuperuser upd).
Proof.
  unfold applyUserUpdatesTx. intros (d1 & Hpw & Hd)%rbind_Ok.
  assert (exists f, updates u f d d1 /\ mild f) as (f1 & Hf1 & Hm1).
  { unfold applyUserPasswordTx in Hpw. destruct (upd_Password upd) as [p|].
    - destruct (String.eqb p ""); [injection Hpw as <-; exists id; split; [apply updates_id|done]|].
      destruct (negb _); [done|]. by eapply hash_and_write_updates.
    - injection Hpw as <-. exists id. split; [apply updates_id|done]. }
  apply rbind_Ok in Hd as ([d2 after2] & Hprof & Hd).
  assert (exists f, updates u f d1 d2 /\ mild f /\ Enabled after2 = Enabled before /\
            acc_superuser after2 = acc_superuser before) as (f2 & Hf2 & Hm2 & He2 & Hs2).
  { unfold applyUserProfileTx in Hprof.
    destruct (upd_Annotation upd), (upd_DisplayName upd), (upd_Email upd);
      try (apply rbind_Ok in Hprof as ([] & _ & Hprof));
      injection Hprof as <- <-;
      (eexists; split; [first [by apply updates_named|apply updates_id]|by split_and!]). }
  unfold applyUserFlagsTx in Hd. apply rbind_Ok in Hd as ([d3 after3] & Hen & Hd).
  assert (exists f, updates u f d2 d3 /\ (forall a, FailedAttempts (f a) = FailedAttempts a /\
            Enabled (f a) = default (Enabled a) (upd_Enabled upd) /\
            acc_superuser (f a) = acc_superuser a) /\
            Enabled after3 = default (Enabled before) (upd_Enabled upd) /\
            acc_superuser after3 = acc_superuser before) as (f3 & Hf3 & Hm3 & He3 & Hs3).
  { destruct (upd_Enabled upd) as [b|]; [apply rbind_Ok in Hen as ([] & _ & Hen)|];
      injection Hen as <- <-;
      (eexists; split; [first [by apply updates_named|apply updates_id]|by split_and!]). }
  assert (exists f, updates u f d3 d' /\ (forall a, FailedAttempts (f a) = FailedAttempts a /\
            Enabled (f a) = Enabled a /\
            acc_superuser (f a) = default (acc_superuser a) (upd_IsSuperuser upd)) /\
            Enabled after = Enabled after3 /\
            acc_superuser after = default (acc_superuser before) (upd_IsSuperuser upd))
    as (f4 & Hf4 & Hm4 & He4 & Hs4).
  { destruct (upd_IsSuperuser upd) as [b|]; [apply rbind_Ok in Hd as ([] & _ & Hd)|];
      injection Hd as <- <-;
      (eexists; split; [first [by apply updates_named|apply updates_id]|by split_and!]). }
  exists (fun a => f4 (f3 (f2 (f1 a)))). split_and!; [by eauto using updates_trans| |congruence|done].
  intros a. destruct (Hm1 a) as (? & ? & ?), (Hm2 (f1 a)) as (? & ? & ?),
    (Hm3 (f2 (f1 a))) as (? & ? & ?), (Hm4 (f3 (f2 (f1 a)))) as (? & ? & ?).
  split_and!; destruct (upd_Enabled upd), (upd_IsSuperuser upd); simpl in *; congruence.
Qed.

Lemma updateUserAtomic_changed n flt d u upd caller :
  accounts_ok (accounts d) (next_user d) ->
  op_changed (if default false (upd_Enabled upd) then Some u else None) d
    (updateUserAtomic n flt d u upd caller).
Proof.
  intros Hok. apply transaction_changed. intros d' ids x (before & Hb & Hd)%rbind_Ok.
  apply userSnapshotTx_Ok in Hb as [Hin Hname]. apply rbind_Ok in Hd as ([] & _ & Hd).
  apply rbind_Ok in Hd as ([d1 after] & Hup & Hd). apply rbind_Ok in Hd as ([] & Hg & [= <- _]).
  apply applyUserUpdatesTx_updates in Hup as (f & Hf & Hm & He & Hs).
  destruct (Hm before) as (Hfa & Hen & Hsu).
  eapply updates_changed; [done..| |].
  - rewrite Hfa, Hen. destruct (upd_Enabled upd) as [[]|]; [by left|by right..].
  - intros Hadm. destruct (guard_Ok _ _ _ _ _ Hg Hadm) as [Ha|Ha]; [left|by right].
    unfold admin in *. congruence.
Qed.

Lemma deleteUserDependentsTx_accounts flt fn d id d' :
  deleteUserDependentsTx flt fn d id = Ok d' -> same_accounts d d'.
Proof.
  unfold deleteUserDependentsTx.
  repeat (intros ([] & _ & Hd)%rbind_Ok; revert Hd). by intros [= <-].
Qed.

Lemma deleteUser_changed flt d u caller :
  accounts_ok (accounts d) (next_user d) -> op_changed None d (deleteUser flt d u caller).
Proof.
  intros Hok. apply transaction_changed. intros d' ids x (before & Hb & Hd)%rbind_Ok.
  apply userSnapshotTx_Ok in Hb as [Hin Hname]. apply rbind_Ok in Hd as ([] & _ & Hd).
  apply rbind_Ok in Hd as ([] & _ & Hd). apply rbind_Ok in Hd as ([] & Hg & Hd).
  apply rbind_Ok in Hd as (d1 & Hd1 & Hd). apply deleteUserDependentsTx_accounts in Hd1 as [Ha Hn].
  apply rbind_Ok in Hd as (d2 & Hd2 & [= <- _]). unfold deleteUserRowTx in Hd2.
  apply rbind_Ok in Hd2 as ([] & _ & Hd2). destruct (existsb _ _); [|done]. injection Hd2 as <-.
  simpl. rewrite Ha, Hn. apply removed; [done|]. by eapply guard_deleting.
Qed.

Lemma ResetFailedAttempts_changed flt d u :
  accounts_ok (accounts d) (next_user d) ->
  op_changed (Some u) d (ResetFailedAttempts flt d u).
Proof.
  intros Hok. unfold ResetFailedAttempts. destruct (try _ _ _ _) as [[]|]; [|by apply same_changed].
  unfold op_changed. simpl.
  destruct (find_account d u) as [before|] eqn:Hf.
  - apply find_account_In in Hf as [Hin Hname].
    change (changed (Some u) (accounts d) (next_user d)
      (accounts (update_accounts d (named u) (set_attempts 0)))
      (next_user (update_accounts d (named u) (set_attempts 0)))).
    eapply updates_changed; [done..|by apply updates_named|by left|by left].
  - replace (map _ (accounts d)) with (accounts d); [apply left_alone|].
    rewrite <- (map_id (accounts d)) at 1. apply map_ext_in. intros a Ha.
    apply (find_none _ _ Hf) in Ha. unfold named. by rewrite Ha.
Qed.

(** The operations on tokens leave the accounts. *)
Lemma createToken_accounts flt allowed t raw d u an e caller owner :
  same_accounts d (fst (createToken cfg flt allowed t raw d u an e caller owner)).
Proof.
  destruct (createToken _ _ _ _ _ _ _ _ _ _ _) as [d' r] eqn:Ht.
  apply transaction_inv in Ht as [(e' & _ & Hs)|(d'' & ids & x & Hb & _ & Ha & Hn)]; [done|].
  apply rbind_Ok in Hb as (user & _ & Hb).
  destruct (acc_superuser user && _); [done|].
  destruct (match owner with AnyTokenOwner => _ | TokensOwnedBy _ => _ end); [done|].
  destruct (negb _); [done|]. destruct raw as [raw|]; [|done].
  apply rbind_Ok in Hb as ([] & _ & Hb). destruct (existsb _ _); [done|].
  injection Hb as <- _ _. done.
Qed.

Lemma deleteTokensByFilter_accounts flt fn d p allowed d' r :
  deleteTokensByFilter flt fn d p allowed = Some (d', r) -> same_accounts d d'.
Proof.
  unfold deleteTokensByFilter. destruct (flt _ _ _); [by intros [= <- _]|].
  destruct (try _ _ _ _) as [[|k ks]|e]; [done| |by intros [= <- _]].
  intros [= Ht]. apply transaction_inv in Ht as [(e' & _ & Hs)|(d'' & ids & x & Hb & _ & Ha & Hn)]; [done|].
  apply rbind_Ok in Hb as ([] & _ & Hb). apply rbind_Ok in Hb as ([] & _ & Hb).
  apply rbind_Ok in Hb as (d1 & Hd1 & Hb). apply rbind_Ok in Hb as ([] & _ & [= <- _]).
  unfold deleteTokenDependentsTx in Hd1. apply rbind_Ok in Hd1 as ([] & _ & [= <-]). done.
Qed.

Lemma deleteToken_accounts flt d ident allowed :
  same_accounts d (fst (deleteToken flt d ident allowed)).
Proof.
  unfold deleteToken.
  destruct (deleteTokensByFilter _ _ _ _ _) as [[d1 r1]|] eqn:E1;
    [by eapply deleteTokensByFilter_accounts|].
  destruct (8 <=? _)%nat; [|simpl; by destruct (ParseInt ident)].
  destruct (deleteTokensByFilter _ "deleteTokenPrefix" _ _ _) as [[d2 r2]|] eqn:E2;
    [by eapply deleteTokensByFilter_accounts|]. simpl. by destruct (ParseInt ident).
Qed.

Lemma run_op_changed i n op d :
  accounts_ok (accounts d) (next_user d) ->
  op_changed (reopens op) d (run_op cfg i n op d).
Proof.
  intros Hok.
  assert (forall A (x : store_db * result A) o, same_accounts d (fst x) -> op_changed o d x) as Hsame.
  { intros A [d' r] o Hs. by apply same_changed. }
  destruct op; cbn [run_op reopens].
  - unfold createUser. destruct (_ || _); [by apply same_changed|].
    destruct (GenerateFromPassword n password) as [h|].
    + exact (insertUserAudited_changed _ _ _ d (Ok (new_account d _ _ _ _ _ _))
        ltac:(by intros a' [= <-])).
    + destruct (insertUserAudited _ _ _ _ _) as [d' r] eqn:Ht.
      apply transaction_inv in Ht as [(e' & _ & Hs)|(d'' & ids & x & Hb & _)]; [by apply same_changed|done].
  - unfold createServiceAccount. destruct (negb _); [by apply same_changed|].
    exact (insertUserAudited_changed _ _ _ d (Ok (new_account d _ _ _ _ _ _))
      ltac:(by intros a' [= <-])).
  - by apply updateUser_changed.
  - by apply updateUserAtomic_changed.
  - by apply updateUserField_changed.
  - by apply setUserEnabled_changed.
  - by apply setUserSuperuser_changed.
  - by apply ResetFailedAttempts_changed.
  - by apply deleteUser_changed.
  - apply Hsame. apply createToken_accounts.
  - apply Hsame. apply deleteToken_accounts.
  - apply Hsame. unfold CleanupExpiredTokens. simpl. repeat case_match; done.
  - apply Hsame. unfold SetConnectionSession. by destruct (try _ _ _ _).
  - apply Hsame. unfold ClearConnectionSession. by destruct (try _ _ _ _).
  - apply Hsame. unfold ClearAllConnectionSessions. by destruct (try _ _ _ _).
Qed.
End Operations.
