(* ===== verification/AccountSafety.v ===== *)
(** * Lockout, and the last superuser

    What holds of the accounts is kept by each step that changes them, so
    nothing has to be known of the other goroutines: an invariant of the
    accounts that the operations keep, every run of the server keeps. *)
From stdpp Require Import base list strings gmap.
From S2P Require Import Prelude GoStrings AuthStore TokenScope Accounts Threads Sessions SessionMint AccountOps.

Local Open Scope Z_scope.
Local Open Scope list_scope.

(** The event of an operation that makes an account ready again. *)
Definition told (reopened : option string) : list event :=
  match reopened with Some u => [Reopened u] | None => [] end.

(** Events that say nothing of attempts to sign in. *)
Definition calm (e : event) : Prop :=
  match e with Guessed _ _ | Reopened _ => False | _ => True end.

Section Keeps.
Context `{Credentials} `{Affinity} `{Surroundings} (cfg : settings).
Context (J : list account -> Z -> list event -> Prop).
Context (J_calm : forall l next log e, calm e -> J l next log -> J l next (log ++ [e])).
Context (J_ids : forall l next log, J l next log -> accounts_ok l next).
Context (J_changed : forall o l next l' next' log,
  J l next log -> changed o l next l' next' -> J l' next' (log ++ told o)).

Definition invariant (s : server) : Prop :=
  J (accounts (store s)) (next_user (store s)) (log s).

(** Programs all of whose steps keep it. *)
Definition keeps {A} (p : prog server A) : Prop :=
  forall i s, wp invariant (fun _ _ _ => True) (fun _ _ _ => True) i p (fun _ _ => True) s.

Lemma keeps_Done {A} (a : A) : keeps (Done a).
Proof. done. Qed.

Lemma keeps_pbind {A B} (p : prog server A) (f : A -> prog server B) :
  keeps p -> (forall a, keeps (f a)) -> keeps (pbind p f).
Proof.
  intros Hp Hf i s. apply wp_pbind. eapply wp_weaken; [|apply Hp]. intros a s' _. apply Hf.
Qed.

Lemma keeps_each {A} (l : list A) body : (forall x, keeps (body x)) -> keeps (each l body).
Proof. intros Hb. induction l as [|x l IH]; [apply keeps_Done|by apply keeps_pbind]. Qed.

Lemma keeps_step {A} (f : nat -> server -> A * server) :
  (forall n s, invariant s -> invariant (snd (f n (next_tick s)))) -> keeps (step f).
Proof. intros Hf i s s' _ HI _. split_and!; [by apply Hf|done|done]. Qed.

Lemma keeps_reading {A} (f : nat -> server -> A * server) :
  (forall n s, invariant s -> invariant (snd (f n (next_tick s)))) -> keeps (reading f).
Proof. intros Hf i s s' _ HI _. split_and!; [by apply Hf|done|done]. Qed.

(** Steps that leave the tables, and tell of nothing that matters. *)
Lemma keeps_quietly {A} (f : nat -> server -> A * server) :
  (forall n s, store (snd (f n s)) = store s) ->
  (forall n s, log (snd (f n s)) = log s \/ exists e, log (snd (f n s)) = log s ++ [e] /\ calm e) ->
  keeps (step f) /\ keeps (reading f).
Proof.
  intros Hs Hl.
  assert (forall n s, invariant s -> invariant (snd (f n (next_tick s)))) as Hf.
  { intros n s HI. unfold invariant. rewrite Hs.
    destruct (Hl n (next_tick s)) as [->|(e & -> & He)]; [done|by apply J_calm]. }
  split; [by apply keeps_step|by apply keeps_reading].
Qed.

Lemma keeps_Lock i : keeps (Lock i).
Proof. by intros j s s' _ HI _. Qed.

Lemma keeps_Unlock : keeps Unlock.
Proof. by intros j s s' _ HI _. Qed.

Lemma keeps_LockFed i f : keeps (LockFed i f).
Proof. by intros j s s' _ HI _. Qed.

Lemma keeps_UnlockFed f : keeps (UnlockFed f).
Proof. by intros j s s' _ HI _. Qed.

Ltac quietly :=
  apply keeps_quietly; intros ? ?; cbn [snd]; repeat case_match; cbn;
  first [done|by left|right; by eexists].

Lemma keeps_Load h : keeps (Load h).
Proof. quietly. Qed.
Lemma keeps_Delete h : keeps (Delete h).
Proof. quietly. Qed.
Lemma keeps_CompareAndDelete h p : keeps (CompareAndDelete h p).
Proof. quietly. Qed.
Lemma keeps_CompareAndSwap h p session : keeps (CompareAndSwap h p session).
Proof. quietly. Qed.
Lemma keeps_Store h session u t : keeps (Store h session (Minted h u t)).
Proof. quietly. Qed.
Lemma keeps_Range : keeps Range.
Proof. quietly. Qed.
Lemma keeps_clock i : keeps (clock i).
Proof. quietly. Qed.
Lemma keeps_new_fed token t : keeps (new_fed token t).
Proof. quietly. Qed.
Lemma keeps_present f token : keeps (present f token).
Proof. quietly. Qed.
Lemma keeps_answer f u token : keeps (answer f u token).
Proof. quietly. Qed.
Lemma keeps_GetUser i u : keeps (GetUser i u).
Proof. quietly. Qed.
Lemma keeps_GetUserByID i id : keeps (GetUserByID i id).
Proof. quietly. Qed.
Lemma keeps_ServeHTTP i path token ctx : keeps (ServeHTTP i path token ctx).
Proof. quietly. Qed.

Create HintDb keeps.
Hint Resolve keeps_Done keeps_each keeps_Lock keeps_Unlock keeps_LockFed keeps_UnlockFed
  keeps_Load keeps_Delete keeps_CompareAndDelete keeps_CompareAndSwap keeps_Store keeps_Range
  keeps_clock keeps_new_fed keeps_present keeps_answer keeps_GetUser keeps_GetUserByID
  keeps_ServeHTTP : keeps.

(** Programs made of such steps. *)
Ltac keep :=
  repeat first
    [ progress intros | apply keeps_pbind | solve [eauto with keeps] | case_match; subst
    | progress cbv zeta ].

Lemma keeps_InvalidateUserSessions u : keeps (InvalidateUserSessions u).
Proof.
  unfold InvalidateUserSessions. apply keeps_pbind; [auto with keeps|]. intros keys.
  apply keeps_pbind; [|intros _; quietly]. apply keeps_each. intros h. unfold delete_if_of. keep.
Qed.

Lemma keeps_sessions_of u keys : keeps (sessions_of u keys).
Proof. induction keys as [|h keys IH]; cbn [sessions_of]; keep. Qed.

Lemma keeps_evict mine : keeps (evict mine).
Proof. unfold evict. keep. Qed.

(** The attempts of an account are forgotten, and no other account is. *)
Lemma reset_changed d id t :
  accounts_ok (accounts d) (next_user d) ->
  changed (acc_name <$> account_by_id d id) (accounts d) (next_user d)
    (accounts (update_accounts d (Accounts.with_id id) (logged_in t))) (next_user d).
Proof.
  intros Hok. destruct (account_by_id d id) as [a|] eqn:Ha; simpl.
  - apply find_some in Ha as [Hin <-%Z.eqb_eq]. apply list_elem_of_In in Hin.
    apply altered; [done|by intros b|by left|by left].
  - replace (map _ _) with (accounts d); [apply left_alone|].
    rewrite <- (map_id (accounts d)) at 1. apply map_ext_in. intros b Hb.
    apply (find_none _ _ Ha) in Hb. unfold Accounts.with_id. by rewrite Hb.
Qed.

Lemma keeps_createSessionForUserLocked i u id : keeps (createSessionForUserLocked i u id).
Proof.
  unfold createSessionForUserLocked. destruct (random i); [|auto with keeps].
  apply keeps_pbind; [auto with keeps|]. intros t. cbv zeta.
  apply keeps_pbind; [auto with keeps|]. intros keys.
  apply keeps_pbind; [apply keeps_sessions_of|]. intros mine.
  apply keeps_pbind; [apply keeps_evict|]. intros _.
  apply keeps_pbind; [auto with keeps|]. intros _.
  apply keeps_pbind; [|auto with keeps]. apply keeps_step. intros n s' HI. cbn [snd].
  destruct (try _ _ _ _); [|done]. unfold invariant.
  pose proof (J_changed _ _ _ _ _ _ HI (reset_changed _ id (now n) (J_ids _ _ _ HI))) as HJ.
  unfold tell_reset. simpl. destruct (account_by_id (store s') id); simpl in *; [done|].
  by rewrite app_nil_r in HJ.
Qed.

Lemma keeps_CreateSessionForUser i u : keeps (CreateSessionForUser i u).
Proof.
  unfold CreateSessionForUser. apply keeps_pbind; [auto with keeps|]. intros _.
  apply keeps_pbind; [quietly|]. intros user.
  apply keeps_pbind; [|keep]. repeat case_match; auto with keeps.
  apply keeps_createSessionForUserLocked.
Qed.

Lemma keeps_CreateFederatedSession i u token t : keeps (CreateFederatedSession i u token t).
Proof.
  unfold CreateFederatedSession. apply keeps_pbind; [auto with keeps|]. intros t0.
  destruct (t <=? t0); [auto with keeps|]. cbv zeta.
  apply keeps_pbind; [apply keeps_CreateSessionForUser|]. keep.
Qed.

Lemma keeps_redeem i h f p current fs : keeps (redeem i h f p current fs).
Proof. unfold redeem, endFederatedSession. keep. Qed.

Lemma keeps_refreshFederatedSession i h p session : keeps (refreshFederatedSession i h p session).
Proof.
  unfold refreshFederatedSession, endFederatedSession. case_match; [|keep].
  apply keeps_pbind; [auto with keeps|]. intros _. apply keeps_pbind; [|keep].
  unfold refresh_locked, loadFederatedSession, endFederatedSession.
  apply keeps_pbind; [keep|]. intros [[q current]|]; [|auto with keeps].
  apply keeps_pbind; [auto with keeps|]. intros t. case_match; [auto with keeps|].
  apply keeps_pbind; [quietly|]. intros configured. apply keeps_pbind; [auto with keeps|]. intros t1.
  apply keeps_pbind; [quietly|]. intros [fs|]; [|auto with keeps].
  case_match; [keep|apply keeps_redeem].
Qed.

Lemma keeps_ValidateSessionToken i token : keeps (ValidateSessionToken i token).
Proof.
  unfold ValidateSessionToken, check_session_user. apply keeps_pbind; [auto with keeps|].
  intros [[p session]|]; [|auto with keeps]. apply keeps_pbind; [auto with keeps|]. intros t.
  case_match; [keep|]. apply keeps_pbind; [apply keeps_refreshFederatedSession|keep].
Qed.

Lemma keeps_ValidateToken i raw : keeps (ValidateToken i raw).
Proof.
  unfold ValidateToken. apply keeps_pbind; [quietly|]. intros [r refused].
  repeat case_match; auto with keeps. apply keeps_pbind; [|auto with keeps].
  apply keeps_reading. intros n s' HI. cbn [snd]. destruct (record_events _ _ _ _ _) as [d|] eqn:Hr; [|done].
  apply record_events_accounts in Hr as [Ha Hn]. unfold invariant. simpl in *. by rewrite Ha, Hn.
Qed.

Lemma keeps_AuthMiddleware i path r : keeps (AuthMiddleware true i path r).
Proof.
  unfold AuthMiddleware. simpl negb. cbv iota. case_match; [auto with keeps|].
  apply keeps_pbind; [|keep]. unfold AuthenticateRequest. case_match; [auto with keeps|].
  apply keeps_pbind; [apply keeps_ValidateToken|].
  assert (keeps (session_context i (ExtractBearerToken r))) as Hs.
  { unfold session_context. apply keeps_pbind; [apply keeps_ValidateSessionToken|]. keep. }
  intros [k|[]]; auto with keeps. unfold token_context. keep.
Qed.

Lemma keeps_sweepExpiredSessions i keys : keeps (sweepExpiredSessions i keys).
Proof.
  unfold sweepExpiredSessions. apply keeps_pbind; [auto with keeps|]. intros t.
  apply keeps_each. intros h. apply keeps_pbind; [auto with keeps|].
  intros [[p session]|]; [|auto with keeps]. case_match; [auto with keeps|].
  apply keeps_pbind; [quietly|keep].
Qed.

Lemma keeps_change_accounts i op : keeps (change_accounts cfg i op).
Proof.
  unfold change_accounts. apply keeps_pbind; [auto with keeps|]. intros _.
  apply keeps_pbind.
  - apply keeps_step. intros n s' HI. unfold invariant.
    pose proof (run_op_changed cfg i n op (store s') (J_ids _ _ _ HI)) as Hc.
    unfold op_changed in Hc. simpl. destruct (run_op cfg i n op (store s')) as [d r]. simpl in *.
    pose proof (J_changed _ _ _ _ _ _ HI Hc) as HJ. destruct (is_ok r); simpl in *;
      [|by rewrite app_nil_r in HJ].
    unfold tell_reopened. destruct (reopens op); simpl in *; [done|by rewrite app_nil_r in HJ].
  - intros r. apply keeps_pbind; [|auto with keeps]. repeat case_match; auto with keeps.
    apply keeps_InvalidateUserSessions.
Qed.

(** What is asked of sign-in, and of the uses of the store of other files. *)
Definition harmless (r : request) : Prop :=
  match r with
  | Login u pw => forall n s, invariant s -> invariant (snd (check_password cfg u pw n (next_tick s)))
  | Elsewhere f _ => forall d, same_accounts d (f d)
  | _ => True
  end.

Lemma keeps_serve i r : harmless r -> keeps (serve cfg i r).
Proof.
  intros Hr. unfold serve. apply keeps_pbind; [quietly|]. intros _. destruct r; simpl in Hr.
  - apply keeps_AuthMiddleware.
  - apply keeps_pbind; [|auto with keeps]. unfold AuthenticateUser.
    apply keeps_pbind; [auto with keeps|]. intros _. apply keeps_pbind; [by apply keeps_step|].
    intros checked. apply keeps_pbind; [|keep]. destruct checked as [a|[]|e]; auto with keeps.
    + apply keeps_createSessionForUserLocked.
    + apply keeps_pbind; [apply keeps_InvalidateUserSessions|auto with keeps].
  - apply keeps_pbind; [apply keeps_CreateFederatedSession|auto with keeps].
  - unfold InvalidateSession. auto with keeps.
  - apply keeps_sweepExpiredSessions.
  - apply keeps_change_accounts.
  - apply keeps_pbind; [auto with keeps|]. intros _. apply keeps_pbind.
    + apply keeps_step. intros n s' HI. unfold invariant. simpl. by destruct (Hr (store s')) as [-> ->].
    + intros _. apply keeps_pbind; [|auto with keeps]. case_match; [|auto with keeps].
      apply keeps_InvalidateUserSessions.
Qed.

Lemma run_server_invariant requests schedule d :
  Forall harmless requests -> J (accounts d) (next_user d) [] ->
  invariant (run_server cfg requests schedule d).
Proof.
  intros Hreq HJ. unfold run_server.
  apply (pool_invariant invariant (fun _ _ _ => True) (fun _ _ _ => True)); [by split|done|].
  intros i p s Hp. rewrite list_lookup_imap in Hp. apply fmap_Some in Hp as (r & Hr & ->).
  apply keeps_serve. eapply Forall_lookup_1; done.
Qed.
End Keeps.

(** ** Accounts stay well-formed *)

Lemma map_identity (p : account -> bool) f (l : list account) :
  keeps_identity f ->
  map acc_name (map (fun a => if p a then f a else a) l) = map acc_name l /\
  map acc_id (map (fun a => if p a then f a else a) l) = map acc_id l.
Proof.
  intros Hf. rewrite !map_map. split; apply map_ext; intros a; destruct (p a); by destruct (Hf a).
Qed.

Lemma NoDup_map_kept {A B} (f : A -> B) (p : A -> bool) (l : list A) :
  NoDup (map f l) -> NoDup (map f (List.filter p l)).
Proof.
  induction l as [|x l IH]; simpl; [done|]. intros [Hx Hl]%NoDup_cons.
  destruct (p x); simpl; [|auto]. apply NoDup_cons. split; [|auto].
  rewrite list_elem_of_In, in_map_iff in *. intros (y & Hy & Hin%filter_In). naive_solver.
Qed.

Lemma changed_ok o l next l' next' :
  accounts_ok l next -> changed o l next l' next' -> accounts_ok l' next'.
Proof.
  intros [Hn Hi Hb] Hc. destruct Hc as [|a Hid Hnew _ _|f before Hin Hf _ _|before Hin _]; [done|..].
  - split.
    + rewrite map_app. simpl. apply NoDup_app. split_and!; [done|set_solver|apply NoDup_singleton].
    + rewrite map_app. simpl. apply NoDup_app. split_and!; [done| |apply NoDup_singleton].
      intros id (b & -> & Hbin)%list_elem_of_fmap. rewrite list_elem_of_singleton.
      specialize (Hb b Hbin). lia.
    + intros b. rewrite elem_of_app, list_elem_of_singleton. intros [Hbin| ->]; [|lia].
      specialize (Hb b Hbin). lia.
  - destruct (map_identity (Accounts.with_id (acc_id before)) f l Hf) as [Hnames Hids].
    split; [by rewrite Hnames|by rewrite Hids|].
    intros b (c & -> & Hcin)%list_elem_of_fmap. specialize (Hb c Hcin).
    destruct (Accounts.with_id _ c); [|done]. by destruct (Hf c) as [-> _].
  - split; [by apply NoDup_map_kept..|].
    intros b [Hbin _]%list_elem_of_In%filter_In. by apply Hb, list_elem_of_In.
Qed.

(** ** An administrator remains *)

Definition administered (l : list account) (next : Z) (_ : list event) : Prop :=
  accounts_ok l next /\ exists a, a ∈ l /\ admin a = true.

Lemma administered_changed o l next l' next' log :
  administered l next log -> changed o l next l' next' -> administered l' next' (log ++ told o).
Proof.
  intros [Hok (a & Ha & Hadm)] Hc. split; [by eapply changed_ok|].
  destruct Hc as [|b _ _ _ _|f before Hin Hf _ Hguard|before Hin Hguard].
  - eauto.
  - exists a. split; [apply elem_of_app; by left|done].
  - assert (exists b, b ∈ l /\ ((admin b = true /\ acc_id b <> acc_id before) \/
        (b = before /\ admin (f b) = true))) as (b & Hb & Hcase).
    { destruct (decide (acc_id a = acc_id before)) as [Heq|Hne]; [|by exists a; eauto].
      rewrite (account_with_id _ _ _ _ Hok Ha Hin Heq) in Hadm.
      destruct (Hguard Hadm) as [?|(c & ? & ? & ?)]; [exists before|exists c]; eauto. }
    exists (if Accounts.with_id (acc_id before) b then f b else b).
    split; [apply list_elem_of_fmap; eauto|]. unfold Accounts.with_id.
    destruct Hcase as [[? Hne]|[-> ?]]; [by rewrite (proj2 (Z.eqb_neq _ _) Hne)|by rewrite Z.eqb_refl].
  - assert (exists b, b ∈ l /\ admin b = true /\ acc_id b <> acc_id before) as (b & Hb & Hadm' & Hne).
    { destruct (decide (acc_id a = acc_id before)) as [Heq|Hne]; [|by exists a].
      rewrite (account_with_id _ _ _ _ Hok Ha Hin Heq) in Hadm. by apply Hguard. }
    exists b. split; [|done]. apply list_elem_of_In, filter_In. rewrite <- list_elem_of_In.
    split; [done|]. unfold Accounts.with_id. by rewrite (proj2 (Z.eqb_neq _ _) Hne).
Qed.

(** ** Wrong passwords are counted *)

(** Wrong passwords tried for [u] since its account was last made ready. *)
Definition after_event (u : string) (n : nat) (e : event) : nat :=
  match e with
  | Guessed v false => if String.eqb v u then S n else n
  | Reopened v => if String.eqb v u then 0%nat else n
  | _ => n
  end.

Definition wrong_guesses (u : string) (l : list event) : nat := foldl (after_event u) 0%nat l.

Lemma wrong_guesses_snoc u l e : wrong_guesses u (l ++ [e]) = after_event u (wrong_guesses u l) e.
Proof. unfold wrong_guesses. by rewrite foldl_app. Qed.

Section Lockout.
Context (limit : Z).

Definition account_counted (log : list event) (a : account) : Prop :=
  0 <= FailedAttempts a /\
  Z.of_nat (wrong_guesses (acc_name a) log) <= FailedAttempts a /\
  (Enabled a = true -> Z.of_nat (wrong_guesses (acc_name a) log) < limit).

Definition guesses_counted (l : list account) (next : Z) (log : list event) : Prop :=
  accounts_ok l next /\ (forall a, a ∈ l -> account_counted log a) /\
  forall u l1 l2, log = l1 ++ l2 -> Z.of_nat (wrong_guesses u l1) <= limit.

(** What holds of every prefix of the log. *)
Lemma prefixes_snoc (P : list event -> Prop) log e :
  (forall l1 l2, log = l1 ++ l2 -> P l1) -> P (log ++ [e]) ->
  forall l1 l2, log ++ [e] = l1 ++ l2 -> P l1.
Proof.
  intros Hp He l1 l2 Heq. destruct l2 as [|x l2 _] using rev_ind.
  - rewrite app_nil_r in Heq. by subst.
  - rewrite app_assoc in Heq. apply app_inj_tail in Heq as [Heq _]. by eapply Hp.
Qed.

Lemma whole_log log : (forall u l1 l2, log = l1 ++ l2 -> Z.of_nat (wrong_guesses u l1) <= limit) ->
  forall u, Z.of_nat (wrong_guesses u log) <= limit.
Proof. intros Hp u. apply (Hp u log []). by rewrite app_nil_r. Qed.

(** An account whose name has been reopened starts anew. *)
Lemma counted_told o log a :
  0 < limit -> 0 <= FailedAttempts a ->
  (o = Some (acc_name a) \/ account_counted log a) ->
  account_counted (log ++ told o) a.
Proof.
  intros Hl Hfa Hor. unfold account_counted. destruct o as [v|]; simpl; [|rewrite app_nil_r].
  - rewrite wrong_guesses_snoc. simpl. destruct (String.eqb_spec v (acc_name a)) as [|Hne].
    + split_and!; [done|lia|lia].
    + destruct Hor as [[= Heq]|(_ & ? & ?)]; [done|]. done.
  - by destruct Hor as [|?].
Qed.

Lemma guesses_changed o l next l' next' log :
  0 < limit ->
  guesses_counted l next log -> changed o l next l' next' ->
  guesses_counted l' next' (log ++ told o).
Proof.
  intros Hlim (Hok & Hl & Hu) Hc. split; [by eapply changed_ok|]. split; cycle 1.
  { intros u. destruct o as [v|]; simpl; [|rewrite app_nil_r; apply Hu].
    apply prefixes_snoc; [apply Hu|]. pose proof (whole_log _ Hu u).
    rewrite wrong_guesses_snoc. simpl. destruct (String.eqb v u); lia. }
  assert (forall a, a ∈ l -> account_counted (log ++ told o) a) as Hkeep.
  { intros a Ha. apply counted_told; [done|by apply Hl|right; by apply Hl]. }
  destruct Hc as [|b _ _ Ho Hfa|f before Hin Hf Hcase _|before Hin _]; [done|..].
  - intros a. rewrite elem_of_app, list_elem_of_singleton. intros [Ha| ->]; [by apply Hkeep|].
    apply counted_told; [done|lia|by left].
  - intros a (b & -> & Hb)%list_elem_of_fmap. unfold Accounts.with_id.
    destruct (Z.eqb_spec (acc_id b) (acc_id before)) as [Heq|_]; [|by apply Hkeep].
    rewrite (account_with_id _ _ _ _ Hok Hb Hin Heq). destruct (Hl before Hin) as (Hnn & Hle & Hen).
    destruct (Hf before) as [_ Hname].
    destruct Hcase as [[Ho Hpos]|[He Hmono]].
    + apply counted_told; [done|by apply Hpos|left; by rewrite Hname].
    + apply counted_told; [done|lia|right]. unfold account_counted. rewrite Hname.
      split_and!; [lia|lia|auto].
  - intros a [Ha _]%list_elem_of_In%filter_In. apply Hkeep. by apply list_elem_of_In.
Qed.
End Lockout.

(** ** Lockout *)

Section LockoutRuns.
Context `{Credentials} `{Affinity} `{Surroundings} (cfg : settings).

(** The queries that count attempts and lock the account are answered. *)
Definition lockout_works : Prop :=
  forall n, fails n "AuthenticateUser" 1%nat [] = false /\
    forall k, fails n "commitLockout" k [] = false.

Context (Hworks : lockout_works) (Hlimit : 0 < maxFailedAttempts cfg).

Lemma try_works {A} n fn k (v : A) : fails n fn k [] = false -> try (fails n) fn k v = Ok v.
Proof. unfold try. by intros ->. Qed.

Lemma disableForLockout_works n d id u a :
  find_account d u = Some a ->
  accounts (fst (disableForLockout (fails n) d id u)) =
    map (fun b => if Accounts.with_id id b then set_enabled false b else b) (accounts d) /\
  next_user (fst (disableForLockout (fails n) d id u)) = next_user d.
Proof.
  intros Hf. destruct (Hworks n) as [_ Hk]. unfold disableForLockout, commitLockout, userSnapshotTx.
  rewrite !try_works by apply Hk. cbn [rbind]. rewrite Hf.
  cbn [rbind record_events].
  destruct (ask _ _ _ _ _) as [t|]; simpl; done.
Qed.

(** What a wrong password makes of the account. *)
Definition tried (a : account) (b : account) : account :=
  let b := set_attempts (FailedAttempts a + 1) b in
  if maxFailedAttempts cfg <=? FailedAttempts a + 1 then set_enabled false b else b.

Lemma wrong_password_tried n d a :
  accounts_ok (accounts d) (next_user d) -> a ∈ accounts d ->
  accounts (fst (wrong_password cfg (fails n) d a)) =
    map (fun b => if Accounts.with_id (acc_id a) b then tried a b else b) (accounts d) /\
  next_user (fst (wrong_password cfg (fails n) d a)) = next_user d.
Proof.
  intros Hok Ha. destruct (Hworks n) as [Hw _]. unfold wrong_password, tried.
  rewrite try_works by done. cbv zeta. rewrite (proj2 (Z.ltb_lt _ _) Hlimit). simpl andb.
  destruct (maxFailedAttempts cfg <=? FailedAttempts a + 1); [|done].
  set (d1 := update_accounts d _ _).
  assert (exists b, find_account d1 (acc_name a) = Some b) as [b Hb].
  { destruct (find_account d1 (acc_name a)) as [b|] eqn:Hf; [eauto|exfalso].
    unfold find_account, d1 in Hf. simpl in Hf.
    pose proof (find_none _ _ Hf (set_attempts (FailedAttempts a + 1) a)) as Hnone.
    cbv beta in Hnone. change (acc_name (set_attempts _ a)) with (acc_name a) in Hnone.
    rewrite String.eqb_refl in Hnone. enough (true = false) by done. apply Hnone.
    apply in_map_iff. exists a. rewrite <- list_elem_of_In. unfold Accounts.with_id.
    by rewrite Z.eqb_refl. }
  destruct (disableForLockout_works n d1 (acc_id a) (acc_name a) b Hb) as [-> ->].
  split; [|done]. simpl. rewrite map_map. apply map_ext. intros c.
  unfold Accounts.with_id. destruct (acc_id c =? acc_id a) eqn:Hc; [|by rewrite Hc].
  unfold acc_id in *. simpl. by rewrite Hc.
Qed.

Lemma wrong_guess_counted n d log a :
  guesses_counted (maxFailedAttempts cfg) (accounts d) (next_user d) log ->
  a ∈ accounts d -> Enabled a = true ->
  let d' := fst (wrong_password cfg (fails n) d a) in
  guesses_counted (maxFailedAttempts cfg) (accounts d') (next_user d')
    (log ++ [Guessed (acc_name a) false]).
Proof.
  intros (Hok & Hl & Hu) Ha He. destruct (Hl a Ha) as (Hnn & Hle & Hen). specialize (Hen He).
  destruct (wrong_password_tried n d a Hok Ha) as [Hacc Hnext]. simpl. rewrite Hacc, Hnext.
  assert (keeps_identity (tried a)) as Hid by (intros b; unfold tried; by case_match).
  split_and!.
  - destruct (map_identity (Accounts.with_id (acc_id a)) (tried a) (accounts d) Hid) as [Hn Hi].
    destruct Hok as [? ? Hb]. split; [by rewrite Hn|by rewrite Hi|].
    intros b (c & -> & Hc)%list_elem_of_fmap. specialize (Hb c Hc).
    destruct (Accounts.with_id _ c); [|done]. by destruct (Hid c) as [-> _].
  - intros b (c & -> & Hc)%list_elem_of_fmap. unfold Accounts.with_id.
    destruct (Z.eqb_spec (acc_id c) (acc_id a)) as [Heq|Hne].
    + rewrite (account_with_id _ _ _ _ Hok Hc Ha Heq). unfold account_counted.
      destruct (Hid a) as [_ ->]. rewrite wrong_guesses_snoc. simpl. rewrite String.eqb_refl.
      unfold tried. destruct (Z.leb_spec (maxFailedAttempts cfg) (FailedAttempts a + 1)); simpl;
        split_and!; first [lia|done].
    + destruct (Hl c Hc) as (? & ? & ?). unfold account_counted. rewrite wrong_guesses_snoc. simpl.
      destruct (String.eqb_spec (acc_name a) (acc_name c)) as [Hname|_]; [|done].
      by rewrite (same_name _ _ _ _ Hok Ha Hc Hname) in Hne.
  - intros u. apply prefixes_snoc; [apply Hu|]. rewrite wrong_guesses_snoc. simpl.
    destruct (String.eqb_spec (acc_name a) u) as [<-|]; [lia|by apply (whole_log _ log)].
Qed.

Lemma check_password_counted u pw n s :
  invariant (guesses_counted (maxFailedAttempts cfg)) s ->
  invariant (guesses_counted (maxFailedAttempts cfg)) (snd (check_password cfg u pw n (next_tick s))).
Proof.
  intros HI. unfold check_password. destruct (try _ _ _ _) as [[a|]|e] eqn:Ht; [|done..].
  apply try_Ok in Ht. symmetry in Ht. apply find_account_In in Ht as [Hin Hname].
  destruct (_ || _); [done|]. destruct (Enabled a) eqn:He; [|done]. simpl negb. cbv iota.
  destruct (CompareHashAndPassword _ _).
  - destruct HI as (Hok & Hl & Hu). split; [done|]. unfold account_counted. simpl. split.
    + intros b Hb. rewrite wrong_guesses_snoc. by apply Hl.
    + intros v. apply prefixes_snoc; [apply Hu|]. rewrite wrong_guesses_snoc.
      by apply (whole_log _ (log s)).
  - pose proof (wrong_guess_counted n (store s) (log s) a HI Hin He) as Hw. simpl in *.
    destruct (wrong_password _ _ _ _) as [d lk]. unfold invariant. simpl in *. by rewrite <- Hname.
Qed.
End LockoutRuns.
