(* ===== verification/SignIn.v ===== *)
(** * What the server promises about sign-in

    The theorems about sessions, tokens and accounts, of any run of the
    server: any requests, and any order in which their steps are taken. *)
From stdpp Require Import base list strings gmap.
From S2P Require Import Prelude GoStrings AuthStore TokenScope Accounts Threads Sessions SessionLogic SessionSound AccountOps AccountSafety.

Local Open Scope Z_scope.
Local Open Scope list_scope.

Section SignIn.
Context `{Reliable} `{Affinity} (cfg : settings).
Context (requests : list request) (schedule : list nat) (d : store_db).

(** C4: A request that is served with the context of a session presented a
    token whose session had been minted for that very user, and which at some
    moment since the request arrived had not been revoked by a change of the
    account; the clock was read within a day of the minting, the account was
    found enabled, and the ids and the superuser flag of the context are those
    of the account as it was then read.  This holds for every interleaving of
    sign-ins, refreshes, logouts, sweeps and administration. *)
Theorem session_served_on_grounds a i path token c b :
  log (run_server cfg requests schedule d) = a ++ Served i path token (Some c) :: b -> ctx_isAPIToken c = false ->
  token <> ""%string /\ ctx_username c <> ""%string /\ session_grounds a i token c.
Proof using Type*.
  intros Heq Hc. destruct (ok_served _ (run_server_ok cfg requests schedule d) _ _ _ _ _ _ Heq)
    as (Hu & Ht & Hg). by rewrite Hc in Hg.
Qed.

(** C15: A request that is served at all was for a public path, or it was
    authenticated; and if it was with an API token, that token was in the
    tables under the hash of what was presented, had not expired, and its
    owner existed, was enabled and was allowed to own tokens; the context
    names the owner and the token, so that the token's scope applies. *)
Theorem token_served_on_grounds a i path token ctx b :
  log (run_server cfg requests schedule d) = a ++ Served i path token ctx :: b ->
  match ctx with
  | None => IsPublicPath path = true
  | Some c => ctx_isAPIToken c = true ->
      token <> ""%string /\ ctx_username c <> ""%string /\ token_grounds a i token c
  end.
Proof using Type*.
  intros Heq. pose proof (ok_served _ (run_server_ok cfg requests schedule d) _ _ _ _ _ _ Heq) as Hg.
  destruct ctx as [c|]; [|done]. intros Hc. destruct Hg as (Hu & Ht & Hg). by rewrite Hc in Hg.
Qed.

(** C16: Refreshes of a federated session are serialised: when a refresh token
    is presented to the identity provider, the answer to the presentation
    before it has come, and the token presented is the one that answer left.
    So no token is presented twice unless the provider kept it, and after a
    refusal, which leaves none, nothing is presented again. *)
Theorem refreshes_serialised a f t1 b t2 c :
  log (run_server cfg requests schedule d) = a ++ Presented f t1 :: b ++ Presented f t2 :: c ->
  t2 <> ""%string /\
  exists b1 b2, b = b1 ++ Settled f t2 :: b2 /\ Forall (fun e => ~ about f e) b2.
Proof using Type*.
  intros Heq. rewrite app_comm_cons, app_assoc in Heq.
  destruct (ok_serial _ (run_server_ok cfg requests schedule d) _ _ _ _ Heq) as [Hne Hset].
  split; [done|]. clear Heq. induction b as [|e b IH] using rev_ind.
  - specialize (Hset a (Presented f t1) []). discriminate Hset; [done|done|constructor].
  - destruct (decide (about f e)) as [He|He].
    + exists b, []. split; [|constructor]. f_equal. f_equal.
      apply (Hset (a ++ Presented f t1 :: b) e []); [|done|constructor].
      by rewrite <- app_assoc.
    + destruct IH as (b1 & b2 & -> & Hb2).
      { intros a' e' b' Heq He' Hb'. apply (Hset a' e' (b' ++ [e])); [|done|].
        - rewrite app_comm_cons, app_assoc, Heq, <- app_assoc. done.
        - apply Forall_app. split; [done|]. by apply Forall_singleton. }
      exists b1, (b2 ++ [e]). rewrite <- app_assoc. split; [done|].
      apply Forall_app. split; [done|]. by apply Forall_singleton.
Qed.

(** No user ever has more than ten sessions, however many sign-ins run at
    once. *)
Theorem sessions_capped u :
  (size (user_keys (run_server cfg requests schedule d) u) <= maxSessionsPerUser)%nat.
Proof using Type*. apply (ok_cap _ (run_server_ok cfg requests schedule d)). Qed.
End SignIn.

Section AccountRuns.
Context `{Credentials} `{Affinity} `{Surroundings} (cfg : settings).
Context (requests : list request) (schedule : list nat) (d : store_db).
Context (Hok : accounts_ok (accounts d) (next_user d)).

Definition elsewhere_keeps_accounts (r : request) : Prop :=
  match r with Elsewhere f _ => forall d, same_accounts d (f d) | _ => True end.

Definition wrong_guess (u : string) (e : event) : bool :=
  match e with Guessed v false => String.eqb v u | _ => false end.

Lemma wrong_guesses_app u a b :
  Reopened u ∉ b ->
  wrong_guesses u (a ++ b) = (wrong_guesses u a + length (List.filter (wrong_guess u) b))%nat.
Proof.
  induction b as [|e b IH] using rev_ind; intros Hb; [by rewrite app_nil_r, Nat.add_0_r|].
  rewrite app_assoc, wrong_guesses_snoc, List.filter_app, length_app.
  rewrite IH by (intros ?; apply Hb, elem_of_app; by left).
  assert (Reopened u <> e) by (intros <-; apply Hb, elem_of_app; right; by left).
  destruct e as [| | | | | | | |v []|v]; simpl; try lia.
  - destruct (String.eqb v u); simpl; lia.
  - destruct (String.eqb_spec v u) as [->|]; [done|lia].
Qed.

(** C17: Guessing is limited: while the queries that count attempts and lock
    an account are answered, no more wrong passwords are tried against an
    account than the configured limit, until it is enabled again, created
    anew, has its attempts reset, or its user signs in.  (The last superuser
    is locked out like anyone else.) *)
Theorem guesses_limited u a b c :
  lockout_works -> 0 < maxFailedAttempts cfg ->
  (forall x, x ∈ accounts d -> 0 <= FailedAttempts x) ->
  Forall elsewhere_keeps_accounts requests ->
  log (run_server cfg requests schedule d) = a ++ b ++ c -> Reopened u ∉ b ->
  Z.of_nat (length (List.filter (wrong_guess u) b)) <= maxFailedAttempts cfg.
Proof using Hok.
  intros Hworks Hlim Hfa Hreq Hlog Hb.
  assert (invariant (guesses_counted (maxFailedAttempts cfg))
            (run_server cfg requests schedule d)) as (_ & _ & Hu).
  { apply run_server_invariant.
    - intros l next lg e He (Hl & Hc & Hp). split; [done|].
      assert (forall v, wrong_guesses v (lg ++ [e]) = wrong_guesses v lg) as Hsame.
      { intros v. rewrite wrong_guesses_snoc. by destruct e. }
      unfold account_counted. split.
      + intros x Hx. rewrite Hsame. by apply Hc.
      + intros v. apply prefixes_snoc; [apply Hp|]. rewrite Hsame. by eapply whole_log.
    - by intros l next lg [Hl _].
    - intros o l next l' next' lg. by apply guesses_changed.
    - eapply Forall_impl; [exact Hreq|]. intros r Hr. destruct r; try done. simpl.
      intros n s. by apply check_password_counted.
    - split; [done|]. split.
      + intros x Hx. specialize (Hfa x Hx). unfold account_counted, wrong_guesses. simpl. lia.
      + intros v l1 l2 Heq. destruct l1; [unfold wrong_guesses; simpl; lia|done]. }
  rewrite app_assoc in Hlog. specialize (Hu u _ _ Hlog).
  rewrite wrong_guesses_app in Hu by done. lia.
Qed.

(** As long as nobody signs in with a password, and so nobody is locked
    out, an enabled superuser remains: no sequence of concurrent disablings,
    demotions, updates and deletions removes the last one. *)
Theorem administrator_remains :
  Forall elsewhere_keeps_accounts requests ->
  (forall u pw, Login u pw ∉ requests) ->
  (exists a, a ∈ accounts d /\ acc_superuser a = true /\ Enabled a = true) ->
  exists a, a ∈ accounts (store (run_server cfg requests schedule d)) /\
    acc_superuser a = true /\ Enabled a = true.
Proof using Hok.
  intros Hreq Hlogin (a & Ha & Hs & He).
  assert (invariant administered (run_server cfg requests schedule d)) as [_ (b & Hb & Hadm)].
  { apply run_server_invariant.
    - by intros l next lg e _ HJ.
    - by intros l next lg [Hl _].
    - intros o l next l' next' lg. apply administered_changed.
    - apply Forall_forall. intros r Hr. rewrite Forall_forall in Hreq. specialize (Hreq r Hr).
      destruct r; try done. by apply Hlogin in Hr.
    - split; [done|]. exists a. split; [done|]. unfold admin. by rewrite Hs, He. }
  exists b. split; [done|]. by apply andb_prop.
Qed.
End AccountRuns.
