(* ===== verification/WitnessesAuth.v ===== *)
(** * Sign-in on concrete runs

    Runs of the server with two local accounts and a federated one, at which
    the theorems of [SignIn] are applied. *)
From stdpp Require Import base list strings gmap.
From S2P Require Import Prelude GoStrings AuthStore TokenScope Accounts Threads Sessions SessionLogic SessionSound AccountOps AccountSafety SignIn.

Local Open Scope Z_scope.
Local Open Scope string_scope.
Local Open Scope list_scope.

(** ** A setting *)

#[local] Instance demo_credentials : Credentials := {|
  GenerateFromPassword _ p := Some p;
  CompareHashAndPassword h p := String.eqb h p;
  sha256 s := String.append "#" s;
  letter_or_digit _ := false;
  unicode_space _ := false;
  unicode_lower r := r;
  NFKC s := runes (lit s);
  commonPasswordsRaw := [];
  add_days t n := t + n * 24 * Hour;
|}.

#[local] Instance demo_affinity : Affinity := {| integer_affinity := ParseInt |}.

Fixpoint demo_token (i : nat) : string :=
  match i with O => "t" | S i => String.append "x" (demo_token i) end.

(** The provider rotates the token at each refresh. *)
#[local] Instance demo_surroundings : Surroundings := {|
  now n := Z.of_nat n;
  fails _ _ _ _ := false;
  federatedAPITokens _ := true;
  refresher _ := true;
  RefreshFederatedSession n _ token := Some (String.append "r" token, Z.of_nat n + 3);
  range_order _ l := l;
  random i := Some (demo_token i);
|}.

Lemma demo_token_inj i j : demo_token i = demo_token j -> i = j.
Proof. revert j. induction i as [|i IH]; intros [|j]; simpl; try done. intros [= ->%IH]. done. Qed.

#[local] Instance demo_reliable : Reliable.
Proof.
  split; simpl; [lia| |done]. intros i j a b [= <-] [= <-] [= ->%demo_token_inj]. done.
Qed.

Definition demo_settings : settings := {| maxUserTokenDays := 0; maxFailedAttempts := 2 |}.

Definition no_rows : tables :=
  {| users := []; user_group_rows := []; tokens := []; group_memberships := [];
     mcp_privilege_identifiers := []; group_mcp_privileges := []; connection_privileges := [];
     group_admin_permissions := []; token_connection_scope := []; token_mcp_scope := [];
     token_admin_scope := []; audit_events := [] |}.

Definition demo_account (id : Z) (name : string) (superuser : bool) (source : string) : account :=
  {| acc_row := {| user_id := id; Username := name; IsSuperuserRow := superuser |};
     PasswordHash := "secret"; Enabled := true; Annotation := ""; DisplayName := "";
     Email := ""; FailedAttempts := 0; LastLogin := None; IsServiceAccount := false;
     AuthSource := source |}.

Definition demo_db : store_db :=
  {| other := no_rows;
     accounts := [demo_account 1 "ann" true "local"; demo_account 2 "bob" true "local";
                  demo_account 3 "eve" false "oidc"];
     token_rows := [{| tok_row := {| stored_token_id := 7; OwnerID := 2 |};
                       TokenHash := "#key"; ExpiresAt := None; tok_annotation := "" |}];
     connection_sessions := []; next_user := 4; next_token := 8 |}.

Definition cookie (token : string) : credentials :=
  {| authorization := ""; session_cookie := Some token |}.

Definition bearer (token : string) : credentials :=
  {| authorization := String.append "Bearer " token; session_cookie := None |}.

(** Each request runs to its end before the next. *)
Definition one_by_one (n : nat) : list nat :=
  flat_map (fun i => repeat i 60) (seq 0 n).

Abbreviation demo_log requests :=
  (log (run_server demo_settings requests (one_by_one (length requests)) demo_db)).

(** Where in a log an event is. *)
Fixpoint position (p : event -> bool) (l : list event) : nat :=
  match l with
  | [] => 0
  | e :: l => if p e then 0 else S (position p l)
  end.

Definition is_served (e : event) : bool := match e with Served _ _ _ _ => true | _ => false end.

(** ** Requests that are served *)

Definition session_run : list request :=
  [Login "ann" "secret"; Http "/api/v1/x" (cookie (demo_token 0))].

Definition ann_context : Context :=
  {| ctx_username := "ann"; ctx_isAPIToken := false; ctx_userID := 1; ctx_tokenID := 0;
     ctx_isSuperuser := true |}.

Lemma session_served_on_grounds_witness :
  let l := demo_log session_run in
  let a := take (position is_served l) l in
  l = a ++ [Served 1 "/api/v1/x" "t" (Some ann_context)] /\ session_grounds a 1 "t" ann_context.
Proof.
  intros l a.
  assert (l = a ++ [Served 1 "/api/v1/x" "t" (Some ann_context)]) as Heq
    by (vm_compute; reflexivity).
  split; [exact Heq|].
  exact (proj2 (proj2 (session_served_on_grounds demo_settings session_run (one_by_one (length session_run)) demo_db
    a 1%nat "/api/v1/x" "t" ann_context [] Heq eq_refl))).
Defined.

Definition token_run : list request := [Http "/api/v1/x" (bearer "key"); Http "/health" (bearer "")].

Definition bob_context : Context :=
  {| ctx_username := "bob"; ctx_isAPIToken := true; ctx_userID := 2; ctx_tokenID := 7;
     ctx_isSuperuser := true |}.

Lemma token_served_on_grounds_witness :
  let l := demo_log token_run in
  let a := take (position is_served l) l in
  l = a ++ Served 0 "/api/v1/x" "key" (Some bob_context) :: drop (S (position is_served l)) l /\
  token_grounds a 0 "key" bob_context.
Proof.
  intros l a.
  assert (l = a ++ Served 0 "/api/v1/x" "key" (Some bob_context) ::
    drop (S (position is_served l)) l) as Heq by (vm_compute; reflexivity).
  split; [exact Heq|].
  exact (proj2 (proj2 (token_served_on_grounds demo_settings token_run (one_by_one (length token_run)) demo_db
    a 0%nat "/api/v1/x" "key" (Some bob_context) _ Heq eq_refl))).
Defined.

(** ** Refreshes *)

Definition refresh_run : list request :=
  [FederatedLogin "eve" "r" 4; Http "/api/v1/x" (cookie (demo_token 0));
   Http "/api/v1/x" (cookie (demo_token 0))].

Definition is_presented (e : event) : bool := match e with Presented _ _ => true | _ => false end.

Lemma refreshes_serialised_witness :
  let l := demo_log refresh_run in
  let k := position is_presented l in
  let rest := drop (S k) l in
  let b := take (position is_presented rest) rest in
  l = take k l ++ Presented 0 "r" :: b ++ Presented 0 "rr" :: drop (S (length b)) rest /\
  exists b1 b2, b = b1 ++ Settled 0 "rr" :: b2 /\ Forall (fun e => ~ about 0 e) b2.
Proof.
  intros l k rest b.
  assert (l = take k l ++ Presented 0 "r" :: b ++ Presented 0 "rr" :: drop (S (length b)) rest)
    as Heq by (vm_compute; reflexivity).
  split; [exact Heq|].
  exact (proj2 (refreshes_serialised demo_settings refresh_run (one_by_one (length refresh_run)) demo_db
    _ 0%nat "r" b "rr" _ Heq)).
Defined.

(** ** Twelve sign-ins at once *)

Definition login_run : list request := repeat (Login "ann" "secret") 12.

(** One step of each in turn. *)
Definition in_turn (n : nat) : list nat := flat_map (fun _ => seq 0 n) (seq 0 300).

Example twelve_sign_ins_ten_sessions :
  (size (user_keys (run_server demo_settings login_run (in_turn 12) demo_db) "ann") = 10)%nat.
Proof. vm_compute. reflexivity. Qed.

(** ** Guesses *)

Definition guess_run : list request := repeat (Login "ann" "wrong") 5.

Lemma demo_accounts_ok : accounts_ok (accounts demo_db) (next_user demo_db).
Proof.
  split; [by apply (bool_decide_unpack _)|by apply (bool_decide_unpack _)|].
  intros a Ha. repeat (apply elem_of_cons in Ha as [->|Ha]; [by vm_compute|]).
  by apply elem_of_nil in Ha.
Qed.

Lemma never_reopened u l :
  forallb (fun e => match e with Reopened _ => false | _ => true end) l = true -> Reopened u ∉ l.
Proof. rewrite forallb_forall. intros Hall Hin%list_elem_of_In. by specialize (Hall _ Hin). Qed.

Lemma guesses_limited_witness :
  (length (List.filter (wrong_guess "ann") (demo_log guess_run)) = 2)%nat /\
  Z.of_nat (length (List.filter (wrong_guess "ann") (demo_log guess_run)))
    <= maxFailedAttempts demo_settings.
Proof.
  split; [vm_compute; reflexivity|].
  apply (guesses_limited demo_settings guess_run (one_by_one (length guess_run)) demo_db demo_accounts_ok
    "ann" [] (demo_log guess_run) []).
  - by split.
  - reflexivity.
  - intros a Ha. repeat (apply elem_of_cons in Ha as [->|Ha]; [by vm_compute|]).
    by apply elem_of_nil in Ha.
  - repeat constructor.
  - cbn [app]. exact (eq_sym (app_nil_r _)).
  - apply never_reopened. vm_compute. reflexivity.
Defined.

(** ** Two superusers demote each other *)

Definition coup_run : list request :=
  [Administer (SetUserEnabled "ann" false); Administer (SetUserSuperuser "bob" false)].

Lemma administrator_remains_witness :
  exists a, a ∈ accounts (store (run_server demo_settings coup_run (in_turn 2) demo_db)) /\
    acc_superuser a = true /\ Enabled a = true.
Proof.
  apply (administrator_remains demo_settings coup_run (in_turn 2) demo_db demo_accounts_ok).
  - repeat constructor.
  - intros u pw Hin. repeat (apply elem_of_cons in Hin as [?|Hin]; [done|]).
    by apply elem_of_nil in Hin.
  - exists (demo_account 1 "ann" true "local"). split; [by left|done].
Defined.

(** ** What the comments do not say *)

(** An account that is disabled through the update of its whole row, and
    enabled again, keeps its sessions: they are not revoked. *)
Definition set_enabled_only (b : bool) : UserUpdate :=
  {| upd_Password := None; upd_Annotation := None; upd_DisplayName := None;
     upd_Email := None; upd_Enabled := Some b; upd_IsSuperuser := None |}.

Lemma disabled_session_survives :
  last (demo_log
    [Login "ann" "secret";
     Administer (UpdateUserAtomic "ann" (set_enabled_only false) true);
     Administer (UpdateUserAtomic "ann" (set_enabled_only true) true);
     Http "/api/v1/x" (cookie (demo_token 0))]) =
  Some (Served 3 "/api/v1/x" "t" (Some ann_context)).
Proof. vm_compute. reflexivity. Qed.

(** Eight wildcards name every token. *)
Lemma wildcards_delete_every_token :
  token_rows (fst (deleteToken (fun _ _ _ => false) demo_db "%%%%%%%%" true)) = [] /\
  snd (deleteToken (fun _ _ _ => false) demo_db "%%%%%%%%" true) = Ok tt.
Proof. vm_compute. done. Qed.
