(* ===== verification/EvictionList.v ===== *)
(** * The list of coalesced entries by age
      (server/src/internal/auth/audit_eviction_list.go)

    The doubly linked list on which a coalescer keeps its entries, oldest
    first.  The entries themselves carry the links; here an entry is known by
    its key, and the links are a map.  [lists] says that the links represent
    a list, and each operation is shown to do to the links what it does to
    the list. *)
From stdpp Require Import base list gmap.
From S2P Require Import Prelude.

Local Open Scope Z_scope.

Section EvictionList.
Context {K : Type} `{Countable K}.

Record evictionLinks := { prev : option K; next : option K }.

(** [links]: those of the entries, whether on the list or not. *)
Record evictionList := {
  oldest : option K;
  newest : option K;
  links : gmap K evictionLinks;
}.

Definition no_links : evictionLinks := {| prev := None; next := None |}.
Definition empty_list : evictionList := {| oldest := None; newest := None; links := ∅ |}.

Definition links_of (l : evictionList) (k : K) : evictionLinks := default no_links (links l !! k).

Definition set_links (l : evictionList) (k : K) (x : evictionLinks) : evictionList :=
  {| oldest := oldest l; newest := newest l; links := <[k := x]> (links l) |}.

(** What follows an entry, or starts the list; what precedes one, or ends it. *)
Definition link_next (l : evictionList) (o v : option K) : evictionList :=
  match o with
  | Some k => set_links l k {| prev := prev (links_of l k); next := v |}
  | None => {| oldest := v; newest := newest l; links := links l |}
  end.

Definition link_prev (l : evictionList) (o v : option K) : evictionList :=
  match o with
  | Some k => set_links l k {| prev := v; next := next (links_of l k) |}
  | None => {| oldest := oldest l; newest := v; links := links l |}
  end.

Definition pushNewest (l : evictionList) (entry : K) : evictionList :=
  let before := newest l in
  let l := set_links l entry {| prev := before; next := None |} in
  link_prev (link_next l before (Some entry)) None (Some entry).

Definition insertBefore (l : evictionList) (entry : K) (at_ : option K) : evictionList :=
  match at_ with
  | None => pushNewest l entry
  | Some n =>
      let before := prev (links_of l n) in
      let l := set_links l entry {| prev := before; next := Some n |} in
      link_prev (link_next l before (Some entry)) (Some n) (Some entry)
  end.

(** Follows [next] while [go]; the entries that have links bound the walk. *)
Fixpoint walk (fuel : nat) (go : K -> bool) (l : evictionList) (p : option K) : option K :=
  match fuel, p with
  | S fuel, Some k => if go k then walk fuel go l (next (links_of l k)) else p
  | _, _ => p
  end.

Definition insertOrdered (windowStart : K -> Z) (l : evictionList) (entry : K)
    : evictionList :=
  let start := windowStart entry in
  insertBefore l entry
    (walk (size (links l)) (fun k => windowStart k <=? start) l (oldest l)).

Definition unlink (l : evictionList) (entry : K) : evictionList :=
  let x := links_of l entry in
  let l := link_next l (prev x) (next x) in
  let l := link_prev l (next x) (prev x) in
  set_links l entry no_links.

(** ** What the links represent *)

Definition first (l : list K) (after : option K) : option K :=
  match l with [] => after | k :: _ => Some k end.

Definition final (before : option K) (l : list K) : option K :=
  match last l with Some k => Some k | None => before end.

(** The entries of [l] are linked one to the next, from [before] to [after]. *)
Fixpoint linked (m : gmap K evictionLinks) (before : option K) (l : list K)
    (after : option K) : Prop :=
  match l with
  | [] => True
  | k :: l => m !! k = Some {| prev := before; next := first l after |} /\
              linked m (Some k) l after
  end.

Record lists (e : evictionList) (l : list K) : Prop := {
  lists_once : NoDup l;
  lists_oldest : oldest e = first l None;
  lists_newest : newest e = final None l;
  lists_linked : linked (links e) None l None;
}.

Lemma final_snoc before l k : final before (l ++ [k]) = Some k.
Proof. unfold final. by rewrite last_snoc. Qed.

Lemma first_app l1 l2 after : first (l1 ++ l2) after = first l1 (first l2 after).
Proof. by destruct l1. Qed.

Lemma final_app before l1 l2 : final before (l1 ++ l2) = final (final before l1) l2.
Proof.
  unfold final. rewrite last_app. by destruct (last l2).
Qed.

Lemma final_cons before k l : final before (k :: l) = final (Some k) l.
Proof. apply (final_app before [k] l). Qed.

Lemma linked_app m before l1 l2 after :
  linked m before (l1 ++ l2) after <->
  linked m before l1 (first l2 after) /\ linked m (final before l1) l2 after.
Proof.
  revert before. induction l1 as [|k l1 IH]; intros before; simpl; [tauto|].
  rewrite IH, first_app, final_cons. tauto.
Qed.

Lemma linked_frame m k x before l after :
  k ∉ l -> linked m before l after -> linked (<[k := x]> m) before l after.
Proof.
  revert before. induction l as [|k' l IH]; intros before; simpl; [done|].
  rewrite not_elem_of_cons. intros [Hne Hk] [Hm Hc]. rewrite lookup_insert_ne by done. auto.
Qed.

(** The two halves of a list at a point. *)
Definition upto (e : evictionList) (l : list K) (after : option K) : Prop :=
  linked (links e) None l after /\ oldest e = first l after.

Definition from (e : evictionList) (before : option K) (l : list K) : Prop :=
  linked (links e) before l None /\ newest e = final before l.

Lemma lists_halves e l1 l2 :
  lists e (l1 ++ l2) <->
  NoDup (l1 ++ l2) /\ upto e l1 (first l2 None) /\ from e (final None l1) l2.
Proof.
  split.
  - intros [Hn Ho Hw Hc]. apply linked_app in Hc as [H1 H2].
    rewrite first_app in Ho. rewrite final_app in Hw. done.
  - intros (Hn & [H1 Ho] & [H2 Hw]). split; [done|by rewrite first_app|by rewrite final_app|].
    by apply linked_app.
Qed.

Lemma upto_link_next e l after v :
  NoDup l -> upto e l after -> upto (link_next e (final None l) v) l v.
Proof.
  intros Hn [Hc Ho]. destruct l as [|k l _] using rev_ind; [done|]. rewrite final_snoc.
  apply linked_app in Hc as [H1 [Hk _]]. apply NoDup_app in Hn as (_ & Hd & _).
  split.
  - apply linked_app. split.
    + apply linked_frame; [|done]. intros Hin. by apply (Hd k Hin), list_elem_of_singleton.
    + split; [|done]. simpl. rewrite lookup_insert_eq. unfold links_of. by rewrite Hk.
  - simpl. rewrite Ho. by destruct l.
Qed.

Lemma from_link_prev e before l v :
  NoDup l -> from e before l -> from (link_prev e (first l None) v) v l.
Proof.
  intros Hn [Hc Hw]. destruct l as [|k l]; [done|]. simpl in Hc. destruct Hc as [Hk Hc].
  apply NoDup_cons in Hn as [Hk' _]. split.
  - simpl. split; [|by apply linked_frame]. rewrite lookup_insert_eq. unfold links_of.
    by rewrite Hk.
  - simpl. rewrite Hw. by rewrite !final_cons.
Qed.

Lemma upto_frame e l after o v :
  (forall k, o = Some k -> k ∉ l) -> upto e l after -> upto (link_prev e o v) l after.
Proof.
  intros Ho [Hc Hf]. destruct o as [k|]; [|done]. split; [|done].
  apply linked_frame; [by apply Ho|done].
Qed.

Lemma from_frame e before l o v :
  (forall k, o = Some k -> k ∉ l) -> from e before l -> from (link_next e o v) before l.
Proof.
  intros Ho [Hc Hf]. destruct o as [k|]; [|done]. split; [|done].
  apply linked_frame; [by apply Ho|done].
Qed.

Lemma final_in l k : final None l = Some k -> k ∈ l.
Proof. unfold final. destruct (last l) eqn:Hl; [|done]. intros [= <-]. by apply last_Some_elem_of. Qed.

Lemma first_in l k : first l None = Some k -> k ∈ l.
Proof. destruct l; simpl; [done|]. intros [= <-]. by left. Qed.

(** Linking an entry in between two halves. *)
Lemma lists_insert e l1 k l2 :
  lists e (l1 ++ l2) -> k ∉ l1 ++ l2 ->
  lists (link_prev (link_next (set_links e k {| prev := final None l1; next := first l2 None |})
           (final None l1) (Some k)) (first l2 None) (Some k)) (l1 ++ k :: l2).
Proof.
  intros (Hn & [Hc1 Ho] & [Hc2 Hw])%lists_halves Hk.
  rewrite not_elem_of_app in Hk. destruct Hk as [Hk1 Hk2].
  apply NoDup_app in Hn as (Hn1 & Hd & Hn2).
  set (e1 := set_links e k _).
  assert (upto e1 l1 (first l2 None)) as Hu1 by (split; [by apply linked_frame|done]).
  assert (from e1 (final None l1) l2) as Hf1 by (split; [by apply linked_frame|done]).
  set (e2 := link_next e1 _ _).
  assert (upto e2 l1 (Some k)) as Hu2 by by eapply upto_link_next.
  assert (from e2 (final None l1) l2) as Hf2.
  { apply from_frame; [|done]. intros x Hx%final_in Hin. by apply (Hd x). }
  set (e3 := link_prev e2 _ _).
  assert (upto e3 l1 (Some k)) as [Hc3 Ho3].
  { apply upto_frame; [|done]. intros x Hx%first_in Hin. by apply (Hd x). }
  assert (from e3 (Some k) l2) as [Hc3' Hw3] by by eapply from_link_prev.
  apply lists_halves. split_and!.
  - apply NoDup_app. split_and!; [done| |by apply NoDup_cons].
    intros x Hx. rewrite elem_of_cons. intros [->|Hin]; [done|by apply (Hd x)].
  - done.
  - split; [|by rewrite final_cons]. simpl. split; [|done].
    assert (links e1 !! k = Some {| prev := final None l1; next := first l2 None |}) as Hk3
      by apply lookup_insert_eq.
    unfold e3, e2, link_prev, link_next.
    destruct (first l2 None) as [n|] eqn:En; destruct (final None l1) as [b|] eqn:Eb; simpl;
      try (rewrite lookup_insert_ne by (intros ->; by apply Hk2, first_in));
      try (rewrite lookup_insert_ne by (intros ->; by apply Hk1, final_in)); done.
Qed.

Lemma pushNewest_lists e l k : lists e l -> k ∉ l -> lists (pushNewest e k) (l ++ [k]).
Proof.
  intros Hl Hk. pose proof (lists_newest _ _ Hl) as Hw. unfold pushNewest. rewrite Hw.
  apply (lists_insert e l k []); rewrite app_nil_r; done.
Qed.

Lemma lists_at e l1 n l2 :
  lists e (l1 ++ n :: l2) -> links_of e n = {| prev := final None l1; next := first l2 None |}.
Proof.
  intros (_ & _ & [[Hn _] _])%lists_halves. unfold links_of. by rewrite Hn.
Qed.

Lemma insertBefore_lists e l1 l2 k :
  lists e (l1 ++ l2) -> k ∉ l1 ++ l2 -> lists (insertBefore e k (first l2 None)) (l1 ++ k :: l2).
Proof.
  intros Hl Hk. destruct l2 as [|n l2]; simpl.
  - rewrite app_nil_r in *. by apply pushNewest_lists.
  - rewrite (lists_at _ _ _ _ Hl). by apply (lists_insert e l1 k (n :: l2)).
Qed.

Lemma unlink_lists e l1 k l2 : lists e (l1 ++ k :: l2) -> lists (unlink e k) (l1 ++ l2).
Proof.
  intros Hl. unfold unlink. rewrite (lists_at _ _ _ _ Hl). simpl.
  apply lists_halves in Hl as (Hn & [Hc1 Ho] & [[_ Hc2] Hw]). rewrite final_cons in Hw.
  apply NoDup_app in Hn as (Hn1 & Hd & [Hk2 Hn2]%NoDup_cons).
  assert (k ∉ l1) as Hk1 by (intros Hin; by apply (Hd k Hin); left).
  set (e1 := link_next e _ _).
  assert (upto e1 l1 (first l2 None)) as Hu1 by by eapply upto_link_next.
  assert (from e1 (Some k) l2) as Hf1.
  { apply from_frame; [|done]. intros x Hx%final_in Hin. by apply (Hd x); [|right]. }
  set (e2 := link_prev e1 _ _).
  assert (upto e2 l1 (first l2 None)) as [Hc3 Ho3].
  { apply upto_frame; [|done]. intros x Hx%first_in Hin. by apply (Hd x); [|right]. }
  assert (from e2 (final None l1) l2) as [Hc3' Hw3] by by eapply from_link_prev.
  apply lists_halves. split_and!.
  - apply NoDup_app. split_and!; [done| |done]. intros x Hx Hin. by apply (Hd x); [|right].
  - split; [by apply linked_frame|done].
  - split; [by apply linked_frame|done].
Qed.

(** ** Walks *)

Lemma linked_links m before l after k : linked m before l after -> k ∈ l -> is_Some (m !! k).
Proof.
  revert before. induction l as [|x l IH]; intros before; simpl; [by intros _ ?%elem_of_nil|].
  intros [Hx Hc] [->|Hin]%elem_of_cons; eauto.
Qed.

(** The links are enough fuel for a walk along the whole list. *)
Lemma lists_size e l : lists e l -> (length l <= size (links e))%nat.
Proof.
  intros Hl. rewrite <- (size_list_to_set (C := gset K)) by apply (lists_once _ _ Hl).
  rewrite <- size_dom. apply subseteq_size. intros k. rewrite elem_of_list_to_set, elem_of_dom.
  by eapply linked_links, lists_linked.
Qed.

Fixpoint skip_while (go : K -> bool) (l : list K) : list K :=
  match l with
  | k :: l' => if go k then skip_while go l' else l
  | [] => []
  end.

Lemma walk_lists fuel go e l1 l2 :
  lists e (l1 ++ l2) -> (length l2 <= fuel)%nat ->
  walk fuel go e (first l2 None) = first (skip_while go l2) None.
Proof.
  revert l1 l2. induction fuel as [|fuel IH]; intros l1 l2 Hl Hf.
  { destruct l2; [done|simpl in Hf; lia]. }
  destruct l2 as [|k l2]; [done|]. simpl. destruct (go k); [|done].
  rewrite (lists_at _ _ _ _ Hl). apply (IH (l1 ++ [k])); [by rewrite <- app_assoc|simpl in Hf; lia].
Qed.

Lemma skip_while_split go l :
  exists l1, l = l1 ++ skip_while go l /\ Forall (fun k => go k = true) l1 /\
    forall k l2, skip_while go l = k :: l2 -> go k = false.
Proof.
  induction l as [|k l (l1 & Heq & Hall & Hnext)]; simpl; [by exists []|].
  destruct (go k) eqn:Hg.
  - exists (k :: l1). split_and!; [by rewrite Heq at 1|by constructor|done].
  - exists []. split_and!; [done|done|]. by intros k' l2 [= <- _].
Qed.

(** An entry is put where the starts stay in order. *)
Lemma insertOrdered_lists start e l k :
  lists e l -> k ∉ l ->
  exists l1 l2, l = l1 ++ l2 /\ lists (insertOrdered start e k) (l1 ++ k :: l2) /\
    Forall (fun x => start x <= start k) l1 /\
    forall x l3, l2 = x :: l3 -> start k < start x.
Proof.
  intros Hl Hk. unfold insertOrdered. rewrite (lists_oldest _ _ Hl).
  rewrite (walk_lists _ _ e [] l) by first [done|by apply lists_size].
  destruct (skip_while_split (fun x => start x <=? start k) l) as (l1 & Heq & Hall & Hnext).
  exists l1, (skip_while (fun x => start x <=? start k) l). split; [done|]. split_and!.
  - apply insertBefore_lists; by rewrite <- Heq.
  - eapply Forall_impl; [exact Hall|]. intros x. simpl. lia.
  - intros x l3 Hx. apply Hnext in Hx. lia.
Qed.
End EvictionList.

Arguments evictionLinks K : clear implicits.
Arguments evictionList K {_ _}.
