(* ===== verification/Coalescer.v ===== *)
(** * Counting repeated events instead of writing them
      (server/src/internal/auth: audit_denials.go, audit_failures.go)

    The server keeps two coalescers, one for refusals and one for failed
    changes.  They are the same code over different keys and windows, so they
    are modelled once, over what they differ in ([Coalesced]); CoalescedAudit
    gives the two instances.  A coalescer holds a map from keys to the window
    that is open for each, and the list of EvictionList with the same keys by
    age.  [in_order] is the invariant that ties the two together, and
    [tally] the repeats held, which each operation is shown to account for. *)
From stdpp Require Import base list gmap strings sorting.
From S2P Require Import Prelude AuditText AuditChain EvictionList.

Local Open Scope Z_scope.

(** The values of an audit row's details, a [map[string]any]. *)
Inductive detail :=
| DInt (n : Z)
| DBool (b : bool)
| DText (s : string)
| DTexts (l : list string).

Definition details := gmap string detail.

(** What the coalescer of one kind of event brings along: the window it
    counts repeats in, the cap on its keys, the row an event of a key makes,
    and whether [restore] logs a summary it leaves out because of a window
    opened since. *)
Class Coalesced (K T W : Type) := {
  note : W -> T -> W;
  count : W -> Z;
  no_window : W;
  maxKeys : Z;
  coalesceWindow : Z;
  event : K -> option details -> AuditEvent;
  own_details : T -> W -> option details;
  addTo : W -> details -> details;
  logs_opened_since : bool;
}.

(** ** Data *)

Record windowState (W : Type) := {
  firstSeen : Z;
  lastSeen : Z;
  suppressed : W;
  closedFirstSeen : Z;
}.
Arguments firstSeen {W} _.
Arguments lastSeen {W} _.
Arguments suppressed {W} _.
Arguments closedFirstSeen {W} _.

Record summary (K W : Type) := {
  sm_key : K;
  sm_window : W;
  sm_firstSeen : Z;
  sm_lastSeen : Z;
}.
Arguments sm_key {K W} _.
Arguments sm_window {K W} _.
Arguments sm_firstSeen {K W} _.
Arguments sm_lastSeen {K W} _.

(** What the server log is told; a summary is printed with all it holds. *)
Inductive log_line :=
| DroppedAtCap (ev : AuditEvent)
| DroppedOpenedSince (ev : AuditEvent)
| SummariesUnwritten (n : nat)
| EventUnwritten
| UnrecordedAtShutdown (ev : AuditEvent).

Section Coalescer.
Context {K T W : Type} `{Countable K} {kind : Coalesced K T W}.

Abbreviation windowState := (windowState W).
Abbreviation summary := (summary K W).

Record coalescer := {
  entries : gmap K windowState;
  order : evictionList K;
}.

Definition no_coalescer : coalescer := {| entries := ∅; order := empty_list |}.

(** The zero value of [time.Time], which a state starts with. *)
Definition open_window (now : Z) : windowState :=
  {| firstSeen := now; lastSeen := now; suppressed := no_window;
     closedFirstSeen := zeroTime |}.

Definition windowStart (c : coalescer) (k : K) : Z :=
  from_option firstSeen zeroTime (entries c !! k).

(** ** Operations *)

Definition summarise (k : K) (st : windowState) : list summary :=
  if 0 <? count (suppressed st)
  then [{| sm_key := k; sm_window := suppressed st; sm_firstSeen := firstSeen st;
           sm_lastSeen := lastSeen st |}]
  else [].

Definition drop_entry (c : coalescer) (expired : list summary) (k : K) (st : windowState)
    : coalescer * list summary :=
  ({| entries := delete k (entries c); order := unlink (order c) k |},
   (expired ++ summarise k st)%list).

(** The loop of [evict] and [drain]: from [p] on, drops entries while [go],
    all but [keep].  The successor is read before the entry is dropped. *)
Fixpoint drop_while (fuel : nat) (go : coalescer -> windowState -> bool) (keep : option K)
    (c : coalescer) (p : option K) (expired : list summary) : coalescer * list summary :=
  match fuel, p with
  | S fuel, Some k =>
      let after := next (links_of (order c) k) in
      match entries c !! k with
      | None => (c, expired)
      | Some st =>
          if go c st
          then
            let '(c, expired) :=
              if decide (keep = Some k) then (c, expired) else drop_entry c expired k st in
            drop_while fuel go keep c after expired
          else (c, expired)
      end
  | _, _ => (c, expired)
  end.

Definition list_fuel (c : coalescer) : nat := size (links (order c)).

Definition closed_by (now : Z) (st : windowState) : bool :=
  coalesceWindow <=? now - firstSeen st.

Definition evict (c : coalescer) (keep : K) (now : Z) : coalescer * list summary :=
  drop_while (list_fuel c)
    (fun c st => closed_by now st || (maxKeys <? Z.of_nat (size (entries c))))
    (Some keep) c (oldest (order c)) [].

Definition drain (c : coalescer) (now : Z) (all : bool) : coalescer * list summary :=
  drop_while (list_fuel c) (fun _ st => all || closed_by now st) None c
    (oldest (order c)) [].

(** Whether to write a row, the window that row closes, and what was evicted. *)
Definition admit_ (c : coalescer) (key : K) (target : T) (now : Z)
    : bool * W * (coalescer * list summary) :=
  match entries c !! key with
  | None =>
      (true, no_window,
       evict {| entries := <[key := open_window now]> (entries c);
                order := pushNewest (order c) key |} key now)
  | Some st =>
      if now - firstSeen st <? coalesceWindow
      then
        (false, no_window,
         evict {| entries := <[key := {| firstSeen := firstSeen st; lastSeen := now;
                                         suppressed := note (suppressed st) target;
                                         closedFirstSeen := closedFirstSeen st |}]> (entries c);
                  order := order c |} key now)
      else
        (true,
         if 0 <? count (suppressed st) then note (suppressed st) target else no_window,
         evict {| entries := <[key := {| firstSeen := now; lastSeen := now;
                                         suppressed := no_window;
                                         closedFirstSeen := firstSeen st |}]> (entries c);
                  order := pushNewest (unlink (order c) key) key |} key now)
  end.

Definition reopen (c : coalescer) (key : K) (closed : W) : coalescer :=
  match entries c !! key with
  | None => c
  | Some st =>
      let l := unlink (order c) key in
      if count closed =? 0 then {| entries := delete key (entries c); order := l |}
      else
        let c := {| entries := <[key := {| firstSeen := closedFirstSeen st;
                                           lastSeen := lastSeen st; suppressed := closed;
                                           closedFirstSeen := closedFirstSeen st |}]> (entries c);
                    order := l |} in
        {| entries := entries c; order := insertOrdered (windowStart c) l key |}
  end.

(** [sort.SliceStable] by the start of the window. *)
Fixpoint insert_summary (s : summary) (l : list summary) : list summary :=
  match l with
  | [] => [s]
  | s' :: l' => if sm_firstSeen s' <? sm_firstSeen s then s' :: insert_summary s l' else s :: l
  end.

Definition sortSummaries (l : list summary) : list summary := foldr insert_summary [] l.

(** The row of a summary. *)
Definition summary_event (s : summary) : AuditEvent :=
  event (sm_key s)
    (Some (addTo (sm_window s)
       (<["window_closed" := DBool true]>
          (<["first_seen" := DText (FormatTime (sm_firstSeen s))]>
             (<["last_seen" := DText (FormatTime (sm_lastSeen s))]> ∅))))).

Definition restored (s : summary) : windowState :=
  {| firstSeen := sm_firstSeen s; lastSeen := sm_lastSeen s; suppressed := sm_window s;
     closedFirstSeen := zeroTime |}.

(** One pass along the list: the cursor only moves towards newer entries. *)
Fixpoint restore_from (c : coalescer) (cursor : option K) (summaries : list summary)
    : coalescer * list log_line :=
  match summaries with
  | [] => (c, [])
  | s :: summaries =>
      if bool_decide (is_Some (entries c !! sm_key s))
      then
        let '(c, lines) := restore_from c cursor summaries in
        (c, if logs_opened_since then DroppedOpenedSince (summary_event s) :: lines else lines)
      else if maxKeys <=? Z.of_nat (size (entries c))
      then
        let '(c, lines) := restore_from c cursor summaries in
        (c, DroppedAtCap (summary_event s) :: lines)
      else
        let cursor := walk (list_fuel c) (fun k => windowStart c k <=? sm_firstSeen s)
                        (order c) cursor in
        restore_from
          {| entries := <[sm_key s := restored s]> (entries c);
             order := insertBefore (order c) (sm_key s) cursor |} cursor summaries
  end.

Definition restore (c : coalescer) (summaries : list summary) : coalescer * list log_line :=
  restore_from c (oldest (order c)) (sortSummaries summaries).
End Coalescer.

Arguments coalescer K W {_ _}.
