(* ===== verification/CoalescerInv.v ===== *)
(** * What the coalescer keeps

    The links of a coalescer list the keys of its map once each, by the start
    of their windows, and every operation keeps it so ([in_order]); evicting
    and draining drop what they are meant to and no more; and no repeat
    leaves the map but in a summary or a log line ([tally]). *)
From stdpp Require Import base list gmap strings sorting.
From S2P Require Import Prelude AuditText AuditChain EvictionList Coalescer.

Local Open Scope Z_scope.

Class CoalescedLaws (K T W : Type) {kind : Coalesced K T W} := {
  count_note w t : count (note w t) = count w + 1;
  count_none : count no_window = 0;
  window_ok : W -> Prop;
  ok_none : window_ok no_window;
  ok_note w t : window_ok w -> window_ok (note w t);
  ok_count w : window_ok w -> 0 <= count w;
  maxKeys_pos : 0 < maxKeys;
}.

Section Inv.
Context {K T W : Type} `{Countable K} {kind : Coalesced K T W} {laws : CoalescedLaws K T W}.
Implicit Types (c : coalescer K W) (l : list K) (st : windowState W) (k : K).

(** ** The invariant *)

Definition older c (a b : K) : Prop := windowStart c a <= windowStart c b.

Record in_order c l : Prop := {
  io_lists : lists (order c) l;
  io_keys k : k ∈ l <-> is_Some (entries c !! k);
  io_sorted : StronglySorted (older c) l;
}.

(** Nothing started later than [now], and each window is well formed. *)
Definition timely c (now : Z) : Prop :=
  map_Forall (fun _ st => firstSeen st <= now /\ window_ok (suppressed st)) (entries c).

Lemma windowStart_at c k st : entries c !! k = Some st -> windowStart c k = firstSeen st.
Proof. unfold windowStart. by intros ->. Qed.

Lemma sorted_ext c c' l :
  (forall k, k ∈ l -> windowStart c' k = windowStart c k) ->
  StronglySorted (older c) l -> StronglySorted (older c') l.
Proof.
  induction l as [|k l IH]; intros He Hs; [constructor|].
  apply StronglySorted_inv in Hs as [Hs Hk]. constructor.
  - apply IH; [|done]. intros x Hx. apply He. by right.
  - rewrite Forall_forall in *. intros x Hx. unfold older in *.
    rewrite !He by (by left || by right). by apply Hk.
Qed.

Lemma sorted_mid (R : K -> K -> Prop) l1 k l2 :
  StronglySorted R (l1 ++ l2) -> Forall (fun x => R x k) l1 -> Forall (R k) l2 ->
  StronglySorted R (l1 ++ k :: l2).
Proof.
  rewrite !StronglySorted_app, !Forall_forall. intros (H1 & H2 & H3) Hl Hr. split_and!; [|done|].
  - intros x y Hx [->|Hy]%elem_of_cons; [by apply Hl|by apply H1].
  - constructor; [done|]. by apply Forall_forall.
Qed.

Lemma sorted_without (R : K -> K -> Prop) l1 k l2 :
  StronglySorted R (l1 ++ k :: l2) -> StronglySorted R (l1 ++ l2).
Proof.
  rewrite !StronglySorted_app. intros (H1 & H2 & [H3 _]%StronglySorted_inv). split_and!; [|done|done].
  intros x y Hx Hy. apply H1; [done|by right].
Qed.

Lemma in_order_fuel c l : in_order c l -> (length l <= list_fuel c)%nat.
Proof. intros Hi. apply lists_size, Hi. Qed.

Lemma in_order_size c l : in_order c l -> size (entries c) = length l.
Proof.
  intros [Hl Hk _]. rewrite <- size_dom.
  rewrite <- (size_list_to_set (C := gset K)) by apply (lists_once _ _ Hl).
  f_equal. apply set_eq. intros k. by rewrite elem_of_dom, elem_of_list_to_set, Hk.
Qed.

Lemma no_coalescer_in_order : in_order (no_coalescer : coalescer K W) [].
Proof.
  split; [by split; [constructor|..]| |constructor]. intros k. simpl. rewrite lookup_empty.
  split; [by intros ?%elem_of_nil|by intros [? ?]].
Qed.

(** Taking an entry out, and putting one in between two halves. *)
Lemma in_order_delete c l1 k l2 :
  in_order c (l1 ++ k :: l2) ->
  in_order {| entries := delete k (entries c); order := unlink (order c) k |} (l1 ++ l2).
Proof.
  intros [Hl Hk Hs]. pose proof (lists_once _ _ Hl) as Hn.
  assert (k ∉ l1 ++ l2) as Hout.
  { rewrite <- Permutation_middle in Hn. by apply NoDup_cons in Hn as [? _]. }
  split; simpl.
  - by apply unlink_lists.
  - intros x. destruct (decide (x = k)) as [->|Hne].
    + rewrite lookup_delete_eq. split; [done|by intros [? ?]].
    + rewrite lookup_delete_ne by done. rewrite <- Hk, !elem_of_app, elem_of_cons. tauto.
  - eapply sorted_ext; [|eapply sorted_without, Hs]. intros x Hx. unfold windowStart. simpl.
    by rewrite lookup_delete_ne by (intros ->; done).
Qed.

Lemma in_order_insert c l1 k l2 st e :
  in_order c (l1 ++ l2) -> entries c !! k = None -> lists e (l1 ++ k :: l2) ->
  Forall (fun x => windowStart c x <= firstSeen st) l1 ->
  (forall x l3, l2 = x :: l3 -> firstSeen st <= windowStart c x) ->
  in_order {| entries := <[k := st]> (entries c); order := e |} (l1 ++ k :: l2).
Proof.
  intros [_ Hk Hs] Hnone Hl H1 H2.
  assert (k ∉ l1 ++ l2) as Hout by (rewrite Hk, Hnone; by intros [? ?]).
  assert (forall x, x ∈ l1 ++ l2 ->
    windowStart {| entries := <[k := st]> (entries c); order := e |} x = windowStart c x) as Hsame.
  { intros x Hx. unfold windowStart. simpl. by rewrite lookup_insert_ne by (intros ->; done). }
  split; [done|..]; simpl.
  - intros x. destruct (decide (x = k)) as [->|Hne].
    + rewrite lookup_insert_eq. split; [done|set_solver].
    + rewrite lookup_insert_ne by done. rewrite <- Hk, !elem_of_app, elem_of_cons. tauto.
  - assert (Forall (fun x => firstSeen st <= windowStart c x) l2) as H2'.
    { apply StronglySorted_app in Hs as (_ & _ & Hs). destruct l2 as [|x l2]; [constructor|].
      specialize (H2 x l2 eq_refl). apply StronglySorted_inv in Hs as [_ Hs]. constructor; [done|].
      eapply Forall_impl; [exact Hs|]. unfold older. simpl. lia. }
    assert (windowStart {| entries := <[k := st]> (entries c); order := e |} k = firstSeen st) as Hat
      by (apply windowStart_at; simpl; by rewrite lookup_insert_eq).
    apply sorted_mid; [by eapply sorted_ext| |]; rewrite Forall_forall in *; intros x Hx;
      unfold older; rewrite Hat, Hsame by (apply elem_of_app; by (left + right)); auto.
Qed.

Lemma in_order_push c l k st :
  in_order c l -> entries c !! k = None ->
  (forall x, x ∈ l -> windowStart c x <= firstSeen st) ->
  in_order {| entries := <[k := st]> (entries c); order := pushNewest (order c) k |} (l ++ [k]).
Proof.
  intros Hi Hnone Hle. apply in_order_insert; rewrite ?app_nil_r; try done.
  - apply pushNewest_lists; [apply Hi|]. rewrite (io_keys _ _ Hi), Hnone. by intros [? ?].
  - by apply Forall_forall.
Qed.

(** Changing what an entry holds, but not its start. *)
Lemma in_order_update c l k st st' :
  in_order c l -> entries c !! k = Some st -> firstSeen st' = firstSeen st ->
  in_order {| entries := <[k := st']> (entries c); order := order c |} l.
Proof.
  intros [Hl Hk Hs] Hst Hf. split; [done|..]; simpl.
  - intros x. rewrite Hk. destruct (decide (x = k)) as [->|Hne].
    + rewrite lookup_insert_eq, Hst. split; eauto.
    + by rewrite lookup_insert_ne.
  - eapply sorted_ext; [|exact Hs]. intros x _. unfold windowStart. simpl.
    destruct (decide (x = k)) as [->|Hne]; [rewrite lookup_insert_eq, Hst; simpl; done|].
    by rewrite lookup_insert_ne.
Qed.

(** ** The repeats held *)

Definition held (p : K -> bool) (k : K) (st : windowState W) : Z :=
  if p k then count (suppressed st) else 0.

Definition tally (p : K -> bool) c : Z :=
  map_fold (fun k st n => held p k st + n) 0 (entries c).

(** The repeats summaries stand for. *)
Definition summed (p : K -> bool) (l : list (summary K W)) : Z :=
  foldr (fun s n => (if p (sm_key s) then count (sm_window s) else 0) + n) 0 l.

Lemma tally_insert p k st (m : gmap K (windowState W)) o o' :
  m !! k = None ->
  tally p {| entries := <[k := st]> m; order := o |} =
  held p k st + tally p {| entries := m; order := o' |}.
Proof.
  intros Hk. unfold tally. simpl. rewrite map_fold_insert_L; [done| |done]. intros; lia.
Qed.

Lemma tally_delete p k st (m : gmap K (windowState W)) o o' :
  m !! k = Some st ->
  tally p {| entries := m; order := o |} =
  held p k st + tally p {| entries := delete k m; order := o' |}.
Proof.
  intros Hk. unfold tally. simpl. rewrite (map_fold_delete_L _ _ k st); [done| |done].
  intros; lia.
Qed.

Lemma tally_update p k st st' (m : gmap K (windowState W)) o o' :
  m !! k = Some st ->
  tally p {| entries := <[k := st']> m; order := o |} =
  tally p {| entries := m; order := o' |} - held p k st + held p k st'.
Proof.
  intros Hk. rewrite <- insert_delete_eq.
  rewrite (tally_insert p k st' (delete k m) o o') by apply lookup_delete_eq.
  rewrite (tally_delete p k st m o' o') by done. lia.
Qed.

Lemma tally_order p c o : tally p {| entries := entries c; order := o |} = tally p c.
Proof. done. Qed.

Lemma summed_app p a b : summed p (a ++ b) = summed p a + summed p b.
Proof. induction a as [|s a IH]; simpl; [done|]. unfold summed in *. lia. Qed.

Lemma summarise_held p k st :
  0 <= count (suppressed st) -> summed p (summarise k st) = held p k st.
Proof.
  intros Hc. unfold summarise, held. destruct (0 <? _) eqn:E; simpl; destruct (p k); lia.
Qed.

(** ** Dropping *)

(** [drops c ex c']: some entries of [c] are dropped, with these summaries. *)
Inductive drops : coalescer K W -> list (summary K W) -> coalescer K W -> Prop :=
| drops_none c : drops c [] c
| drops_one c k st ex c' :
    entries c !! k = Some st -> drops (fst (drop_entry c [] k st)) ex c' ->
    drops c (summarise k st ++ ex) c'.

Lemma drops_sub c ex c' : drops c ex c' -> entries c' ⊆ entries c.
Proof.
  induction 1 as [c|c k st ex c' Hk _ IH]; [done|]. etrans; [exact IH|]. apply delete_subseteq.
Qed.

Lemma summarise_in s k st :
  s ∈ summarise k st -> sm_key s = k /\ sm_firstSeen s = firstSeen st /\
    sm_window s = suppressed st /\ 0 < count (sm_window s).
Proof.
  unfold summarise. destruct (0 <? _) eqn:E; [|by intros ?%elem_of_nil].
  intros ->%list_elem_of_singleton. simpl. split_and!; [done..|lia].
Qed.

(** What is summed up was in the map and no longer is. *)
Lemma drops_keys c ex c' s :
  drops c ex c' -> s ∈ ex ->
  (exists st, entries c !! sm_key s = Some st /\ sm_firstSeen s = firstSeen st /\
     sm_window s = suppressed st) /\
  entries c' !! sm_key s = None /\ 0 < count (sm_window s).
Proof.
  induction 1 as [c|c k st ex c' Hk Hd IH]; [by intros ?%elem_of_nil|].
  intros [(-> & Hf & Hw & Hp)%summarise_in|Hin]%elem_of_app.
  - split; [by exists st|split; [|done]]. apply drops_sub in Hd.
    eapply lookup_weaken_None; [|exact Hd]. apply lookup_delete_eq.
  - destruct (IH Hin) as ((st' & Hs & Hf) & ?). split; [|done]. exists st'. split; [|done].
    eapply lookup_weaken; [exact Hs|]. apply delete_subseteq.
Qed.

Lemma drops_once c ex c' : drops c ex c' -> NoDup (map sm_key ex).
Proof.
  induction 1 as [c|c k st ex c' Hk Hd IH]; [constructor|]. rewrite map_app.
  unfold summarise. destruct (0 <? _); simpl; [|done]. constructor; [|done].
  intros (s & Hs & Hin)%list_elem_of_fmap.
  destruct (drops_keys _ _ _ _ Hd Hin) as ((st' & Hst & _) & _).
  simpl in Hst. rewrite <- Hs, lookup_delete_eq in Hst. done.
Qed.

Lemma timely_sub c c' now : entries c' ⊆ entries c -> timely c now -> timely c' now.
Proof. intros Hs Ht k st Hk. apply (Ht k). by eapply lookup_weaken. Qed.

Lemma drops_tally p c ex c' now :
  drops c ex c' -> timely c now -> tally p c = tally p c' + summed p ex.
Proof.
  induction 1 as [c|c k st ex c' Hk Hd IH]; intros Ht; [simpl; lia|].
  rewrite summed_app, summarise_held by apply ok_count, (Ht k st Hk).
  rewrite <- (tally_order p c (order c)), (tally_delete p k st _ _ (unlink (order c) k)) by done.
  assert (timely (fst (drop_entry c [] k st)) now) as Ht'
    by (eapply timely_sub; [|exact Ht]; apply delete_subseteq).
  specialize (IH Ht'). simpl in IH. lia.
Qed.

(** The loop: of the entries it passes all but the one to keep are dropped,
    and it ends at the end of the list or where [go] says. *)
Lemma drop_while_spec fuel go keep c l1 l2 ex c' ex' :
  in_order c (l1 ++ l2) -> (length l2 <= fuel)%nat ->
  drop_while fuel go keep c (first l2 None) ex = (c', ex') ->
  exists kept r, Forall (fun k => keep = Some k) kept /\ suffix r l2 /\
    in_order c' (l1 ++ kept ++ r) /\
    (forall k r' st, r = k :: r' -> entries c' !! k = Some st -> go c' st = false) /\
    (exists ex1, ex' = ex ++ ex1 /\ drops c ex1 c') /\
    (forall k, keep = Some k -> entries c' !! k = entries c !! k).
Proof.
  revert c l1 l2 ex. induction fuel as [|fuel IH]; intros c l1 l2 ex Hi Hf Hw.
  { destruct l2; [|simpl in Hf; lia]. injection Hw as <- <-. exists [], [].
    split_and!; try done. exists []. by rewrite app_nil_r; split; [|constructor]. }
  destruct l2 as [|k l2]; simpl in Hw.
  { injection Hw as <- <-. exists [], [].
    split_and!; try done. exists []. by rewrite app_nil_r; split; [|constructor]. }
  assert (is_Some (entries c !! k)) as [st Hst] by (apply (io_keys _ _ Hi); set_solver).
  rewrite Hst in Hw. rewrite (lists_at _ _ _ _ (io_lists _ _ Hi)) in Hw. simpl in Hw.
  destruct (go c st) eqn:Hgo; cycle 1.
  { injection Hw as <- <-. exists [], (k :: l2). split_and!; try done.
    - intros k' r' st' [= <- <-]. rewrite Hst. by intros [= <-].
    - exists []. by rewrite app_nil_r; split; [|constructor]. }
  destruct (decide (keep = Some k)) as [->|Hne]; simpl in Hw.
  - destruct (IH c (l1 ++ [k]) l2 ex) as (kept & r & Hk & Hr & Ho & Hstop & Hex & Hkeep);
      [by rewrite <- app_assoc|simpl in Hf; lia|done|].
    exists (k :: kept), r. split_and!; try done; [by constructor|by apply suffix_cons_r|].
    by rewrite <- app_assoc in Ho.
  - destruct (IH _ l1 l2 _ (in_order_delete _ _ _ _ Hi) ltac:(simpl in Hf; lia) Hw)
      as (kept & r & Hk & Hr & Ho & Hstop & (ex1 & -> & Hd) & Hkeep).
    exists kept, r. split_and!; try done; [by apply suffix_cons_r|..].
    + exists (summarise k st ++ ex1). split; [by rewrite app_assoc|]. by econstructor.
    + intros k' ->. rewrite Hkeep by done. simpl. by rewrite lookup_delete_ne by congruence.
Qed.

Lemma evict_spec c l keep now c' ex :
  in_order c l -> evict c keep now = (c', ex) ->
  drops c ex c' /\ (exists l', in_order c' l') /\
  entries c' !! keep = entries c !! keep /\ Z.of_nat (size (entries c')) <= maxKeys.
Proof.
  intros Hi He. unfold evict in He. rewrite (lists_oldest _ _ (io_lists _ _ Hi)) in He.
  destruct (drop_while_spec _ _ _ c [] l [] c' ex Hi (in_order_fuel _ _ Hi) He)
    as (kept & r & Hk & _ & Ho & Hstop & (ex1 & -> & Hd) & Hkeep).
  split_and!; [done|by eexists|by apply Hkeep|]. pose proof maxKeys_pos as Hpos.
  destruct r as [|k r].
  - rewrite (in_order_size _ _ Ho), !app_nil_r. simpl.
    pose proof (lists_once _ _ (io_lists _ _ Ho)) as Hn. rewrite app_nil_r in Hn.
    destruct kept as [|a [|b kept]]; simpl; [lia..|].
    rewrite !Forall_cons in Hk. destruct Hk as ([= <-] & [= <-] & _).
    apply NoDup_cons in Hn as [Hn _]. set_solver.
  - assert (is_Some (entries c' !! k)) as [st Hst] by (apply (io_keys _ _ Ho); set_solver).
    specialize (Hstop k r st eq_refl Hst). simpl in Hstop. apply orb_false_iff in Hstop. lia.
Qed.

Lemma drain_spec c l now all c' ex :
  in_order c l -> drain c now all = (c', ex) ->
  drops c ex c' /\ (exists l', in_order c' l') /\
  map_Forall (fun _ st => all = false /\ closed_by now st = false) (entries c').
Proof.
  intros Hi He. unfold drain in He. rewrite (lists_oldest _ _ (io_lists _ _ Hi)) in He.
  destruct (drop_while_spec _ _ _ c [] l [] c' ex Hi (in_order_fuel _ _ Hi) He)
    as (kept & r & Hk & _ & Ho & Hstop & (ex1 & -> & Hd) & _).
  destruct kept; [|by rewrite Forall_cons in Hk; destruct Hk]. simpl in Ho.
  split_and!; [done|by eexists|]. intros k st Hst.
  assert (k ∈ r) as Hin by (apply (io_keys _ _ Ho); eauto).
  destruct r as [|x r]; [by apply elem_of_nil in Hin|].
  assert (is_Some (entries c' !! x)) as [stx Hx] by (apply (io_keys _ _ Ho); by left).
  pose proof (Hstop x r stx eq_refl Hx) as Hgo. simpl in Hgo. apply orb_false_iff in Hgo as [Ha Hc].
  split; [done|]. apply elem_of_cons in Hin as [->|Hin].
  { rewrite Hst in Hx. by injection Hx as ->. }
  pose proof (io_sorted _ _ Ho) as [_ Hs]%StronglySorted_inv. rewrite Forall_forall in Hs.
  specialize (Hs k Hin). unfold older in Hs.
  rewrite (windowStart_at _ _ _ Hx), (windowStart_at _ _ _ Hst) in Hs.
  unfold closed_by in *. lia.
Qed.

(** ** The operations keep the invariant and account for the repeats *)

Record sound c (now : Z) : Prop := {
  so_order : exists l, in_order c l;
  so_timely : timely c now;
  so_cap : Z.of_nat (size (entries c)) <= maxKeys;
}.

(** How many events the row written for an event stands for. *)
Definition own_weight (closed : W) : Z := if count closed =? 0 then 1 else count closed.

Definition if_key (p : K -> bool) (k : K) (n : Z) : Z := if p k then n else 0.

(** What [admit_] leaves for the caller to write. *)
Record admitted c key now (record : bool) (closed : W) c' (ex : list (summary K W)) : Prop := {
  ad_sound : sound c' now;
  ad_drops : exists c1, drops c1 ex c' /\ timely c1 now /\
    forall k, is_Some (entries c1 !! k) -> k = key \/ is_Some (entries c !! k);
  ad_tally p : tally p c + if_key p key 1 =
    tally p c' + summed p ex + (if record then if_key p key (own_weight closed) else 0);
  ad_behind : is_Some (entries c !! key) \/ record = true /\ count closed = 0;
  ad_entry : exists st, entries c' !! key = Some st /\
    (record = true -> count (suppressed st) = 0 /\
     (count closed <> 0 -> window_ok closed /\ closedFirstSeen st <= now));
}.

Lemma timely_insert c now k st o :
  timely c now -> firstSeen st <= now -> window_ok (suppressed st) ->
  timely {| entries := <[k := st]> (entries c); order := o |} now.
Proof. intros Ht Hst Hw. by apply map_Forall_insert_2. Qed.

Lemma timely_later c now now' : timely c now -> now <= now' -> timely c now'.
Proof. intros Ht Hle k st Hk. destruct (Ht k st Hk). split; [lia|done]. Qed.

(** [admit_] changes the entry of the key and then evicts. *)
Lemma admitted_evict c key now (record : bool) (closed : W) c1 l1 st ce :
  in_order c1 l1 -> timely c1 now ->
  entries c1 = <[key := st]> (entries c) ->
  (forall p, tally p c + if_key p key 1 =
    tally p c1 + (if record then if_key p key (own_weight closed) else 0)) ->
  is_Some (entries c !! key) \/ record = true /\ count closed = 0 ->
  (record = true -> count (suppressed st) = 0 /\
    (count closed <> 0 -> window_ok closed /\ closedFirstSeen st <= now)) ->
  evict c1 key now = ce ->
  admitted c key now record closed (fst ce) (snd ce).
Proof.
  destruct ce as [c' ex]. intros Hi Ht He Hp Hb Hr Hev.
  destruct (evict_spec _ _ _ _ _ _ Hi Hev) as (Hd & Ho & Hk & Hc). simpl. split.
  - split; [done| |done]. eapply timely_sub; [by eapply drops_sub|done].
  - exists c1. split_and!; [done..|]. intros k. rewrite He.
    destruct (decide (k = key)) as [->|Hne]; [by left|]. rewrite lookup_insert_ne by done. auto.
  - intros p. rewrite Hp, (drops_tally p _ _ _ _ Hd Ht). lia.
  - done.
  - exists st. rewrite Hk, He, lookup_insert_eq. done.
Qed.

Lemma admit_spec c now0 key target now record closed c' ex :
  sound c now0 -> now0 <= now -> admit_ c key target now = (record, closed, (c', ex)) ->
  admitted c key now record closed c' ex.
Proof.
  intros [[l Hi] Ht _] Hle. pose proof (timely_later _ _ _ Ht Hle) as Ht'. unfold admit_.
  pose proof count_none as H0. destruct c as [m o]. simpl in *.
  destruct (m !! key) as [st|] eqn:Hk; [|intros [= <- <- He]].
  - destruct (Ht' key st Hk) as [Hf Hwo]. simpl in Hf. pose proof (ok_count _ Hwo) as Hc.
    destruct (_ <? _) eqn:Hw; intros [= <- <- He].
    + eapply (admitted_evict _ _ _ false) with (l1 := l) (ce := (c', ex)); [..|exact He]; try done; simpl.
      * by apply (in_order_update {| entries := m; order := o |} _ key st).
      * by apply (timely_insert {| entries := m; order := o |}), ok_note.
      * intros p. rewrite (tally_update p key st _ m o o) by done. unfold held, if_key. simpl.
        rewrite count_note. destruct (p key); lia.
      * left. eauto.
    + assert (key ∈ l) as (l1 & l2 & ->)%list_elem_of_split by (apply (io_keys _ _ Hi); eauto).
      pose proof (in_order_delete _ _ _ _ Hi) as Hi'. simpl in Hi'.
      eapply (admitted_evict _ _ _ true) with (l1 := ((l1 ++ l2) ++ [key])) (ce := (c', ex)); [..|exact He]; simpl.
      * rewrite <- (insert_delete_eq m). apply (in_order_push _ _ _ _ Hi').
        -- apply lookup_delete_eq.
        -- simpl. intros x [y Hx]%(io_keys _ _ Hi'). rewrite (windowStart_at _ _ _ Hx).
           simpl in Hx. apply lookup_delete_Some in Hx as [_ Hx]. by apply (Ht' x y).
      * by apply (timely_insert {| entries := m; order := o |}), ok_none.
      * done.
      * intros p. rewrite (tally_update p key st _ m _ o) by done.
        unfold held, if_key, own_weight. simpl.
        destruct (0 <? count _) eqn:E; rewrite ?count_note, ?H0; destruct (p key); simpl;
          try destruct (_ =? 0) eqn:E'; lia.
      * left. eauto.
      * intros _. simpl. split; [done|].
        destruct (0 <? _) eqn:E; [split; [by apply ok_note|done]|lia].
  - eapply (admitted_evict _ _ _ true) with (l1 := (l ++ [key])) (ce := (c', ex)); [..|exact He]; simpl.
    + apply (in_order_push _ _ _ _ Hi); [done|]. intros x [y Hx]%(io_keys _ _ Hi).
      rewrite (windowStart_at _ _ _ Hx). by apply (Ht' x y).
    + by apply (timely_insert {| entries := m; order := o |}), ok_none.
    + done.
    + intros p. rewrite (tally_insert p key _ m _ o) by done. unfold held, if_key, own_weight. simpl.
      rewrite H0. simpl. destruct (p key); lia.
    + by right.
    + intros _. simpl. split; [done|]. rewrite H0. lia.
Qed.

Lemma reopen_spec c now key closed st :
  sound c now -> entries c !! key = Some st -> count (suppressed st) = 0 ->
  (count closed <> 0 -> window_ok closed /\ closedFirstSeen st <= now) ->
  sound (reopen c key closed) now /\
  (forall p, tally p (reopen c key closed) = tally p c + if_key p key (count closed)) /\
  (is_Some (entries (reopen c key closed) !! key) <-> count closed <> 0) /\
  (forall k, k <> key -> entries (reopen c key closed) !! k = entries c !! k).
Proof.
  intros [[l Hi] Ht Hsz] Hst H0 Hcl. unfold reopen. rewrite Hst. destruct c as [m o]. simpl in *.
  assert (key ∈ l) as (l1 & l2 & ->)%list_elem_of_split by (apply (io_keys _ _ Hi); eauto).
  pose proof (in_order_delete _ _ _ _ Hi) as Hi'. simpl in Hi'.
  destruct (count closed =? 0) eqn:Ec.
  - assert (count closed = 0) as E by lia. split_and!.
    + split; simpl; [by eexists|eapply timely_sub; [|exact Ht]; apply delete_subseteq|].
      rewrite map_size_delete_Some by eauto. lia.
    + intros p. rewrite (tally_delete p key st m o (unlink o key)) by done.
      unfold held, if_key. destruct (p key); lia.
    + simpl. rewrite lookup_delete_eq. split; [by intros [? ?]|lia].
    + intros k Hne. simpl. by rewrite lookup_delete_ne.
  - destruct Hcl as [Hok Hf]; [lia|].
    set (st' := {| firstSeen := closedFirstSeen st; lastSeen := _; suppressed := closed;
                   closedFirstSeen := closedFirstSeen st |}).
    set (c1 := {| entries := <[key := st']> m; order := unlink o key |}).
    assert (windowStart c1 key = closedFirstSeen st) as Hat
      by (rewrite (windowStart_at c1 key st'); [done|apply lookup_insert_eq]).
    assert (key ∉ l1 ++ l2) as Hout.
    { rewrite (io_keys _ _ Hi'). simpl. rewrite lookup_delete_eq. by intros [? ?]. }
    assert (forall x, x ∈ l1 ++ l2 -> windowStart c1 x =
      windowStart {| entries := delete key m; order := unlink o key |} x) as Hsame.
    { intros x Hx. assert (x <> key) by (intros ->; done). unfold windowStart. simpl.
      by rewrite lookup_insert_ne, lookup_delete_ne. }
    destruct (insertOrdered_lists (windowStart c1) _ _ key (io_lists _ _ Hi') Hout)
      as (a & b & Hab & Hl & Ha & Hb). rewrite Hab in Hi', Hsame. rewrite Hat in Ha, Hb.
    split_and!.
    + split; simpl.
      * exists (a ++ key :: b). rewrite <- (insert_delete_eq m).
        apply (in_order_insert _ _ _ _ _ _ Hi'); simpl; [apply lookup_delete_eq|done|..].
        -- rewrite Forall_forall in *. intros x Hx. rewrite <- Hsame; [by apply Ha|].
           apply elem_of_app. by left.
        -- intros x l3 ->. rewrite <- Hsame; [by eapply Z.lt_le_incl, Hb|].
           apply elem_of_app. right. by left.
      * by apply (timely_insert {| entries := m; order := o |}).
      * rewrite map_size_insert_Some by eauto. done.
    + intros p. rewrite (tally_update p key st _ m _ o) by done. unfold held, if_key. simpl.
      destruct (p key); lia.
    + simpl. rewrite lookup_insert_eq. split; [lia|eauto].
    + intros k Hne. simpl. by rewrite lookup_insert_ne.
Qed.

(** ** Restoring *)

Lemma insert_summary_perm s (l : list (summary K W)) : insert_summary s l ≡ₚ s :: l.
Proof.
  induction l as [|x l IH]; simpl; [done|]. destruct (_ <? _); [|done]. rewrite IH. constructor.
Qed.

Lemma sortSummaries_perm (l : list (summary K W)) : sortSummaries l ≡ₚ l.
Proof. induction l as [|x l IH]; simpl; [done|]. by rewrite insert_summary_perm, IH. Qed.

Definition before (a b : summary K W) : Prop := sm_firstSeen a <= sm_firstSeen b.

Lemma insert_summary_sorted s (l : list (summary K W)) :
  StronglySorted before l -> StronglySorted before (insert_summary s l).
Proof.
  induction 1 as [|x l Hs IH Hx]; simpl; [by repeat constructor|].
  destruct (_ <? _) eqn:E; constructor; try done.
  - rewrite insert_summary_perm. constructor; [unfold before; lia|done].
  - by constructor.
  - constructor; [unfold before; lia|]. eapply Forall_impl; [exact Hx|]. unfold before. lia.
Qed.

Lemma sortSummaries_sorted (l : list (summary K W)) : StronglySorted before (sortSummaries l).
Proof. induction l; simpl; [constructor|by apply insert_summary_sorted]. Qed.

Lemma summed_perm p (a b : list (summary K W)) : a ≡ₚ b -> summed p a = summed p b.
Proof. induction 1; simpl; lia. Qed.

(** Summaries that may be put back. *)
Record restorable c now (ss : list (summary K W)) : Prop := {
  re_once : NoDup (map sm_key ss);
  re_gone : Forall (fun s => entries c !! sm_key s = None) ss;
  re_held : Forall (fun s => sm_firstSeen s <= now /\ window_ok (sm_window s)) ss;
}.

(** What [restore] leaves: what it could not put back is what it logged. *)
Record put_back c ss now c' lines : Prop := {
  pb_sound : sound c' now;
  pb_lost : exists lost, lines = map (fun s => DroppedAtCap (summary_event s)) lost /\
    forall p, tally p c' + summed p lost = tally p c + summed p ss;
  pb_keys k : is_Some (entries c' !! k) ->
    is_Some (entries c !! k) \/ k ∈ map sm_key ss;
  pb_same k : k ∉ map sm_key ss -> entries c' !! k = entries c !! k;
}.

(** One summary put back: the cursor is past what started no later. *)
Lemma restore_one now s c l1 l2 :
  in_order c (l1 ++ l2) -> timely c now -> Z.of_nat (size (entries c)) < maxKeys ->
  entries c !! sm_key s = None -> sm_firstSeen s <= now /\ window_ok (sm_window s) ->
  Forall (fun k => windowStart c k <= sm_firstSeen s) l1 ->
  let cursor := walk (list_fuel c) (fun k => windowStart c k <=? sm_firstSeen s) (order c)
                  (first l2 None) in
  let c1 := {| entries := <[sm_key s := restored s]> (entries c);
               order := insertBefore (order c) (sm_key s) cursor |} in
  exists l1' l2', cursor = first l2' None /\ in_order c1 (l1' ++ l2') /\
    timely c1 now /\ Z.of_nat (size (entries c1)) <= maxKeys /\
    Forall (fun k => windowStart c1 k <= sm_firstSeen s) l1'.
Proof.
  intros Hi Ht Hsz Hg Hh Hl1 cursor. pose proof (io_lists _ _ Hi) as Hli.
  assert (cursor = first (skip_while (fun k => windowStart c k <=? sm_firstSeen s) l2) None) as Hcu.
  { apply (walk_lists _ _ _ _ _ Hli). pose proof (in_order_fuel _ _ Hi). rewrite length_app in *. lia. }
  destruct (skip_while_split (fun k => windowStart c k <=? sm_firstSeen s) l2)
    as (a & Hab & Ha & Hb). set (b := skip_while _ l2) in *. rewrite Hab, app_assoc in Hi.
  assert (sm_key s ∉ (l1 ++ a) ++ b) as Hout by (rewrite (io_keys _ _ Hi), Hg; by intros [? ?]).
  assert (Forall (fun k => windowStart c k <= sm_firstSeen s) (l1 ++ a)) as Hla.
  { apply Forall_app. split; [done|]. eapply Forall_impl; [exact Ha|]. simpl. lia. }
  intros c1. exists ((l1 ++ a) ++ [sm_key s]), b. split_and!; [done|..].
  - rewrite <- app_assoc. apply (in_order_insert _ _ _ _ _ _ Hi); [done| |done|].
    + rewrite Hcu. by apply insertBefore_lists; [apply Hi|].
    + intros x l3 Hx. specialize (Hb x l3 Hx). simpl in *. lia.
  - by apply (timely_insert c); [|apply Hh..].
  - simpl. rewrite map_size_insert_None by done. lia.
  - apply Forall_app. split.
    + rewrite Forall_forall in *. intros k Hx. specialize (Hla k Hx).
      unfold windowStart in *. simpl. rewrite lookup_insert_ne; [done|].
      intros <-. apply Hout, elem_of_app. by left.
    + constructor; [|constructor]. rewrite (windowStart_at c1 _ (restored s)); [done|].
      apply lookup_insert_eq.
Qed.

Lemma put_back_one now s ss c c1 c' lines :
  entries c !! sm_key s = None -> entries c1 = <[sm_key s := restored s]> (entries c) ->
  put_back c1 ss now c' lines -> put_back c (s :: ss) now c' lines.
Proof.
  intros Hg He [Hso (lost & -> & Hp) Hk Hsm]. split; [done|..].
  - exists lost. split; [done|]. intros p. rewrite Hp. destruct c1 as [m o]. simpl in He. subst m.
    rewrite (tally_insert p _ _ (entries c) _ (order c)), (tally_order p c (order c)) by done.
    unfold held. simpl. lia.
  - intros k Hx. destruct (Hk k Hx) as [Hin|Hin]; [|right; by right]. rewrite He in Hin.
    destruct (decide (k = sm_key s)) as [->|Hne]; [right; by left|].
    rewrite lookup_insert_ne in Hin by done. by left.
  - intros k [Hne Hx]%not_elem_of_cons. rewrite Hsm, He by done. by rewrite lookup_insert_ne.
Qed.

Lemma put_back_skip now s ss c c' lines :
  put_back c ss now c' lines ->
  put_back c (s :: ss) now c' (DroppedAtCap (summary_event s) :: lines).
Proof.
  intros [Hso (lost & -> & Hp) Hk Hsm]. split; [done|..].
  - exists (s :: lost). split; [done|]. intros p. specialize (Hp p). simpl. lia.
  - intros k Hx. destruct (Hk k Hx); [by left|right; by right].
  - intros k Hx. apply Hsm. intros Hy. apply Hx. by right.
Qed.

Lemma restore_from_spec now ss c l1 l2 c' lines :
  in_order c (l1 ++ l2) -> timely c now -> Z.of_nat (size (entries c)) <= maxKeys ->
  restorable c now ss -> StronglySorted before ss ->
  Forall (fun s => Forall (fun k => windowStart c k <= sm_firstSeen s) l1) ss ->
  restore_from c (first l2 None) ss = (c', lines) ->
  put_back c ss now c' lines.
Proof.
  revert c l1 l2 c' lines. induction ss as [|s ss IH]; intros c l1 l2 c' lines Hi Ht Hsz Hre Hso Hcu.
  { intros [= <- <-]. split; [split; eauto| |by left|done].
    exists []. split; [done|]. simpl. lia. }
  destruct Hre as [[Hns Hn]%NoDup_cons [Hg Hgs]%Forall_cons [Hsh Hh]%Forall_cons].
  apply StronglySorted_inv in Hso as [Hso Hs]. apply Forall_cons in Hcu as [Hcs Hcu].
  simpl. rewrite bool_decide_eq_false_2 by (rewrite Hg; by intros [? ?]).
  destruct (_ <=? _) eqn:Ecap.
  - destruct (restore_from _ _ _) as [c1 lines1] eqn:Er. intros [= <- <-].
    apply put_back_skip. by eapply IH.
  - destruct (restore_one now s c l1 l2) as (a & b & -> & Hi1 & Ht1 & Hsz1 & Ha); try done; [lia|].
    intros Hr. eapply put_back_one; [done| |eapply IH; [exact Hi1|..|exact Hr]]; try done.
    + split; [done| |done]. rewrite Forall_forall in *. intros x Hx. simpl.
      rewrite lookup_insert_ne; [by apply Hgs|]. intros E. apply Hns. rewrite E.
      by apply list_elem_of_fmap_2.
    + eapply Forall_impl; [exact Hs|]. unfold before. intros x Hx.
      eapply Forall_impl; [exact Ha|]. simpl. lia.
Qed.

Lemma drops_restorable c ex c' now : drops c ex c' -> timely c now -> restorable c' now ex.
Proof.
  intros Hd Ht. split; [by eapply drops_once|..]; apply Forall_forall; intros s Hs;
    destruct (drops_keys _ _ _ _ Hd Hs) as ((st & Hst & Hf & Hw) & Hn & _); [done|].
  rewrite Hf, Hw. apply (Ht _ _ Hst).
Qed.

Lemma restore_spec now ss c c' lines :
  sound c now -> restorable c now ss -> restore c ss = (c', lines) ->
  put_back c ss now c' lines.
Proof.
  intros [[l Hi] Ht Hsz] [Hn Hg Hh] Hr. unfold restore in Hr.
  rewrite (lists_oldest _ _ (io_lists _ _ Hi)) in Hr. pose proof (sortSummaries_perm ss) as Hp.
  destruct (restore_from_spec now (sortSummaries ss) c [] l c' lines) as [Hs (lost & Hl & Ht') Hk Hsm];
    try done.
  - split; by rewrite Hp.
  - apply sortSummaries_sorted.
  - by apply Forall_forall.
  - split; [done|..].
    + exists lost. split; [done|]. intros p. rewrite Ht'. by rewrite (summed_perm p _ _ Hp).
    + intros k Hx. destruct (Hk k Hx) as [?|Hin]; [by left|right]. by rewrite Hp in Hin.
    + intros k Hx. apply Hsm. by rewrite Hp.
Qed.
End Inv.
