(* ===== verification/CoalescedAudit.v ===== *)
(** * Refusals and failures in the audit log
      (server/src/internal/auth: audit_denials.go, audit_failures.go,
      audit_coalesce.go, and newEvent and recordFailure of audit.go)

    The two coalescers with their keys, windows and rows, and the operations
    of the store that pass refusals and failed changes through them into the
    log of AuditChain.  Every transaction may fail, each query of it on its
    own.  [recordAuditInOwnTx] is the one of AuditChain. *)
From Stdlib Require Import Ascii.
From stdpp Require Import base list gmap strings.
From S2P Require Import Prelude AuditText AuditChain AuditVerify AuditSound EvictionList Coalescer.

Local Open Scope Z_scope.

(** encoding/json, as far as the rows of a coalescer need it: the details
    written, and the member "repeat_count" of what was written. *)
Class DetailsJSON := {
  marshal_details : details -> string;
  repeat_count : string -> option Z;
}.

(** ** Keys *)

Record Actor := {
  Actor_Type : string;
  Actor_ID : option Z;
  Actor_Name : string;
  Actor_IP : string;
}.

(** [utf8.RuneStart]: not a continuation byte. *)
Definition RuneStart (c : ascii) : bool :=
  negb (Z.land (Z.of_nat (nat_of_ascii c)) 192 =? 128).

(** Back from [cut] to the start of a rune. *)
Fixpoint rune_cut (text : string) (cut : nat) : nat :=
  match cut with
  | O => O
  | S less => if from_option RuneStart true (String.get cut text) then cut else rune_cut text less
  end.

Definition maxAuditErrorBytes : nat := 500.
Definition auditErrorTruncated : string := "... (truncated)".
Definition maxAuditIPLen : nat := 64.
Definition maxDenialActionLen : nat := 64.

Definition capAuditError (text : string) : string :=
  if (String.length text <=? maxAuditErrorBytes)%nat then text
  else
    let cut := rune_cut text (maxAuditErrorBytes - String.length auditErrorTruncated) in
    String.append (String.substring 0 cut text) auditErrorTruncated.

Definition capAuditIP (ip : string) : string :=
  if (String.length ip <=? maxAuditIPLen)%nat then ip
  else String.substring 0 (rune_cut ip maxAuditIPLen) ip.

Record denialKey := {
  dk_actorType : string;
  dk_actorID : Z;
  dk_actorName : string;
  dk_actorIP : string;
  dk_action : string;
  dk_reason : string;
}.

Record failureKey := {
  fk_actorType : string;
  fk_actorID : Z;
  fk_actorName : string;
  fk_actorIP : string;
  fk_action : string;
  fk_targetType : string;
  fk_targetID : Z;
  fk_hasTargetID : bool;
  fk_targetName : string;
  fk_errText : string;
}.

#[export] Instance denialKey_eq_dec : EqDecision denialKey.
Proof. solve_decision. Defined.

#[export] Instance failureKey_eq_dec : EqDecision failureKey.
Proof. solve_decision. Defined.

#[export] Program Instance denialKey_countable : Countable denialKey :=
  inj_countable'
    (fun k => (dk_actorType k, dk_actorID k, dk_actorName k, dk_actorIP k, dk_action k, dk_reason k))
    (fun '(t, i, n, a, c, r) =>
       {| dk_actorType := t; dk_actorID := i; dk_actorName := n; dk_actorIP := a;
          dk_action := c; dk_reason := r |}) _.
Next Obligation. by intros []. Qed.

#[export] Program Instance failureKey_countable : Countable failureKey :=
  inj_countable'
    (fun k => (fk_actorType k, fk_actorID k, fk_actorName k, fk_actorIP k, fk_action k,
               fk_targetType k, fk_targetID k, fk_hasTargetID k, fk_targetName k, fk_errText k))
    (fun '(t, i, n, a, c, ty, ti, h, tn, e) =>
       {| fk_actorType := t; fk_actorID := i; fk_actorName := n; fk_actorIP := a;
          fk_action := c; fk_targetType := ty; fk_targetID := ti; fk_hasTargetID := h;
          fk_targetName := tn; fk_errText := e |}) _.
Next Obligation. by intros []. Qed.

Definition denialKeyOf (actor : Actor) (action reason : string) : denialKey :=
  {| dk_actorType := Actor_Type actor; dk_actorID := default 0 (Actor_ID actor);
     dk_actorName := Actor_Name actor; dk_actorIP := capAuditIP (Actor_IP actor);
     dk_action := if (maxDenialActionLen <? String.length action)%nat
                  then String.substring 0 maxDenialActionLen action else action;
     dk_reason := reason |}.

Definition failureKeyOf (actor : Actor) (action targetType : string) (targetID : option Z)
    (targetName errText : string) : failureKey :=
  {| fk_actorType := Actor_Type actor; fk_actorID := default 0 (Actor_ID actor);
     fk_actorName := Actor_Name actor; fk_actorIP := capAuditIP (Actor_IP actor);
     fk_action := action; fk_targetType := targetType; fk_targetID := default 0 targetID;
     fk_hasTargetID := bool_decide (is_Some targetID);
     fk_targetName := targetName; fk_errText := errText |}.

(** ** Windows *)

Record denialWindow := {
  dw_count : Z;
  targets : list string;
  truncated : Z;
}.

Definition maxDenialTargets : nat := 20.

Definition denialWindow_note (w : denialWindow) (target : string) : denialWindow :=
  let n := dw_count w + 1 in
  if bool_decide (target ∈ targets w)
  then {| dw_count := n; targets := targets w; truncated := truncated w |}
  else if (length (targets w) <? maxDenialTargets)%nat
  then {| dw_count := n; targets := targets w ++ [target]; truncated := truncated w |}
  else {| dw_count := n; targets := targets w; truncated := truncated w + 1 |}.

Definition denialWindow_addTo (w : denialWindow) (d : details) : details :=
  <["targets_truncated" := DInt (truncated w)]>
    (<["targets" := DTexts (targets w)]> (<["repeat_count" := DInt (dw_count w)]> d)).

Definition second : Z := 1000000000.
Definition denialCoalesceWindow : Z := 60 * second.
Definition maxDenialKeys : Z := 10000.
Definition failureCoalesceWindow : Z := 60 * second.
Definition maxFailureKeys : Z := 10000.

Section CoalescedAudit.
Context {prims : Primitives} {json : DetailsJSON}.

(** ** Rows *)

Definition newEvent (actor : Actor) (action targetType : string) (targetID : option Z)
    (targetName : string) (d : option details) : AuditEvent :=
  {| ID := 0; OccurredAt := zeroTime; ActorType := Actor_Type actor; ActorID := Actor_ID actor;
     ActorName := Actor_Name actor; ActorIP := Actor_IP actor; Action := action;
     TargetType := targetType; TargetID := targetID; TargetName := targetName;
     Outcome := "success"; Error := ""; Details := from_option marshal_details "" d;
     PrevHash := ""; Hash := ""; HashVersion := 0 |}.

Definition with_outcome (ev : AuditEvent) (outcome error : string) : AuditEvent :=
  {| ID := ID ev; OccurredAt := OccurredAt ev; ActorType := ActorType ev; ActorID := ActorID ev;
     ActorName := ActorName ev; ActorIP := ActorIP ev; Action := Action ev;
     TargetType := TargetType ev; TargetID := TargetID ev; TargetName := TargetName ev;
     Outcome := outcome; Error := error; Details := Details ev;
     PrevHash := PrevHash ev; Hash := Hash ev; HashVersion := HashVersion ev |}.

Definition nonzero (id : Z) : option Z := if id =? 0 then None else Some id.

Definition denialKey_event (k : denialKey) (d : option details) : AuditEvent :=
  with_outcome
    (newEvent {| Actor_Type := dk_actorType k; Actor_ID := nonzero (dk_actorID k);
                 Actor_Name := dk_actorName k; Actor_IP := dk_actorIP k |}
       (dk_action k) "" None "" d)
    "denied" (capAuditError (dk_reason k)).

Definition failureKey_event (k : failureKey) (d : option details) : AuditEvent :=
  with_outcome
    (newEvent {| Actor_Type := fk_actorType k; Actor_ID := nonzero (fk_actorID k);
                 Actor_Name := fk_actorName k; Actor_IP := fk_actorIP k |}
       (fk_action k) (fk_targetType k) (if fk_hasTargetID k then Some (fk_targetID k) else None)
       (fk_targetName k) d)
    "failure" (fk_errText k).

#[export] Instance denials_kind : Coalesced denialKey string denialWindow := {
  note := denialWindow_note;
  count := dw_count;
  no_window := {| dw_count := 0; targets := []; truncated := 0 |};
  maxKeys := maxDenialKeys;
  coalesceWindow := denialCoalesceWindow;
  event := denialKey_event;
  own_details := fun target closed =>
    let d := <["target" := DText target]> ∅ in
    Some (if 0 <? dw_count closed then denialWindow_addTo closed d else d);
  addTo := denialWindow_addTo;
  logs_opened_since := true;
}.

#[export] Instance failures_kind : Coalesced failureKey unit Z := {
  note := fun n _ => n + 1;
  count := fun n => n;
  no_window := 0;
  maxKeys := maxFailureKeys;
  coalesceWindow := failureCoalesceWindow;
  event := failureKey_event;
  own_details := fun _ repeats =>
    if 0 <? repeats then Some (<["repeat_count" := DInt repeats]> ∅) else None;
  addTo := fun n => <["repeat_count" := DInt n]>;
  logs_opened_since := false;
}.

(** ** Operations of the store *)

(** A transaction: its clock, and which of its queries fail. *)
Record attempt := { at_now : Z; at_fails : string -> bool }.

Record auditStore := {
  file : auditDB;
  failures : coalescer failureKey Z;
  denials : coalescer denialKey denialWindow;
}.

Definition record_rows (key : string) (w : attempt) (d : auditDB) (evs : list AuditEvent)
    : auditDB * result unit :=
  recordAuditInOwnTx (store key d (at_fails w)) (at_now w) evs.

Definition writeAuditSummaries (key : string) (w : attempt) (d : auditDB)
    (events : list AuditEvent) : auditDB * bool * list log_line :=
  match events with
  | [] => (d, true, [])
  | _ =>
      match record_rows key w d events with
      | (d, Ok _) => (d, true, [])
      | (d, Err _) => (d, false, [SummariesUnwritten (length events)])
      end
  end.

(** The event's own row, if it is to have one; when it cannot be written its
    window is undone.  With whether that happened. *)
Definition record_own {K T W} `{Countable K} {kind : Coalesced K T W} (key : string)
    (w : attempt) (d : auditDB) (c : coalescer K W) (k : K) (target : T) (record : bool)
    (closed : W) : auditDB * coalescer K W * bool :=
  if record
  then match record_rows key w d [event k (own_details target closed)] with
       | (d, Ok _) => (d, c, false)
       | (d, Err _) => (d, reopen c k closed, true)
       end
  else (d, c, false).

(** The body of [coalesceDenial] and [coalesceFailure]; [told] is what the
    server log gets when the event's own row is not written. *)
Definition coalesce {K T W} `{Countable K} {kind : Coalesced K T W} (told : list log_line)
    (key : string) (w1 w2 : attempt) (d : auditDB) (c : coalescer K W)
    (k : K) (target : T) (now : Z) : auditDB * coalescer K W * bool * list log_line :=
  let '(record, closed, (c, expired)) := admit_ c k target now in
  let '(d, summariesWritten, lines) :=
    writeAuditSummaries key w1 d (map summary_event expired) in
  let '(d, c, unwritten) := record_own key w2 d c k target record closed in
  let '(c, dropped) := if summariesWritten then (c, []) else restore c expired in
  (d, c, unwritten, lines ++ (if unwritten then told else []) ++ dropped).

(** With whether an error is returned. *)
Definition coalesceDenial (key : string) (w1 w2 : attempt) (s : auditStore)
    (k : denialKey) (target : string) (now : Z) : auditStore * bool * list log_line :=
  let '(d, c, unwritten, lines) := coalesce [] key w1 w2 (file s) (denials s) k target now in
  ({| file := d; failures := failures s; denials := c |}, unwritten, lines).

Definition coalesceFailure (key : string) (w1 w2 : attempt) (s : auditStore)
    (k : failureKey) (now : Z) : auditStore * bool * list log_line :=
  let '(d, c, unwritten, lines) :=
    coalesce [EventUnwritten] key w1 w2 (file s) (failures s) k tt now in
  ({| file := d; failures := c; denials := denials s |}, unwritten, lines).

Definition RecordCoalescedDenial (key : string) (w1 w2 : attempt) (s : auditStore)
    (actor : Actor) (action target reason : string) (now : Z) :=
  coalesceDenial key w1 w2 s (denialKeyOf actor action reason) target now.

(** [cause]: the text of the error, where there is one. *)
Definition recordFailure (key : string) (w1 w2 : attempt) (s : auditStore) (actor : Actor)
    (action targetType : string) (targetID : option Z) (targetName : string)
    (cause : option string) (now : Z) :=
  coalesceFailure key w1 w2 s
    (failureKeyOf actor action targetType targetID targetName
       (from_option capAuditError "unknown error" cause)) now.

Definition sweepCoalescedAudit (key : string) (w : attempt) (s : auditStore)
    (now : Z) (all : bool) : auditStore * list log_line :=
  let '(cf, fs) := drain (failures s) now all in
  let '(cd, ds) := drain (denials s) now all in
  let events := (map summary_event fs ++ map summary_event ds)%list in
  match writeAuditSummaries key w (file s) events with
  | (d, true, lines) => ({| file := d; failures := cf; denials := cd |}, lines)
  | (d, false, lines) =>
      let told := if all then map UnrecordedAtShutdown events else [] in
      let '(cf, lf) := restore cf fs in
      let '(cd, ld) := restore cd ds in
      ({| file := d; failures := cf; denials := cd |}, (lines ++ told ++ lf ++ ld)%list)
  end.

Definition SweepCoalescedAudit key w s now := sweepCoalescedAudit key w s now false.
Definition FlushCoalescedAudit key w s now := sweepCoalescedAudit key w s now true.
End CoalescedAudit.
