(* ===== verification/CoalescedSound.v ===== *)
(** * What coalescing guarantees

    Coalescing loses no count: for every attribution (the principal, address,
    action, target, outcome and error a row carries), the events reported are
    those the rows written stand for, those held in open windows, those given
    up in the server log, and those whose own row failed with nothing to
    carry them.  And it stays bounded and in order, so that a sweep that can
    write leaves no closed window behind. *)
From stdpp Require Import base list gmap strings.
From S2P Require Import Prelude AuditText AuditChain AuditVerify AuditSound EvictionList Coalescer CoalescerInv CoalescedAudit.

Local Open Scope Z_scope.
Local Open Scope res_scope.

#[export] Instance AuditEvent_eq_dec : EqDecision AuditEvent.
Proof. solve_decision. Defined.

(** What a row says of who did what, with the defaults filled in. *)
Definition attributed (ev : AuditEvent) : AuditEvent :=
  let ev := prepared ev zeroTime "" in
  {| ID := 0; OccurredAt := zeroTime; ActorType := ActorType ev; ActorID := ActorID ev;
     ActorName := ActorName ev; ActorIP := ActorIP ev; Action := Action ev;
     TargetType := TargetType ev; TargetID := TargetID ev; TargetName := TargetName ev;
     Outcome := Outcome ev; Error := Error ev; Details := ""; PrevHash := ""; Hash := "";
     HashVersion := 0 |}.

(** The row as it was asked for. *)
Definition same_row (ev row : AuditEvent) : Prop :=
  attributed row = attributed ev /\ Details row = Details ev.

Lemma stored_same_row ev now prev id h : same_row ev (set_hash (prepared ev now prev) id h).
Proof.
  split; [|done]. unfold attributed, prepared, set_hash, with_place. simpl.
  destruct (String.eqb (ActorType ev) "") eqn:Et; simpl; rewrite ?Et;
    destruct (String.eqb (Outcome ev) "") eqn:Eo; simpl; rewrite ?Eo; done.
Qed.

(** The decoder finds the count that was encoded, and nothing in no text. *)
Class DetailsLaws {json : DetailsJSON} := {
  repeat_count_marshal d : repeat_count (marshal_details d) =
    match d !! "repeat_count" with Some (DInt n) => Some n | _ => None end;
  repeat_count_empty : repeat_count "" = None;
}.

Section Sound.
Context {prims : Primitives} {json : DetailsJSON} {jlaws : DetailsLaws}.

(** How many events a row stands for. *)
Definition weight (ev : AuditEvent) : Z := default 1 (repeat_count (Details ev)).

(** How many events attributed as [a] the rows stand for. *)
Definition weigh (a : AuditEvent) (evs : list AuditEvent) : Z :=
  foldr (fun ev n => (if decide (attributed ev = a) then weight ev else 0) + n) 0 evs.

Lemma weigh_app a x y : weigh a (x ++ y) = weigh a x + weigh a y.
Proof. induction x as [|ev x IH]; simpl; [done|]. unfold weigh in *. lia. Qed.

Lemma weigh_same a evs rows : Forall2 same_row evs rows -> weigh a rows = weigh a evs.
Proof.
  induction 1 as [|ev row evs rows [Ha Hd] _ IH]; simpl; [done|].
  unfold weight. by rewrite Ha, Hd, IH.
Qed.

(** ** Writing rows *)

Lemma applyAuditTailMove_rows s d move before ev d' :
  applyAuditTailMove s d move before ev = Ok d' -> audit_events d' = audit_events d.
Proof.
  unfold applyAuditTailMove, writeAuditTail, writeAuditTailCurrent.
  destruct move.
  - by intros [= <-].
  - by intros (m & _ & ->%ask_value)%rbind_Ok.
  - by intros (m & _ & ->%ask_value)%rbind_Ok.
  - by intros (d1 & ->%ask_value & (m & _ & ->%ask_value)%rbind_Ok)%rbind_Ok.
Qed.

Lemma recordAudit_row s now ev d' :
  recordAudit s now ev = Ok d' ->
  exists row, audit_events d' = audit_events (db s) ++ [row] /\ same_row ev row.
Proof.
  unfold recordAudit.
  intros (st & _ & (m & _ & (h & _ & ([d1 new] & Hi & Ha)%rbind_Ok)%rbind_Ok)%rbind_Ok)%rbind_Ok.
  unfold insert_event in Hi. destruct (sqlite_sequence (db s)) as [seq|]; [|done].
  destruct (_ || _); [done|]. apply ask_value in Hi as [= -> ->].
  apply applyAuditTailMove_rows in Ha. eexists. split; [exact Ha|]. apply stored_same_row.
Qed.

Lemma record_all_rows s now evs d' :
  record_all s now evs = Ok d' ->
  exists rows, audit_events d' = audit_events (db s) ++ rows /\ Forall2 same_row evs rows.
Proof.
  revert s. induction evs as [|ev evs IH]; intros s; simpl.
  { intros [= <-]. exists []. by rewrite app_nil_r; split; [|constructor]. }
  intros (d1 & (row & Hr & Hs)%recordAudit_row & (rows & Hrs & Hss)%IH)%rbind_Ok.
  exists (row :: rows). split; [|by constructor]. simpl in Hrs. by rewrite Hrs, Hr, <- app_assoc.
Qed.

(** All of the rows are appended, or the file is left alone. *)
Lemma record_rows_spec key w d evs d' r :
  record_rows key w d evs = (d', r) ->
  exists rows, audit_events d' = audit_events d ++ rows /\
    if is_ok r then Forall2 same_row evs rows else rows = [].
Proof.
  unfold record_rows, recordAuditInOwnTx. destruct (rbind _ _) as [d1|e] eqn:E; intros [= <- <-].
  - apply rbind_Ok in E as ([] & _ & (d2 & (rows & Hr & Hs)%record_all_rows & ->%ask_value)%rbind_Ok).
    by exists rows.
  - exists []. by rewrite app_nil_r.
Qed.

(** What the log gave up. *)
Definition given_up (lines : list log_line) : list AuditEvent :=
  omap (fun l => match l with
                 | DroppedAtCap ev | DroppedOpenedSince ev => Some ev
                 | _ => None
                 end) lines.

Lemma writeAuditSummaries_spec key w d events d' ok lines :
  writeAuditSummaries key w d events = (d', ok, lines) ->
  given_up lines = [] /\ exists rows, audit_events d' = audit_events d ++ rows /\
    (if ok then Forall2 same_row events rows /\ lines = [] else rows = [] /\ lines <> []).
Proof.
  unfold writeAuditSummaries. destruct events as [|ev events].
  { intros [= <- <- <-]. split; [done|]. exists []. by rewrite app_nil_r. }
  destruct (record_rows _ _ _ _) as [d1 [u|e]] eqn:E; intros [= <- <- <-];
    apply record_rows_spec in E as (rows & Hr & Hs); (split; [done|]); by exists rows.
Qed.

(** ** One coalescer *)

(** The rows of a key are attributed alike, and carry what they stand for. *)
Class CoalescedRows (K T W : Type) {kind : Coalesced K T W} := {
  row_attributed k d : attributed (event k d) = attributed (event k None);
  row_bare k : weight (event k None) = 1;
  row_own k t w : (count w <> 0 -> 0 < count w) ->
    weight (event k (own_details t w)) = if count w =? 0 then 1 else count w;
  row_summary k w d : weight (event k (Some (addTo w d))) = count w;
}.

Section One.
Context {K T W : Type} `{Countable K} {kind : Coalesced K T W} {laws : CoalescedLaws K T W}
        {rows_laws : CoalescedRows K T W}.
Implicit Types (c : coalescer K W) (k : K).

Definition of_key (a : AuditEvent) (k : K) : bool := bool_decide (attributed (event k None) = a).

(** The events held in windows. *)
Definition pending (a : AuditEvent) c : Z := tally (of_key a) c.

Lemma weigh_event a k d :
  weigh a [event k d] = if_key (of_key a) k (weight (event k d)).
Proof.
  simpl. rewrite row_attributed. unfold if_key, of_key.
  destruct (decide _) as [E|E]; [rewrite bool_decide_eq_true_2|rewrite bool_decide_eq_false_2]; try done; lia.
Qed.

Lemma weigh_summaries a (ss : list (summary K W)) :
  weigh a (map summary_event ss) = summed (of_key a) ss.
Proof.
  induction ss as [|s ss IH]; [done|]. simpl map.
  change (summary_event s :: map summary_event ss) with ([summary_event s] ++ map summary_event ss).
  rewrite weigh_app, IH. unfold summary_event. rewrite weigh_event, row_summary. done.
Qed.

Lemma given_up_dropped (ss : list (summary K W)) :
  given_up (map (fun s => DroppedAtCap (summary_event s)) ss) = map summary_event ss.
Proof. induction ss; simpl; [done|]. by f_equal. Qed.

(** Putting back what could not be written. *)
Lemma restore_weigh c now ss c' lines :
  sound c now -> restorable c now ss -> restore c ss = (c', lines) ->
  put_back c ss now c' lines /\
  forall a, pending a c' + weigh a (given_up lines) = pending a c + weigh a (map summary_event ss).
Proof.
  intros Hs Hr Hre. pose proof (restore_spec _ _ _ _ _ Hs Hr Hre) as Hp. split; [done|].
  destruct Hp as [_ (lost & -> & Hp) _ _]. intros a.
  rewrite given_up_dropped, !weigh_summaries. apply Hp.
Qed.

(** The event, if nothing carries it: its row was not written and no window
    holds it. *)
Definition uncarried (unwritten : bool) c k : list AuditEvent :=
  if unwritten && bool_decide (entries c !! k = None) then [event k None] else [].

Record owned c k now (record : bool) (closed : W) (unwritten : bool) c'
    (rows : list AuditEvent) : Prop := {
  ow_sound : sound c' now;
  ow_weigh a : pending a c' + weigh a rows + weigh a (uncarried unwritten c' k) =
    pending a c + (if record then if_key (of_key a) k (own_weight closed) else 0);
  ow_same k' : k' <> k -> entries c' !! k' = entries c !! k';
  ow_behind : is_Some (entries c' !! k) -> record = true -> count closed <> 0 \/
    exists row, row ∈ rows /\ attributed row = attributed (event k None);
}.

Lemma record_own_spec key w d c0 c k target now record closed ex d' c' un :
  admitted c0 k now record closed c ex ->
  record_own key w d c k target record closed = (d', c', un) ->
  exists rows, audit_events d' = audit_events d ++ rows /\ owned c k now record closed un c' rows.
Proof.
  intros [Hs _ _ _ (st & Hst & Hcl)]. unfold record_own. destruct record; cycle 1.
  { intros [= <- <- <-]. exists []. rewrite app_nil_r. split; [done|]. split; try done. simpl. lia. }
  destruct (Hcl eq_refl) as [H0 Hc].
  assert (count closed <> 0 -> 0 < count closed) as Hpos.
  { intros Hne. destruct (Hc Hne) as [Hok _]. pose proof (ok_count _ Hok). lia. }
  destruct (record_rows _ _ _ _) as [d1 [u|e]] eqn:E; intros [= <- <- <-];
    apply record_rows_spec in E as (rows & Hr & Hro); exists rows; (split; [done|]).
  - apply Forall2_cons_inv_l in Hro as (row & rest & [Ha Hd] & Hn & ->).
    apply Forall2_nil_inv_l in Hn as ->. split; [done| |done|].
    + intros a. rewrite (weigh_same a [event k (own_details target closed)])
        by (constructor; [split; [exact Ha|exact Hd]|constructor]).
      rewrite weigh_event, row_own by done. unfold own_weight. simpl. lia.
    + intros _ _. right. exists row. split; [by left|]. by rewrite Ha, row_attributed.
  - simpl in Hro. subst rows. destruct (reopen_spec c now k closed st Hs Hst H0 Hc)
      as (Hs' & Ht & Hk & Hsm). split; [done| |done|].
    + intros a. unfold pending. rewrite Ht. unfold uncarried, own_weight. simpl.
      destruct (count closed =? 0) eqn:E0.
      * rewrite bool_decide_eq_true_2
          by (apply eq_None_not_Some; intros Hi%Hk; lia).
        rewrite weigh_event, row_bare. unfold if_key. destruct (of_key a k); lia.
      * rewrite bool_decide_eq_false_2; [simpl; lia|]. intros Hn.
        assert (is_Some (entries (reopen c k closed) !! k)) as [x Hx] by (apply Hk; lia).
        by rewrite Hn in Hx.
    + intros Hi _. left. by apply Hk.
Qed.

(** Every window left after that was open before, or is the event's own and
    open behind its row. *)
Lemma owned_keys c0 k now record closed c ex un c' rows1 rows :
  admitted c0 k now record closed c ex -> owned c k now record closed un c' rows ->
  forall k', is_Some (entries c' !! k') -> is_Some (entries c0 !! k') \/
    k' = k /\ exists row, row ∈ rows1 ++ rows /\ attributed row = attributed (event k None).
Proof.
  intros [_ (cx & Hdr & _ & Hcx) _ Hbe _] [_ _ Hsm Hbo] k' Hi.
  destruct (decide (k' = k)) as [->|Hne].
  - destruct Hbe as [?|[Hr Hc]]; [by left|right].
    destruct (Hbo Hi Hr) as [?|(row & Hin & Ha)]; [done|]. split; [done|]. exists row.
    split; [apply elem_of_app; by right|done].
  - left. rewrite Hsm in Hi by done. destruct Hi as [x Hx].
    destruct (Hcx k') as [?|?]; [|done..]. exists x. eapply lookup_weaken; [exact Hx|].
    by eapply drops_sub.
Qed.

(** One report: what it does to the counts, and behind what a window is open. *)
Record reported_once c k now c' (rows : list AuditEvent) (lines : list log_line)
    (unwritten : bool) : Prop := {
  rp_sound : sound c' now;
  rp_weigh a : weigh a [event k None] + pending a c =
    weigh a rows + pending a c' + weigh a (given_up lines) + weigh a (uncarried unwritten c' k);
  rp_behind k' : is_Some (entries c' !! k') -> is_Some (entries c !! k') \/
    k' = k /\ exists row, row ∈ rows /\ attributed row = attributed (event k None);
}.

Lemma given_up_app x y : given_up (x ++ y) = given_up x ++ given_up y.
Proof. apply omap_app. Qed.

Lemma coalesce_spec told key w1 w2 d c k target now0 now d' c' un lines :
  given_up told = [] -> sound c now0 -> now0 <= now ->
  coalesce told key w1 w2 d c k target now = (d', c', un, lines) ->
  exists rows, audit_events d' = audit_events d ++ rows /\
    reported_once c k now c' rows lines un.
Proof.
  intros Ht Hs Hle. unfold coalesce.
  destruct (admit_ _ _ _ _) as [[record closed] [c1 ex]] eqn:Ead.
  pose proof (admit_spec _ _ _ _ _ _ _ _ _ Hs Hle Ead) as Had.
  destruct (writeAuditSummaries _ _ _ _) as [[d1 ok] l1] eqn:Ew.
  apply writeAuditSummaries_spec in Ew as (Hl1 & rows1 & Hd1 & Hok).
  destruct (record_own _ _ _ _ _ _ _ _) as [[d2 c2] un'] eqn:Eo.
  destruct (record_own_spec _ _ _ _ _ _ _ _ _ _ _ _ _ _ Had Eo) as (rows2 & Hd2 & How).
  pose proof (owned_keys _ _ _ _ _ _ _ _ _ rows1 _ Had How) as Hkeys.
  destruct Had as [Hs1 (cx & Hdr & Htx & Hcx) Hta Hbe (st & Hst & _)].
  destruct How as [Hs2 Hwe Hsm Hbo].
  assert (forall a, weigh a [event k None] + pending a c =
    pending a c2 + weigh a (map summary_event ex) + weigh a rows2 + weigh a (uncarried un' c2 k)) as Hall.
  { intros a. specialize (Hta (of_key a)). specialize (Hwe a). unfold pending in *.
    rewrite weigh_event, row_bare, weigh_summaries. lia. }
  destruct ok.
  - intros [= <- <- <- <-]. exists (rows1 ++ rows2). split; [by rewrite Hd2, Hd1, app_assoc|].
    split; [done| |done]. intros a. rewrite Hall, !given_up_app, Hl1, weigh_app.
    destruct Hok as [Hok _]. rewrite (weigh_same a _ _ Hok).
    destruct un'; simpl; rewrite ?Ht; simpl; lia.
  - destruct Hok as [-> _]. destruct (restore _ _) as [c3 l3] eqn:Er. intros [= <- <- <- <-].
    pose proof (drops_restorable _ _ _ _ Hdr Htx) as [Hn Hg Hh].
    assert (k ∉ map sm_key ex) as Hkx.
    { intros (s & -> & Hin)%list_elem_of_fmap. rewrite Forall_forall in Hg.
      by rewrite (Hg s Hin) in Hst. }
    assert (restorable c2 now ex) as Hre.
    { split; [done| |done]. rewrite Forall_forall in *. intros s Hin. rewrite Hsm; [by apply Hg|].
      intros E. apply Hkx. rewrite <- E. by apply list_elem_of_fmap_2. }
    destruct (restore_weigh _ _ _ _ _ Hs2 Hre Er) as [[Hs3 _ Hk3 Hsm3] Hw3].
    exists rows2. split; [by rewrite Hd2, Hd1, app_nil_r|]. split; [done|..].
    + intros a. rewrite Hall. unfold uncarried. rewrite (Hsm3 k Hkx), !given_up_app, Hl1, !weigh_app.
      specialize (Hw3 a). destruct un'; simpl; rewrite ?Ht; simpl; lia.
    + intros k' Hi. destruct (Hk3 k' Hi) as [?|(s & -> & Hin)%list_elem_of_fmap]; [by apply Hkeys|].
      left. destruct (drops_keys _ _ _ _ Hdr Hin) as ((x & Hx & _) & _).
      destruct (Hcx (sm_key s)) as [E|?]; [eauto| |done]. exfalso. apply Hkx. rewrite <- E.
      by apply list_elem_of_fmap_2.
Qed.

(** One coalescer drained for a sweep. *)
Lemma drain_weigh c clock now all c' ss :
  sound c clock -> drain c now all = (c', ss) ->
  sound c' clock /\ restorable c' clock ss /\ entries c' ⊆ entries c /\
  (forall s, s ∈ ss -> is_Some (entries c !! sm_key s)) /\
  (forall a, pending a c = pending a c' + weigh a (map summary_event ss)) /\
  map_Forall (fun _ st => all = false /\ closed_by now st = false) (entries c').
Proof.
  intros [[l Hi] Ht Hsz] Hd. destruct (drain_spec _ _ _ _ _ _ Hi Hd) as (Hdr & Ho & Hop).
  pose proof (drops_sub _ _ _ Hdr) as Hsub. split_and!; try done.
  - split; [done|by eapply timely_sub|]. pose proof (map_subseteq_size _ _ Hsub). lia.
  - by eapply drops_restorable.
  - intros s Hs. destruct (drops_keys _ _ _ _ Hdr Hs) as ((x & Hx & _) & _). eauto.
  - intros a. rewrite weigh_summaries. by apply drops_tally with clock.
Qed.

Lemma sound_later c now now' : sound c now -> now <= now' -> sound c now'.
Proof. intros [Ho Ht Hs] Hle. split; [done|by eapply timely_later|done]. Qed.

Lemma no_coalescer_sound now : sound (no_coalescer : coalescer K W) now.
Proof.
  split; [by exists []; apply no_coalescer_in_order| |].
  - intros k st Hk. simpl in Hk. by rewrite lookup_empty in Hk.
  - simpl. rewrite map_size_empty. pose proof maxKeys_pos. lia.
Qed.
End One.

(** ** The two kinds *)

Lemma weight_repeat ev d n :
  Details ev = marshal_details d -> d !! "repeat_count" = Some (DInt n) -> weight ev = n.
Proof. intros Hd Hn. unfold weight. by rewrite Hd, repeat_count_marshal, Hn. Qed.

Lemma weight_one ev d :
  Details ev = marshal_details d -> d !! "repeat_count" = None -> weight ev = 1.
Proof. intros Hd Hn. unfold weight. by rewrite Hd, repeat_count_marshal, Hn. Qed.

(** A window lists distinct targets, at most the maximum, and counts no fewer
    denials than it has targets. *)
Record denials_ok (w : denialWindow) : Prop := {
  do_once : NoDup (targets w);
  do_max : (length (targets w) <= maxDenialTargets)%nat;
  do_truncated : 0 <= truncated w;
  do_count : Z.of_nat (length (targets w)) + truncated w <= dw_count w;
}.

Lemma denialWindow_note_ok w t : denials_ok w -> denials_ok (denialWindow_note w t).
Proof.
  intros [Hn Hm Ht Hc]. unfold denialWindow_note. case_bool_decide as Hin; [by split; simpl; try lia|].
  destruct (_ <? _)%nat eqn:E; split; simpl; rewrite ?length_app; simpl; try done; try lia.
  - apply NoDup_app. split_and!; [done| |by repeat constructor; apply not_elem_of_nil].
    intros x Hx ->%list_elem_of_singleton. done.
  - apply Nat.ltb_lt in E. lia.
Qed.

#[export] Program Instance denials_laws : CoalescedLaws denialKey string denialWindow := {
  window_ok := denials_ok;
}.
Next Obligation. intros w t. simpl. unfold denialWindow_note. by repeat case_match. Qed.
Next Obligation. done. Qed.
Next Obligation. split; simpl; [constructor|lia..]. Qed.
Next Obligation. apply denialWindow_note_ok. Qed.
Next Obligation. intros w [_ _ Ht Hc]. simpl. lia. Qed.
Next Obligation. done. Qed.

#[export] Program Instance failures_laws : CoalescedLaws failureKey unit Z := {
  window_ok n := 0 <= n;
}.
Next Obligation. done. Qed.
Next Obligation. done. Qed.
Next Obligation. done. Qed.
Next Obligation. simpl. lia. Qed.
Next Obligation. done. Qed.
Next Obligation. done. Qed.

Lemma addTo_repeat w d : denialWindow_addTo w d !! "repeat_count" = Some (DInt (dw_count w)).
Proof.
  unfold denialWindow_addTo. etrans; [by apply lookup_insert_ne|].
  etrans; [by apply lookup_insert_ne|]. apply lookup_insert_eq.
Qed.

#[export] Instance denials_rows : CoalescedRows denialKey string denialWindow.
Proof.
  split.
  - done.
  - intros k. unfold weight. simpl. by rewrite repeat_count_empty.
  - intros k t w Hw. simpl in *. destruct (0 <? _) eqn:E.
    + erewrite weight_repeat; [|done|apply addTo_repeat]. case_match; [lia|done].
    + erewrite weight_one; [|done|by simplify_map_eq]. case_match; [done|lia].
  - intros k w d. eapply weight_repeat; [done|apply addTo_repeat].
Qed.

#[export] Instance failures_rows : CoalescedRows failureKey unit Z.
Proof.
  split.
  - done.
  - intros k. unfold weight. simpl. by rewrite repeat_count_empty.
  - intros k t w Hw. simpl in *. destruct (0 <? _) eqn:E.
    + erewrite weight_repeat; [|done|by simplify_map_eq]. case_match; [lia|done].
    + unfold weight. simpl. rewrite repeat_count_empty. case_match; [done|lia].
  - intros k w d. eapply weight_repeat; [done|apply lookup_insert_eq].
Qed.
End Sound.
