(* ===== verification/CoalescedRuns.v ===== *)
(** * Runs of the coalesced audit log

    Refusals and failures reported in any order, sweeps and flushes in
    between, transactions failing at will, and anything else happening to the
    log: no count is lost, and what is held stays bounded and in order. *)
From stdpp Require Import base list gmap strings.
From S2P Require Import Prelude AuditText AuditChain AuditVerify AuditSound EvictionList Coalescer CoalescerInv CoalescedAudit CoalescedSound.

Local Open Scope Z_scope.

Section Runs.
Context {prims : Primitives} {json : DetailsJSON} {jlaws : DetailsLaws}.

(** [reported]: one bare row for each event; [written]: the rows the reports
    and sweeps appended; [missed]: the events whose row was not written and
    that no window carries; [logged]: the server log. *)
Record history := {
  reported : list AuditEvent;
  written : list AuditEvent;
  missed : list AuditEvent;
  logged : list log_line;
  clock : Z;
}.

Definition report (h : history) (now : Z) (ev : AuditEvent) (rows missing : list AuditEvent)
    (lines : list log_line) : history :=
  {| reported := reported h ++ [ev]; written := written h ++ rows;
     missed := missed h ++ missing; logged := logged h ++ lines; clock := now |}.

Definition swept (h : history) (rows : list AuditEvent) (lines : list log_line) : history :=
  {| reported := reported h; written := written h ++ rows; missed := missed h;
     logged := logged h ++ lines; clock := clock h |}.

(** The clock is read with the lock of the store held, so reports come in its
    order; a sweep reads it before it takes the lock. *)
Inductive audited (key : string) : history -> auditStore -> Prop :=
| audited_start now d :
    audited key
      {| reported := []; written := []; missed := []; logged := []; clock := now |}
      {| file := d; failures := no_coalescer; denials := no_coalescer |}
| audited_elsewhere h s d :
    audited key h s ->
    audited key h {| file := d; failures := failures s; denials := denials s |}
| audited_denial h s w1 w2 actor action target reason now s' unwritten lines rows :
    audited key h s -> clock h <= now ->
    RecordCoalescedDenial key w1 w2 s actor action target reason now = (s', unwritten, lines) ->
    audit_events (file s') = audit_events (file s) ++ rows ->
    let k := denialKeyOf actor action reason in
    audited key
      (report h now (event k None) rows (uncarried unwritten (denials s') k) lines) s'
| audited_failure h s w1 w2 actor action ttype tid tname cause now s' unwritten lines rows :
    audited key h s -> clock h <= now ->
    recordFailure key w1 w2 s actor action ttype tid tname cause now = (s', unwritten, lines) ->
    audit_events (file s') = audit_events (file s) ++ rows ->
    let k := failureKeyOf actor action ttype tid tname
               (from_option capAuditError "unknown error" cause) in
    audited key
      (report h now (event k None) rows (uncarried unwritten (failures s') k) lines) s'
| audited_sweep h s w now all s' lines rows :
    audited key h s ->
    sweepCoalescedAudit key w s now all = (s', lines) ->
    audit_events (file s') = audit_events (file s) ++ rows ->
    audited key (swept h rows lines) s'.

(** A window is open only behind a row of its key. *)
Definition behind_rows {K T W} `{Countable K} {kind : Coalesced K T W} (rows : list AuditEvent)
    (c : coalescer K W) : Prop :=
  forall k, is_Some (entries c !! k) ->
    exists row, row ∈ rows /\ attributed row = attributed (event k None).

Definition balanced (h : history) (s : auditStore) : Prop :=
  forall a, weigh a (reported h) =
    weigh a (written h) + pending a (failures s) + pending a (denials s) +
    weigh a (given_up (logged h)) + weigh a (missed h).

Record audit_ok (h : history) (s : auditStore) : Prop := {
  ok_failures : sound (failures s) (clock h);
  ok_denials : sound (denials s) (clock h);
  ok_balanced : balanced h s;
  ok_behind_failures : behind_rows (written h) (failures s);
  ok_behind_denials : behind_rows (written h) (denials s);
}.

Lemma behind_rows_none {K T W} `{Countable K} {kind : Coalesced K T W} rows :
  behind_rows rows (no_coalescer : coalescer K W).
Proof. intros k [? Hk]. unfold no_coalescer in Hk. simpl in Hk. by rewrite lookup_empty in Hk. Qed.

Lemma behind_rows_more {K T W} `{Countable K} {kind : Coalesced K T W} rows more (c : coalescer K W) :
  behind_rows rows c -> behind_rows (rows ++ more) c.
Proof.
  intros Hb k Hk. destruct (Hb k Hk) as (row & Hin & Ha). exists row.
  split; [apply elem_of_app; by left|done].
Qed.

Lemma behind_rows_once {K T W} `{Countable K} {kind : Coalesced K T W} {laws : CoalescedLaws K T W}
    rows more (c c' : coalescer K W) k now lines un :
  behind_rows rows c -> reported_once c k now c' more lines un -> behind_rows (rows ++ more) c'.
Proof.
  intros Hb [_ _ Hr] k' Hk'. destruct (Hr k' Hk') as [Hk|(-> & row & Hin & Ha)].
  - by apply (behind_rows_more rows more c).
  - exists row. split; [apply elem_of_app; by right|done].
Qed.

Lemma denial_ok h s key w1 w2 k target now s' un lines rows :
  audit_ok h s -> clock h <= now ->
  coalesceDenial key w1 w2 s k target now = (s', un, lines) ->
  audit_events (file s') = audit_events (file s) ++ rows ->
  audit_ok (report h now (event k None) rows (uncarried un (denials s') k) lines) s'.
Proof.
  intros [Hf Hd Hb Hbf Hbd] Hle. unfold coalesceDenial.
  destruct (coalesce _ _ _ _ _ _ _ _ _) as [[[d c] u] ls] eqn:E. intros [= <- <- <-] Hrows.
  apply (coalesce_spec _ _ _ _ _ _ _ _ (clock h)) in E as (rows' & Hr & Hrp); [|done..].
  simpl in Hrows. rewrite Hr in Hrows. apply app_inv_head in Hrows as ->.
  split; [by eapply sound_later|apply Hrp| |by apply behind_rows_more|by eapply behind_rows_once].
  intros a. cbn [report reported written missed logged failures denials].
  rewrite given_up_app, !weigh_app, (Hb a).
  pose proof (rp_weigh _ _ _ _ _ _ _ Hrp a). lia.
Qed.

Lemma failure_ok h s key w1 w2 k now s' un lines rows :
  audit_ok h s -> clock h <= now ->
  coalesceFailure key w1 w2 s k now = (s', un, lines) ->
  audit_events (file s') = audit_events (file s) ++ rows ->
  audit_ok (report h now (event k None) rows (uncarried un (failures s') k) lines) s'.
Proof.
  intros [Hf Hd Hb Hbf Hbd] Hle. unfold coalesceFailure.
  destruct (coalesce _ _ _ _ _ _ _ _ _) as [[[d c] u] ls] eqn:E. intros [= <- <- <-] Hrows.
  apply (coalesce_spec _ _ _ _ _ _ _ _ (clock h)) in E as (rows' & Hr & Hrp); [|done..].
  simpl in Hrows. rewrite Hr in Hrows. apply app_inv_head in Hrows as ->.
  split; [apply Hrp|by eapply sound_later| |by eapply behind_rows_once|by apply behind_rows_more].
  intros a. cbn [report reported written missed logged failures denials].
  rewrite given_up_app, !weigh_app, (Hb a).
  pose proof (rp_weigh _ _ _ _ _ _ _ Hrp a). lia.
Qed.

(** *** Sweeps *)

Lemma behind_rows_sub {K T W} `{Countable K} {kind : Coalesced K T W} rows (c c' : coalescer K W) :
  (forall k, is_Some (entries c' !! k) -> is_Some (entries c !! k)) ->
  behind_rows rows c -> behind_rows rows c'.
Proof. intros Hs Hb k Hk. by apply Hb, Hs. Qed.

(** What a sweep does to one coalescer: drained, and put back if the
    summaries were not written. *)
Lemma swept_one {K T W} `{Countable K} {kind : Coalesced K T W} {laws : CoalescedLaws K T W}
    {rl : CoalescedRows K T W} (c c1 c2 : coalescer K W) now0 now all ss lines :
  sound c now0 -> drain c now all = (c1, ss) -> restore c1 ss = (c2, lines) ->
  sound c2 now0 /\ (forall k, is_Some (entries c2 !! k) -> is_Some (entries c !! k)) /\
  forall a, pending a c = pending a c2 + weigh a (given_up lines).
Proof.
  intros Hs Hd Hr. destruct (drain_weigh _ _ _ _ _ _ Hs Hd) as (Hs1 & Hre & Hsub & Hin & Hw & _).
  destruct (restore_weigh _ _ _ _ _ Hs1 Hre Hr) as [[Hs2 _ Hk _] Hw2]. split_and!; [done|..].
  - intros k Hx. destruct (Hk k Hx) as [[x Hy]|(s & -> & Hy)%list_elem_of_fmap]; [|by apply Hin].
    exists x. by eapply lookup_weaken.
  - intros a. specialize (Hw a). specialize (Hw2 a). lia.
Qed.

Lemma given_up_shutdown evs : given_up (map UnrecordedAtShutdown evs) = [].
Proof. by induction evs. Qed.

Lemma sweep_ok h s key w now all s' lines rows :
  audit_ok h s -> sweepCoalescedAudit key w s now all = (s', lines) ->
  audit_events (file s') = audit_events (file s) ++ rows ->
  audit_ok (swept h rows lines) s'.
Proof.
  intros [Hf Hd Hb Hbf Hbd]. unfold sweepCoalescedAudit.
  destruct (drain (failures s) now all) as [cf fs] eqn:Ef.
  destruct (drain (denials s) now all) as [cd ds] eqn:Ed.
  destruct (writeAuditSummaries _ _ _ _) as [[d ok] ls] eqn:Ew.
  apply writeAuditSummaries_spec in Ew as (Hl & rows' & Hr & Hok). destruct ok.
  - intros [= <- <-] Hrows. simpl in Hrows. rewrite Hr in Hrows. apply app_inv_head in Hrows as ->.
    destruct (drain_weigh _ _ _ _ _ _ Hf Ef) as (Hsf & _ & Hxf & _ & Hwf & _).
    destruct (drain_weigh _ _ _ _ _ _ Hd Ed) as (Hsd & _ & Hxd & _ & Hwd & _).
    split; simpl; try done.
    + intros a. simpl. destruct Hok as [Hok _].
      rewrite given_up_app, Hl, !weigh_app, (weigh_same a _ _ Hok), weigh_app, (Hb a), Hwf, Hwd.
      simpl. lia.
    + apply behind_rows_more. eapply behind_rows_sub; [|exact Hbf].
      intros k [x Hk]. exists x. by eapply lookup_weaken.
    + apply behind_rows_more. eapply behind_rows_sub; [|exact Hbd].
      intros k [x Hk]. exists x. by eapply lookup_weaken.
  - destruct (restore cf fs) as [cf' lf] eqn:Erf. destruct (restore cd ds) as [cd' ld] eqn:Erd.
    intros [= <- <-] Hrows. destruct Hok as [-> _]. simpl in Hrows. rewrite Hr in Hrows.
    apply app_inv_head in Hrows as <-.
    destruct (swept_one _ _ _ _ _ _ _ _ Hf Ef Erf) as (Hsf & Hxf & Hwf).
    destruct (swept_one _ _ _ _ _ _ _ _ Hd Ed Erd) as (Hsd & Hxd & Hwd).
    split; simpl; rewrite ?app_nil_r; try done; [|by eapply behind_rows_sub..].
    intros a. simpl. rewrite app_nil_r, !given_up_app, Hl, !weigh_app, (Hb a), Hwf, Hwd.
    destruct all; rewrite ?given_up_shutdown; simpl; lia.
Qed.

Lemma audited_ok key h s : audited key h s -> audit_ok h s.
Proof.
  induction 1 as [now d|h s d _ [IH1 IH2 IH3 IH4 IH5]|h s w1 w2 actor action target reason now s' un lines rows _ IH
    Hle Hc Hr k|h s w1 w2 actor action ty ti tn cause now s' un lines rows _ IH Hle Hc Hr k
    |h s w now all s' lines rows _ IH Hc Hr].
  - split; [apply no_coalescer_sound..|done|apply behind_rows_none|apply behind_rows_none].
  - by split.
  - by eapply denial_ok.
  - by eapply failure_ok.
  - by eapply sweep_ok.
Qed.

(** ** The theorems *)

(** C28: however refusals and failures are reported, swept and flushed, with
    any transaction failing and whatever else happens to the log, no count is
    lost: for every attribution, the events reported are as many as the rows
    written stand for, plus those held in windows, plus those given up in the
    server log because the map was full, plus those whose own row could not
    be written while there was no window to carry them; and a window is held
    only for a key for which a row was written, so an event is never counted
    behind nothing. *)
Theorem no_event_unaccounted key h s :
  audited key h s ->
  (forall a, weigh a (reported h) =
    weigh a (written h) + pending a (failures s) + pending a (denials s) +
    weigh a (given_up (logged h)) + weigh a (missed h)) /\
  behind_rows (written h) (failures s) /\ behind_rows (written h) (denials s).
Proof. intros [_ _ Hb Hf Hd]%audited_ok. done. Qed.

(** in every run each coalescer holds at most its maximum of windows, its
    list has the keys of its map once each, in the order in which their
    windows opened, and a window of refusals lists at most twenty distinct
    targets; and a sweep, whenever its clock was read, that reports no failed
    write leaves no window that had closed by then, and a flush none at all. *)
Theorem sweep_leaves_no_closed_window key h s w now all s' lines :
  audited key h s -> sweepCoalescedAudit key w s now all = (s', lines) ->
  ((exists l, in_order (failures s) l) /\ (exists l, in_order (denials s) l) /\
   Z.of_nat (size (entries (failures s))) <= maxFailureKeys /\
   Z.of_nat (size (entries (denials s))) <= maxDenialKeys /\
   map_Forall (fun _ st => NoDup (targets (suppressed st)) /\
     (length (targets (suppressed st)) <= maxDenialTargets)%nat) (entries (denials s))) /\
  (lines = [] ->
   map_Forall (fun _ st => all = false /\ now - firstSeen st < failureCoalesceWindow)
     (entries (failures s')) /\
   map_Forall (fun _ st => all = false /\ now - firstSeen st < denialCoalesceWindow)
     (entries (denials s'))).
Proof.
  intros [[Hof Htf Hcf] [Hod Htd Hcd] _ _ _]%audited_ok He. split.
  { split_and!; [done..|]. intros k st Hk. destruct (Htd k st Hk) as [_ [Hn Hm _ _]]. done. }
  unfold sweepCoalescedAudit in *.
  destruct (drain (failures s) now all) as [cf fs] eqn:Ef.
  destruct (drain (denials s) now all) as [cd ds] eqn:Ed.
  destruct (drain_weigh (failures s) (clock h) _ _ _ _ ltac:(by split) Ef) as (_ & _ & _ & _ & _ & Hf).
  destruct (drain_weigh (denials s) (clock h) _ _ _ _ ltac:(by split) Ed) as (_ & _ & _ & _ & _ & Hd).
  destruct (writeAuditSummaries _ _ _ _) as [[d ok] ls] eqn:Ew.
  apply writeAuditSummaries_spec in Ew as (_ & rows & _ & Hok). intros ->. destruct ok.
  - apply (f_equal fst) in He. simpl in He. subst s'. unfold closed_by in *. simpl in *.
    split; [eapply map_Forall_impl; [exact Hf|]|eapply map_Forall_impl; [exact Hd|]]; simpl;
      intros _ st [? ?]; (split; [done|]); lia.
  - destruct (restore cf fs) as [cf' lf]. destruct (restore cd ds) as [cd' ld].
    apply (f_equal snd) in He. destruct Hok as [_ Hne]. by apply app_nil in He as [? _].
Qed.
End Runs.
