(* ===== verification/WitnessesCoalesced.v ===== *)
(** * The theorems on coalescing at work

    One principal is refused the same thing again and again: the first time a
    row is written, the second is counted, the third finds its window closed
    but its row cannot be written, and a sweep writes what was held. *)
From Stdlib Require Import Ascii.
From stdpp Require Import base list gmap strings countable.
From S2P Require Import Prelude AuditText AuditChain AuditVerify AuditSound WitnessesAudit EvictionList Coalescer CoalescerInv CoalescedAudit CoalescedSound CoalescedRuns.

Local Open Scope Z_scope.

(** ** A stand-in for encoding/json that keeps the count alone *)

Definition numeral (s : string) : option Z :=
  match s with
  | String "#" s => p ← from_bits s; decode p
  | _ => None
  end.

#[local] Instance counts_only : DetailsJSON := {
  marshal_details d :=
    match d !! "repeat_count" with
    | Some (DInt n) => String "#" (bits (encode n))
    | _ => "{}"
    end;
  repeat_count := numeral;
}.

#[local] Instance counts_only_laws : DetailsLaws.
Proof.
  split; [|done]. intros d. simpl. destruct (d !! "repeat_count") as [[n|b|t|l]|]; try done.
  simpl. rewrite from_bits_bits. simpl. apply decode_encode.
Defined.

#[local] Instance prims : Primitives := short.

(** ** The run *)

Definition ada : Actor :=
  {| Actor_Type := "user"; Actor_ID := Some 7; Actor_Name := "ada"; Actor_IP := "10.0.0.1" |}.

Definition works (now : Z) : attempt := {| at_now := now; at_fails := fun _ => false |}.
Definition broken (now : Z) : attempt := {| at_now := now; at_fails := fun _ => true |}.

Definition s0 : auditStore :=
  {| file := empty_log; failures := no_coalescer; denials := no_coalescer |}.

Definition deny (s : auditStore) (w : attempt) (target : string) :=
  RecordCoalescedDenial "k" w w s ada "group.delete" target "no permission" (at_now w).

Definition s1 : auditStore := fst (fst (deny s0 (works 0) "group 3")).
Definition s2 : auditStore := fst (fst (deny s1 (works second) "group 4")).
Definition s3 : auditStore := fst (fst (deny s2 (broken (61 * second)) "group 3")).
Definition s4 : auditStore := fst (SweepCoalescedAudit "k" (works (90 * second)) s3 (90 * second)).

(** The event every row of the run is about. *)
Definition refusal : AuditEvent :=
  attributed (event (denialKeyOf ada "group.delete" "no permission") None).

Definition appended (s s' : auditStore) : list AuditEvent :=
  drop (length (audit_events (file s))) (audit_events (file s')).

Definition bare : AuditEvent := event (denialKeyOf ada "group.delete" "no permission") None.

Definition past (n : nat) (now : Z) : history :=
  {| reported := replicate n bare; written := match n with O => [] | S _ => appended s0 s1 end;
     missed := []; logged := []; clock := now |}.

Definition h3 : history := past 3 (61 * second).

Lemma denied h s w target rows h' :
  let out := deny s w target in
  audited "k" h s -> clock h <= at_now w ->
  audit_events (file (fst (fst out))) = audit_events (file s) ++ rows ->
  h' = report h (at_now w) bare rows
         (uncarried (snd (fst out)) (denials (fst (fst out)))
            (denialKeyOf ada "group.delete" "no permission")) (snd out) ->
  audited "k" h' (fst (fst out)).
Proof.
  intros out Hr Hc Hro ->. assert (out = (fst (fst out), snd (fst out), snd out)) as He
    by (by destruct out as [[s' un] lines]).
  exact (audited_denial "k" h s w w ada "group.delete" target "no permission" (at_now w) _ _ _ rows
           Hr Hc He Hro).
Qed.

Ltac evaluate := vm_compute; reflexivity.

Lemma run1 : audited "k" (past 1 0) s1.
Proof.
  apply (denied (past 0 0) s0 (works 0) "group 3" (appended s0 s1));
    [apply audited_start|done|evaluate..].
Qed.

Lemma run2 : audited "k" (past 2 second) s2.
Proof.
  apply (denied (past 1 0) s1 (works second) "group 4" []); [apply run1|done|evaluate..].
Qed.

Lemma run3 : audited "k" h3 s3.
Proof.
  apply (denied (past 2 second) s2 (broken (61 * second)) "group 3" []);
    [apply run2|done|evaluate..].
Qed.

Lemma no_event_unaccounted_witness :
  weigh refusal (reported h3) = 3 /\
  weigh refusal (written h3) + pending refusal (failures s3) + pending refusal (denials s3) +
  weigh refusal (given_up (logged h3)) + weigh refusal (missed h3) = 3 /\
  pending refusal (denials s3) = 2.
Proof.
  split; [by vm_compute|split; [|by vm_compute]].
  etrans; [symmetry; apply (proj1 (no_event_unaccounted "k" h3 s3 run3))|by vm_compute].
Defined.

Lemma sweep_leaves_no_closed_window_witness :
  is_Some (entries (denials s3) !! denialKeyOf ada "group.delete" "no permission") /\
  map_Forall (fun _ st => false = false /\ 90 * second - firstSeen st < denialCoalesceWindow)
    (entries (denials s4)) /\
  (weight <$> appended s3 s4) = [2].
Proof.
  split; [by vm_compute; eexists|split; [|by vm_compute]].
  pose proof (surjective_pairing (SweepCoalescedAudit "k" (works (90 * second)) s3 (90 * second)))
    as He.
  apply (sweep_leaves_no_closed_window "k" h3 s3 (works (90 * second)) (90 * second) false _ _
           run3 He).
  evaluate.
Defined.
