(* ===== verification/GoText.v ===== *)
(** * Go strings as text

    The operations of packages [strings], [strconv] and [fmt] that the
    datastore tools use, on [string]; those of GoStrings that work on bytes
    are used through it. *)
From Stdlib Require Import Ascii ZArith.
From stdpp Require Import base list strings.
From S2P Require Import Prelude GoStrings AuditText.

Local Open Scope Z_scope.
Local Open Scope string_scope.

Definition text (b : bytes) : string := String.string_of_list_ascii b.

(** The double quote, which has no plain literal. *)
Definition dq : string := String "034" "".

(** [strings.TrimSpace], [ToLower] and [ToUpper]. *)
Definition trim (s : string) : string := text (TrimSpace (lit s)).
Definition lower `{UnicodeCase} (s : string) : string := text (ToLower (lit s)).
Definition upper `{UnicodeCase} (s : string) : string := text (ToUpper (lit s)).

(** [strings.Join]. *)
Fixpoint join (sep : string) (l : list string) : string :=
  match l with
  | [] => ""
  | [s] => s
  | s :: l => s ++ sep ++ join sep l
  end.

(** [strings.HasPrefix] and [CutPrefix]. *)
Fixpoint cut_prefix (p s : string) : option string :=
  match p, s with
  | "", _ => Some s
  | String c p, String d s => if Ascii.eqb c d then cut_prefix p s else None
  | String _ _, "" => None
  end.

Definition has_prefix (s p : string) : bool := bool_decide (is_Some (cut_prefix p s)).

(** [strings.Contains]. *)
Fixpoint contains (s sub : string) : bool :=
  has_prefix s sub || match s with "" => false | String _ s => contains s sub end.

(** [strings.HasSuffix] and [TrimSuffix]. *)
Definition has_suffix (s p : string) : bool := HasPrefix (rev (lit s)) (rev (lit p)).
Definition trim_suffix (s p : string) : string :=
  if has_suffix s p then String.substring 0 (String.length s - String.length p) s else s.

(** [strings.ReplaceAll] of one byte. *)
Fixpoint replace_byte (c : ascii) (by_ : string) (s : string) : string :=
  match s with
  | "" => ""
  | String d s => if Ascii.eqb c d then by_ ++ replace_byte c by_ s
                  else String d (replace_byte c by_ s)
  end.

(** [strings.Fields]: the runs of bytes between white space. *)
Definition word_of (word : bytes) : list bytes :=
  match word with [] => [] | _ => [rev word] end.

Fixpoint fields_from (fuel : nat) (word s : bytes) : list bytes :=
  match fuel with
  | O => []
  | S fuel =>
      match s with
      | [] => word_of word
      | c :: s' =>
          let rest := trim_left s in
          if (length rest <? length s)%nat
          then word_of word ++ fields_from fuel [] rest
          else fields_from fuel (c :: word) s'
      end
  end%list.

Definition Fields (s : string) : list string :=
  map text (fields_from (S (String.length s)) [] (lit s)).

(** Decimal digits at the front, read as a number. *)
Fixpoint leading_digits (s : string) : string :=
  match s with
  | String c s => if digit c then String c (leading_digits s) else ""
  | "" => ""
  end.

Definition minInt64 : Z := - 2 ^ 63.
Definition in_int64 (n : Z) : bool := ((minInt64 <=? n) && (n <? 2 ^ 63))%Z.

(** A sign, then digits: its value. *)
Definition signed (s : string) (digits : string -> string) : option Z :=
  match s with
  | String "-" r => n ← value (digits r); Some (- Z.of_N n)
  | String "+" r => n ← value (digits r); Some (Z.of_N n)
  | _ => n ← value (digits s); Some (Z.of_N n)
  end.

(** [strconv.ParseInt(s, 10, 64)]. *)
Definition parse_int64 (s : string) : option Z :=
  n ← signed s id; if in_int64 n then Some n else None.

(** [fmt.Sscanf(s, %d)]: a sign and the digits after it; what follows them is
    left unread.  The callers pass no leading white space, which it would
    skip. *)
Definition scan_int (s : string) : option Z :=
  n ← signed s leading_digits; if in_int64 n then Some n else None.

(** [strconv.ParseBool]. *)
Definition parse_bool (s : string) : option bool :=
  if existsb (String.eqb s) ["1"; "t"; "T"; "TRUE"; "true"; "True"] then Some true
  else if existsb (String.eqb s) ["0"; "f"; "F"; "FALSE"; "false"; "False"] then Some false
  else None.

(** ** Lemmas *)

#[global] Arguments String.append !_ _ /.

Lemma append_assoc (a b c : string) : (a ++ b) ++ c = a ++ b ++ c.
Proof. symmetry. apply app_assoc_s. Qed.

Lemma append_nil_r (a : string) : a ++ "" = a.
Proof. induction a as [|x a IH]; [done|]. cbn. by rewrite IH. Qed.

(** Equality of concatenations: to the right-nested form, the literals
    spelt out. *)
Ltac text_eq :=
  repeat (progress (rewrite ?append_assoc, ?append_nil_r; cbn [String.append]));
  try reflexivity.

Lemma join_cons sep s t l : join sep (s :: t :: l) = s ++ sep ++ join sep (t :: l).
Proof. done. Qed.

Lemma join_map_ext {A} sep (f g : A -> string) l :
  (forall x, x ∈ l -> f x = g x) -> join sep (map f l) = join sep (map g l).
Proof.
  intros Hfg. f_equal. apply map_ext_in. intros x Hx. apply Hfg. by apply list_elem_of_In.
Qed.

(** Text written by [strconv] is read back. *)
Lemma signed_FormatInt z : signed (FormatInt z) id = Some z.
Proof.
  unfold FormatInt. destruct (z <? 0)%Z eqn:Hz; simpl.
  - unfold id. rewrite value_decimal. simpl. f_equal. lia.
  - assert (signed (decimal (Z.abs_N z)) id =
            (n ← value (decimal (Z.abs_N z)); Some (Z.of_N n))) as ->.
    { pose proof (decimal_digits (Z.abs_N z)) as Hd. unfold signed.
      destruct (decimal (Z.abs_N z)) as [|c r]; [done|]. simpl in Hd.
      apply andb_true_iff in Hd as [Hd _].
      by destruct c as [[] [] [] [] [] [] [] []]. }
    rewrite value_decimal. simpl. f_equal. lia.
Qed.
