(* ===== verification/Redaction.v ===== *)
(** * Masking rules for stored values

    server/src/internal/metrics/redaction.go, probe_redaction.go and
    known_probes.go, with the constants of pkg/redact and pkg/pgsettings that
    they use: which probe columns can hold a credential, and the SQL that
    masks them.  The patterns are PostgreSQL regular expressions; they are
    kept as the text the server sends. *)
From Stdlib Require Import Ascii ZArith.
From stdpp Require Import base list strings sorting.
From S2P Require Import Prelude GoStrings AuditText GoText.

Local Open Scope string_scope.

(** ** pkg/redact *)

Definition RedactedValue : string := "********".

Definition secretColumnFragments : list string :=
  ["password"; "passwd"; "passphrase"; "secret"; "token"; "credential"; "private_key";
   "conninfo"; "connstr"; "connection_string"; "dsn";
   "sslcert"; "sslkey"; "sslrootcert"].

Definition textSecretNamePatterns : list string :=
  (secretColumnFragments ++ ["api_?key"; "access_key"])%list.

Record TextRedaction := {
  red_Name : string;
  red_Pattern : string;
  red_Replacement : string;
}.

Definition secretKeyPattern (lead trail : string) : string :=
  lead ++ "(?:" ++ join "|" textSecretNamePatterns ++ ")" ++ trail.

Definition ws : string := "[ \t\n\r\f\v]".
Definition notWS : string := "[^ \t\n\r\f\v".
Definition escapeBackslash : string := "\\\\?".
Definition sqlQuoted : string := "'(?:''|" ++ escapeBackslash ++ ".|[^'\\])*'?".
Definition sqlDollarQuoted : string :=
  "\$\$(?:[^$]|\$[^$])*(?:\$\$)?" ++
  "|\$[a-z_][a-z0-9_]*\$(?:[^$]|\$\$|\$[^a-z_$]|\$[a-z_][a-z0-9_]*(?:[^a-z0-9_$]|$))*" ++
  "(?:\$[a-z_][a-z0-9_]*\$)?".
Definition sqlConstant : string :=
  "(?:(?:e|n|u&)?" ++ sqlQuoted ++ "|" ++ sqlDollarQuoted ++ ")".
Definition sqlNestedQuoted : string :=
  "''(?:''''|" ++ escapeBackslash ++ "''|[^'])*(?:'')?".
Definition sqlBackslashQuoted : string :=
  escapeBackslash ++ "'(?:" ++
  escapeBackslash ++ escapeBackslash ++ escapeBackslash ++ escapeBackslash ++ "|" ++
  escapeBackslash ++ escapeBackslash ++ escapeBackslash ++ "'|" ++
  escapeBackslash ++ escapeBackslash ++ "[^'\\]|" ++ escapeBackslash ++ "[^'\\]|''|[^'\\])*(?:" ++
  escapeBackslash ++ "')?".
Definition nameQuote : string := "(?:(?:\\|\\\\\\)?" ++ dq ++ ")?".
Definition doubleQuoted : string := dq ++ "(?:[^" ++ dq ++ "\\]|\\.)*" ++ dq ++ "?".
Definition jsonDoubleQuoted : string :=
  "\\" ++ dq ++ "(?:[^\\]|\\[^" ++ dq ++ "])*(?:\\" ++ dq ++ ")?".
Definition secretValue : string :=
  "(?:" ++ sqlConstant ++ "|" ++ sqlNestedQuoted ++ "|" ++ sqlBackslashQuoted ++ ")".
Definition blank : string := "(?:" ++ ws ++ "|" ++ escapeBackslash ++ "[nrt])".
Definition blockComment : string := "/\*(?:[^*]|\*+[^*/]){0,32}\*+/".
Definition lineComment : string := "--(?:[^\n\\]|\\[^n])*".
Definition sep : string :=
  blank ++ "*(?:(?:" ++ blockComment ++ "|" ++ lineComment ++ ")" ++ blank ++ "*){0,2}".
Definition sep1 : string :=
  "(?:" ++ blank ++ "|" ++ blockComment ++ "|" ++ lineComment ++ ")" ++ sep.
Definition identChars : string := "[a-z0-9_.]*".

Definition MaxTextLength : Z := 65536.

(** ** pkg/pgsettings *)

Definition conninfoSettings : list string := ["primary_conninfo"].
Definition wholeValueSettings : list string := ["ssl_passphrase_command"].
Definition shellCommandSettings : list string :=
  ["archive_command"; "archive_cleanup_command"; "restore_command"; "recovery_end_command"].
Definition nonCredentialSettings : list string :=
  ["md5_password_warnings"; "password_encryption"; "ssl_passphrase_command_supports_reload"].

(** [slices.Sort] on strings. *)
Definition sort_strings : list string -> list string :=
  merge_sort (fun a b => Is_true (String.leb a b)).

Definition CredentialSettings : list string :=
  sort_strings (conninfoSettings ++ wholeValueSettings ++ shellCommandSettings)%list.

(** ** The password forms masked in free text *)

Definition textRedactions : list TextRedaction := [
  {| red_Name := "URI userinfo";
     red_Pattern := "([a-z][a-z0-9+.-]*://(?:" ++ notWS ++ ":/@']|'')*:)" ++ notWS ++ "@]+(?:@|$)";
     red_Replacement := "\1" ++ RedactedValue ++ "@" |};
  {| red_Name := "JSON key";
     red_Pattern :=
       "((?:" ++ secretKeyPattern (dq ++ "[^" ++ dq ++ "]*") ("[^" ++ dq ++ "]*") ++
       "|" ++ dq ++ "(?:pass|pwd)\\?)" ++ dq ++ ws ++ "*:" ++ ws ++ "*" ++ ")" ++
       "(?:" ++ dq ++ "(?:[^" ++ dq ++ "\\]|\\.)*" ++ dq ++ "?|\{[^}]*\}?|\[[^\]]*\]?|" ++
       notWS ++ ",}\]]+)";
     red_Replacement := "\1" ++ dq ++ RedactedValue ++ dq |};
  {| red_Name := "SET credential setting";
     red_Pattern :=
       "(set" ++ sep1 ++ nameQuote ++ "(?:" ++ join "|" CredentialSettings ++ ")" ++ nameQuote ++
       "(?:" ++ sep ++ "=|" ++ sep1 ++ "to)" ++ sep ++ ")" ++ sqlConstant;
     red_Replacement := "\1'" ++ RedactedValue ++ "'" |};
  {| red_Name := "quoted name, value";
     red_Pattern :=
       "(" ++ secretKeyPattern "'[^']*" "[^']*" ++ "'(?:::[a-z_ ]+)?" ++ sep ++ "," ++ sep ++
       "(?:new_value" ++ sep ++ "=>" ++ sep ++ ")?)" ++ sqlConstant;
     red_Replacement := "\1'" ++ RedactedValue ++ "'" |};
  {| red_Name := "keyword=value";
     red_Pattern :=
       "(" ++ secretKeyPattern identChars identChars ++ nameQuote ++ sep ++ "(?:=>?|:=)" ++ ws ++
       "*" ++ ")(?:" ++
       "(?:(?:" ++ blockComment ++ "|" ++ escapeBackslash ++ "[nrt])" ++ blank ++ "*){0,2}" ++
       "(?:" ++ secretValue ++ "|" ++ doubleQuoted ++ "|" ++ jsonDoubleQuoted ++ ")|" ++
       "(?:" ++ blockComment ++ ")*(?:" ++ notWS ++ "$'" ++ dq ++ "/]|/" ++ notWS ++ "*]|\$" ++
       notWS ++ "0-9]|\$[0-9]+" ++ notWS ++ "0-9,);" ++ dq ++ "\\])" ++
       "(?:" ++ escapeBackslash ++ "[^\n\r]|" ++ notWS ++ "])*" ++ ")";
     red_Replacement := "\1" ++ RedactedValue |};
  {| red_Name := "concatenated PASSWORD";
     red_Pattern :=
       "(" ++ secretKeyPattern identChars identChars ++ nameQuote ++ sep ++ "'" ++ sep ++ "\|\|" ++
       sep ++ "'" ++ ws ++ "*" ++ ")" ++ sqlNestedQuoted;
     red_Replacement := "\1''" ++ RedactedValue ++ "''" |};
  {| red_Name := "PASSWORD 'value'";
     red_Pattern :=
       "((?:(?:^|[^'a-z0-9_.])" ++ secretKeyPattern identChars identChars ++ nameQuote ++ sep ++ "|" ++
       secretKeyPattern ("'" ++ identChars) identChars ++ nameQuote ++ sep1 ++ ")" ++
       "(?:to" ++ sep ++ ")?)" ++ secretValue;
     red_Replacement := "\1'" ++ RedactedValue ++ "'" |}
].

(** ** Which columns are masked *)

Section Names.
Context `{UnicodeCase}.

Definition IsSecretColumnName (name : string) : bool :=
  existsb (contains (lower name)) secretColumnFragments.
End Names.

Record ProbeRedaction := {
  KeyColumn : string;
  Columns : list string;
  OptionColumns : list string;
  TextColumns : list string;
  WholeColumns : list string;
  Note : string;
}.

Definition SettingRedactionNote : string :=
  "Values of settings that can hold a credential, such as primary_conninfo, are shown as " ++
  RedactedValue ++ ".".
Definition OptionsRedactionNote : string :=
  "Values of options that can hold a credential, such as ldapbindpasswd and " ++
  "radiussecrets, are shown as " ++ RedactedValue ++ ", and so is a non-empty error, which can quote an " ++
  "option.".
Definition TextRedactionNote : string :=
  "Passwords in known forms in SQL text and row data, such as PASSWORD '...', " ++
  "password=... in a connection string and the value of a JSON key naming a password or secret, " ++
  "are shown as " ++ RedactedValue ++ "; other sensitive text, including passwords in other forms, " ++
  "is returned as stored.".

Definition text_rule (columns : list string) (note : string) : ProbeRedaction :=
  {| KeyColumn := ""; Columns := []; OptionColumns := []; TextColumns := columns;
     WholeColumns := []; Note := note |}.

(** The map [ProbeRedactions]. *)
Definition ProbeRedactions : list (string * ProbeRedaction) := [
  ("pg_settings",
   {| KeyColumn := "name"; Columns := ["setting"; "reset_val"; "boot_val"];
      OptionColumns := []; TextColumns := []; WholeColumns := [];
      Note := SettingRedactionNote |});
  ("pg_hba_file_rules",
   {| KeyColumn := ""; Columns := []; OptionColumns := ["options"]; TextColumns := [];
      WholeColumns := ["error"]; Note := OptionsRedactionNote |});
  ("pg_stat_activity", text_rule ["query"] TextRedactionNote);
  ("pg_stat_statements", text_rule ["query"] TextRedactionNote);
  ("spock_exception_log",
   text_rule ["ddl_statement"; "error_message"; "local_tup"; "remote_old_tup"; "remote_new_tup"]
     (TextRedactionNote ++ " Row images are returned as text."));
  ("spock_resolutions", text_rule ["local_tuple"; "remote_tuple"] TextRedactionNote)
].

(** A lookup in a map keyed by name, and membership of a list of names. *)
Fixpoint assoc {A} (name : string) (l : list (string * A)) : option A :=
  match l with
  | [] => None
  | (k, a) :: l => if String.eqb k name then Some a else assoc name l
  end.
Definition member (name : string) (l : list string) : bool := existsb (String.eqb name) l.

Inductive ColumnMask :=
| MaskNone | MaskOmit | MaskSetting | MaskOptions | MaskText | MaskWhole.

Section Masks.
Context `{UnicodeCase}.

Definition ProbeColumnMask (probe column : string) (columns : list string) : ColumnMask :=
  if IsSecretColumnName column then MaskOmit
  else
    match assoc probe ProbeRedactions with
    | None => MaskNone
    | Some rule =>
        if member column (OptionColumns rule) then MaskOptions
        else if member column (TextColumns rule) then MaskText
        else if member column (WholeColumns rule) then MaskWhole
        else if member column (Columns rule) then
          if member (KeyColumn rule) columns then MaskSetting else MaskOmit
        else MaskNone
    end.

Definition statementTextColumns : list (string * list string) :=
  [("pg_stat_activity", ["query"]);
   ("pg_stat_statements", ["query"]);
   ("spock_exception_log", ["ddl_statement"; "error_message"])].

Definition is_omitted (mask : ColumnMask) : bool :=
  match mask with MaskOmit => true | _ => false end.

Definition RawStatementColumns (probe : string) (columns : list string) : list string :=
  List.filter
    (fun col => member col columns && negb (is_omitted (ProbeColumnMask probe col columns)))
    (default [] (assoc probe statementTextColumns)).
End Masks.

Definition rawStatementPrefix : string := "_raw_statement_".
Definition RawStatementAlias (column : string) : string := rawStatementPrefix ++ column.

Definition knownProbes : list string :=
  ["pg_connectivity"; "pg_database"; "pg_extension"; "pg_hba_file_rules";
   "pg_ident_file_mappings"; "pg_node_role"; "pg_replication_slots"; "pg_server_info";
   "pg_settings"; "pg_stat_activity"; "pg_stat_all_indexes"; "pg_stat_all_tables";
   "pg_stat_checkpointer"; "pg_stat_connection_security"; "pg_stat_database";
   "pg_stat_database_conflicts"; "pg_stat_io"; "pg_stat_recovery_prefetch";
   "pg_stat_replication"; "pg_stat_statements"; "pg_stat_subscription";
   "pg_stat_user_functions"; "pg_stat_wal"; "pg_statio_all_sequences";
   "pg_sys_cpu_info"; "pg_sys_cpu_memory_by_process"; "pg_sys_cpu_usage_info";
   "pg_sys_disk_info"; "pg_sys_io_analysis_info"; "pg_sys_load_avg_info";
   "pg_sys_memory_info"; "pg_sys_network_info"; "pg_sys_os_info";
   "pg_sys_process_info"; "spock_exception_log"; "spock_resolutions"].

Definition IsKnownProbe (name : string) : bool := member name knownProbes.

(** ** The SQL that masks a value *)

Definition secretNamePatterns : list string :=
  (secretColumnFragments ++ ["pass$"; "key$"; "api_?key"; "access_key"; "salt"])%list.

Definition sqlStringLiteral (v : string) : string :=
  "E'" ++ replace_byte "'" "''" (replace_byte "\" "\\" v) ++ "'".

Definition RedactedText (value : string) : string :=
  foldl (fun out r =>
           "regexp_replace(" ++ out ++ ", " ++ sqlStringLiteral (red_Pattern r) ++ ", " ++
           sqlStringLiteral (red_Replacement r) ++ ", 'gi')")
    ("left(" ++ value ++ "::text, " ++ FormatInt MaxTextLength ++ ")") textRedactions.

Definition quoted_list (l : list string) : string :=
  join ", " (map (fun v => "'" ++ v ++ "'") l).

Definition secretNameMatch (lhs : string) : string :=
  lhs ++ " ~ '(" ++ join "|" secretNamePatterns ++ ")'".

Definition credentialSettingCondition (name : string) : string :=
  let lhs := "lower(" ++ name ++ ")" in
  "(" ++ lhs ++ " IN (" ++ quoted_list CredentialSettings ++ ") OR (" ++
  secretNameMatch lhs ++ " AND " ++ lhs ++ " NOT IN (" ++ quoted_list nonCredentialSettings ++ ")))".

Definition MaskedOptions (value : string) : string :=
  let opt := "o.opt" in
  let name := "split_part(" ++ opt ++ ", '=', 1)" in
  "CASE WHEN " ++ value ++ " IS NULL THEN NULL ELSE ARRAY(SELECT CASE WHEN strpos(" ++ opt ++
  ", '=') > 0 AND " ++ secretNameMatch ("lower(" ++ name ++ ")") ++ " THEN " ++ name ++ " || '=" ++
  RedactedValue ++ "' ELSE " ++ opt ++ " END FROM unnest(" ++ value ++
  ") WITH ORDINALITY AS o(opt, n) ORDER BY o.n) END".

Definition MaskedSetting (value name : string) : string :=
  "CASE WHEN " ++ credentialSettingCondition name ++ " AND " ++ value ++ " <> '' THEN '" ++
  RedactedValue ++ "' ELSE " ++ value ++ " END".

Definition MaskedWhole (value : string) : string :=
  "CASE WHEN " ++ value ++ " <> '' THEN '" ++ RedactedValue ++ "' ELSE " ++ value ++ " END".

Example credential_settings_sorted :
  CredentialSettings =
  ["archive_cleanup_command"; "archive_command"; "primary_conninfo"; "recovery_end_command";
   "restore_command"; "ssl_passphrase_command"].
Proof. vm_compute. reflexivity. Qed.
