(* ===== verification/DatastoreCatalog.v ===== *)
(** * The datastore sources (server/src/internal/tools/datastore_catalog.go)

    The sources [query_datastore] accepts, with the columns each permits: the
    static configuration sources, and the metric sources read from the live
    metrics schema.  What the datastore answers is an argument
    ([catalog_answers]). *)
From Stdlib Require Import Ascii ZArith.
From stdpp Require Import base list strings sorting.
From S2P Require Import Prelude GoStrings AuditText GoText Redaction.

Local Open Scope string_scope.
Local Open Scope res_scope.

(** ** Scopes, columns and sources *)

(** [scopeUnknown] is any other value of the integer type. *)
Inductive datastoreScope :=
| scopeConnection | scopeViaAlert | scopeHierarchy | scopeCluster | scopeGroup
| scopeGlobal | scopeAlert | scopeUnknown.

Definition scope_String (s : datastoreScope) : string :=
  match s with
  | scopeConnection => "connection"
  | scopeViaAlert => "via_alert"
  | scopeHierarchy => "hierarchy"
  | scopeCluster => "cluster"
  | scopeGroup => "group"
  | scopeGlobal => "global"
  | scopeAlert => "alert"
  | scopeUnknown => "unknown"
  end.

Definition scope_Description (s : datastoreScope) : string :=
  match s with
  | scopeConnection => "Rows for connections you can access."
  | scopeViaAlert => "Rows belonging to alerts you can see."
  | scopeHierarchy => "Estate-wide rows, rows for connections you can access, and rows for clusters or groups that contain one."
  | scopeCluster => "Clusters that contain a connection you can access."
  | scopeGroup => "Cluster groups that contain a connection you can access."
  | scopeGlobal => "All rows; the source holds no data about any connection."
  | scopeAlert => "Alerts for connections you can access, plus system alerts when no connection_ids are given."
  | scopeUnknown => "No rows."
  end.

(** [Kind] is a string in the code; any other string is an unknown kind. *)
Definition datastoreKindMetric : string := "metric".
Definition datastoreKindConfiguration : string := "configuration".

Definition metricConnectionColumn : string := "connection_id".
Definition metricTimeColumn : string := "collected_at".

Record datastoreColumn := {
  col_Name : string;
  col_DataType : string;
  col_IsMetric : bool;
  col_RedactBy : string;
  col_MaskOptions : bool;
  col_MaskWhole : bool;
  col_RedactText : bool;
  col_RedactStatement : bool;
  col_StoredType : string;
}.

Definition keyType (c : datastoreColumn) : string :=
  if String.eqb (col_StoredType c) "" then col_DataType c else col_StoredType c.

Record datastoreSource := {
  src_Name : string;
  src_Table : string;
  src_Description : string;
  src_TimeColumn : string;
  src_ConnectionColumn : string;
  src_Kind : string;
  src_Scope : datastoreScope;
  src_LiveColumn : string;
  src_Columns : list datastoreColumn;
}.

Definition source_column (s : datastoreSource) (name : string) : option datastoreColumn :=
  List.find (fun c => String.eqb (col_Name c) name) (src_Columns s).

Definition columnNames (s : datastoreSource) : list string := map col_Name (src_Columns s).

Definition typeInteger : string := "integer".
Definition typeBigint : string := "bigint".
Definition typeText : string := "text".
Definition typeVarchar : string := "character varying".
Definition typeBoolean : string := "boolean".
Definition typeTimestamptz : string := "timestamp with time zone".
Definition typeReal : string := "real".
Definition typeJSONB : string := "jsonb".

Definition new_column (name dataType : string) (isMetric redactText : bool) : datastoreColumn :=
  {| col_Name := name; col_DataType := dataType; col_IsMetric := isMetric;
     col_RedactBy := ""; col_MaskOptions := false; col_MaskWhole := false;
     col_RedactText := redactText; col_RedactStatement := false; col_StoredType := "" |}.

Definition col (name dataType : string) : datastoreColumn := new_column name dataType false false.
Definition redactedTextCol (name dataType : string) : datastoreColumn :=
  new_column name dataType false true.
Definition metricCol (name dataType : string) : datastoreColumn :=
  new_column name dataType true false.

(** ** The configuration sources *)

Definition connectionsSource : datastoreSource :=
  {| src_Name := "connections"; src_Table := "connections";
     src_Description := "Registered monitored connections. Stored passwords and certificate paths are not available.";
     src_TimeColumn := ""; src_ConnectionColumn := "id";
     src_Kind := datastoreKindConfiguration; src_Scope := scopeConnection;
     src_LiveColumn := "deleted_at";
     src_Columns := [
       col "id" typeInteger;
       col "name" typeVarchar;
       col "description" typeText;
       col "host" typeVarchar;
       col "hostaddr" typeVarchar;
       col "port" typeInteger;
       col "database_name" typeVarchar;
       col "username" typeVarchar;
       col "sslmode" typeVarchar;
       col "is_monitored" typeBoolean;
       col "is_shared" typeBoolean;
       col "enabled" typeBoolean;
       col "owner_username" typeVarchar;
       col "cluster_id" typeInteger;
       col "role" typeVarchar;
       col "membership_source" typeVarchar;
       redactedTextCol "connection_error" typeText;
       col "created_at" typeTimestamptz;
       col "updated_at" typeTimestamptz] |}.

Definition alertsSource : datastoreSource :=
  {| src_Name := "alerts"; src_Table := "alerts";
     src_Description := "Threshold, anomaly, connection and system alerts raised by the alerter. For a formatted view use get_alert_history.";
     src_TimeColumn := "triggered_at"; src_ConnectionColumn := "connection_id";
     src_Kind := datastoreKindConfiguration; src_Scope := scopeAlert;
     src_LiveColumn := "";
     src_Columns := [
       col "id" typeBigint;
       col "alert_type" typeText;
       col "rule_id" typeBigint;
       col "connection_id" typeInteger;
       col "database_name" typeText;
       col "probe_name" typeText;
       col "metric_name" typeText;
       metricCol "metric_value" typeReal;
       metricCol "threshold_value" typeReal;
       col "operator" typeText;
       col "severity" typeText;
       col "title" typeText;
       redactedTextCol "description" typeText;
       col "object_name" typeText;
       col "correlation_id" typeText;
       col "status" typeText;
       col "triggered_at" typeTimestamptz;
       col "cleared_at" typeTimestamptz;
       col "last_updated" typeTimestamptz;
       metricCol "anomaly_score" typeReal;
       col "anomaly_details" typeJSONB;
       redactedTextCol "ai_analysis" typeText;
       metricCol "ai_analysis_metric_value" typeReal;
       col "last_reevaluated_at" typeTimestamptz;
       metricCol "reevaluation_count" typeInteger;
       col "reevaluation_fingerprint" typeText] |}.

Definition alertAcknowledgmentsSource : datastoreSource :=
  {| src_Name := "alert_acknowledgments"; src_Table := "alert_acknowledgments";
     src_Description := "Acknowledgements recorded against alerts.";
     src_TimeColumn := "acknowledged_at"; src_ConnectionColumn := "";
     src_Kind := datastoreKindConfiguration; src_Scope := scopeViaAlert;
     src_LiveColumn := "";
     src_Columns := [
       col "id" typeBigint;
       col "alert_id" typeBigint;
       col "acknowledged_by" typeText;
       col "acknowledged_at" typeTimestamptz;
       col "acknowledge_type" typeText;
       col "message" typeText;
       col "false_positive" typeBoolean] |}.

Definition alertRulesSource : datastoreSource :=
  {| src_Name := "alert_rules"; src_Table := "alert_rules";
     src_Description := "Alert rule definitions and their default thresholds.";
     src_TimeColumn := ""; src_ConnectionColumn := "";
     src_Kind := datastoreKindConfiguration; src_Scope := scopeGlobal;
     src_LiveColumn := "";
     src_Columns := [
       col "id" typeBigint;
       col "name" typeText;
       col "description" typeText;
       col "category" typeText;
       col "metric_name" typeText;
       col "metric_unit" typeText;
       col "default_operator" typeText;
       metricCol "default_threshold" typeReal;
       col "default_severity" typeText;
       col "default_enabled" typeBoolean;
       col "required_extension" typeText;
       col "is_built_in" typeBoolean;
       col "created_at" typeTimestamptz] |}.

Definition alertThresholdsSource : datastoreSource :=
  {| src_Name := "alert_thresholds"; src_Table := "alert_thresholds";
     src_Description := "Per-server, per-cluster and per-group overrides of alert rule thresholds.";
     src_TimeColumn := ""; src_ConnectionColumn := "connection_id";
     src_Kind := datastoreKindConfiguration; src_Scope := scopeHierarchy;
     src_LiveColumn := "";
     src_Columns := [
       col "id" typeBigint;
       col "rule_id" typeBigint;
       col "scope" typeText;
       col "connection_id" typeInteger;
       col "cluster_id" typeInteger;
       col "group_id" typeInteger;
       col "database_name" typeText;
       col "operator" typeText;
       metricCol "threshold" typeReal;
       col "severity" typeText;
       col "enabled" typeBoolean;
       col "created_at" typeTimestamptz;
       col "updated_at" typeTimestamptz] |}.

Definition blackoutsSource : datastoreSource :=
  {| src_Name := "blackouts"; src_Table := "blackouts";
     src_Description := "One-off blackout (maintenance) windows at estate, group, cluster or server scope. Query blackout_schedules too, or use get_blackouts.";
     src_TimeColumn := "start_time"; src_ConnectionColumn := "connection_id";
     src_Kind := datastoreKindConfiguration; src_Scope := scopeHierarchy;
     src_LiveColumn := "";
     src_Columns := [
       col "id" typeBigint;
       col "scope" typeText;
       col "connection_id" typeInteger;
       col "cluster_id" typeInteger;
       col "group_id" typeInteger;
       col "database_name" typeText;
       col "reason" typeText;
       col "start_time" typeTimestamptz;
       col "end_time" typeTimestamptz;
       col "created_by" typeText;
       col "created_at" typeTimestamptz] |}.

Definition blackoutSchedulesSource : datastoreSource :=
  {| src_Name := "blackout_schedules"; src_Table := "blackout_schedules";
     src_Description := "Recurring blackout schedules (cron expressions) at estate, group, cluster or server scope.";
     src_TimeColumn := ""; src_ConnectionColumn := "connection_id";
     src_Kind := datastoreKindConfiguration; src_Scope := scopeHierarchy;
     src_LiveColumn := "";
     src_Columns := [
       col "id" typeBigint;
       col "scope" typeText;
       col "connection_id" typeInteger;
       col "cluster_id" typeInteger;
       col "group_id" typeInteger;
       col "database_name" typeText;
       col "name" typeText;
       col "cron_expression" typeText;
       metricCol "duration_minutes" typeInteger;
       col "timezone" typeText;
       col "reason" typeText;
       col "enabled" typeBoolean;
       col "created_by" typeText;
       col "created_at" typeTimestamptz;
       col "updated_at" typeTimestamptz] |}.

Definition probeConfigsSource : datastoreSource :=
  {| src_Name := "probe_configs"; src_Table := "probe_configs";
     src_Description := "Probe collection settings at global, group, cluster or server scope.";
     src_TimeColumn := ""; src_ConnectionColumn := "connection_id";
     src_Kind := datastoreKindConfiguration; src_Scope := scopeHierarchy;
     src_LiveColumn := "";
     src_Columns := [
       col "id" typeInteger;
       col "name" typeText;
       col "description" typeText;
       col "scope" typeText;
       col "connection_id" typeInteger;
       col "cluster_id" typeInteger;
       col "group_id" typeInteger;
       col "is_enabled" typeBoolean;
       metricCol "collection_interval_seconds" typeInteger;
       metricCol "retention_days" typeInteger;
       col "user_modified" typeBoolean;
       col "created_at" typeTimestamptz;
       col "updated_at" typeTimestamptz] |}.

Definition alerterSettingsSource : datastoreSource :=
  {| src_Name := "alerter_settings"; src_Table := "alerter_settings";
     src_Description := "Estate-wide alerter settings (a single row).";
     src_TimeColumn := ""; src_ConnectionColumn := "";
     src_Kind := datastoreKindConfiguration; src_Scope := scopeGlobal;
     src_LiveColumn := "";
     src_Columns := [
       col "id" typeInteger;
       metricCol "retention_days" typeInteger;
       col "default_anomaly_enabled" typeBoolean;
       metricCol "default_anomaly_sensitivity" typeReal;
       metricCol "baseline_refresh_interval_mins" typeInteger;
       metricCol "correlation_window_seconds" typeInteger;
       col "updated_at" typeTimestamptz] |}.

Definition metricBaselinesSource : datastoreSource :=
  {| src_Name := "metric_baselines"; src_Table := "metric_baselines";
     src_Description := "Statistical baselines the alerter's anomaly detection compares metrics against. For a formatted view use get_metric_baselines.";
     src_TimeColumn := ""; src_ConnectionColumn := "connection_id";
     src_Kind := datastoreKindConfiguration; src_Scope := scopeConnection;
     src_LiveColumn := "";
     src_Columns := [
       col "id" typeBigint;
       col "connection_id" typeInteger;
       col "database_name" typeText;
       col "metric_name" typeText;
       col "period_type" typeText;
       col "day_of_week" typeInteger;
       col "hour_of_day" typeInteger;
       metricCol "mean" typeReal;
       metricCol "stddev" typeReal;
       metricCol "min" typeReal;
       metricCol "max" typeReal;
       metricCol "sample_count" typeBigint;
       col "last_calculated" typeTimestamptz;
       col "earliest_sample_at" typeTimestamptz] |}.

Definition anomalyCandidatesSource : datastoreSource :=
  {| src_Name := "anomaly_candidates"; src_Table := "anomaly_candidates";
     src_Description := "Metric values the anomaly detector flagged, with each tier's verdict.";
     src_TimeColumn := "detected_at"; src_ConnectionColumn := "connection_id";
     src_Kind := datastoreKindConfiguration; src_Scope := scopeConnection;
     src_LiveColumn := "";
     src_Columns := [
       col "id" typeBigint;
       col "connection_id" typeInteger;
       col "database_name" typeText;
       col "metric_name" typeText;
       metricCol "metric_value" typeReal;
       metricCol "z_score" typeReal;
       col "detected_at" typeTimestamptz;
       col "context" typeJSONB;
       col "tier1_pass" typeBoolean;
       metricCol "tier2_score" typeReal;
       col "tier2_pass" typeBoolean;
       col "tier3_result" typeText;
       col "tier3_pass" typeBoolean;
       col "tier3_source" typeText;
       col "tier3_model" typeText;
       col "tier3_error" typeText;
       col "final_decision" typeText;
       col "alert_id" typeBigint;
       col "processed_at" typeTimestamptz] |}.

Definition correlationGroupsSource : datastoreSource :=
  {| src_Name := "correlation_groups"; src_Table := "correlation_groups";
     src_Description := "Groups of anomalies the alerter correlated in time on one connection.";
     src_TimeColumn := "start_time"; src_ConnectionColumn := "connection_id";
     src_Kind := datastoreKindConfiguration; src_Scope := scopeConnection;
     src_LiveColumn := "";
     src_Columns := [
       col "id" typeBigint;
       col "connection_id" typeInteger;
       col "database_name" typeText;
       col "start_time" typeTimestamptz;
       col "end_time" typeTimestamptz;
       metricCol "anomaly_count" typeInteger;
       col "root_cause_guess" typeText] |}.

Definition clustersSource : datastoreSource :=
  {| src_Name := "clusters"; src_Table := "clusters";
     src_Description := "Database clusters; a connection's cluster is connections.cluster_id.";
     src_TimeColumn := ""; src_ConnectionColumn := "";
     src_Kind := datastoreKindConfiguration; src_Scope := scopeCluster;
     src_LiveColumn := "";
     src_Columns := [
       col "id" typeInteger;
       col "group_id" typeInteger;
       col "name" typeVarchar;
       col "description" typeText;
       col "replication_type" typeVarchar;
       col "auto_cluster_key" typeVarchar;
       col "dismissed" typeBoolean;
       col "created_at" typeTimestamptz;
       col "updated_at" typeTimestamptz] |}.

Definition clusterGroupsSource : datastoreSource :=
  {| src_Name := "cluster_groups"; src_Table := "cluster_groups";
     src_Description := "Groups of clusters; a cluster's group is clusters.group_id.";
     src_TimeColumn := ""; src_ConnectionColumn := "";
     src_Kind := datastoreKindConfiguration; src_Scope := scopeGroup;
     src_LiveColumn := "";
     src_Columns := [
       col "id" typeInteger;
       col "name" typeVarchar;
       col "description" typeText;
       col "owner_username" typeVarchar;
       col "is_shared" typeBoolean;
       col "is_default" typeBoolean;
       col "auto_group_key" typeVarchar;
       col "created_at" typeTimestamptz;
       col "updated_at" typeTimestamptz] |}.

Definition configurationSources : list datastoreSource :=
  [connectionsSource; alertsSource; alertAcknowledgmentsSource; alertRulesSource;
   alertThresholdsSource; blackoutsSource; blackoutSchedulesSource; probeConfigsSource;
   alerterSettingsSource; metricBaselinesSource; anomalyCandidatesSource;
   correlationGroupsSource; clustersSource; clusterGroupsSource].

(** ** Identifiers and column kinds (metrics/query.go) *)

Definition letter_or_underscore (c : ascii) : bool :=
  in_range 97 122 c || in_range 65 90 c || Ascii.eqb c "_".

(** The runes of the source are bytes here: a byte of 0x80 or more belongs to
    no accepted rune. *)
Definition IsValidIdentifier (s : string) : bool :=
  match lit s with
  | [] => false
  | c :: rest =>
      letter_or_underscore c &&
      forallb (fun c => letter_or_underscore c || in_range 48 57 c) rest
  end.

Definition QuoteIdentifier (name : string) : string :=
  dq ++ replace_byte dquote (dq ++ dq) name ++ dq.

Definition dimensionColumns : list string :=
  ["connection_id"; "collected_at"; "inserted_at"; "datid"; "datname"; "database_name"; "pid";
   "usesysid"; "usename"; "application_name"; "client_addr"; "client_hostname"; "client_port";
   "backend_start"; "xact_start"; "query_start"; "state_change"; "wait_event_type";
   "wait_event"; "state"; "backend_xid"; "backend_xmin"; "query"; "backend_type"; "relid";
   "relname"; "schemaname"; "indexrelid"; "indexrelname"; "funcid"; "funcname"; "queryid";
   "slot_name"; "plugin"; "slot_type"; "sender_host"; "sender_port"; "conninfo"; "status";
   "name"; "setting"; "unit"; "category"; "short_desc"; "extra_desc"; "context"; "vartype";
   "source"; "boot_val"; "reset_val"; "sourcefile"; "sourceline"; "datdba"; "dattablespace";
   "datfrozenxid"; "datminmxid"; "userid"; "dbid"; "subid"; "remote_origin"; "local_origin"].

Definition metricTypes : list string :=
  ["bigint"; "integer"; "smallint"; "numeric"; "double precision"; "real"; "interval"].

Definition IsMetricColumn (name dataType : string) : bool :=
  negb (member name dimensionColumns) && member dataType metricTypes.

Definition latestRowInternalColumns : list string :=
  ["connection_id"; "collected_at"; "inserted_at"].
Definition textStatusColumns : list string := ["wal_status"].
Definition coldFrontTextColumns : list string := ["client_addr"; "datlocprovider"].

Definition IsEntityKeyColumn (name dataType : string) : bool :=
  if member name latestRowInternalColumns then false
  else if has_suffix name "_pretty" || member name textStatusColumns ||
          member name coldFrontTextColumns then false
  else member dataType ["text"; "character varying"; "name"].

(** [colTypes] is the map; a missing key reads as the empty string. *)
Definition EntityKeyColumns (cols : list string) (colTypes : string -> string) : list string :=
  List.filter (fun c => IsEntityKeyColumn c (colTypes c)) cols.

(** ** Metric sources *)

Section Lookup.
Context `{UnicodeCase}.

(** The mask of one column; [None] drops it. *)
Definition redact_column (name : string) (names statements : list string)
    (c : datastoreColumn) : option datastoreColumn :=
  let c := {| col_Name := col_Name c; col_DataType := col_DataType c;
              col_IsMetric := col_IsMetric c; col_RedactBy := col_RedactBy c;
              col_MaskOptions := col_MaskOptions c; col_MaskWhole := col_MaskWhole c;
              col_RedactText := col_RedactText c;
              col_RedactStatement := member (col_Name c) statements;
              col_StoredType := col_StoredType c |} in
  match ProbeColumnMask name (col_Name c) names with
  | MaskOmit => None
  | MaskSetting =>
      Some {| col_Name := col_Name c; col_DataType := col_DataType c;
              col_IsMetric := col_IsMetric c;
              col_RedactBy := from_option KeyColumn "" (assoc name ProbeRedactions);
              col_MaskOptions := col_MaskOptions c; col_MaskWhole := col_MaskWhole c;
              col_RedactText := col_RedactText c; col_RedactStatement := col_RedactStatement c;
              col_StoredType := col_StoredType c |}
  | MaskOptions =>
      Some {| col_Name := col_Name c; col_DataType := col_DataType c;
              col_IsMetric := col_IsMetric c; col_RedactBy := col_RedactBy c;
              col_MaskOptions := true; col_MaskWhole := col_MaskWhole c;
              col_RedactText := col_RedactText c; col_RedactStatement := col_RedactStatement c;
              col_StoredType := col_StoredType c |}
  | MaskWhole =>
      Some {| col_Name := col_Name c; col_DataType := col_DataType c;
              col_IsMetric := col_IsMetric c; col_RedactBy := col_RedactBy c;
              col_MaskOptions := col_MaskOptions c; col_MaskWhole := true;
              col_RedactText := col_RedactText c; col_RedactStatement := col_RedactStatement c;
              col_StoredType := col_StoredType c |}
  | MaskText =>
      let retype := negb (String.eqb (col_DataType c) typeText) in
      Some {| col_Name := col_Name c;
              col_DataType := if retype then typeText else col_DataType c;
              col_IsMetric := col_IsMetric c; col_RedactBy := col_RedactBy c;
              col_MaskOptions := col_MaskOptions c; col_MaskWhole := col_MaskWhole c;
              col_RedactText := true; col_RedactStatement := col_RedactStatement c;
              col_StoredType := if retype then col_DataType c else col_StoredType c |}
  | MaskNone => Some c
  end.

Definition redactMetricColumns (name : string) (columns : list datastoreColumn)
    : list datastoreColumn :=
  let names := map col_Name columns in
  let statements := RawStatementColumns name names in
  omap (redact_column name names statements) columns.

(** What the datastore answers: the probe relation's row, if any, and the rows
    of information_schema.columns, each scan and then the iteration able to
    fail. *)
Record ProbeRelation := {
  rel_Name : string;
  rel_Description : string;
  rel_HasBookkeeping : bool;
}.

Record column_rows := {
  scanned : list (res unit (string * string));
  iteration_failed : bool;
}.

Record catalog_answers := {
  probe_relation : string -> res unit (option ProbeRelation);
  probe_relations : res unit (list ProbeRelation);
  probe_columns : string -> res unit column_rows;
}.

Inductive lookup_error :=
| UnknownDatastoreSource
| DatastoreNotConfigured
| LookupSourceFailed
| ReadColumnsFailed
| ListSourcesFailed.

Definition LookupProbeRelation (answers : catalog_answers) (name : string)
    : res unit (option ProbeRelation) :=
  if IsKnownProbe name then probe_relation answers name else Ok None.

Definition lookupMetricTable (answers : catalog_answers) (name : string)
    : res lookup_error string :=
  match LookupProbeRelation answers name with
  | Err _ => Err LookupSourceFailed
  | Ok None => Err UnknownDatastoreSource
  | Ok (Some rel) => Ok (rel_Description rel)
  end.

(** The loop over the rows: the columns kept, and whether both bookkeeping
    columns were among them. *)
Fixpoint scan_columns (rows : list (res unit (string * string)))
    (columns : list datastoreColumn) (hasConnection hasTime : bool)
    : res lookup_error (list datastoreColumn * bool * bool) :=
  match rows with
  | [] => Ok (columns, hasConnection, hasTime)
  | Err _ :: _ => Err ReadColumnsFailed
  | Ok (colName, dataType) :: rows =>
      if IsSecretColumnName colName || negb (IsValidIdentifier colName)
      then scan_columns rows columns hasConnection hasTime
      else
        scan_columns rows
          (columns ++ [new_column colName dataType (IsMetricColumn colName dataType) false])%list
          (hasConnection || String.eqb colName metricConnectionColumn)
          (hasTime || String.eqb colName metricTimeColumn)
  end.

Definition lookupMetricColumns (answers : catalog_answers) (name : string)
    : res lookup_error (list datastoreColumn) :=
  match probe_columns answers name with
  | Err _ => Err ReadColumnsFailed
  | Ok rows =>
      let! found := scan_columns (scanned rows) [] false false in
      let '(columns, hasConnection, hasTime) := found in
      if iteration_failed rows then Err ReadColumnsFailed
      else if hasConnection && hasTime then Ok columns
      else Err UnknownDatastoreSource
  end.

Definition metricDescription (name comment : string) : string :=
  let description := trim comment in
  let description :=
    if String.eqb description "" then "Metrics collected by the " ++ name ++ " probe."
    else description in
  match assoc name ProbeRedactions with
  | Some rule => description ++ " " ++ Note rule
  | None => description
  end.

(** [pool] is [None] when no datastore is configured. *)
Definition lookupDatastoreSource (pool : option catalog_answers) (name : string)
    : res lookup_error datastoreSource :=
  match List.find (fun s => String.eqb (src_Name s) name) configurationSources with
  | Some s => Ok s
  | None =>
      if negb (IsValidIdentifier name) then Err UnknownDatastoreSource
      else
        match pool with
        | None => Err DatastoreNotConfigured
        | Some answers =>
            let! description := lookupMetricTable answers name in
            let! columns := lookupMetricColumns answers name in
            Ok {| src_Name := name; src_Table := name;
                  src_Description := metricDescription name description;
                  src_TimeColumn := metricTimeColumn;
                  src_ConnectionColumn := metricConnectionColumn;
                  src_Kind := datastoreKindMetric; src_Scope := scopeConnection;
                  src_LiveColumn := "";
                  src_Columns := redactMetricColumns name columns |}
        end
  end.

(** ** The list describe_datastore gives *)

Record datastoreSourceSummary := {
  sum_Name : string; sum_Kind : string; sum_TimeColumn : string;
  sum_Scope : datastoreScope; sum_Description : string;
}.

Definition summary_of (s : datastoreSource) : datastoreSourceSummary :=
  {| sum_Name := src_Name s; sum_Kind := src_Kind s; sum_TimeColumn := src_TimeColumn s;
     sum_Scope := src_Scope s; sum_Description := src_Description s |}.

Definition metric_summary (rel : ProbeRelation) : datastoreSourceSummary :=
  {| sum_Name := rel_Name rel; sum_Kind := datastoreKindMetric;
     sum_TimeColumn := metricTimeColumn; sum_Scope := scopeConnection;
     sum_Description := metricDescription (rel_Name rel) (rel_Description rel) |}.

(** [ListProbeRelations] keeps the known probes of the rows it reads. *)
Definition ListProbeRelations (answers : catalog_answers) : res unit (list ProbeRelation) :=
  let! rels := probe_relations answers in
  Ok (List.filter (fun r => IsKnownProbe (rel_Name r)) rels).

Definition listDatastoreSources (answers : catalog_answers)
    : res lookup_error (list datastoreSourceSummary) :=
  let config :=
    merge_sort (fun a b => Is_true (String.leb (src_Name a) (src_Name b)))
      configurationSources in
  let configNames := map src_Name config in
  match ListProbeRelations answers with
  | Err _ => Err ListSourcesFailed
  | Ok relations =>
      Ok (map summary_of config ++
          map metric_summary
            (List.filter (fun rel => rel_HasBookkeeping rel && IsValidIdentifier (rel_Name rel) &&
                                     negb (member (rel_Name rel) configNames)) relations))%list
  end.
End Lookup.
