(* ===== verification/DatastoreRequest.v ===== *)
(** * Datastore requests (server/src/internal/tools/datastore_query_builder.go)

    The arguments of [query_datastore], decoded JSON, and their parsing into a
    [datastoreRequest].  A Go [map[string]any] is an association list with
    distinct keys; an error message is a constructor carrying what the message
    quotes. *)
From Stdlib Require Import Ascii ZArith SpecFloat.
From stdpp Require Import base list strings sorting.
From S2P Require Import Prelude GoStrings AuditText GoText Redaction DatastoreCatalog.

Local Open Scope string_scope.
Local Open Scope res_scope.

(** ** Decoded JSON *)

Inductive any :=
| ANil
| ABool (b : bool)
| AString (s : string)
| AFloat64 (f : spec_float)
| AInt (n : Z)
| AInt64 (n : Z)
| AJSONNumber (s : string)
| AList (l : list any)
| AMap (m : list (string * any)).

Definition any_map := list (string * any).

(** ** Limits and names *)

Definition datastoreShapeRows : string := "rows".
Definition datastoreShapeLatest : string := "latest".
Definition datastoreShapeAggregate : string := "aggregate".

Definition datastoreDefaultPageSize : Z := 100.
Definition datastoreMaxPageSize : Z := 1000.
Definition datastoreMaxRows : Z := 100000.
Definition datastoreMaxPage : Z := datastoreMaxRows.
Definition datastoreMaxBuckets : Z := 500.
Definition datastoreMaxInValues : Z := 1000.
Definition datastoreMaxListItems : Z := 20.
Definition datastoreBucketAlias : string := "bucket_time".

Definition datastoreOperators : list (string * string) :=
  [("=", "="); ("!=", "<>"); ("<", "<"); ("<=", "<="); (">", ">"); (">=", ">=");
   ("in", "IN"); ("not in", "NOT IN"); ("like", "LIKE");
   ("is null", "IS NULL"); ("is not null", "IS NOT NULL")].

Definition datastoreAggregations : list string := ["avg"; "sum"; "min"; "max"; "count"].

(** [None] for a value is an absent key. *)
Record datastoreFilter := {
  f_Column : string;
  f_Op : string;
  f_Value : option any;
  f_Values : option any;
}.

Record datastoreOrder := { o_Column : string; o_Direction : string }.

Record datastoreRequest := {
  Source : string;
  req_Columns : list string;
  ConnectionIDs : list Z;
  TimeStart : string;
  TimeEnd : string;
  Filters : list datastoreFilter;
  Shape : string;
  GroupBy : list string;
  Aggregation : string;
  Buckets : Z;
  OrderBy : list datastoreOrder;
  Page : Z;
  PageSize : Z;
  Explain : bool;
}.

Definition datastoreRequestKeys : list string :=
  ["source"; "columns"; "connection_ids"; "time_start"; "time_end"; "filters"; "shape";
   "group_by"; "aggregation"; "buckets"; "order_by"; "page"; "page_size"; "explain"].

Definition datastoreParameterHints : list (string * string) :=
  [("connection_id", "did you mean connection_ids (an array)?");
   ("limit", "use page_size and page");
   ("offset", "use page_size and page")].

(** ** Errors *)

Inductive request_error :=
| SQLNotAccepted
| UnknownParameterHint (key hint : string)
| UnknownParameter (key : string)
| SourceRequired
| SourceNotString
| NotStringList (name : string)
| NotString (name : string)
| TooMany (name : string)
| BadConnectionIDs
| NotObjectList (name : string)
| NotObject (name : string) (i : nat)
| UnknownKey (name : string) (i : nat) (key : string)
| EmptyColumn (name : string) (i : nat)
| OpNotString (i : nat)
| UnsupportedOperator (i : nat) (op : string)
| BadDirection (i : nat)
| BadShape
| BadAggregation
| NotBoundedInteger (name : string) (limit : Z)
| PagedTooFar
| ExplainNotBool.

Abbreviation parsed := (res request_error).

(** ** Scalars *)

(** The value of a float that is a whole number: [n == math.Trunc(n)]. *)
Definition whole_float (f : spec_float) : option Z :=
  match f with
  | S754_zero _ => Some 0%Z
  | S754_finite s m e =>
      let signed n := if s : bool then (- n)%Z else n in
      if (0 <=? e)%Z then Some (signed (Z.pos m * 2 ^ e)%Z)
      else if (Z.pos m mod 2 ^ (- e) =? 0)%Z then Some (signed (Z.pos m / 2 ^ (- e))%Z)
      else None
  | _ => None
  end.

Definition integerValue (v : any) : option Z :=
  match v with
  | AInt n => Some n
  | AInt64 n => Some n
  | AFloat64 f =>
      n ← whole_float f;
      if ((n <? - 2 ^ 63) || (2 ^ 63 <=? n))%Z then None else Some n
  | AJSONNumber s => parse_int64 s
  | _ => None
  end.

Definition stringValue (v : option any) : string :=
  match v with Some (AString s) => s | _ => "" end.

(** ** One parameter *)

Definition parseBoundedInteger (args : any_map) (name : string) (limit dst : Z) : parsed Z :=
  match assoc name args with
  | None => Ok dst
  | Some v =>
      match integerValue v with
      | Some n => if ((n <? 1) || (limit <? n))%Z then Err (NotBoundedInteger name limit)
                  else Ok n
      | None => Err (NotBoundedInteger name limit)
      end
  end.

Definition checkDatastorePaging (page pageSize : Z) : parsed unit :=
  if (datastoreMaxRows <? page * pageSize)%Z then Err PagedTooFar else Ok tt.

Definition parseOptionalString (args : any_map) (name : string) : parsed string :=
  match assoc name args with
  | None => Ok ""
  | Some (AString s) => Ok (trim s)
  | Some _ => Err (NotString name)
  end.

(** A loop that maps or fails, with the position of each item. *)
Fixpoint map_res {E A B} (f : nat -> A -> res E B) (i : nat) (l : list A) : res E (list B) :=
  match l with
  | [] => Ok []
  | a :: l => let! b := f i a in let! bs := map_res f (S i) l in Ok (b :: bs)
  end.

Definition parseStringList (args : any_map) (name : string) : parsed (list string) :=
  match assoc name args with
  | None => Ok []
  | Some (AList l) =>
      map_res (fun _ item => match item with
                             | AString s => Ok (trim s)
                             | _ => Err (NotStringList name)
                             end) 0 l
  | Some _ => Err (NotStringList name)
  end.

Definition parseConnectionIDs (args : any_map) : parsed (list Z) :=
  match default ANil (assoc "connection_ids" args) with
  | ANil => Ok []
  | AList l =>
      map_res (fun _ item =>
                 match integerValue item with
                 | Some n => if ((n <? 1) || (2 ^ 31 - 1 <? n))%Z then Err BadConnectionIDs
                             else Ok n
                 | None => Err BadConnectionIDs
                 end) 0 l
  | _ => Err BadConnectionIDs
  end.

(** The keys of a map in the order [slices.Sort] gives them. *)
Definition sorted_keys (m : any_map) : list string := sort_strings (map fst m).

Definition checkObjectKeys (obj : any_map) (name : string) (i : nat) (allowed : list string)
    : parsed unit :=
  match List.find (fun key => negb (member key allowed)) (sorted_keys obj) with
  | Some key => Err (UnknownKey name i key)
  | None => Ok tt
  end.

Section Parse.
Context `{UnicodeCase}.

Definition parse_filter (i : nat) (item : any) : parsed datastoreFilter :=
  match item with
  | AMap obj =>
      let! _ := checkObjectKeys obj "filters" i ["column"; "op"; "value"; "values"] in
      let column := trim (stringValue (assoc "column" obj)) in
      if String.eqb column "" then Err (EmptyColumn "filters" i)
      else
        match assoc "op" obj with
        | Some (AString op) =>
            let op := join " " (Fields (lower op)) in
            if bool_decide (is_Some (assoc op datastoreOperators))
            then Ok {| f_Column := column; f_Op := op;
                       f_Value := assoc "value" obj; f_Values := assoc "values" obj |}
            else Err (UnsupportedOperator i op)
        | _ => Err (OpNotString i)
        end
  | _ => Err (NotObject "filters" i)
  end.

Definition parseDatastoreFilters (args : any_map) : parsed (list datastoreFilter) :=
  match assoc "filters" args with
  | None => Ok []
  | Some (AList l) => map_res parse_filter 0 l
  | Some _ => Err (NotObjectList "filters")
  end.

Definition parse_order (i : nat) (item : any) : parsed datastoreOrder :=
  match item with
  | AMap obj =>
      let! _ := checkObjectKeys obj "order_by" i ["column"; "direction"] in
      let column := trim (stringValue (assoc "column" obj)) in
      if String.eqb column "" then Err (EmptyColumn "order_by" i)
      else
        match assoc "direction" obj with
        | None => Ok {| o_Column := column; o_Direction := "asc" |}
        | Some d =>
            let direction := lower (trim (stringValue (Some d))) in
            if String.eqb direction "asc" || String.eqb direction "desc"
            then Ok {| o_Column := column; o_Direction := direction |}
            else Err (BadDirection i)
        end
  | _ => Err (NotObject "order_by" i)
  end.

Definition parseDatastoreOrder (args : any_map) : parsed (list datastoreOrder) :=
  match assoc "order_by" args with
  | None => Ok []
  | Some (AList l) => map_res parse_order 0 l
  | Some _ => Err (NotObjectList "order_by")
  end.

(** ** The steps of the parser, each setting its fields of the request *)

Definition checkDatastoreRequestKeys (args : any_map) : parsed unit :=
  let accepted key :=
    has_prefix key "__" || member key datastoreRequestKeys ||
    (String.eqb key "connection_id" &&
     match assoc key args with Some ANil => true | _ => false end) in
  match List.find (fun key => negb (accepted key)) (sorted_keys args) with
  | None => Ok tt
  | Some key =>
      if String.eqb key "query" || String.eqb key "sql" then Err SQLNotAccepted
      else match assoc key datastoreParameterHints with
           | Some hint => Err (UnknownParameterHint key hint)
           | None => Err (UnknownParameter key)
           end
  end.

Definition parseSource (args : any_map) : parsed string :=
  match assoc "source" args with
  | None => Err SourceRequired
  | Some (AString name) =>
      if String.eqb (trim name) "" then Err SourceRequired else Ok (trim name)
  | Some _ => Err SourceNotString
  end.

Definition longer_than {A} (l : list A) (limit : Z) : bool := (limit <? Z.of_nat (length l))%Z.

Definition parseClauses (args : any_map) : parsed (list datastoreFilter * list datastoreOrder) :=
  let! filters := parseDatastoreFilters args in
  if longer_than filters datastoreMaxListItems then Err (TooMany "filters")
  else
    let! order := parseDatastoreOrder args in
    if longer_than order datastoreMaxListItems then Err (TooMany "order_by")
    else Ok (filters, order).

(** [parseLists] reads columns, group_by, connection_ids and the time range,
    then the clauses. *)
Definition parseLists (args : any_map)
    : parsed (list string * list string * list Z * string * string *
              (list datastoreFilter * list datastoreOrder)) :=
  let! columns := parseStringList args "columns" in
  let! groupBy := parseStringList args "group_by" in
  if longer_than groupBy datastoreMaxListItems then Err (TooMany "group_by")
  else
    let! ids := parseConnectionIDs args in
    let! timeStart := parseOptionalString args "time_start" in
    let! timeEnd := parseOptionalString args "time_end" in
    let! clauses := parseClauses args in
    Ok (columns, groupBy, ids, timeStart, timeEnd, clauses).

Definition parseShapeOptions (args : any_map) : parsed (string * string * Z) :=
  let! shape :=
    match assoc "shape" args with
    | None => Ok datastoreShapeRows
    | Some v =>
        let shape := lower (trim (stringValue (Some v))) in
        if member shape [datastoreShapeRows; datastoreShapeLatest; datastoreShapeAggregate]
        then Ok shape else Err BadShape
    end in
  let! agg :=
    match assoc "aggregation" args with
    | None => Ok ""
    | Some v =>
        let agg := lower (trim (stringValue (Some v))) in
        if member agg datastoreAggregations then Ok agg else Err BadAggregation
    end in
  let! buckets := parseBoundedInteger args "buckets" datastoreMaxBuckets 0 in
  Ok (shape, agg, buckets).

Definition parsePaging (args : any_map) : parsed (Z * Z) :=
  let! page := parseBoundedInteger args "page" datastoreMaxPage 1 in
  let! pageSize := parseBoundedInteger args "page_size" datastoreMaxPageSize
                     datastoreDefaultPageSize in
  let! _ := checkDatastorePaging page pageSize in
  Ok (page, pageSize).

Definition parseExplain (args : any_map) : parsed bool :=
  match assoc "explain" args with
  | None => Ok false
  | Some (ABool b) => Ok b
  | Some _ => Err ExplainNotBool
  end.

Definition parseDatastoreRequest (args : any_map) : parsed datastoreRequest :=
  let! _ := checkDatastoreRequestKeys args in
  let! source := parseSource args in
  let! lists := parseLists args in
  let '(columns, groupBy, ids, timeStart, timeEnd, (filters, order)) := lists in
  let! options := parseShapeOptions args in
  let '(shape, agg, buckets) := options in
  let! paging := parsePaging args in
  let '(page, pageSize) := paging in
  let! explain := parseExplain args in
  Ok {| Source := source; req_Columns := columns; ConnectionIDs := ids;
        TimeStart := timeStart; TimeEnd := timeEnd; Filters := filters; Shape := shape;
        GroupBy := groupBy; Aggregation := agg; Buckets := buckets; OrderBy := order;
        Page := page; PageSize := pageSize; Explain := explain |}.
End Parse.

(** ** What a parsed request satisfies

    Every request [parseDatastoreRequest] returns is within the limits the
    tool documents, names a known shape and aggregation, and uses only
    operators and directions the builder knows. *)

Local Open Scope Z_scope.

Definition direction_ok (o : datastoreOrder) : Prop :=
  o_Direction o = "asc" \/ o_Direction o = "desc".

Definition operator_ok (f : datastoreFilter) : Prop :=
  is_Some (assoc (f_Op f) datastoreOperators).

(** A connection id fits PostgreSQL's integer. *)
Definition connection_id_ok (id : Z) : Prop := 1 <= id <= 2 ^ 31 - 1.

Record request_ok (req : datastoreRequest) : Prop := {
  ok_source : Source req <> "";
  ok_page : 1 <= Page req <= datastoreMaxPage;
  ok_page_size : 1 <= PageSize req <= datastoreMaxPageSize;
  ok_rows : Page req * PageSize req <= datastoreMaxRows;
  ok_filters : Z.of_nat (length (Filters req)) <= datastoreMaxListItems;
  ok_order : Z.of_nat (length (OrderBy req)) <= datastoreMaxListItems;
  ok_group : Z.of_nat (length (GroupBy req)) <= datastoreMaxListItems;
  ok_ids : Forall connection_id_ok (ConnectionIDs req);
  ok_shape : member (Shape req)
               [datastoreShapeRows; datastoreShapeLatest; datastoreShapeAggregate] = true;
  ok_aggregation : Aggregation req = "" \/ member (Aggregation req) datastoreAggregations = true;
  ok_buckets : 0 <= Buckets req <= datastoreMaxBuckets;
  ok_operators : Forall operator_ok (Filters req);
  ok_directions : Forall direction_ok (OrderBy req);
}.

(** ** Loops *)

Lemma map_res_Forall {E A B} (f : nat -> A -> res E B) (P : B -> Prop) i l out :
  (forall i a b, f i a = Ok b -> P b) -> map_res f i l = Ok out -> Forall P out.
Proof.
  intros Hf. revert i out. induction l as [|a l IH]; intros i out; simpl; [by intros [= <-]|].
  intros (b & Hb & Hbs)%rbind_Ok. apply rbind_Ok in Hbs as (bs & Hbs & [= <-]).
  constructor; eauto.
Qed.

Lemma longer_than_false {A} (l : list A) limit :
  longer_than l limit = false -> Z.of_nat (length l) <= limit.
Proof. unfold longer_than. lia. Qed.

(** ** The steps *)

Lemma bounded_integer_ok args name limit dst n :
  parseBoundedInteger args name limit dst = Ok n -> n = dst \/ 1 <= n <= limit.
Proof.
  unfold parseBoundedInteger. destruct (assoc name args) as [v|]; [|intros [= <-]; by left].
  destruct (integerValue v) as [k|]; [|done]. destruct (_ || _) eqn:Hk; [done|].
  intros [= <-]. right. lia.
Qed.

Lemma connection_ids_ok args ids :
  parseConnectionIDs args = Ok ids -> Forall connection_id_ok ids.
Proof.
  unfold parseConnectionIDs. destruct (default ANil _); try done; [by intros [= <-]|].
  apply map_res_Forall. intros _ v id. destruct (integerValue v) as [n|]; [|done].
  destruct (_ || _) eqn:Hn; [done|]. intros [= <-]. unfold connection_id_ok. lia.
Qed.

Section Parse.
Context `{UnicodeCase}.

Lemma filters_ok args l : parseDatastoreFilters args = Ok l -> Forall operator_ok l.
Proof.
  unfold parseDatastoreFilters. destruct (assoc "filters" args) as [[]|]; try done;
    [|by intros [= <-]].
  apply map_res_Forall. intros i [] fl; try done. simpl. intros (_ & _ & Hf)%rbind_Ok.
  destruct (String.eqb (trim _) ""); [done|]. destruct (assoc "op" _) as [[]|]; try done.
  case_bool_decide; [|done]. by injection Hf as <-.
Qed.

Lemma order_ok args l : parseDatastoreOrder args = Ok l -> Forall direction_ok l.
Proof.
  unfold parseDatastoreOrder. destruct (assoc "order_by" args) as [[]|]; try done;
    [|by intros [= <-]].
  apply map_res_Forall. intros i [] od; try done. simpl. intros (_ & _ & Ho)%rbind_Ok.
  destruct (String.eqb (trim _) ""); [done|].
  destruct (assoc "direction" _) as [d|]; [|injection Ho as <-; by left].
  destruct (_ || _) eqn:Hd; [|done]. injection Ho as <-. unfold direction_ok. simpl.
  by rewrite orb_true_iff, !String.eqb_eq in Hd.
Qed.

Lemma clauses_ok args filters order :
  parseClauses args = Ok (filters, order) ->
  Forall operator_ok filters /\ Forall direction_ok order /\
  Z.of_nat (length filters) <= datastoreMaxListItems /\
  Z.of_nat (length order) <= datastoreMaxListItems.
Proof.
  unfold parseClauses. intros (fs & Hfs%filters_ok & Hc)%rbind_Ok.
  destruct (longer_than fs _) eqn:Hlf; [done|]. apply rbind_Ok in Hc as (os & Hos%order_ok & Hc).
  destruct (longer_than os _) eqn:Hlo; [done|]. injection Hc as <- <-.
  split_and!; try done; by apply longer_than_false.
Qed.

Lemma shape_options_ok args shape agg buckets :
  parseShapeOptions args = Ok (shape, agg, buckets) ->
  member shape [datastoreShapeRows; datastoreShapeLatest; datastoreShapeAggregate] = true /\
  (agg = "" \/ member agg datastoreAggregations = true) /\ 0 <= buckets <= datastoreMaxBuckets.
Proof.
  unfold parseShapeOptions. intros (sh & Hsh & Hrest)%rbind_Ok.
  apply rbind_Ok in Hrest as (ag & Hag & Hrest).
  apply rbind_Ok in Hrest as (bu & Hbu%bounded_integer_ok & [= -> -> ->]).
  split_and!; [| | unfold datastoreMaxBuckets in *; lia..].
  - destruct (assoc "shape" args); [|by injection Hsh as <-].
    destruct (member _ _) eqn:Hm; [|done]. by injection Hsh as <-.
  - destruct (assoc "aggregation" args); [|injection Hag as <-; by left].
    destruct (member _ _) eqn:Hm; [|done]. injection Hag as <-. by right.
Qed.

Lemma paging_ok args page size :
  parsePaging args = Ok (page, size) ->
  1 <= page <= datastoreMaxPage /\ 1 <= size <= datastoreMaxPageSize /\
  page * size <= datastoreMaxRows.
Proof.
  unfold parsePaging. intros (p & Hp%bounded_integer_ok & Hrest)%rbind_Ok.
  apply rbind_Ok in Hrest as (s & Hs%bounded_integer_ok & Hrest).
  apply rbind_Ok in Hrest as (u & Hrows & [= -> ->]). unfold checkDatastorePaging in Hrows.
  destruct (datastoreMaxRows <? page * size) eqn:Hr; [done|].
  unfold datastoreMaxPage, datastoreMaxPageSize, datastoreDefaultPageSize, datastoreMaxRows in *.
  lia.
Qed.

Lemma parsed_request_ok args req : parseDatastoreRequest args = Ok req -> request_ok req.
Proof.
  unfold parseDatastoreRequest. intros (_ & _ & Hrest)%rbind_Ok.
  apply rbind_Ok in Hrest as (source & Hsource & Hrest).
  apply rbind_Ok in Hrest as (lists & Hlists & Hrest).
  unfold parseLists in Hlists. apply rbind_Ok in Hlists as (columns & _ & Hlists).
  apply rbind_Ok in Hlists as (groupBy & _ & Hlists).
  destruct (longer_than groupBy _) eqn:Hgroup; [done|].
  apply rbind_Ok in Hlists as (ids & Hids%connection_ids_ok & Hlists).
  apply rbind_Ok in Hlists as (ts & _ & Hlists). apply rbind_Ok in Hlists as (te & _ & Hlists).
  apply rbind_Ok in Hlists as ([filters order] & Hclauses%clauses_ok & [= <-]).
  apply rbind_Ok in Hrest as ([[shape agg] buckets] & Hopts%shape_options_ok & Hrest).
  apply rbind_Ok in Hrest as ([page size] & Hpaging%paging_ok & Hrest).
  apply rbind_Ok in Hrest as (explain & _ & [= <-]).
  destruct Hclauses as (? & ? & ? & ?), Hopts as (? & ? & ?), Hpaging as (? & ? & ?).
  apply longer_than_false in Hgroup. constructor; try done.
  simpl. unfold parseSource in Hsource. destruct (assoc "source" args) as [[]|]; try done.
  destruct (String.eqb_spec (trim s) ""); [done|]. by injection Hsource as <-.
Qed.
End Parse.
