(* ===== verification/DatastoreQuery.v ===== *)
(** * The statement query_datastore runs
    (server/src/internal/tools/datastore_query_builder.go)

    From a request, a source and the caller's visible set to the text of one
    SELECT and its bind parameters.  The receiver [q] of the source
    accumulates parameters; here it is the state of the monad [build], whose
    errors end the construction.  A time is its nanoseconds since the epoch, a
    duration its nanoseconds. *)
From Stdlib Require Import Ascii ZArith SpecFloat.
From stdpp Require Import base list strings sorting.
From S2P Require Import Prelude GoStrings AuditText GoText Redaction DatastoreCatalog DatastoreRequest.

Local Open Scope string_scope.
Local Open Scope res_scope.

(** Conversions of packages [strconv] and [time] between numbers, times and
    text. *)
Class GoParsers := {
  ParseFloat : string -> option spec_float;
  FormatFloat : spec_float -> string;
  ParseDuration : string -> option Z;
  time_Parse : string -> string -> option Z;  (* layout, text *)
}.

(** ** Parameters and the builder *)

Inductive param :=
| PInt64 (n : Z)
| PFloat64 (f : spec_float)
| PBool (b : bool)
| PText (s : string)
| PTime (t : Z).

Inductive query_error :=
| WrongSource
| BadRequest (e : request_error)
| TooManyEntries
| ShapeOptionsMisplaced
| LatestNeedsMetric
| AggregationRequired
| BucketsNeedTime
| BucketsNeedBounds
| UnknownColumn (name : string)
| DuplicateColumn (param name : string)
| UnknownKind
| NoScopingRule
| ConnectionIDsDoNotApply
| ConnectionNotAccessible
| NoTimeColumn
| BadTime (param : string)
| NotPositiveDuration (param : string)
| EndNotAfterStart
| StartInFuture
| SpanTooLong
| TakesNoValue (i : nat)
| TakesValues (i : nat)
| NeedsValues (i : nat)
| TooManyValues (i : nat)
| TakesValue (i : nat)
| NeedsValue (i : nat)
| NullValue (i : nat)
| NotScalar (i : nat)
| NeedsInteger (i : nat) (name : string)
| NeedsNumber (i : nat) (name : string)
| NeedsBoolean (i : nat) (name : string)
| OutOfRange (i : nat) (name : string)
| LikeNeedsText (i : nat)
| LikeNeedsString (i : nat)
| LikeEndsInEscape (i : nat)
| GroupedAndSelected (name : string)
| ColumnsRequired
| NeedsMetricColumn (name : string)
| CannotAggregate (name : string)
| NotAnOutput (name : string)
| ExplainRestricted.

Abbreviation built := (res query_error).

Definition build (A : Type) : Type := list param -> built (A * list param).

Definition ret {A} (a : A) : build A := fun q => Ok (a, q).
Definition fail {A} (e : query_error) : build A := fun _ => Err e.
Definition lift {A} (m : built A) : build A :=
  fun q => match m with Ok a => Ok (a, q) | Err e => Err e end.
Definition bbind {A B} (m : build A) (k : A -> build B) : build B :=
  fun q => match m q with Ok (a, q') => k a q' | Err e => Err e end.

Declare Scope build_scope.
Delimit Scope build_scope with build.
Notation "'do' x ':=' m 'in' k" := (bbind m (fun x => k))
  (at level 10, x name, m at level 100, k at level 200) : build_scope.
Local Open Scope build_scope.

Definition placeholder (n : nat) : string := "$" ++ FormatInt (Z.of_nat n).

(** [datastoreQuery.bind]. *)
Definition bind (v : param) : build string :=
  fun q => Ok (placeholder (S (length q)), (q ++ [v])%list).

(** A loop over values, each of which may bind. *)
Fixpoint each {A B} (f : nat -> A -> build B) (i : nat) (l : list A) : build (list B) :=
  match l with
  | [] => ret []
  | a :: l => do b := f i a in do bs := each f (S i) l in ret (b :: bs)
  end.

(** ** SQL pieces (metrics/portable_sql.go) *)

Definition IntArrayExpr (p : string) : string := "string_to_array(" ++ p ++ ", ',')::integer[]".
Definition IntListArg (ids : list Z) : string := join "," (map FormatInt ids).

Definition isIntegerType (dataType : string) : bool := member dataType ["integer"; "smallint"].
Definition EpochSeconds (expr : string) : string := "EXTRACT(EPOCH FROM " ++ expr ++ ")::float8".

Definition AggregateExpr (aggregation expr dataType : string) : string :=
  if String.eqb aggregation "avg" then
    if String.eqb dataType "interval" then "avg(" ++ expr ++ ")" else "avg(" ++ expr ++ ")::float8"
  else if String.eqb aggregation "sum" then
    if isIntegerType dataType then "sum(" ++ expr ++ "::bigint)"
    else if String.eqb dataType "interval"
    then "(sum(" ++ EpochSeconds expr ++ ") * INTERVAL '1 second')"
    else "sum(" ++ expr ++ ")"
  else aggregation ++ "(" ++ expr ++ ")".

Definition datastoreTableAlias : string := "t".
Definition qualified (alias column : string) : string := alias ++ "." ++ QuoteIdentifier column.
Definition t_ (column : string) : string := qualified datastoreTableAlias column.

(** ** Visible set and checks *)

Record visibleSet := { All : bool; IDs : list Z; SystemAlerts : bool }.

Definition is_empty (s : string) : bool := String.eqb s "".
Definition empty {A} (l : list A) : bool := match l with [] => true | _ => false end.

Definition checkShape (src : datastoreSource) (req : datastoreRequest) : built unit :=
  if negb (String.eqb (Shape req) datastoreShapeAggregate) &&
     (negb (empty (GroupBy req)) || negb (is_empty (Aggregation req)) || (0 <? Buckets req)%Z)
  then Err ShapeOptionsMisplaced
  else if String.eqb (Shape req) datastoreShapeLatest then
    if String.eqb (src_Kind src) datastoreKindMetric then Ok tt else Err LatestNeedsMetric
  else if String.eqb (Shape req) datastoreShapeAggregate then
    if is_empty (Aggregation req) then Err AggregationRequired
    else if (0 <? Buckets req)%Z && is_empty (src_TimeColumn src) then Err BucketsNeedTime
    else Ok tt
  else Ok tt.

Definition checkDatastoreRequest (src : datastoreSource) (req : datastoreRequest) : built unit :=
  if negb (String.eqb (Source req) (src_Name src)) then Err WrongSource
  else if ((PageSize req <? 1) || (datastoreMaxPageSize <? PageSize req))%Z
  then Err (BadRequest (NotBoundedInteger "page_size" datastoreMaxPageSize))
  else if ((Page req <? 1) || (datastoreMaxPage <? Page req))%Z
  then Err (BadRequest (NotBoundedInteger "page" datastoreMaxPage))
  else match checkDatastorePaging (Page req) (PageSize req) with
       | Err e => Err (BadRequest e)
       | Ok _ =>
           if longer_than (Filters req) datastoreMaxListItems ||
              longer_than (OrderBy req) datastoreMaxListItems ||
              longer_than (GroupBy req) datastoreMaxListItems
           then Err TooManyEntries
           else checkShape src req
       end.

Definition checkColumn (src : datastoreSource) (name : string) : built datastoreColumn :=
  match source_column src name with
  | Some c => if IsValidIdentifier name then Ok c else Err (UnknownColumn name)
  | None => Err (UnknownColumn name)
  end.

Fixpoint check_columns (src : datastoreSource) (names seen : list string) (param : string)
    : built unit :=
  match names with
  | [] => Ok tt
  | name :: names =>
      let! _ := checkColumn src name in
      if member name seen then Err (DuplicateColumn param name)
      else check_columns src names (name :: seen) param
  end.

Definition checkColumnList (src : datastoreSource) (names : list string) (param : string)
    : built unit := check_columns src names [] param.

Definition datastoreColumns (src : datastoreSource) (req : datastoreRequest)
    : built (list string) :=
  let columns :=
    if empty (req_Columns req) && negb (String.eqb (Shape req) datastoreShapeAggregate)
    then columnNames src else req_Columns req in
  let! _ := checkColumnList src columns "columns" in
  let! _ := checkColumnList src (GroupBy req) "group_by" in
  Ok columns.

Definition checkDatastoreExplain (req : datastoreRequest) (vis : visibleSet) : built unit :=
  if Explain req && negb (All vis) then Err ExplainRestricted else Ok tt.

(** ** The FROM item *)

Definition fromClause (src : datastoreSource) : built string :=
  if String.eqb (src_Kind src) datastoreKindMetric
  then Ok ("metrics." ++ QuoteIdentifier (src_Table src) ++ " " ++ datastoreTableAlias)
  else if String.eqb (src_Kind src) datastoreKindConfiguration
  then Ok (QuoteIdentifier (src_Table src) ++ " " ++ datastoreTableAlias)
  else Err UnknownKind.

Definition inner_column (c : datastoreColumn) : string :=
  let value := t_ (col_Name c) in
  if col_MaskOptions c then MaskedOptions value ++ " AS " ++ QuoteIdentifier (col_Name c)
  else if col_MaskWhole c then MaskedWhole value ++ " AS " ++ QuoteIdentifier (col_Name c)
  else if col_RedactText c then RedactedText value ++ " AS " ++ QuoteIdentifier (col_Name c)
  else if is_empty (col_RedactBy c) then value
  else MaskedSetting value (t_ (col_RedactBy c)) ++ " AS " ++ QuoteIdentifier (col_Name c).

Definition inner_stored (c : datastoreColumn) : string :=
  t_ (col_Name c) ++ " AS " ++ QuoteIdentifier (RawStatementAlias (col_Name c)).

Definition innerSelectList (src : datastoreSource) : string :=
  join ", " (map inner_column (src_Columns src) ++
             map inner_stored (List.filter col_RedactStatement (src_Columns src)))%list.

Definition redacts (c : datastoreColumn) : bool :=
  negb (is_empty (col_RedactBy c)) || col_MaskOptions c || col_MaskWhole c || col_RedactText c.

Definition where_clause (conditions : list string) : string :=
  if empty conditions then "" else " WHERE " ++ join " AND " conditions.

Definition scopedFrom (src : datastoreSource) (inner : list string) : built string :=
  let! from := fromClause src in
  if empty inner && negb (existsb redacts (src_Columns src)) then Ok from
  else Ok ("(SELECT " ++ innerSelectList src ++ " FROM " ++ from ++ where_clause inner ++
           " OFFSET 0) " ++ datastoreTableAlias).

(** ** The scope condition; the empty string is no condition *)

Definition checkScopeRule (src : datastoreSource) (req : datastoreRequest) : built unit :=
  match src_Scope src with
  | scopeConnection | scopeAlert | scopeViaAlert => Ok tt
  | scopeHierarchy | scopeCluster | scopeGroup | scopeGlobal =>
      if empty (ConnectionIDs req) then Ok tt else Err ConnectionIDsDoNotApply
  | scopeUnknown => Err NoScopingRule
  end.

Definition mem_Z (z : Z) (l : list Z) : bool := existsb (Z.eqb z) l.

Definition scopeIDs (req : datastoreRequest) (vis : visibleSet) : built (list Z * bool) :=
  if empty (ConnectionIDs req) then
    if All vis then Ok ([], false) else Ok (IDs vis, true)
  else if forallb (fun id => All vis || mem_Z id (IDs vis)) (ConnectionIDs req)
  then Ok (ConnectionIDs req, true)
  else Err ConnectionNotAccessible.

Definition AlertTypeSystem : string := "system".

Definition alertCondition (alias : string) (req : datastoreRequest) (vis : visibleSet)
    (restricted : bool) (visible : build string) : build string :=
  let includeSystem := SystemAlerts vis && empty (ConnectionIDs req) in
  let connCol := qualified alias "connection_id" in
  if negb restricted then
    if includeSystem then ret "" else ret (connCol ++ " IS NOT NULL")
  else
    do ids := visible in
    let cond := connCol ++ " = ANY(" ++ ids ++ ")" in
    if includeSystem then
      do system := bind (PText AlertTypeSystem) in
      ret ("(" ++ cond ++ " OR " ++ qualified alias "alert_type" ++ " = " ++ system ++ ")")
    else ret cond.

Definition viaAlertCondition (req : datastoreRequest) (vis : visibleSet)
    (restricted : bool) (visible : build string) : build string :=
  do cond := alertCondition "a" req vis restricted visible in
  if is_empty cond then ret ""
  else ret ("EXISTS (SELECT 1 FROM alerts a WHERE a.id = " ++ t_ "alert_id" ++ " AND " ++ cond ++ ")").

Definition hierarchyCondition (visible : string) : build string :=
  let conn := t_ "connection_id" in
  let cluster := t_ "cluster_id" in
  let group := t_ "group_id" in
  let scope := t_ "scope" in
  do estate := bind (PText "estate") in
  do global := bind (PText "global") in
  ret ("((" ++ conn ++ " IS NULL AND " ++ cluster ++ " IS NULL AND " ++ group ++ " IS NULL AND " ++
       scope ++ " IN (" ++ estate ++ ", " ++ global ++ "))" ++
       " OR (" ++ conn ++ " IS NOT NULL AND " ++ conn ++ " = ANY(" ++ visible ++ "))" ++
       " OR (" ++ conn ++ " IS NULL AND " ++ cluster ++
       " IS NOT NULL AND EXISTS (SELECT 1 FROM connections c WHERE c.cluster_id = " ++
       cluster ++ " AND c.id = ANY(" ++ visible ++ ")))" ++
       " OR (" ++ conn ++ " IS NULL AND " ++ cluster ++ " IS NULL AND " ++ group ++
       " IS NOT NULL AND EXISTS (SELECT 1 FROM connections c JOIN clusters cl ON cl.id = c.cluster_id WHERE cl.group_id = " ++
       group ++ " AND c.id = ANY(" ++ visible ++ "))))").

Definition restrictedScopeCondition (src : datastoreSource) (visible : build string)
    : build string :=
  match src_Scope src with
  | scopeConnection =>
      do ids := visible in
      ret (t_ (src_ConnectionColumn src) ++ " = ANY(" ++ ids ++ ")")
  | scopeHierarchy => do ids := visible in hierarchyCondition ids
  | scopeCluster =>
      do ids := visible in
      ret ("EXISTS (SELECT 1 FROM connections c WHERE c.cluster_id = " ++ t_ "id" ++
           " AND c.id = ANY(" ++ ids ++ "))")
  | scopeGroup =>
      do ids := visible in
      ret ("EXISTS (SELECT 1 FROM connections c JOIN clusters cl ON cl.id = c.cluster_id WHERE cl.group_id = " ++
           t_ "id" ++ " AND c.id = ANY(" ++ ids ++ "))")
  | _ => ret ""
  end.

Definition scopeCondition (src : datastoreSource) (req : datastoreRequest) (vis : visibleSet)
    : build string :=
  do _ := lift (checkScopeRule src req) in
  do scoped := lift (scopeIDs req vis) in
  let '(ids, restricted) := scoped in
  let visible := do p := bind (PText (IntListArg ids)) in ret (IntArrayExpr p) in
  match src_Scope src with
  | scopeAlert => alertCondition datastoreTableAlias req vis restricted visible
  | scopeViaAlert => viaAlertCondition req vis restricted visible
  | _ => if restricted then restrictedScopeCondition src visible else ret ""
  end.

Definition liveConnectionCondition (src : datastoreSource) : string :=
  match src_Scope src with
  | scopeConnection =>
      if is_empty (src_ConnectionColumn src) then ""
      else "EXISTS (SELECT 1 FROM connections lc WHERE lc.id = " ++
           t_ (src_ConnectionColumn src) ++ " AND lc.deleted_at IS NULL)"
  | _ => ""
  end.

(** ** The time window *)

Record datastoreWindow := { win_start : option Z; win_end : option Z; win_startParam : string }.

Definition no_window : datastoreWindow :=
  {| win_start := None; win_end := None; win_startParam := "" |}.

Definition hour : Z := 3600 * 10 ^ 9.
Definition MaxCustomTimeSpan : Z := 366 * 24 * hour.
Definition MinBucketWidth : Z := 10 ^ 9.

(** [time.Time.Sub] saturates at the limits of a duration. *)
Definition time_Sub (a b : Z) : Z := Z.max (- 2 ^ 63) (Z.min (2 ^ 63 - 1) (a - b)).

Section Builder.
Context `{UnicodeCase} `{GoParsers}.

(** The product of a number of days and the length of a day wraps around at 64
    bits. *)
Definition parseRelativeDuration (s : string) : option Z :=
  let s := trim (lower s) in
  if is_empty s then None
  else if has_suffix s "d" then
    match scan_int (trim_suffix s "d") with
    | Some d => if (d <=? 0)%Z then None else Some (int64 (int64 (d * 24) * hour))
    | None => None
    end
  else ParseDuration s.

Definition time_layouts : list string :=
  ["2006-01-02T15:04:05Z07:00"; "2006-01-02T15:04:05.999999999Z07:00";
   "2006-01-02T15:04:05"; "2006-01-02 15:04:05"; "2006-01-02"].

Fixpoint parse_layouts (layouts : list string) (s : string) : option Z :=
  match layouts with
  | [] => None
  | layout :: layouts =>
      match time_Parse layout s with Some t => Some t | None => parse_layouts layouts s end
  end.

Definition parseTimeArg (s : string) : option Z := parse_layouts time_layouts s.

Definition parseDatastoreTime (s param : string) (now base : Z) : built Z :=
  if EqualFoldASCII (lit s) (lit "NOW") then Ok now
  else
    match parseRelativeDuration s with
    | Some d => if (d <=? 0)%Z then Err (NotPositiveDuration param) else Ok (base - d)%Z
    | None =>
        match parseTimeArg s with
        | Some t => Ok t
        | None => Err (BadTime param)
        end
    end.

Definition parseDatastoreBounds (req : datastoreRequest) (now : Z)
    : built (option Z * option Z) :=
  let! end_ :=
    if is_empty (TimeEnd req) then Ok None
    else let! t := parseDatastoreTime (TimeEnd req) "time_end" now now in Ok (Some t) in
  let base := default now end_ in
  let! start :=
    if is_empty (TimeStart req) then Ok None
    else let! t := parseDatastoreTime (TimeStart req) "time_start" now base in Ok (Some t) in
  Ok (start, end_).

(** metrics/query.go. *)
Definition ResolveCustomWindowAt (start end_ now : Z) : built (Z * Z) :=
  if (end_ <=? start)%Z then Err EndNotAfterStart
  else if (now <=? start)%Z then Err StartInFuture
  else
    let end_ := if (now <? end_)%Z then now else end_ in
    if (MaxCustomTimeSpan <? time_Sub end_ start)%Z then Err SpanTooLong
    else Ok (start, end_).

Definition BucketWidth (timeStart timeEnd buckets : Z) : Z :=
  let buckets := if (buckets <? 1)%Z then 1%Z else buckets in
  let width := Z.quot (time_Sub timeEnd timeStart) buckets in
  if (width <? MinBucketWidth)%Z then MinBucketWidth else width.

Definition metricDatastoreWindow (start end_ : option Z) (now : Z) : built datastoreWindow :=
  let end_ := default now end_ in
  let start := default (end_ - hour)%Z start in
  let! w := ResolveCustomWindowAt start end_ now in
  Ok {| win_start := Some (fst w); win_end := Some (snd w); win_startParam := "" |}.

Definition resolveDatastoreWindow (src : datastoreSource) (req : datastoreRequest) (now : Z)
    : built datastoreWindow :=
  if is_empty (src_TimeColumn src) then
    if negb (is_empty (TimeStart req)) || negb (is_empty (TimeEnd req)) then Err NoTimeColumn
    else Ok no_window
  else
    let! bounds := parseDatastoreBounds req now in
    let '(start, end_) := bounds in
    if negb (String.eqb (src_Kind src) datastoreKindMetric) then
      match start, end_ with
      | Some s, Some e =>
          if (e <=? s)%Z then Err EndNotAfterStart
          else Ok {| win_start := start; win_end := end_; win_startParam := "" |}
      | _, _ => Ok {| win_start := start; win_end := end_; win_startParam := "" |}
      end
    else metricDatastoreWindow start end_ now.

Definition live_part (src : datastoreSource) : list string :=
  if negb (is_empty (src_LiveColumn src)) then [t_ (src_LiveColumn src) ++ " IS NULL"]
  else let cond := liveConnectionCondition src in if is_empty cond then [] else [cond].

Definition serverConditions (src : datastoreSource) (req : datastoreRequest)
    (vis : visibleSet) (now : Z) : build (list string * datastoreWindow) :=
  do scope := scopeCondition src req vis in
  let inner := ((if is_empty scope then [] else [scope]) ++ live_part src)%list in
  do window := lift (resolveDatastoreWindow src req now) in
  let timeCol := if is_empty (src_TimeColumn src) then "" else t_ (src_TimeColumn src) in
  do started :=
    match win_start window with
    | Some s =>
        do p := bind (PTime s) in
        ret ([timeCol ++ " >= " ++ p],
             {| win_start := win_start window; win_end := win_end window; win_startParam := p |})
    | None => ret ([], window)
    end in
  let '(lower_bound, window) := started in
  do upper_bound :=
    match win_end window with
    | Some e => do p := bind (PTime e) in ret [timeCol ++ " <= " ++ p]
    | None => ret []
    end in
  ret ((inner ++ lower_bound ++ upper_bound)%list, window).

(** ** The caller's filters *)

Definition datastoreTextTypes : list string := [typeText; typeVarchar; "character"; "name"].
Definition datastoreIntegerTypes : list string := ["smallint"; typeInteger; typeBigint].
Definition datastoreFloatTypes : list string := [typeReal; "double precision"; "numeric"].

Definition coerceIntegerValue (c : datastoreColumn) (v : any) (i : nat) : built param :=
  let n := match v with
           | AString s => parse_int64 (trim s)
           | ABool _ => None
           | _ => integerValue v
           end in
  match n with Some n => Ok (PInt64 n) | None => Err (NeedsInteger i (col_Name c)) end.

(** The conversion [float64(n)] of an integer rounds to nearest even. *)
Definition float64_of (n : Z) : spec_float := binary_normalize 53 1024 n 0 false.

Definition coerceFloatValue (c : datastoreColumn) (v : any) (i : nat) : built param :=
  let f := match v with
           | AFloat64 f => Some f
           | AInt n => Some (float64_of n)
           | AInt64 n => Some (float64_of n)
           | AJSONNumber s => ParseFloat s
           | AString s => ParseFloat (trim s)
           | _ => None
           end in
  match f with Some f => Ok (PFloat64 f) | None => Err (NeedsNumber i (col_Name c)) end.

Definition coerceBooleanValue (c : datastoreColumn) (v : any) (i : nat) : built param :=
  let b := match v with
           | ABool b => Some b
           | AString s => parse_bool (trim s)
           | _ => None
           end in
  match b with Some b => Ok (PBool b) | None => Err (NeedsBoolean i (col_Name c)) end.

(** Called on a scalar only; the last case is unreachable. *)
Definition coerceTextValue (v : any) : param :=
  match v with
  | AFloat64 f => PText (FormatFloat f)
  | AInt n => PText (FormatInt n)
  | AInt64 n => PText (FormatInt n)
  | AJSONNumber s => PText s
  | ABool b => PText (if b then "true" else "false")
  | AString s => PText s
  | _ => PText ""
  end.

Definition scalar (v : any) : bool :=
  match v with ANil | AList _ | AMap _ => false | _ => true end.

Definition coerceFilterValue (c : datastoreColumn) (v : any) (i : nat) : built param :=
  if negb (scalar v) then Err (NotScalar i)
  else if member (col_DataType c) datastoreIntegerTypes then coerceIntegerValue c v i
  else if member (col_DataType c) datastoreFloatTypes then coerceFloatValue c v i
  else if String.eqb (col_DataType c) typeBoolean then coerceBooleanValue c v i
  else Ok (coerceTextValue v).

(** The run of backslashes at the end is odd. *)
Fixpoint leading_run (c : ascii) (s : bytes) : nat :=
  match s with [] => 0 | d :: s => if Ascii.eqb c d then S (leading_run c s) else 0 end.
Definition endsWithEscape (pattern : string) : bool :=
  Nat.odd (leading_run backslash (rev (lit pattern))).

Definition checkLikeFilter (c : datastoreColumn) (value : any) (i : nat) : built unit :=
  if negb (member (col_DataType c) datastoreTextTypes) then Err (LikeNeedsText i)
  else match value with
       | AString pattern => if endsWithEscape pattern then Err (LikeEndsInEscape i) else Ok tt
       | _ => Err (LikeNeedsString i)
       end.

Definition has {A} (v : option A) : bool := match v with Some _ => true | None => false end.

Definition listFilterValues (c : datastoreColumn) (f : datastoreFilter) (i : nat)
    : built (list param) :=
  if has (f_Value f) then Err (TakesValues i)
  else
    match f_Values f with
    | Some (AList l) =>
        if empty l then Err (NeedsValues i)
        else if longer_than l datastoreMaxInValues then Err (TooManyValues i)
        else map_res (fun _ item => coerceFilterValue c item i) 0 l
    | _ => Err (NeedsValues i)
    end.

Definition textListCondition (values : list param) (column : string) (negate : bool)
    : build string :=
  do params := each (fun _ v => do p := bind v in ret (p ++ "::text")) 0 values in
  ret (column ++ (if negate then " NOT IN (" else " IN (") ++ join ", " params ++ ")").

Definition int32_value (v : param) : option Z :=
  match v with
  | PInt64 n => if ((n <? - 2 ^ 31) || (2 ^ 31 - 1 <? n))%Z then None else Some n
  | _ => None
  end.

Definition integerListCondition (c : datastoreColumn) (values : list param) (column : string)
    (negate : bool) (i : nat) : build string :=
  do parts := lift (map_res (fun _ v => match int32_value v with
                                        | Some n => Ok (FormatInt n)
                                        | None => Err (OutOfRange i (col_Name c))
                                        end) 0 values) in
  do p := bind (PText (join "," parts)) in
  let cond := column ++ " = ANY(" ++ IntArrayExpr p ++ ")" in
  ret (if negate then "NOT (" ++ cond ++ ")" else cond).

Definition comparisonChain (values : list param) (column : string) (negate : bool)
    : build string :=
  do terms := each (fun _ v => do p := bind v in
                               ret (column ++ (if negate then " <> " else " = ") ++ p)) 0 values in
  ret ("(" ++ join (if negate then " AND " else " OR ") terms ++ ")").

Definition listFilterCondition (c : datastoreColumn) (f : datastoreFilter) (column : string)
    (i : nat) : build string :=
  do values := lift (listFilterValues c f i) in
  let negate := String.eqb (f_Op f) "not in" in
  if member (col_DataType c) datastoreTextTypes then textListCondition values column negate
  else if String.eqb (col_DataType c) typeInteger || String.eqb (col_DataType c) "smallint"
  then integerListCondition c values column negate i
  else comparisonChain values column negate.

Definition scalarFilterCondition (c : datastoreColumn) (f : datastoreFilter) (lhs : string)
    (i : nat) : build string :=
  if has (f_Values f) then fail (TakesValue i)
  else
    match f_Value f with
    | None => fail (NeedsValue i)
    | Some ANil => fail (NullValue i)
    | Some value =>
        do _ := lift (if String.eqb (f_Op f) "like" then checkLikeFilter c value i else Ok tt) in
        do v := lift (coerceFilterValue c value i) in
        do p := bind v in
        ret (lhs ++ " " ++ p)
    end.

Definition filterCondition (src : datastoreSource) (i : nat) (f : datastoreFilter)
    : build string :=
  do c := lift (checkColumn src (f_Column f)) in
  let column := t_ (col_Name c) in
  let op := default "" (assoc (f_Op f) datastoreOperators) in
  if member (f_Op f) ["is null"; "is not null"] then
    if has (f_Value f) || has (f_Values f) then fail (TakesNoValue i)
    else ret (column ++ " " ++ op)
  else if member (f_Op f) ["in"; "not in"] then listFilterCondition c f column i
  else scalarFilterCondition c f (column ++ " " ++ op) i.

Definition filterConditions (src : datastoreSource) (filters : list datastoreFilter)
    : build (list string) := each (filterCondition src) 0 filters.

(** ** The shapes *)

Definition selectList (alias : string) (columns : list string) : string :=
  join ", " (map (fun c => if is_empty alias then QuoteIdentifier c else qualified alias c)
               columns).

Definition orderTerms (order : list datastoreOrder) (alias : string)
    (check : string -> built unit) : built (list string) :=
  map_res (fun _ o =>
             let! _ := check (o_Column o) in
             let name := if is_empty alias then QuoteIdentifier (o_Column o)
                         else qualified alias (o_Column o) in
             Ok (name ++ " " ++ upper (o_Direction o))) 0 order.

Definition tieBreakTerms (terms keys : list string) (name : string -> string) : list string :=
  foldl (fun terms k =>
           if existsb (fun t => has_prefix t (name k ++ " ")) terms then terms
           else (terms ++ [(name k ++ " ASC")%string])%list) terms keys.

Definition datastoreEntityKeys (src : datastoreSource) : list string :=
  let types name :=
    from_option keyType ""
      (List.find (fun c => String.eqb (col_Name c) name) (rev (src_Columns src))) in
  EntityKeyColumns (columnNames src) types.

Definition datastoreRowKey (src : datastoreSource) : list string :=
  if String.eqb (src_Kind src) datastoreKindMetric
  then (src_ConnectionColumn src :: src_TimeColumn src :: datastoreEntityKeys src)%list
  else match source_column src "id" with
       | Some _ => ["id"]
       | None => take 1 (columnNames src)
       end.

Definition sourceColumnCheck (src : datastoreSource) (name : string) : built unit :=
  let! _ := checkColumn src name in Ok tt.

(** tools/datastore_statement_redaction.go. *)
Definition statementColumn (src : datastoreSource) (name : string) : bool :=
  match source_column src name with Some c => col_RedactStatement c | None => false end.

Definition rawStatementNames (src : datastoreSource) (columns : list string) : list string :=
  map RawStatementAlias (List.filter (statementColumn src) columns).

Definition rowsStatement (src : datastoreSource) (req : datastoreRequest)
    (columns : list string) (from whereText : string) : built string :=
  let! order :=
    if negb (empty (OrderBy req))
    then orderTerms (OrderBy req) datastoreTableAlias (sourceColumnCheck src)
    else if negb (is_empty (src_TimeColumn src))
    then Ok [t_ (src_TimeColumn src) ++ " DESC"]
    else Ok [] in
  let order := tieBreakTerms order (datastoreRowKey src) t_ in
  let selected := (columns ++ rawStatementNames src columns)%list in
  Ok ("SELECT " ++ selectList datastoreTableAlias selected ++ " FROM " ++ from ++ whereText ++
      " ORDER BY " ++ join ", " order).

Definition latestStatement (src : datastoreSource) (req : datastoreRequest)
    (columns : list string) (from whereText : string) : built string :=
  let all := (columnNames src ++ rawStatementNames src (columnNames src))%list in
  let distinct := src_ConnectionColumn src :: datastoreEntityKeys src in
  let inner :=
    "SELECT DISTINCT ON (" ++ selectList datastoreTableAlias distinct ++ ") " ++
    selectList datastoreTableAlias all ++ " FROM " ++ from ++ whereText ++
    " ORDER BY " ++ selectList datastoreTableAlias distinct ++ ", " ++
    t_ (src_TimeColumn src) ++ " DESC" in
  let! order := orderTerms (OrderBy req) "" (sourceColumnCheck src) in
  let order := tieBreakTerms order distinct QuoteIdentifier in
  let selected := (columns ++ rawStatementNames src columns)%list in
  Ok ("SELECT " ++ selectList "" selected ++ " FROM (" ++ inner ++ ") latest ORDER BY " ++
      join ", " order).

Definition raw_aggregate (fn column output : string) : string :=
  fn ++ "(" ++ t_ (RawStatementAlias column) ++ ") AS " ++
  QuoteIdentifier (RawStatementAlias output).

Definition aggregateRawStatements (src : datastoreSource) (req : datastoreRequest)
    : list string :=
  (map (fun g => raw_aggregate "min" g g) (List.filter (statementColumn src) (GroupBy req)) ++
   (if String.eqb (Aggregation req) "min" || String.eqb (Aggregation req) "max"
    then map (fun name => raw_aggregate (Aggregation req) name
                            (Aggregation req ++ "_" ++ name)%string)
           (List.filter (statementColumn src) (req_Columns req))
    else []))%list.

(** The bucket column, with its output name. *)
Definition bucket_column (src : datastoreSource) (req : datastoreRequest)
    (window : datastoreWindow) : build (list (string * string)) :=
  if (0 <? Buckets req)%Z then
    match win_start window, win_end window with
    | Some s, Some e =>
        let width := BucketWidth s e (Buckets req) in
        do widthParam := bind (PText (FormatInt (Z.quot width 1000) ++ " microseconds")) in
        ret [("date_bin(" ++ widthParam ++ "::interval, " ++ t_ (src_TimeColumn src) ++ ", " ++
              win_startParam window ++ "::timestamptz) AS " ++ QuoteIdentifier datastoreBucketAlias,
              datastoreBucketAlias)]
    | _, _ => fail BucketsNeedBounds
    end
  else ret [].

Definition group_column (req : datastoreRequest) (g : string) : built (string * string) :=
  if member g (req_Columns req) then Err (GroupedAndSelected g) else Ok (t_ g, g).

Definition aggregate_column (src : datastoreSource) (req : datastoreRequest) (name : string)
    : built (string * string) :=
  let c := default (col "" "") (source_column src name) in
  let agg := Aggregation req in
  let! _ :=
    if member agg ["avg"; "sum"] then
      if col_IsMetric c then Ok tt else Err (NeedsMetricColumn name)
    else if member agg ["min"; "max"] then
      if String.eqb (col_DataType c) typeJSONB || String.eqb (col_DataType c) typeBoolean
      then Err (CannotAggregate name) else Ok tt
    else Ok tt in
  let alias := agg ++ "_" ++ name in
  Ok (AggregateExpr agg (t_ name) (col_DataType c) ++ " AS " ++ QuoteIdentifier alias, alias).

Definition aggregateStatement (src : datastoreSource) (req : datastoreRequest)
    (window : datastoreWindow) (from whereText : string) : build string :=
  do buckets := bucket_column src req window in
  do grouped := lift (map_res (fun _ => group_column req) 0 (GroupBy req)) in
  let groups := (buckets ++ grouped)%list in
  do counted :=
    lift (if empty (req_Columns req) then
            if String.eqb (Aggregation req) "count"
            then Ok [("count(*) AS " ++ QuoteIdentifier "count", "count")]
            else Err ColumnsRequired
          else Ok []) in
  do aggregated := lift (map_res (fun _ => aggregate_column src req) 0 (req_Columns req)) in
  let columns := (groups ++ counted ++ aggregated)%list in
  let selects := (map fst columns ++ aggregateRawStatements src req)%list in
  let outputs := map snd columns in
  let sql := "SELECT " ++ join ", " selects ++ " FROM " ++ from ++ whereText in
  let sql := if empty groups then sql
             else sql ++ " GROUP BY " ++
                  join ", " (map (fun i => FormatInt (Z.of_nat i)) (seq 1 (length groups))) in
  do order := lift (orderTerms (OrderBy req) ""
                      (fun name => if member name outputs then Ok tt else Err (NotAnOutput name))) in
  let order := tieBreakTerms order (map snd groups) QuoteIdentifier in
  ret (if empty order then sql else sql ++ " ORDER BY " ++ join ", " order).

Definition shapeStatement (src : datastoreSource) (req : datastoreRequest)
    (columns : list string) (window : datastoreWindow) (from whereText : string) : build string :=
  if String.eqb (Shape req) datastoreShapeLatest
  then lift (latestStatement src req columns from whereText)
  else if String.eqb (Shape req) datastoreShapeAggregate
  then aggregateStatement src req window from whereText
  else lift (rowsStatement src req columns from whereText).

Definition build_statement (src : datastoreSource) (req : datastoreRequest)
    (vis : visibleSet) (now : Z) : build string :=
  do _ := lift (checkDatastoreRequest src req) in
  do columns := lift (datastoreColumns src req) in
  do server := serverConditions src req vis now in
  let '(inner, window) := server in
  do conditions := filterConditions src (Filters req) in
  do from := lift (scopedFrom src inner) in
  do sql := shapeStatement src req columns window from (where_clause conditions) in
  do limit := bind (PInt64 (PageSize req + 1)) in
  do offset := bind (PInt64 ((Page req - 1) * PageSize req)) in
  ret (sql ++ " LIMIT " ++ limit ++ " OFFSET " ++ offset).

Definition buildDatastoreQuery (src : datastoreSource) (req : datastoreRequest)
    (vis : visibleSet) (now : Z) : built (string * list param) :=
  build_statement src req vis now [].
End Builder.
