(* ===== verification/SqlMeaning.v ===== *)
(** * The SQL fragment query_datastore writes

    Syntax, text and meaning of the statements the builder of DatastoreQuery
    produces.  Conditions are stratified as PostgreSQL's grammar is, a
    disjunction of conjunctions of atoms, an atom that nests a disjunction
    being parenthesised, so no text has a second reading.  A placeholder is
    its number.  Conditions are evaluated in SQL's three-valued logic, [None]
    being NULL.

    What the fragment leaves to PostgreSQL is the class [Postgres]: comparison
    of values other than integers, times and equality of text, and the value
    of a masking expression. *)
From Stdlib Require Import Ascii ZArith.
From stdpp Require Import base list strings.
From S2P Require Import Prelude GoStrings AuditText GoText Redaction DatastoreCatalog DatastoreRequest DatastoreQuery.

Local Open Scope string_scope.

(** ** Syntax *)

(** [t."c"], [c.id] and ["c"]. *)
Inductive ref :=
| Quoted (alias column : string)
| Bare (alias column : string)
| Plain (column : string).

Inductive cmp_op := Equal | NotEqual | Less | LessEq | Greater | GreaterEq | Like.

(** The tables of an EXISTS. *)
Inductive tables :=
| One (table alias : string)
| Joined (table alias table' alias' : string) (l r : ref).

Inductive atom :=
| IsNull (r : ref)
| IsNotNull (r : ref)
| SameAs (l r : ref)
| Compare (r : ref) (op : cmp_op) (n : nat)
| AnyOf (r : ref) (n : nat)
| InList (r : ref) (negated typed : bool) (ns : list nat)
| Exists (from : tables) (c : list atom)
| Paren (d : list (list atom))
| Not (d : list (list atom)).

Inductive mask := OptionsMask | WholeMask | TextMask | SettingMask (key : string).

Inductive item :=
| Col (r : ref)
| Masked (m : mask) (column : string)
| Stored (column alias : string)
| Aggregated (agg column dataType alias : string)
| CountAll
| Bucket (width : nat) (column : string) (origin : nat)
| StoredAggregate (fn column alias : string).

(** A table, or the permitted columns of its rows that meet a condition. *)
Record scan := {
  scan_metric : bool;
  scan_table : string;
  scan_items : option (list item);
  scan_where : list atom;
}.

Definition order := list (ref * bool).   (* true: descending *)

Inductive statement :=
| Rows (items : list item) (from : scan) (filters : list atom) (by_ : order)
    (limit offset : nat)
| Latest (items : list item) (distinct all : list item) (time : ref) (from : scan)
    (filters : list atom) (by_ : order) (limit offset : nat)
| Grouped (items : list item) (from : scan) (filters : list atom) (groups : nat) (by_ : order)
    (limit offset : nat).

(** ** Text *)

Definition ref_text (r : ref) : string :=
  match r with
  | Quoted alias column => qualified alias column
  | Bare alias column => alias ++ "." ++ column
  | Plain column => QuoteIdentifier column
  end.

Definition cmp_text (op : cmp_op) : string :=
  match op with
  | Equal => "=" | NotEqual => "<>" | Less => "<" | LessEq => "<=" | Greater => ">"
  | GreaterEq => ">=" | Like => "LIKE"
  end.

Definition tables_text (from : tables) : string :=
  match from with
  | One t a => t ++ " " ++ a
  | Joined t a t' a' l r =>
      t ++ " " ++ a ++ " JOIN " ++ t' ++ " " ++ a' ++ " ON " ++ ref_text l ++ " = " ++ ref_text r
  end.

Fixpoint atom_text (a : atom) : string :=
  match a with
  | IsNull r => ref_text r ++ " IS NULL"
  | IsNotNull r => ref_text r ++ " IS NOT NULL"
  | SameAs l r => ref_text l ++ " = " ++ ref_text r
  | Compare r op n => ref_text r ++ " " ++ cmp_text op ++ " " ++ placeholder n
  | AnyOf r n => ref_text r ++ " = ANY(" ++ IntArrayExpr (placeholder n) ++ ")"
  | InList r negated typed ns =>
      ref_text r ++ (if negated then " NOT IN (" else " IN (") ++
      join ", " (map (fun n => placeholder n ++ (if typed then "::text" else "")) ns) ++ ")"
  | Exists from c =>
      "EXISTS (SELECT 1 FROM " ++ tables_text from ++ " WHERE " ++
      join " AND " (map atom_text c) ++ ")"
  | Paren d => "(" ++ join " OR " (map (fun c => join " AND " (map atom_text c)) d) ++ ")"
  | Not d => "NOT (" ++ join " OR " (map (fun c => join " AND " (map atom_text c)) d) ++ ")"
  end.

Definition where_text (c : list atom) : string :=
  match c with [] => "" | _ => " WHERE " ++ join " AND " (map atom_text c) end.

Definition mask_text (m : mask) (column : string) : string :=
  match m with
  | OptionsMask => MaskedOptions (t_ column)
  | WholeMask => MaskedWhole (t_ column)
  | TextMask => RedactedText (t_ column)
  | SettingMask key => MaskedSetting (t_ column) (t_ key)
  end.

Definition as_text (expr alias : string) : string := expr ++ " AS " ++ QuoteIdentifier alias.

Definition item_text (i : item) : string :=
  match i with
  | Col r => ref_text r
  | Masked m c => as_text (mask_text m c) c
  | Stored c alias => as_text (t_ c) alias
  | Aggregated agg c ty alias => as_text (AggregateExpr agg (t_ c) ty) alias
  | CountAll => as_text "count(*)" "count"
  | Bucket width c origin =>
      as_text ("date_bin(" ++ placeholder width ++ "::interval, " ++ t_ c ++ ", " ++
               placeholder origin ++ "::timestamptz)") datastoreBucketAlias
  | StoredAggregate fn c alias => as_text (fn ++ "(" ++ t_ c ++ ")") alias
  end.

Definition items_text (l : list item) : string := join ", " (map item_text l).

Definition table_text (s : scan) : string :=
  (if scan_metric s then "metrics." else "") ++ QuoteIdentifier (scan_table s) ++ " t".

Definition scan_text (s : scan) : string :=
  match scan_items s with
  | None => table_text s
  | Some items =>
      "(SELECT " ++ items_text items ++ " FROM " ++ table_text s ++ where_text (scan_where s) ++
      " OFFSET 0) t"
  end.

Definition order_term (o : ref * bool) : string :=
  ref_text (fst o) ++ (if snd o then " DESC" else " ASC").

Definition order_text (by_ : order) : string :=
  match by_ with [] => "" | _ => " ORDER BY " ++ join ", " (map order_term by_) end.

Definition limit_text (limit offset : nat) : string :=
  " LIMIT " ++ placeholder limit ++ " OFFSET " ++ placeholder offset.

Definition group_text (groups : nat) : string :=
  match groups with
  | O => ""
  | _ => " GROUP BY " ++ join ", " (map (fun i => FormatInt (Z.of_nat i)) (seq 1 groups))
  end.

Definition statement_text (s : statement) : string :=
  match s with
  | Rows items from filters by_ limit offset =>
      "SELECT " ++ items_text items ++ " FROM " ++ scan_text from ++ where_text filters ++
      order_text by_ ++ limit_text limit offset
  | Latest items distinct all time from filters by_ limit offset =>
      "SELECT " ++ items_text items ++ " FROM (SELECT DISTINCT ON (" ++ items_text distinct ++
      ") " ++ items_text all ++ " FROM " ++ scan_text from ++ where_text filters ++
      " ORDER BY " ++ items_text distinct ++ ", " ++ ref_text time ++ " DESC) latest" ++
      order_text by_ ++ limit_text limit offset
  | Grouped items from filters groups by_ limit offset =>
      "SELECT " ++ items_text items ++ " FROM " ++ scan_text from ++ where_text filters ++
      group_text groups ++ order_text by_ ++ limit_text limit offset
  end.

Definition statement_scan (s : statement) : scan :=
  match s with
  | Rows _ from _ _ _ _ | Latest _ _ _ _ from _ _ _ _ | Grouped _ from _ _ _ _ _ => from
  end.

Definition statement_filters (s : statement) : list atom :=
  match s with
  | Rows _ _ filters _ _ _ | Latest _ _ _ _ _ filters _ _ _ | Grouped _ _ filters _ _ _ _ => filters
  end.

(** ** Meaning *)

Inductive datum := DInt (n : Z) | DText (s : string) | DTime (t : Z) | DOther (s : string).

#[global] Instance datum_eq_dec : EqDecision datum.
Proof. solve_decision. Defined.

(** A row by column name, NULL being [None]; a database by table name, with
    [metrics.] before the name of a metrics table. *)
Definition row := string -> option datum.
Definition database := string -> list row.

(** PostgreSQL's operators on the types kept apart here, in which [<>] negates
    [=], and its value for a masking expression on a row. *)
Class Postgres := {
  pg_compare : cmp_op -> datum -> param -> bool;
  pg_mask : mask -> string -> row -> option datum;
  pg_negator : forall d p, pg_compare NotEqual d p = negb (pg_compare Equal d p);
}.

Definition compare_Z (op : cmp_op) (a b : Z) : bool :=
  match op with
  | Equal => (a =? b)%Z | NotEqual => negb (a =? b)%Z | Less => (a <? b)%Z | LessEq => (a <=? b)%Z
  | Greater => (b <? a)%Z | GreaterEq => (b <=? a)%Z | Like => false
  end.

Definition and3 (a b : option bool) : option bool :=
  match a, b with
  | Some false, _ | _, Some false => Some false
  | Some true, Some true => Some true
  | _, _ => None
  end.
Definition or3 (a b : option bool) : option bool :=
  match a, b with
  | Some true, _ | _, Some true => Some true
  | Some false, Some false => Some false
  | _, _ => None
  end.
Definition not3 (a : option bool) : option bool := negb <$> a.
Definition all3 : list (option bool) -> option bool := foldr and3 (Some true).
Definition any3 : list (option bool) -> option bool := foldr or3 (Some false).

(** A condition keeps a row when it is true, neither false nor NULL. *)
Definition holds (a : option bool) : bool := match a with Some true => true | _ => false end.

(** [string_to_array(s, ',')::integer[]]; [None] is a failed cast. *)
Fixpoint split_commas (s : string) : string * list string :=
  match s with
  | "" => ("", [])
  | String c s =>
      let '(first, rest) := split_commas s in
      if Ascii.eqb c "," then ("", first :: rest) else (String c first, rest)
  end.

Definition int4 (s : string) : option Z :=
  n ← parse_int64 s; if ((- 2 ^ 31 <=? n) && (n <=? 2 ^ 31 - 1))%Z then Some n else None.

Definition int_array (s : string) : option (list Z) :=
  if is_empty s then Some [] else let '(first, rest) := split_commas s in mapM int4 (first :: rest).

Section Meaning.
Context `{Postgres} (db : database) (args : list param).

Definition compare_value (op : cmp_op) (d : datum) (p : param) : bool :=
  match d, p, op with
  | _, _, Like => pg_compare op d p
  | DInt a, PInt64 b, _ => compare_Z op a b
  | DTime a, PTime b, _ => compare_Z op a b
  | DText a, PText b, Equal => String.eqb a b
  | DText a, PText b, NotEqual => negb (String.eqb a b)
  | _, _, _ => pg_compare op d p
  end.

Definition compare3 (op : cmp_op) (d : option datum) (p : option param) : option bool :=
  match d, p with Some d, Some p => Some (compare_value op d p) | _, _ => None end.

(** A failed cast, or a column that is not an integer, fails the statement;
    here such a condition is NULL, which also keeps no row. *)
Definition any_int (d : option datum) (p : option param) : option bool :=
  match p with
  | Some (PText s) =>
      match int_array s with
      | Some zs =>
          match d with
          | Some (DInt z) => Some (mem_Z z zs)
          | Some _ => None
          | None => if empty zs then Some false else None
          end
      | None => None
      end
  | _ => None
  end.

Definition env := list (string * row).

Definition value_of (e : env) (r : ref) : option datum :=
  match r with
  | Quoted a c | Bare a c => row ← assoc a e; row c
  | Plain _ => None
  end.

(** Placeholders count from one. *)
Definition arg (n : nat) : option param := args !! Nat.pred n.

Definition same (a b : option datum) : option bool :=
  match a, b with Some a, Some b => Some (bool_decide (a = b)) | _, _ => None end.

Definition tables_rows (e : env) (from : tables) : list env :=
  match from with
  | One t a => map (fun r => (a, r) :: e) (db t)
  | Joined t a t' a' l r =>
      List.filter (fun e => holds (same (value_of e l) (value_of e r)))
        (flat_map (fun x => map (fun y => (a, x) :: (a', y) :: e) (db t')) (db t))
  end.

Fixpoint eval (e : env) (a : atom) : option bool :=
  match a with
  | IsNull r => Some (negb (has (value_of e r)))
  | IsNotNull r => Some (has (value_of e r))
  | SameAs l r => same (value_of e l) (value_of e r)
  | Compare r op n => compare3 op (value_of e r) (arg n)
  | AnyOf r n => any_int (value_of e r) (arg n)
  | InList r negated _ ns =>
      let m := any3 (map (fun n => compare3 Equal (value_of e r) (arg n)) ns) in
      if negated then not3 m else m
  | Exists from c =>
      Some (existsb (fun e => holds (all3 (map (eval e) c))) (tables_rows e from))
  | Paren d => any3 (map (fun c => all3 (map (eval e) c)) d)
  | Not d => not3 (any3 (map (fun c => all3 (map (eval e) c)) d))
  end.

Definition meets (c : list atom) (r : row) : bool := holds (all3 (map (eval [("t", r)]) c)).

(** The output column an item gives, and its value on a row of the table. *)
Definition item_value (r : row) (name : string) (i : item) : option (option datum) :=
  match i with
  | Col (Quoted _ c) => if String.eqb c name then Some (r c) else None
  | Masked m c => if String.eqb c name then Some (pg_mask m c r) else None
  | Stored c alias => if String.eqb alias name then Some (r c) else None
  | _ => None
  end.

Fixpoint project (items : list item) (r : row) (name : string) : option datum :=
  match items with
  | [] => None
  | i :: items =>
      match item_value r name i with Some v => v | None => project items r name end
  end.

Definition scan_key (s : scan) : string :=
  (if scan_metric s then "metrics." else "") ++ scan_table s.

(** The rows the rest of the statement sees. *)
Definition scan_rows (s : scan) : list row :=
  match scan_items s with
  | None => db (scan_key s)
  | Some items => map (project items) (List.filter (meets (scan_where s)) (db (scan_key s)))
  end.
End Meaning.
