(* ===== verification/DatastorePlan.v ===== *)
(** * The statement of a request's form

    [plan] writes the statement of a request from its form alone: the names it
    uses, the operators, how many values each filter has and which bounds are
    given, but no value, connection or time.  DatastoreText proves that the
    builder of DatastoreQuery writes the text of this statement. *)
From Stdlib Require Import Ascii ZArith.
From stdpp Require Import base list strings.
From S2P Require Import Prelude GoStrings AuditText GoText Redaction DatastoreCatalog DatastoreRequest DatastoreQuery SqlMeaning.

Local Open Scope string_scope.

(** ** Forms *)

Record filter_form := { ff_column : string; ff_op : string; ff_count : nat }.

Record form := {
  fm_shape : string;
  fm_columns : list string;
  fm_groupBy : list string;
  fm_aggregation : string;
  fm_buckets : bool;
  fm_order : list (string * bool);
  fm_filters : list filter_form;
  fm_named : bool;
  fm_start : bool;
  fm_end : bool;
  fm_all : bool;
  fm_system : bool;
}.

Definition filter_form_of (f : datastoreFilter) : filter_form :=
  {| ff_column := f_Column f; ff_op := f_Op f;
     ff_count := match f_Values f with Some (AList l) => length l | _ => 0 end |}.

Definition form_of (req : datastoreRequest) (vis : visibleSet) : form :=
  {| fm_shape := Shape req; fm_columns := req_Columns req; fm_groupBy := GroupBy req;
     fm_aggregation := Aggregation req; fm_buckets := (0 <? Buckets req)%Z;
     fm_order := map (fun o => (o_Column o, String.eqb (o_Direction o) "desc")) (OrderBy req);
     fm_filters := map filter_form_of (Filters req);
     fm_named := negb (empty (ConnectionIDs req));
     fm_start := negb (is_empty (TimeStart req)); fm_end := negb (is_empty (TimeEnd req));
     fm_all := All vis; fm_system := SystemAlerts vis |}.

(** ** The server's conditions

    Each piece gives its atoms and the number of parameters bound so far. *)

Definition t_ref (column : string) : ref := Quoted "t" column.

Definition restricted (fm : form) : bool := fm_named fm || negb (fm_all fm).
Definition include_system (fm : form) : bool := fm_system fm && negb (fm_named fm).

Definition alert_atom (alias : string) (fm : form) (n : nat) : list atom * nat :=
  let conn := Quoted alias "connection_id" in
  if restricted fm then
    if include_system fm
    then ([Paren [[AnyOf conn (S n)]; [Compare (Quoted alias "alert_type") Equal (S (S n))]]], S (S n))
    else ([AnyOf conn (S n)], S n)
  else if include_system fm then ([], n) else ([IsNotNull conn], n).

Definition via_alert_atom (fm : form) (n : nat) : list atom * nat :=
  let '(c, n) := alert_atom "a" fm n in
  match c with
  | [] => ([], n)
  | _ => ([Exists (One "alerts" "a") (SameAs (Bare "a" "id") (t_ref "alert_id") :: c)], n)
  end.

Definition cluster_atom (cluster : ref) (n : nat) : atom :=
  Exists (One "connections" "c") [SameAs (Bare "c" "cluster_id") cluster; AnyOf (Bare "c" "id") n].
Definition group_atom (group : ref) (n : nat) : atom :=
  Exists (Joined "connections" "c" "clusters" "cl" (Bare "cl" "id") (Bare "c" "cluster_id"))
    [SameAs (Bare "cl" "group_id") group; AnyOf (Bare "c" "id") n].

Definition hierarchy_atom (n : nat) : atom :=
  let conn := t_ref "connection_id" in
  let cluster := t_ref "cluster_id" in
  let group := t_ref "group_id" in
  Paren [
    [Paren [[IsNull conn; IsNull cluster; IsNull group;
             InList (t_ref "scope") false false [S (S n); S (S (S n))]]]];
    [Paren [[IsNotNull conn; AnyOf conn (S n)]]];
    [Paren [[IsNull conn; IsNotNull cluster; cluster_atom cluster (S n)]]];
    [Paren [[IsNull conn; IsNull cluster; IsNotNull group; group_atom group (S n)]]]].

Definition scope_atom (src : datastoreSource) (fm : form) (n : nat) : list atom * nat :=
  match src_Scope src with
  | scopeAlert => alert_atom "t" fm n
  | scopeViaAlert => via_alert_atom fm n
  | _ =>
      if restricted fm then
        match src_Scope src with
        | scopeConnection => ([AnyOf (t_ref (src_ConnectionColumn src)) (S n)], S n)
        | scopeHierarchy => ([hierarchy_atom n], S (S (S n)))
        | scopeCluster => ([cluster_atom (t_ref "id") (S n)], S n)
        | scopeGroup => ([group_atom (t_ref "id") (S n)], S n)
        | _ => ([], n)
        end
      else ([], n)
  end.

Definition live_atom (src : datastoreSource) : list atom :=
  if negb (is_empty (src_LiveColumn src)) then [IsNull (t_ref (src_LiveColumn src))]
  else
    match src_Scope src with
    | scopeConnection =>
        if is_empty (src_ConnectionColumn src) then []
        else [Exists (One "connections" "lc")
                [SameAs (Bare "lc" "id") (t_ref (src_ConnectionColumn src));
                 IsNull (Bare "lc" "deleted_at")]]
    | _ => []
    end.

(** Whether the window has a start and an end: a metric source always has
    both. *)
Definition bounded (src : datastoreSource) (given : bool) : bool :=
  negb (is_empty (src_TimeColumn src)) &&
  (String.eqb (src_Kind src) datastoreKindMetric || given).

Definition bound_atom (src : datastoreSource) (op : cmp_op) (given : bool) (n : nat)
    : list atom * nat :=
  if bounded src given then ([Compare (t_ref (src_TimeColumn src)) op (S n)], S n) else ([], n).

(** The conditions, the parameters bound and the parameter of the start. *)
Definition server_atoms (src : datastoreSource) (fm : form) : list atom * nat * nat :=
  let '(scope, n1) := scope_atom src fm 0 in
  let '(lo, n2) := bound_atom src GreaterEq (fm_start fm) n1 in
  let '(hi, n3) := bound_atom src LessEq (fm_end fm) n2 in
  ((scope ++ live_atom src ++ lo ++ hi)%list, n3, S n1).

(** ** The caller's filters *)

Definition op_of (op : string) : cmp_op :=
  if String.eqb op "=" then Equal else if String.eqb op "!=" then NotEqual
  else if String.eqb op "<" then Less else if String.eqb op "<=" then LessEq
  else if String.eqb op ">" then Greater else if String.eqb op ">=" then GreaterEq else Like.

Definition list_atom (c : datastoreColumn) (r : ref) (negate : bool) (k n : nat)
    : atom * nat :=
  if member (col_DataType c) datastoreTextTypes then (InList r negate true (seq (S n) k), n + k)
  else if String.eqb (col_DataType c) typeInteger || String.eqb (col_DataType c) "smallint"
  then (if negate then Not [[AnyOf r (S n)]] else AnyOf r (S n), S n)
  else (Paren (if negate then [map (Compare r NotEqual) (seq (S n) k)]
               else map (fun m => [Compare r Equal m]) (seq (S n) k)), n + k).

Definition filter_atom (src : datastoreSource) (f : filter_form) (n : nat) : atom * nat :=
  let r := t_ref (ff_column f) in
  if String.eqb (ff_op f) "is null" then (IsNull r, n)
  else if String.eqb (ff_op f) "is not null" then (IsNotNull r, n)
  else if member (ff_op f) ["in"; "not in"] then
    list_atom (default (col "" "") (source_column src (ff_column f))) r
      (String.eqb (ff_op f) "not in") (ff_count f) n
  else (Compare r (op_of (ff_op f)) (S n), S n).

Fixpoint filter_atoms (src : datastoreSource) (l : list filter_form) (n : nat)
    : list atom * nat :=
  match l with
  | [] => ([], n)
  | f :: l =>
      let '(a, n) := filter_atom src f n in
      let '(atoms, n) := filter_atoms src l n in
      (a :: atoms, n)
  end.

(** ** The statement *)

Definition mask_of (c : datastoreColumn) : option mask :=
  if col_MaskOptions c then Some OptionsMask
  else if col_MaskWhole c then Some WholeMask
  else if col_RedactText c then Some TextMask
  else if is_empty (col_RedactBy c) then None
  else Some (SettingMask (col_RedactBy c)).

Definition inner_item (c : datastoreColumn) : item :=
  match mask_of c with
  | Some m => Masked m (col_Name c)
  | None => Col (t_ref (col_Name c))
  end.

Definition stored_item (c : datastoreColumn) : item :=
  Stored (col_Name c) (RawStatementAlias (col_Name c)).

Definition inner_items (src : datastoreSource) : list item :=
  (map inner_item (src_Columns src) ++
   map stored_item (List.filter col_RedactStatement (src_Columns src)))%list.

Definition plan_scan (src : datastoreSource) (inner : list atom) : scan :=
  {| scan_metric := String.eqb (src_Kind src) datastoreKindMetric;
     scan_table := src_Table src;
     scan_items := if empty inner && negb (existsb redacts (src_Columns src)) then None
                   else Some (inner_items src);
     scan_where := inner |}.

Definition tie_break (terms : order) (keys : list string) (name : string -> ref) : order :=
  foldl (fun terms k =>
           if existsb (fun t => has_prefix (order_term t) (ref_text (name k) ++ " ")) terms
           then terms else (terms ++ [(name k, false)])%list) terms keys.

Definition orders (fm : form) (name : string -> ref) : order :=
  map (fun o => (name (fst o), snd o)) (fm_order fm).

Definition plan_columns (src : datastoreSource) (fm : form) : list string :=
  if empty (fm_columns fm) && negb (String.eqb (fm_shape fm) datastoreShapeAggregate)
  then columnNames src else fm_columns fm.

Definition with_stored (src : datastoreSource) (columns : list string) : list string :=
  (columns ++ rawStatementNames src columns)%list.

Definition bucket_items (src : datastoreSource) (fm : form) (width start : nat)
    : list (item * string) :=
  if fm_buckets fm
  then [(Bucket width (src_TimeColumn src) start, datastoreBucketAlias)] else [].

Definition aggregate_item (src : datastoreSource) (fm : form) (name : string) : item * string :=
  let alias := fm_aggregation fm ++ "_" ++ name in
  (Aggregated (fm_aggregation fm) name
     (col_DataType (default (col "" "") (source_column src name))) alias, alias).

Definition stored_aggregates (src : datastoreSource) (fm : form) : list item :=
  (map (fun g => StoredAggregate "min" (RawStatementAlias g) (RawStatementAlias g))
     (List.filter (statementColumn src) (fm_groupBy fm)) ++
   (if String.eqb (fm_aggregation fm) "min" || String.eqb (fm_aggregation fm) "max"
    then map (fun name => StoredAggregate (fm_aggregation fm) (RawStatementAlias name)
                            (RawStatementAlias (fm_aggregation fm ++ "_" ++ name)%string))
           (List.filter (statementColumn src) (fm_columns fm))
    else []))%list.

Definition plan (src : datastoreSource) (fm : form) : statement :=
  let '(inner, n, start) := server_atoms src fm in
  let '(filters, n) := filter_atoms src (fm_filters fm) n in
  let from := plan_scan src inner in
  let columns := plan_columns src fm in
  if String.eqb (fm_shape fm) datastoreShapeLatest then
    let distinct := src_ConnectionColumn src :: datastoreEntityKeys src in
    Latest (map (fun c => Col (Plain c)) (with_stored src columns))
      (map (fun c => Col (t_ref c)) distinct)
      (map (fun c => Col (t_ref c)) (with_stored src (columnNames src)))
      (t_ref (src_TimeColumn src)) from filters
      (tie_break (orders fm Plain) distinct Plain) (S n) (S (S n))
  else if String.eqb (fm_shape fm) datastoreShapeAggregate then
    let buckets := bucket_items src fm (S n) start in
    let n := if fm_buckets fm then S n else n in
    let groups := (buckets ++ map (fun g => (Col (t_ref g), g)) (fm_groupBy fm))%list in
    let counted := if empty (fm_columns fm) then [(CountAll, "count")] else [] in
    let items := (groups ++ counted ++ map (aggregate_item src fm) (fm_columns fm))%list in
    Grouped (map fst items ++ stored_aggregates src fm)%list from filters (length groups)
      (tie_break (orders fm Plain) (map snd groups) Plain) (S n) (S (S n))
  else
    Rows (map (fun c => Col (t_ref c)) (with_stored src columns)) from filters
      (tie_break
         (if empty (fm_order fm)
          then if is_empty (src_TimeColumn src) then [] else [(t_ref (src_TimeColumn src), true)]
          else orders fm t_ref)
         (datastoreRowKey src) t_ref) (S n) (S (S n)).
