(* ===== verification/DatastoreText.v ===== *)
(** * The builder writes the text of the plan

    For every request that parses, [buildDatastoreQuery] either fails or gives
    the text of the statement [plan] writes from the request's form. *)
From Stdlib Require Import Ascii ZArith.
From stdpp Require Import base list strings.
From S2P Require Import Prelude GoStrings AuditText GoText Redaction DatastoreCatalog DatastoreRequest DatastoreQuery SqlMeaning DatastorePlan.

Local Open Scope string_scope.

(** ** What a construction that succeeds yields *)

Section Yields.
Context {A B : Type}.

Definition yields {A} (m : build A) (q : list param) (P : A -> list param -> Prop) : Prop :=
  forall a q', m q = Ok (a, q') -> P a q'.

Lemma yields_ret (a : A) q (P : A -> list param -> Prop) : P a q -> yields (ret a) q P.
Proof. intros HP a' q' [= <- <-]. done. Qed.

Lemma yields_fail e q (P : A -> list param -> Prop) : yields (fail e) q P.
Proof. intros a q' [=]. Qed.

Lemma yields_bbind (m : build A) (k : A -> build B) q P :
  yields m q (fun a q' => yields (k a) q' P) -> yields (bbind m k) q P.
Proof.
  intros Hm b q' Hb. unfold bbind in Hb. destruct (m q) as [[a q1]|e] eqn:Hq; [|done].
  exact (Hm a q1 Hq b q' Hb).
Qed.

Lemma yields_lift (m : built A) q (P : A -> list param -> Prop) :
  (forall a, m = Ok a -> P a q) -> yields (lift m) q P.
Proof. intros HP a q' Ha. unfold lift in Ha. destruct m; [|done]. injection Ha as <- <-. auto. Qed.

Lemma yields_mono (m : build A) q (P Q : A -> list param -> Prop) :
  yields m q P -> (forall a q', P a q' -> Q a q') -> yields m q Q.
Proof. intros Hm HPQ a q' Ha. auto. Qed.
End Yields.

Lemma yields_bind v q (P : string -> list param -> Prop) :
  P (placeholder (S (length q))) (q ++ [v])%list -> yields (bind v) q P.
Proof. intros HP a q' [= <- <-]. done. Qed.

Create HintDb build.
#[export] Hint Resolve yields_ret yields_fail yields_bind : build.

(** One step of a construction. *)
Ltac yield_step :=
  lazymatch goal with
  | |- yields (bbind _ _) _ _ => apply yields_bbind
  | |- yields (ret _) _ _ => apply yields_ret
  | |- yields (fail _) _ _ => apply yields_fail
  | |- yields (bind _) _ _ => apply yields_bind
  | |- yields (if ?b then _ else _) _ _ => destruct b eqn:?
  end.

(** Equality of results, without computing them. *)
Lemma Ok_inj {E A} (a b : A) : @Ok E A a = Ok b -> a = b.
Proof. by intros [= ->]. Qed.

Lemma length_snoc {A} (l : list A) x : length (l ++ [x]) = S (length l).
Proof. rewrite length_app. simpl. lia. Qed.

(** ** Text *)

Lemma is_empty_app a b : is_empty (a ++ b) = is_empty a && is_empty b.
Proof. by destruct a. Qed.

Lemma atom_text_nonempty a : is_empty (atom_text a) = false.
Proof. destruct a; cbn [atom_text]; rewrite ?is_empty_app; simpl; by rewrite ?andb_false_r. Qed.

(** At most one atom, as the text of a condition that may be absent. *)
Definition cond_text (c : list atom) : string := join " AND " (map atom_text c).

Definition at_most_one (c : list atom) : Prop := length c <= 1.

Lemma cond_text_parts c :
  at_most_one c ->
  (if is_empty (cond_text c) then [] else [cond_text c]) = map atom_text c.
Proof.
  destruct c as [|a [|b c]]; unfold at_most_one; simpl; [done| |lia].
  intros _. unfold cond_text. simpl. by rewrite atom_text_nonempty.
Qed.

Lemma where_clause_text c : where_clause (map atom_text c) = where_text c.
Proof. by destruct c. Qed.

Section Scope.
Context (src : datastoreSource) (req : datastoreRequest) (vis : visibleSet).
Local Abbreviation fm := (form_of req vis).

(** The visible set, bound as one list. *)
Definition visible_part (ids : list Z) : build string :=
  bbind (bind (PText (IntListArg ids))) (fun p => ret (IntArrayExpr p)).

Lemma scopeIDs_restricted ids r : scopeIDs req vis = Ok (ids, r) -> r = restricted fm.
Proof.
  unfold scopeIDs, restricted. simpl. destruct (empty (ConnectionIDs req)); simpl.
  - destruct (All vis); by intros [= <- <-].
  - destruct (forallb _ _); by intros [= <- <-].
Qed.

Lemma yields_visible ids q (P : string -> list param -> Prop) :
  P (IntArrayExpr (placeholder (S (length q)))) (q ++ [PText (IntListArg ids)])%list ->
  yields (visible_part ids) q P.
Proof. intros HP. unfold visible_part. by repeat yield_step. Qed.

Lemma alertCondition_text alias ids q :
  yields (alertCondition alias req vis (restricted fm) (visible_part ids)) q
    (fun txt q' => txt = cond_text (fst (alert_atom alias fm (length q))) /\
                   length q' = snd (alert_atom alias fm (length q))).
Proof.
  unfold alertCondition, alert_atom.
  assert (include_system fm = SystemAlerts vis && empty (ConnectionIDs req)) as ->.
  { unfold include_system. simpl. by rewrite negb_involutive. }
  destruct (restricted fm); simpl.
  - apply yields_bbind, yields_visible. destruct (_ && _).
    + apply yields_bbind, yields_bind, yields_ret. rewrite !length_snoc. split; [|done].
      unfold cond_text. simpl. text_eq.
    + apply yields_ret. rewrite length_snoc. split; [|done]. unfold cond_text. simpl. text_eq.
  - destruct (_ && _); by apply yields_ret.
Qed.

Lemma viaAlertCondition_text ids q :
  yields (viaAlertCondition req vis (restricted fm) (visible_part ids)) q
    (fun txt q' => txt = cond_text (fst (via_alert_atom fm (length q))) /\
                   length q' = snd (via_alert_atom fm (length q))).
Proof.
  unfold viaAlertCondition, via_alert_atom. apply yields_bbind.
  eapply yields_mono; [apply alertCondition_text|]. intros txt q' [-> Hlen].
  destruct (alert_atom "a" fm (length q)) as [c n] eqn:Ha. simpl in *.
  destruct c as [|a c]; simpl.
  { apply yields_ret. done. }
  assert (is_empty (cond_text (a :: c)) = false) as ->.
  { unfold cond_text. destruct c; simpl; rewrite ?is_empty_app, atom_text_nonempty; done. }
  apply yields_ret. split; [|done]. unfold cond_text. simpl. text_eq.
Qed.

Lemma hierarchyCondition_text n q :
  length q = S n ->
  yields (hierarchyCondition (IntArrayExpr (placeholder (S n)))) q
    (fun txt q' => txt = cond_text [hierarchy_atom n] /\ length q' = S (S (S n))).
Proof.
  intros Hq. unfold hierarchyCondition. repeat yield_step. rewrite !length_snoc, Hq.
  split; [|done]. unfold cond_text. simpl. text_eq.
Qed.

Lemma scopeCondition_text q :
  yields (scopeCondition src req vis) q
    (fun txt q' => txt = cond_text (fst (scope_atom src fm (length q))) /\
                   length q' = snd (scope_atom src fm (length q))).
Proof.
  unfold scopeCondition. apply yields_bbind, yields_lift. intros _ _.
  apply yields_bbind, yields_lift. intros [ids r] ->%scopeIDs_restricted.
  change (bbind (bind (PText (IntListArg ids))) _) with (visible_part ids).
  unfold scope_atom, restrictedScopeCondition.
  destruct (src_Scope src);
    try apply alertCondition_text; try apply viaAlertCondition_text;
    (destruct (restricted fm); [try apply yields_bbind, yields_visible|]);
    try (apply yields_ret; simpl; rewrite ?length_snoc; split; [|done];
         unfold cond_text; simpl; text_eq; done).
Qed.
End Scope.

Lemma alert_at_most_one alias fm n : at_most_one (fst (alert_atom alias fm n)).
Proof. unfold alert_atom, at_most_one. repeat case_match; simpl; lia. Qed.

Lemma scope_at_most_one src fm n : at_most_one (fst (scope_atom src fm n)).
Proof.
  pose proof (alert_at_most_one "t" fm n). unfold at_most_one in *.
  unfold scope_atom, via_alert_atom. repeat case_match; simpl in *; try done; lia.
Qed.

Lemma live_part_text src : live_part src = map atom_text (live_atom src).
Proof.
  unfold live_part, live_atom, liveConnectionCondition.
  destruct (is_empty (src_LiveColumn src)); [|done]. simpl.
  destruct (src_Scope src); try done. destruct (is_empty (src_ConnectionColumn src)); [done|].
  simpl. f_equal. text_eq.
Qed.

Section Server.
Context `{UnicodeCase} `{GoParsers}.
Context (src : datastoreSource) (req : datastoreRequest) (vis : visibleSet) (now : Z).
Local Abbreviation fm := (form_of req vis).

Lemma parse_bounds_given s e :
  parseDatastoreBounds req now = Ok (s, e) ->
  has s = fm_start fm /\ has e = fm_end fm.
Proof.
  unfold parseDatastoreBounds. simpl. intros (e' & He & Hs)%rbind_Ok.
  apply rbind_Ok in Hs as (s' & Hs & [= -> ->]).
  destruct (is_empty (TimeEnd req)).
  - injection He as <-. destruct (is_empty (TimeStart req)); [by injection Hs as <-|].
    apply rbind_Ok in Hs as (? & _ & [= <-]). done.
  - apply rbind_Ok in He as (? & _ & [= <-]).
    destruct (is_empty (TimeStart req)); [by injection Hs as <-|].
    apply rbind_Ok in Hs as (? & _ & [= <-]). done.
Qed.

Lemma window_bounded w :
  resolveDatastoreWindow src req now = Ok w ->
  has (win_start w) = bounded src (fm_start fm) /\ has (win_end w) = bounded src (fm_end fm).
Proof.
  unfold resolveDatastoreWindow, bounded. destruct (is_empty (src_TimeColumn src)); simpl.
  { destruct (_ || _); [done|]. by intros [= <-]. }
  intros ([s e] & Hb & Hw)%rbind_Ok. apply parse_bounds_given in Hb as [Hs He]. simpl in Hs, He. rewrite <- Hs, <- He.
  destruct (String.eqb (src_Kind src) datastoreKindMetric); simpl in *.
  - unfold metricDatastoreWindow in Hw. by apply rbind_Ok in Hw as (? & _ & [= <-]).
  - destruct s as [s|], e as [e|]; try (by injection Hw as <-).
    destruct (e <=? s)%Z; [done|]. by injection Hw as <-.
Qed.

Lemma serverConditions_text :
  yields (serverConditions src req vis now) []
    (fun r q' =>
       let '(atoms, n, start) := server_atoms src fm in
       fst r = map atom_text atoms /\ length q' = n /\
       has (win_start (snd r)) = bounded src (fm_start fm) /\
       (has (win_start (snd r)) = true -> win_startParam (snd r) = placeholder start)).
Proof.
  unfold serverConditions, server_atoms. apply yields_bbind.
  eapply yields_mono; [apply scopeCondition_text|]. intros txt q1 [-> Hq1].
  pose proof (scope_at_most_one src fm 0) as Hone.
  cbn [length] in *. destruct (scope_atom src fm 0) as [scope n1]. cbn [fst snd] in *.
  rewrite (cond_text_parts _ Hone), live_part_text.
  apply yields_bbind, yields_lift. intros w [Hs He]%window_bounded. unfold bound_atom.
  assert (forall given, bounded src given = true ->
          (if is_empty (src_TimeColumn src) then "" else t_ (src_TimeColumn src)) =
          t_ (src_TimeColumn src)) as Htime.
  { unfold bounded. by destruct (is_empty _). }
  apply yields_bbind. destruct (win_start w) as [st|] eqn:Hstart; cbn [has] in Hs; rewrite <- Hs;
    [rewrite (Htime (fm_start fm)) by done; apply yields_bbind, yields_bind|];
    apply yields_ret, yields_bbind; cbn [win_end].
  all: destruct (win_end w) as [en|]; cbn [has] in He; rewrite <- He;
    [rewrite ?(Htime (fm_end fm)) by done; apply yields_bbind, yields_bind|];
    apply yields_ret, yields_ret; simpl;
    rewrite ?map_app, ?length_snoc, Hq1, <- ?(assoc_L (++)), ?Hstart; simpl; done.
Qed.
End Server.

(** ** Filters *)

Lemma map_res_length {E A B} (f : nat -> A -> res E B) i l out :
  map_res f i l = Ok out -> length out = length l.
Proof.
  revert i out. induction l as [|a l IH]; intros i out; simpl; [by intros [= <-]|].
  intros (b & _ & (bs & Hbs & [= <-])%rbind_Ok)%rbind_Ok. simpl. f_equal. eauto.
Qed.

(** Binding a list of values gives consecutive placeholders. *)
Lemma each_bind (g : string -> string) i (vs : list param) q :
  yields (each (fun _ v => bbind (bind v) (fun p => ret (g p))) i vs) q
    (fun out q' => out = map (fun n => g (placeholder n)) (seq (S (length q)) (length vs)) /\
                   q' = (q ++ vs)%list).
Proof.
  revert i q. induction vs as [|v vs IH]; intros i q; simpl.
  { apply yields_ret. by rewrite app_nil_r. }
  apply yields_bbind, yields_bbind, yields_bind, yields_ret, yields_bbind.
  eapply yields_mono; [apply IH|]. intros out q' [-> ->]. apply yields_ret.
  rewrite length_snoc, <- (assoc_L (++)). done.
Qed.

Section Filters.
Context `{UnicodeCase} `{GoParsers}.
Context (src : datastoreSource).

Lemma checkColumn_found name c :
  checkColumn src name = Ok c ->
  source_column src name = Some c /\ col_Name c = name /\ IsValidIdentifier name = true.
Proof.
  unfold checkColumn. destruct (source_column src name) as [c'|] eqn:Hc; [|done].
  destruct (IsValidIdentifier name) eqn:Hid; [|done]. intros [= ->]. split_and!; try done.
  apply find_some in Hc as [_ Hc]. by apply String.eqb_eq in Hc.
Qed.

Lemma listFilterValues_length c f i vs :
  listFilterValues c f i = Ok vs -> length vs = ff_count (filter_form_of f).
Proof.
  unfold listFilterValues. destruct (has (f_Value f)); [done|]. simpl.
  destruct (f_Values f) as [[]|]; try done. destruct (empty l); [done|].
  destruct (longer_than l datastoreMaxInValues); [done|]. apply map_res_length.
Qed.

Lemma listFilterCondition_text c f i q :
  yields (listFilterCondition c f (t_ (f_Column f)) i) q
    (fun txt q' =>
       let '(a, n) := list_atom c (t_ref (f_Column f)) (String.eqb (f_Op f) "not in")
                        (ff_count (filter_form_of f)) (length q) in
       txt = atom_text a /\ length q' = n).
Proof.
  unfold listFilterCondition, list_atom. apply yields_bbind, yields_lift.
  intros vs <-%listFilterValues_length.
  destruct (member (col_DataType c) datastoreTextTypes).
  { unfold textListCondition. apply yields_bbind. eapply yields_mono; [apply each_bind|].
    intros out q' [-> ->]. apply yields_ret. by rewrite length_app. }
  destruct (_ || _).
  - unfold integerListCondition. apply yields_bbind, yields_lift. intros parts _.
    apply yields_bbind, yields_bind, yields_ret. rewrite length_snoc.
    destruct (String.eqb (f_Op f) "not in"); split; try done.
  - unfold comparisonChain. apply yields_bbind. eapply yields_mono; [apply each_bind|].
    intros out q' [-> ->]. apply yields_ret. rewrite length_app.
    destruct (String.eqb (f_Op f) "not in"); simpl; split; try done;
      by rewrite map_map.
Qed.

Lemma op_text op sql :
  assoc op datastoreOperators = Some sql ->
  member op ["is null"; "is not null"] = false -> member op ["in"; "not in"] = false ->
  sql = cmp_text (op_of op).
Proof.
  unfold op_of, datastoreOperators. cbn [assoc].
  repeat match goal with
  | |- (if String.eqb ?k op then _ else _) = _ -> _ =>
      destruct (String.eqb_spec k op) as [<-|]; [intros [= <-]; vm_compute; congruence|]
  end. done.
Qed.

Lemma filterCondition_text i f q :
  is_Some (assoc (f_Op f) datastoreOperators) ->
  yields (filterCondition src i f) q
    (fun txt q' => let '(a, n) := filter_atom src (filter_form_of f) (length q) in
                   txt = atom_text a /\ length q' = n).
Proof.
  intros [sql Hop]. unfold filterCondition, filter_atom. rewrite Hop.
  apply yields_bbind, yields_lift. intros c (Hc & -> & _)%checkColumn_found. simpl.
  rewrite Hc. simpl.
  destruct (String.eqb_spec (f_Op f) "is null") as [Heq|Hn1]; [|
    destruct (String.eqb_spec (f_Op f) "is not null") as [Heq|Hn2]]; simpl.
  1,2: rewrite Heq in Hop; injection Hop as <-; destruct (_ || _); [apply yields_fail|];
       apply yields_ret; done.
  change (String.eqb (f_Op f) "in" || (String.eqb (f_Op f) "not in" || false))
    with (member (f_Op f) ["in"; "not in"]).
  destruct (member (f_Op f) ["in"; "not in"]) eqn:Hin; [apply listFilterCondition_text|].
  unfold scalarFilterCondition. destruct (has (f_Values f)); [apply yields_fail|].
  assert (sql = cmp_text (op_of (f_Op f))) as ->.
  { apply op_text; [done| |done]. simpl. by rewrite !(proj2 (String.eqb_neq _ _)). }
  destruct (f_Value f) as [v|]; [|apply yields_fail]. destruct v; try apply yields_fail.
  all: apply yields_bbind, yields_lift; intros _ _; apply yields_bbind, yields_lift;
       intros p _; apply yields_bbind, yields_bind, yields_ret; rewrite length_snoc;
       split; [simpl; text_eq|done].
Qed.

Lemma filterConditions_text i filters q :
  Forall operator_ok filters ->
  yields (each (filterCondition src) i filters) q
    (fun txts q' => let '(atoms, n) := filter_atoms src (map filter_form_of filters) (length q) in
                    txts = map atom_text atoms /\ length q' = n).
Proof.
  intros Hops. revert i q. induction Hops as [|f filters Hop _ IH]; intros i q; simpl.
  { by apply yields_ret. }
  apply yields_bbind. eapply yields_mono; [by apply filterCondition_text|].
  intros txt q1. destruct (filter_atom src (filter_form_of f) (length q)) as [a n1].
  intros [-> <-]. apply yields_bbind. eapply yields_mono; [apply IH|].
  intros txts q2. destruct (filter_atoms src _ (length q1)) as [atoms n2].
  intros [-> <-]. by apply yields_ret.
Qed.
End Filters.

(** ** The FROM item and the shapes *)

Lemma empty_map {A B} (f : A -> B) l : empty (map f l) = empty l.
Proof. by destruct l. Qed.

Lemma inner_column_text c : inner_column c = item_text (inner_item c).
Proof. unfold inner_column, inner_item, mask_of. by repeat case_match. Qed.

Lemma scopedFrom_text src inner from :
  scopedFrom src (map atom_text inner) = Ok from -> from = scan_text (plan_scan src inner).
Proof.
  unfold scopedFrom. intros (base & Hbase & Hfrom)%rbind_Ok.
  assert (base = table_text (plan_scan src inner)) as ->.
  { unfold fromClause in Hbase. unfold table_text, plan_scan. simpl.
    destruct (String.eqb (src_Kind src) datastoreKindMetric); [by injection Hbase as <-|].
    destruct (String.eqb (src_Kind src) datastoreKindConfiguration); [|done].
    by injection Hbase as <-. }
  rewrite empty_map in Hfrom. unfold scan_text. cbn [plan_scan scan_items].
  destruct (empty inner && _); [by injection Hfrom as <-|]. injection Hfrom as <-.
  rewrite where_clause_text.
  assert (innerSelectList src = items_text (inner_items src)) as ->; [|done].
  unfold innerSelectList, items_text, inner_items. rewrite map_app, !map_map. do 2 f_equal.
  apply map_ext, inner_column_text.
Qed.

Section Orders.
Context `{UnicodeCase}.

Definition order_of (name : string -> ref) (l : list datastoreOrder) : order :=
  map (fun o => (name (o_Column o), String.eqb (o_Direction o) "desc")) l.

Lemma orderTerms_text l alias check name terms :
  (forall c, ref_text (name c) = if is_empty alias then QuoteIdentifier c else qualified alias c) ->
  Forall direction_ok l ->
  orderTerms l alias check = Ok terms ->
  terms = map order_term (order_of name l).
Proof.
  intros Hname Hok. unfold orderTerms. generalize 0 as i. revert terms.
  induction Hok as [|o l Hdir _ IH]; intros terms i; simpl; [by intros [= <-]|].
  intros (term & Hterm & Hrest)%rbind_Ok.
  apply rbind_Ok in Hterm as (? & _ & [= <-]).
  apply rbind_Ok in Hrest as (terms' & Hterms & [= <-]).
  f_equal; [|eauto]. unfold order_term. simpl. rewrite Hname.
  by destruct Hdir as [-> | -> ].
Qed.
End Orders.

Lemma tieBreak_text terms keys name f :
  (forall c, f c = ref_text (name c)) ->
  tieBreakTerms (map order_term terms) keys f = map order_term (tie_break terms keys name).
Proof.
  intros Hf. unfold tieBreakTerms, tie_break. revert terms.
  induction keys as [|k keys IH]; intros terms; simpl; [done|].
  assert (forall g : string -> bool, existsb g (map order_term terms) =
                                     existsb (fun t => g (order_term t)) terms) as Hex.
  { intros g. induction terms as [|t terms IHt]; simpl; [done|]. by rewrite IHt. }
  rewrite Hex, Hf. destruct (existsb _ terms); [apply IH|].
  rewrite <- IH, map_app. done.
Qed.

Lemma tie_break_nonempty terms k keys name : tie_break terms (k :: keys) name <> [].
Proof.
  unfold tie_break. simpl.
  assert (forall ks (ts : order), ts <> [] ->
    foldl (fun terms k => if existsb (fun t => has_prefix (order_term t) (ref_text (name k) ++ " ")) terms
                          then terms else (terms ++ [(name k, false)])%list) ts ks <> []) as Hgrow.
  { induction ks as [|k' ks IH]; intros ts Hts; simpl; [done|]. apply IH.
    destruct (existsb _ ts); [done|]. by destruct ts. }
  apply Hgrow. destruct (existsb _ terms) eqn:He; [by destruct terms|]. by destruct terms.
Qed.

Lemma order_text_nonempty by_ :
  by_ <> [] -> order_text by_ = " ORDER BY " ++ join ", " (map order_term by_).
Proof. by destruct by_. Qed.

Lemma selectList_text alias name columns :
  (forall c, ref_text (name c) = if is_empty alias then QuoteIdentifier c else qualified alias c) ->
  selectList alias columns = items_text (map (fun c => Col (name c)) columns).
Proof.
  intros Hname. unfold selectList, items_text. rewrite map_map. f_equal. apply map_ext.
  intros c. simpl. by rewrite Hname.
Qed.

Lemma order_of_form req vis name : order_of name (OrderBy req) = orders (form_of req vis) name.
Proof. unfold order_of, orders. simpl. by rewrite map_map. Qed.

Lemma t_name c : ref_text (t_ref c) = qualified datastoreTableAlias c.
Proof. done. Qed.

Section Shapes.
Context `{UnicodeCase} `{GoParsers}.
Context (src : datastoreSource) (req : datastoreRequest) (vis : visibleSet).
Context (Hdirections : Forall direction_ok (OrderBy req)) (Hcolumns : src_Columns src <> []).
Local Abbreviation fm := (form_of req vis).

Lemma row_key_nonempty : datastoreRowKey src <> [].
Proof.
  unfold datastoreRowKey, columnNames. repeat case_match; try done.
  by destruct (src_Columns src).
Qed.

Lemma rowsStatement_text columns from filters limit offset sql :
  rowsStatement src req columns (scan_text from) (where_text filters) = Ok sql ->
  sql ++ limit_text limit offset =
  statement_text
    (Rows (map (fun c => Col (t_ref c)) (with_stored src columns)) from filters
       (tie_break
          (if empty (fm_order fm)
           then if is_empty (src_TimeColumn src) then [] else [(t_ref (src_TimeColumn src), true)]
           else orders fm t_ref)
          (datastoreRowKey src) t_ref) limit offset).
Proof.
  unfold rowsStatement. intros (terms & Hterms & <-%Ok_inj)%rbind_Ok.
  rewrite (selectList_text _ t_ref) by done.
  assert (terms = map order_term
    (if empty (fm_order fm)
     then if is_empty (src_TimeColumn src) then [] else [(t_ref (src_TimeColumn src), true)]
     else orders fm t_ref)) as ->.
  { simpl. rewrite empty_map. destruct (empty (OrderBy req)); simpl in Hterms.
    - destruct (is_empty (src_TimeColumn src)); by injection Hterms as <-.
    - rewrite <- (order_of_form req vis). eapply orderTerms_text; [|done|exact Hterms]. done. }
  rewrite (tieBreak_text _ _ t_ref) by done.
  assert (forall ts, tie_break ts (datastoreRowKey src) t_ref <> []) as Hne.
  { intros ts. pose proof row_key_nonempty. destruct (datastoreRowKey src); [done|].
    apply tie_break_nonempty. }
  cbn [statement_text]. rewrite (order_text_nonempty _ (Hne _)). unfold with_stored. text_eq.
Qed.

Lemma latestStatement_text columns from filters limit offset sql :
  let distinct := src_ConnectionColumn src :: datastoreEntityKeys src in
  latestStatement src req columns (scan_text from) (where_text filters) = Ok sql ->
  sql ++ limit_text limit offset =
  statement_text
    (Latest (map (fun c => Col (Plain c)) (with_stored src columns))
       (map (fun c => Col (t_ref c)) distinct)
       (map (fun c => Col (t_ref c)) (with_stored src (columnNames src)))
       (t_ref (src_TimeColumn src)) from filters
       (tie_break (orders fm Plain) distinct Plain) limit offset).
Proof.
  intros distinct. unfold latestStatement. intros (terms & Hterms & <-%Ok_inj)%rbind_Ok.
  change (src_ConnectionColumn src :: datastoreEntityKeys src) with distinct.
  apply (orderTerms_text _ _ _ Plain) in Hterms as ->; [|done..].
  rewrite (order_of_form req vis), (tieBreak_text _ _ Plain) by done.
  rewrite !(selectList_text datastoreTableAlias t_ref), (selectList_text "" Plain) by done.
  cbn [statement_text]. rewrite (order_text_nonempty (tie_break _ distinct _))
    by apply tie_break_nonempty.
  unfold with_stored. text_eq.
Qed.
End Shapes.

(** ** Aggregates *)

Lemma map_res_pure {E A B} (f : A -> res E B) (g : A -> B) i l out :
  (forall a b, f a = Ok b -> b = g a) -> map_res (fun _ => f) i l = Ok out -> out = map g l.
Proof.
  intros Hf. revert i out. induction l as [|a l IH]; intros i out; simpl; [by intros [= <-]|].
  intros (b & Hb & Hbs)%rbind_Ok. apply rbind_Ok in Hbs as (bs & Hbs & [= <-]).
  f_equal; eauto.
Qed.

(** An output column: its text and its name. *)
Definition output_text (o : item * string) : string * string := (item_text (fst o), snd o).

Lemma outputs_fst l : map fst (map output_text l) = map item_text (map fst l).
Proof. by rewrite !map_map. Qed.
Lemma outputs_snd l : map snd (map output_text l) = map snd l.
Proof. by rewrite map_map. Qed.

Lemma group_text_of {A} (groups : list A) sql rest :
  (if empty groups then sql
   else sql ++ " GROUP BY " ++
        join ", " (map (fun i => FormatInt (Z.of_nat i)) (seq 1 (length groups)))) ++ rest =
  sql ++ group_text (length groups) ++ rest.
Proof. destruct groups; simpl; text_eq. Qed.

Lemma order_text_of (by_ : order) sql rest :
  (if empty (map order_term by_) then sql
   else sql ++ " ORDER BY " ++ join ", " (map order_term by_)) ++ rest =
  sql ++ order_text by_ ++ rest.
Proof. destruct by_; [done|]. cbn [empty map order_text]. text_eq. Qed.

Section Aggregate.
Context `{UnicodeCase} `{GoParsers}.
Context (src : datastoreSource) (req : datastoreRequest) (vis : visibleSet).
Context (Hdirections : Forall direction_ok (OrderBy req)).
Local Abbreviation fm := (form_of req vis).

Lemma bucket_column_text w q start :
  (has (win_start w) = true -> win_startParam w = placeholder start) ->
  yields (bucket_column src req w) q
    (fun out q' => out = map output_text (bucket_items src fm (S (length q)) start) /\
                   length q' = if fm_buckets fm then S (length q) else length q).
Proof.
  intros Hstart. unfold bucket_column, bucket_items. cbn [fm_buckets form_of].
  destruct (0 <? Buckets req)%Z; [|by apply yields_ret].
  destruct (win_start w) as [s|]; [|apply yields_fail].
  destruct (win_end w) as [e|]; [|apply yields_fail].
  apply yields_bbind, yields_bind, yields_ret. rewrite length_snoc, Hstart by done.
  split; [|done]. simpl. unfold output_text. simpl. do 2 f_equal. unfold as_text. text_eq.
Qed.

Lemma aggregate_column_text name out :
  aggregate_column src req name = Ok out -> out = output_text (aggregate_item src fm name).
Proof.
  unfold aggregate_column. intros (_ & _ & <-%Ok_inj)%rbind_Ok. done.
Qed.

Lemma aggregateRawStatements_text :
  aggregateRawStatements src req = map item_text (stored_aggregates src fm).
Proof.
  assert (forall fn c o, raw_aggregate fn c o =
          item_text (StoredAggregate fn (RawStatementAlias c) (RawStatementAlias o))) as Hraw.
  { intros fn c o. unfold raw_aggregate. cbn [item_text]. unfold as_text. text_eq. }
  unfold aggregateRawStatements, stored_aggregates. rewrite map_app, map_map.
  cbn [fm_groupBy fm_aggregation fm_columns form_of]. f_equal.
  - apply map_ext. intros g. apply Hraw.
  - destruct (_ || _); [|done]. rewrite map_map. apply map_ext. intros c. apply Hraw.
Qed.

Lemma aggregateStatement_text w from filters start q :
  (has (win_start w) = true -> win_startParam w = placeholder start) ->
  yields (aggregateStatement src req w (scan_text from) (where_text filters)) q
    (fun sql q' =>
       let groups := (bucket_items src fm (S (length q)) start ++
                      map (fun g => (Col (t_ref g), g)) (fm_groupBy fm))%list in
       let counted := if empty (fm_columns fm) then [(CountAll, "count")] else [] in
       let items := (groups ++ counted ++ map (aggregate_item src fm) (fm_columns fm))%list in
       (forall limit offset,
          sql ++ limit_text limit offset =
          statement_text
            (Grouped (map fst items ++ stored_aggregates src fm)%list from filters (length groups)
               (tie_break (orders fm Plain) (map snd groups) Plain) limit offset)) /\
       length q' = if fm_buckets fm then S (length q) else length q).
Proof.
  intros Hstart. unfold aggregateStatement. apply yields_bbind.
  eapply yields_mono; [by apply bucket_column_text|]. intros buckets q' [-> Hlen].
  apply yields_bbind, yields_lift. intros grouped Hgrouped.
  assert (grouped = map output_text (map (fun g => (Col (t_ref g), g)) (fm_groupBy fm))) as ->.
  { rewrite map_map. eapply map_res_pure; [|exact Hgrouped]. intros a b. unfold group_column.
    by destruct (member a _); intros [= <-]. }
  apply yields_bbind, yields_lift. intros counted Hcounted.
  assert (counted = map output_text (if empty (fm_columns fm) then [(CountAll, "count")] else []))
    as ->.
  { cbn [fm_columns form_of]. destruct (empty (req_Columns req)); [|by injection Hcounted as <-].
    destruct (String.eqb _ "count"); [|done]. by injection Hcounted as <-. }
  apply yields_bbind, yields_lift. intros aggregated Hagg.
  assert (aggregated = map output_text (map (aggregate_item src fm) (fm_columns fm))) as ->.
  { rewrite map_map. eapply map_res_pure; [apply aggregate_column_text|exact Hagg]. }
  apply yields_bbind, yields_lift. intros terms Hterms. apply yields_ret.
  apply (orderTerms_text _ _ _ Plain) in Hterms as ->; [|done..].
  split; [|done]. intros limit offset.
  rewrite <- !map_app, outputs_fst, outputs_snd.
  rewrite (order_of_form req vis).
  rewrite (tieBreak_text _ _ Plain) by done. rewrite order_text_of.
  rewrite aggregateRawStatements_text, <- map_app, group_text_of, length_map.
  cbn [statement_text fm_groupBy fm_columns form_of]. unfold items_text. text_eq.
Qed.
End Aggregate.

(** ** The whole statement *)

Lemma datastoreColumns_plan src req vis columns :
  datastoreColumns src req = Ok columns -> columns = plan_columns src (form_of req vis).
Proof.
  unfold datastoreColumns. intros (_ & _ & Hc)%rbind_Ok. by apply rbind_Ok in Hc as (_ & _ & [= <-]).
Qed.

Section Statement.
Context `{UnicodeCase} `{GoParsers}.

Lemma build_text src req vis now sql args :
  request_ok req -> src_Columns src <> [] ->
  buildDatastoreQuery src req vis now = Ok (sql, args) ->
  sql = statement_text (plan src (form_of req vis)).
Proof.
  intros Hreq Hcols. unfold buildDatastoreQuery. intros Hbuild.
  assert (yields (build_statement src req vis now) []
            (fun sql _ => sql = statement_text (plan src (form_of req vis)))) as Hy; [|by eapply Hy].
  unfold build_statement. apply yields_bbind, yields_lift. intros _ _.
  apply yields_bbind, yields_lift. intros columns ->%(datastoreColumns_plan _ _ vis).
  apply yields_bbind. eapply yields_mono; [apply serverConditions_text|].
  intros [inner w] q1. unfold plan. destruct (server_atoms src _) as [[atoms n] start].
  cbn [fst snd]. intros (-> & <- & _ & Hstart).
  apply yields_bbind. eapply yields_mono; [by apply filterConditions_text, Hreq|].
  intros txts q2. cbn [fm_filters form_of]. destruct (filter_atoms src _ _) as [filters n2].
  intros [-> <-]. apply yields_bbind, yields_lift. intros from ->%scopedFrom_text.
  rewrite where_clause_text. apply yields_bbind. unfold shapeStatement.
  cbn [fm_shape form_of].
  assert (forall m q P, (forall sql, m = Ok sql -> P (sql ++ limit_text (S (length q)) (S (S (length q))))) ->
    yields (lift m) q (fun sql q => yields (bbind (bind (PInt64 (PageSize req + 1))) (fun limit =>
      bbind (bind (PInt64 ((Page req - 1) * PageSize req))) (fun offset =>
        ret (sql ++ " LIMIT " ++ limit ++ " OFFSET " ++ offset)))) q (fun sql _ => P sql))) as Hlimit.
  { intros m q P HP. apply yields_lift. intros txt Htxt. repeat yield_step. rewrite length_snoc.
    exact (HP txt Htxt). }
  destruct (String.eqb (Shape req) datastoreShapeLatest);
    [|destruct (String.eqb (Shape req) datastoreShapeAggregate)].
  - apply (Hlimit _ _ (fun sql => sql = _)). intros txt Htxt.
    rewrite (latestStatement_text src req vis (ok_directions _ Hreq) _ _ _ _ _ _ Htxt). done.
  - eapply yields_mono; [apply (aggregateStatement_text src req vis (ok_directions _ Hreq)), Hstart|].
    intros txt q3 [Htxt Hlen]. repeat yield_step. rewrite length_snoc.
    etransitivity; [apply Htxt|]. rewrite Hlen. done.
  - apply (Hlimit _ _ (fun sql => sql = _)). intros txt Htxt.
    rewrite (rowsStatement_text src req vis (ok_directions _ Hreq) Hcols _ _ _ _ _ _ Htxt). done.
Qed.

(** The text is a function of the form of the request alone. *)
Lemma text_of_form src req req' vis vis' now now' sql sql' args args' :
  request_ok req -> request_ok req' -> src_Columns src <> [] ->
  form_of req vis = form_of req' vis' ->
  buildDatastoreQuery src req vis now = Ok (sql, args) ->
  buildDatastoreQuery src req' vis' now' = Ok (sql', args') ->
  sql = sql'.
Proof.
  intros Hr Hr' Hcols Hform Hb Hb'. apply build_text in Hb as ->; [|done..].
  apply build_text in Hb' as ->; [|done..]. by rewrite Hform.
Qed.
End Statement.
