(* ===== verification/DatastoreVisible.v ===== *)
(** * Which rows a datastore statement reads

    [row_visible] says which rows of a source a caller may read, from the
    doc comments of datastore_catalog.go rather than from the SQL: rows of the
    connections the caller can read and has not excluded, by whichever route
    the source's scope prescribes, of live connections, within the window.
    The statement the builder writes, evaluated on any database that meets the
    collector's schema, reads exactly those rows. *)
From Stdlib Require Import Ascii ZArith.
From stdpp Require Import base list strings.
From S2P Require Import Prelude GoStrings AuditText GoText Redaction DatastoreCatalog DatastoreRequest DatastoreQuery SqlMeaning DatastorePlan DatastoreText.

Local Open Scope string_scope.

(** ** The specification *)

Section Spec.
Context (db : database) (src : datastoreSource) (req : datastoreRequest) (vis : visibleSet).

Definition unrestricted : bool := All vis && empty (ConnectionIDs req).

(** A connection the caller can read and, if it named connections, named. *)
Definition allowed (id : Z) : bool :=
  (All vis || mem_Z id (IDs vis)) && (empty (ConnectionIDs req) || mem_Z id (ConnectionIDs req)).

Definition sees (d : option datum) : bool :=
  match d with Some (DInt id) => allowed id | _ => unrestricted end.

Definition equal (a b : option datum) : bool := holds (same a b).

Definition live_connection (d : option datum) : bool :=
  existsb (fun c => equal (c "id") d && negb (has (c "deleted_at"))) (db "connections").

Definition cluster_seen (d : option datum) : bool :=
  unrestricted ||
  existsb (fun c => equal (c "cluster_id") d && sees (c "id")) (db "connections").

Definition group_seen (d : option datum) : bool :=
  unrestricted ||
  existsb (fun c =>
             existsb (fun cl => equal (cl "id") (c "cluster_id") && equal (cl "group_id") d)
               (db "clusters") && sees (c "id")) (db "connections").

(** A connection alert by its connection; a system alert, which has none, when
    the caller may see them and named no connections. *)
Definition alert_seen (alert : row) : bool :=
  match alert "connection_id" with
  | Some d => sees (Some d)
  | None => SystemAlerts vis && empty (ConnectionIDs req)
  end.

(** By the most specific reference the row carries. *)
Definition hierarchy_seen (r : row) : bool :=
  match r "connection_id", r "cluster_id", r "group_id" with
  | Some d, _, _ => sees (Some d)
  | None, Some d, _ => cluster_seen (Some d)
  | None, None, Some d => group_seen (Some d)
  | None, None, None =>
      unrestricted ||
      match r "scope" with Some (DText s) => member s ["estate"; "global"] | _ => false end
  end.

Definition in_scope (r : row) : bool :=
  match src_Scope src with
  | scopeConnection => sees (r (src_ConnectionColumn src))
  | scopeAlert => alert_seen r
  | scopeViaAlert => existsb (fun a => equal (a "id") (r "alert_id") && alert_seen a) (db "alerts")
  | scopeHierarchy => hierarchy_seen r
  | scopeCluster => cluster_seen (r "id")
  | scopeGroup => group_seen (r "id")
  | scopeGlobal => true
  | scopeUnknown => false
  end.

Definition is_live (r : row) : bool :=
  if negb (is_empty (src_LiveColumn src)) then negb (has (r (src_LiveColumn src)))
  else match src_Scope src with
       | scopeConnection => live_connection (r (src_ConnectionColumn src))
       | _ => true
       end.

Definition at_time (r : row) (p : Z -> bool) : bool :=
  match r (src_TimeColumn src) with Some (DTime t) => p t | _ => false end.

Definition in_window (w : datastoreWindow) (r : row) : bool :=
  match win_start w with Some s => at_time r (fun t => s <=? t)%Z | None => true end &&
  match win_end w with Some e => at_time r (fun t => t <=? e)%Z | None => true end.

Definition row_visible (w : datastoreWindow) (r : row) : bool :=
  in_scope r && is_live r && in_window w r.
End Spec.

(** What the collector's schema guarantees (collector/src/database/schema.go):
    an alert has no connection exactly when its type is [system], an
    acknowledgement refers to an alert, and the columns read as times and as
    scopes have those types. *)
Record schema_ok (db : database) (src : datastoreSource) (table : list row) : Prop := {
  schema_alerts : forall a, In a (db "alerts") ->
    exists ty, a "alert_type" = Some (DText ty) /\
               (ty = AlertTypeSystem <-> a "connection_id" = None);
  schema_alert_table : src_Scope src = scopeAlert -> table = db "alerts";
  schema_acknowledged : src_Scope src = scopeViaAlert -> forall r, In r table ->
    exists a d, In a (db "alerts") /\ a "id" = Some d /\ r "alert_id" = Some d;
  schema_scope : forall r d, In r table -> r "scope" = Some d -> exists s, d = DText s;
  schema_time : forall r d, In r table -> r (src_TimeColumn src) = Some d -> exists t, d = DTime t;
}.

Definition table_of (db : database) (src : datastoreSource) : list row :=
  db ((if String.eqb (src_Kind src) datastoreKindMetric then "metrics." else "") ++ src_Table src).

(** The value a caller sees of a permitted column. *)
Definition shown `{Postgres} (c : datastoreColumn) (r : row) : option datum :=
  match mask_of c with Some m => pg_mask m (col_Name c) r | None => r (col_Name c) end.

Definition shown_row `{Postgres} (src : datastoreSource) (r out : row) : Prop :=
  forall name c, source_column src name = Some c -> out name = shown c r.

(** ** Three-valued logic *)

Lemma holds_all3 l : holds (all3 l) = forallb holds l.
Proof. induction l as [|[[]|] l IH]; simpl; [done|..]; rewrite <- ?IH; by destruct (all3 l) as [[]|]. Qed.

Lemma holds_any3 l : holds (any3 l) = existsb holds l.
Proof. induction l as [|[[]|] l IH]; simpl; [done|..]; rewrite <- ?IH; by destruct (any3 l) as [[]|]. Qed.

Lemma forallb_map {A B} (f : A -> B) p l : forallb p (map f l) = forallb (fun a => p (f a)) l.
Proof. induction l as [|a l IH]; simpl; [done|]. by rewrite IH. Qed.
Lemma existsb_map {A B} (f : A -> B) p l : existsb p (map f l) = existsb (fun a => p (f a)) l.
Proof. induction l as [|a l IH]; simpl; [done|]. by rewrite IH. Qed.
Lemma existsb_ext_in {A} (p p' : A -> bool) l :
  (forall a, In a l -> p a = p' a) -> existsb p l = existsb p' l.
Proof. induction l as [|a l IH]; simpl; intros Hp; [done|]. rewrite Hp, IH; auto. Qed.
Lemma filter_ext_In {A} (p p' : A -> bool) l :
  (forall a, In a l -> p a = p' a) -> List.filter p l = List.filter p' l.
Proof. apply List.filter_ext_in. Qed.

Lemma filter_always {A} (p : A -> bool) l : (forall a, p a = true) -> List.filter p l = l.
Proof. intros Hp. induction l as [|a l IH]; simpl; [done|]. by rewrite Hp, IH. Qed.

Lemma Forall2_diag {A} (P : A -> A -> Prop) l : (forall a, P a a) -> Forall2 P l l.
Proof. intros HP. induction l; constructor; auto. Qed.

(** ** Integer lists, read back from their text *)

Lemma split_commas_app s rest :
  forallb (fun c => negb (Ascii.eqb c ",")) (lit s) = true ->
  split_commas (s ++ String "," rest) =
    (s, let '(first, l) := split_commas rest in first :: l).
Proof.
  induction s as [|c s IH]; simpl.
  - intros _. by destruct (split_commas rest).
  - intros [Hc Hs]%andb_true_iff. rewrite (IH Hs). apply negb_true_iff in Hc. by rewrite Hc.
Qed.

Lemma split_commas_plain s :
  forallb (fun c => negb (Ascii.eqb c ",")) (lit s) = true -> split_commas s = (s, []).
Proof.
  induction s as [|c s IH]; simpl; [done|]. intros [Hc Hs]%andb_true_iff. rewrite (IH Hs).
  apply negb_true_iff in Hc. by rewrite Hc.
Qed.

Lemma digits_no_comma s :
  digits_only s = true -> forallb (fun c => negb (Ascii.eqb c ",")) (lit s) = true.
Proof.
  induction s as [|c s IH]; simpl; [done|]. intros [Hc Hs]%andb_true_iff. rewrite (IH Hs).
  by destruct c as [[] [] [] [] [] [] [] []].
Qed.

Lemma FormatInt_no_comma z : forallb (fun c => negb (Ascii.eqb c ",")) (lit (FormatInt z)) = true.
Proof.
  unfold FormatInt. destruct (z <? 0)%Z; simpl; apply digits_no_comma, decimal_digits.
Qed.

Definition int4_range (z : Z) : Prop := (- 2 ^ 31 <= z <= 2 ^ 31 - 1)%Z.

#[export] Instance int4_range_dec z : Decision (int4_range z).
Proof. unfold int4_range. apply _. Defined.

Lemma int4_FormatInt z : int4_range z -> int4 (FormatInt z) = Some z.
Proof.
  intros Hz. unfold int4, parse_int64. rewrite signed_FormatInt. simpl.
  unfold in_int64, minInt64, int4_range in *.
  rewrite (proj2 (andb_true_iff _ _)) by lia. simpl.
  by rewrite (proj2 (andb_true_iff _ _)) by lia.
Qed.

Lemma split_commas_IntListArg z ids :
  split_commas (IntListArg (z :: ids)) = (FormatInt z, map FormatInt ids).
Proof.
  revert z. induction ids as [|z' ids IH]; intros z.
  - apply split_commas_plain, FormatInt_no_comma.
  - change (IntListArg (z :: z' :: ids))
      with (FormatInt z ++ String "," (IntListArg (z' :: ids))).
    rewrite split_commas_app by apply FormatInt_no_comma. by rewrite IH.
Qed.

Lemma int_array_mapM ids : int_array (IntListArg ids) = mapM int4 (map FormatInt ids).
Proof.
  destruct ids as [|z ids]; [done|]. unfold int_array.
  assert (is_empty (IntListArg (z :: ids)) = false) as ->.
  { unfold IntListArg. assert (is_empty (FormatInt z) = false) as Hz.
    { pose proof (FormatInt_nonempty z). by destruct (FormatInt z). }
    destruct ids; simpl; by rewrite ?is_empty_app, Hz. }
  by rewrite split_commas_IntListArg.
Qed.

Lemma int_array_IntListArg ids : Forall int4_range ids -> int_array (IntListArg ids) = Some ids.
Proof.
  rewrite int_array_mapM. induction 1 as [|x l Hx _ IH]; [done|]. simpl.
  rewrite (int4_FormatInt x Hx). simpl. by rewrite IH.
Qed.

Lemma int4_other z : ~ int4_range z -> int4 (FormatInt z) = None.
Proof.
  intros Hz. unfold int4, parse_int64. rewrite signed_FormatInt. simpl.
  destruct (in_int64 z); simpl; [|done].
  destruct (_ && _) eqn:E; [|done]. exfalso. apply Hz. unfold int4_range. lia.
Qed.

Lemma int_array_other ids : ~ Forall int4_range ids -> int_array (IntListArg ids) = None.
Proof.
  rewrite int_array_mapM. induction ids as [|x l IH]; intros Hno; [by destruct Hno|]. simpl.
  destruct (decide (int4_range x)) as [Hx|Hx]; [|by rewrite int4_other].
  rewrite (int4_FormatInt x Hx). simpl. rewrite IH; [done|]. intros Hl. apply Hno. by constructor.
Qed.

(** ** The parameters of the scope condition *)

Section Scope.
Context (src : datastoreSource) (req : datastoreRequest) (vis : visibleSet).
Local Abbreviation fm := (form_of req vis).

Definition scope_ids : list Z := if empty (ConnectionIDs req) then IDs vis else ConnectionIDs req.

Definition scope_params : list param :=
  let visible := PText (IntListArg scope_ids) in
  if restricted fm then
    match src_Scope src with
    | scopeAlert | scopeViaAlert =>
        visible :: (if include_system fm then [PText AlertTypeSystem] else [])
    | scopeHierarchy => [visible; PText "estate"; PText "global"]
    | scopeConnection | scopeCluster | scopeGroup => [visible]
    | _ => []
    end
  else [].

(** What a scope condition that is built relies on: the rule is known, and
    every named connection is visible. *)
Definition scope_admitted : Prop :=
  src_Scope src <> scopeUnknown /\
  (restricted fm = true -> forall id, mem_Z id scope_ids = allowed req vis id).

Lemma scopeIDs_admitted ids r :
  scopeIDs req vis = Ok (ids, r) ->
  (r = true -> ids = scope_ids) /\
  (restricted fm = true -> forall id, mem_Z id scope_ids = allowed req vis id).
Proof.
  unfold scopeIDs, scope_ids, allowed, restricted. simpl.
  destruct (empty (ConnectionIDs req)) eqn:He; simpl.
  - destruct (All vis); intros [= <- <-]; split; try done. intros _ id.
    by rewrite andb_true_r.
  - destruct (forallb _ _) eqn:Hall; [|done]. intros [= <- <-]. split; [done|]. intros _ id.
    destruct (mem_Z id (ConnectionIDs req)) eqn:Hid; [|by rewrite andb_false_r].
    rewrite andb_true_r. unfold mem_Z in Hid. apply existsb_exists in Hid as (x & Hx & ->%Z.eqb_eq).
    rewrite forallb_forall in Hall. by rewrite (Hall x Hx).
Qed.

Lemma include_system_form : include_system fm = SystemAlerts vis && empty (ConnectionIDs req).
Proof. unfold include_system. simpl. by rewrite negb_involutive. Qed.

Lemma alertCondition_params alias ids q :
  (restricted fm = true -> ids = scope_ids) ->
  yields (alertCondition alias req vis (restricted fm) (visible_part ids)) q
    (fun _ q' => q' = (q ++ if restricted fm
                            then PText (IntListArg scope_ids) ::
                                 (if include_system fm then [PText AlertTypeSystem] else [])
                            else [])%list).
Proof.
  intros Hids. unfold alertCondition. rewrite include_system_form.
  destruct (restricted fm); cbn [negb].
  - rewrite (Hids eq_refl). apply yields_bbind, yields_visible. destruct (_ && _).
    + repeat yield_step. by rewrite <- (assoc_L (++)).
    + by yield_step.
  - destruct (_ && _); yield_step; by rewrite app_nil_r.
Qed.

Lemma scopeCondition_params :
  yields (scopeCondition src req vis) [] (fun _ q' => q' = scope_params /\ scope_admitted).
Proof.
  unfold scopeCondition. apply yields_bbind, yields_lift. intros [] Hrule.
  apply yields_bbind, yields_lift. intros [ids r] Hids.
  destruct (scopeIDs_admitted ids r Hids) as [Hsame Hadmit].
  apply scopeIDs_restricted in Hids as ->.
  change (bbind (bind (PText (IntListArg ids))) _) with (visible_part ids).
  assert (src_Scope src <> scopeUnknown) as Hknown.
  { intros Hs. unfold checkScopeRule in Hrule. by rewrite Hs in Hrule. }
  assert (forall P : Prop, P -> P /\ scope_admitted) as Hboth by done.
  unfold scope_params, restrictedScopeCondition.
  destruct (src_Scope src) eqn:Hs; [| | | | | | |done].
  2: { unfold viaAlertCondition. apply yields_bbind.
    eapply yields_mono; [by apply alertCondition_params|].
    intros txt q' ->. destruct (is_empty txt); by apply yields_ret, Hboth. }
  6: { eapply yields_mono; [by apply alertCondition_params|]. intros txt q' ->. by apply Hboth. }
  all: destruct (restricted fm); [rewrite ?(Hsame eq_refl)|by apply yields_ret, Hboth].
  2: { apply yields_bbind, yields_visible. unfold hierarchyCondition. repeat yield_step.
    by apply Hboth. }
  4: by apply yields_ret, Hboth.
  all: by apply yields_bbind, yields_visible, yields_ret, Hboth.
Qed.
End Scope.

(** To the datastore, the list of visible connections is that of [seen]. *)
Definition reads_list `{Postgres} (req : datastoreRequest) (vis seen : visibleSet) : Prop :=
  forall d, restricted (form_of req vis) = true ->
  holds (any_int d (Some (PText (IntListArg (scope_ids req vis))))) = sees req seen d.

(** The list of visible connections, passed as one text, is read back as the
    connections the caller sees when they all fit PostgreSQL's integer. *)
Lemma any_visible `{Postgres} src req vis :
  scope_admitted src req vis -> Forall int4_range (scope_ids req vis) -> reads_list req vis vis.
Proof.
  intros [_ Hmem] Hids d Hr. simpl. rewrite (int_array_IntListArg _ Hids). unfold sees.
  replace (unrestricted req vis) with false.
  2: { unfold restricted in Hr. unfold unrestricted. simpl in Hr. by destruct (All vis), (empty _). }
  destruct d as [[z|s|t|s]|]; simpl; try done.
  - rewrite <- (Hmem Hr). by destruct (mem_Z _ _).
  - by destruct (scope_ids req vis).
Qed.

(** A list that holds a larger number is no array: nothing is in it. *)
Definition no_ids (vis : visibleSet) : visibleSet :=
  {| All := All vis; IDs := []; SystemAlerts := SystemAlerts vis |}.

Lemma any_none `{Postgres} src req vis :
  request_ok req -> scope_admitted src req vis ->
  ~ Forall int4_range (scope_ids req vis) -> reads_list req vis (no_ids vis).
Proof.
  intros Hreq [_ Hmem] Hids d Hr. unfold any_int. rewrite int_array_other by done. unfold sees.
  assert (empty (ConnectionIDs req) = true) as He.
  { apply not_false_iff_true. intros He. apply Hids. unfold scope_ids. rewrite He.
    eapply Forall_impl; [apply (ok_ids _ Hreq)|]. intros id [Hlo Hhi]. unfold int4_range. lia. }
  unfold unrestricted, allowed, restricted in *. simpl in Hr |- *. rewrite He in *. simpl in Hr.
  destruct (All vis); [done|]. by destruct d as [[]|].
Qed.

(** ** The scope condition admits the rows in scope *)

Section Evaluate.
Context `{Postgres}.
Context (db : database) (src : datastoreSource) (req : datastoreRequest) (vis : visibleSet).
Context (args : list param) (table : list row).
Context (Hargs : scope_params src req vis `prefix_of` args).
Context (Hadmit : scope_admitted src req vis).
Context (Hschema : schema_ok db src table).
Local Abbreviation fm := (form_of req vis).

(** What the list of visible connections means to the datastore. *)
Context (seen : visibleSet) (Hform : form_of req seen = form_of req vis).
Context (Hseen : reads_list req vis seen).
Local Abbreviation true_at e := (fun a => holds (eval db args e a)).

Lemma unrestricted_form : unrestricted req seen = negb (restricted fm).
Proof. rewrite <- Hform. unfold unrestricted, restricted. simpl. by destruct (All seen), (empty _). Qed.

Lemma scope_arg n p : scope_params src req vis !! n = Some p -> arg args (S n) = Some p.
Proof. intros Hp. unfold arg. simpl. eapply prefix_lookup_Some; eauto. Qed.

Lemma any_seen d :
  restricted fm = true ->
  holds (any_int d (Some (PText (IntListArg (scope_ids req vis))))) = sees req seen d.
Proof. apply Hseen. Qed.

Lemma sees_unrestricted d : restricted fm = false -> sees req seen d = true.
Proof.
  intros Hr. unfold sees, allowed.
  assert (unrestricted req seen = true) as Hu by (by rewrite unrestricted_form, Hr).
  rewrite Hu. destruct d as [[]|]; try done. unfold unrestricted in Hu.
  apply andb_true_iff in Hu as [-> ->]. done.
Qed.

Lemma alert_eval alias e a :
  (src_Scope src = scopeAlert \/ src_Scope src = scopeViaAlert) ->
  assoc alias e = Some a -> In a (db "alerts") ->
  forallb (true_at e) (fst (alert_atom alias fm 0)) = alert_seen req seen a.
Proof.
  intros Hs He Ha. destruct (schema_alerts _ _ _ Hschema a Ha) as (ty & Hty & Hsys).
  unfold alert_atom, alert_seen. rewrite <- include_system_form, Hform.
  assert (forall c, value_of e (Quoted alias c) = a c) as Hval by (intros c; simpl; by rewrite He).
  assert (restricted fm = true -> arg args 1 = Some (PText (IntListArg (scope_ids req vis)))) as H1.
  { intros Hr. apply scope_arg. unfold scope_params. rewrite Hr. by destruct Hs as [-> | -> ]. }
  destruct (restricted fm) eqn:Hr.
  - pose proof (any_seen (a "connection_id") Hr) as Hany.
    destruct (include_system fm) eqn:Hsystem.
    + assert (arg args 2 = Some (PText AlertTypeSystem)) as H2.
      { apply scope_arg. unfold scope_params. rewrite Hr, Hsystem. by destruct Hs as [-> | -> ]. }
      cbn [fst forallb eval map]. rewrite holds_any3. cbn [existsb]. rewrite !holds_all3.
      cbn [forallb]. rewrite !Hval, H1, H2, Hany, Hty by done.
      rewrite !andb_true_r, orb_false_r. simpl.
      destruct (a "connection_id") as [d|] eqn:Hconn; simpl.
      * destruct (String.eqb_spec ty AlertTypeSystem) as [->|];
          [by destruct Hsys as [Hsys _]; specialize (Hsys eq_refl)|by rewrite orb_false_r].
      * rewrite (proj2 Hsys) by done. by rewrite orb_true_r.
    + cbn [fst forallb eval map]. rewrite Hval, H1, Hany, andb_true_r by done.
      destruct (a "connection_id"); [done|]. simpl. by rewrite unrestricted_form, Hr.
  - destruct (include_system fm); cbn [fst forallb eval map]; [|rewrite Hval];
      destruct (a "connection_id"); by rewrite ?sees_unrestricted.
Qed.

Lemma existsb_flat_map {A B} (f : A -> list B) p l :
  existsb p (flat_map f l) = existsb (fun a => existsb p (f a)) l.
Proof. induction l as [|a l IH]; simpl; [done|]. by rewrite existsb_app, IH. Qed.

Lemma existsb_filter {A} (q p : A -> bool) l :
  existsb p (List.filter q l) = existsb (fun a => q a && p a) l.
Proof. induction l as [|a l IH]; simpl; [done|]. destruct (q a); simpl; by rewrite IH. Qed.

Lemma existsb_andb_r {A} (p : A -> bool) b l :
  existsb (fun a => p a && b) l = existsb p l && b.
Proof. induction l as [|a l IH]; simpl; [done|]. rewrite IH. by destruct (p a), b, (existsb p l). Qed.

Lemma holds_Some b : holds (Some b) = b.
Proof. by destruct b. Qed.

Lemma holds_conj e c : holds (all3 (map (eval db args e) c)) = forallb (true_at e) c.
Proof. by rewrite holds_all3, forallb_map. Qed.

Lemma holds_Paren e d :
  holds (eval db args e (Paren d)) = existsb (forallb (true_at e)) d.
Proof.
  cbn [eval]. rewrite holds_any3, existsb_map. apply existsb_ext_in. intros c _. apply holds_conj.
Qed.

Lemma cluster_eval e ref n :
  restricted fm = true -> arg args n = Some (PText (IntListArg (scope_ids req vis))) ->
  (forall x, value_of (("c", x) :: e) ref = value_of e ref) ->
  holds (eval db args e (cluster_atom ref n)) = cluster_seen db req seen (value_of e ref).
Proof.
  intros Hr Hn Href. unfold cluster_atom, cluster_seen. rewrite unrestricted_form, Hr.
  cbn [eval tables_rows negb orb]. rewrite holds_Some, existsb_map.
  apply existsb_ext_in. intros x _. rewrite holds_all3. cbn [map forallb eval].
  by rewrite Hn, any_seen, Href, andb_true_r.
Qed.

Lemma group_eval e ref n :
  restricted fm = true -> arg args n = Some (PText (IntListArg (scope_ids req vis))) ->
  (forall x y, value_of (("c", x) :: ("cl", y) :: e) ref = value_of e ref) ->
  holds (eval db args e (group_atom ref n)) = group_seen db req seen (value_of e ref).
Proof.
  intros Hr Hn Href. unfold group_atom, group_seen. rewrite unrestricted_form, Hr.
  cbn [eval tables_rows negb orb]. rewrite holds_Some, existsb_filter, existsb_flat_map.
  apply existsb_ext_in. intros x _.
  rewrite existsb_map, <- existsb_andb_r. apply existsb_ext_in. intros y _.
  rewrite holds_all3. cbn [map forallb eval].
  by rewrite Hn, any_seen, Href, andb_true_r, andb_assoc.
Qed.

Lemma scope_name_eval r :
  src_Scope src = scopeHierarchy -> restricted fm = true -> In r table ->
  holds (eval db args [("t", r)] (InList (t_ref "scope") false false [2; 3])) =
  match r "scope" with Some (DText s) => member s ["estate"; "global"] | _ => false end.
Proof.
  intros Hs Hr Hin.
  assert (arg args 2 = Some (PText "estate")) as H2
    by (apply scope_arg; unfold scope_params; by rewrite Hr, Hs).
  assert (arg args 3 = Some (PText "global")) as H3
    by (apply scope_arg; unfold scope_params; by rewrite Hr, Hs).
  cbn [eval map]. rewrite H2, H3, holds_any3. cbn [value_of t_ref]. simpl.
  destruct (r "scope") as [d|] eqn:Hd; [|done].
  destruct (schema_scope _ _ _ Hschema r d Hin Hd) as [s ->]. simpl.
  by destruct (String.eqb s "estate"), (String.eqb s "global").
Qed.

Lemma hierarchy_eval r :
  src_Scope src = scopeHierarchy -> restricted fm = true -> In r table ->
  holds (eval db args [("t", r)] (hierarchy_atom 0)) = hierarchy_seen db req seen r.
Proof.
  intros Hs Hr Hin.
  assert (arg args 1 = Some (PText (IntListArg (scope_ids req vis)))) as H1
    by (apply scope_arg; unfold scope_params; by rewrite Hr, Hs).
  pose proof (scope_name_eval r Hs Hr Hin) as Hscope.
  pose proof (cluster_eval [("t", r)] (t_ref "cluster_id") 1 Hr H1 (fun _ => eq_refl)) as Hcluster.
  pose proof (group_eval [("t", r)] (t_ref "group_id") 1 Hr H1 (fun _ _ => eq_refl)) as Hgroup.
  assert (holds (eval db args [("t", r)] (AnyOf (t_ref "connection_id") 1)) =
          sees req seen (r "connection_id")) as Hconn
    by (cbn [eval]; rewrite H1; by apply any_seen).
  unfold hierarchy_atom. rewrite holds_Paren. cbn [existsb forallb]. rewrite !holds_Paren.
  cbn [existsb forallb]. rewrite Hscope, Hcluster, Hgroup, Hconn. cbn [eval value_of t_ref].
  rewrite !holds_Some. unfold hierarchy_seen. rewrite unrestricted_form, Hr. simpl.
  destruct (r "connection_id"), (r "cluster_id"), (r "group_id"); simpl;
    by rewrite ?andb_true_r, ?orb_false_r.
Qed.

Lemma via_alert_eval r :
  src_Scope src = scopeViaAlert -> In r table ->
  forallb (true_at [("t", r)]) (fst (via_alert_atom fm 0)) =
  existsb (fun a => equal (a "id") (r "alert_id") && alert_seen req seen a) (db "alerts").
Proof.
  intros Hs Hin.
  assert (forall a, In a (db "alerts") ->
          forallb (true_at [("a", a); ("t", r)]) (fst (alert_atom "a" fm 0)) = alert_seen req seen a)
    as Halert by (intros a Ha; apply alert_eval; auto).
  unfold via_alert_atom. destruct (alert_atom "a" fm 0) as [[|c0 c] n]; cbn [fst forallb] in *.
  - symmetry. apply existsb_exists.
    destruct (schema_acknowledged _ _ _ Hschema Hs r Hin) as (a & d & Ha & Hid & Hr).
    exists a. split; [done|]. rewrite <- (Halert a Ha), Hid, Hr. unfold equal. simpl.
    by rewrite bool_decide_true.
  - rewrite andb_true_r. cbn [eval tables_rows]. rewrite holds_Some, existsb_map.
    apply existsb_ext_in. intros a Ha. rewrite <- (Halert a Ha), holds_all3.
    cbn [map forallb]. by rewrite forallb_map.
Qed.

Lemma scope_eval r :
  In r table ->
  forallb (true_at [("t", r)]) (fst (scope_atom src fm 0)) = in_scope db src req seen r.
Proof.
  intros Hin. destruct Hadmit as [Hknown _]. unfold scope_atom, in_scope.
  assert (restricted fm = true -> src_Scope src <> scopeAlert -> src_Scope src <> scopeViaAlert ->
          src_Scope src <> scopeGlobal -> src_Scope src <> scopeUnknown ->
          arg args 1 = Some (PText (IntListArg (scope_ids req vis)))) as H1.
  { intros Hr ? ? ? ?. apply scope_arg. unfold scope_params. rewrite Hr. by destruct (src_Scope src). }
  destruct (src_Scope src) eqn:Hs; try done.
  - destruct (restricted fm) eqn:Hr; cbn [fst forallb]; [|by rewrite sees_unrestricted].
    cbn [eval]. rewrite H1, any_seen, andb_true_r by done. done.
  - by apply via_alert_eval.
  - destruct (restricted fm) eqn:Hr; cbn [fst forallb].
    + rewrite hierarchy_eval by done. apply andb_true_r.
    + unfold hierarchy_seen, cluster_seen, group_seen. rewrite unrestricted_form, Hr.
      repeat case_match; by rewrite ?sees_unrestricted.
  - destruct (restricted fm) eqn:Hr; cbn [fst forallb].
    + by rewrite cluster_eval, andb_true_r by auto.
    + unfold cluster_seen. by rewrite unrestricted_form, Hr.
  - destruct (restricted fm) eqn:Hr; cbn [fst forallb].
    + by rewrite group_eval, andb_true_r by auto.
    + unfold group_seen. by rewrite unrestricted_form, Hr.
  - by destruct (restricted fm).
  - apply alert_eval; auto. by rewrite <- (schema_alert_table _ _ _ Hschema).
Qed.
End Evaluate.

(** ** The server's conditions admit the visible rows *)

Definition bound_params (t : option Z) : list param :=
  match t with Some t => [PTime t] | None => [] end.

Lemma scope_params_length src req vis :
  snd (scope_atom src (form_of req vis) 0) = length (scope_params src req vis).
Proof.
  unfold scope_params, scope_atom, via_alert_atom, alert_atom.
  destruct (src_Scope src), (restricted _); try done; by destruct (include_system _).
Qed.

Section Server.
Context `{UnicodeCase} `{GoParsers}.
Context (src : datastoreSource) (req : datastoreRequest) (vis : visibleSet) (now : Z).

Lemma serverConditions_params :
  yields (serverConditions src req vis now) []
    (fun _ q' => exists w, resolveDatastoreWindow src req now = Ok w /\
       q' = (scope_params src req vis ++ bound_params (win_start w) ++
             bound_params (win_end w))%list /\ scope_admitted src req vis).
Proof.
  unfold serverConditions. apply yields_bbind. eapply yields_mono; [apply scopeCondition_params|].
  intros txt q1 [-> Hadmit]. apply yields_bbind, yields_lift. intros w Hw. apply yields_bbind.
  destruct (win_start w) as [s|] eqn:Hs; [apply yields_bbind, yields_bind|];
    apply yields_ret, yields_bbind; cbn [win_end];
    (destruct (win_end w) as [e|] eqn:He; [apply yields_bbind, yields_bind|]);
    apply yields_ret, yields_ret; exists w; rewrite Hs, He; cbn [bound_params app];
    by rewrite <- ?(assoc_L (++)), ?app_nil_r.
Qed.
End Server.

(** Every later step only adds parameters. *)
Definition appends {A} (m : build A) : Prop := forall q, yields m q (fun _ q' => q `prefix_of` q').

Lemma appends_ret {A} (a : A) : appends (ret a).
Proof. intros q. by apply yields_ret. Qed.
Lemma appends_fail {A} e : appends (@fail A e).
Proof. intros q. apply yields_fail. Qed.
Lemma appends_lift {A} (m : built A) : appends (lift m).
Proof. intros q. apply yields_lift. done. Qed.
Lemma appends_bind v : appends (bind v).
Proof. intros q. apply yields_bind. by apply prefix_app_r. Qed.
Lemma appends_bbind {A B} (m : build A) (k : A -> build B) :
  appends m -> (forall a, appends (k a)) -> appends (bbind m k).
Proof.
  intros Hm Hk q. apply yields_bbind. eapply yields_mono; [apply Hm|]. intros a q' Hq.
  eapply yields_mono; [apply Hk|]. intros b q'' Hq'. simpl in *.
  by transitivity q'.
Qed.
Lemma appends_each {A B} (f : nat -> A -> build B) i l :
  (forall i a, appends (f i a)) -> appends (each f i l).
Proof.
  intros Hf. revert i. induction l as [|a l IH]; intros i; [apply appends_ret|].
  cbn [each]. repeat (apply appends_bbind; [|intros]); auto using appends_ret.
Qed.

#[export] Hint Resolve appends_ret appends_fail appends_lift appends_bind appends_each : build.
#[export] Hint Extern 1 (appends (bbind _ _)) => apply appends_bbind; [|intros] : build.
#[export] Hint Extern 2 (appends (if ?b then _ else _)) => destruct b : build.
#[export] Hint Extern 2 (appends (let '(_, _) := ?p in _)) => destruct p : build.

Section Appends.
Context `{UnicodeCase} `{GoParsers}.

Lemma filter_appends src i f : appends (filterCondition src i f).
Proof.
  unfold filterCondition, listFilterCondition, textListCondition, integerListCondition,
    comparisonChain, scalarFilterCondition.
  destruct (f_Value f) as [[]|]; auto 15 with build.
Qed.

Lemma shape_appends src req columns w from filters :
  appends (shapeStatement src req columns w from filters).
Proof.
  unfold shapeStatement, aggregateStatement, bucket_column.
  destruct (win_start w), (win_end w); auto 15 with build.
Qed.

(** The parameters of a statement start with the server's. *)
Lemma build_params src req vis now sql args :
  buildDatastoreQuery src req vis now = Ok (sql, args) ->
  exists w, resolveDatastoreWindow src req now = Ok w /\ scope_admitted src req vis /\
    (scope_params src req vis ++ bound_params (win_start w) ++
     bound_params (win_end w))%list `prefix_of` args.
Proof.
  intros Hb.
  assert (yields (build_statement src req vis now) [] (fun _ q' =>
    exists w, resolveDatastoreWindow src req now = Ok w /\ scope_admitted src req vis /\
    (scope_params src req vis ++ bound_params (win_start w) ++
     bound_params (win_end w))%list `prefix_of` q')) as Hy; [|by eapply Hy].
  unfold build_statement. apply yields_bbind, yields_lift. intros _ _.
  apply yields_bbind, yields_lift. intros columns _. apply yields_bbind.
  eapply yields_mono; [apply serverConditions_params|].
  intros [inner w'] q (w & Hw & -> & Hadmit).
  match goal with |- yields ?m ?q _ => assert (appends m) as Happ end.
  { unfold filterConditions. apply appends_bbind;
      [apply appends_each, filter_appends|intros conditions].
    apply appends_bbind; [auto with build|intros from].
    apply appends_bbind; [apply shape_appends|intros txt]. auto with build. }
  eapply yields_mono; [apply Happ|]. eauto.
Qed.
End Appends.

Section Window.
Context `{Postgres}.
Context (db : database) (src : datastoreSource) (req : datastoreRequest) (vis : visibleSet).
Context (args : list param) (table : list row) (w : datastoreWindow).
Context (Hargs : (scope_params src req vis ++ bound_params (win_start w) ++
                  bound_params (win_end w))%list `prefix_of` args).
Context (Hschema : schema_ok db src table).
Local Abbreviation true_at e := (fun a => holds (eval db args e a)).

Lemma live_eval r :
  (src_Scope src = scopeConnection -> src_ConnectionColumn src <> "") ->
  forallb (true_at [("t", r)]) (live_atom src) = is_live db src r.
Proof.
  intros Hcol. unfold live_atom, is_live. destruct (is_empty (src_LiveColumn src)); cbn [negb].
  2: { cbn [forallb eval]. by rewrite andb_true_r, holds_Some. }
  destruct (src_Scope src); try done.
  destruct (is_empty (src_ConnectionColumn src)) eqn:He.
  { apply String.eqb_eq in He. by destruct (Hcol eq_refl). }
  cbn [forallb eval tables_rows]. rewrite holds_Some, existsb_map, andb_true_r.
  apply existsb_ext_in. intros c _. rewrite holds_all3. cbn [map forallb eval].
  by rewrite holds_Some, andb_true_r.
Qed.

Lemma bound_eval r op t n p :
  In r table -> arg args n = Some (PTime t) ->
  (forall x, compare_value op (DTime x) (PTime t) = p x) ->
  holds (eval db args [("t", r)] (Compare (t_ref (src_TimeColumn src)) op n)) = at_time src r p.
Proof.
  intros Hin Harg Hp. cbn [eval]. rewrite Harg. unfold at_time.
  change (value_of [("t", r)] _) with (r (src_TimeColumn src)).
  destruct (r (src_TimeColumn src)) as [d|] eqn:Hd; [|done].
  destruct (schema_time _ _ _ Hschema r d Hin Hd) as [x ->]. cbn [compare3]. rewrite Hp. apply holds_Some.
Qed.

Lemma window_eval r :
  has (win_start w) = bounded src (fm_start (form_of req vis)) ->
  has (win_end w) = bounded src (fm_end (form_of req vis)) ->
  In r table ->
  let n1 := length (scope_params src req vis) in
  let '(lo, n2) := bound_atom src GreaterEq (fm_start (form_of req vis)) n1 in
  let '(hi, _) := bound_atom src LessEq (fm_end (form_of req vis)) n2 in
  forallb (true_at [("t", r)]) (lo ++ hi)%list = in_window src w r.
Proof.
  intros Hs He Hin n1. unfold bound_atom. rewrite <- Hs, <- He. unfold in_window.
  assert (forall n p, (scope_params src req vis ++ bound_params (win_start w) ++
            bound_params (win_end w))%list !! n = Some p -> arg args (S n) = Some p) as Harg.
  { intros n p Hp. unfold arg. simpl. eapply prefix_lookup_Some; eauto. }
  assert (forall s, win_start w = Some s -> arg args (S n1) = Some (PTime s)) as Hlo.
  { intros s Hw. apply Harg. rewrite Hw, lookup_app_r by (unfold n1; lia). by rewrite Nat.sub_diag. }
  assert (forall e, win_end w = Some e ->
          arg args (S (n1 + length (bound_params (win_start w)))) = Some (PTime e)) as Hhi.
  { intros e Hw. apply Harg. rewrite Hw, !lookup_app_r by (unfold n1; lia).
    by replace (_ - _ - _) with 0 by (unfold n1; lia). }
  destruct (win_start w) as [s|], (win_end w) as [e|]; cbn [has app forallb]; try done;
    cbn [bound_params length] in Hhi; rewrite ?Nat.add_1_r, ?Nat.add_0_r in Hhi;
    repeat (erewrite bound_eval; [|done|eauto|intros x; reflexivity]);
    by rewrite ?andb_true_r.
Qed.
End Window.

(** ** Sources *)

(** What the builder relies on in a source; every source the lookup returns
    has it. *)
Record source_ok (src : datastoreSource) : Prop := {
  source_columns : src_Columns src <> [];
  source_connection : src_Scope src = scopeConnection -> src_ConnectionColumn src <> "";
}.

Lemma find_in {A} (p : A -> bool) (P : A -> Prop) l a :
  Forall P l -> List.find p l = Some a -> P a.
Proof. intros Hl [Ha _]%find_some. rewrite Forall_forall in Hl. apply Hl. by apply list_elem_of_In. Qed.

Lemma configuration_ok : Forall source_ok configurationSources.
Proof. repeat constructor; done. Qed.

Section Lookup.
Context `{UnicodeCase}.

(** A bookkeeping column that was seen is among the columns kept. *)
Lemma scan_columns_keeps rows columns hc ht out hc' ht' :
  scan_columns rows columns hc ht = Ok (out, hc', ht') ->
  (hc = true -> In metricConnectionColumn (map col_Name columns)) ->
  hc' = true -> In metricConnectionColumn (map col_Name out).
Proof.
  revert columns hc ht. induction rows as [|[[name ty]|] rows IH]; intros columns hc ht; simpl.
  - by intros [= -> -> ->].
  - destruct (_ || _); [apply IH|]. intros Hscan Hc. eapply IH; [exact Hscan|].
    intros [Hh|Hn]%orb_true_iff; rewrite map_app, in_app_iff; [left; auto|right].
    apply String.eqb_eq in Hn as ->. by left.
  - done.
Qed.

Lemma bookkeeping_shown name names : ProbeColumnMask name metricConnectionColumn names = MaskNone.
Proof.
  unfold ProbeColumnMask.
  assert (IsSecretColumnName metricConnectionColumn = false) as -> by (vm_compute; reflexivity).
  unfold ProbeRedactions. cbn [assoc].
  repeat match goal with
  | |- context [if String.eqb ?k name then _ else _] => destruct (String.eqb k name); [reflexivity|]
  end. reflexivity.
Qed.

Lemma lookup_source_ok pool name src : lookupDatastoreSource pool name = Ok src -> source_ok src.
Proof.
  unfold lookupDatastoreSource. destruct (List.find _ configurationSources) as [s|] eqn:Hfind.
  { intros [= <-]. by eapply (find_in _ source_ok); [apply configuration_ok|]. }
  destruct (IsValidIdentifier name); [|done]. destruct pool as [answers|]; [|done]. simpl.
  intros (description & _ & Hcols)%rbind_Ok. apply rbind_Ok in Hcols as (columns & Hcols & [= <-]).
  constructor; [|done]. cbn [src_Columns]. unfold lookupMetricColumns in Hcols.
  destruct (probe_columns answers name) as [rows|]; [|done].
  apply rbind_Ok in Hcols as ([[out hc] ht] & Hscan & Hcols).
  destruct (iteration_failed rows); [done|]. destruct hc; [|done]. destruct ht; [|done].
  simpl in Hcols. injection Hcols as ->.
  apply scan_columns_keeps in Hscan; [|done..].
  apply in_map_iff in Hscan as (c & Hc & Hin%list_elem_of_In). unfold redactMetricColumns.
  intros Hnil. set (names := map col_Name columns) in *.
  assert (exists c', redact_column name names (RawStatementColumns name names) c = Some c')
    as [c' Hkept].
  { unfold redact_column. cbn [col_Name]. rewrite Hc, bookkeeping_shown. eauto. }
  apply (not_elem_of_nil c'). rewrite <- Hnil. apply list_elem_of_omap. eauto.
Qed.
End Lookup.

(** ** The rows of the statement *)

Lemma plan_scan_of src fm :
  statement_scan (plan src fm) = plan_scan src (fst (fst (server_atoms src fm))).
Proof.
  unfold plan. destruct (server_atoms src fm) as [[inner n] start].
  destruct (filter_atoms _ _ _). repeat case_match; done.
Qed.

Section Project.
Context `{Postgres} (src : datastoreSource).

Lemma project_inner r : shown_row src r (project (inner_items src) r).
Proof.
  intros name c. unfold source_column, inner_items.
  generalize (map stored_item (List.filter col_RedactStatement (src_Columns src))) as rest.
  intros rest. induction (src_Columns src) as [|c' l IH]; simpl; [done|].
  destruct (String.eqb_spec (col_Name c') name) as [<-|Hne].
  - intros [= ->]. unfold shown, inner_item.
    destruct (mask_of c); simpl; by rewrite String.eqb_refl.
  - intros Hfind. rewrite <- (IH Hfind). unfold inner_item.
    destruct (mask_of c'); simpl; by rewrite (proj2 (String.eqb_neq _ _) Hne).
Qed.

Lemma plain_row r : existsb redacts (src_Columns src) = false -> shown_row src r r.
Proof.
  intros Hplain name c Hc. apply find_some in Hc as [Hin <-%String.eqb_eq].
  unfold shown. assert (redacts c = false) as Hr.
  { apply not_true_iff_false. intros Hr. apply not_true_iff_false in Hplain. apply Hplain.
    apply existsb_exists. eauto. }
  unfold redacts in Hr. apply orb_false_iff in Hr as [Hr Ht].
  apply orb_false_iff in Hr as [Hr Hw]. apply orb_false_iff in Hr as [Hby Ho].
  unfold mask_of. apply negb_false_iff in Hby. by rewrite Ho, Hw, Ht, Hby.
Qed.
End Project.

Section Reads.
Context `{UnicodeCase} `{GoParsers} `{Postgres}.

Lemma server_meets db src req vis seen now w args r :
  source_ok src ->
  resolveDatastoreWindow src req now = Ok w -> scope_admitted src req vis ->
  form_of req seen = form_of req vis -> reads_list req vis seen ->
  schema_ok db src (table_of db src) ->
  (scope_params src req vis ++ bound_params (win_start w) ++ bound_params (win_end w))%list
    `prefix_of` args ->
  In r (table_of db src) ->
  meets db args (fst (fst (server_atoms src (form_of req vis)))) r =
  row_visible db src req seen w r.
Proof.
  intros Hsrc Hw Hadmit Hform Hseen Hschema Hargs Hin.
  apply (window_bounded src req vis) in Hw as [Hs He].
  pose proof (window_eval db src req vis args _ w Hargs Hschema r Hs He Hin) as Hwindow.
  assert (scope_params src req vis `prefix_of` args) as Hscope.
  { transitivity (scope_params src req vis ++ bound_params (win_start w) ++
                  bound_params (win_end w))%list; [by apply prefix_app_r|done]. }
  pose proof (scope_eval db src req vis args _ Hscope Hadmit Hschema seen Hform Hseen r Hin) as Hseval.
  pose proof (live_eval db src args r (source_connection _ Hsrc)) as Hlive.
  unfold meets, server_atoms. pose proof (scope_params_length src req vis) as Hlen.
  destruct (scope_atom src (form_of req vis) 0) as [scope n1]. simpl in Hlen, Hseval. subst n1.
  cbv zeta in Hwindow. destruct (bound_atom src GreaterEq _ _) as [lo n2].
  destruct (bound_atom src LessEq _ _) as [hi n3]. cbn [fst].
  rewrite holds_all3, forallb_map, !forallb_app. rewrite forallb_app in Hwindow.
  unfold row_visible. by rewrite Hseval, Hlive, Hwindow, andb_assoc.
Qed.

Lemma reads_seen db src req vis seen now sql args w :
  source_ok src -> schema_ok db src (table_of db src) ->
  form_of req seen = form_of req vis -> reads_list req vis seen ->
  resolveDatastoreWindow src req now = Ok w -> scope_admitted src req vis ->
  (scope_params src req vis ++ bound_params (win_start w) ++ bound_params (win_end w))%list
    `prefix_of` args ->
  buildDatastoreQuery src req vis now = Ok (sql, args) ->
  Forall2 (shown_row src) (List.filter (row_visible db src req seen w) (table_of db src))
    (scan_rows db args (statement_scan (plan src (form_of req vis)))).
Proof.
  intros Hsrc Hschema Hform Hseen Hw Hadmit Hargs Hb.
  rewrite plan_scan_of.
  assert (List.filter (row_visible db src req seen w) (table_of db src) =
          List.filter (meets db args (fst (fst (server_atoms src (form_of req vis)))))
            (table_of db src)) as ->.
  { apply filter_ext_In. intros r Hin. symmetry. by eapply server_meets. }
  unfold scan_rows, plan_scan. cbn [scan_items scan_where].
  change (scan_key _) with ((if String.eqb (src_Kind src) datastoreKindMetric then "metrics." else "") ++ src_Table src).
  fold (table_of db src).
  destruct (empty _ && _) eqn:Hplain.
  - apply andb_true_iff in Hplain as [Hempty Hplain%negb_true_iff].
    destruct (fst (fst _)); [|done].
    rewrite filter_always by done. apply Forall2_diag. auto using plain_row.
  - induction (List.filter _ _) as [|r l IH]; simpl; constructor; auto using project_inner.
Qed.
End Reads.

(** ** A caller who sees less sees fewer rows *)

Section Fewer.
Context (db : database) (src : datastoreSource) (req : datastoreRequest) (vis : visibleSet).

Lemma sees_fewer d : sees req (no_ids vis) d = true -> sees req vis d = true.
Proof.
  unfold sees, unrestricted, allowed. simpl. destruct d as [[]|]; try done.
  destruct (All vis); simpl; [done|]. done.
Qed.

Lemma existsb_fewer {A} (p q : A -> bool) l :
  (forall a, p a = true -> q a = true) -> existsb p l = true -> existsb q l = true.
Proof. intros Hpq (a & Hin & Ha)%existsb_exists. apply existsb_exists. eauto. Qed.

Lemma cluster_fewer d : cluster_seen db req (no_ids vis) d = true -> cluster_seen db req vis d = true.
Proof.
  unfold cluster_seen. change (unrestricted req (no_ids vis)) with (unrestricted req vis).
  rewrite !orb_true_iff. intros [?|Hex]; [by left|right]. eapply existsb_fewer; [|exact Hex].
  intros c. cbn beta. rewrite !andb_true_iff. intros [? ?]. auto using sees_fewer.
Qed.

Lemma group_fewer d : group_seen db req (no_ids vis) d = true -> group_seen db req vis d = true.
Proof.
  unfold group_seen. change (unrestricted req (no_ids vis)) with (unrestricted req vis).
  rewrite !orb_true_iff. intros [?|Hex]; [by left|right]. eapply existsb_fewer; [|exact Hex].
  intros c. cbn beta. rewrite !andb_true_iff. intros [? ?]. auto using sees_fewer.
Qed.

Lemma alert_fewer a : alert_seen req (no_ids vis) a = true -> alert_seen req vis a = true.
Proof. unfold alert_seen. destruct (a "connection_id"); [apply sees_fewer|done]. Qed.

Lemma row_fewer w r :
  row_visible db src req (no_ids vis) w r = true -> row_visible db src req vis w r = true.
Proof.
  unfold row_visible. rewrite !andb_true_iff. intros [[Hs ?] ?]. split_and!; try done.
  revert Hs. unfold in_scope. destruct (src_Scope src); try done.
  - apply sees_fewer.
  - apply existsb_fewer. intros a. cbn beta. rewrite !andb_true_iff. intros [? ?].
    auto using alert_fewer.
  - unfold hierarchy_seen. change (unrestricted req (no_ids vis)) with (unrestricted req vis).
    destruct (r "connection_id"); [apply sees_fewer|]. destruct (r "cluster_id"); [apply cluster_fewer|].
    destruct (r "group_id"); [apply group_fewer|done].
  - apply cluster_fewer.
  - apply group_fewer.
  - apply alert_fewer.
Qed.

Lemma filter_sublist {A} (p q : A -> bool) l :
  (forall a, p a = true -> q a = true) -> List.filter p l `sublist_of` List.filter q l.
Proof.
  intros Hpq. induction l as [|a l IH]; simpl; [constructor|].
  destruct (p a) eqn:Hp; [rewrite (Hpq _ Hp); by constructor|].
  destruct (q a); [by constructor|done].
Qed.
End Fewer.

(** The statement reads only rows the caller may see, and all of them when the
    connections it may see fit PostgreSQL's integer. *)
Lemma reads_visible `{UnicodeCase} `{GoParsers} `{Postgres} db src req vis now sql args :
  request_ok req -> source_ok src -> schema_ok db src (table_of db src) ->
  buildDatastoreQuery src req vis now = Ok (sql, args) ->
  exists w rows, resolveDatastoreWindow src req now = Ok w /\
    Forall2 (shown_row src) rows (scan_rows db args (statement_scan (plan src (form_of req vis)))) /\
    rows `sublist_of` List.filter (row_visible db src req vis w) (table_of db src) /\
    (Forall int4_range (scope_ids req vis) ->
     rows = List.filter (row_visible db src req vis w) (table_of db src)).
Proof.
  intros Hreq Hsrc Hschema Hb. destruct (build_params _ _ _ _ _ _ Hb) as (w & Hw & Hadmit & Hargs).
  destruct (decide (Forall int4_range (scope_ids req vis))) as [Hids|Hids].
  - eexists w, _. split_and!; [done| |reflexivity|done].
    eapply reads_seen; try done. by eapply any_visible.
  - exists w, (List.filter (row_visible db src req (no_ids vis) w) (table_of db src)).
    split_and!; [done| | |done].
    + eapply reads_seen; try done. by eapply any_none.
    + apply filter_sublist, row_fewer.
Qed.
