(* ===== verification/DatastoreFilters.v ===== *)
(** * What the caller's filters mean

    A list filter is written in one of three shapes, chosen by the column's
    type: an IN list of text parameters, [= ANY] of integers passed as one
    text, or a chain of comparisons.  All three mean [column IN (values)] or
    its negation in SQL's three-valued logic, NULL included; every other
    filter means the comparison it names. *)
From Stdlib Require Import Ascii ZArith.
From stdpp Require Import base list strings.
From S2P Require Import Prelude GoStrings AuditText GoText Redaction DatastoreCatalog DatastoreRequest DatastoreQuery SqlMeaning DatastorePlan DatastoreText DatastoreVisible.

Local Open Scope string_scope.

(** ** The specification *)

Section Spec.
Context `{GoParsers} `{Postgres}.

(** The values of a filter, as parameters of the column's type. *)
Definition raw_values (f : datastoreFilter) : list any :=
  match f_Values f with
  | Some (AList l) => l
  | _ => match f_Value f with Some v => [v] | None => [] end
  end.

Definition coerced (c : datastoreColumn) (v : any) : list param :=
  match coerceFilterValue c v 0 with Ok p => [p] | Err _ => [] end.

Definition filter_values (c : datastoreColumn) (f : datastoreFilter) : list param :=
  flat_map (coerced c) (raw_values f).

(** [d IN (vs)]. *)
Definition in_list (d : option datum) (vs : list param) : option bool :=
  any3 (map (fun v => compare3 Equal d (Some v)) vs).

Definition filter_means (c : datastoreColumn) (f : datastoreFilter) (d : option datum)
    : option bool :=
  if String.eqb (f_Op f) "is null" then Some (negb (has d))
  else if String.eqb (f_Op f) "is not null" then Some (has d)
  else if String.eqb (f_Op f) "in" then in_list d (filter_values c f)
  else if String.eqb (f_Op f) "not in" then not3 (in_list d (filter_values c f))
  else compare3 (op_of (f_Op f)) d (head (filter_values c f)).

(** A value of an integer column is an integer. *)
Definition integer_typed (c : datastoreColumn) (d : option datum) : Prop :=
  isIntegerType (col_DataType c) = true -> forall x, d = Some x -> exists z, x = DInt z.
End Spec.

(** ** Three-valued logic *)

Lemma any3_Some {A} (p : A -> bool) l : any3 (map (fun a => Some (p a)) l) = Some (existsb p l).
Proof. induction l as [|a l IH]; simpl; [done|]. rewrite IH. by destruct (p a), (existsb p l). Qed.

Lemma all3_Some {A} (p : A -> bool) l : all3 (map (fun a => Some (p a)) l) = Some (forallb p l).
Proof. induction l as [|a l IH]; simpl; [done|]. rewrite IH. by destruct (p a), (forallb p l). Qed.

Lemma any3_None {A} (l : list A) : any3 (map (fun _ => None) l) = if empty l then Some false else None.
Proof. induction l as [|a l IH]; simpl; [done|]. rewrite IH. by destruct l. Qed.

Lemma not3_any3 (l : list (option bool)) : not3 (any3 l) = all3 (map not3 l).
Proof.
  induction l as [|a l IH]; simpl; [done|]. rewrite <- IH.
  by destruct a as [[]|], (any3 l) as [[]|].
Qed.

Section Meaning.
Context `{GoParsers} `{Postgres}.

Lemma compare_negator d v : compare_value NotEqual d v = negb (compare_value Equal d v).
Proof. destruct d, v; simpl; try apply pg_negator; done. Qed.

Lemma compare3_negator d v :
  compare3 NotEqual d (Some v) = not3 (compare3 Equal d (Some v)).
Proof. destruct d as [d|]; simpl; [|done]. by rewrite compare_negator. Qed.

(** ** Values *)

Lemma coerce_index c v i p : coerceFilterValue c v i = Ok p -> coerceFilterValue c v 0 = Ok p.
Proof.
  unfold coerceFilterValue, coerceIntegerValue, coerceFloatValue, coerceBooleanValue.
  repeat case_match; done.
Qed.

Lemma map_res_coerced c i j l vs :
  map_res (fun _ item => coerceFilterValue c item i) j l = Ok vs -> flat_map (coerced c) l = vs.
Proof.
  revert j vs. induction l as [|v l IH]; intros j vs; simpl; [by intros [= <-]|].
  intros (p & Hp%coerce_index & Hvs)%rbind_Ok. apply rbind_Ok in Hvs as (ps & Hps & [= <-]).
  unfold coerced at 1. rewrite Hp. simpl. f_equal. eauto.
Qed.

Lemma list_values c f i vs :
  listFilterValues c f i = Ok vs -> filter_values c f = vs /\ vs <> [].
Proof.
  unfold listFilterValues, filter_values, raw_values. destruct (has (f_Value f)); [done|].
  destruct (f_Values f) as [[]|]; try done. destruct (empty l) eqn:He; [done|].
  destruct (longer_than l datastoreMaxInValues); [done|]. intros Hvs. split.
  - by eapply map_res_coerced.
  - apply map_res_length in Hvs. by destruct l, vs.
Qed.

(** Integers passed as one text are compared one by one. *)
Lemma integer_parts (c : datastoreColumn) i j vs parts :
  map_res (fun _ v => match int32_value v with
                      | Some n => Ok (FormatInt n)
                      | None => Err (OutOfRange i (col_Name c))
                      end) j vs = Ok parts ->
  exists zs, vs = map PInt64 zs /\ parts = map FormatInt zs /\ Forall int4_range zs.
Proof.
  revert j parts. induction vs as [|v vs IH]; intros j parts; simpl.
  { intros [= <-]. by exists []. }
  intros (part & Hpart & Hrest)%rbind_Ok. apply rbind_Ok in Hrest as (rest & Hrest & [= <-]).
  destruct (IH _ _ Hrest) as (zs & -> & -> & Hzs).
  destruct v as [n| | | |]; try done. simpl in Hpart.
  destruct (_ || _) eqn:Hn; [done|]. injection Hpart as <-. exists (n :: zs).
  split_and!; try done. constructor; [unfold int4_range; lia|done].
Qed.

Lemma any_int_in_list d zs :
  zs <> [] -> Forall int4_range zs -> (forall x, d = Some x -> exists z, x = DInt z) ->
  any_int d (Some (PText (IntListArg zs))) = in_list d (map PInt64 zs).
Proof.
  intros Hne Hzs Hty. simpl. rewrite (int_array_IntListArg _ Hzs). unfold in_list.
  rewrite map_map. destruct d as [x|].
  - destruct (Hty x eq_refl) as [z ->]. simpl. by rewrite any3_Some.
  - simpl. rewrite any3_None. done.
Qed.

(** ** Each filter *)

Lemma consecutive {B} (g : option param -> B) args q vs :
  (q ++ vs)%list `prefix_of` args ->
  map (fun n => g (arg args n)) (seq (S (length q)) (length vs)) = map (fun v => g (Some v)) vs.
Proof.
  revert q. induction vs as [|v vs IH]; intros q Hq; simpl; [done|]. f_equal.
  - f_equal. unfold arg. simpl. eapply prefix_lookup_Some; [|done].
    rewrite lookup_app_r by lia. by rewrite Nat.sub_diag.
  - rewrite <- (length_snoc q v). apply IH. by rewrite <- (assoc_L (++)).
Qed.

Context (db : database) (src : datastoreSource).

(** What a condition, built from parameters [q], means of a column's value. *)
Definition atom_means (a : atom) (q' : list param) (r : string) (m : option datum -> option bool)
    (typed : option datum -> Prop) : Prop :=
  forall args out, q' `prefix_of` args -> typed (out r) ->
    eval db args [("t", out)] a = m (out r).

Lemma list_means c f i q :
  member (f_Op f) ["in"; "not in"] = true ->
  yields (listFilterCondition c f (t_ (f_Column f)) i) q
    (fun _ q' =>
       atom_means (fst (list_atom c (t_ref (f_Column f)) (String.eqb (f_Op f) "not in")
                          (ff_count (filter_form_of f)) (length q)))
         q' (f_Column f)
         (fun d => let m := in_list d (filter_values c f) in
                   if String.eqb (f_Op f) "not in" then not3 m else m)
         (integer_typed c)).
Proof.
  intros Hop. unfold listFilterCondition, list_atom. apply yields_bbind, yields_lift.
  intros vs Hvs. destruct (list_values _ _ _ _ Hvs) as [-> Hne].
  apply listFilterValues_length in Hvs as <-. cbv zeta.
  destruct (member (col_DataType c) datastoreTextTypes) eqn:Htext.
  { unfold textListCondition. apply yields_bbind. eapply yields_mono; [apply each_bind|].
    intros txts q' [_ ->]. apply yields_ret. intros args out Hargs _. cbn [fst eval].
    cbn [value_of t_ref]. rewrite (consecutive (compare3 Equal _)) by done. done. }
  destruct (_ || _) eqn:Hint.
  - unfold integerListCondition. apply yields_bbind, yields_lift. intros parts Hparts.
    destruct (integer_parts _ _ _ _ _ Hparts) as (zs & -> & -> & Hzs).
    apply yields_bbind, yields_bind, yields_ret. intros args out Hargs Hty.
    assert (arg args (S (length q)) = Some (PText (IntListArg zs))) as Harg.
    { unfold arg. simpl. eapply prefix_lookup_Some; [|exact Hargs].
      rewrite lookup_app_r by lia. by rewrite Nat.sub_diag. }
    assert (eval db args [("t", out)] (AnyOf (t_ref (f_Column f)) (S (length q))) =
            in_list (out (f_Column f)) (map PInt64 zs)) as Heval.
    { cbn [eval]. rewrite Harg. apply any_int_in_list; [by destruct zs|done|].
      apply Hty. unfold isIntegerType. simpl. by rewrite orb_false_r. }
    destruct (String.eqb (f_Op f) "not in"); cbn [fst]; [|done].
    cbn [eval map]. change (not3 (any3 [all3 [eval db args [("t", out)]
      (AnyOf (t_ref (f_Column f)) (S (length q)))]]) = not3 (in_list (out (f_Column f)) (map PInt64 zs))).
    rewrite Heval. by destruct (in_list _ _) as [[]|].
  - unfold comparisonChain. apply yields_bbind. eapply yields_mono; [apply each_bind|].
    intros txts q' [_ ->]. apply yields_ret. intros args out Hargs _.
    destruct (String.eqb (f_Op f) "not in"); cbn [fst eval].
    + cbn [map]. rewrite map_map. cbn [eval value_of t_ref].
      rewrite (consecutive (compare3 NotEqual _)) by done. unfold in_list.
      rewrite not3_any3, map_map. simpl.
      rewrite (map_ext _ _ (compare3_negator _)). by destruct (all3 _) as [[]|].
    + rewrite map_map. cbn [map eval value_of t_ref]. unfold in_list.
      rewrite <- (consecutive (compare3 Equal _) args q vs) by done. f_equal.
      apply map_ext. intros n. simpl. by destruct (compare3 _ _ _) as [[]|].
Qed.

Lemma scalar_means c f lhs i q :
  yields (scalarFilterCondition c f lhs i) q
    (fun _ q' => forall op,
       atom_means (Compare (t_ref (f_Column f)) op (S (length q))) q' (f_Column f)
         (fun d => compare3 op d (head (filter_values c f))) (fun _ => True)).
Proof.
  unfold scalarFilterCondition. destruct (f_Values f) as [v|] eqn:Hvs; [apply yields_fail|].
  cbn [has]. destruct (f_Value f) as [v|] eqn:Hv; [|apply yields_fail].
  destruct v; try apply yields_fail;
    apply yields_bbind, yields_lift; intros _ _; apply yields_bbind, yields_lift;
    intros p Hp%coerce_index; apply yields_bbind, yields_bind, yields_ret;
    intros op args out Hargs _; cbn [eval value_of t_ref]; unfold filter_values, raw_values;
    rewrite Hvs, Hv; unfold coerced; cbn [flat_map app]; rewrite Hp; cbn [app head];
    (replace (arg args (S (length q))) with (Some p); [done|]; symmetry; unfold arg; simpl;
     eapply prefix_lookup_Some; [|exact Hargs]; rewrite lookup_app_r by lia;
     by rewrite Nat.sub_diag).
Qed.
End Meaning.

(** ** All the filters of a statement *)

Section Filters.
Context `{UnicodeCase} `{GoParsers} `{Postgres}.
Context (db : database) (src : datastoreSource).

Definition means (f : datastoreFilter) (out : row) : option bool :=
  match source_column src (f_Column f) with
  | Some c => filter_means c f (out (f_Column f))
  | None => None
  end.

Definition row_typed (out : row) : Prop :=
  forall name c, source_column src name = Some c -> integer_typed c (out name).

Lemma filter_eval i f q :
  operator_ok f ->
  yields (filterCondition src i f) q
    (fun _ q' => forall args out, q' `prefix_of` args -> row_typed out ->
       eval db args [("t", out)] (fst (filter_atom src (filter_form_of f) (length q))) = means f out).
Proof.
  intros Hop. unfold filterCondition, filter_atom. apply yields_bbind, yields_lift.
  intros c (Hc & -> & _)%checkColumn_found. unfold means, filter_means. cbn [filter_form_of ff_column ff_op].
  rewrite Hc. cbn [default].
  destruct (String.eqb (f_Op f) "is null") eqn:Hn; [|destruct (String.eqb (f_Op f) "is not null") eqn:Hnn];
    cbn [member existsb orb]; rewrite ?Hn, ?Hnn; cbn [orb].
  1,2: destruct (_ || _); [apply yields_fail|by apply yields_ret].
  change (String.eqb (f_Op f) "in" || (String.eqb (f_Op f) "not in" || false))
    with (member (f_Op f) ["in"; "not in"]).
  destruct (member (f_Op f) ["in"; "not in"]) eqn:Hin.
  - eapply yields_mono; [by apply (list_means db)|]. intros txt q' Hm args out Hargs Hty.
    etransitivity; [exact (Hm args out Hargs (Hty _ _ Hc))|]. simpl in Hin. cbv zeta.
    destruct (String.eqb_spec (f_Op f) "in") as [->|]; [done|].
    by destruct (String.eqb (f_Op f) "not in").
  - eapply yields_mono; [apply (scalar_means db)|]. intros txt q' Hm args out Hargs _.
    cbn [fst]. rewrite (Hm _ args out Hargs I). simpl in Hin.
    apply orb_false_iff in Hin as [-> Hin]. apply orb_false_iff in Hin as [-> _]. done.
Qed.

Lemma filters_eval i filters q :
  Forall operator_ok filters ->
  yields (each (filterCondition src) i filters) q
    (fun _ q' => forall args out, q' `prefix_of` args -> row_typed out ->
       map (eval db args [("t", out)]) (fst (filter_atoms src (map filter_form_of filters) (length q))) =
       map (fun f => means f out) filters).
Proof.
  intros Hops. revert i q. induction Hops as [|f filters Hop Hops IH]; intros i q; cbn [each map].
  { by apply yields_ret. }
  apply yields_bbind. intros txt q1 Hrun.
  pose proof (filter_eval i f q Hop txt q1 Hrun) as Hf.
  pose proof (filterCondition_text src i f q Hop txt q1 Hrun) as Htext.
  apply yields_bbind. intros txts q2 Hrest.
  pose proof (IH _ _ txts q2 Hrest) as Hfs.
  assert (q1 `prefix_of` q2) as Hpre by (eapply appends_each; [apply filter_appends|exact Hrest]).
  apply yields_ret. intros args out Hargs Hty. cbn [filter_atoms].
  specialize (Hf args out ltac:(by transitivity q2) Hty).
  destruct (filter_atom src (filter_form_of f) (length q)) as [a n1]. destruct Htext as [_ <-].
  specialize (Hfs args out Hargs Hty).
  destruct (filter_atoms src _ (length q1)) as [atoms n2]. cbn [fst map] in *. by rewrite Hf, Hfs.
Qed.

Lemma plan_filters fm :
  statement_filters (plan src fm) =
  fst (filter_atoms src (fm_filters fm) (snd (fst (server_atoms src fm)))).
Proof.
  unfold plan. destruct (server_atoms src fm) as [[inner n] start]. cbn [fst snd].
  destruct (filter_atoms _ _ _). repeat case_match; done.
Qed.

Lemma filters_mean req vis now sql args out :
  request_ok req -> buildDatastoreQuery src req vis now = Ok (sql, args) -> row_typed out ->
  map (eval db args [("t", out)]) (statement_filters (plan src (form_of req vis))) =
  map (fun f => means f out) (Filters req).
Proof.
  intros Hreq Hb Hty. unfold buildDatastoreQuery in Hb.
  assert (yields (build_statement src req vis now) [] (fun _ args =>
    map (eval db args [("t", out)]) (statement_filters (plan src (form_of req vis))) =
    map (fun f => means f out) (Filters req))) as Hy; [|by eapply Hy].
  clear Hb. rewrite plan_filters. unfold build_statement. apply yields_bbind, yields_lift. intros _ _.
  apply yields_bbind, yields_lift. intros columns _. apply yields_bbind.
  eapply yields_mono; [apply serverConditions_text|]. intros [inner w] q1.
  destruct (server_atoms src (form_of req vis)) as [[atoms n] start]. cbn [fst snd].
  intros (_ & <- & _). apply yields_bbind.
  eapply yields_mono; [apply filters_eval, Hreq|]. intros txts q2 Heval.
  match goal with |- yields ?m _ _ => assert (appends m) as Happ end.
  { apply appends_bbind; [auto with build|intros from].
    apply appends_bbind; [apply shape_appends|intros txt]. auto with build. }
  eapply yields_mono; [apply Happ|]. intros txt args' Hargs. by apply Heval.
Qed.
End Filters.
