(* ===== verification/DatastoreSound.v ===== *)
(** * The statement of a datastore request: theorems

    What [parseDatastoreRequest], [lookupDatastoreSource] and
    [buildDatastoreQuery] guarantee together. *)
From Stdlib Require Import Ascii ZArith.
From stdpp Require Import base list strings.
From S2P Require Import Prelude GoStrings AuditText GoText Redaction DatastoreCatalog DatastoreRequest DatastoreQuery SqlMeaning DatastorePlan DatastoreText DatastoreVisible DatastoreFilters.

Local Open Scope string_scope.

(** ** The parameters of a statement *)

Section Limits.
Context `{UnicodeCase} `{GoParsers}.

Lemma filter_params src i f q :
  operator_ok f ->
  yields (filterCondition src i f) q (fun _ q' => length q' <= length q + 1000).
Proof.
  intros _. unfold filterCondition. apply yields_bbind, yields_lift. intros c _.
  destruct (member (f_Op f) ["is null"; "is not null"]).
  { destruct (_ || _); [apply yields_fail|]. apply yields_ret. lia. }
  destruct (member (f_Op f) ["in"; "not in"]).
  - unfold listFilterCondition. apply yields_bbind, yields_lift. intros vs Hvs.
    assert (length vs <= 1000) as Hlen.
    { unfold listFilterValues in Hvs. destruct (has (f_Value f)); [done|].
      destruct (f_Values f) as [[]|]; try done. destruct (empty l); [done|].
      destruct (longer_than l _) eqn:Hl; [done|]. apply longer_than_false in Hl.
      apply map_res_length in Hvs. unfold datastoreMaxInValues in Hl. lia. }
    destruct (member (col_DataType c) datastoreTextTypes); [|destruct (_ || _)].
    + apply yields_bbind. eapply yields_mono; [apply each_bind|]. intros txts q' [_ ->].
      apply yields_ret. rewrite length_app. lia.
    + apply yields_bbind, yields_lift. intros parts _. apply yields_bbind, yields_bind, yields_ret.
      rewrite length_snoc. lia.
    + apply yields_bbind. eapply yields_mono; [apply each_bind|]. intros txts q' [_ ->].
      apply yields_ret. rewrite length_app. lia.
  - unfold scalarFilterCondition. destruct (has (f_Values f)); [apply yields_fail|].
    destruct (f_Value f) as [v|]; [|apply yields_fail]. destruct v; try apply yields_fail;
      apply yields_bbind, yields_lift; intros _ _; apply yields_bbind, yields_lift; intros p _;
      apply yields_bbind, yields_bind, yields_ret; rewrite length_snoc; lia.
Qed.

Lemma filters_params src i filters q :
  Forall operator_ok filters ->
  yields (each (filterCondition src) i filters) q
    (fun _ q' => length q' <= length q + 1000 * length filters).
Proof.
  intros Hops. revert i q. induction Hops as [|f filters Hop _ IH]; intros i q; cbn [each].
  { apply yields_ret. cbn [length]. lia. }
  apply yields_bbind. eapply yields_mono; [by apply filter_params|]. intros txt q1 Hq1.
  apply yields_bbind. eapply yields_mono; [apply IH|]. intros txts q2 Hq2. apply yields_ret.
  cbn beta in *. cbn [length]. lia.
Qed.

Lemma bucket_params src req w q :
  yields (bucket_column src req w) q (fun _ q' => length q' <= S (length q)).
Proof.
  unfold bucket_column. destruct (0 <? Buckets req)%Z; [|apply yields_ret; lia].
  destruct (win_start w), (win_end w); try apply yields_fail.
  apply yields_bbind, yields_bind, yields_ret. rewrite length_snoc. lia.
Qed.

Lemma shape_params src req columns w from filters q :
  yields (shapeStatement src req columns w from filters) q (fun _ q' => length q' <= S (length q)).
Proof.
  unfold shapeStatement.
  destruct (String.eqb (Shape req) datastoreShapeLatest);
    [apply yields_lift; intros; lia|].
  destruct (String.eqb (Shape req) datastoreShapeAggregate); [|apply yields_lift; intros; lia].
  unfold aggregateStatement. apply yields_bbind. eapply yields_mono; [apply bucket_params|].
  intros buckets q' Hq'. repeat (apply yields_bbind, yields_lift; intros ? _). by apply yields_ret.
Qed.

Lemma scope_params_short src req vis w :
  length (scope_params src req vis ++ bound_params (win_start w) ++ bound_params (win_end w)) <= 5.
Proof.
  rewrite !length_app. unfold scope_params, bound_params.
  destruct (restricted (form_of req vis)), (src_Scope src), (include_system (form_of req vis)),
    (win_start w), (win_end w); simpl; lia.
Qed.

Lemma build_limits src req vis now sql args :
  request_ok req -> buildDatastoreQuery src req vis now = Ok (sql, args) ->
  exists front, args = (front ++ [PInt64 (PageSize req + 1); PInt64 ((Page req - 1) * PageSize req)])%list
    /\ (Z.of_nat (length front) <= 20006)%Z.
Proof.
  intros Hreq Hb.
  assert (yields (build_statement src req vis now) [] (fun _ args => exists front,
    args = (front ++ [PInt64 (PageSize req + 1); PInt64 ((Page req - 1) * PageSize req)])%list /\
    (Z.of_nat (length front) <= 20006)%Z)) as Hy; [|by eapply Hy].
  unfold build_statement. apply yields_bbind, yields_lift. intros _ _.
  apply yields_bbind, yields_lift. intros columns _. apply yields_bbind.
  eapply yields_mono; [apply serverConditions_params|]. intros [inner w'] q1 (w & _ & Hq1 & _).
  pose proof (scope_params_short src req vis w) as Hshort. rewrite <- Hq1 in Hshort. clear Hq1.
  apply yields_bbind. eapply yields_mono; [apply filters_params, Hreq|]. intros txts q2 Hq2.
  apply yields_bbind, yields_lift. intros from _. apply yields_bbind.
  eapply yields_mono; [apply shape_params|]. intros txt q3 Hq3. repeat yield_step.
  exists q3. split; [by rewrite <- (assoc_L (++))|].
  pose proof (ok_filters _ Hreq) as Hf. unfold datastoreMaxListItems in Hf.
  cbn beta in *. lia.
Qed.
End Limits.

(** ** Masked columns *)

(** A column a probe's rule names is masked as the rule says. *)
Definition rule_masked (rule : ProbeRedaction) (c : datastoreColumn) : Prop :=
  (member (col_Name c) (OptionColumns rule) = true -> mask_of c = Some OptionsMask) /\
  (member (col_Name c) (TextColumns rule) = true -> mask_of c = Some TextMask) /\
  (member (col_Name c) (WholeColumns rule) = true -> mask_of c = Some WholeMask) /\
  (member (col_Name c) (Columns rule) = true -> mask_of c = Some (SettingMask (KeyColumn rule))).

Section Secrets.
Context `{UnicodeCase}.

Definition column_ok (c : datastoreColumn) : Prop :=
  IsSecretColumnName (col_Name c) = false /\ IsValidIdentifier (col_Name c) = true.

(** A column as the catalog lists it, with no mask yet. *)
Definition unmasked (c : datastoreColumn) : Prop :=
  exists name ty m, c = new_column name ty m false.

Lemma scan_columns_ok rows columns hc ht out hc' ht' :
  scan_columns rows columns hc ht = Ok (out, hc', ht') ->
  Forall (fun c => column_ok c /\ unmasked c) columns ->
  Forall (fun c => column_ok c /\ unmasked c) out.
Proof.
  revert columns hc ht. induction rows as [|[[name ty]|] rows IH]; intros columns hc ht; simpl.
  - by intros [= -> -> ->].
  - destruct (_ || _) eqn:Hskip; [apply IH|]. intros Hscan Hcols. eapply IH; [exact Hscan|].
    apply Forall_app. split; [done|]. apply orb_false_iff in Hskip as [Hsecret Hvalid].
    apply negb_false_iff in Hvalid. repeat constructor; try done. eexists _, _, _. done.
  - done.
Qed.

Lemma configuration_columns_ok :
  Forall (fun s => Forall column_ok (src_Columns s)) configurationSources.
Proof.
  assert (forallb (fun s => forallb (fun c => negb (IsSecretColumnName (col_Name c)) &&
            IsValidIdentifier (col_Name c)) (src_Columns s)) configurationSources = true) as Hall
    by (vm_compute; reflexivity).
  rewrite forallb_forall in Hall. apply Forall_forall. intros s Hs%list_elem_of_In.
  specialize (Hall s Hs). rewrite forallb_forall in Hall. apply Forall_forall.
  intros c Hc%list_elem_of_In. specialize (Hall c Hc). apply andb_true_iff in Hall as [Hn Hv].
  apply negb_true_iff in Hn. done.
Qed.

(** The masks of a probe's rule. *)
Lemma rule_masks name names rule n :
  assoc name ProbeRedactions = Some rule ->
  (member n (OptionColumns rule) = true -> ProbeColumnMask name n names = MaskOptions) /\
  (member n (TextColumns rule) = true -> ProbeColumnMask name n names = MaskText) /\
  (member n (WholeColumns rule) = true -> ProbeColumnMask name n names = MaskWhole) /\
  (member n (Columns rule) = true ->
     ProbeColumnMask name n names =
     if member (KeyColumn rule) names then MaskSetting else MaskOmit).
Proof.
  intros Hrule. unfold ProbeColumnMask. rewrite Hrule. revert Hrule.
  unfold ProbeRedactions. cbn [assoc].
  repeat match goal with
  | |- (if String.eqb ?k name then _ else _) = _ -> _ => destruct (String.eqb k name)
  end; intros [= <-]; simpl; split_and!; try done; unfold member; cbn [existsb orb];
    repeat match goal with
    | |- context [String.eqb n ?k] =>
        destruct (String.eqb_spec n k) as [->|]; [intros _; vm_compute; reflexivity|]
    end; done.
Qed.

Lemma redacted_ok name names statements c c' :
  column_ok c -> unmasked c -> redact_column name names statements c = Some c' ->
  column_ok c' /\ forall rule, assoc name ProbeRedactions = Some rule -> rule_masked rule c'.
Proof.
  intros Hok (n & ty & m & ->) Hc'.
  assert (col_Name c' = n) as Hname.
  { unfold redact_column in Hc'. cbn [col_Name new_column] in Hc'.
    destruct (ProbeColumnMask name n names); simplify_eq; done. }
  split; [by unfold column_ok; rewrite Hname|]. intros rule Hrule.
  destruct (rule_masks name names rule n Hrule) as (Hopt & Htext & Hwhole & Hset).
  unfold rule_masked. rewrite Hname. unfold redact_column in Hc'.
  cbn [col_Name new_column] in Hc'. rewrite Hrule in Hc'.
  split_and!; intros Hm; [rewrite (Hopt Hm) in Hc'|rewrite (Htext Hm) in Hc'|
    rewrite (Hwhole Hm) in Hc'|rewrite (Hset Hm) in Hc'].
  1-3: by injection Hc' as <-.
  destruct (member (KeyColumn rule) names); [|done]. injection Hc' as <-. unfold mask_of. simpl.
  destruct (is_empty (KeyColumn rule)) eqn:Hkey; [|done]. exfalso.
  revert Hrule Hm Hkey. unfold ProbeRedactions. cbn [assoc].
  repeat match goal with
  | |- (if String.eqb ?k name then _ else _) = _ -> _ => destruct (String.eqb k name)
  end; by intros [= <-].
Qed.

Lemma metric_columns_ok answers name columns :
  lookupMetricColumns answers name = Ok columns ->
  Forall (fun c => column_ok c /\ unmasked c) columns.
Proof.
  unfold lookupMetricColumns. destruct (probe_columns answers name) as [rows|]; [|done].
  intros ([[out hc] ht] & Hscan & Hcols)%rbind_Ok. destruct (iteration_failed rows); [done|].
  destruct (hc && ht); [|done]. injection Hcols as ->.
  by eapply scan_columns_ok in Hscan.
Qed.

Lemma configuration_kind : Forall (fun s => src_Kind s <> datastoreKindMetric) configurationSources.
Proof. repeat constructor; done. Qed.

(** C23: No source exposes a secret column.  Whatever the catalog lookup
    answers, every column of a source [lookupDatastoreSource] returns has a
    name that no secret-name fragment matches and that is a plain identifier;
    and a metric source is a known probe whose columns that a redaction rule
    names carry exactly the mask of that rule, so none of them can be read as
    stored. *)
Theorem sources_expose_no_secret pool name src :
  lookupDatastoreSource pool name = Ok src ->
  Forall column_ok (src_Columns src) /\
  (src_Kind src = datastoreKindMetric ->
   IsKnownProbe name = true /\
   forall rule, assoc name ProbeRedactions = Some rule -> Forall (rule_masked rule) (src_Columns src)).
Proof.
  unfold lookupDatastoreSource. destruct (List.find _ configurationSources) as [s|] eqn:Hfind.
  { intros [= <-]. split; [eapply (find_in _ _ _ _ configuration_columns_ok); exact Hfind|].
    intros Hk. by apply (find_in _ _ _ _ configuration_kind) in Hfind. }
  destruct (IsValidIdentifier name); [|done]. destruct pool as [answers|]; [|done]. cbn [negb].
  intros (description & Htable & Hcols)%rbind_Ok.
  apply rbind_Ok in Hcols as (columns & Hcols%metric_columns_ok & [= <-]).
  cbn [src_Columns src_Kind]. unfold redactMetricColumns. rewrite Forall_forall in Hcols.
  assert (forall c', c' ∈ omap (redact_column name (map col_Name columns)
            (RawStatementColumns name (map col_Name columns))) columns ->
          column_ok c' /\ forall rule, assoc name ProbeRedactions = Some rule -> rule_masked rule c')
    as Hmasked.
  { intros c' (c & Hin & Hc')%list_elem_of_omap. destruct (Hcols c Hin). by eapply redacted_ok. }
  split; [apply Forall_forall; intros c Hc; by apply Hmasked|]. intros _. split.
  - unfold lookupMetricTable, LookupProbeRelation in Htable. by destruct (IsKnownProbe name).
  - intros rule Hrule. apply Forall_forall. intros c Hc. by apply Hmasked.
Qed.
End Secrets.

(** ** The statement *)

Section Theorems.
Context `{UnicodeCase} `{GoParsers} `{Postgres}.

(** C8: A statement reads only the rows the caller may see.  For arguments
    that parse, a source the lookup returns and a request the builder accepts,
    the statement's text is that of the statement [plan] gives, and on every
    database that meets the schema the rows that statement's FROM item yields
    are, in the table's order, rows of the source that are in the caller's
    scope, belong to a live connection and fall in the window, each permitted
    column shown as its mask says; and all such rows when the ids of the
    connections the caller may read fit PostgreSQL's 32-bit integer.  The
    caller's filters, grouping and ordering see no other row. *)
Theorem query_reads_visible_rows pool args req src vis now sql params db :
  parseDatastoreRequest args = Ok req ->
  lookupDatastoreSource pool (Source req) = Ok src ->
  schema_ok db src (table_of db src) ->
  buildDatastoreQuery src req vis now = Ok (sql, params) ->
  let st := plan src (form_of req vis) in
  sql = statement_text st /\
  exists w rows, resolveDatastoreWindow src req now = Ok w /\
    Forall2 (shown_row src) rows (scan_rows db params (statement_scan st)) /\
    rows `sublist_of` List.filter (row_visible db src req vis w) (table_of db src) /\
    (Forall int4_range (IDs vis) ->
     rows = List.filter (row_visible db src req vis w) (table_of db src)).
Proof.
  intros Hparse%parsed_request_ok Hsrc%lookup_source_ok Hschema Hb st. split.
  - eapply build_text; [done|apply Hsrc|exact Hb].
  - edestruct reads_visible as (w & rows & Hw & Hrows & Hsub & Hall);
      [exact Hparse|exact Hsrc|exact Hschema|exact Hb|].
    exists w, rows. split_and!; [done..|]. intros Hids. apply Hall. unfold scope_ids.
    destruct (empty _); [done|]. eapply Forall_impl; [apply (ok_ids _ Hparse)|].
    intros id [Hlo Hhi]. unfold int4_range. lia.
Qed.

(** C18: The text of a statement never depends on a value.  Two parsed requests
    with the same form - the same names, operators, shape and ordering, the
    same number of values in each list, the same bounds given - build the same
    SQL for callers with the same kind of visibility, whatever the values, the
    connection ids, the visible sets, the times and the clock; those reach the
    datastore as parameters only. *)
Theorem query_text_ignores_values pool args args' req req' src vis vis' now now' sql sql' ps ps' :
  parseDatastoreRequest args = Ok req ->
  parseDatastoreRequest args' = Ok req' ->
  lookupDatastoreSource pool (Source req) = Ok src ->
  form_of req vis = form_of req' vis' ->
  buildDatastoreQuery src req vis now = Ok (sql, ps) ->
  buildDatastoreQuery src req' vis' now' = Ok (sql', ps') ->
  sql = sql'.
Proof.
  intros Hr%parsed_request_ok Hr'%parsed_request_ok Hsrc%lookup_source_ok.
  apply text_of_form; [done|done|apply Hsrc].
Qed.

(** C22: Every filter means what it says.  The statement's text is that of the
    statement [plan] gives, and on a row whose integer columns hold integers
    the conditions of that statement's outer WHERE clause are, in order and in
    three-valued logic, the meanings of the caller's filters: a comparison
    with the coerced value, a test for NULL, or membership of the list of
    coerced values, NOT IN being its negation and NULL for a NULL column, in
    whichever of the three shapes the list is written. *)
Theorem query_filters_mean pool args req src vis now sql params :
  parseDatastoreRequest args = Ok req ->
  lookupDatastoreSource pool (Source req) = Ok src ->
  buildDatastoreQuery src req vis now = Ok (sql, params) ->
  let st := plan src (form_of req vis) in
  sql = statement_text st /\
  forall db out, row_typed src out ->
    map (eval db params [("t", out)]) (statement_filters st) =
    map (fun f => means src f out) (Filters req).
Proof.
  intros Hparse%parsed_request_ok Hsrc%lookup_source_ok Hb. split.
  - eapply build_text; [done|apply Hsrc|exact Hb].
  - intros db out Hty. by eapply filters_mean.
Qed.

(** A statement stays within its limits.  It binds at most 20008
    parameters, under PostgreSQL's 65535; the last two are LIMIT, between 2
    and 1001 rows, and OFFSET, which is not negative and with LIMIT never
    reaches past row 100001. *)
Theorem query_within_limits args req src vis now sql params :
  parseDatastoreRequest args = Ok req ->
  buildDatastoreQuery src req vis now = Ok (sql, params) ->
  exists front limit offset,
    params = (front ++ [PInt64 limit; PInt64 offset])%list /\
    (Z.of_nat (length params) <= 20008 /\ 2 <= limit <= 1001 /\
     0 <= offset /\ offset + limit <= 100001)%Z.
Proof.
  intros Hparse%parsed_request_ok Hb. destruct (build_limits _ _ _ _ _ _ Hparse Hb) as (front & -> & Hlen).
  eexists front, _, _. split; [done|]. rewrite length_app. cbn [length].
  pose proof (ok_page _ Hparse). pose proof (ok_page_size _ Hparse). pose proof (ok_rows _ Hparse).
  unfold datastoreMaxPage, datastoreMaxPageSize, datastoreMaxRows in *. nia.
Qed.
End Theorems.
