(* ===== verification/DatastoreTool.v ===== *)
(** * The query_datastore tool (server/src/internal/tools/query_datastore.go)

    The handler: it parses the request, finds the source, resolves what the
    caller may see, builds the statement, runs it in a read-only transaction
    and masks the statement text of the result.  What the datastore answers is
    an argument ([tool_env]); the statements sent to it and the refusals
    recorded are the trace.

    The masking of one statement's text (pkg/sqlredact and pkg/redact) and the
    TSV rendering (internal/tsv) are arguments too. *)
From Stdlib Require Import Ascii ZArith.
From stdpp Require Import base list strings.
From S2P Require Import Prelude GoStrings AuditText GoText AuthStore Access Redaction DatastoreCatalog DatastoreRequest DatastoreQuery.

Local Open Scope string_scope.
Local Open Scope res_scope.

(** ** System alerts (auth/system_alerts.go) *)

Definition CanSeeSystemAlerts (rc : option RBACChecker) (ctx : Context) : bool :=
  match store_of rc with
  | None => false
  | Some s =>
      if tokenContextIncomplete ctx then false
      else if ctx_isSuperuser ctx then true
      else if (ctx_userID ctx =? 0)%Z then false
      else if (0 <? ctx_tokenID ctx)%Z
      then match GetTokenScope s (ctx_tokenID ctx) with Err _ => false | Ok _ => true end
      else true
  end.

(** ** Running a statement (tools/query_helpers.go) *)

Inductive cell := CNull | CText (s : string) | COther (s : string).

(** An error of the driver: a context deadline, or a PostgreSQL error with its
    code and message, or another. *)
Record db_error := { err_deadline : bool; err_pg : option (string * string) }.

(** The rows of a running statement: the column names, what each [Next] and
    [Values] gives, the error after the last, whether the statement's own
    context was cancelled while closing, and the commit. *)
Record cursor := {
  cur_names : list string;
  cur_rows : list (res db_error (list cell));
  cur_error : option db_error;
  cur_cancelled : bool;
  cur_commit : option db_error;
}.

Record queryResult := {
  ColumnNames : list string;
  qr_Rows : list (list cell);
  WasTruncated : bool;
}.

Definition sqlstateQueryCanceled : string := "57014".
Definition sqlstateInternalError : string := "XX000".
Definition duckdbQueryCanceledMarker : string := "Query cancelled".

Definition isStatementTimeout (e : db_error) : bool :=
  if err_deadline e then true
  else match err_pg e with
       | None => false
       | Some (code, message) =>
           String.eqb code sqlstateQueryCanceled ||
           (String.eqb code sqlstateInternalError && contains message duckdbQueryCanceledMarker)
       end.

Definition datastoreQueryFailedMsg : string :=
  "The query failed; check the filter values and column types.".
Definition datastoreQueryTimeoutMsg : string :=
  "The query ran for too long; narrow the time range or add filters.".

(** The same at every stage. *)
Definition datastoreQueryErrorFormatter (e : db_error) : string :=
  if isStatementTimeout e then datastoreQueryTimeoutMsg else datastoreQueryFailedMsg.

(** The loop over the rows; [limit] 0 is no cap. *)
Fixpoint read_rows (limit : Z) (rows : list (res db_error (list cell))) (results : list (list cell))
    : res db_error (list (list cell) * bool) :=
  match rows with
  | [] => Ok (results, false)
  | r :: rows =>
      if (0 <? limit)%Z && (limit <=? Z.of_nat (length results))%Z then Ok (results, true)
      else let! values := r in read_rows limit rows (results ++ [values])%list
  end.

(** ** What the tool is given *)

Record tool_env := {
  te_catalog : option catalog_answers;           (* None: no datastore *)
  te_begin : option string;                      (* starting the transaction fails *)
  te_query : string -> list param -> res db_error cursor;
  te_context_done : bool;                        (* the caller's context has ended *)
  te_missing : list Z -> res unit bool;          (* a named connection is missing *)
  te_suggestions : list string;
  FormatResults : list string -> list (list cell) -> string;
  RedactStatementText : string -> string;
}.

Inductive event := Sent (sql : string) (args : list param) | Denied.

Inductive tool_error :=
| BadArguments (e : request_error)
| NotConfigured
| UnknownSource
| LookupFailed
| VisibilityFailed
| Refused (e : query_error)
| BeginFailed (msg : string)
| QueryFailed (msg : string).

Inductive response :=
| ToolError (e : tool_error)
| NotAccessible (text : string)
| ToolSuccess (text : string).

Definition connectionNotAccessibleMsg : string := "connection not found or not accessible".

Section Tool.
Context `{UnicodeCase} `{GoParsers}.
Context (env : tool_env).

(** The suggestions are the answer of one more query. *)
Definition connectionNotAccessibleResponse : response :=
  NotAccessible
    (connectionNotAccessibleMsg ++ "." ++
     match te_suggestions env with
     | [] => " Use list_connections to see the connections you can access."
     | l => " Connections you can access include: " ++ join ", " l ++
            ". Use list_connections to see all of them."
     end).

Definition executeQueryWith (sql : string) (limit : Z) (args : list param)
    : res tool_error queryResult * list event :=
  match te_begin env with
  | Some msg => (Err (BeginFailed msg), [])
  | None =>
      let failed e := Err (QueryFailed (datastoreQueryErrorFormatter e)) in
      (match te_query env sql args with
       | Err e => failed e
       | Ok rows =>
           match read_rows limit (cur_rows rows) [] with
           | Err e => failed e
           | Ok (results, wasTruncated) =>
               let stoppedAtCap :=
                 wasTruncated && cur_cancelled rows && negb (te_context_done env) in
               let result := {| ColumnNames := cur_names rows; qr_Rows := results;
                                WasTruncated := wasTruncated |} in
               match (if stoppedAtCap then None else cur_error rows) with
               | Some e => failed e
               | None =>
                   if stoppedAtCap then Ok result
                   else match cur_commit rows with Some e => failed e | None => Ok result end
               end
           end
       end, [Sent sql args])
  end.

(** ** Masking the statement text of a result
    (tools/datastore_statement_redaction.go) *)

(** [metrics.RedactStatementValue]; [None] for the stored value is nil. *)
Definition RedactStatementValue (masked : cell) (raw : option cell) : cell :=
  match masked with
  | CNull => CNull
  | _ => match raw with
         | Some (CText v) => CText (RedactStatementText env v)
         | _ => CText RedactedValue
         end
  end.

Definition statementOutput (src : datastoreSource) (name : string) : bool :=
  statementColumn src name ||
  existsb (fun agg => match cut_prefix agg name with
                      | Some rest => statementColumn src rest
                      | None => false
                      end) ["min_"; "max_"].

Fixpoint index_of (name : string) (l : list string) : option nat :=
  match l with
  | [] => None
  | x :: l => if String.eqb x name then Some 0 else S <$> index_of name l
  end.

(** The masking of column [i], called [name], in one row.  The stored text is
    never itself masked in place, so the order of the columns is immaterial. *)
Definition mask_cell (src : datastoreSource) (names : list string) (row : list cell)
    (i : nat) (name : string) : list cell :=
  if has_prefix name rawStatementPrefix then row
  else
    match index_of (RawStatementAlias name) names with
    | None =>
        if statementOutput src name
        then alter (fun v => RedactStatementValue v None) i row else row
    | Some raw => alter (fun v => RedactStatementValue v (row !! raw)) i row
    end.

Fixpoint mask_row (src : datastoreSource) (names : list string) (i : nat) (rest : list string)
    (row : list cell) : list cell :=
  match rest with
  | [] => row
  | name :: rest => mask_row src names (S i) rest (mask_cell src names row i name)
  end.

(** The positions of the columns that are not stored text. *)
Definition keep_positions (names : list string) : list nat :=
  List.filter (fun i => match names !! i with
                        | Some name => negb (has_prefix name rawStatementPrefix)
                        | None => false
                        end) (seq 0 (length names)).

Definition redactDatastoreStatements (qr : queryResult) (src : datastoreSource) : queryResult :=
  let names := ColumnNames qr in
  let rows := map (mask_row src names 0 names) (qr_Rows qr) in
  let keep := keep_positions names in
  if (length keep <? length names)%nat then
    {| ColumnNames := omap (fun i => names !! i) keep;
       qr_Rows := map (fun row => map (fun i => default CNull (row !! i)) keep) rows;
       WasTruncated := WasTruncated qr |}
  else {| ColumnNames := names; qr_Rows := rows; WasTruncated := WasTruncated qr |}.

(** ** The page *)

Definition newline : string := String (chr 10) "".

Definition datastoreDefaultWindowHint : string :=
  "No rows in the default window (the hour before time_end). Change-tracked probes " ++
  "(pg_settings, pg_hba_file_rules, pg_ident_file_mappings, pg_server_info, pg_extension) store a row " ++
  "only when something changes; set time_start to a wider range such as 30d.".

Definition writeDatastorePage (qr : queryResult) (req : datastoreRequest) : string :=
  let tsv := FormatResults env (ColumnNames qr) (qr_Rows qr) in
  if empty (qr_Rows qr) then "Results (0 rows):" ++ newline ++ tsv
  else
    let first := ((Page req - 1) * PageSize req + 1)%Z in
    let last := (first + Z.of_nat (length (qr_Rows qr)) - 1)%Z in
    let range := "Results (rows " ++ FormatInt first ++ "-" ++ FormatInt last in
    if WasTruncated qr
    then range ++ ", more available - use page=" ++ FormatInt (Page req + 1) ++
         " for the next page):" ++ newline ++ tsv
    else range ++ "):" ++ newline ++ tsv.

Definition cell_text (c : cell) : string :=
  match c with CNull => "<nil>" | CText s => s | COther s => s end.

Definition explainDatastoreQuery (src : datastoreSource) (sql : string) (args : list param)
    : response * list event :=
  let '(result, events) := executeQueryWith ("EXPLAIN " ++ sql) 0 args in
  (match result with
   | Err e => ToolError e
   | Ok qr =>
       ToolSuccess ("Datastore Query Plan: " ++ src_Name src ++ newline ++ newline ++
                    join "" (map (fun v => cell_text v ++ newline) (concat (qr_Rows qr))))
   end, events).

Definition datastoreConnectionsExist (ids : list Z) : res unit bool :=
  let! missing := te_missing env ids in Ok (negb missing).

(** ** The handler *)

Definition page_of (src : datastoreSource) (req : datastoreRequest) (sql : string)
    (args : list param) : response * list event :=
  let '(result, events) := executeQueryWith sql (PageSize req) args in
  (match result with
   | Err e => ToolError e
   | Ok qr =>
       let qr := redactDatastoreStatements qr src in
       ToolSuccess
         ("Datastore Query: " ++ src_Name src ++ newline ++ newline ++
          (if empty (qr_Rows qr) && (Page req =? 1)%Z &&
              String.eqb (src_Kind src) datastoreKindMetric && is_empty (TimeStart req)
           then datastoreDefaultWindowHint ++ newline ++ newline else "") ++
          writeDatastorePage qr req)
   end, events).

Definition denied : response * list event := (connectionNotAccessibleResponse, [Denied]).

Definition run_request (src : datastoreSource) (req : datastoreRequest) (vis : visibleSet)
    (now : Z) : response * list event :=
  match checkDatastoreExplain req vis with
  | Err e => (ToolError (Refused e), [])
  | Ok _ =>
      match buildDatastoreQuery src req vis now with
      | Err ConnectionNotAccessible => denied
      | Err e => (ToolError (Refused e), [])
      | Ok (sql, args) =>
          let run :=
            if Explain req then explainDatastoreQuery src sql args else page_of src req sql args in
          if All vis && negb (empty (ConnectionIDs req)) then
            match datastoreConnectionsExist (ConnectionIDs req) with
            | Err _ => (ToolError VisibilityFailed, [])
            | Ok false => denied
            | Ok true => run
            end
          else run
      end
  end.

Definition queryDatastoreHandler (rc : option RBACChecker) (lister : VisibilityLister)
    (ctx : Context) (now : Z) (args : any_map) : response * list event :=
  match parseDatastoreRequest args with
  | Err e => (ToolError (BadArguments e), [])
  | Ok req =>
      match te_catalog env with
      | None => (ToolError NotConfigured, [])
      | Some _ =>
          match lookupDatastoreSource (te_catalog env) (Source req) with
          | Err UnknownDatastoreSource => (ToolError UnknownSource, [])
          | Err _ => (ToolError LookupFailed, [])
          | Ok src =>
              match VisibleConnectionIDs rc ctx lister with
              | Err _ => (ToolError VisibilityFailed, [])
              | Ok (ids, all) =>
                  run_request src req
                    {| All := all; IDs := ids; SystemAlerts := CanSeeSystemAlerts rc ctx |} now
              end
          end
      end
  end.
End Tool.
