(* ===== verification/DatastoreSafe.v ===== *)
(** * The query_datastore tool: theorems

    The masking of statement text in a result, which rows a call can read, and
    that a refused call sends nothing to the datastore. *)
From Stdlib Require Import Ascii ZArith.
From stdpp Require Import base list strings.
From S2P Require Import Prelude GoStrings AuditText GoText AuthStore Access Redaction DatastoreCatalog DatastoreRequest DatastoreQuery SqlMeaning DatastorePlan DatastoreText DatastoreVisible DatastoreSound DatastoreTool.

Local Open Scope string_scope.

(** ** Statement text *)

Section Masking.
Context (env : tool_env) (src : datastoreSource).

(** What masking makes of the cell at a position of a row. *)
Definition masked_at (names : list string) (row : list cell) (k : nat) : option cell :=
  name ← names !! k;
  if has_prefix name rawStatementPrefix then row !! k
  else
    match index_of (RawStatementAlias name) names with
    | None => if statementOutput src name
              then (fun v => RedactStatementValue env v None) <$> row !! k else row !! k
    | Some raw => (fun v => RedactStatementValue env v (row !! raw)) <$> row !! k
    end.

Lemma masked_at_eq names row k name :
  names !! k = Some name ->
  masked_at names row k =
  if has_prefix name rawStatementPrefix then row !! k
  else
    match index_of (RawStatementAlias name) names with
    | None => if statementOutput src name
              then (fun v => RedactStatementValue env v None) <$> row !! k else row !! k
    | Some raw => (fun v => RedactStatementValue env v (row !! raw)) <$> row !! k
    end.
Proof. unfold masked_at. by intros ->. Qed.

Lemma index_of_Some name l i : index_of name l = Some i -> l !! i = Some name.
Proof.
  revert i. induction l as [|x l IH]; intros i; simpl; [done|].
  destruct (String.eqb_spec x name) as [->|]; [by intros [= <-]|].
  destruct (index_of name l) as [j|]; [|done]. intros [= <-]. simpl. auto.
Qed.

Lemma cut_prefix_app p s : cut_prefix p (p ++ s) = Some s.
Proof. induction p as [|c p IH]; [done|]. cbn. by rewrite Ascii.eqb_refl. Qed.

Lemma raw_alias_prefix name : has_prefix (RawStatementAlias name) rawStatementPrefix = true.
Proof. unfold has_prefix, RawStatementAlias. rewrite cut_prefix_app. by apply bool_decide_true. Qed.

Lemma mask_cell_other names row i name k :
  k <> i -> mask_cell env src names row i name !! k = row !! k.
Proof.
  intros Hk. unfold mask_cell. repeat case_match; try done; by rewrite list_lookup_alter_ne.
Qed.

Lemma mask_row_at names pre rest row cur k :
  names = (pre ++ rest)%list -> length row = length names ->
  (forall j, j < length pre -> cur !! j = masked_at names row j) ->
  (forall j, length pre <= j -> cur !! j = row !! j) ->
  k < length names ->
  mask_row env src names (length pre) rest cur !! k = masked_at names row k.
Proof.
  revert pre cur. induction rest as [|name rest IH]; intros pre cur Hnames Hlen Hdone Htodo Hk.
  { rewrite app_nil_r in Hnames. subst pre. by apply Hdone. }
  cbn [mask_row]. rewrite <- (length_snoc pre name). apply IH; [by rewrite Hnames, <- (assoc_L (++))|done| | |done].
  - intros j Hj. rewrite length_snoc in Hj.
    destruct (decide (j = length pre)) as [->|Hne]; [|rewrite mask_cell_other by done; apply Hdone; lia].
    assert (names !! length pre = Some name) as Hname
      by (rewrite Hnames, lookup_app_r, Nat.sub_diag by lia; done).
    rewrite (masked_at_eq _ _ _ _ Hname). unfold mask_cell.
    destruct (has_prefix name rawStatementPrefix); [apply Htodo; lia|].
    destruct (index_of (RawStatementAlias name) names) as [raw|] eqn:Hraw.
    + rewrite list_lookup_alter_eq, (Htodo (length pre)) by lia.
      replace (cur !! raw) with (row !! raw); [done|]. symmetry.
      apply index_of_Some in Hraw.
      destruct (decide (raw < length pre)) as [Hlt|]; [|apply Htodo; lia].
      by rewrite Hdone, (masked_at_eq _ _ _ _ Hraw), raw_alias_prefix.
    + destruct (statementOutput src name); [|apply Htodo; lia].
      by rewrite list_lookup_alter_eq, (Htodo (length pre)) by lia.
  - intros j Hj. rewrite length_snoc in Hj. rewrite mask_cell_other by lia. apply Htodo. lia.
Qed.

Lemma masked_row names row k :
  length row = length names -> k < length names ->
  mask_row env src names 0 names row !! k = masked_at names row k.
Proof.
  intros Hlen Hk. apply (mask_row_at names [] names row row); try done; simpl; lia.
Qed.

(** *** What the caller is shown

    Said of the names and cells of the result, without the masking code. *)

(** The name under which the text of column [name] is selected as stored. *)
Definition stored_name (name : string) : string := "_raw_statement_" ++ name.

Definition is_stored (name : string) : Prop := exists column, name = stored_name column.

(** A column of the source whose text is a statement. *)
Definition statement_column (name : string) : Prop :=
  exists c, source_column src name = Some c /\ col_RedactStatement c = true.

(** A result column that may hold statement text: such a column, or the least
    or greatest of its values. *)
Definition holds_statement (name : string) : Prop :=
  statement_column name \/
  exists column, (name = "min_" ++ column \/ name = "max_" ++ column) /\ statement_column column.

(** The stored text beside column [name]: the first column of its name. *)
Definition stored_beside (names : list string) (row : list cell) (name : string) (v : cell) : Prop :=
  exists i, names !! i = Some (stored_name name) /\ row !! i = Some v /\
    forall j, j < i -> names !! j <> Some (stored_name name).

(** What the caller is shown of [v], a cell of column [name]. *)
Inductive cell_shown (names : list string) (row : list cell) (name : string) : cell -> cell -> Prop :=
| shown_null :
    holds_statement name \/ stored_name name ∈ names -> cell_shown names row name CNull CNull
| shown_redacted v text :
    v <> CNull -> stored_beside names row name (CText text) ->
    cell_shown names row name v (CText (RedactStatementText env text))
| shown_marker v :
    v <> CNull ->
    (exists w, stored_beside names row name w /\ forall text, w <> CText text) \/
    ((stored_name name ∉ names) /\ holds_statement name) ->
    cell_shown names row name v (CText RedactedValue)
| shown_unchanged v :
    stored_name name ∉ names -> ~ holds_statement name -> cell_shown names row name v v.

(** The entries of [l] whose column is not stored text, in order. *)
Inductive without_stored {A} : list string -> list A -> list A -> Prop :=
| without_nil : without_stored [] [] []
| without_drop name names x l l' :
    is_stored name -> without_stored names l l' -> without_stored (name :: names) (x :: l) l'
| without_keep name names x l l' :
    ~ is_stored name -> without_stored names l l' ->
    without_stored (name :: names) (x :: l) (x :: l').

Definition row_shown (names : list string) (given out : list cell) : Prop :=
  exists cells, without_stored names cells out /\
    forall k name v, names !! k = Some name -> ~ is_stored name -> given !! k = Some v ->
      exists v', cells !! k = Some v' /\ cell_shown names given name v v'.

Lemma keep_positions_spec names k :
  k ∈ keep_positions names <->
  exists name, names !! k = Some name /\ has_prefix name rawStatementPrefix = false.
Proof.
  unfold keep_positions. rewrite list_elem_of_In, filter_In, in_seq. split.
  - intros [_ Hk]. destruct (names !! k) as [name|]; [|done]. exists name. split; [done|].
    by apply negb_true_iff.
  - intros (name & Hk & Hp). rewrite Hk, Hp. apply lookup_lt_Some in Hk. split; [lia|done].
Qed.

Lemma mask_row_length names i rest row : length (mask_row env src names i rest row) = length row.
Proof.
  revert i row. induction rest as [|name rest IH]; intros i row; simpl; [done|]. rewrite IH.
  unfold mask_cell. repeat case_match; by rewrite ?length_alter.
Qed.

(** ** Selecting positions *)

Lemma map_lookup_seq {A} (d : A) (l : list A) :
  map (fun i => default d (l !! i)) (seq 0 (length l)) = l.
Proof.
  apply list_eq. intros i. rewrite list_lookup_fmap.
  destruct (decide (i < length l)) as [Hi|Hi].
  - rewrite lookup_seq_lt by done. simpl. by destruct (lookup_lt_is_Some_2 l i Hi) as [x ->].
  - rewrite lookup_seq_ge by lia. simpl. by rewrite lookup_ge_None_2 by lia.
Qed.

Lemma filter_length_all {A} (p : A -> bool) l :
  length l <= length (List.filter p l) -> List.filter p l = l.
Proof.
  induction l as [|a l IH]; simpl; [done|]. pose proof (List.filter_length_le p l).
  destruct (p a); simpl; intros; [f_equal; apply IH|]; lia.
Qed.

(** The result keeps exactly the positions of the columns that are not stored
    text. *)
Lemma redacted_shape qr :
  Forall (fun row => length row = length (ColumnNames qr)) (qr_Rows qr) ->
  let names := ColumnNames qr in
  let keep := keep_positions names in
  ColumnNames (redactDatastoreStatements env qr src) = map (fun i => default "" (names !! i)) keep /\
  qr_Rows (redactDatastoreStatements env qr src) =
    map (fun row => map (fun i => default CNull (mask_row env src names 0 names row !! i)) keep)
      (qr_Rows qr).
Proof.
  intros Hrows names keep. unfold redactDatastoreStatements. fold names keep.
  destruct (Nat.ltb_spec (length keep) (length names)) as [Hlt|Hge]; cbn [ColumnNames qr_Rows].
  - split; [|by rewrite map_map].
    assert (forall i, i ∈ keep -> is_Some (names !! i)) as Hkeep.
    { intros i (name & Hi & _)%keep_positions_spec. eauto. }
    clear Hlt. induction keep as [|i keep IH]; [done|]. cbn [omap map].
    destruct (Hkeep i ltac:(by left)) as [name Hi]. simpl. rewrite Hi. simpl. f_equal.
    apply IH. intros j Hj. apply Hkeep. by right.
  - assert (keep = seq 0 (length names)) as Hkeep.
    { unfold keep, keep_positions in *. apply filter_length_all. by rewrite length_seq. }
    rewrite Hkeep. split; [by rewrite map_lookup_seq|]. apply map_ext_in.
    intros row Hrow. rewrite Forall_forall in Hrows.
    replace (length names) with (length (mask_row env src names 0 names row));
      [by rewrite map_lookup_seq|].
    rewrite mask_row_length. apply Hrows. by apply list_elem_of_In.
Qed.

Lemma cut_prefix_Some p s' rest : cut_prefix p s' = Some rest -> s' = p ++ rest.
Proof.
  revert s'. induction p as [|c p IH]; intros s'; cbn; [by intros [= ->]|].
  destruct s' as [|d s']; [done|]. destruct (Ascii.eqb_spec c d) as [->|]; [|done].
  intros Hc. by rewrite (IH _ Hc).
Qed.

Lemma is_stored_prefix name : has_prefix name rawStatementPrefix = true <-> is_stored name.
Proof.
  unfold has_prefix. rewrite bool_decide_eq_true. split.
  - intros [rest Hr%cut_prefix_Some]. by exists rest.
  - intros [column ->]. exists column. apply cut_prefix_app.
Qed.

Lemma statementColumn_spec name : statementColumn src name = true <-> statement_column name.
Proof.
  unfold statementColumn, statement_column. destruct (source_column src name) as [c|].
  - split; [eauto|]. by intros (c' & [= <-] & ?).
  - split; [done|]. by intros (c' & ? & _).
Qed.

Lemma statementOutput_spec name : statementOutput src name = true <-> holds_statement name.
Proof.
  unfold statementOutput, holds_statement. rewrite orb_true_iff, statementColumn_spec.
  assert (existsb (fun agg => match cut_prefix agg name with
            | Some rest => statementColumn src rest | None => false end) ["min_"; "max_"] = true <->
          exists column, (name = "min_" ++ column \/ name = "max_" ++ column) /\
            statement_column column) as ->; [|done].
  rewrite existsb_exists. split.
  - intros (agg & Hagg & Hc). destruct (cut_prefix agg name) as [rest|] eqn:Hcut; [|done].
    apply statementColumn_spec in Hc. apply cut_prefix_Some in Hcut. exists rest. split; [|done].
    destruct Hagg as [<-|[<-|[]]]; auto.
  - intros (column & Hname & Hc%statementColumn_spec).
    destruct Hname as [-> | ->]; [exists "min_"|exists "max_"]; (split; [cbn; auto|]);
      by rewrite cut_prefix_app.
Qed.

Lemma index_of_first name l i : index_of name l = Some i -> forall j, j < i -> l !! j <> Some name.
Proof.
  revert i. induction l as [|x l IH]; intros i; simpl; [done|].
  destruct (String.eqb_spec x name) as [|Hne]; [intros [= <-]; lia|].
  destruct (index_of name l) as [k|] eqn:Hk; [|done]. intros [= <-] j Hj.
  destruct j as [|j]; simpl; [congruence|]. eapply IH; [done|lia].
Qed.

Lemma index_of_None name l : index_of name l = None -> name ∉ l.
Proof.
  induction l as [|x l IH]; simpl; [intros _ Hin; by apply elem_of_nil in Hin|].
  destruct (String.eqb_spec x name) as [|Hne]; [done|].
  destruct (index_of name l); [done|]. intros _ [->|Hin]%elem_of_cons; [done|by apply IH].
Qed.

(** A masked cell is the one the caller is to be shown. *)
Lemma masked_at_shown names row k name v :
  length row = length names -> names !! k = Some name -> ~ is_stored name -> row !! k = Some v ->
  exists v', masked_at names row k = Some v' /\ cell_shown names row name v v'.
Proof.
  intros Hlen Hk Hno Hv. rewrite (masked_at_eq _ _ _ _ Hk), Hv.
  destruct (has_prefix name rawStatementPrefix) eqn:Hp; [by apply is_stored_prefix in Hp|].
  destruct (index_of (RawStatementAlias name) names) as [raw|] eqn:Hraw.
  - pose proof (index_of_Some _ _ _ Hraw) as Hat. pose proof (index_of_first _ _ _ Hraw) as Hfirst.
    destruct (lookup_lt_is_Some_2 row raw) as [w Hw].
    { rewrite Hlen. by eapply lookup_lt_Some. }
    eexists. split; [done|]. rewrite Hw.
    assert (stored_beside names row name w) as Hbeside by (by exists raw).
    destruct v; cbn; [apply shown_null; right; by eapply list_elem_of_lookup_2|..];
      (destruct w; [apply shown_marker; [done|left; by eexists]|by apply shown_redacted|
                    apply shown_marker; [done|left; by eexists]]).
  - apply index_of_None in Hraw. destruct (statementOutput src name) eqn:Hso.
    + apply statementOutput_spec in Hso. eexists. split; [done|].
      destruct v; [apply shown_null; by left|..]; (apply shown_marker; [done|by right]).
    + eexists. split; [done|]. apply shown_unchanged; [done|].
      intros Hs%statementOutput_spec. congruence.
Qed.

Lemma keep_without {A} (d : A) names (l : list A) i (full : list A) :
  length l = length names ->
  (forall k, l !! k = full !! (i + k)) ->
  without_stored names l
    (map (fun k => default d (full !! k))
       (List.filter (fun k => match names !! (k - i) with
                              | Some name => negb (has_prefix name rawStatementPrefix)
                              | None => false
                              end) (seq i (length names)))).
Proof.
  revert l i. induction names as [|name names IH]; intros [|x l] i Hlen Hfull; try done.
  { constructor. }
  cbn [length seq List.filter]. rewrite Nat.sub_diag. cbn [lookup list_lookup].
  assert (List.filter (fun k => match (name :: names) !! (k - i) with
            | Some name => negb (has_prefix name rawStatementPrefix) | None => false end)
            (seq (S i) (length names)) =
          List.filter (fun k => match names !! (k - S i) with
            | Some name => negb (has_prefix name rawStatementPrefix) | None => false end)
            (seq (S i) (length names))) as ->.
  { apply List.filter_ext_in. intros k [Hk _]%in_seq. by replace (k - i) with (S (k - S i)) by lia. }
  assert (without_stored names l (map (fun k => default d (full !! k))
    (List.filter (fun k => match names !! (k - S i) with
       | Some name => negb (has_prefix name rawStatementPrefix) | None => false end)
       (seq (S i) (length names))))) as Hrest.
  { apply IH; [by injection Hlen|]. intros k. rewrite Nat.add_succ_l, <- Nat.add_succ_r.
    exact (Hfull (S k)). }
  destruct (has_prefix name rawStatementPrefix) eqn:Hp; cbn [negb].
  - apply without_drop; [by apply is_stored_prefix|done].
  - cbn [map]. specialize (Hfull 0). rewrite Nat.add_0_r in Hfull. rewrite <- Hfull.
    apply without_keep; [|done]. intros Hs%is_stored_prefix. congruence.
Qed.

Lemma keep_positions_without {A} (d : A) names (l : list A) :
  length l = length names ->
  without_stored names l (map (fun k => default d (l !! k)) (keep_positions names)).
Proof.
  intros Hlen. pose proof (keep_without d names l 0 l Hlen (fun _ => eq_refl)) as Hk.
  unfold keep_positions.
  erewrite List.filter_ext; [exact Hk|]. intros k. cbn beta. by rewrite Nat.sub_0_r.
Qed.

Lemma redacted_shown qr :
  Forall (fun row => length row = length (ColumnNames qr)) (qr_Rows qr) ->
  let out := redactDatastoreStatements env qr src in
  without_stored (ColumnNames qr) (ColumnNames qr) (ColumnNames out) /\
  Forall2 (row_shown (ColumnNames qr)) (qr_Rows qr) (qr_Rows out).
Proof.
  intros Hrows out. destruct (redacted_shape qr Hrows) as [Hnames Hout].
  unfold out. rewrite Hnames, Hout. split; [by apply keep_positions_without|].
  apply Forall2_fmap_r, Forall_Forall2_diag.
  eapply Forall_impl; [exact Hrows|]. intros row Hlen. cbn beta in Hlen.
  eexists. split; [by apply keep_positions_without; rewrite mask_row_length|].
  intros k name v Hk Hno Hv. rewrite masked_row; [by apply masked_at_shown|done|].
  by eapply lookup_lt_Some.
Qed.
End Masking.

(** ** What a call sends *)

Section Calls.
Context `{UnicodeCase} `{GoParsers}.
Context (env : tool_env).

Lemma executed sql limit args :
  snd (executeQueryWith env sql limit args) = [Sent sql args] \/
  (exists msg, executeQueryWith env sql limit args = (Err (BeginFailed msg), [])).
Proof. unfold executeQueryWith. destruct (te_begin env) as [msg|]; [eauto|by left]. Qed.

(** The outcome of a call and its trace agree. *)
Definition agree (out : response * list event) : Prop :=
  match fst out with
  | NotAccessible _ => snd out = [Denied]
  | ToolSuccess _ | ToolError (QueryFailed _) => exists q ps, snd out = [Sent q ps]
  | ToolError _ => snd out = []
  end.

Lemma execute_agree sql limit args (ok : queryResult -> string) :
  agree (let '(result, events) := executeQueryWith env sql limit args in
         (match result with Err e => ToolError e | Ok qr => ToolSuccess (ok qr) end, events)).
Proof.
  unfold executeQueryWith, agree. destruct (te_begin env); [done|].
  destruct (te_query env sql args) as [rows|]; simpl; [|eauto].
  destruct (read_rows limit (cur_rows rows) []) as [[results truncated]|]; [|eauto].
  destruct (truncated && _ && _); simpl; [eauto|].
  destruct (cur_error rows); simpl; [eauto|]. destruct (cur_commit rows); simpl; eauto.
Qed.

Lemma run_agree src req vis now : agree (run_request env src req vis now).
Proof.
  unfold run_request. destruct (checkDatastoreExplain req vis); [|done].
  destruct (buildDatastoreQuery src req vis now) as [[sql args]|e]; [|by destruct e].
  assert (agree (if Explain req then explainDatastoreQuery env src sql args
                 else page_of env src req sql args)) as Hrun.
  { destruct (Explain req); [apply execute_agree|].
    unfold page_of. apply (execute_agree _ _ _ (fun qr => _)). }
  destruct (All vis && _); [|done].
  by destruct (datastoreConnectionsExist env (ConnectionIDs req)) as [[]|].
Qed.

Lemma execute_sent sql limit args q ps :
  In (Sent q ps) (snd (executeQueryWith env sql limit args)) -> q = sql /\ ps = args.
Proof.
  destruct (executed sql limit args) as [-> | [msg ->]]; [|done].
  by intros [[= <- <-]|[]].
Qed.

(** A statement is sent only for connections that are visible and exist; a
    plan is asked for only by a caller who sees all. *)
Record sendable (src : datastoreSource) (req : datastoreRequest) (vis : visibleSet) (now : Z)
    (q : string) (ps : list param) : Prop := {
  named_visible : forall id, id ∈ ConnectionIDs req -> All vis = true \/ id ∈ IDs vis;
  named_exist : All vis = true -> ConnectionIDs req <> [] ->
    te_missing env (ConnectionIDs req) = Ok false;
  explain_all : Explain req = true -> All vis = true;
  sent_built : exists sql, buildDatastoreQuery src req vis now = Ok (sql, ps) /\
    q = if Explain req then "EXPLAIN " ++ sql else sql;
}.

Lemma admitted_visible src req vis :
  scope_admitted src req vis ->
  forall id, id ∈ ConnectionIDs req -> All vis = true \/ id ∈ IDs vis.
Proof.
  intros [_ Hadmit] id Hin%list_elem_of_In.
  assert (empty (ConnectionIDs req) = false) as He by (by destruct (ConnectionIDs req)).
  assert (mem_Z id (scope_ids req vis) = true) as Hmem.
  { unfold scope_ids. rewrite He. apply existsb_exists. exists id. split; [done|]. apply Z.eqb_refl. }
  rewrite Hadmit in Hmem by (unfold restricted; cbn; by rewrite He).
  unfold allowed in Hmem. apply andb_true_iff in Hmem as [Hmem _].
  apply orb_true_iff in Hmem as [?|Hmem]; [by left|right].
  apply existsb_exists in Hmem as (x & Hx & ->%Z.eqb_eq). by apply list_elem_of_In.
Qed.

Lemma run_sent src req vis now q ps :
  In (Sent q ps) (snd (run_request env src req vis now)) -> sendable src req vis now q ps.
Proof.
  unfold run_request. destruct (checkDatastoreExplain req vis) as [[]|] eqn:Hcheck; [|done].
  destruct (buildDatastoreQuery src req vis now) as [[sql args]|e] eqn:Hb;
    [|by destruct e as []; intros []].
  assert (Explain req = true -> All vis = true) as Hall.
  { intros He. unfold checkDatastoreExplain in Hcheck. rewrite He in Hcheck. by destruct (All vis). }
  pose proof Hb as (w & _ & Hadmit & _)%build_params.
  pose proof (admitted_visible _ _ _ Hadmit) as Hnamed_visible.
  assert (In (Sent q ps) (snd (if Explain req then explainDatastoreQuery env src sql args
                               else page_of env src req sql args)) ->
          ps = args /\ q = if Explain req then "EXPLAIN " ++ sql else sql) as Hrun.
  { destruct (Explain req).
    - unfold explainDatastoreQuery. intros Hin.
      destruct (execute_sent ("EXPLAIN " ++ sql) 0 args q ps) as [-> ->]; [|done].
      by destruct (executeQueryWith _ _ _ _).
    - unfold page_of. intros Hin.
      destruct (execute_sent sql (PageSize req) args q ps) as [-> ->]; [|done].
      by destruct (executeQueryWith _ _ _ _). }
  intros Hin. destruct (All vis && _) eqn:Hnamed.
  - destruct (datastoreConnectionsExist env (ConnectionIDs req)) as [[]|] eqn:Hex; simpl in Hin;
      [|by destruct Hin as [|[]]|done]. destruct (Hrun Hin) as [-> ->].
    split; [done| |done|by exists sql]. intros _ _. unfold datastoreConnectionsExist in Hex.
    by destruct (te_missing env (ConnectionIDs req)) as [[]|].
  - destruct (Hrun Hin) as [-> ->]. split; [done| |done|by exists sql].
    intros Ha Hne. rewrite Ha in Hnamed. by destruct (ConnectionIDs req).
Qed.

(** The handler runs a request only once everything before has answered. *)
Lemma handler_runs rc lister ctx now args out :
  queryDatastoreHandler env rc lister ctx now args = out ->
  (exists req src ids all,
     parseDatastoreRequest args = Ok req /\ is_Some (te_catalog env) /\
     lookupDatastoreSource (te_catalog env) (Source req) = Ok src /\
     VisibleConnectionIDs rc ctx lister = Ok (ids, all) /\
     out = run_request env src req
       {| All := all; IDs := ids; SystemAlerts := CanSeeSystemAlerts rc ctx |} now) \/
  exists e, out = (ToolError e, []) /\ forall msg, e <> QueryFailed msg.
Proof.
  intros <-. unfold queryDatastoreHandler.
  destruct (parseDatastoreRequest args) as [req|]; [|right; by eexists].
  destruct (te_catalog env) as [catalog|] eqn:Hcat; [|right; by eexists].
  destruct (lookupDatastoreSource _ _) as [src|[]] eqn:Hsrc; try (right; by eexists).
  destruct (VisibleConnectionIDs rc ctx lister) as [[ids all]|]; [|right; by eexists].
  left. exists req, src, ids, all. split_and!; try done; by rewrite ?Hcat.
Qed.


(** *** What a page shows *)

(** What stands before the rows of a page; it depends on no cell. *)
Definition page_heading (src : datastoreSource) (req : datastoreRequest) (rows : nat)
    (truncated : bool) : string :=
  let first := ((Page req - 1) * PageSize req + 1)%Z in
  "Datastore Query: " ++ src_Name src ++ newline ++ newline ++
  (if (rows =? 0)%nat && (Page req =? 1)%Z &&
      String.eqb (src_Kind src) datastoreKindMetric && String.eqb (TimeStart req) ""
   then datastoreDefaultWindowHint ++ newline ++ newline else "") ++
  (if (rows =? 0)%nat then "Results (0 rows):"
   else "Results (rows " ++ FormatInt first ++ "-" ++ FormatInt (first + Z.of_nat rows - 1) ++
        (if truncated then ", more available - use page=" ++ FormatInt (Page req + 1) ++
                           " for the next page):" else "):")) ++ newline.

Lemma string_assoc (s1 s2 s3 : string) : (s1 ++ s2) ++ s3 = s1 ++ s2 ++ s3.
Proof. induction s1 as [|c s1 IH]; [done|]. cbn. by rewrite IH. Qed.

Lemma read_rows_given limit rows results out truncated :
  read_rows limit rows results = Ok (out, truncated) ->
  exists more, out = (results ++ more)%list /\ map Ok more `prefix_of` rows.
Proof.
  revert results. induction rows as [|r rows IH]; intros results; cbn [read_rows].
  { intros [= <- _]. exists []. by rewrite app_nil_r. }
  destruct (_ && _).
  { intros [= <- _]. exists []. rewrite app_nil_r. split; [done|]. apply prefix_nil. }
  destruct r as [values|]; [|done]. intros (more & -> & Hpre)%IH.
  exists (values :: more). rewrite <- (assoc_L (++)). split; [done|]. by apply prefix_cons.
Qed.

(** The rows are those the datastore gave, as many as the page holds. *)
Lemma execute_ok sql limit args qr events :
  executeQueryWith env sql limit args = (Ok qr, events) ->
  events = [Sent sql args] /\
  exists cur, te_query env sql args = Ok cur /\ ColumnNames qr = cur_names cur /\
    map Ok (qr_Rows qr) `prefix_of` cur_rows cur.
Proof.
  unfold executeQueryWith. destruct (te_begin env); [done|]. intros [= Hres <-]. split; [done|].
  destruct (te_query env sql args) as [cur|]; [|done]. exists cur. split; [done|].
  destruct (read_rows limit (cur_rows cur) []) as [[results truncated]|] eqn:Hread; [|done].
  apply read_rows_given in Hread as (more & -> & Hpre). cbn [app] in Hres.
  destruct (truncated && _ && _); [by injection Hres as <-|].
  destruct (cur_error cur); [done|]. destruct (cur_commit cur); [done|]. by injection Hres as <-.
Qed.

Lemma page_text src req qr :
  ("Datastore Query: " ++ src_Name src ++ newline ++ newline ++
   (if empty (qr_Rows qr) && (Page req =? 1)%Z &&
       String.eqb (src_Kind src) datastoreKindMetric && is_empty (TimeStart req)
    then datastoreDefaultWindowHint ++ newline ++ newline else "") ++
   writeDatastorePage env qr req) =
  page_heading src req (length (qr_Rows qr)) (WasTruncated qr) ++
  FormatResults env (ColumnNames qr) (qr_Rows qr).
Proof.
  assert (is_empty (TimeStart req) = String.eqb (TimeStart req) "") as -> by (by destruct (TimeStart req)).
  assert (empty (qr_Rows qr) = (length (qr_Rows qr) =? 0)%nat) as He by (by destruct (qr_Rows qr)).
  unfold page_heading, writeDatastorePage. rewrite He.
  destruct (length (qr_Rows qr) =? 0)%nat, (WasTruncated qr); rewrite !string_assoc; done.
Qed.

(** C24: Statement text leaves the tool only masked.  Where the datastore gives
    each row one cell for each column, the answer of a call that succeeds and
    asked for no plan is a heading, in which no cell appears, and the
    rendering of columns and rows that are, in order, those the datastore
    gave less the columns of stored text; a cell of a column that holds
    statement text, or has its stored text beside it, is shown as NULL where
    it is NULL, else as the masking of that stored text, or as the redaction
    marker where there is none, and every other cell as it was given. *)
Theorem statement_text_masked rc lister ctx now args text events :
  (forall q ps cur row, te_query env q ps = Ok cur -> Ok row ∈ cur_rows cur ->
     length row = length (cur_names cur)) ->
  queryDatastoreHandler env rc lister ctx now args = (ToolSuccess text, events) ->
  exists req src,
    parseDatastoreRequest args = Ok req /\
    lookupDatastoreSource (te_catalog env) (Source req) = Ok src /\
    (Explain req = false ->
     exists sql ps cur given names rows truncated,
       events = [Sent sql ps] /\ te_query env sql ps = Ok cur /\
       map Ok given `prefix_of` cur_rows cur /\
       without_stored (cur_names cur) (cur_names cur) names /\
       Forall2 (row_shown env src (cur_names cur)) given rows /\
       text = page_heading src req (length rows) truncated ++ FormatResults env names rows).
Proof.
  intros Hwidth Hcall.
  destruct (handler_runs rc lister ctx now args _ Hcall)
    as [(req & src & ids & all & Hparse & _ & Hsrc & _ & Hout)|(e & Hout & _)]; [|done].
  exists req, src. split_and!; [done..|]. intros Hexp.
  unfold run_request in Hout. destruct (checkDatastoreExplain _ _); [|done].
  destruct (buildDatastoreQuery _ _ _ _) as [[sql ps]|[]]; try done. rewrite Hexp in Hout.
  assert ((ToolSuccess text, events) = page_of env src req sql ps) as Hpage.
  { destruct (_ && negb _); [|done]. by destruct (datastoreConnectionsExist _ _) as [[]|]. }
  unfold page_of in Hpage. destruct (executeQueryWith _ _ _ _) as [[qr|] ev] eqn:Hexec; [|done].
  injection Hpage as -> ->. apply execute_ok in Hexec as (-> & cur & Hq & Hnames & Hrows).
  assert (Forall (fun row => length row = length (ColumnNames qr)) (qr_Rows qr)) as Hlen.
  { apply Forall_forall. intros row Hin. rewrite Hnames. eapply Hwidth; [exact Hq|].
    destruct Hrows as [rest ->]. apply elem_of_app. left. by apply (list_elem_of_fmap_2 Ok). }
  destruct (redacted_shown env src qr Hlen) as [Hkept Hshown]. rewrite Hnames in Hkept, Hshown.
  exists sql, ps, cur, (qr_Rows qr). eexists _, _, _. split_and!; [done..|]. apply page_text.
Qed.
End Calls.

(** ** What a call can read *)

(** The live connections of the datastore are those the sharing lookup
    knows. *)
Definition known_connections (fn : SharingLookup) (pgdb : database) : Prop :=
  forall c, In c (pgdb "connections") -> c "deleted_at" = None ->
    exists id, c "id" = Some (DInt id) /\ id <> ConnectionIDAll /\ is_ok (fn id) = true.

Lemma configuration_live :
  Forall (fun s => src_LiveColumn s = "" \/ s = connectionsSource) configurationSources.
Proof. repeat constructor; by (left + right). Qed.

Lemma lookup_live `{UnicodeCase} pool name src :
  lookupDatastoreSource pool name = Ok src -> src_LiveColumn src = "" \/ src = connectionsSource.
Proof.
  unfold lookupDatastoreSource. destruct (List.find _ configurationSources) as [s|] eqn:Hfind.
  { intros [= <-]. by apply (find_in _ _ _ _ configuration_live) in Hfind. }
  destruct (IsValidIdentifier name); [|done]. destruct pool; [|done].
  intros (? & _ & Hc)%rbind_Ok. apply rbind_Ok in Hc as (? & _ & [= <-]). by left.
Qed.

(** The connection of a row in scope, of a live connection, is live. *)
Lemma visible_connection fn pgdb src req vis w r :
  known_connections fn pgdb -> (src_LiveColumn src = "" \/ src = connectionsSource) ->
  src_Scope src = scopeConnection -> In r (table_of pgdb src) ->
  row_visible pgdb src req vis w r = true ->
  exists id, r (src_ConnectionColumn src) = Some (DInt id) /\ id <> ConnectionIDAll /\
    is_ok (fn id) = true /\ allowed req vis id = true.
Proof.
  intros Hknown Hlive Hs Hin Hvis. unfold row_visible in Hvis.
  apply andb_true_iff in Hvis as [Hvis _]. apply andb_true_iff in Hvis as [Hscope Hl].
  unfold in_scope in Hscope. rewrite Hs in Hscope. unfold is_live in Hl. rewrite Hs in Hl.
  assert (exists id, r (src_ConnectionColumn src) = Some (DInt id) /\ id <> ConnectionIDAll /\
            is_ok (fn id) = true) as (id & Hid & Hne & Hok).
  { destruct Hlive as [Hempty| ->].
    - rewrite Hempty in Hl. simpl in Hl. apply existsb_exists in Hl as (c & Hc & Hl).
      apply andb_true_iff in Hl as [Heq Hdel].
      destruct (Hknown c Hc) as (id & Hid & ?); [by destruct (c "deleted_at")|].
      exists id. split; [|done]. unfold equal in Heq. rewrite Hid in Heq.
      destruct (r (src_ConnectionColumn src)) as [d|]; [|done]. simpl in Heq.
      case_bool_decide as Hd; [|done]. by rewrite Hd.
    - apply (Hknown r); [exact Hin|]. simpl in Hl. by destruct (r "deleted_at"). }
  exists id. rewrite Hid in Hscope. done.
Qed.

Lemma allowed_listed req vis ids b id :
  IDs vis = ids -> All vis = b -> allowed req vis id = true -> b = true \/ id ∈ ids.
Proof.
  intros <- <- Ha. unfold allowed in Ha. apply andb_true_iff in Ha as [Ha _].
  apply orb_true_iff in Ha as [Ha|Ha]; [by left|right].
  apply existsb_exists in Ha as (x & Hx & ->%Z.eqb_eq). by apply list_elem_of_In.
Qed.

Section Openable.
Context `{UnicodeCase} `{GoParsers} `{Postgres}.

End Openable.
