(* ===== verification/WitnessesDatastore.v ===== *)
(** * Datastore queries at concrete inputs

    The statements the repository's own tests expect, and each theorem of
    DatastoreSound and DatastoreSafe at an input where its hypotheses hold. *)
From Stdlib Require Import Ascii ZArith SpecFloat.
From stdpp Require Import base list strings.
From S2P Require Import Prelude GoStrings AuditText GoText AuthStore Access Redaction DatastoreCatalog DatastoreRequest DatastoreQuery SqlMeaning DatastorePlan DatastoreText DatastoreVisible DatastoreFilters DatastoreSound DatastoreTool DatastoreSafe Witnesses.

Local Open Scope string_scope.

#[local] Existing Instance ascii_case.

(** Parsers that read nothing, and a PostgreSQL in which values of other types
    are never equal. *)
#[local] Instance demo_parsers : GoParsers :=
  {| ParseFloat := fun _ => None; FormatFloat := fun _ => "0";
     ParseDuration := fun _ => None; time_Parse := fun _ _ => None |}.

#[local] Instance demo_postgres : Postgres.
Proof.
  refine {| pg_compare := fun op _ _ => match op with NotEqual => true | _ => false end;
            pg_mask := fun _ _ _ => Some (DText RedactedValue) |}.
  done.
Defined.

(** ** The statements of datastore_query_builder_test.go

    A backquote stands for a double quote. *)

Definition sql (s : string) : string := replace_byte "`" dq s.

Definition everyone : visibleSet := {| All := true; IDs := []; SystemAlerts := true |}.
Definition three_seven : visibleSet := {| All := false; IDs := [3; 7]%Z; SystemAlerts := true |}.

Definition testMetricSource : datastoreSource :=
  {| src_Name := "pg_stat_database"; src_Table := "pg_stat_database";
     src_Description := "Database statistics."; src_TimeColumn := "collected_at";
     src_ConnectionColumn := "connection_id"; src_Kind := datastoreKindMetric;
     src_Scope := scopeConnection; src_LiveColumn := "";
     src_Columns := [
       DatastoreCatalog.col "connection_id" typeInteger;
       DatastoreCatalog.col "collected_at" typeTimestamptz;
       DatastoreCatalog.col "datname" "name";
       metricCol "xact_commit" typeBigint;
       metricCol "blks_hit" typeBigint;
       metricCol "cache_ratio" "double precision";
       DatastoreCatalog.col "stats_reset" typeTimestamptz] |}.

(** Noon of 2 January 2026, in nanoseconds. *)
Definition noon : Z := 1767355200000000000.

Definition text_for (src : datastoreSource) (vis : visibleSet) (args : any_map) : option string :=
  match parseDatastoreRequest args with
  | Ok req => match buildDatastoreQuery src req vis noon with
              | Ok (text, _) => Some text
              | Err _ => None
              end
  | Err _ => None
  end.

Example default_window_text :
  text_for testMetricSource everyone [("source", AString "pg_stat_database")] =
  Some (sql
    ("SELECT t.`connection_id`, t.`collected_at`, t.`datname`, t.`xact_commit`, t.`blks_hit`, " ++
     "t.`cache_ratio`, t.`stats_reset` FROM (SELECT t.`connection_id`, t.`collected_at`, " ++
     "t.`datname`, t.`xact_commit`, t.`blks_hit`, t.`cache_ratio`, t.`stats_reset` FROM " ++
     "metrics.`pg_stat_database` t WHERE EXISTS (SELECT 1 FROM connections lc WHERE lc.id = " ++
     "t.`connection_id` AND lc.deleted_at IS NULL) AND t.`collected_at` >= $1 AND " ++
     "t.`collected_at` <= $2 OFFSET 0) t ORDER BY t.`collected_at` DESC, t.`connection_id` " ++
     "ASC, t.`datname` ASC LIMIT $3 OFFSET $4")).
Proof. vm_compute. reflexivity. Qed.

Example latest_text :
  text_for testMetricSource three_seven
    [("source", AString "pg_stat_database"); ("shape", AString "latest");
     ("columns", AList [AString "datname"; AString "xact_commit"]);
     ("filters", AList [AMap [("column", AString "datname"); ("op", AString "!=");
                              ("value", AString "template1")]])] =
  Some (sql
    ("SELECT `datname`, `xact_commit` FROM (SELECT DISTINCT ON (t.`connection_id`, " ++
     "t.`datname`) t.`connection_id`, t.`collected_at`, t.`datname`, t.`xact_commit`, " ++
     "t.`blks_hit`, t.`cache_ratio`, t.`stats_reset` FROM (SELECT t.`connection_id`, " ++
     "t.`collected_at`, t.`datname`, t.`xact_commit`, t.`blks_hit`, t.`cache_ratio`, " ++
     "t.`stats_reset` FROM metrics.`pg_stat_database` t WHERE t.`connection_id` = " ++
     "ANY(string_to_array($1, ',')::integer[]) AND EXISTS (SELECT 1 FROM connections lc WHERE " ++
     "lc.id = t.`connection_id` AND lc.deleted_at IS NULL) AND t.`collected_at` >= $2 AND " ++
     "t.`collected_at` <= $3 OFFSET 0) t WHERE t.`datname` <> $4 ORDER BY t.`connection_id`, " ++
     "t.`datname`, t.`collected_at` DESC) latest ORDER BY `connection_id` ASC, `datname` ASC " ++
     "LIMIT $5 OFFSET $6")).
Proof. vm_compute. reflexivity. Qed.

Example aggregate_text :
  text_for testMetricSource three_seven
    [("source", AString "pg_stat_database"); ("shape", AString "aggregate");
     ("aggregation", AString "avg");
     ("columns", AList [AString "xact_commit"; AString "cache_ratio"]);
     ("group_by", AList [AString "connection_id"; AString "datname"]);
     ("buckets", AInt 6)] =
  Some (sql
    ("SELECT date_bin($4::interval, t.`collected_at`, $2::timestamptz) AS `bucket_time`, " ++
     "t.`connection_id`, t.`datname`, avg(t.`xact_commit`)::float8 AS `avg_xact_commit`, " ++
     "avg(t.`cache_ratio`)::float8 AS `avg_cache_ratio` FROM (SELECT t.`connection_id`, " ++
     "t.`collected_at`, t.`datname`, t.`xact_commit`, t.`blks_hit`, t.`cache_ratio`, " ++
     "t.`stats_reset` FROM metrics.`pg_stat_database` t WHERE t.`connection_id` = " ++
     "ANY(string_to_array($1, ',')::integer[]) AND EXISTS (SELECT 1 FROM connections lc WHERE " ++
     "lc.id = t.`connection_id` AND lc.deleted_at IS NULL) AND t.`collected_at` >= $2 AND " ++
     "t.`collected_at` <= $3 OFFSET 0) t GROUP BY 1, 2, 3 ORDER BY `bucket_time` ASC, " ++
     "`connection_id` ASC, `datname` ASC LIMIT $5 OFFSET $6")).
Proof. vm_compute. reflexivity. Qed.

(** A number of days too large for a [time.Duration] wraps around: 213504 days
    are read as some 25 minutes. *)
Example days_wrap_around :
  parseRelativeDuration "1d" = Some 86400000000000%Z /\
  parseRelativeDuration "213504d" = Some 1526290448384%Z.
Proof. vm_compute. split; reflexivity. Qed.

(** ** Sources *)

(** A catalog with the pg_settings probe, one column of it secret. *)
Definition demo_catalog : catalog_answers :=
  {| probe_relation := fun name =>
       Ok (Some {| rel_Name := name; rel_Description := "Settings.";
                  rel_HasBookkeeping := true |});
     probe_relations := Ok [];
     probe_columns := fun _ =>
       Ok {| scanned := [Ok ("connection_id", typeInteger); Ok ("collected_at", typeTimestamptz);
                         Ok ("name", typeText); Ok ("setting", typeText);
                         Ok ("role_password", typeText)];
             iteration_failed := false |} |}.

Definition settings_source : datastoreSource :=
  match lookupDatastoreSource (Some demo_catalog) "pg_settings" with
  | Ok src => src | Err _ => connectionsSource
  end.

Lemma sources_expose_no_secret_witness :
  columnNames settings_source = ["connection_id"; "collected_at"; "name"; "setting"] /\
  Forall column_ok (src_Columns settings_source).
Proof.
  split; [vm_compute; reflexivity|].
  apply (sources_expose_no_secret (Some demo_catalog) "pg_settings" settings_source).
  vm_compute. reflexivity.
Defined.

(** ** A database

    Connections 5 and 6 and the deleted connection 9, each with baselines. *)

Definition fields (l : list (string * datum)) : row := fun name => assoc name l.

Definition demo_database : database := fun table =>
  if String.eqb table "connections" then
    [fields [("id", DInt 5)]; fields [("id", DInt 6)];
     fields [("id", DInt 9); ("deleted_at", DTime 0)]]
  else if String.eqb table "metric_baselines" then
    [fields [("id", DInt 1); ("connection_id", DInt 5); ("hour_of_day", DInt 3)];
     fields [("id", DInt 2); ("connection_id", DInt 9)];
     fields [("id", DInt 3); ("connection_id", DInt 6)]]
  else [].

Lemma demo_schema :
  schema_ok demo_database metricBaselinesSource (table_of demo_database metricBaselinesSource).
Proof.
  split; try (intros; discriminate); [intros a []|..]; intros r d Hr Hd; simpl in Hr;
    destruct Hr as [<-|[<-|[<-|[]]]]; discriminate.
Defined.

Definition five_six : visibleSet := {| All := false; IDs := [5; 6]%Z; SystemAlerts := false |}.

Definition hours (l : list any) : any_map :=
  [("source", AString "metric_baselines");
   ("filters", AList [AMap [("column", AString "hour_of_day"); ("op", AString "not in");
                            ("values", AList l)]])].

Definition request_of (args : any_map) : datastoreRequest :=
  match parseDatastoreRequest args with
  | Ok req => req
  | Err _ =>
      {| Source := ""; req_Columns := []; ConnectionIDs := []; TimeStart := ""; TimeEnd := "";
         Filters := []; Shape := ""; GroupBy := []; Aggregation := ""; Buckets := 0;
         OrderBy := []; Page := 0; PageSize := 0; Explain := false |}
  end.

Definition built_of (args : any_map) (vis : visibleSet) : string * list param :=
  match buildDatastoreQuery metricBaselinesSource (request_of args) vis noon with
  | Ok out => out
  | Err _ => ("", [])
  end.

Definition early : any_map := hours [AInt 3; AInt 4].
Definition late : any_map := hours [AInt 22; AInt 23].

(** Of the three baselines the caller reads those of connections 5 and 6. *)
Lemma query_reads_visible_rows_witness :
  map (fun r => r "id")
    (scan_rows demo_database (snd (built_of early five_six))
       (statement_scan (plan metricBaselinesSource (form_of (request_of early) five_six)))) =
    [Some (DInt 1); Some (DInt 3)] /\
  fst (built_of early five_six) =
    statement_text (plan metricBaselinesSource (form_of (request_of early) five_six)).
Proof.
  split; [vm_compute; reflexivity|].
  apply (query_reads_visible_rows None early (request_of early) metricBaselinesSource five_six noon
           (fst (built_of early five_six)) (snd (built_of early five_six)) demo_database).
  - vm_compute. reflexivity.
  - vm_compute. reflexivity.
  - apply demo_schema.
  - vm_compute. reflexivity.
Defined.

Lemma query_text_ignores_values_witness :
  snd (built_of early five_six) <> snd (built_of late three_seven) /\
  fst (built_of early five_six) =
    fst (built_of late {| All := false; IDs := [7]%Z; SystemAlerts := false |}).
Proof.
  split; [vm_compute; discriminate|].
  apply (query_text_ignores_values None early late (request_of early) (request_of late)
           metricBaselinesSource five_six {| All := false; IDs := [7]%Z; SystemAlerts := false |}
           noon noon _ _ (snd (built_of early five_six))
           (snd (built_of late {| All := false; IDs := [7]%Z; SystemAlerts := false |})));
    vm_compute; reflexivity.
Defined.

(** The first baseline is of an excluded hour, the last of none. *)
Lemma query_filters_mean_witness :
  map (fun r => map (eval demo_database (snd (built_of early five_six)) [("t", r)])
         (statement_filters (plan metricBaselinesSource (form_of (request_of early) five_six))))
    (table_of demo_database metricBaselinesSource) = [[Some false]; [None]; [None]] /\
  forall r, In r (table_of demo_database metricBaselinesSource) ->
  map (eval demo_database (snd (built_of early five_six)) [("t", r)])
    (statement_filters (plan metricBaselinesSource (form_of (request_of early) five_six))) =
  map (fun f => means metricBaselinesSource f r) (Filters (request_of early)).
Proof.
  split; [vm_compute; reflexivity|]. intros r Hr.
  apply (query_filters_mean None early (request_of early) metricBaselinesSource five_six noon
           (fst (built_of early five_six)) (snd (built_of early five_six))).
  - vm_compute. reflexivity.
  - vm_compute. reflexivity.
  - vm_compute. reflexivity.
  - intros name c Hc _ x Hx. simpl in Hr.
    destruct Hr as [<-|[<-|[<-|[]]]]; unfold fields in Hx; cbn [assoc] in Hx;
      repeat destruct (String.eqb _ name); try discriminate; injection Hx as <-; eauto.
Defined.

(** A visible connection beyond PostgreSQL's integer, which a grant may name,
    makes the list no array: the statement then yields none of the caller's
    rows. *)
Example large_id_reads_nothing :
  let vis := {| All := false; IDs := [5; 3000000000]%Z; SystemAlerts := false |} in
  map (fun r => r "id")
    (scan_rows demo_database (snd (built_of early vis))
       (statement_scan (plan metricBaselinesSource (form_of (request_of early) vis)))) = [].
Proof. vm_compute. reflexivity. Qed.

Lemma query_within_limits_witness :
  exists front limit offset,
    snd (built_of early five_six) = (front ++ [PInt64 limit; PInt64 offset])%list /\
    (limit <= 1001)%Z.
Proof.
  destruct (query_within_limits early (request_of early) metricBaselinesSource five_six noon
              (fst (built_of early five_six)) (snd (built_of early five_six)))
    as (front & limit & offset & Hparams & _ & Hlimit & _); [vm_compute; reflexivity..|].
  exists front, limit, offset. split; [exact Hparams|lia].
Defined.

(** ** The tool *)

Definition answered : cursor :=
  {| cur_names := []; cur_rows := []; cur_error := None; cur_cancelled := false;
     cur_commit := None |}.

(** A datastore that answers every statement with no rows, and masking that
    drops the whole text. *)
Definition demo_env : tool_env :=
  {| te_catalog := Some demo_catalog; te_begin := None; te_query := fun _ _ => Ok answered;
     te_context_done := false; te_missing := fun _ => Ok false; te_suggestions := [];
     FormatResults := fun _ _ => ""; RedactStatementText := fun _ => "?" |}.

(** A catalog with the pg_stat_activity probe, and a datastore that answers
    with two of its rows, each with the statement masked in SQL and as
    stored. *)
Definition activity_catalog : catalog_answers :=
  {| probe_relation := fun name =>
       Ok (Some {| rel_Name := name; rel_Description := "Activity.";
                  rel_HasBookkeeping := true |});
     probe_relations := Ok [];
     probe_columns := fun _ =>
       Ok {| scanned := [Ok ("connection_id", typeInteger); Ok ("collected_at", typeTimestamptz);
                         Ok ("pid", typeInteger); Ok ("query", typeText)];
             iteration_failed := false |} |}.

Definition activity : cursor :=
  {| cur_names := ["pid"; "query"; "_raw_statement_query"];
     cur_rows := [Ok [COther "11"; CText "SELECT"; CText "SELECT 'secret'"];
                  Ok [COther "12"; CNull; CNull]];
     cur_error := None; cur_cancelled := false; cur_commit := None |}.

Definition activity_env : tool_env :=
  {| te_catalog := Some activity_catalog; te_begin := None; te_query := fun _ _ => Ok activity;
     te_context_done := false; te_missing := fun _ => Ok false; te_suggestions := [];
     FormatResults := fun names rows =>
       join "|" names ++ newline ++ join newline (map (fun r => join "|" (map cell_text r)) rows);
     RedactStatementText := fun text => "[" ++ FormatInt (Z.of_nat (String.length text)) ++ "]" |}.

Definition activity_args : any_map :=
  [("source", AString "pg_stat_activity"); ("columns", AList [AString "pid"; AString "query"])].

Definition activity_answer : response * list event :=
  queryDatastoreHandler activity_env demo_checker (Some (Ok demo_connections)) ada noon activity_args.

Definition activity_text : string :=
  match fst activity_answer with ToolSuccess text => text | _ => "" end.

Lemma statement_text_masked_witness :
  activity_text = "Datastore Query: pg_stat_activity" ++ newline ++ newline ++
    "Results (rows 1-2):" ++ newline ++ "pid|query" ++ newline ++ "11|[15]" ++ newline ++
    "12|<nil>" /\
  exists req src,
    parseDatastoreRequest activity_args = Ok req /\
    lookupDatastoreSource (te_catalog activity_env) (Source req) = Ok src.
Proof.
  split; [vm_compute; reflexivity|].
  destruct (statement_text_masked activity_env demo_checker (Some (Ok demo_connections)) ada noon
              activity_args activity_text (snd activity_answer)) as (req & src & Hreq & Hsrc & _).
  - intros q ps cur row [= <-] Hrow.
    apply list_elem_of_In in Hrow as [[= <-]|[[= <-]|[]]]; reflexivity.
  - vm_compute. reflexivity.
  - exists req, src. split; [exact Hreq|exact Hsrc].
Defined.

Definition sent_by_ada : list event :=
  snd (queryDatastoreHandler demo_env demo_checker (Some (Ok demo_connections)) ada noon early).

Lemma demo_known : known_connections demo_lookup demo_database.
Proof.
  intros c Hc Hlive. simpl in Hc. destruct Hc as [<-|[<-|[<-|[]]]]; [| |discriminate].
  - exists 5%Z. done.
  - exists 6%Z. done.
Defined.


(** A call by ada that names connection 9, which she may not read. *)
Definition nine_args : any_map :=
  [("source", AString "metric_baselines"); ("connection_ids", AList [AInt 9])].

