(* ===== verification/ConnString.v ===== *)
(** * Connection strings (pkg/connstring)

    Building libpq connection strings (connstring.go) and removing the
    passwords from one (redact.go), on bytes.  An error is [None]; the code
    has one, [errMalformed].  [RedactPasswords] calls itself on the value of
    a dbname, which is shorter than the string it stands in: the recursion
    carries the string's length as fuel, and [RedactPasswords_unfold] of
    ConnGrammar shows that more changes nothing. *)
From stdpp Require Import base list strings.
From Stdlib Require Import Ascii ZArith.
From S2P Require Import Prelude GoStrings AuditText.

Local Open Scope list_scope.

(** ** Go's standard library *)

(** [strings.ReplaceAll] of one byte. *)
Definition replace_all (c : ascii) (by_ : bytes) (s : bytes) : bytes :=
  flat_map (fun x => if Ascii.eqb x c then by_ else [x]) s.

(** [strings.IndexByte] and [IndexAny]: the first byte that [p] accepts. *)
Fixpoint index_where (p : ascii -> bool) (s : bytes) : option nat :=
  match s with
  | [] => None
  | c :: s' => if p c then Some 0 else S <$> index_where p s'
  end.

(** [strings.Split] at one byte. *)
Fixpoint split_bytes (c : ascii) (s : bytes) : list bytes :=
  match s with
  | [] => [[]]
  | x :: s' =>
      if Ascii.eqb x c then [] :: split_bytes c s'
      else match split_bytes c s' with
           | part :: parts => (x :: part) :: parts
           | [] => [[x]]
           end
  end.

(** [strings.Join]. *)
Fixpoint join_bytes (sep : bytes) (l : list bytes) : bytes :=
  match l with
  | [] => []
  | [s] => s
  | s :: l' => s ++ sep ++ join_bytes sep l'
  end.

(** [url.PathUnescape]: percent escapes decoded; [None] for a bad one. *)
Fixpoint PathUnescape (s : bytes) : option bytes :=
  match s with
  | [] => Some []
  | c :: s1 =>
      if Ascii.eqb c "%" then
        match s1 with
        | a :: b :: s2 =>
            h ← hex_digit a; l ← hex_digit b;
            rest ← PathUnescape s2; Some (chr (16 * h + l) :: rest)
        | _ => None
        end
      else rest ← PathUnescape s1; Some (c :: rest)
  end.

(** The loop [for i < n && p(s[i]) { i++ }]. *)
Fixpoint span_while (p : ascii -> bool) (s : bytes) : nat :=
  match s with
  | c :: s' => if p c then S (span_while p s') else 0
  | [] => 0
  end.

Definition skip_bytes (p : ascii -> bool) (s : bytes) (i : nat) : nat :=
  i + span_while p (drop i s).

(** ** Building (connstring.go) *)

Definition EscapeValue (value : bytes) : bytes :=
  let value := replace_all backslash [backslash; backslash] value in
  replace_all squote [squote; squote] value.

(** The parameters in the order in which the map is ranged over. *)
Definition Build (params : list (bytes * bytes)) : bytes :=
  join_bytes [space]
    (map (fun kv => fst kv ++ lit "='" ++ EscapeValue (snd kv) ++ [squote]) params).

(** datastoreconfig.DatastoreConfig. *)
Record DatastoreConfig := {
  Host : bytes;
  HostAddr : bytes;
  Database : bytes;
  cfg_Username : bytes;
  Password : bytes;
  PasswordFile : bytes;
  Port : Z;
  SSLMode : bytes;
  SSLCert : bytes;
  SSLKey : bytes;
  SSLRootCert : bytes;
}.

Definition nonempty_param (key : string) (value : bytes) : list (bytes * bytes) :=
  match value with [] => [] | _ => [(lit key, value)] end.

Definition config_params (cfg : DatastoreConfig) (applicationName : bytes)
    : list (bytes * bytes) :=
  [(lit "dbname", Database cfg); (lit "user", cfg_Username cfg)] ++
  nonempty_param "hostaddr" (HostAddr cfg) ++
  nonempty_param "host" (Host cfg) ++
  (if (Port cfg =? 0)%Z then [] else [(lit "port", lit (FormatInt (Port cfg)))]) ++
  nonempty_param "password" (Password cfg) ++
  nonempty_param "sslmode" (SSLMode cfg) ++
  nonempty_param "sslcert" (SSLCert cfg) ++
  nonempty_param "sslkey" (SSLKey cfg) ++
  nonempty_param "sslrootcert" (SSLRootCert cfg) ++
  nonempty_param "application_name" applicationName.

(** [ranged] is the order in which the map is ranged over. *)
Definition BuildFromConfig (ranged : list (bytes * bytes) -> list (bytes * bytes))
    (cfg : DatastoreConfig) (applicationName : bytes) : bytes :=
  Build (ranged (config_params cfg applicationName)).

(** ** Redaction (redact.go) *)

Definition RedactedPassword : bytes := lit "********".

Definition uriPrefixes : list bytes := [lit "postgresql://"; lit "postgres://"].

Definition isConnSpace (c : ascii) : bool :=
  existsb (Ascii.eqb c) [" "; chr 9; chr 10; chr 11; chr 12; chr 13]%char.

Section Redact.
Context `{UnicodeCase}.

Definition isPasswordKey (key : bytes) : bool :=
  let key := ToLower key in
  bytes_eqb key (lit "password") || bytes_eqb key (lit "sslpassword").

Definition hasURIPrefix (s : bytes) : bool := existsb (HasPrefix s) uriPrefixes.

Record span := { sp_start : nat; sp_end : nat; sp_decoded : bytes }.

(** A quoted value, from just after the quote: what it decodes to and how many
    bytes it takes with the closing quote. *)
Fixpoint scan_quoted (s dec : bytes) (i : nat) : option (bytes * nat) :=
  match s with
  | [] => None
  | c :: s1 =>
      if Ascii.eqb c backslash then
        match s1 with
        | [] => None
        | d :: s2 => scan_quoted s2 (dec ++ [d]) (S (S i))
        end
      else if Ascii.eqb c squote then Some (dec, S i)
      else scan_quoted s1 (dec ++ [c]) (S i)
  end.

Fixpoint scan_bare (s dec : bytes) (i : nat) : bytes * nat :=
  match s with
  | [] => (dec, i)
  | c :: s1 =>
      if isConnSpace c then (dec, i)
      else if Ascii.eqb c backslash then
        match s1 with
        | [] => (dec, S i)
        | d :: s2 => scan_bare s2 (dec ++ [d]) (S (S i))
        end
      else scan_bare s1 (dec ++ [c]) (S i)
  end.

Definition scanKeywordValue (s : bytes) (i : nat) : option (span * nat) :=
  if byte_at s i squote then
    '(dec, next) ← scan_quoted (drop (S i) s) [] (S i);
    Some ({| sp_start := i; sp_end := next; sp_decoded := dec |}, next)
  else
    let '(dec, next) := scan_bare (drop i s) [] i in
    Some ({| sp_start := i; sp_end := next; sp_decoded := dec |}, next).

Definition looksLikeConnString (s : bytes) : bool :=
  hasURIPrefix s || match index_where (Ascii.eqb "=") s with Some _ => true | None => false end.

Fixpoint queryStart_from (inBrackets : bool) (s : bytes) : option nat :=
  match s with
  | [] => None
  | c :: s' =>
      if Ascii.eqb c "[" then S <$> queryStart_from true s'
      else if Ascii.eqb c "]" then S <$> queryStart_from false s'
      else if Ascii.eqb c "?" && negb inBrackets then Some 0
      else S <$> queryStart_from inBrackets s'
  end.

Definition queryStart (s : bytes) : option nat := queryStart_from false s.

(** The value of a password parameter of a query string replaced. *)
Definition redact_param (param : bytes) : bytes :=
  match index_where (Ascii.eqb "=") param with
  | None => param
  | Some eq =>
      let key := take eq param in
      let key := default key (PathUnescape key) in
      if isPasswordKey key then take (S eq) param ++ RedactedPassword else param
  end.

(** The user information, with what follows it. *)
Definition redact_userinfo (rest : bytes) : bytes * bytes :=
  match index_where (fun c => Ascii.eqb c "@" || Ascii.eqb c "/") rest with
  | Some at_ =>
      if byte_at rest at_ "@" then
        let userinfo := take at_ rest in
        let userinfo :=
          match index_where (Ascii.eqb ":") userinfo with
          | Some colon =>
              if (S colon <? length userinfo)%nat
              then take (S colon) userinfo ++ RedactedPassword else userinfo
          | None => userinfo
          end in
        (userinfo ++ lit "@", drop (S at_) rest)
      else ([], rest)
  | None => ([], rest)
  end.

Definition redactURI (s : bytes) : bytes :=
  let prefixLen := match List.find (HasPrefix s) uriPrefixes with
                   | Some p => length p
                   | None => 0
                   end in
  let '(userinfo, rest) := redact_userinfo (drop prefixLen s) in
  take prefixLen s ++ userinfo ++
  match queryStart rest with
  | None => rest
  | Some q =>
      take (S q) rest ++
      join_bytes (lit "&") (map redact_param (split_bytes "&" (drop (S q) rest)))
  end.

Definition key_byte (c : ascii) : bool := negb (Ascii.eqb c "=") && negb (isConnSpace c).

Record replacement := { rep_start : nat; rep_end : nat; rep_with : bytes }.

(** What replaces a value, if anything; [redact] is [RedactPasswords]. *)
Definition replace_value (redact : bytes -> bytes) (key : bytes) (val : span)
    : list replacement :=
  let rep with_ := [{| rep_start := sp_start val; rep_end := sp_end val; rep_with := with_ |}] in
  if isPasswordKey key then rep RedactedPassword
  else if EqualFoldASCII key (lit "DBNAME") && looksLikeConnString (sp_decoded val) then
    let inner := redact (sp_decoded val) in
    if bytes_eqb inner (sp_decoded val) then []
    else rep ([squote] ++ EscapeValue inner ++ [squote])
  else [].

(** One round of the loop over the pairs; the result is [None] for a malformed
    string. *)
Definition kv_step (redact : bytes -> bytes) (s : bytes) (st : nat * list replacement)
    : (nat * list replacement) + option (list replacement) :=
  let '(i, reps) := st in
  let i := skip_bytes isConnSpace s i in
  if length s <=? i then inr (Some reps)
  else
    let keyEnd := skip_bytes key_byte s i in
    let key := slice i keyEnd s in
    let i := skip_bytes isConnSpace s keyEnd in
    if negb (byte_at s i "=") then inr None
    else
      let i := skip_bytes isConnSpace s (S i) in
      match scanKeywordValue s i with
      | None => inr None
      | Some (val, next) => inl (next, reps ++ replace_value redact key val)
      end.

Fixpoint apply_replacements (s : bytes) (last : nat) (reps : list replacement) : bytes :=
  match reps with
  | [] => drop last s
  | r :: reps => slice last (rep_start r) s ++ rep_with r ++ apply_replacements s (rep_end r) reps
  end.

Definition redactKeywordValue (redact : bytes -> bytes) (s : bytes) : option bytes :=
  reps ← run (fun st => length s - fst st) (kv_step redact s) None (0, []);
  match reps with
  | [] => Some s
  | _ => Some (apply_replacements s 0 reps)
  end.

Fixpoint RedactPasswords_from (fuel : nat) (conninfo : bytes) : bytes :=
  match fuel with
  | O => RedactedPassword
  | S fuel =>
      if hasURIPrefix conninfo then redactURI conninfo
      else default RedactedPassword (redactKeywordValue (RedactPasswords_from fuel) conninfo)
  end.

Definition RedactPasswords (conninfo : bytes) : bytes :=
  RedactPasswords_from (S (length conninfo)) conninfo.
End Redact.
