(* ===== verification/ConnGrammar.v ===== *)
(** * Connection strings: grammars and theorems

    libpq's keyword=value format as a grammar, and that [redactKeywordValue]
    accepts exactly the strings of the grammar and replaces in them exactly
    the values that hold a password; and the URIs libpq reads as a record with
    its text, of which [RedactPasswords] shows everything but the passwords. *)
From stdpp Require Import base list strings.
From Stdlib Require Import Ascii ZArith.
From S2P Require Import Prelude GoStrings AuditText ConnString.

Local Open Scope list_scope.

(** ** The grammar *)

Definition spaces (w : bytes) : Prop := Forall (fun c => isConnSpace c = true) w.

(** The inside of a quoted value, with what it stands for. *)
Inductive quoted : bytes -> bytes -> Prop :=
| quoted_nil : quoted [] []
| quoted_escape d b dec : quoted b dec -> quoted (backslash :: d :: b) (d :: dec)
| quoted_byte c b dec :
    Ascii.eqb c backslash = false -> Ascii.eqb c squote = false ->
    quoted b dec -> quoted (c :: b) (c :: dec).

(** An unquoted value before [rest]: it ends at white space or with the
    string, where a last backslash stands for nothing. *)
Inductive bare : bytes -> bytes -> bytes -> Prop :=
| bare_end : bare [] [] []
| bare_space c rest : isConnSpace c = true -> bare [] [] (c :: rest)
| bare_cut : bare [backslash] [] []
| bare_escape d b dec rest :
    bare b dec rest -> bare (backslash :: d :: b) (d :: dec) rest
| bare_byte c b dec rest :
    isConnSpace c = false -> Ascii.eqb c backslash = false ->
    bare b dec rest -> bare (c :: b) (c :: dec) rest.

Inductive value_of : bytes -> bytes -> bytes -> Prop :=
| value_quoted b dec rest : quoted b dec -> value_of (squote :: b ++ [squote]) dec rest
| value_bare raw dec rest :
    bare raw dec rest -> head raw <> Some squote -> (raw = [] -> rest = []) ->
    value_of raw dec rest.

(** A pair as written: the white space before it, the keyword, the white space
    around the equals sign, the value as written and what it stands for. *)
Record setting := {
  before : bytes;
  key : bytes;
  gap : bytes;
  gap' : bytes;
  raw : bytes;
  decoded : bytes;
}.

Definition setting_head (p : setting) : bytes := before p ++ key p ++ gap p ++ "="%char :: gap' p.
Definition setting_text (p : setting) : bytes := setting_head p ++ raw p.

Record setting_ok (p : setting) (rest : bytes) : Prop := {
  ok_before : spaces (before p);
  ok_key : Forall (fun c => key_byte c = true) (key p);
  ok_gap : spaces (gap p);
  ok_empty : key p = [] -> gap p = [];
  ok_gap' : spaces (gap' p);
  ok_value : value_of (raw p) (decoded p) rest;
}.

Inductive conninfo : bytes -> list setting -> bytes -> Prop :=
| conninfo_end w : spaces w -> conninfo w [] w
| conninfo_setting p rest ps tail :
    setting_ok p rest -> conninfo rest ps tail ->
    conninfo (setting_text p ++ rest) (p :: ps) tail.

(** ** Positions *)

Lemma drop_of_app (s a b : bytes) i : drop i s = a ++ b -> drop (i + length a) s = b.
Proof. intros Hs. by rewrite <- drop_drop, Hs, drop_app_length. Qed.

Lemma span_while_app p a b :
  Forall (fun c => p c = true) a -> (forall c, head b = Some c -> p c = false) ->
  span_while p (a ++ b) = length a.
Proof.
  intros Ha Hb. induction Ha as [|c a Hc _ IH]; simpl.
  - destruct b as [|c b]; [done|]. simpl. by rewrite Hb.
  - by rewrite Hc, IH.
Qed.

Lemma skip_bytes_app p s i a b :
  drop i s = a ++ b -> Forall (fun c => p c = true) a ->
  (forall c, head b = Some c -> p c = false) -> skip_bytes p s i = i + length a.
Proof. intros Hs Ha Hb. unfold skip_bytes. by rewrite Hs, span_while_app. Qed.

Lemma span_while_split p s :
  exists a b, s = a ++ b /\ Forall (fun c => p c = true) a /\
    (forall c, head b = Some c -> p c = false) /\ span_while p s = length a.
Proof.
  induction s as [|c s (a & b & -> & Ha & Hb & Hn)]; [by exists [], []|].
  simpl. destruct (p c) eqn:Hc.
  - exists (c :: a), b. rewrite Hn. split_and!; [done|by constructor|done|done].
  - exists [], (c :: a ++ b). split_and!; [done|done| |done]. by intros ? [= <-].
Qed.

Lemma skip_split p s i :
  exists a b, drop i s = a ++ b /\ Forall (fun c => p c = true) a /\
    (forall c, head b = Some c -> p c = false) /\ skip_bytes p s i = i + length a.
Proof.
  destruct (span_while_split p (drop i s)) as (a & b & Hs & Ha & Hb & Hn).
  exists a, b. unfold skip_bytes. by rewrite Hn.
Qed.

Lemma byte_at_dropped s i c b : drop i s = b -> byte_at s i c = bool_decide (head b = Some c).
Proof.
  intros <-. unfold byte_at. rewrite <- (Nat.add_0_r i) at 1. rewrite <- lookup_drop.
  destruct (drop i s) as [|x b]; simpl; [done|].
  destruct (Ascii.eqb_spec x c) as [->|Hne]; symmetry; [by apply bool_decide_eq_true|].
  apply bool_decide_eq_false. by intros [= ->].
Qed.

Lemma slice_app s i a b : drop i s = a ++ b -> slice i (i + length a) s = a.
Proof.
  intros Hs. unfold slice. rewrite Hs, Nat.add_comm, Nat.add_sub, take_app_length. done.
Qed.

(** ** Values *)

Lemma scan_quoted_complete b dec rest acc i :
  quoted b dec -> scan_quoted (b ++ squote :: rest) acc i = Some (acc ++ dec, i + S (length b)).
Proof.
  intros Hq. revert acc i. induction Hq as [|d b dec _ IH|c b dec Hb Hs _ IH]; intros acc i; simpl.
  - rewrite app_nil_r. do 2 f_equal. lia.
  - rewrite IH, <- (assoc_L (++)). do 2 f_equal. simpl. lia.
  - rewrite Hb, Hs, IH, <- (assoc_L (++)). do 2 f_equal. simpl. lia.
Qed.

Lemma scan_quoted_sound s acc i d n :
  scan_quoted s acc i = Some (d, n) ->
  exists b dec rest, s = b ++ squote :: rest /\ quoted b dec /\ d = acc ++ dec /\ n = i + S (length b).
Proof.
  revert acc i. induction s as [s IH] using (induction_ltof1 _ length). intros acc i.
  destruct s as [|c s1]; simpl; [done|]. destruct (Ascii.eqb c backslash) eqn:Hb.
  - destruct s1 as [|e s2]; [done|]. intros Hs. apply Ascii.eqb_eq in Hb as ->.
    apply IH in Hs as (b & dec & rest & -> & Hq & -> & ->); [|unfold ltof; simpl; lia].
    exists (backslash :: e :: b), (e :: dec), rest. rewrite <- (assoc_L (++)).
    split_and!; [done|by constructor|done|simpl; lia].
  - destruct (Ascii.eqb c squote) eqn:Hq.
    + intros [= <- <-]. apply Ascii.eqb_eq in Hq as ->. exists [], [], s1.
      rewrite app_nil_r. split_and!; [done|constructor|done|simpl; lia].
    + intros Hs. apply IH in Hs as (b & dec & rest & -> & Hd & -> & ->); [|unfold ltof; simpl; lia].
      exists (c :: b), (c :: dec), rest. rewrite <- (assoc_L (++)).
      split_and!; [done|by constructor|done|simpl; lia].
Qed.

Lemma scan_bare_complete b dec rest acc i :
  bare b dec rest -> scan_bare (b ++ rest) acc i = (acc ++ dec, i + length b).
Proof.
  intros Hb. revert acc i.
  induction Hb as [|c rest Hc| |d b dec rest _ IH|c b dec rest Hc Hb _ IH]; intros acc i; simpl;
    rewrite ?app_nil_r.
  - f_equal. lia.
  - rewrite Hc. f_equal. lia.
  - f_equal. lia.
  - rewrite IH, <- (assoc_L (++)). f_equal. lia.
  - rewrite Hc, Hb, IH, <- (assoc_L (++)). f_equal. lia.
Qed.

Lemma scan_bare_sound s acc i d n :
  scan_bare s acc i = (d, n) ->
  exists b dec rest, s = b ++ rest /\ bare b dec rest /\ d = acc ++ dec /\ n = i + length b.
Proof.
  revert acc i. induction s as [s IH] using (induction_ltof1 _ length). intros acc i.
  destruct s as [|c s1]; simpl.
  { intros [= <- <-]. exists [], [], []. rewrite !app_nil_r.
    split_and!; [done|apply bare_end|done|simpl; lia]. }
  destruct (isConnSpace c) eqn:Hc.
  { intros [= <- <-]. exists [], [], (c :: s1). rewrite !app_nil_r.
    split_and!; [done|by constructor|done|simpl; lia]. }
  destruct (Ascii.eqb c backslash) eqn:Hb.
  - apply Ascii.eqb_eq in Hb as ->. destruct s1 as [|e s2].
    { intros [= <- <-]. exists [backslash], [], []. rewrite !app_nil_r.
      split_and!; [done|constructor|done|simpl; lia]. }
    intros Hs. apply IH in Hs as (b & dec & rest & -> & Hq & -> & ->); [|unfold ltof; simpl; lia].
    exists (backslash :: e :: b), (e :: dec), rest. rewrite <- (assoc_L (++)).
    split_and!; [done|by constructor|done|simpl; lia].
  - intros Hs. apply IH in Hs as (b & dec & rest & -> & Hq & -> & ->); [|unfold ltof; simpl; lia].
    exists (c :: b), (c :: dec), rest. rewrite <- (assoc_L (++)).
    split_and!; [done|by constructor|done|simpl; lia].
Qed.

Lemma scan_value_complete s i r dec rest :
  drop i s = r ++ rest -> value_of r dec rest ->
  scanKeywordValue s i =
    Some ({| sp_start := i; sp_end := i + length r; sp_decoded := dec |}, i + length r).
Proof.
  intros Hs Hv. unfold scanKeywordValue. rewrite (byte_at_dropped s i squote _ Hs).
  destruct Hv as [b dec rest Hq|r dec rest Hb Hh He].
  - rewrite bool_decide_eq_true_2 by done.
    assert (drop (S i) s = b ++ squote :: rest) as ->.
    { rewrite <- Nat.add_1_r. apply (drop_of_app s [squote]). rewrite Hs. simpl.
      by rewrite <- (assoc_L (++)). }
    rewrite (scan_quoted_complete _ _ _ _ _ Hq). simpl. rewrite length_app. simpl.
    replace (S (i + S (length b))) with (i + S (length b + 1)) by lia. done.
  - rewrite bool_decide_eq_false_2; [by rewrite Hs, (scan_bare_complete _ _ _ _ _ Hb)|].
    destruct r as [|c r]; [|done]. rewrite (He eq_refl). done.
Qed.

Lemma scan_value_sound s i val n :
  (forall c, head (drop i s) = Some c -> isConnSpace c = false) ->
  scanKeywordValue s i = Some (val, n) ->
  exists r dec rest, drop i s = r ++ rest /\ value_of r dec rest /\ n = i + length r /\
    val = {| sp_start := i; sp_end := i + length r; sp_decoded := dec |}.
Proof.
  intros Hhead. unfold scanKeywordValue. rewrite (byte_at_dropped s i squote _ eq_refl).
  case_bool_decide as Hq.
  - destruct (scan_quoted (drop (S i) s) [] (S i)) as [[d m]|] eqn:Hs; [|done].
    apply scan_quoted_sound in Hs as (b & dec & rest & Hs & Hqb & -> & ->).
    intros [= <- <-]. exists (squote :: b ++ [squote]), dec, rest. split_and!.
    + rewrite <- (take_drop 1 (drop i s)), drop_drop, Nat.add_1_r, Hs.
      destruct (drop i s) as [|c t]; [done|]. injection Hq as ->. simpl.
      by rewrite <- (assoc_L (++)).
    + by constructor.
    + simpl. rewrite length_app. simpl. lia.
    + simpl. rewrite length_app. simpl. f_equal. lia.
  - destruct (scan_bare (drop i s) [] i) as [d m] eqn:Hs.
    apply scan_bare_sound in Hs as (b & dec & rest & Hs & Hb & -> & ->).
    intros [= <- <-]. exists b, dec, rest. split_and!; [done| |done|done].
    constructor; [done| |].
    + rewrite Hs in Hq. by destruct b.
    + intros ->. destruct rest as [|c rest]; [done|]. rewrite Hs in Hhead.
      specialize (Hhead c eq_refl). inversion Hb; congruence.
Qed.

(** ** Pairs *)

Section Exact.
Context `{UnicodeCase}.
Context (redact : bytes -> bytes).

(** The value a pair is shown with. *)
Definition shown_value (p : setting) : bytes :=
  if isPasswordKey (key p) then RedactedPassword
  else if EqualFoldASCII (key p) (lit "DBNAME") && looksLikeConnString (decoded p) then
    let inner := redact (decoded p) in
    if bytes_eqb inner (decoded p) then raw p
    else [squote] ++ EscapeValue inner ++ [squote]
  else raw p.

Definition shown_setting (p : setting) : bytes := setting_head p ++ shown_value p.

(** The replacements a pair at position [i] gives rise to. *)
Definition replacements_at (i : nat) (p : setting) : list replacement :=
  let start := i + length (setting_head p) in
  replace_value redact (key p)
    {| sp_start := start; sp_end := start + length (raw p); sp_decoded := decoded p |}.

Lemma space_not_key c : isConnSpace c = true -> key_byte c = false.
Proof. unfold key_byte. intros ->. apply andb_false_r. Qed.

Lemma eq_not_space : isConnSpace "=" = false.
Proof. done. Qed.

Lemma value_head r dec rest c :
  value_of r dec rest -> head (r ++ rest) = Some c -> isConnSpace c = false.
Proof.
  intros [b d rest' _|r' d rest' Hb _ He]; simpl; [by intros [= <-]|].
  destruct Hb; simpl; try done.
  - by specialize (He eq_refl).
  - by intros [= <-].
  - by intros [= <-].
  - by intros [= <-].
Qed.

Lemma key_end_head w t :
  spaces w -> forall c, head (w ++ "="%char :: t) = Some c -> key_byte c = false.
Proof. intros Hw c. destruct Hw as [|x w Hx _]; intros [= <-]; [done|]. by apply space_not_key. Qed.

Lemma kv_step_setting s i reps p rest :
  drop i s = setting_text p ++ rest -> setting_ok p rest ->
  kv_step redact s (i, reps) =
    inl (i + length (setting_text p), reps ++ replacements_at i p).
Proof.
  intros Hs [Hb Hk Hg He Hg' Hv]. unfold setting_text, setting_head in Hs.
  rewrite <- !(assoc_L (++)) in Hs. cbn [app] in Hs. unfold kv_step.
  assert (drop (i + length (before p)) s =
          key p ++ gap p ++ "="%char :: gap' p ++ raw p ++ rest) as H1 by (by apply drop_of_app).
  rewrite (skip_bytes_app _ _ _ _ _ Hs Hb); [|].
  2: { intros c. destruct (key p) as [|x k] eqn:Hkey; simpl.
       - rewrite (He eq_refl). by intros [= <-].
       - intros [= <-]. inversion Hk as [|?? Hx]; subst. unfold key_byte in Hx.
         apply andb_true_iff in Hx as [_ Hx]. by apply negb_true_iff in Hx. }
  assert ((length s <=? i + length (before p)) = false) as ->.
  { apply Nat.leb_gt. apply (f_equal length) in H1. rewrite length_drop, !length_app in H1.
    simpl in H1. lia. }
  rewrite (skip_bytes_app _ _ _ _ _ H1 Hk); [|by apply key_end_head].
  rewrite (slice_app _ _ _ _ H1). apply drop_of_app in H1.
  rewrite (skip_bytes_app _ _ _ _ _ H1 Hg); [|by intros c [= <-]].
  apply drop_of_app in H1. rewrite (byte_at_dropped _ _ _ _ H1), bool_decide_eq_true_2 by done.
  cbn [negb]. set (j := i + length (before p) + length (key p) + length (gap p)) in *.
  assert (drop (S j) s = gap' p ++ raw p ++ rest) as H2.
  { rewrite <- Nat.add_1_r. by apply (drop_of_app s ["="%char]). }
  rewrite (skip_bytes_app _ _ _ _ _ H2 Hg'); [|by intros c; eapply value_head].
  apply drop_of_app in H2. rewrite (scan_value_complete _ _ _ _ _ H2 Hv).
  assert (S j + length (gap' p) = i + length (setting_head p)) as Hj.
  { unfold setting_head, j. rewrite !length_app. simpl. lia. }
  rewrite Hj. unfold replacements_at, setting_text. rewrite length_app. do 2 f_equal. lia.
Qed.

Lemma kv_step_end s i reps : spaces (drop i s) -> i <= length s -> kv_step redact s (i, reps) = inr (Some reps).
Proof.
  intros Hs Hi. unfold kv_step.
  assert (drop i s = drop i s ++ []) as Hd by (by rewrite app_nil_r).
  rewrite (skip_bytes_app _ _ _ _ _ Hd Hs) by done.
  rewrite length_drop, (proj2 (Nat.leb_le _ _)) by lia. done.
Qed.

(** A round of the loop reads one pair, reports white space to the end, or
    finds neither. *)
Lemma kv_step_sound s i reps :
  match kv_step redact s (i, reps) with
  | inl st => exists p rest, drop i s = setting_text p ++ rest /\ setting_ok p rest /\
      st = (i + length (setting_text p), reps ++ replacements_at i p)
  | inr (Some reps') => reps' = reps /\ spaces (drop i s)
  | inr None => True
  end.
Proof.
  destruct (kv_step redact s (i, reps)) as [st|[reps'|]] eqn:Hstep; [| |done].
  all: revert Hstep; unfold kv_step;
    destruct (skip_split isConnSpace s i) as (w & t & Hs & Hw & Ht & ->).
  all: pose proof (drop_of_app _ _ _ _ Hs) as Hd.
  all: destruct (length s <=? i + length w) eqn:Hend.
  all: try (intros [= <-]; split; [done|]).
  all: try done.
  2: { apply Nat.leb_le in Hend. assert (t = []) as ->.
       { apply (f_equal length) in Hd. rewrite length_drop in Hd.
         destruct t; [done|]. simpl in Hd. lia. }
       rewrite Hs, app_nil_r. exact Hw. }
  all: destruct (skip_split key_byte s (i + length w)) as (k & t2 & Hk & Hkb & Ht2 & ->).
  all: rewrite (slice_app _ _ _ _ Hk); pose proof (drop_of_app _ _ _ _ Hk) as Hd2.
  all: destruct (skip_split isConnSpace s (i + length w + length k)) as (g & t3 & Hg & Hgs & Ht3 & ->).
  all: pose proof (drop_of_app _ _ _ _ Hg) as Hd3; rewrite (byte_at_dropped _ _ _ _ Hd3).
  all: case_bool_decide as Heq; [|done]; cbn [negb].
  all: set (j := i + length w + length k + length g) in *.
  all: destruct (skip_split isConnSpace s (S j)) as (g' & t4 & Hg' & Hgs' & Ht4 & ->).
  all: pose proof (drop_of_app _ _ _ _ Hg') as Hd4.
  all: destruct (scanKeywordValue s (S j + length g')) as [[val n]|] eqn:Hscan; [|done].
  2: done.
  apply scan_value_sound in Hscan as (r & dec & rest & Hr & Hv & -> & ->); [|by rewrite Hd4].
  intros [= <-].
  set (p := {| before := w; key := k; gap := g; gap' := g'; raw := r; decoded := dec |}).
  assert (S j + length g' = i + length (setting_head p)) as Hj.
  { unfold setting_head, j. simpl. rewrite !length_app. simpl. lia. }
  exists p, rest. split_and!.
  - unfold setting_text, setting_head. simpl. rewrite <- !(assoc_L (++)). cbn [app].
    rewrite Hs. f_equal. rewrite <- Hd, Hk. f_equal. rewrite <- Hd2, Hg. f_equal.
    destruct t3 as [|c t3]; [done|]. injection Heq as ->. f_equal.
    assert (drop (S j) s = t3) as <-.
    { rewrite <- Nat.add_1_r. by apply (drop_of_app s ["="%char]). }
    rewrite Hg'. f_equal. by rewrite <- Hd4, Hr.
  - constructor; try done. simpl. intros ->. cbn [length] in Hg. rewrite Nat.add_0_r, Hd in Hg.
    destruct g as [|c g]; [done|]. exfalso. rewrite Hg in Ht. specialize (Ht c eq_refl).
    inversion Hgs. congruence.
  - unfold replacements_at. rewrite <- Hj. unfold setting_text. rewrite length_app, Nat.add_assoc, <- Hj.
    done.
Qed.

Lemma kv_step_decreases s : decreases (fun st => length s - fst st) (kv_step redact s).
Proof.
  intros [i reps] st' Hstep. pose proof (kv_step_sound s i reps) as Hsound. rewrite Hstep in Hsound.
  destruct Hsound as (p & rest & Hs & _ & ->). apply (f_equal length) in Hs.
  rewrite length_drop, length_app in Hs. simpl.
  assert (0 < length (setting_text p)); [|lia].
  unfold setting_text, setting_head. rewrite !length_app. simpl. lia.
Qed.

(** ** Strings *)

Fixpoint all_replacements (i : nat) (ps : list setting) : list replacement :=
  match ps with
  | [] => []
  | p :: ps => replacements_at i p ++ all_replacements (i + length (setting_text p)) ps
  end.

Abbreviation pairs_of s := (run (fun st => length s - fst st) (kv_step redact s) None).

Lemma pairs_complete s i reps t ps tail :
  i <= length s -> drop i s = t -> conninfo t ps tail ->
  pairs_of s (i, reps) = Some (reps ++ all_replacements i ps).
Proof.
  intros Hi Ht Hc. revert i reps Hi Ht.
  induction Hc as [w Hw|p rest ps tail Hp _ IH]; intros i reps Hi Ht.
  - rewrite run_unfold by apply kv_step_decreases. rewrite kv_step_end by (by subst). simpl.
    by rewrite app_nil_r.
  - rewrite run_unfold by apply kv_step_decreases. rewrite (kv_step_setting _ _ _ _ _ Ht Hp).
    rewrite IH; [simpl; by rewrite <- (assoc_L (++))| |by apply drop_of_app].
    apply (f_equal length) in Ht. rewrite length_drop, length_app in Ht. lia.
Qed.

Lemma pairs_sound s st r :
  pairs_of s st = r ->
  fst st <= length s -> is_Some r -> exists ps tail, conninfo (drop (fst st) s) ps tail.
Proof.
  intros <-. apply (run_ind _ _ _ (fun st r =>
    fst st <= length s -> is_Some r -> exists ps tail, conninfo (drop (fst st) s) ps tail)).
  - apply kv_step_decreases.
  - intros [i reps] r Hstep _ [reps' ->]. pose proof (kv_step_sound s i reps) as Hs.
    rewrite Hstep in Hs. destruct Hs as [_ Hs]. exists [], (drop i s). by constructor.
  - intros [i reps] st' r Hstep IH Hi Hr. pose proof (kv_step_sound s i reps) as Hs.
    rewrite Hstep in Hs. destruct Hs as (p & rest & Hd & Hp & ->). simpl in *.
    destruct IH as (ps & tail & Hc); [|done|].
    { apply (f_equal length) in Hd. rewrite length_drop, length_app in Hd. lia. }
    rewrite (drop_of_app _ _ _ _ Hd) in Hc. rewrite Hd. eexists _, _. by constructor.
Qed.

Lemma slice_extend (s a b : bytes) last i :
  last <= i -> drop i s = a ++ b -> slice last (i + length a) s = slice last i s ++ a.
Proof.
  intros Hl Hs. unfold slice. replace (i + length a - last) with ((i - last) + length a) by lia.
  assert (drop (i - last) (drop last s) = a ++ b) as Hd.
  { rewrite drop_drop, <- Hs. f_equal. lia. }
  by rewrite <- take_take_drop, Hd, take_app_length.
Qed.

Lemma slice_nil (s : bytes) i : slice i i s = [].
Proof. unfold slice. by rewrite Nat.sub_diag. Qed.

Lemma replacements_cases i p :
  (replacements_at i p = [] /\ shown_value p = raw p) \/
  replacements_at i p =
    [{| rep_start := i + length (setting_head p); rep_end := i + length (setting_text p);
        rep_with := shown_value p |}].
Proof.
  unfold replacements_at, replace_value, shown_value, setting_text. simpl.
  rewrite length_app, Nat.add_assoc.
  destruct (isPasswordKey (key p)); [by right|].
  destruct (_ && _); [|by left]. case_match; [by left|by right].
Qed.

Lemma apply_all s t ps tail i last :
  conninfo t ps tail -> last <= i -> drop i s = t ->
  apply_replacements s last (all_replacements i ps) =
    slice last i s ++ concat (map shown_setting ps) ++ tail.
Proof.
  intros Hc. revert i last. induction Hc as [w _|p rest ps tail _ _ IH]; intros i last Hl Hs; simpl.
  - rewrite <- Hs, <- (take_drop (i - last) (drop last s)), drop_drop. unfold slice. do 2 f_equal. lia.
  - pose proof (drop_of_app _ _ _ _ Hs) as Hd.
    destruct (replacements_cases i p) as [[-> Hv] | ->]; simpl.
    + rewrite IH, (slice_extend _ _ _ _ _ Hl Hs) by (done || lia). unfold shown_setting.
      rewrite Hv. fold (setting_text p). by rewrite <- !(assoc_L (++)).
    + rewrite IH, slice_nil by (done || lia). simpl.
      assert (drop i s = setting_head p ++ raw p ++ rest) as Hh.
      { rewrite Hs. unfold setting_text. by rewrite <- (assoc_L (++)). }
      rewrite (slice_extend _ _ _ _ _ Hl Hh). unfold shown_setting. by rewrite <- !(assoc_L (++)).
Qed.

(** The redaction accepts exactly the strings of the grammar and replaces in
    them exactly the values [shown_value] replaces. *)
Lemma redactKeywordValue_exact s out :
  redactKeywordValue redact s = Some out <->
  exists ps tail, conninfo s ps tail /\ out = concat (map shown_setting ps) ++ tail.
Proof.
  assert (forall ps tail, conninfo s ps tail ->
            redactKeywordValue redact s = Some (concat (map shown_setting ps) ++ tail)) as Hcomplete.
  { intros ps tail Hc. unfold redactKeywordValue.
    rewrite (pairs_complete s 0 [] s ps tail) by (done || lia). simpl.
    pose proof (apply_all s s ps tail 0 0 Hc (le_n 0) eq_refl) as Happly.
    rewrite slice_nil in Happly. simpl in Happly. rewrite <- Happly.
    by destruct (all_replacements 0 ps). }
  split.
  - intros Hr. destruct (pairs_sound s (0, []) _ eq_refl) as (ps & tail & Hc); [simpl; lia| |].
    { unfold redactKeywordValue in Hr. destruct (pairs_of s (0, [])); [eauto|done]. }
    exists ps, tail. split; [done|]. apply Hcomplete in Hc. congruence.
  - intros (ps & tail & Hc & ->). by apply Hcomplete.
Qed.
End Exact.

Lemma quoted_length b dec : quoted b dec -> length dec <= length b.
Proof. induction 1; simpl; lia. Qed.

Lemma bare_length b dec rest : bare b dec rest -> length dec <= length b.
Proof. induction 1; simpl; lia. Qed.

Lemma decoded_length p rest : setting_ok p rest -> length (decoded p) < length (setting_text p).
Proof.
  intros Hp. unfold setting_text, setting_head. rewrite !length_app. simpl.
  destruct (ok_value _ _ Hp) as [b dec r Hq|r dec t Hb _ _].
  - apply quoted_length in Hq. simpl. rewrite length_app. lia.
  - apply bare_length in Hb. lia.
Qed.

Lemma conninfo_decoded s ps tail :
  conninfo s ps tail -> Forall (fun p => length (decoded p) < length s) ps.
Proof.
  induction 1 as [|p rest ps tail Hp _ IH]; constructor.
  - apply decoded_length in Hp. rewrite length_app. lia.
  - eapply Forall_impl; [exact IH|]. intros q Hq. simpl in *. rewrite length_app. lia.
Qed.

Section Strings.
Context `{UnicodeCase}.

(** Only the redaction of shorter strings matters. *)
Lemma redactKeywordValue_ext r r' s :
  (forall t, length t < length s -> r t = r' t) ->
  redactKeywordValue r s = redactKeywordValue r' s.
Proof.
  intros Hr. assert (forall f g out, (forall t, length t < length s -> f t = g t) ->
    redactKeywordValue f s = Some out -> redactKeywordValue g s = Some out) as Hext.
  { intros f g out Hfg (ps & tail & Hc & ->)%redactKeywordValue_exact.
    apply redactKeywordValue_exact. exists ps, tail. split; [done|]. do 2 f_equal.
    apply map_ext_Forall. eapply Forall_impl; [by eapply conninfo_decoded|].
    intros p Hp. unfold shown_setting, shown_value. by rewrite Hfg. }
  apply option_eq. intros out. split; apply Hext; [done|]. intros t Ht. symmetry. auto.
Qed.

Lemma RedactPasswords_from_enough n m s :
  length s < n -> length s < m -> RedactPasswords_from n s = RedactPasswords_from m s.
Proof.
  revert m s. induction n as [|n IH]; intros m s Hn Hm; [lia|]. destruct m as [|m]; [lia|]. simpl.
  destruct (hasURIPrefix s); [done|]. f_equal. apply redactKeywordValue_ext.
  intros t Ht. apply IH; lia.
Qed.

Lemma RedactPasswords_unfold s :
  RedactPasswords s =
    if hasURIPrefix s then redactURI s
    else default RedactedPassword (redactKeywordValue RedactPasswords s).
Proof.
  unfold RedactPasswords at 1. cbn [RedactPasswords_from].
  destruct (hasURIPrefix s); [done|]. f_equal. apply redactKeywordValue_ext.
  intros t Ht. apply RedactPasswords_from_enough; lia.
Qed.

(** C25: A connection string is shown without its passwords.  A string in
    libpq's keyword=value format, however it is spaced, quoted and escaped, is
    shown as written but for the values of password and sslpassword, which
    are replaced whole whatever they hold, and of a dbname that is itself a
    connection string, which is shown redacted; any other string that is not
    a URI is replaced whole. *)
Theorem conninfo_shown_without_passwords s :
  hasURIPrefix s = false ->
  (forall ps tail, conninfo s ps tail ->
     RedactPasswords s = concat (map (shown_setting RedactPasswords) ps) ++ tail) /\
  ((forall ps tail, ~ conninfo s ps tail) -> RedactPasswords s = RedactedPassword).
Proof.
  intros Huri. rewrite RedactPasswords_unfold, Huri. split.
  - intros ps tail Hc.
    by rewrite (proj2 (redactKeywordValue_exact RedactPasswords s _)) by eauto.
  - intros Hno. destruct (redactKeywordValue RedactPasswords s) as [out|] eqn:Hr; [|done].
    apply redactKeywordValue_exact in Hr as (ps & tail & Hc & _). by destruct (Hno ps tail).
Qed.
End Strings.

(** ** Building *)

Lemma replace_all_app c by_ s t : replace_all c by_ (s ++ t) = replace_all c by_ s ++ replace_all c by_ t.
Proof. apply flat_map_app. Qed.

(** A value without single quotes is read back as it was. *)
Lemma escaped_quoted v :
  Forall (fun c => Ascii.eqb c squote = false) v -> quoted (EscapeValue v) v.
Proof.
  unfold EscapeValue. induction 1 as [|c v Hc _ IH]; [constructor|]. simpl.
  destruct (Ascii.eqb c backslash) eqn:Hb.
  - apply Ascii.eqb_eq in Hb as ->. rewrite replace_all_app. simpl. by constructor.
  - simpl. rewrite Hc. simpl. by constructor.
Qed.

Definition built_setting (blank : bytes) (kv : bytes * bytes) : setting :=
  {| before := blank; key := fst kv; gap := []; gap' := [];
     raw := squote :: EscapeValue (snd kv) ++ [squote]; decoded := snd kv |}.

Definition built_settings (params : list (bytes * bytes)) : list setting :=
  match params with
  | [] => []
  | kv :: params => built_setting [] kv :: map (built_setting [space]) params
  end.

Lemma built_ok blank kv rest :
  spaces blank -> Forall (fun c => key_byte c = true) (fst kv) ->
  Forall (fun c => Ascii.eqb c squote = false) (snd kv) ->
  setting_ok (built_setting blank kv) rest.
Proof.
  intros Hb Hk Hv. constructor; simpl; [done|done|constructor|done|constructor|].
  constructor. by apply escaped_quoted.
Qed.

Lemma join_bytes_concat sep l s :
  join_bytes sep (s :: l) = s ++ concat (map (fun t => sep ++ t) l).
Proof.
  revert s. induction l as [|t l IH]; intros s; simpl; [by rewrite app_nil_r|].
  f_equal. rewrite <- (assoc_L (++)). f_equal. apply IH.
Qed.

Definition built_text (kv : bytes * bytes) : bytes :=
  fst kv ++ lit "='" ++ EscapeValue (snd kv) ++ [squote].

Lemma built_setting_text blank kv : setting_text (built_setting blank kv) = blank ++ built_text kv.
Proof. unfold setting_text, setting_head, built_text. simpl. by rewrite <- !(assoc_L (++)). Qed.

Definition readable (kv : bytes * bytes) : Prop :=
  Forall (fun c => key_byte c = true) (fst kv) /\
  Forall (fun c => Ascii.eqb c squote = false) (snd kv).

Lemma built_rest params :
  Forall readable params ->
  conninfo (concat (map (fun t => [space] ++ t) (map built_text params)))
    (map (built_setting [space]) params) [].
Proof.
  induction 1 as [|kv params [Hk Hv] _ IH]; simpl; [by repeat constructor|].
  change (space :: built_text kv ++ ?t) with (([space] ++ built_text kv) ++ t).
  rewrite <- built_setting_text. constructor; [|done]. apply built_ok; [by repeat constructor|done|done].
Qed.

(** C36: A connection string that is built is read back.  Whatever the
    parameters, if their names are keywords and no value holds a single quote,
    libpq's grammar reads what [Build] writes as exactly these names and
    values, in the order they are written, blanks, equals signs and
    backslashes in the values included. *)
Theorem Build_read_back params :
  Forall readable params ->
  exists ps, conninfo (Build params) ps [] /\ map (fun p => (key p, decoded p)) ps = params.
Proof.
  intros Hp. exists (built_settings params). split.
  - destruct Hp as [|kv params [Hk Hv] Hp]; [by apply (conninfo_end []), Forall_nil|].
    unfold Build. cbn [map].
    fold (built_text kv). fold built_text. rewrite join_bytes_concat.
    rewrite <- (app_nil_l (built_text kv)), <- built_setting_text.
    constructor; [apply built_ok; [constructor|done|done]|by apply built_rest].
  - destruct params as [|[k v] params]; [done|]. simpl. f_equal. rewrite map_map.
    rewrite <- (map_id params) at 2. apply map_ext. by intros [].
Qed.

(** ** URIs *)

Definition lacks (stop : list ascii) (s : bytes) : Prop :=
  Forall (fun c => existsb (Ascii.eqb c) stop = false) s.

(** A parameter of the query string: a name and, if it has one, a value. *)
Record uri_param := { param_name : bytes; param_value : option bytes }.

(** [place] is what lies between the user information and the query: the hosts
    and the database. *)
Record uri := {
  scheme : bytes;
  user : option (bytes * option bytes);   (* with the password *)
  place : bytes;
  query : list uri_param;
}.

Definition user_text (u : option (bytes * option bytes)) : bytes :=
  match u with
  | None => []
  | Some (name, None) => name ++ lit "@"
  | Some (name, Some password) => name ++ lit ":" ++ password ++ lit "@"
  end.

Definition param_text (p : uri_param) : bytes :=
  param_name p ++ match param_value p with None => [] | Some v => lit "=" ++ v end.

Definition query_text (ps : list uri_param) : bytes :=
  match ps with [] => [] | _ => lit "?" ++ join_bytes (lit "&") (map param_text ps) end.

Definition uri_text (u : uri) : bytes :=
  scheme u ++ user_text (user u) ++ place u ++ query_text (query u).

(** Hosts and database: no question mark but in the brackets of an address,
    and every bracket closed. *)
Inductive place_ok : bytes -> Prop :=
| place_nil : place_ok []
| place_byte c s : existsb (Ascii.eqb c) ["["; "?"]%char = false -> place_ok s -> place_ok (c :: s)
| place_address b s : lacks ["]"]%char b -> place_ok s -> place_ok ("["%char :: b ++ "]"%char :: s).

Definition user_ok (u : option (bytes * option bytes)) (rest : bytes) : Prop :=
  match u with
  | None => forall i, index_where (fun c => Ascii.eqb c "@" || Ascii.eqb c "/") rest = Some i ->
                      byte_at rest i "@" = false
  | Some (name, None) => lacks [":"; "@"; "/"]%char name
  | Some (name, Some password) =>
      lacks [":"; "@"; "/"]%char name /\ lacks ["@"; "/"]%char password
  end.

Record uri_ok (u : uri) : Prop := {
  ok_scheme : scheme u ∈ uriPrefixes;
  ok_user : user_ok (user u) (place u ++ query_text (query u));
  ok_place : place_ok (place u);
  ok_query : Forall (fun p => lacks ["="; "&"]%char (param_name p) /\
                              lacks ["&"]%char (default [] (param_value p))) (query u);
}.

(** ** What is shown *)

Definition hide (secret : bytes) : bytes := match secret with [] => [] | _ => RedactedPassword end.

Definition shown_user (u : option (bytes * option bytes)) : option (bytes * option bytes) :=
  match u with Some (name, Some password) => Some (name, Some (hide password)) | _ => u end.

Section Shown.
Context `{UnicodeCase}.

Definition shown_param (p : uri_param) : uri_param :=
  if isPasswordKey (default (param_name p) (PathUnescape (param_name p)))
  then {| param_name := param_name p;
          param_value := match param_value p with Some _ => Some RedactedPassword | None => None end |}
  else p.

Definition shown_uri (u : uri) : uri :=
  {| scheme := scheme u; user := shown_user (user u); place := place u;
     query := map shown_param (query u) |}.

(** ** Lemmas *)

Lemma index_where_lacks p stop a c b :
  lacks stop a -> (forall x, existsb (Ascii.eqb x) stop = false -> p x = false) -> p c = true ->
  index_where p (a ++ c :: b) = Some (length a).
Proof.
  intros Ha Hp Hc. induction Ha as [|x a Hx _ IH]; simpl; [by rewrite Hc|]. by rewrite Hp, IH.
Qed.

Lemma index_where_none p stop a :
  lacks stop a -> (forall x, existsb (Ascii.eqb x) stop = false -> p x = false) ->
  index_where p a = None.
Proof. intros Ha Hp. induction Ha as [|x a Hx _ IH]; simpl; [done|]. by rewrite Hp, IH. Qed.

(** A byte that [existsb] does not find in a list is none of its members. *)
Ltac not_in := intros x; simpl; rewrite !orb_false_iff, ?andb_true_r; intros Hx; intuition;
  rewrite ?(Ascii.eqb_sym _ x); auto using orb_false_intro.

Lemma split_bytes_app c a b :
  lacks [c] a -> split_bytes c (a ++ c :: b) = a :: split_bytes c b.
Proof.
  intros Ha. induction Ha as [|x a Hx _ IH]; simpl; [by rewrite Ascii.eqb_refl|].
  simpl in Hx. rewrite orb_false_r in Hx. by rewrite Hx, IH.
Qed.

Lemma split_bytes_lacks c a : lacks [c] a -> split_bytes c a = [a].
Proof.
  intros Ha. induction Ha as [|x a Hx _ IH]; simpl; [done|].
  simpl in Hx. rewrite orb_false_r in Hx. by rewrite Hx, IH.
Qed.

Lemma split_join c l : l <> [] -> Forall (lacks [c]) l -> split_bytes c (join_bytes [c] l) = l.
Proof.
  intros Hne Hl. induction Hl as [|s l Hs Hl IH]; [done|]. destruct l as [|t l].
  - by apply split_bytes_lacks.
  - change (join_bytes [c] (s :: t :: l)) with (s ++ c :: join_bytes [c] (t :: l)).
    rewrite split_bytes_app by done. by rewrite IH.
Qed.

Lemma queryStart_address b s :
  lacks ["]"]%char b ->
  queryStart_from true (b ++ "]"%char :: s) = (fun n => S (length b + n)) <$> queryStart_from false s.
Proof.
  induction 1 as [|c b Hc _ IH]; simpl; [by destruct (queryStart_from false s)|].
  simpl in Hc. rewrite orb_false_r in Hc. rewrite Hc, andb_false_r, IH.
  by destruct (Ascii.eqb c "["), (queryStart_from false s).
Qed.

Lemma queryStart_place s rest :
  place_ok s -> queryStart (s ++ rest) = (fun n => length s + n) <$> queryStart rest.
Proof.
  unfold queryStart. induction 1 as [|c s Hc _ IH|b s Hb _ IH].
  - simpl. by destruct (queryStart_from false rest).
  - simpl in Hc. rewrite !orb_false_iff in Hc. destruct Hc as (Ho & Hq & _). simpl.
    rewrite Ho, Hq, IH. simpl. by destruct (Ascii.eqb c "]"), (queryStart_from false rest).
  - rewrite <- app_comm_cons, <- (assoc_L (++)). cbn [queryStart_from app]. simpl.
    rewrite queryStart_address, IH by done. destruct (queryStart_from false rest); simpl; [|done].
    do 2 f_equal. rewrite length_app. simpl. lia.
Qed.

Lemma redact_param_text p :
  lacks ["="; "&"]%char (param_name p) -> redact_param (param_text p) = param_text (shown_param p).
Proof.
  intros Hn. unfold redact_param, param_text, shown_param. destruct (param_value p) as [v|] eqn:Hv.
  - change (lit "=" ++ v) with ("="%char :: v).
    rewrite (index_where_lacks _ ["="; "&"]%char) by (done || not_in).
    rewrite take_app_length. destruct (isPasswordKey _); simpl; [|by rewrite Hv].
    change ("="%char :: v) with (["="%char] ++ v).
    rewrite (assoc_L (++)), take_app_length' by (rewrite length_app; simpl; lia).
    by rewrite <- (assoc_L (++)).
  - rewrite app_nil_r, (index_where_none _ ["="; "&"]%char) by (done || not_in).
    destruct (isPasswordKey _); simpl; rewrite ?Hv; by rewrite app_nil_r.
Qed.

Abbreviation at_or_slash := (fun c => Ascii.eqb c "@" || Ascii.eqb c "/").

Lemma redact_userinfo_at a rest :
  lacks ["@"; "/"]%char a ->
  redact_userinfo (a ++ "@"%char :: rest) =
    (match index_where (Ascii.eqb ":") a with
     | Some colon => if S colon <? length a then take (S colon) a ++ RedactedPassword else a
     | None => a
     end ++ lit "@", rest).
Proof.
  intros Ha. unfold redact_userinfo.
  rewrite (index_where_lacks at_or_slash ["@"; "/"]%char) by (done || not_in).
  rewrite (byte_at_dropped _ _ _ ("@"%char :: rest)) by apply drop_app_length. simpl.
  rewrite take_app_length. f_equal. rewrite <- Nat.add_1_r, <- drop_drop, drop_app_length. done.
Qed.

Lemma lacks_fewer stop stop' s :
  lacks stop s -> (forall x, existsb (Ascii.eqb x) stop = false -> existsb (Ascii.eqb x) stop' = false) ->
  lacks stop' s.
Proof. intros Hs Hsub. eapply Forall_impl; [exact Hs|]. intros c. apply Hsub. Qed.

Lemma redact_userinfo_text u rest :
  user_ok u rest -> redact_userinfo (user_text u ++ rest) = (user_text (shown_user u), rest).
Proof.
  destruct u as [[name [password|]]|]; cbn [user_text shown_user user_ok].
  - intros [Hn Hp].
    assert ((name ++ lit ":" ++ password ++ lit "@") ++ rest =
            (name ++ ":"%char :: password) ++ "@"%char :: rest) as ->
      by (by rewrite <- !(assoc_L (++))).
    rewrite redact_userinfo_at.
    2: { apply Forall_app. split; [eapply lacks_fewer; [exact Hn|not_in]|by constructor]. }
    cbn [app]. rewrite (index_where_lacks _ [":"; "@"; "/"]%char) by (done || not_in).
    f_equal. rewrite length_app. simpl length.
    destruct password as [|c password]; simpl hide.
    + rewrite (proj2 (Nat.ltb_ge _ _)) by (simpl; lia). by rewrite <- (assoc_L (++)).
    + rewrite (proj2 (Nat.ltb_lt _ _)) by (simpl; lia).
      change (name ++ ":"%char :: c :: password) with (name ++ [":"%char] ++ c :: password).
      rewrite (assoc_L (++)), take_app_length' by (rewrite length_app; simpl; lia).
      by rewrite <- !(assoc_L (++)).
  - intros Hn. rewrite <- (assoc_L (++)). change (lit "@" ++ rest) with ("@"%char :: rest).
    rewrite redact_userinfo_at by (eapply lacks_fewer; [exact Hn|not_in]).
    by rewrite (index_where_none _ [":"; "@"; "/"]%char) by (done || not_in).
  - intros Hu. unfold redact_userinfo. cbn [app]. destruct (index_where at_or_slash rest) as [i|] eqn:Hi; [|done].
    by rewrite (Hu i eq_refl).
Qed.

Lemma query_shown ps :
  Forall (fun p => lacks ["="; "&"]%char (param_name p) /\
                   lacks ["&"]%char (default [] (param_value p))) ps ->
  map redact_param (map param_text ps) = map param_text (map shown_param ps) /\
  Forall (lacks ["&"]%char) (map param_text ps).
Proof.
  induction 1 as [|p ps [Hn Hv] _ [IHs IHl]]; simpl; [done|]. split.
  - by rewrite redact_param_text, IHs.
  - constructor; [|done]. apply Forall_app. split; [eapply lacks_fewer; [exact Hn|not_in]|].
    destruct (param_value p); [by constructor|constructor].
Qed.

Lemma rest_shown pl ps :
  place_ok pl ->
  Forall (fun p => lacks ["="; "&"]%char (param_name p) /\
                   lacks ["&"]%char (default [] (param_value p))) ps ->
  match queryStart (pl ++ query_text ps) with
  | None => pl ++ query_text ps
  | Some q =>
      take (S q) (pl ++ query_text ps) ++
      join_bytes (lit "&") (map redact_param (split_bytes "&" (drop (S q) (pl ++ query_text ps))))
  end = pl ++ query_text (map shown_param ps).
Proof.
  intros Hpl Hps. rewrite queryStart_place by done.
  destruct (decide (ps = [])) as [-> | Hne]; [done|].
  destruct (query_shown ps Hps) as [Hs Hl].
  assert (forall l, l <> [] -> query_text l =
            lit "?" ++ join_bytes (lit "&") (map param_text l)) as Hq by (by intros []).
  rewrite !Hq by (by destruct ps). simpl fmap. rewrite Nat.add_0_r, (assoc_L (++)).
  rewrite take_app_length', drop_app_length' by (rewrite length_app; simpl; lia).
  change (lit "&") with ["&"%char]. rewrite split_join by (done || by destruct ps).
  by rewrite Hs, <- (assoc_L (++)).
Qed.

Lemma scheme_found u rest :
  u ∈ uriPrefixes ->
  hasURIPrefix (u ++ rest) = true /\ List.find (HasPrefix (u ++ rest)) uriPrefixes = Some u.
Proof.
  intros [-> | [-> | []%elem_of_nil]%elem_of_cons]%elem_of_cons; split; reflexivity.
Qed.

(** C26: A connection URI is shown without its passwords.  Of a postgresql or
    postgres URI whose brackets are closed, everything is shown as written but
    the password of the user information, if it is not empty, and the values
    of the password and sslpassword parameters, whatever their case and
    however their names are percent-encoded. *)
Theorem uri_shown_without_passwords u :
  uri_ok u -> RedactPasswords (uri_text u) = uri_text (shown_uri u).
Proof.
  intros [Hs Hu Hpl Hq]. destruct (scheme_found (scheme u) (user_text (user u) ++ place u ++ query_text (query u)) Hs)
    as [Hp Hf].
  rewrite RedactPasswords_unfold. unfold uri_text. rewrite Hp. unfold redactURI. rewrite Hf.
  rewrite drop_app_length, take_app_length, (redact_userinfo_text _ _ Hu). simpl. do 2 f_equal.
  by apply rest_shown.
Qed.
End Shown.
