(* ===== verification/SettingRedaction.v ===== *)
(** * Credentials in PostgreSQL settings (pkg/pgsettings/redact.go)

    What is left of a setting's value when the collector stores it: a
    connection string without its passwords, a shell command without its
    arguments and the values of its assignments, nothing of any other
    credential.  The functions that range over the runes of a word accept
    ASCII only, so they are written on its bytes.  Then a grammar of simple
    shell commands, and that exactly the names in one are shown. *)
From stdpp Require Import base list strings.
From Stdlib Require Import Ascii ZArith.
From S2P Require Import Prelude GoStrings AuditText GoText Redaction ConnString ConnGrammar.

Local Open Scope list_scope.

(** ** Which settings *)

Definition customSecretFragments : list string :=
  ["password"; "passwd"; "passphrase"; "secret"; "token"; "credential"; "private_key"]%string.

(** [strings.Contains], and a look-up in a set of names. *)
Definition Contains (s sub : bytes) : bool :=
  match Index s sub with Some _ => true | None => false end.

Definition named_in (name : bytes) (set : list string) : bool :=
  existsb (fun x => bytes_eqb name (lit x)) set.

Section Settings.
Context `{UnicodeCase}.

Definition IsCredentialSetting (name : bytes) : bool :=
  let name := ToLower name in
  if named_in name conninfoSettings || named_in name wholeValueSettings ||
     named_in name shellCommandSettings then true
  else if negb (Contains name (lit ".")) then false
  else existsb (fun fragment => Contains name (lit fragment)) customSecretFragments.

Definition IsConnectionStringSetting (name : bytes) : bool :=
  named_in (ToLower name) conninfoSettings.
End Settings.

(** ** Shell commands *)

(** [RedactedValue] of this package is [connstring.RedactedPassword]. *)
Definition Redacted : bytes := RedactedPassword.

Definition isShellBlank (c : ascii) : bool := Ascii.eqb c " " || Ascii.eqb c (chr 9).

(** [strings.TrimLeft] of blanks. *)
Definition trim_blanks (s : bytes) : bytes := drop (span_while isShellBlank s) s.

(** [strings.Cut] at an equals sign. *)
Definition cut_equals (s : bytes) : option (bytes * bytes) :=
  i ← index_where (Ascii.eqb "=") s; Some (take i s, drop (S i) s).

Definition backquote : ascii := chr 96.

Definition unsafeShellChars : bytes := lit ";&|<>()" ++ [backquote; "$"%char; chr 10; chr 13].

Definition unsafe (c : ascii) : bool := existsb (Ascii.eqb c) unsafeShellChars.

Fixpoint double_quoted_end (s : bytes) (i : nat) : option nat :=
  match s with
  | [] => None
  | c :: s1 =>
      if Ascii.eqb c dquote then Some (S i)
      else if Ascii.eqb c "$" || Ascii.eqb c backquote then None
      else if Ascii.eqb c backslash then
        match s1 with [] => None | _ :: s2 => double_quoted_end s2 (S (S i)) end
      else double_quoted_end s1 (S i)
  end.

Definition skipDoubleQuoted (s : bytes) (i : nat) : option nat := double_quoted_end (drop i s) i.

Definition skipShellWordPart (s : bytes) (i : nat) : option nat :=
  if byte_at s i squote then
    end_ ← index_where (Ascii.eqb squote) (drop (S i) s); Some (i + end_ + 2)
  else if byte_at s i dquote then skipDoubleQuoted s (S i)
  else if byte_at s i backslash then
    if length s <=? S i then None else Some (i + 2)
  else if test_at s i unsafe then None
  else Some (S i).

Definition word_step (s : bytes) (i : nat) : nat + option (bytes * bytes) :=
  if length s <=? i then inr (Some (s, []))
  else if test_at s i isShellBlank then inr (Some (take i s, drop i s))
  else match skipShellWordPart s i with
       | None => inr None
       | Some next => inl next
       end.

Definition nextShellWord (s : bytes) : option (bytes * bytes) :=
  run (fun i => length s - i) (word_step s) None 0.

Fixpoint isBlankShellWord (word : bytes) : bool :=
  match word with
  | [] => true
  | c :: w1 =>
      if Ascii.eqb c squote || Ascii.eqb c dquote then isBlankShellWord w1
      else if Ascii.eqb c backslash then
        match w1 with
        | [] => true
        | d :: w2 => if negb (isShellBlank d) then false else isBlankShellWord w2
        end
      else if negb (isShellBlank c) then false
      else isBlankShellWord w1
  end.

Definition ascii_letter (c : ascii) : bool := in_range 65 90 c || in_range 97 122 c.
Definition ascii_digit (c : ascii) : bool := in_range 48 57 c.

Definition isShellVariableName (name : bytes) : bool :=
  match name with
  | [] => false
  | c :: name =>
      (Ascii.eqb c "_" || ascii_letter c) &&
      forallb (fun c => Ascii.eqb c "_" || ascii_letter c || ascii_digit c) name
  end.

Definition program_byte (c : ascii) : bool :=
  ascii_letter c || ascii_digit c || existsb (Ascii.eqb c) (lit "_./+-~").

Definition isPlainProgramName (word : bytes) : bool := forallb program_byte word.

Definition shell_step (st : bytes * list bytes) : (bytes * list bytes) + option (list bytes) :=
  let '(rest, out) := st in
  match rest with
  | [] => inr (Some out)
  | _ =>
      match nextShellWord rest with
      | None => inr None
      | Some (word, after) =>
          let rest := trim_blanks after in
          match cut_equals word with
          | Some (envName, envValue) =>
              if negb (isShellVariableName envName) || isBlankShellWord envValue then inr None
              else inl (rest, out ++ [envName ++ lit "=" ++ Redacted])
          | None =>
              if negb (isPlainProgramName word) then inr None
              else inr (Some (out ++ [word] ++ match rest with [] => [] | _ => [Redacted] end))
          end
      end
  end.

Definition RedactShellCommand (command : bytes) : bytes :=
  if Contains command [backslash; chr 10] then Redacted
  else
    let rest := trim_blanks command in
    match rest with
    | [] => command
    | _ =>
        match run (fun st => length (fst st)) shell_step None (rest, []) with
        | None => Redacted
        | Some out => join_bytes [space] out
        end
    end.

Definition RedactValue `{UnicodeCase} (name value : bytes) : bytes :=
  if bytes_eqb value [] || negb (IsCredentialSetting name) then value
  else
    let lower := ToLower name in
    if named_in lower conninfoSettings then RedactPasswords value
    else if named_in lower shellCommandSettings then RedactShellCommand value
    else Redacted.

(** ** A grammar of shell commands

    The words of a simple shell command, and what of a command
    [RedactShellCommand] shows: the names of the assignments before it and the
    program, when the command is one the grammar derives, and nothing
    otherwise. *)

(** A space or a tab. *)
Definition blank_char (c : ascii) : bool := Ascii.eqb c " " || Ascii.eqb c (chr 9).

Definition blanks (w : bytes) : Prop := Forall (fun c => blank_char c = true) w.

(** What the shell expands, or ends a command at. *)
Definition special_char (c : ascii) : bool :=
  existsb (Ascii.eqb c) (lit ";&|<>()" ++ [chr 96; "$"%char; chr 10; chr 13]).

(** Text inside double quotes in which nothing is expanded. *)
Inductive double_quoted : bytes -> Prop :=
| dq_nil : double_quoted []
| dq_escape c b : double_quoted b -> double_quoted (backslash :: c :: b)
| dq_byte c b :
    Ascii.eqb c dquote = false -> Ascii.eqb c "$" = false -> Ascii.eqb c backquote = false ->
    Ascii.eqb c backslash = false -> double_quoted b -> double_quoted (c :: b).

Definition word_char (c : ascii) : bool :=
  negb (Ascii.eqb c squote) && negb (Ascii.eqb c dquote) && negb (Ascii.eqb c backslash) &&
  negb (blank_char c) && negb (special_char c).

(** A word without expansions, and nothing in it that ends the command. *)
Inductive shell_word : bytes -> Prop :=
| word_nil : shell_word []
| word_single b w :
    Forall (fun c => Ascii.eqb squote c = false) b -> shell_word w ->
    shell_word (squote :: b ++ squote :: w)
| word_double b w : double_quoted b -> shell_word w -> shell_word (dquote :: b ++ dquote :: w)
| word_escape c w : shell_word w -> shell_word (backslash :: c :: w)
| word_byte c w : word_char c = true -> shell_word w -> shell_word (c :: w).

(** After a word: blanks, or the end. *)
Definition word_ends (rest : bytes) : Prop :=
  match rest with [] => True | c :: _ => blank_char c = true end.

Definition solid (rest : bytes) : Prop :=
  match rest with [] => True | c :: _ => blank_char c = false end.

(** A letter or underscore, then letters, digits and underscores. *)
Definition letter (c : ascii) : Prop := (65 <= code c <= 90 \/ 97 <= code c <= 122)%N.
Definition digit (c : ascii) : Prop := (48 <= code c <= 57)%N.

Inductive variable_name : bytes -> Prop :=
| variable_name_intro c name :
    letter c \/ c = "_"%char -> Forall (fun c => letter c \/ digit c \/ c = "_"%char) name ->
    variable_name (c :: name).

(** A value of which nothing but blanks is left without its quotes. *)
Inductive blank_value : bytes -> Prop :=
| blank_value_nil : blank_value []
| blank_value_quote c w : c = squote \/ c = dquote -> blank_value w -> blank_value (c :: w)
| blank_value_blank c w : blank_char c = true -> blank_value w -> blank_value (c :: w)
| blank_value_escape c w : blank_char c = true -> blank_value w -> blank_value (backslash :: c :: w)
| blank_value_cut : blank_value [backslash].

Definition program_char (c : ascii) : Prop := letter c \/ digit c \/ c ∈ lit "_./+-~".

(** What a command that starts with no blank shows: its assignments with their
    values hidden, then its program, and that it has arguments. *)
Inductive shows : bytes -> list bytes -> Prop :=
| shows_end : shows [] []
| shows_assignment name value gap rest pieces :
    variable_name name -> ~ blank_value value ->
    shell_word (name ++ "="%char :: value) ->
    blanks gap -> (gap = [] -> rest = []) -> solid rest -> shows rest pieces ->
    shows ((name ++ "="%char :: value) ++ gap ++ rest) ((name ++ lit "=" ++ Redacted) :: pieces)
| shows_program word gap args :
    word <> [] -> Forall program_char word ->
    blanks gap -> (gap = [] -> args = []) -> solid args ->
    shows (word ++ gap ++ args) (word :: match args with [] => [] | _ => [Redacted] end).

(** ** Names, programs and empty values *)

Lemma ascii_letter_iff c : ascii_letter c = true <-> letter c.
Proof. unfold ascii_letter, letter, in_range. rewrite orb_true_iff, !andb_true_iff, !N.leb_le. done. Qed.

Lemma ascii_digit_iff c : ascii_digit c = true <-> digit c.
Proof. unfold ascii_digit, digit, in_range. by rewrite andb_true_iff, !N.leb_le. Qed.

Lemma isShellVariableName_iff name : isShellVariableName name = true <-> variable_name name.
Proof.
  destruct name as [|c name]; simpl; [split; [done|by inversion 1]|].
  rewrite andb_true_iff, orb_true_iff, Ascii.eqb_eq, ascii_letter_iff, forallb_forall. split.
  - intros [Hc Hn]. constructor; [tauto|]. apply Forall_forall. intros x Hx%list_elem_of_In.
    specialize (Hn x Hx). rewrite !orb_true_iff, Ascii.eqb_eq, ascii_letter_iff, ascii_digit_iff in Hn.
    tauto.
  - inversion 1 as [? ? Hc Hn]; subst. split; [tauto|]. intros x Hx%list_elem_of_In.
    rewrite Forall_forall in Hn. specialize (Hn x Hx).
    rewrite !orb_true_iff, Ascii.eqb_eq, ascii_letter_iff, ascii_digit_iff. tauto.
Qed.

Lemma isBlankShellWord_iff w : isBlankShellWord w = true <-> blank_value w.
Proof.
  induction w as [w IH] using (induction_ltof1 _ length). unfold ltof in IH.
  destruct w as [|c w1]; simpl; [split; [constructor|done]|].
  destruct (Ascii.eqb c squote || Ascii.eqb c dquote) eqn:Hq.
  { rewrite IH by (simpl; lia). rewrite orb_true_iff, !Ascii.eqb_eq in Hq.
    split; [by apply blank_value_quote|].
    destruct Hq as [-> | ->]; inversion 1; subst; done. }
  rewrite orb_false_iff, !Ascii.eqb_neq in Hq. destruct Hq as [Hq1 Hq2].
  destruct (Ascii.eqb_spec c backslash) as [->|Hb].
  - destruct w1 as [|d w2]; [split; [intros _; apply blank_value_cut|done]|].
    change (isShellBlank d) with (blank_char d). destruct (blank_char d) eqn:Hd; simpl.
    + rewrite IH by (simpl; lia). split; [by apply blank_value_escape|].
      inversion 1 as [|? ? [|]|? ? Hbad| |]; subst; try done.
    + split; [done|]. inversion 1 as [|? ? [|]|? ? Hbad|? ? Hd'|]; subst; try done. congruence.
  - change (isShellBlank c) with (blank_char c). destruct (blank_char c) eqn:Hc; simpl.
    + rewrite IH by (simpl; lia). split; [by apply blank_value_blank|].
      inversion 1 as [|? ? [|]| | |]; subst; done.
    + split; [done|]. inversion 1 as [|? ? [|]|? ? Hbad| |]; subst; try done. congruence.
Qed.

Lemma isPlainProgramName_iff w : isPlainProgramName w = true <-> Forall program_char w.
Proof.
  unfold isPlainProgramName. rewrite forallb_forall, Forall_forall.
  assert (forall c, program_byte c = true <-> program_char c) as Hc.
  { intros c. unfold program_byte, program_char.
    rewrite !orb_true_iff, ascii_letter_iff, ascii_digit_iff, existsb_exists, list_elem_of_In.
    split; [intros [[?|?]|(x & Hx & ->%Ascii.eqb_eq)]; tauto|].
    intros [?|[?|Hx]]; [by left; left|by left; right|right]. exists c. by rewrite Ascii.eqb_refl. }
  split; intros Hw c Hin; [apply Hc, Hw; by apply list_elem_of_In|].
  apply Hc, Hw. by apply list_elem_of_In.
Qed.

(** ** Words *)

Lemma index_where_app p a c b :
  Forall (fun x => p x = false) a -> p c = true -> index_where p (a ++ c :: b) = Some (length a).
Proof.
  intros Ha Hc. induction Ha as [|x a Hx _ IH]; simpl; [by rewrite Hc|]. by rewrite Hx, IH.
Qed.

Lemma index_where_sound p s n :
  index_where p s = Some n ->
  exists a c b, s = a ++ c :: b /\ n = length a /\ p c = true /\ Forall (fun x => p x = false) a.
Proof.
  revert n. induction s as [|x s IH]; intros n; simpl; [done|]. destruct (p x) eqn:Hx.
  - intros [= <-]. exists [], x, s. split_and!; [done|done|done|constructor].
  - destruct (index_where p s) as [m|]; [|done]. intros [= <-].
    destruct (IH m eq_refl) as (a & c & b & -> & -> & Hc & Ha).
    exists (x :: a), c, b. split_and!; [done|done|done|by constructor].
Qed.

Lemma double_quoted_complete b rest i :
  double_quoted b -> double_quoted_end (b ++ dquote :: rest) i = Some (i + S (length b)).
Proof.
  intros Hb. revert i. induction Hb as [|c b _ IH|c b Hq Hd Hbq Hbs _ IH]; intros i; simpl.
  - f_equal. lia.
  - rewrite IH. f_equal. lia.
  - rewrite Hq, Hd, Hbq, Hbs, IH. simpl. f_equal. lia.
Qed.

Lemma double_quoted_sound s i n :
  double_quoted_end s i = Some n ->
  exists b rest, s = b ++ dquote :: rest /\ double_quoted b /\ n = i + S (length b).
Proof.
  revert i. induction s as [s IH] using (induction_ltof1 _ length). intros i.
  destruct s as [|c s1]; simpl; [done|]. destruct (Ascii.eqb c dquote) eqn:Hq.
  { intros [= <-]. apply Ascii.eqb_eq in Hq as ->. exists [], s1. split_and!; [done|constructor|simpl; lia]. }
  destruct (Ascii.eqb c "$") eqn:Hd; [done|]. destruct (Ascii.eqb c backquote) eqn:Hbq; [done|]. simpl.
  destruct (Ascii.eqb c backslash) eqn:Hbs.
  - apply Ascii.eqb_eq in Hbs as ->. destruct s1 as [|d s2]; [done|]. intros Hs.
    apply IH in Hs as (b & rest & -> & Hb & ->); [|unfold ltof; simpl; lia].
    exists (backslash :: d :: b), rest. split_and!; [done|by constructor|simpl; lia].
  - intros Hs. apply IH in Hs as (b & rest & -> & Hb & ->); [|unfold ltof; simpl; lia].
    exists (c :: b), rest. split_and!; [done|by constructor|simpl; lia].
Qed.

(** The parts of a word, as [skipShellWordPart] reads them. *)
Inductive word_part : bytes -> Prop :=
| part_single b : Forall (fun c => Ascii.eqb squote c = false) b -> word_part (squote :: b ++ [squote])
| part_double b : double_quoted b -> word_part (dquote :: b ++ [dquote])
| part_escape c : word_part [backslash; c]
| part_byte c : word_char c = true -> word_part [c].

Lemma word_parts w :
  shell_word w -> w = [] \/ exists part w', w = part ++ w' /\ word_part part /\ shell_word w'.
Proof.
  intros [|b w' Hb Hw|b w' Hb Hw|c w' Hw|c w' Hc Hw]; [by left|right..].
  - exists (squote :: b ++ [squote]), w'. simpl. rewrite <- (assoc_L (++)). split_and!; [done|by constructor|done].
  - exists (dquote :: b ++ [dquote]), w'. simpl. rewrite <- (assoc_L (++)). split_and!; [done|by constructor|done].
  - exists [backslash; c], w'. split_and!; [done|by constructor|done].
  - exists [c], w'. split_and!; [done|by constructor|done].
Qed.

Lemma part_then_word part w : word_part part -> shell_word w -> shell_word (part ++ w).
Proof.
  intros [b Hb|b Hb|c|c Hc] Hw; simpl; rewrite <- ?(assoc_L (++)); by constructor.
Qed.

Lemma part_not_blank part : word_part part -> exists c t, part = c :: t /\ isShellBlank c = false.
Proof.
  intros [b _|b _|c|c Hc]; eexists _, _; split; try done.
  unfold word_char in Hc. bool_hyps. done.
Qed.

Lemma test_at_dropped s i p b : drop i s = b -> test_at s i p = match b with c :: _ => p c | [] => false end.
Proof.
  intros <-. unfold test_at. rewrite <- (Nat.add_0_r i) at 1. rewrite <- lookup_drop.
  by destruct (drop i s).
Qed.

Lemma byte_at_cons s i c x t : drop i s = x :: t -> byte_at s i c = Ascii.eqb x c.
Proof.
  intros Hs. rewrite (byte_at_dropped _ _ _ _ Hs). simpl. destruct (Ascii.eqb_spec x c) as [->|Hne].
  - by apply bool_decide_eq_true_2.
  - apply bool_decide_eq_false_2. by intros [= ->].
Qed.

Lemma skip_part_complete s i part rest :
  drop i s = part ++ rest -> word_part part -> skipShellWordPart s i = Some (i + length part).
Proof.
  intros Hs Hp. unfold skipShellWordPart.
  assert (length (drop i s) = length part + length rest) as Hlen by (rewrite Hs; apply length_app).
  rewrite length_drop in Hlen.
  destruct Hp as [b Hb|b Hb|c|c Hc]; simpl in Hs;
    rewrite !(byte_at_cons _ _ _ _ _ Hs); simpl.
  - assert (drop (S i) s = b ++ squote :: rest) as ->.
    { rewrite <- Nat.add_1_r. apply (drop_of_app s [squote]). rewrite Hs. by rewrite <- (assoc_L (++)). }
    rewrite index_where_app by done. simpl. rewrite length_app. simpl. f_equal. lia.
  - unfold skipDoubleQuoted. assert (drop (S i) s = b ++ dquote :: rest) as ->.
    { rewrite <- Nat.add_1_r. apply (drop_of_app s [dquote]). rewrite Hs. by rewrite <- (assoc_L (++)). }
    rewrite double_quoted_complete by done. simpl. rewrite length_app. simpl. f_equal. lia.
  - simpl in Hlen. rewrite (proj2 (Nat.leb_gt _ _)) by lia. done.
  - unfold word_char in Hc. change (special_char c) with (unsafe c) in Hc. bool_hyps.
    rewrite (test_at_dropped _ _ _ _ Hs). by repeat match goal with H : _ = false |- _ => rewrite H; clear H end;
      rewrite Nat.add_1_r.
Qed.

Lemma skip_part_sound s i n :
  i < length s -> test_at s i isShellBlank = false -> skipShellWordPart s i = Some n ->
  exists part rest, drop i s = part ++ rest /\ word_part part /\ n = i + length part.
Proof.
  intros Hi. destruct (drop i s) as [|x t] eqn:Hs.
  { apply (f_equal length) in Hs. rewrite length_drop in Hs. simpl in Hs. lia. }
  rewrite (test_at_dropped _ _ _ _ Hs). intros Hblank. unfold skipShellWordPart.
  rewrite !(byte_at_cons _ _ _ _ _ Hs), (test_at_dropped _ _ _ _ Hs).
  assert (drop (S i) s = t) as Ht by (rewrite <- Nat.add_1_r; by apply (drop_of_app s [x])).
  destruct (Ascii.eqb x squote) eqn:Hq; [|destruct (Ascii.eqb x dquote) eqn:Hd;
    [|destruct (Ascii.eqb x backslash) eqn:Hb]].
  - apply Ascii.eqb_eq in Hq as ->. rewrite Ht.
    destruct (index_where (Ascii.eqb squote) t) as [e|] eqn:He; [|done]. intros [= <-].
    apply index_where_sound in He as (a & c & b & -> & -> & <-%Ascii.eqb_eq & Ha).
    exists (squote :: a ++ [squote]), b. simpl. rewrite <- (assoc_L (++)), length_app.
    split_and!; [done|by constructor|simpl; lia].
  - apply Ascii.eqb_eq in Hd as ->. unfold skipDoubleQuoted. rewrite Ht.
    intros (b & rest & -> & Hbody & ->)%double_quoted_sound.
    exists (dquote :: b ++ [dquote]), rest. simpl. rewrite <- (assoc_L (++)), length_app.
    split_and!; [done|by constructor|simpl; lia].
  - apply Ascii.eqb_eq in Hb as ->. destruct (length s <=? S i) eqn:Hlen; [done|]. intros [= <-].
    destruct t as [|c t].
    { apply Nat.leb_gt in Hlen. apply (f_equal length) in Ht. rewrite length_drop in Ht. simpl in Ht. lia. }
    exists [backslash; c], t. split_and!; [done|by constructor|done].
  - destruct (unsafe x) eqn:Hu; [done|]. intros [= <-]. exists [x], t.
    split_and!; [done| |simpl; lia]. constructor. unfold word_char.
    change (blank_char x) with (isShellBlank x). change (special_char x) with (unsafe x).
    by rewrite Hq, Hd, Hb, Hblank, Hu.
Qed.

Lemma part_length part : word_part part -> 0 < length part.
Proof. intros (c & t & -> & _)%part_not_blank. simpl. lia. Qed.

Lemma word_step_decreases s : decreases (fun i => length s - i) (word_step s).
Proof.
  intros i n. unfold word_step. destruct (length s <=? i) eqn:Hi; [done|]. apply Nat.leb_gt in Hi.
  destruct (test_at s i isShellBlank) eqn:Hb; [done|].
  destruct (skipShellWordPart s i) as [m|] eqn:Hs; [|done]. intros [= ->].
  apply skip_part_sound in Hs as (part & rest & _ & Hp & ->); [|done..].
  apply part_length in Hp. lia.
Qed.

Abbreviation word_from s := (run (fun i => length s - i) (word_step s) None).

Lemma word_from_complete s i w rest :
  shell_word w -> word_ends rest -> i <= length s -> drop i s = w ++ rest ->
  word_from s i = Some (take (i + length w) s, rest).
Proof.
  remember (length w) as n eqn:Hn. revert i w Hn.
  induction (lt_wf n) as [n _ IH]; intros i w -> Hw Hends Hi Hs.
  rewrite run_unfold by apply word_step_decreases. unfold word_step at 1.
  assert (length (drop i s) = length w + length rest) as Hlen by (rewrite Hs; apply length_app).
  rewrite length_drop in Hlen. rewrite (test_at_dropped _ _ _ _ Hs).
  destruct (word_parts w Hw) as [-> | (part & w' & -> & Hp & Hw')].
  - simpl in *. rewrite Nat.add_0_r. destruct rest as [|c rest]; simpl in *.
    + rewrite (proj2 (Nat.leb_le _ _)) by lia. rewrite take_ge by lia. done.
    + rewrite (proj2 (Nat.leb_gt _ _)) by lia. change (isShellBlank c) with (blank_char c).
      rewrite Hends. by rewrite Hs.
  - rewrite <- (assoc_L (++)) in Hs. destruct (part_not_blank _ Hp) as (c & t & Heq & Hc).
    pose proof (part_length _ Hp) as Hpos. rewrite !length_app in *.
    rewrite (proj2 (Nat.leb_gt _ _)) by lia.
    assert (match (part ++ w') ++ rest with x :: _ => isShellBlank x | [] => false end = false) as ->
      by (by rewrite Heq).
    rewrite (skip_part_complete _ _ _ _ Hs Hp).
    rewrite (IH (length w') ltac:(lia) (i + length part) w'); [do 3 f_equal; lia|done|done|done|lia|].
    by apply drop_of_app.
Qed.

Lemma word_from_sound s i :
  i <= length s ->
  match word_from s i with
  | None => True
  | Some (word, rest) => exists w, drop i s = w ++ rest /\ shell_word w /\ word_ends rest /\
      word = take (i + length w) s
  end.
Proof.
  apply (run_ind _ _ _ (fun i r => i <= length s ->
    match r with
    | None => True
    | Some (word, rest) => exists w, drop i s = w ++ rest /\ shell_word w /\ word_ends rest /\
        word = take (i + length w) s
    end)).
  - apply word_step_decreases.
  - intros j r. unfold word_step. destruct (length s <=? j) eqn:Hj.
    { intros [= <-] Hle. apply Nat.leb_le in Hj. exists []. rewrite drop_ge, take_ge by (simpl; lia).
      split_and!; [done|constructor|done|done]. }
    destruct (test_at s j isShellBlank) eqn:Hb.
    { intros [= <-] Hle. exists []. rewrite Nat.add_0_r. split_and!; [done|constructor| |done].
      rewrite (test_at_dropped _ _ _ _ eq_refl) in Hb. by destruct (drop j s). }
    destruct (skipShellWordPart s j); [done|]. by intros [= <-].
  - intros j n r. unfold word_step. destruct (length s <=? j) eqn:Hj; [done|]. apply Nat.leb_gt in Hj.
    destruct (test_at s j isShellBlank) eqn:Hb; [done|].
    destruct (skipShellWordPart s j) as [m|] eqn:Hskip; [|done]. intros [= ->] IH Hle.
    apply skip_part_sound in Hskip as (part & rest & Hs & Hp & ->); [|done..].
    destruct r as [[word rest']|]; [|done]. destruct IH as (w & Hd & Hw & He & ->).
    { apply (f_equal length) in Hs. rewrite length_drop, length_app in Hs. lia. }
    rewrite (drop_of_app _ _ _ _ Hs) in Hd. subst rest. exists (part ++ w).
    rewrite <- (assoc_L (++)), length_app, Nat.add_assoc.
    split_and!; [done|by apply part_then_word|done|done].
Qed.

Lemma nextShellWord_complete w rest :
  shell_word w -> word_ends rest -> nextShellWord (w ++ rest) = Some (w, rest).
Proof.
  intros Hw He. unfold nextShellWord.
  rewrite (word_from_complete _ 0 w rest) by (done || lia). simpl. by rewrite take_app_length.
Qed.

Lemma nextShellWord_sound s word rest :
  nextShellWord s = Some (word, rest) -> s = word ++ rest /\ shell_word word /\ word_ends rest.
Proof.
  intros Hs. pose proof (word_from_sound s 0 ltac:(lia)) as Hsound. unfold nextShellWord in Hs.
  rewrite Hs in Hsound. destruct Hsound as (w & Hd & Hw & He & ->). simpl in *.
  rewrite drop_0 in Hd. subst s. by rewrite take_app_length.
Qed.

(** ** Commands *)

Lemma trim_blanks_split s :
  exists gap, s = gap ++ trim_blanks s /\ blanks gap /\ solid (trim_blanks s).
Proof.
  unfold trim_blanks. destruct (span_while_split isShellBlank s) as (a & b & -> & Ha & Hb & ->).
  exists a. rewrite drop_app_length. split_and!; [done|done|].
  destruct b as [|c b]; [done|]. by apply Hb.
Qed.

Lemma trim_blanks_app gap rest : blanks gap -> solid rest -> trim_blanks (gap ++ rest) = rest.
Proof.
  intros Hg Hr. unfold trim_blanks. rewrite span_while_app; [apply drop_app_length|done|].
  intros c. destruct rest; [done|]. by intros [= <-].
Qed.

Lemma cut_equals_app name value :
  Forall (fun c => Ascii.eqb "=" c = false) name ->
  cut_equals (name ++ "="%char :: value) = Some (name, value).
Proof.
  intros Hn. unfold cut_equals. rewrite index_where_app by done. simpl.
  rewrite take_app_length. f_equal. f_equal.
  rewrite <- Nat.add_1_r, <- drop_drop, drop_app_length. done.
Qed.

Lemma cut_equals_sound word name value :
  cut_equals word = Some (name, value) -> word = name ++ "="%char :: value.
Proof.
  unfold cut_equals. destruct (index_where _ word) as [n|] eqn:Hn; [|done]. simpl. intros [= <- <-].
  apply index_where_sound in Hn as (a & c & b & -> & -> & <-%Ascii.eqb_eq & _).
  rewrite take_app_length, <- Nat.add_1_r, <- drop_drop, drop_app_length. done.
Qed.

Lemma variable_name_no_equals name :
  isShellVariableName name = true -> Forall (fun c => Ascii.eqb "=" c = false) name.
Proof.
  destruct name as [|c name]; [done|]. simpl. intros [Hc Hn]%andb_true_iff.
  assert (forall x, Ascii.eqb x "_" || ascii_letter x || ascii_digit x = true ->
          Ascii.eqb "=" x = false) as Hx.
  { intros x Hx. apply not_true_iff_false. intros <-%Ascii.eqb_eq. done. }
  constructor; [apply Hx; by rewrite Hc|].
  rewrite forallb_forall in Hn. apply Forall_forall. intros x Hin%list_elem_of_In.
  by apply Hx, Hn.
Qed.

Abbreviation pieces_from rest out :=
  (run (fun st => length (fst st)) shell_step None (rest, out)).

Lemma trim_blanks_length s : length (trim_blanks s) <= length s.
Proof. unfold trim_blanks. rewrite length_drop. lia. Qed.

Lemma shell_step_decreases : decreases (fun st => length (fst st)) shell_step.
Proof.
  intros [rest out] [rest' out']. unfold shell_step. destruct rest as [|c t]; [done|].
  destruct (nextShellWord (c :: t)) as [[word after]|] eqn:Hw; [|done].
  apply nextShellWord_sound in Hw as (Heq & Hword & Hends).
  destruct (cut_equals word) as [[name value]|] eqn:Hcut; [|by destruct (negb _)].
  destruct (_ || _); [done|]. intros [= <- <-]. simpl fst. rewrite Heq, length_app.
  apply cut_equals_sound in Hcut as ->. pose proof (trim_blanks_length after).
  rewrite length_app. simpl. lia.
Qed.

Lemma solid_word_nonempty (word gap rest : bytes) :
  word <> [] -> exists c t, word ++ gap ++ rest = c :: t.
Proof. destruct word; [done|]. simpl. eauto. Qed.

Lemma gap_ends gap rest : blanks gap -> (gap = [] -> rest = []) -> word_ends (gap ++ rest).
Proof. intros Hg Hr. destruct Hg; simpl; [by rewrite Hr|done]. Qed.

Lemma program_word word : isPlainProgramName word = true -> shell_word word.
Proof.
  unfold isPlainProgramName. intros Hw. rewrite forallb_forall in Hw. induction word as [|c w IH]; [constructor|].
  constructor; [|apply IH; intros; apply Hw; by right].
  specialize (Hw c ltac:(by left)). revert Hw. clear.
  destruct c as [[] [] [] [] [] [] [] []]; vm_compute; done.
Qed.

Lemma program_no_equals word : isPlainProgramName word = true -> cut_equals word = None.
Proof.
  intros Hw. destruct (cut_equals word) as [[name value]|] eqn:Hc; [|done].
  apply cut_equals_sound in Hc as ->. unfold isPlainProgramName in Hw.
  rewrite forallb_app in Hw. simpl in Hw. by apply andb_true_iff in Hw as [_ Hw].
Qed.

Lemma pieces_complete rest pieces out :
  shows rest pieces -> pieces_from rest out = Some (out ++ pieces).
Proof.
  intros Hs. revert out.
  induction Hs as [|name value gap rest pieces Hn Hv Hw Hg Hgap Hsolid _ IH|word gap args Hne Hp Hg Hgap Hsolid];
    intros out; rewrite run_unfold by apply shell_step_decreases; unfold shell_step at 1.
  - by rewrite app_nil_r.
  - apply isShellVariableName_iff in Hn. rewrite <- isBlankShellWord_iff, not_true_iff_false in Hv.
    destruct (solid_word_nonempty (name ++ "="%char :: value) gap rest) as (c & t & Hct); [by destruct name|].
    rewrite Hct, <- Hct, nextShellWord_complete by (by try apply gap_ends).
    rewrite cut_equals_app by (by apply variable_name_no_equals). rewrite Hn, Hv. simpl.
    rewrite trim_blanks_app by done. rewrite IH. by rewrite <- (assoc_L (++)).
  - apply isPlainProgramName_iff in Hp. destruct (solid_word_nonempty word gap args Hne) as (c & t & Hct).
    rewrite Hct, <- Hct, nextShellWord_complete by (by try apply gap_ends; try apply program_word).
    rewrite program_no_equals, Hp by done. simpl. by rewrite trim_blanks_app.
Qed.

Lemma pieces_sound st r :
  run (fun st => length (fst st)) shell_step None st = r ->
  solid (fst st) -> is_Some r -> exists pieces, shows (fst st) pieces.
Proof.
  intros <-. apply (run_ind _ _ _ (fun st r => solid (fst st) -> is_Some r -> exists pieces, shows (fst st) pieces)).
  - apply shell_step_decreases.
  - intros [rest out] r'. unfold shell_step. destruct rest as [|c t]; [intros _ _ _; exists []; constructor|].
    destruct (nextShellWord (c :: t)) as [[word after]|] eqn:Hw; [|by intros [= <-] _ [? [=]]].
    destruct (cut_equals word) as [[name value]|]; [destruct (_ || _); [|done]; by intros [= <-] _ [? [=]]|].
    destruct (isPlainProgramName word) eqn:Hp; [|by intros [= <-] _ [? [=]]]. intros _ Hsolid _. simpl.
    apply nextShellWord_sound in Hw as (Heq & _ & Hends). rewrite Heq in Hsolid |- *.
    destruct (trim_blanks_split after) as (gap & Ha & Hg & Hs). rewrite Ha in Hends, Hsolid |- *.
    eexists.
    apply shows_program; [|by apply isPlainProgramName_iff|done| |done].
    + intros ->. simpl in Hsolid. rewrite <- Ha in Hsolid, Hends. destruct after; [done|]. simpl in *. congruence.
    + intros ->. simpl in *. destruct (trim_blanks after); [done|]. simpl in *. congruence.
  - intros [rest out] st' r'. unfold shell_step. destruct rest as [|c t]; [done|].
    destruct (nextShellWord (c :: t)) as [[word after]|] eqn:Hw; [|done].
    destruct (cut_equals word) as [[name value]|] eqn:Hcut; [|by destruct (negb _)].
    destruct (isShellVariableName name) eqn:Hn; [|done].
    destruct (isBlankShellWord value) eqn:Hv; [done|]. simpl. intros [= <-] IH Hsolid Hr.
    apply nextShellWord_sound in Hw as (-> & Hword & Hends). apply cut_equals_sound in Hcut as ->.
    destruct (trim_blanks_split after) as (gap & Ha & Hg & Hs). simpl in IH.
    destruct (IH Hs Hr) as (pieces & Hp). rewrite Ha in Hends |- *. eexists.
    rewrite <- not_true_iff_false, isBlankShellWord_iff in Hv.
    apply shows_assignment; try done; [by apply isShellVariableName_iff|]. intros ->. simpl in *.
    destruct (trim_blanks after); [done|]. simpl in *. congruence.
Qed.

Lemma command_pieces gap rest pieces :
  blanks gap -> rest <> [] -> solid rest ->
  Contains (gap ++ rest) [backslash; chr 10] = false -> shows rest pieces ->
  RedactShellCommand (gap ++ rest) = join_bytes [space] pieces.
Proof.
  intros Hg Hne Hs Hc Hp. unfold RedactShellCommand. rewrite Hc, trim_blanks_app by done.
  destruct rest as [|c t] eqn:Hrest; [done|]. rewrite <- Hrest in *.
  by rewrite (pieces_complete _ _ _ Hp).
Qed.

(** A backslash before a newline: the shell drops both and reads on. *)
Definition continues_line (command : bytes) : Prop :=
  exists a b, command = a ++ backslash :: chr 10 :: b.

Lemma Contains_iff s sub : Contains s sub = true <-> exists a b, s = a ++ sub ++ b.
Proof.
  unfold Contains. split.
  - destruct (Index s sub) as [n|] eqn:Hi; [|done]. intros _.
    apply Index_Some in Hi as (Hp & Hn & _). apply HasPrefix_spec in Hp as [t Ht].
    exists (take n s), t. by rewrite <- Ht, take_drop.
  - intros (a & b & ->). destruct (Index _ _) as [n|] eqn:Hi; [done|]. rewrite Index_None in Hi.
    specialize (Hi (length a)). rewrite drop_app_length in Hi.
    rewrite (proj2 (HasPrefix_spec _ _)) in Hi; [|by exists b].
    rewrite length_app in Hi. specialize (Hi ltac:(lia)). done.
Qed.

Lemma command_refused gap rest :
  blanks gap -> rest <> [] -> solid rest ->
  Contains (gap ++ rest) [backslash; chr 10] = false ->
  (forall pieces, ~ shows rest pieces) -> RedactShellCommand (gap ++ rest) = Redacted.
Proof.
  intros Hg Hne Hs Hc Hno. unfold RedactShellCommand. rewrite Hc, trim_blanks_app by done.
  destruct rest as [|c t] eqn:Hrest; [done|]. rewrite <- Hrest in *.
  destruct (pieces_from rest []) as [out|] eqn:Hr; [|done].
  destruct (pieces_sound _ _ Hr) as (pieces & Hp); [done|eauto|]. by destruct (Hno pieces).
Qed.

(** C27: Of a shell command only names are shown.  A command with a
    backslash before a newline is replaced whole; one of blanks alone is left
    as it is.  Of any other, after leading blanks: a command of the grammar -
    assignments of values that are not empty and then a program, each a word
    without expansions - is shown as the names of its assignments, its
    program if it is a plain name, and whether it has arguments, however its
    values and arguments are quoted and escaped; and a command that the
    grammar does not derive, one that assigns an empty value among them, is
    replaced whole. *)
Theorem shell_command_shown command :
  (continues_line command -> RedactShellCommand command = Redacted) /\
  (blanks command -> RedactShellCommand command = command) /\
  (~ continues_line command ->
   forall gap rest, command = gap ++ rest -> blanks gap -> rest <> [] -> solid rest ->
   (forall pieces, shows rest pieces -> RedactShellCommand command = join_bytes [space] pieces) /\
   ((forall pieces, ~ shows rest pieces) -> RedactShellCommand command = Redacted)).
Proof.
  assert (continues_line command <-> Contains command [backslash; chr 10] = true) as Hline
    by (by rewrite Contains_iff).
  split_and!.
  - intros Hc%Hline. unfold RedactShellCommand. by rewrite Hc.
  - intros Hb. unfold RedactShellCommand. destruct (Contains command _) eqn:Hc.
    + apply Contains_iff in Hc as (a & b & ->). apply Forall_app in Hb as [_ Hb].
      by inversion Hb.
    + rewrite <- (app_nil_r command) at 1. by rewrite trim_blanks_app.
  - intros Hno gap rest -> Hg Hne Hs. rewrite Hline, not_true_iff_false in Hno.
    split; [intros pieces; by apply command_pieces|by apply command_refused].
Qed.

(** ** Redacting twice *)

Definition harmless_byte (c : ascii) : bool :=
  program_byte c || Ascii.eqb c "=" || Ascii.eqb c "*" || Ascii.eqb c space.

Lemma name_bytes name :
  variable_name name -> Forall (fun c => program_byte c = true) name.
Proof.
  rewrite <- isShellVariableName_iff.
  destruct name as [|c name]; [done|]. simpl. intros [Hc Hn]%andb_true_iff.
  assert (forall x, Ascii.eqb x "_" || ascii_letter x || ascii_digit x = true -> program_byte x = true)
    as Hx by (intros [[] [] [] [] [] [] [] []]; vm_compute; done).
  constructor; [apply Hx; by rewrite Hc|]. rewrite forallb_forall in Hn. apply Forall_forall.
  intros x Hin%list_elem_of_In. by apply Hx, Hn.
Qed.

Lemma harmless_word w :
  Forall (fun c => harmless_byte c = true /\ isShellBlank c = false) w -> shell_word w.
Proof.
  induction 1 as [|c w [Hc Hb] _ IH]; constructor; [|done]. revert Hc Hb.
  destruct c as [[] [] [] [] [] [] [] []]; vm_compute; done.
Qed.

Lemma program_solid c : program_byte c = true -> harmless_byte c = true /\ isShellBlank c = false.
Proof. destruct c as [[] [] [] [] [] [] [] []]; vm_compute; done. Qed.

Lemma join_bytes_cons sep s l :
  join_bytes sep (s :: l) = s ++ match l with [] => [] | _ => sep ++ join_bytes sep l end.
Proof. destruct l; simpl; [by rewrite app_nil_r|done]. Qed.

(** The text shown of a command is a command that shows the same. *)
Lemma shows_shown rest pieces :
  shows rest pieces ->
  shows (join_bytes [space] pieces) pieces /\ solid (join_bytes [space] pieces) /\
  Forall (fun c => harmless_byte c = true) (join_bytes [space] pieces).
Proof.
  induction 1 as [|name value gap rest pieces Hn Hv _ _ _ _ Hp (IHs & IHsolid & IHb)
                 |word gap args Hne Hp _ _ _].
  - split_and!; constructor.
  - rewrite join_bytes_cons. pose proof (name_bytes _ Hn) as Hnb.
    assert (Forall (fun c => harmless_byte c = true) (name ++ lit "=" ++ Redacted)) as Hbytes.
    { apply Forall_app. split; [|by repeat constructor].
      eapply Forall_impl; [exact Hnb|]. intros c Hc. by apply program_solid. }
    split_and!.
    + change (name ++ lit "=" ++ Redacted) with (name ++ "="%char :: Redacted) at 1.
      set (gap' := match pieces with [] => [] | _ => [space] end).
      assert (match pieces with [] => [] | _ => [space] ++ join_bytes [space] pieces end =
              gap' ++ join_bytes [space] pieces) as -> by (by destruct pieces).
      apply shows_assignment; try done; [by rewrite <- isBlankShellWord_iff|..].
      * apply harmless_word, Forall_app. split; [|by repeat constructor].
        eapply Forall_impl; [exact Hnb|]. intros c Hc. by apply program_solid.
      * unfold gap'. destruct pieces; by repeat constructor.
      * unfold gap'. by destruct pieces.
    + destruct name as [|c name]; [done|]. simpl. inversion Hnb as [|?? Hc _]; subst.
      by apply program_solid in Hc as [_ Hc].
    + apply Forall_app. split; [done|]. destruct pieces; [constructor|]. by constructor.
  - assert (Forall (fun c => program_byte c = true) word) as Hw.
    { apply Forall_forall. intros c Hc%list_elem_of_In. apply isPlainProgramName_iff in Hp.
      unfold isPlainProgramName in Hp. rewrite forallb_forall in Hp. auto. }
    assert (Forall (fun c => harmless_byte c = true) word) as Hb.
    { eapply Forall_impl; [exact Hw|]. intros c Hc. by apply program_solid. }
    assert (solid word) as Hsolid.
    { destruct Hw as [|c w Hc _]; [done|]. by apply program_solid in Hc as [_ Hc]. }
    destruct args as [|a args]; simpl.
    + split_and!; [|done|done].
      rewrite <- (app_nil_r word) at 1. change (@nil ascii) with (@nil ascii ++ []) at 1.
      by apply (shows_program word [] []); [done|done|constructor|done|done].
    + split_and!; [|by destruct word|by apply Forall_app; split; [|repeat constructor]].
      change (word ++ space :: Redacted) with (word ++ [space] ++ Redacted).
      by apply (shows_program word [space] Redacted); [done|done|by repeat constructor|done|done].
Qed.

Lemma harmless_no_continuation s :
  Forall (fun c => harmless_byte c = true) s -> Contains s [backslash; chr 10] = false.
Proof.
  intros Hs. unfold Contains. destruct (Index s _) as [n|] eqn:Hi; [|done]. exfalso.
  apply Index_Some in Hi as (Hp & _ & _). apply HasPrefix_spec in Hp as [t Ht].
  assert (backslash ∈ s) as Hin.
  { eapply list_elem_of_lookup_2 with (i := n). rewrite <- (Nat.add_0_r n), <- lookup_drop, Ht. done. }
  rewrite Forall_forall in Hs. by specialize (Hs _ Hin).
Qed.

Lemma RedactShellCommand_idempotent command :
  RedactShellCommand (RedactShellCommand command) = RedactShellCommand command.
Proof.
  assert (RedactShellCommand Redacted = Redacted) as Hr by (vm_compute; reflexivity).
  unfold RedactShellCommand at 2 3. destruct (Contains command _) eqn:Hc; [done|].
  destruct (trim_blanks command) as [|c t] eqn:Ht.
  { unfold RedactShellCommand. by rewrite Hc, Ht. }
  destruct (pieces_from (c :: t) []) as [out|] eqn:Hrun; [|done].
  assert (solid (c :: t)) as Hsolid.
  { destruct (trim_blanks_split command) as (_ & _ & _ & Hs). by rewrite Ht in Hs. }
  destruct (pieces_sound _ _ Hrun) as (pieces & Hp); [done|eauto|].
  rewrite (pieces_complete _ _ _ Hp) in Hrun. injection Hrun as <-. simpl app.
  destruct (shows_shown _ _ Hp) as (Hs & Hss & Hb).
  apply (command_pieces [] (join_bytes [space] pieces));
    [constructor| |done|by apply harmless_no_continuation|done].
  intros Hnil. rewrite Hnil in Hs. inversion Hs as [| |word gap args Hne _ _ _ _ Heq]; subst.
  - inversion Hp.
  - by destruct name.
  - by destruct word.
Qed.

(** Redacting a setting twice changes nothing more.  For every setting but
    those that hold a connection string, the value [RedactValue] returns is
    returned as it is when it is redacted again, as the migration of stored
    rows and the server do. *)
Theorem setting_redacted_once `{UnicodeCase} name value :
  IsConnectionStringSetting name = false ->
  RedactValue name (RedactValue name value) = RedactValue name value.
Proof.
  unfold IsConnectionStringSetting. intros Hn. unfold RedactValue. rewrite Hn.
  destruct (IsCredentialSetting name); [|by rewrite !orb_true_r].
  cbn [negb]. rewrite !orb_false_r. destruct (bytes_eqb value []) eqn:Hv; [by rewrite Hv|].
  destruct (named_in (ToLower name) shellCommandSettings); [|done].
  destruct (bytes_eqb (RedactShellCommand value) []); [done|].
  apply RedactShellCommand_idempotent.
Qed.
