(* ===== verification/WitnessesRedaction.v ===== *)
(** * Redaction at concrete inputs

    Each theorem of ConnGrammar and SettingRedaction where its hypotheses
    hold, and three places where the code does not do what its comments
    say. *)
From stdpp Require Import base list strings.
From Stdlib Require Import Ascii ZArith.
From S2P Require Import Prelude GoStrings AuditText GoText Redaction ConnString ConnGrammar SettingRedaction Witnesses.

Local Open Scope list_scope.

#[local] Existing Instance ascii_case.

Definition redacted (s : string) : string := text (RedactPasswords (lit s)).

(** Rows of redact_test.go and of pgsettings/redact_test.go. *)
Example redacted_conninfo :
  redacted "host=192.0.2.1 password='s3 cret' port=5432" = "host=192.0.2.1 password=******** port=5432"%string /\
  redacted "s3cret" = "********"%string /\
  redacted "postgresql://u:p@[2001:db8::1]:5432/db?password=q" =
    "postgresql://u:********@[2001:db8::1]:5432/db?password=********"%string.
Proof. vm_compute. split_and!; reflexivity. Qed.

Example redacted_command :
  text (RedactValue (lit "Archive_Command") (lit "PGPASSWORD=s3cret pg_receivewal -d host=192.0.2.1 %p")) =
  "PGPASSWORD=******** pg_receivewal ********"%string.
Proof. vm_compute. reflexivity. Qed.

(** ** Connection strings *)

Definition host_setting : setting :=
  {| before := []; key := lit "host"; gap := []; gap' := []; raw := lit "h"; decoded := lit "h" |}.
Definition password_setting : setting :=
  {| before := lit " "; key := lit "Password"; gap := lit " "; gap' := [];
     raw := lit "'it\'s secret'"; decoded := lit "it's secret" |}.

Lemma demo_conninfo :
  conninfo (lit "host=h Password ='it\'s secret' ") [host_setting; password_setting] (lit " ").
Proof.
  change (lit "host=h Password ='it\'s secret' ")
    with (setting_text host_setting ++ setting_text password_setting ++ lit " ").
  apply conninfo_setting; [|apply conninfo_setting].
  - constructor; by repeat constructor.
  - constructor; try by repeat constructor.
    change (raw password_setting) with (squote :: lit "it\'s secret" ++ [squote]).
    apply value_quoted. do 2 (apply quoted_byte; [done|done|]). apply quoted_escape.
    repeat (apply quoted_byte; [done|done|]). apply quoted_nil.
  - apply conninfo_end. by repeat constructor.
Defined.

Lemma conninfo_shown_without_passwords_witness :
  redacted "host=h Password ='it\'s secret' " = "host=h Password =******** "%string.
Proof.
  unfold redacted.
  rewrite (proj1 (conninfo_shown_without_passwords (lit "host=h Password ='it\'s secret' ") eq_refl)
             _ _ demo_conninfo).
  vm_compute. reflexivity.
Defined.

(** Redacting again what stands before a quoted password's next keyword
    swallows the keyword: the second redaction is not the first. *)
Example redacted_twice_differs :
  redacted "password='abc'sslmode=require" = "password=********sslmode=require"%string /\
  redacted (redacted "password='abc'sslmode=require") = "password=********"%string.
Proof. vm_compute. split; reflexivity. Qed.

(** ** Building *)

Lemma Build_read_back_witness :
  exists ps, conninfo (Build [(lit "user", lit "a b"); (lit "password", lit "x\y=z")]) ps [] /\
    map (fun p => (key p, decoded p)) ps = [(lit "user", lit "a b"); (lit "password", lit "x\y=z")].
Proof. apply Build_read_back. repeat constructor. Defined.

(** A value with a single quote is not read back: what is built is not a
    connection string at all. *)
Example quote_not_read_back ps tail :
  ~ conninfo (Build [(lit "password", lit "it's")]) ps tail.
Proof.
  intros Hc. assert (redactKeywordValue id (Build [(lit "password", lit "it's")]) = None) as Hnone
    by (vm_compute; reflexivity).
  rewrite (proj2 (redactKeywordValue_exact id _ _)) in Hnone by eauto. done.
Qed.

(** ** URIs *)

Definition demo_uri : uri :=
  {| scheme := lit "postgresql://"; user := Some (lit "u", Some (lit "p"));
     place := lit "[2001:db8::1?]:5432/db";
     query := [{| param_name := lit "sslmode"; param_value := Some (lit "require") |};
               {| param_name := lit "Pass%77ord"; param_value := Some (lit "q") |}] |}.

Lemma uri_shown_without_passwords_witness :
  redacted "postgresql://u:p@[2001:db8::1?]:5432/db?sslmode=require&Pass%77ord=q" =
  "postgresql://u:********@[2001:db8::1?]:5432/db?sslmode=require&Pass%77ord=********"%string.
Proof.
  unfold redacted.
  change (lit "postgresql://u:p@[2001:db8::1?]:5432/db?sslmode=require&Pass%77ord=q")
    with (uri_text demo_uri).
  rewrite (uri_shown_without_passwords demo_uri); [vm_compute; reflexivity|]. constructor.
  - apply list_elem_of_here.
  - split; by repeat constructor.
  - change (place demo_uri) with ("["%char :: lit "2001:db8::1?" ++ "]"%char :: lit ":5432/db").
    apply place_address; [by repeat constructor|].
    repeat (apply place_byte; [reflexivity|]). apply place_nil.
  - repeat constructor.
Defined.

(** After a bracket that is not closed no query string is found, and its
    password is shown; libpq closes brackets only around a host. *)
Example unclosed_bracket_leaks :
  redacted "postgresql://h/db[?password=s3cret" = "postgresql://h/db[?password=s3cret"%string.
Proof. vm_compute. reflexivity. Qed.

(** ** Shell commands *)

Lemma demo_command_shows :
  shows (lit "PGPASSWORD='s3 cret' pg_receivewal -D x")
    [lit "PGPASSWORD=********"; lit "pg_receivewal"; Redacted].
Proof.
  change (lit "PGPASSWORD='s3 cret' pg_receivewal -D x")
    with ((lit "PGPASSWORD" ++ "="%char :: lit "'s3 cret'") ++ [space] ++
          lit "pg_receivewal" ++ [space] ++ lit "-D x").
  apply (shows_assignment (lit "PGPASSWORD") (lit "'s3 cret'") [space]); try reflexivity.
  - by apply isShellVariableName_iff.
  - by rewrite <- isBlankShellWord_iff.
  - repeat (apply word_byte; [reflexivity|]).
    apply (word_single (lit "s3 cret") []); [by repeat constructor|constructor].
  - by repeat constructor.
  - discriminate.
  - apply (shows_program (lit "pg_receivewal") [space] (lit "-D x")); try reflexivity;
      [discriminate|by apply isPlainProgramName_iff|by repeat constructor|discriminate].
Defined.

Lemma shell_command_shown_witness :
  text (RedactShellCommand (lit " PGPASSWORD='s3 cret' pg_receivewal -D x")) =
  "PGPASSWORD=******** pg_receivewal ********"%string.
Proof.
  destruct (shell_command_shown (lit " PGPASSWORD='s3 cret' pg_receivewal -D x")) as (_ & _ & Hshown).
  assert (~ continues_line (lit " PGPASSWORD='s3 cret' pg_receivewal -D x")) as Hline.
  { intros Hc. apply (Contains_iff _ [backslash; chr 10]) in Hc. by vm_compute in Hc. }
  destruct (Hshown Hline (lit " ") (lit "PGPASSWORD='s3 cret' pg_receivewal -D x") eq_refl)
    as [Hpieces _].
  - by repeat constructor.
  - discriminate.
  - reflexivity.
  - rewrite (Hpieces _ demo_command_shows). vm_compute. reflexivity.
Defined.
